(* ===== verification/_CoqProject ===== *)
-Q . S2P
Prelude.v
Types.v
Layout.v
Msg.v
Row.v
Table.v
Mempool.v
SendQ.v
MsgHandler.v
SwitchPkt.v
GenericPkt.v
HotCold.v
Sched.v
Undolog.v
Executor.v
RowAccess.v
Serial.v
SerialSteps.v
Serializability.v
ExecSpec.v
ExecLoops.v
Leftover.v
Barrier.v
OldBarrier.v
HotPeriod.v
OldHotPeriod.v
SwIntf.v
ControlPlane.v
SchedServer.v
Tenants.v
SimLayout.v
NaiveSpray.v
SimLocks.v
SimSwitch.v
SimChecker.v
SimSerial.v
SimRun.v
Batching.v
Buckets.v
Spaced.v
OldOrder.v
IntLog.v
Transport.v
Udp.v
HexDump.v
SwitchEmu.v
SpinLock.v
Timestamps.v
Loader.v
TxnLoop.v
Startup.v
Workloads.v
ProdTrace.v
SimDrain.v
SimLane.v
SimTests.v
Reports.v
