(* ===== verification/Prelude.v ===== *)
(** * p4db: a verification library

    p4db is a distributed main-memory database that runs the hot part of each
    transaction on a programmable switch.  Nodes execute transactions in
    batches: every transaction is split into operations on keys that live in
    the switch's registers (hot) and the others (cold); the cold part runs under
    row locks, with messages to the nodes that own remote rows; the hot part is
    packed into switch packets that one thread per node sends at the end of the
    batch.  A scheduler on the switch's control plane gives blocks of register
    memory to tenants.  A separate simulator ([mine/fast_layout]) studies layouts
    and locking inside the switch.

    ** Reading the models

    A C++ function is a Rocq function on an explicit state.  One that can fail
    an assertion, index out of bounds, divide by zero, throw or spin for ever
    returns [outcome]; a loop is [foldl], [ofold] or a fixpoint on the list it
    walks.  Machine integers are [Z] with the wrap-around written out ([wrap],
    [u32], [u64]).  Build constants that change behaviour (one or two switch
    passes) are the record [build] of Types; both builds are covered where the
    statement does not say otherwise.  Concurrency is a step relation whose
    steps are the atomic actions of the code: a critical section of a spin lock,
    an atomic access, the handling of one message.  A message that its sender does
    not wait for (a put) is under way until a step of the network handles it.

    ** The files

    This file: outcomes, wrap-around, array access, the loop rules
    ([foldl_inv], [ofold_inv], [ofold_total]), [argmin] (the search loops of the
    layouts), [std_sort], bit fields, the tactic [minv] that inverts monadic
    computations, and the hint database [p4db].

    The nodes ([src/src]):
    - Types: ee/defs.hpp, types.hpp, errors.hpp, args.hpp, loc_info.hpp and the
      ids of comm/msg.hpp.  Ids survive their packing.
    - Layout: layout/declustered_layout.  [get_location] and [rev_lookup] are
      inverse as long as no register holds more than 2^16 keys (after that keys share
      slots), loads are balanced; a key outside the table aliases slot 0.
    - Msg, MsgHandler: comm/msg.hpp, comm/msg_handler.cpp and its handlers; a
      node as its network thread sees it.
    - Row: ee/row.hpp and future.hpp.  The lock word refines a shared/exclusive
      lock, excludes in every interleaving of clients, and admits writers in
      mini-batch order.
    - Table: ee/partition.hpp, table.hpp and the registry of database.hpp.
    - Mempool, SendQ: utils/mempools.hpp and the packet queue of database.hpp.
    - SwitchPkt, GenericPkt: ee/switch.cpp.  The one-pass packet decodes to the
      transaction; packets of both formats are well typed.  GenericPkt also writes
      down how my_p4db.p4 reads the generic ones: it finds both passes, but takes
      reads for writes and writes for reads.
    - HotCold: ee/hot_cold.cpp.  [extract_hot_cold] partitions the operations.
    - Sched: ee/sched.cpp.  A batch is scheduled completely, each transaction split
      into its hot and cold part, and no two nodes get
      the same hottest cold key in one mini-batch.
    - Undolog, Executor: ee/undolog, ee/executor.cpp.  [clear_remote] only sends;
      [wait_puts] at the end of a log's [clear] waits for the responses, and [settle]
      is the network doing its work meanwhile, for a transaction run alone.
    - RowAccess, Serial, SerialSteps, Serializability: any number of workers on
      any nodes, cut into the steps between which others can act.  Every
      interleaving, also of the puts under way, is equivalent to a serial run in
      the order of the last locks, and is bounded: 5n+3 steps of workers and network
      for n operations, without deadlock.
    - ExecSpec, ExecLoops: a transaction run alone is atomic; a batch is a sequence of
      calls of [run_txn] and loses and repeats no transaction; the fall back.
    - Leftover: the phase that runs the deferred transactions.  Each commits at its
      first attempt, unless one conflicts with itself: then the phase never ends.
    - TxnLoop: [txn_executor] as a whole on a node with one worker.  What commits in
      a batch is what the hot period sends, once and in order.
    - Startup: main/config.cpp, and how main/main.cpp fills the table.
    - Barrier: utils/rbarrier.hpp (module Local) and comm/handlers/barrier.cpp
      (module Nodes): separation of rounds, one middle action, liveness; the
      node barrier is safe for two nodes but can hang.
    - OldBarrier: comm/handlers/barrier.cxx, an earlier node barrier that is not
      built: it works once.
    - Transport: comm/tcp and comm/buffer.hpp.  Whatever pieces the byte stream
      comes in, messages arrive whole, once and in order; set-up connects every
      pair of nodes.  [recv] is the class [Stream], its documented behaviour
      [StreamOk]; a scripted connection is an instance.
    - Loader: main/loader.cpp and the distribution of the transactions over the
      workers in main/main.cpp.  The files are parsed as meant; every worker gets
      its equal share.
    - SpinLock, Timestamps: utils/spinlock.hpp and ts_factory.  Mutual exclusion
      in every interleaving; timestamps are unique in the cluster.
    - HexDump: utils/hex_dump.cpp.  A dump determines the bytes.
    - IntLog: the integer logarithms and size formatting of utils/util.  The
      table-driven logarithm equals the naive one on every width.
    - HotPeriod: ee/hot_period.cpp.  Packets leave in order, in windows of one
      mini-batch between barriers; the start and end packets cover the hot keys; a
      node with an empty queue passes fewer barriers than the others.
    - OldHotPeriod: ee/old_hot_period.cpp, an earlier version that is not built.
    - SwIntf: comm/switch_intf.cpp.  The receive ring, shared with the kernel, hands
      over every accepted frame once and in order.
    - Udp: comm/udp.cpp, the transport that comm.hpp does not select.
    - SwitchEmu: switch_src/switch_emu.cpp, the stand-in for the switch.

    The control plane ([src/switch_src/01_control_plane], ee/sched_intf.cpp):
    - ControlPlane: the block allocator and the handling of a request against a
      specification with one queue of tenants per block.
    - SchedServer: the server's main loop and the bytes of its protocol.
    - Tenants: the server together with the nodes of all tenants.  In every
      interleaving two tenants in their hot periods have different blocks, no
      assertion fails, and the system does not get stuck.

    The simulator ([src/mine/fast_layout]):
    - SimLayout: layout.cpp and [get_key_cts] of batch.cpp.  Every placement
      heuristic yields a bijection; a transaction becomes exactly its passes.
    - NaiveSpray: the iterator over the different keys of a batch and
      [naive_spray_impl], whose call is commented out.
    - SimLocks: [prepare_txns_sw].  A slot of a second pass is covered by the locks of
      every transaction that uses it.
    - SimSwitch: switch.cpp and mempool.h, cycle by cycle.
    - SimChecker: the history checker decides acyclicity.
    - SimSerial, SimRun: an invariant of the pipeline that every operation
      keeps.  [sim_run] relates a run to the list of transactions that its cycles
      admitted; recorded dependencies follow that order, cycles never fault, and the
      checker accepts unless a transaction depends on itself.
    - SimDrain, SimLane: a lower bound of the progress of the pipeline, and the
      simulation of an abstract lane (a queue in front of a counted trip, with a
      lock of its own, [lane_lock]) by the switch as one port sees it.
    - SimTests: system_test.cpp, cc_system_test.cpp and nobatch_system_test.cpp.  The
      programs that drive the switch end, with every transaction received (the last
      one gives up after 400000 cycles and is proved for what fits into them).
    - Workloads: the readers and generators of batch.cpp.  A trace is read back as it
      was written.
    - ProdTrace: prod_trace.cpp.  The bytes it writes hold every prepared
      transaction, for workloads whose slots fit 16 bits.
    - Reports: layout_test, pass_ct_test, big_layout_test, distr_layout_test,
      interval_analysis, batch_analysis and batching_strats.  What they count is what
      they say, except for [hash_batching], which reports nothing.
    - Batching: the batch iterator of batch.cpp, lookahead.cpp and [gen_batch] of
      lookahead_batching_old.cpp.  Batches are free of conflicts and run every
      transaction once.
    - Buckets, Spaced: my_batching.cpp and lookahead_batching.cpp.  Both end, having
      run every transaction once, in batches of disjoint keys, for every priority
      queue that satisfies the class [MaxHeapOk] (which of several largest elements
      [std::priority_queue] returns is not specified).
    - OldOrder: the main of lookahead_batching_old.cpp keeps every transaction.

    ** How they interact

    Executor uses Undolog, Row, Table and MsgHandler (through [deliver], a lock
    request for whose reply the worker waits, and through the puts under way of
    Undolog), Sched and HotCold for a batch, SwitchPkt and SendQ for the packets it
    leaves to HotPeriod.  HotCold, Sched and
    HotPeriod ask Layout for the places of keys.  Barrier separates the phases.
    SimRun composes SimSwitch with SimChecker.  Batching, Buckets and Spaced share
    the conflict test, the counting of keys and the [MaxHeap] interface; Loader
    builds the layout of Layout and asks Table where a key lives.  SimTests, ProdTrace
    and Reports run the programs of the simulator on what Workloads reads, Batching
    cuts into batches and SimLayout and SimLocks prepare.

    ** Bounds and fuel

    Structural recursion is used where it can be.  The exceptions: the retry
    loops of [run_leftover_txns] take the number of attempts, and
    [leftovers_end_unless_stuck] says for which inputs no number is enough and
    how many are for the others; [runs] and [assign_locks] take the length
    of the list they consume; [walk_graph] takes the number of nodes plus one,
    which [checker_correct] shows to be enough for every graph; the loops of
    HotPeriod take the number of entries left.  [gen_batch] calls itself at most
    once, and the loops of Batching, Buckets and Spaced take the number of
    transactions (or a product with the number of threads), which their theorems
    show to be enough; [batch_accounts] shows the same of the loops of a batch.
    [naive_loop] has one step per bit.  [recv_loop] takes the number of bytes and
    failed calls to come.  The readers of Workloads take two turns more than the file
    has lines, enough for every file that opens; [draw_new] takes a number of draws
    after which a random source with the property [fair] has given a new key; the
    driving loops of SimTests take a number of cycles that their theorem shows to be
    enough; [old_rounds] and [old_windows] take the number of transactions or entries,
    [iter_skip] the number of operations of the batch.  In [sim_run] the 64-bit
    transaction ids do not wrap around, in Tenants the 32-bit batch numbers.

    ** Not modelled

    The calls of the operating system themselves (they are arguments or
    interfaces); clocks, pacing delays and statistics; the option parser (a
    library) and the start of the threads (main/); printing, thread contexts and the
    generic templates of utils/util.hpp; the P4 programs, except for how they read
    instructions, and the vendor run time behind p4db.cpp; raw_sock.cpp, which sends
    a packet by hand; thread_batching.cxx, an experiment with real threads.  With several
    workers on a node, the sections of [txn_executor] between two batches are
    modelled by their parts (HotPeriod, [run_leftover_txns], Barrier), with one by
    [batch_turn].  The memory model is
    sequentially consistent. *)
From stdpp Require Import base tactics list numbers gmap sorting.
From Stdlib Require Import ZArith Lia.

#[global] Open Scope Z_scope.

(** ** Faults and the outcome monad

    A C++ function of the repository either returns, fails an [assert],
    indexes an array outside its bounds, divides by zero, throws, or spins on a
    condition that nothing will make true.  [outcome A] is the type of the
    models of functions that can do one of the last five. *)

(** The exceptions of [ee/errors.hpp], and the standard ones the code throws. *)
Inductive exn :=
| TableFull
| TableCastFailed
| InvalidAccessMode
| FutureException
| UndoException
| PacketBufferTooSmall
| SerializerReadCmp
| RuntimeError
| LogicError
| OutOfRangeError
| BadOptionalAccess.

Inductive fault :=
| AssertFailed
| OutOfBounds
| DivideByZero
| Spins
| Exited (code : Z)
| Thrown (e : exn).

Inductive outcome (A : Type) :=
| Ok (a : A)
| Fail (f : fault).
Arguments Ok {A} _.
Arguments Fail {A} _.

#[global] Instance exn_eq_dec : EqDecision exn.
Proof. solve_decision. Defined.
#[global] Instance fault_eq_dec : EqDecision fault.
Proof. solve_decision. Defined.
#[global] Instance outcome_eq_dec `{EqDecision A} : EqDecision (outcome A).
Proof. solve_decision. Defined.

#[global] Instance outcome_ret : MRet outcome := λ A a, Ok a.
#[global] Instance outcome_bind : MBind outcome := λ A B k c,
  match c with Ok a => k a | Fail f => Fail f end.
#[global] Instance outcome_fmap : FMap outcome := λ A B g c,
  match c with Ok a => Ok (g a) | Fail f => Fail f end.

(** [assert(b)]. *)
Definition assert (b : bool) : outcome unit :=
  if b then Ok tt else Fail AssertFailed.

(** [a[i]] on an array or vector, where an index out of range is a fault. *)
Definition aget {A} (l : list A) (i : nat) : outcome A :=
  match l !! i with Some x => Ok x | None => Fail OutOfBounds end.

(** [a[i] = x], with the same fault. *)
Definition aset {A} (l : list A) (i : nat) (x : A) : outcome (list A) :=
  if decide (i < length l)%nat then Ok (<[i := x]> l) else Fail OutOfBounds.

(** The same on an index that arithmetic may have wrapped around. *)
Definition zget {A} (l : list A) (i : Z) : outcome A :=
  if decide (0 ≤ i < Z.of_nat (length l)) then aget l (Z.to_nat i) else Fail OutOfBounds.
Definition zset {A} (l : list A) (i : Z) (x : A) : outcome (list A) :=
  if decide (0 ≤ i < Z.of_nat (length l)) then aset l (Z.to_nat i) x else Fail OutOfBounds.

(** A loop body run over a list of inputs, stopping at the first fault. *)
Fixpoint ofold {A B} (f : B → A → outcome B) (l : list A) (b : B) : outcome B :=
  match l with
  | [] => Ok b
  | a :: l' => b' ← f b a; ofold f l' b'
  end.

(** [a / b] and [a % b] on unsigned integers. *)
Definition udiv (a b : Z) : outcome Z := if b =? 0 then Fail DivideByZero else Ok (a / b).
Definition umod (a b : Z) : outcome Z := if b =? 0 then Fail DivideByZero else Ok (a mod b).

(** ** Machine integers: [Z] with the wrap-around written out *)

Definition wrap (w z : Z) : Z := z mod 2 ^ w.
Abbreviation u8 := (wrap 8).
Abbreviation u16 := (wrap 16).
Abbreviation u32 := (wrap 32).
Abbreviation u64 := (wrap 64).

Lemma wrap_range w z : 0 ≤ w → 0 ≤ wrap w z < 2 ^ w.
Proof. intros. apply Z.mod_pos_bound, Z.pow_pos_nonneg; lia. Qed.

Lemma wrap_small w z : 0 ≤ z < 2 ^ w → wrap w z = z.
Proof. apply Z.mod_small. Qed.

Lemma wrap_wrap w z : wrap w (wrap w z) = wrap w z.
Proof. apply Zmod_mod. Qed.

(** Adding multiples of [2 ^ w] is invisible to a [w]-bit integer. *)
Lemma wrap_add_mul w z k : 0 ≤ w → wrap w (z + k * 2 ^ w) = wrap w z.
Proof. intros. unfold wrap. rewrite Z.mod_add; [done|]. apply Z.pow_nonzero; lia. Qed.

(** ** Inversion of the monad, and the automation built on it *)

Lemma bind_ok {A B} (c : outcome A) (k : A → outcome B) b :
  c ≫= k = Ok b ↔ ∃ a, c = Ok a ∧ k a = Ok b.
Proof. destruct c; naive_solver. Qed.

Lemma assert_ok b u : assert b = Ok u ↔ b = true.
Proof. destruct b, u; naive_solver. Qed.

Lemma aget_ok {A} (l : list A) i x : aget l i = Ok x ↔ l !! i = Some x.
Proof. unfold aget. destruct (l !! i); naive_solver. Qed.

Lemma aget_some {A} (l : list A) i x : l !! i = Some x → aget l i = Ok x.
Proof. apply aget_ok. Qed.

Lemma zget_some {A} (l : list A) i x : 0 ≤ i → l !! Z.to_nat i = Some x → zget l i = Ok x.
Proof. intros H0 Hx. pose proof (lookup_lt_Some _ _ _ Hx). unfold zget. rewrite decide_True by lia. by apply aget_some. Qed.

Lemma aset_ok {A} (l : list A) i x l' :
  aset l i x = Ok l' ↔ (i < length l)%nat ∧ l' = <[i := x]> l.
Proof. unfold aset. case_decide; naive_solver. Qed.

Lemma udiv_ok a b q : udiv a b = Ok q ↔ b ≠ 0 ∧ q = a / b.
Proof. unfold udiv. destruct (Z.eqb_spec b 0); naive_solver. Qed.

Lemma udiv_nz a b : b ≠ 0 → udiv a b = Ok (a / b).
Proof. intros. by apply udiv_ok. Qed.

Lemma umod_ok a b q : umod a b = Ok q ↔ b ≠ 0 ∧ q = a mod b.
Proof. unfold umod. destruct (Z.eqb_spec b 0); naive_solver. Qed.

Lemma aget_lt {A} (l : list A) i :
  (i < length l)%nat → ∃ x, aget l i = Ok x ∧ l !! i = Some x.
Proof. intros [x Hx]%lookup_lt_is_Some. exists x. by rewrite aget_ok. Qed.

Lemma aset_lt {A} (l : list A) i x :
  (i < length l)%nat → aset l i x = Ok (<[i := x]> l).
Proof. intros. by apply aset_ok. Qed.

Create HintDb p4db.
#[export] Hint Resolve wrap_range : p4db.

(** Turns every successful monadic computation among the hypotheses into the
    equations of its steps. *)
Ltac minv :=
  repeat match goal with
  | H : _ ≫= _ = Ok _ |- _ =>
      apply bind_ok in H;
      let a := fresh "r" in let E := fresh "E" in destruct H as (a & E & H)
  | H : assert _ = Ok _ |- _ => apply assert_ok in H
  | H : aget _ _ = Ok _ |- _ => apply aget_ok in H
  | H : aset _ _ _ = Ok _ |- _ => apply aset_ok in H; destruct H as [? ->]
  | H : udiv _ _ = Ok _ |- _ => apply udiv_ok in H; destruct H as [? ->]
  | H : umod _ _ = Ok _ |- _ => apply umod_ok in H; destruct H as [? ->]
  | H : mret _ = Ok _ |- _ => injection H as H
  | H : Ok _ = Ok _ |- _ => injection H as H
  | H : Fail _ = Ok _ |- _ => discriminate H
  | H : Ok _ = Fail _ |- _ => discriminate H
  end; simplify_eq.

(** ** Loops

    The rules below are the loop rules of the development: a property of the
    loop's variables, indexed by the prefix of inputs already consumed. *)

Lemma foldl_inv {A B} (P : list A → B → Prop) (f : B → A → B) l b :
  P [] b →
  (∀ pre a post b', l = pre ++ a :: post → P pre b' → P (pre ++ [a]) (f b' a)) →
  P l (foldl f b l).
Proof.
  intros H0 HS.
  cut (∀ post pre b', l = pre ++ post → P pre b' → P l (foldl f b' post)).
  { intros H. by apply (H l []). }
  induction post as [|a post IH]; intros pre b' Hl HP; simpl.
  - by rewrite Hl, app_nil_r.
  - apply (IH (pre ++ [a])); [by rewrite <-app_assoc|by eapply HS].
Qed.

Lemma ofold_inv {A B} (P : list A → B → Prop) (f : B → A → outcome B) l b b' :
  P [] b →
  (∀ pre a post b1 b2, l = pre ++ a :: post → P pre b1 → f b1 a = Ok b2 → P (pre ++ [a]) b2) →
  ofold f l b = Ok b' → P l b'.
Proof.
  intros H0 HS.
  cut (∀ post pre b1, l = pre ++ post → P pre b1 → ofold f post b1 = Ok b' → P l b').
  { intros H. by apply (H l []). }
  induction post as [|a post IH]; intros pre b1 Hl HP Hf; simpl in Hf; minv.
  - by rewrite app_nil_r.
  - apply (IH (pre ++ [a]) r); [by rewrite <-app_assoc|by eapply HS|done].
Qed.

Lemma ofold_app {A B} (f : B → A → outcome B) l1 l2 b :
  ofold f (l1 ++ l2) b = (b' ← ofold f l1 b; ofold f l2 b').
Proof.
  revert b. induction l1 as [|a l1 IH]; intros b; simpl; [done|].
  destruct (f b a); simpl; auto.
Qed.

Lemma ofold_total {A B} (P : list A → B → Prop) (f : B → A → outcome B) l b :
  P [] b →
  (∀ pre a post b1, l = pre ++ a :: post → P pre b1 → ∃ b2, f b1 a = Ok b2 ∧ P (pre ++ [a]) b2) →
  ∃ b', ofold f l b = Ok b' ∧ P l b'.
Proof.
  intros H0 HS.
  cut (∀ post pre b1, l = pre ++ post → P pre b1 → ∃ b', ofold f post b1 = Ok b' ∧ P l b').
  { intros H. by apply (H l []). }
  induction post as [|a post IH]; intros pre b1 Hl HP; simpl.
  - exists b1. by rewrite Hl, app_nil_r.
  - destruct (HS pre a post b1 Hl HP) as (b2 & -> & H2). simpl.
    apply (IH (pre ++ [a])); [by rewrite <-app_assoc|done].
Qed.

(** [seq] cut at an element: what the elements before and after it are. *)
Lemma seq_cut s n pre i post :
  seq s n = pre ++ i :: post →
  pre = seq s (length pre) ∧ i = (s + length pre)%nat ∧ (length pre < n)%nat.
Proof.
  intros H.
  assert (length pre < n)%nat as Hlt.
  { apply (f_equal length) in H. rewrite length_seq, length_app in H. simpl in H. lia. }
  split; [|split; [|done]].
  - apply (f_equal (take (length pre))) in H.
    rewrite take_app_length in H. rewrite <-H at 1. rewrite take_seq. f_equal. lia.
  - apply (f_equal (lookup (length pre))) in H.
    rewrite lookup_seq_lt in H by done.
    rewrite list_lookup_middle in H by done. congruence.
Qed.

(** ** The least-loaded bin

    The loop [low = 0; for (r = 0; r < n; ++r) if (w[low] > w[r]) low = r;],
    which the layouts, the lock assignment and the loader all run. *)

Definition argmin (w : list Z) : nat :=
  foldl (λ low r, if decide (w !!! low > w !!! r) then r else low) 0%nat
        (seq 0 (length w)).

(** What the scan has established after looking at the first [n] bins. *)
Lemma argmin_spec w :
  (argmin w ≤ length w - 1)%nat
  ∧ (∀ r, (r < length w)%nat → w !!! argmin w ≤ w !!! r)
  ∧ (∀ r, (r < argmin w)%nat → w !!! argmin w < w !!! r).
Proof.
  unfold argmin.
  pose proof (foldl_inv (λ pre low, (low ≤ length pre - 1)%nat
    ∧ (∀ r, (r < length pre)%nat → w !!! low ≤ w !!! r)
    ∧ (∀ r, (r < low)%nat → w !!! low < w !!! r))
    (λ low r, if decide (w !!! low > w !!! r) then r else low)
    (seq 0 (length w)) 0%nat) as H.
  cbv beta in H. rewrite length_seq in H. apply H; clear H; [simpl; split_and!; lia|].
  intros pre r post low Hcut (Hlow & Hmin & Hfst).
  apply seq_cut in Hcut as (_ & -> & _). rewrite length_app; simpl.
  case_decide as Hgt; split_and!; try lia; intros r' Hr'.
  - destruct (decide (r' = length pre)) as [->|]; [lia|].
    specialize (Hmin r'). lia.
  - specialize (Hmin r'). lia.
  - destruct (decide (r' = length pre)) as [->|]; [lia|]. apply Hmin. lia.
  - by apply Hfst.
Qed.

Lemma argmin_lt w : w ≠ [] → (argmin w < length w)%nat.
Proof. destruct (argmin_spec w). destruct w; [done|]; simpl in *; lia. Qed.

Lemma argmin_le w r : (r < length w)%nat → w !!! argmin w ≤ w !!! r.
Proof. apply argmin_spec. Qed.

(** The scan keeps the first of several least-loaded bins. *)
Lemma argmin_first w r : (r < argmin w)%nat → w !!! argmin w < w !!! r.
Proof. apply argmin_spec. Qed.

(** [spread w d]: no two bins differ by more than [d].  Adding at most [d] to a
    least-loaded bin keeps the spread: the balance argument of every greedy
    assignment in the code. *)
Definition spread (w : list Z) (d : Z) : Prop :=
  ∀ r s, (r < length w)%nat → (s < length w)%nat → w !!! r - w !!! s ≤ d.

Lemma spread_argmin w d f :
  w ≠ [] → 0 ≤ f ≤ d → spread w d → spread (<[argmin w := w !!! argmin w + f]> w) d.
Proof.
  intros Hw Hf Hs r s. rewrite length_insert. intros Hr Hsl.
  pose proof (argmin_lt w Hw) as Hlt.
  destruct (decide (r = argmin w)) as [->|Hra], (decide (s = argmin w)) as [->|Hsa];
    rewrite ?list_lookup_total_insert_eq, ?list_lookup_total_insert_ne by done.
  - lia.
  - pose proof (argmin_le w s Hsl). lia.
  - pose proof (Hs r (argmin w) Hr Hlt). lia.
  - by apply Hs.
Qed.

Lemma spread_replicate n (x d : Z) : 0 ≤ d → spread (replicate n x) d.
Proof.
  intros Hd r s. rewrite length_replicate. intros.
  rewrite !lookup_total_replicate_2 by done. lia.
Qed.

#[export] Hint Resolve argmin_lt argmin_le argmin_first spread_argmin spread_replicate : p4db.

(** ** Bit fields *)

Lemma lor_shiftl_add a b n :
  0 ≤ n → 0 ≤ a < 2 ^ n → Z.lor a (Z.shiftl b n) = a + b * 2 ^ n.
Proof.
  intros Hn Ha.
  assert (Z.land a (Z.shiftl b n) = 0) as Hl.
  { apply Z.bits_inj'. intros i Hi. rewrite Z.land_spec, Z.bits_0.
    destruct (decide (i < n)) as [Hin|Hin].
    - rewrite Z.shiftl_spec_low by done. apply andb_false_r.
    - rewrite <-(Z.mod_small a (2 ^ n)) by done.
      rewrite Z.mod_pow2_bits_high by lia. done. }
  rewrite <-Z.lxor_lor by done. rewrite <-Z.add_nocarry_lxor by done.
  rewrite Z.shiftl_mul_pow2 by done. done.
Qed.

Lemma land_ones_wrap z n : 0 ≤ n → Z.land z (Z.ones n) = wrap n z.
Proof. intros. by apply Z.land_ones. Qed.

(** Splitting a word written as [low + high * 2 ^ n]. *)
Lemma split_low a b n : 0 ≤ n → 0 ≤ a < 2 ^ n → wrap n (a + b * 2 ^ n) = a.
Proof. intros Hn Ha. rewrite wrap_add_mul by done. by apply wrap_small. Qed.

Lemma split_high a b n : 0 ≤ n → 0 ≤ a < 2 ^ n → Z.shiftr (a + b * 2 ^ n) n = b.
Proof.
  intros Hn Ha. rewrite Z.shiftr_div_pow2 by done.
  rewrite Z.div_add by (apply Z.pow_nonzero; lia).
  rewrite Z.div_small by done. lia.
Qed.

(** ** [std::sort]

    [less] is the comparator the code passes; an element may come before
    another unless the comparator puts it strictly after.  On a comparator
    whose ties are equal elements the result is the only sorted order, so the
    model does not depend on the algorithm. *)
Definition may_precede {A} (less : A → A → bool) (a b : A) : Prop :=
  less a b || negb (less b a) = true.

#[global] Instance may_precede_dec {A} (less : A → A → bool) : RelDecision (may_precede less).
Proof. unfold RelDecision, may_precede. intros. apply _. Defined.

Definition std_sort {A} (less : A → A → bool) (l : list A) : list A :=
  merge_sort (may_precede less) l.

#[global] Instance may_precede_total {A} (less : A → A → bool) : Total (may_precede less).
Proof. intros a b. unfold may_precede. destruct (less a b), (less b a); auto. Qed.

Lemma std_sort_perm {A} (less : A → A → bool) l : std_sort less l ≡ₚ l.
Proof. apply merge_sort_Permutation. Qed.

Lemma std_sort_sorted {A} (less : A → A → bool) l :
  Transitive (may_precede less) → StronglySorted (may_precede less) (std_sort less l).
Proof. intros. by apply StronglySorted_merge_sort; try apply _. Qed.

Lemma StronglySorted_lookup {A} (R : relation A) l i j x y :
  StronglySorted R l → l !! i = Some x → l !! j = Some y → (i < j)%nat → R x y.
Proof.
  intros H. revert i j. induction H as [|a l H IH Ha]; intros i j Hi Hj Hlt; [done|].
  destruct j as [|j]; [lia|]. simpl in Hj. destruct i as [|i]; simpl in Hi.
  - simplify_eq. rewrite Forall_forall in Ha. apply Ha. by eapply list_elem_of_lookup_2.
  - eapply IH; eauto. lia.
Qed.

(** ** Updates of lists of lists, up to order *)

Lemma take_pop {A} (l : list A) x : last l = Some x → l = take (length l - 1) l ++ [x].
Proof.
  intros [l' ->]%last_Some. rewrite length_app, Nat.add_sub. by rewrite take_app_length.
Qed.

Lemma concat_uniform {A} m (l : list (list A)) : Forall (λ x, length x = m) l → length (concat l) = (m * length l)%nat.
Proof. induction 1 as [|x l Hx _ IH]; cbn; [lia|]. rewrite length_app, IH, Hx. lia. Qed.

Lemma concat_insert_perm {A} (l : list (list A)) i q q' : l !! i = Some q → concat (<[i := q']> l) ++ q ≡ₚ q' ++ concat l.
Proof.
  intros H. rewrite <-(take_drop_middle l i q H) at 2. rewrite (insert_take_drop l i q') by (by eapply lookup_lt_Some).
  rewrite !concat_app. cbn. solve_Permutation.
Qed.

Lemma omap_insert_perm {A} (l : list (option A)) i o o' :
  l !! i = Some o → omap id (<[i := o']> l) ++ option_list o ≡ₚ option_list o' ++ omap id l.
Proof.
  intros H. rewrite <-(take_drop_middle l i o H) at 2. rewrite (insert_take_drop l i o') by (by eapply lookup_lt_Some).
  rewrite !omap_app. destruct o, o'; cbn; solve_Permutation.
Qed.
