(* ===== verification/Types.v ===== *)
(** * Constants and shared data types of the database nodes

    [src/src/ee/defs.hpp] (build constants), [types.hpp] (access modes and
    packed transaction ids), [errors.hpp] (error codes), [loc_info.hpp],
    [args.hpp] (operations and transactions), the [TupleLocation] of
    [layout/declustered_layout.hpp] and the node ids of [comm/msg.hpp]. *)
From stdpp Require Import base tactics list numbers gmap.
From Stdlib Require Import ZArith Lia.
From S2P Require Import Prelude.

(** ** Build constants *)

Definition N_OPS : nat := 8.
Definition MAX_TIMES_ACCEL_ABORT : Z := 1.
Definition REMOTE_FRAC : Z := 10.
Definition BATCH_SIZE_TGT : Z := 100000.
Definition MINI_BATCH_SIZE_TGT : Z := 5000.
Definition MAX_OPS_PASS2_ACCEL : nat := 8.
Definition MAX_HOT_OPS : nat := 8.
Definition N_REGS : nat := 72.
Definition N_SW_LOCKS : nat := 32.
Definition COLD_BATCH_DUR_EST_NS : Z := 1000000.
Definition HOT_BATCH_DUR_EST_NS : Z := 1000000.

(** The compile-time switches.  [IS_ORIG_MODE] picks the first four;
    [MAX_PASSES_ACCEL] is 1 in the tree and 1 or 2 by the static assertion of
    [extract_hot_cold]. *)
Record build := Build {
  ORIG_MODE : bool;
  USE_FLOW_ORDER : bool;
  DO_SCHED : bool;
  SLOTS_PER_SCHED_BLOCK : Z;
  MAX_PASSES_ACCEL : Z;
}.

Definition default_build : build := Build false true true 32 1.
Definition orig_build : build := Build true false false 8 1.

Definition N_ACCEL_KEYS (bm : build) : Z := Z.of_nat N_REGS * SLOTS_PER_SCHED_BLOCK bm.

(** ** Access modes and error codes *)

Inductive AccessMode := INVALID | READ | WRITE.
#[global] Instance AccessMode_eq_dec : EqDecision AccessMode.
Proof. solve_decision. Defined.
#[global] Instance AccessMode_inhabited : Inhabited AccessMode := populate INVALID.

(** The enumerator values ([static_cast<uint8_t>(mode)]). *)
Definition AccessMode_repr (m : AccessMode) : Z :=
  match m with INVALID => 0 | READ => 1 | WRITE => 2 end.

Inductive ErrorCode :=
| SUCCESS
| READ_LOCK_FAILED
| WRITE_LOCK_FAILED
| INVALID_ROW_ID
| INVALID_ACCESS_MODE.
#[global] Instance ErrorCode_eq_dec : EqDecision ErrorCode.
Proof. solve_decision. Defined.

(** [operator!(ErrorCode)]. *)
Definition error (e : ErrorCode) : bool := bool_decide (e ≠ SUCCESS).

(** ** Packed transaction ids *)

Definition MINI_BATCH_ID_WIDTH : Z := 27.

(** [TxnId::id_field_t]: 4 + 1 + 27 bits. *)
Record TxnId := MkTxnId { node_id : Z; valid : bool; mini_batch_id : Z }.
#[global] Instance TxnId_eq_dec : EqDecision TxnId.
Proof. solve_decision. Defined.

(** [TxnId(valid, node_id, mini_batch_id)]: a bit-field initialiser keeps the
    low bits. *)
Definition TxnId_make (v : bool) (node mb : Z) : TxnId :=
  MkTxnId (wrap 4 node) v (wrap MINI_BATCH_ID_WIDTH mb).

(** [TxnId()]. *)
Definition TxnId_default : TxnId := TxnId_make false 0 0.
#[global] Instance TxnId_inhabited : Inhabited TxnId := populate TxnId_default.

(** [get_packed()]: the union's [repr], the fields from the low bits up. *)
Definition get_packed (t : TxnId) : Z :=
  Z.lor (node_id t) (Z.shiftl (Z.lor (Z.b2z (valid t)) (Z.shiftl (mini_batch_id t) 1)) 4).

(** [TxnId(packed)]. *)
Definition TxnId_unpack (repr : Z) : TxnId :=
  MkTxnId (wrap 4 repr) (Z.testbit repr 4) (wrap MINI_BATCH_ID_WIDTH (Z.shiftr repr 5)).

(** Every field fits its width; constructors and setters of fields keep it. *)
Definition TxnId_ok (t : TxnId) : Prop :=
  0 ≤ node_id t < 2 ^ 4 ∧ 0 ≤ mini_batch_id t < 2 ^ MINI_BATCH_ID_WIDTH.

(** [id.field.valid = b]. *)
Definition set_valid (b : bool) (t : TxnId) : TxnId :=
  MkTxnId (node_id t) b (mini_batch_id t).

(** ** Node ids *)

(** [msg::node_t], a [uint32_t]: the thread in the bits from 8 up. *)
Record node_t := MkNode { node_value : Z }.
#[global] Instance node_t_eq_dec : EqDecision node_t.
Proof. solve_decision. Defined.

(** [node_t(nid)]. *)
Definition node_of (nid : Z) : node_t := MkNode (u32 nid).
(** [node_t(nid, tid)]. *)
Definition node_of_thread (nid tid : Z) : node_t :=
  MkNode (Z.lor (u32 (Z.shiftl tid 8)) (Z.land nid (Z.ones 8))).
(** [get_tid()]. *)
Definition get_tid (n : node_t) : Z := Z.shiftr (node_value n) 8.
(** [operator uint32_t()]. *)
Definition node_u32 (n : node_t) : Z := Z.land (node_value n) (Z.ones 8).

(** ** Operations and transactions *)

Record LocationInfo := MkLoc { is_local : bool; target : node_t }.
#[global] Instance LocationInfo_eq_dec : EqDecision LocationInfo.
Proof. solve_decision. Defined.
#[global] Instance LocationInfo_inhabited : Inhabited LocationInfo :=
  populate (MkLoc false (MkNode 0)).

(** [Txn::OP]; keys are [uint64_t], values [uint32_t]. *)
Record OP := MkOP { op_id : Z; loc_info : LocationInfo; op_mode : AccessMode; op_value : Z }.
#[global] Instance OP_eq_dec : EqDecision OP.
Proof. solve_decision. Defined.
#[global] Instance OP_inhabited : Inhabited OP := populate (MkOP 0 inhabitant INVALID 0).

Definition set_mode (m : AccessMode) (o : OP) : OP :=
  MkOP (op_id o) (loc_info o) m (op_value o).
Definition set_loc (l : LocationInfo) (o : OP) : OP :=
  MkOP (op_id o) l (op_mode o) (op_value o).

(** [TupleLocation]: where a key lives on the switch. *)
Record TupleLocation := MkTupleLoc {
  reg_array_id : Z;      (* uint8_t *)
  reg_array_idx : Z;     (* uint16_t *)
  dist_freq : Z;         (* size_t *)
  lock_pos : Z;          (* uint8_t *)
}.
#[global] Instance TupleLocation_eq_dec : EqDecision TupleLocation.
Proof. solve_decision. Defined.
(** A value-initialised [TupleLocation] is all zeros. *)
#[global] Instance TupleLocation_inhabited : Inhabited TupleLocation :=
  populate (MkTupleLoc 0 0 0 0).

Definition NO_LOCK : Z := 255.

(** [Txn]; the three operation arrays have [N_OPS], [N_OPS] and
    [MAX_OPS_PASS2_ACCEL] slots, the bitsets [N_SW_LOCKS] bits. *)
Record Txn := MkTxn {
  cold_ops : list OP;
  hot_ops_pass1 : list (OP * TupleLocation);
  hot_ops_pass2 : list (OP * TupleLocation);
  init_done : bool;
  do_accel : bool;
  n_aborts : Z;
  hottest_cold_i1 : option nat;
  hottest_cold_i2 : option nat;
  locks_check : Z;
  locks_acquire : Z;
  txn_id : TxnId;
  loader_id : Z;
}.

(** [Txn()]: [std::pair]'s constructor zeroes the two hot arrays.  The cold
    operations and the loader id are not initialised by it, so they are
    arguments. *)
Definition Txn_init (ops : list OP) (lid : Z) : Txn :=
  MkTxn ops (replicate N_OPS inhabitant) (replicate MAX_OPS_PASS2_ACCEL inhabitant)
        false false 0 None None 0 0 TxnId_default lid.

(** ** Lemmas *)

Lemma TxnId_make_ok v node mb : TxnId_ok (TxnId_make v node mb).
Proof. split; apply wrap_range; unfold MINI_BATCH_ID_WIDTH; lia. Qed.

Lemma TxnId_unpack_ok z : TxnId_ok (TxnId_unpack z).
Proof. split; apply wrap_range; unfold MINI_BATCH_ID_WIDTH; lia. Qed.

#[export] Hint Resolve TxnId_make_ok TxnId_unpack_ok : p4db.

Lemma b2z_range (b : bool) : 0 ≤ Z.b2z b < 2 ^ 1.
Proof. destruct b; simpl; lia. Qed.

(** The packed word as a sum of its shifted fields. *)
Lemma get_packed_sum t :
  TxnId_ok t →
  get_packed t = node_id t + (Z.b2z (valid t) + mini_batch_id t * 2 ^ 1) * 2 ^ 4.
Proof.
  intros [Hn Hm]. unfold get_packed.
  rewrite (lor_shiftl_add (Z.b2z (valid t))) by (pose proof (b2z_range (valid t)); lia).
  by rewrite lor_shiftl_add by lia.
Qed.

Lemma testbit_shiftr z n : 0 ≤ n → Z.testbit z n = Z.odd (Z.shiftr z n).
Proof. intros. rewrite <-Z.bit0_odd, Z.shiftr_spec by lia. done. Qed.

Lemma txn_id_unpack_packed t : TxnId_ok t → TxnId_unpack (get_packed t) = t.
Proof.
  intros Hok. pose proof Hok as [Hn Hm]. pose proof (b2z_range (valid t)) as Hb.
  unfold TxnId_unpack. rewrite get_packed_sum by done.
  destruct t as [n v m]; cbn [node_id valid mini_batch_id] in *. f_equal.
  - by apply split_low.
  - rewrite testbit_shiftr, split_high by lia. destruct v; simpl;
      rewrite ?Z.odd_add, Z.odd_mul; by destruct (Z.odd m).
  - replace 5 with (4 + 1) by done. rewrite <-Z.shiftr_shiftr by lia.
    rewrite split_high by lia. rewrite split_high by lia. by apply wrap_small.
Qed.

Lemma node_of_thread_split nid tid :
  0 ≤ nid < 2 ^ 8 → 0 ≤ tid < 2 ^ 24 →
  get_tid (node_of_thread nid tid) = tid ∧ node_u32 (node_of_thread nid tid) = nid.
Proof.
  intros Hn Ht. unfold get_tid, node_u32, node_of_thread; cbn [node_value].
  rewrite land_ones_wrap by lia. rewrite (wrap_small 8) by done.
  rewrite (wrap_small 32) by (rewrite Z.shiftl_mul_pow2; lia).
  rewrite Z.lor_comm, lor_shiftl_add by lia. split; [by apply split_high|].
  rewrite land_ones_wrap by lia. by apply split_low.
Qed.

(** Packing a transaction id into the word that travels in the lock
    messages and unpacking it on the other node gives the id back (the 4-bit
    node, the valid bit and the 27-bit mini-batch number), the word fits in 32
    bits, and a node id built from a thread and a node gives both back. *)
Theorem wire_ids_roundtrip t nid tid :
  TxnId_ok t → 0 ≤ nid < 2 ^ 8 → 0 ≤ tid < 2 ^ 24 →
  TxnId_unpack (get_packed t) = t ∧ 0 ≤ get_packed t < 2 ^ 32
  ∧ get_tid (node_of_thread nid tid) = tid ∧ node_u32 (node_of_thread nid tid) = nid.
Proof.
  intros Hok Hn Ht. split; [by apply txn_id_unpack_packed|].
  split. { rewrite get_packed_sum by done. destruct Hok as [? ?].
    pose proof (b2z_range (valid t)). unfold MINI_BATCH_ID_WIDTH in *. lia. }
  by apply node_of_thread_split.
Qed.

Lemma wire_ids_roundtrip_witness :
  TxnId_unpack (get_packed (MkTxnId 3 true 70000)) = MkTxnId 3 true 70000
  ∧ 0 ≤ get_packed (MkTxnId 3 true 70000) < 2 ^ 32
  ∧ get_tid (node_of_thread 1 19) = 19 ∧ node_u32 (node_of_thread 1 19) = 1.
Proof. apply wire_ids_roundtrip; by repeat split; vm_compute. Defined.
