(* ===== verification/Layout.v ===== *)
(** * The declustered switch layout

    [src/src/layout/declustered_layout.hpp] and [.cpp]: every key of the
    workload's frequency table is given a register array, an index in it and,
    unless it is the first of its array, one of the switch's locks.  The keys
    are handed out hottest first, each to the register that carries the least
    frequency so far. *)
From stdpp Require Import base tactics list numbers gmap sorting.
From Stdlib Require Import ZArith Lia.
From S2P Require Import Prelude Types.

#[local] Arguments N_REGS : simpl never.
#[local] Arguments N_SW_LOCKS : simpl never.

(** ** The code *)

(** [TupleLocation::total_order_gt]: despite its name it is the strict
    lexicographic [<] on (frequency, key). *)
Definition total_order_gt (dist_freq_1 k1 dist_freq_2 k2 : Z) : bool :=
  if bool_decide (dist_freq_1 ≠ dist_freq_2) then dist_freq_1 <? dist_freq_2
  else k1 <? k2.

(** The comparator of the constructor's [std::sort], on (key, frequency). *)
Definition id_freq_less (pr1 pr2 : Z * Z) : bool :=
  negb (total_order_gt pr1.2 pr1.1 pr2.2 pr2.1).

Definition NO_BLOCK : Z := 2 ^ 32 - 1.

Record DeclusteredLayout := MkLayout {
  block_num : Z;
  virt_map : gmap Z TupleLocation;
  rev_by_reg : list (gmap Z Z);
  id_freq : list (Z * Z);
}.

(** The local arrays of the constructor together with the two maps it fills. *)
Record assign_state := MkAssign {
  idx_to_alloc : list Z;
  weight : list Z;
  lock_weight : list Z;
  a_virt : gmap Z TupleLocation;
  a_rev : list (gmap Z Z);
}.

Definition assign_init : assign_state :=
  MkAssign (replicate N_REGS 0) (replicate N_REGS 0) (replicate N_SW_LOCKS 0)
           ∅ (replicate N_REGS ∅).

(** [map.emplace(k, v)]: an existing entry stays. *)
Definition emplace {V} (k : Z) (v : V) (m : gmap Z V) : gmap Z V :=
  match m !! k with Some _ => m | None => <[k := v]> m end.

(** The lock of a location: none for index 0, the least-weighted lock for the
    others. *)
Definition pick_lock (lock_weight : list Z) (idx freq : Z) : list Z * Z :=
  if bool_decide (idx ≠ 0) then
    let lk_low := argmin lock_weight in
    (<[lk_low := u64 (lock_weight !!! lk_low + freq)]> lock_weight, u8 (Z.of_nat lk_low))
  else (lock_weight, NO_LOCK).

(** One iteration of the constructor's loop. *)
Definition assign_key (st : assign_state) (pr : Z * Z) : assign_state :=
  let k := pr.1 in
  let r_low := argmin (weight st) in
  let weight' := <[r_low := u64 (weight st !!! r_low + pr.2)]> (weight st) in
  let reg := u8 (Z.of_nat r_low) in
  let idx := u16 (idx_to_alloc st !!! r_low) in
  let alloc' := <[r_low := u64 (idx_to_alloc st !!! r_low + 1)]> (idx_to_alloc st) in
  let '(lock_weight', lock) := pick_lock (lock_weight st) idx pr.2 in
  MkAssign alloc' weight' lock_weight'
    (emplace k (MkTupleLoc reg idx pr.2 lock) (a_virt st))
    (alter (emplace idx k) (Z.to_nat reg) (a_rev st)).

Definition assign_all (l : list (Z * Z)) : assign_state := foldl assign_key assign_init l.

(** What the constructor leaves in the object. *)
Definition layout_of (ids : list (Z * Z)) : DeclusteredLayout :=
  let st := assign_all (std_sort id_freq_less ids) in
  MkLayout NO_BLOCK (a_virt st) (a_rev st) ids.

(** The constructor.  Its last statement prints [id_freq[N_ACCEL_KEYS].second],
    a read past the end when there are not more than [N_ACCEL_KEYS] keys. *)
Definition DeclusteredLayout_make (bm : build) (ids : list (Z * Z)) : outcome DeclusteredLayout :=
  let L := layout_of ids in
  _ ← aget (std_sort id_freq_less ids) (Z.to_nat (N_ACCEL_KEYS bm));
  Ok L.

(** [virt_map[k]], which default-constructs an absent entry. *)
Definition virt_get (L : DeclusteredLayout) (k : Z) : TupleLocation * DeclusteredLayout :=
  match virt_map L !! k with
  | Some tl => (tl, L)
  | None => (inhabitant, MkLayout (block_num L) (<[k := inhabitant]> (virt_map L)) (rev_by_reg L) (id_freq L))
  end.

(** The first index of the block the node was given, a [size_t]. *)
Definition block_base (bm : build) (L : DeclusteredLayout) : Z :=
  u64 (SLOTS_PER_SCHED_BLOCK bm * block_num L).

Definition get_location (bm : build) (L : DeclusteredLayout) (k : Z)
  : (bool * TupleLocation) * DeclusteredLayout :=
  let '(tl, L') := virt_get L k in
  ((reg_array_idx tl <? SLOTS_PER_SCHED_BLOCK bm,
    MkTupleLoc (reg_array_id tl) (u16 (block_base bm L + reg_array_idx tl))
               (dist_freq tl) (lock_pos tl)), L').

Definition rev_lookup (bm : build) (L : DeclusteredLayout) (reg_id : nat) (reg_idx : Z)
  : outcome (option Z) :=
  m ← aget (rev_by_reg L) reg_id;
  Ok ((m : gmap Z Z) !! u64 (reg_idx - block_base bm L)).

(** [layout->block_num = fill.alloced_blk_id] ([Database::update_alloc]). *)
Definition set_block_num (b : Z) (L : DeclusteredLayout) : DeclusteredLayout :=
  MkLayout b (virt_map L) (rev_by_reg L) (id_freq L).

(** ** Well-formed frequency tables *)

(** The sum of the frequencies of a table. *)
Definition total_freq (l : list (Z * Z)) : Z := foldr (λ pr s, pr.2 + s) 0 l.

(** Keys are distinct, frequencies are counts, and neither the number of keys
    nor the sum of their frequencies overflows a [size_t]. *)
Record freqs_ok (l : list (Z * Z)) : Prop := {
  fo_keys : NoDup l.*1;
  fo_nonneg : Forall (λ pr : Z * Z, 0 ≤ pr.2) l;
  fo_total : total_freq l < 2 ^ 64;
  fo_length : Z.of_nat (length l) < 2 ^ 64;
}.

Lemma total_freq_app l1 l2 : total_freq (l1 ++ l2) = total_freq l1 + total_freq l2.
Proof. induction l1 as [|x l1 IH]; simpl; lia. Qed.

Lemma total_freq_nonneg l : Forall (λ pr : Z * Z, 0 ≤ pr.2) l → 0 ≤ total_freq l.
Proof. induction 1; simpl; lia. Qed.

Lemma total_freq_perm l1 l2 : l1 ≡ₚ l2 → total_freq l1 = total_freq l2.
Proof. induction 1; simpl; lia. Qed.

Lemma freqs_ok_perm l1 l2 : l1 ≡ₚ l2 → freqs_ok l1 → freqs_ok l2.
Proof.
  intros Hp [H1 H2 H3 H4]. split.
  - by rewrite <-Hp.
  - by rewrite <-Hp.
  - by rewrite <-(total_freq_perm _ _ Hp).
  - by rewrite <-Hp.
Qed.

(** ** The invariant of the assignment loop *)

Record assign_ok (pre : list (Z * Z)) (st : assign_state) : Prop := {
  ao_alloc_len : length (idx_to_alloc st) = N_REGS;
  ao_weight_len : length (weight st) = N_REGS;
  ao_lock_len : length (lock_weight st) = N_SW_LOCKS;
  ao_rev_len : length (a_rev st) = N_REGS;
  ao_alloc : ∀ r, (r < N_REGS)%nat → 0 ≤ idx_to_alloc st !!! r ≤ Z.of_nat (length pre);
  ao_weight : ∀ r, (r < N_REGS)%nat → 0 ≤ weight st !!! r ≤ total_freq pre;
  ao_lock : ∀ r, (r < N_SW_LOCKS)%nat → 0 ≤ lock_weight st !!! r ≤ total_freq pre;
  ao_dom : ∀ k f, (k, f) ∈ pre → ∃ tl, a_virt st !! k = Some tl ∧ dist_freq tl = f;
  ao_virt : ∀ k tl, a_virt st !! k = Some tl →
    (k, dist_freq tl) ∈ pre
    ∧ (∃ r, (r < N_REGS)%nat ∧ reg_array_id tl = Z.of_nat r ∧ 0 < idx_to_alloc st !!! r)
    ∧ (reg_array_idx tl = 0 ∧ lock_pos tl = NO_LOCK
       ∨ reg_array_idx tl ≠ 0 ∧ 0 ≤ lock_pos tl < Z.of_nat N_SW_LOCKS);
  ao_rev : ∀ r m i k, a_rev st !! r = Some m → m !! i = Some k →
    0 ≤ i ∧ i < idx_to_alloc st !!! r;
  ao_back : ∀ r m i k, a_rev st !! r = Some m → m !! i = Some k →
    ∃ tl, a_virt st !! k = Some tl ∧ reg_array_id tl = Z.of_nat r ∧ reg_array_idx tl = i;
  ao_inv : ∀ k tl, a_virt st !! k = Some tl →
    idx_to_alloc st !!! Z.to_nat (reg_array_id tl) ≤ 2 ^ 16 →
    0 ≤ reg_array_idx tl < idx_to_alloc st !!! Z.to_nat (reg_array_id tl)
    ∧ ∃ m, a_rev st !! Z.to_nat (reg_array_id tl) = Some m
           ∧ m !! reg_array_idx tl = Some k;
  ao_order : ∀ k1 k2 tl1 tl2,
    a_virt st !! k1 = Some tl1 → a_virt st !! k2 = Some tl2 →
    reg_array_id tl1 = reg_array_id tl2 → reg_array_idx tl1 < reg_array_idx tl2 →
    idx_to_alloc st !!! Z.to_nat (reg_array_id tl1) ≤ 2 ^ 16 →
    ∃ i j, (i < j)%nat ∧ pre !! i = Some (k1, dist_freq tl1) ∧ pre !! j = Some (k2, dist_freq tl2);
}.

Lemma assign_init_ok : assign_ok [] assign_init.
Proof.
  split; cbn [assign_init idx_to_alloc weight lock_weight a_virt a_rev length total_freq foldr];
    rewrite ?length_replicate; try done.
  - intros r Hr. rewrite lookup_total_replicate_2 by done. lia.
  - intros r Hr. rewrite lookup_total_replicate_2 by done. lia.
  - intros r Hr. rewrite lookup_total_replicate_2 by done. lia.
  - by intros k f []%not_elem_of_nil.
  - by intros r m i k [-> ?]%lookup_replicate.
  - by intros r m i k [-> ?]%lookup_replicate.
Qed.

Lemma emplace_lookup {V} k (v : V) m k' :
  m !! k = None → emplace k v m !! k' = if decide (k = k') then Some v else m !! k'.
Proof. intros H. unfold emplace. rewrite H. by rewrite lookup_insert. Qed.

Lemma argmin_regs st pre : assign_ok pre st → (argmin (weight st) < N_REGS)%nat.
Proof.
  intros H. rewrite <-(ao_weight_len _ _ H). apply argmin_lt.
  intros Hn. apply (f_equal length) in Hn. by rewrite (ao_weight_len _ _ H) in Hn.
Qed.

Lemma pick_lock_ok lw idx f lw' lk :
  length lw = N_SW_LOCKS → pick_lock lw idx f = (lw', lk) →
  length lw' = N_SW_LOCKS
  ∧ (idx = 0 ∧ lk = NO_LOCK ∧ lw' = lw
     ∨ idx ≠ 0 ∧ 0 ≤ lk < Z.of_nat N_SW_LOCKS ∧ lk = Z.of_nat (argmin lw)
       ∧ lw' = <[argmin lw := u64 (lw !!! argmin lw + f)]> lw).
Proof.
  intros Hlen. unfold pick_lock.
  assert (argmin lw < N_SW_LOCKS)%nat as Hlt.
  { rewrite <-Hlen. apply argmin_lt. by intros ->. }
  case_bool_decide as Hi; intros [= <- <-].
  - split; [by rewrite length_insert|right].
    rewrite wrap_small by (change (2 ^ 8) with 256; unfold N_SW_LOCKS in Hlt; lia).
    split_and!; try done; lia.
  - split; [done|left]. split_and!; try done; lia.
Qed.

(** A bin update inside a bounded table stays inside the grown bound. *)
Lemma bump_bounds (w : list Z) r f B n :
  length w = n → (r < n)%nat → 0 ≤ f → B + f < 2 ^ 64 →
  (∀ i, (i < n)%nat → 0 ≤ w !!! i ≤ B) →
  ∀ i, (i < n)%nat → 0 ≤ <[r := u64 (w !!! r + f)]> w !!! i ≤ B + f.
Proof.
  intros <- Hr Hf HB Hw i Hi. pose proof (Hw r Hr). pose proof (Hw i Hi).
  destruct (decide (i = r)) as [->|Hne].
  - rewrite list_lookup_total_insert_eq by done. rewrite wrap_small; lia.
  - rewrite list_lookup_total_insert_ne by done. lia.
Qed.

Lemma u8_reg r : (r < N_REGS)%nat → u8 (Z.of_nat r) = Z.of_nat r.
Proof. intros. apply wrap_small. change (2 ^ 8) with 256. unfold N_REGS in *. lia. Qed.

Section step.
Context (pre : list (Z * Z)) (k f : Z) (st : assign_state).
Hypothesis Hok : assign_ok pre st.
Hypothesis Hfresh : k ∉ pre.*1.
Hypothesis Hf : 0 ≤ f.
Hypothesis Htot : total_freq pre + f < 2 ^ 64.
Hypothesis Hlen : Z.of_nat (length pre) + 1 < 2 ^ 64.

Let r := argmin (weight st).
Let a := idx_to_alloc st !!! r.
Let lk := (pick_lock (lock_weight st) (u16 a) f).2.
Let tl := MkTupleLoc (Z.of_nat r) (u16 a) f lk.

Lemma step_reg : (r < N_REGS)%nat.
Proof. by apply argmin_regs with pre. Qed.

Lemma step_alloc_bound : 0 ≤ a ≤ Z.of_nat (length pre).
Proof. apply (ao_alloc _ _ Hok), step_reg. Qed.

Lemma virt_fresh : a_virt st !! k = None.
Proof.
  destruct (a_virt st !! k) as [tl'|] eqn:E; [|done]. destruct Hfresh.
  apply (ao_virt _ _ Hok) in E as [Hin _]. apply list_elem_of_fmap. by eexists (_, _).
Qed.

(** The fields after the step, with every conversion resolved. *)
Lemma step_fields :
  assign_key st (k, f) =
    MkAssign (<[r := a + 1]> (idx_to_alloc st)) (<[r := weight st !!! r + f]> (weight st))
      (pick_lock (lock_weight st) (u16 a) f).1
      (<[k := tl]> (a_virt st)) (alter (emplace (u16 a) k) r (a_rev st)).
Proof.
  unfold assign_key. cbn [fst snd]. fold r a.
  rewrite u8_reg by apply step_reg. rewrite Nat2Z.id.
  unfold tl, lk. destruct (pick_lock _ _ _) as [lw lk'] eqn:E. cbn [fst snd].
  pose proof step_alloc_bound. pose proof (ao_weight _ _ Hok r step_reg).
  rewrite !wrap_small by lia. unfold emplace at 1. by rewrite virt_fresh.
Qed.

Lemma step_alloc_mono r' :
  (r' < N_REGS)%nat →
  idx_to_alloc st !!! r' ≤ <[r := a + 1]> (idx_to_alloc st) !!! r' ≤ Z.of_nat (length pre) + 1
  ∧ (r' = r ∧ <[r := a + 1]> (idx_to_alloc st) !!! r' = a + 1
     ∨ r' ≠ r ∧ <[r := a + 1]> (idx_to_alloc st) !!! r' = idx_to_alloc st !!! r').
Proof.
  intros Hr'. pose proof (ao_alloc _ _ Hok r' Hr'). pose proof step_alloc_bound.
  destruct (decide (r' = r)) as [->|Hne].
  - rewrite list_lookup_total_insert_eq by (rewrite (ao_alloc_len _ _ Hok); apply step_reg).
    fold a. lia.
  - rewrite list_lookup_total_insert_ne by done. lia.
Qed.

Lemma step_lock :
  length (pick_lock (lock_weight st) (u16 a) f).1 = N_SW_LOCKS
  ∧ (u16 a = 0 ∧ lk = NO_LOCK ∨ u16 a ≠ 0 ∧ 0 ≤ lk < Z.of_nat N_SW_LOCKS)
  ∧ ∀ j, (j < N_SW_LOCKS)%nat →
      0 ≤ (pick_lock (lock_weight st) (u16 a) f).1 !!! j ≤ total_freq pre + f.
Proof.
  unfold lk. destruct (pick_lock _ _ _) as [lw lk'] eqn:E. cbn [fst snd].
  pose proof (ao_lock_len _ _ Hok) as Hl. pose proof E as E'.
  apply pick_lock_ok in E as [Hlw Hc]; [|done].
  destruct Hc as [(Hz & -> & ->)|(Hz & Hlk & _ & ->)]; (split_and!; [done|naive_solver|]).
  - intros j Hj. pose proof (ao_lock _ _ Hok j Hj). lia.
  - apply bump_bounds; try done; [|apply (ao_lock _ _ Hok)].
    rewrite <-Hl. apply argmin_lt. intros Hn. by rewrite Hn in Hl.
Qed.

(** The register's reverse map before and after the step. *)
Lemma step_rev r' m i k' :
  alter (emplace (u16 a) k) r (a_rev st) !! r' = Some m → m !! i = Some k' →
  (∃ m0, a_rev st !! r' = Some m0 ∧ m0 !! i = Some k') ∨ (r' = r ∧ i = u16 a ∧ k' = k).
Proof.
  destruct (decide (r = r')) as [<-|Hne].
  - rewrite list_lookup_alter_eq. destruct (a_rev st !! r) as [m0|] eqn:E; [|done].
    intros [= <-]. unfold emplace. destruct (m0 !! u16 a) as [x|] eqn:Ex; [naive_solver|].
    intros [[<- <-]|[? ?]]%lookup_insert_Some; naive_solver.
  - rewrite list_lookup_alter_ne by done. naive_solver.
Qed.

Lemma step_rev_mono r' m i k' :
  a_rev st !! r' = Some m → m !! i = Some k' →
  ∃ m', alter (emplace (u16 a) k) r (a_rev st) !! r' = Some m' ∧ m' !! i = Some k'.
Proof.
  intros Hm Hi. destruct (decide (r = r')) as [<-|Hne].
  - rewrite list_lookup_alter_eq, Hm. eexists; split; [done|].
    unfold emplace. destruct (m !! u16 a) eqn:Ex; [done|].
    rewrite lookup_insert_ne; [done|]. naive_solver.
  - rewrite list_lookup_alter_ne by done. eauto.
Qed.

(** Below the 16-bit limit the new slot is the register's next free one. *)
Lemma step_rev_new :
  a + 1 ≤ 2 ^ 16 →
  u16 a = a ∧
  ∃ m', alter (emplace (u16 a) k) r (a_rev st) !! r = Some m' ∧ m' !! u16 a = Some k.
Proof.
  intros Ha. pose proof step_alloc_bound as Hb.
  assert (u16 a = a) as Hu by (apply wrap_small; lia). split; [done|].
  destruct (lookup_lt_is_Some_2 (a_rev st) r) as [m Hm];
    [rewrite (ao_rev_len _ _ Hok); apply step_reg|].
  rewrite list_lookup_alter_eq, Hm. eexists; split; [done|].
  unfold emplace. destruct (m !! u16 a) as [x|] eqn:Ex; [|by rewrite lookup_insert_eq].
  destruct (ao_rev _ _ Hok r m _ x Hm Ex) as [_ Hlt]. fold a in Hlt. lia.
Qed.

(** The register of an entry, and the cap on it before the step. *)
Lemma step_cap k' tl' :
  a_virt st !! k' = Some tl' →
  <[r := a + 1]> (idx_to_alloc st) !!! Z.to_nat (reg_array_id tl') ≤ 2 ^ 16 →
  idx_to_alloc st !!! Z.to_nat (reg_array_id tl') ≤ 2 ^ 16.
Proof.
  intros Htl Hcap. destruct (ao_virt _ _ Hok k' tl' Htl) as (_ & (r' & Hr' & Hid & _) & _).
  rewrite Hid, Nat2Z.id in *. pose proof (step_alloc_mono r' Hr'). lia.
Qed.

Lemma step_order k1 k2 tl1 tl2 :
  <[k := tl]> (a_virt st) !! k1 = Some tl1 → <[k := tl]> (a_virt st) !! k2 = Some tl2 →
  reg_array_id tl1 = reg_array_id tl2 → reg_array_idx tl1 < reg_array_idx tl2 →
  <[r := a + 1]> (idx_to_alloc st) !!! Z.to_nat (reg_array_id tl1) ≤ 2 ^ 16 →
  ∃ i j, (i < j)%nat ∧ (pre ++ [(k, f)]) !! i = Some (k1, dist_freq tl1)
         ∧ (pre ++ [(k, f)]) !! j = Some (k2, dist_freq tl2).
Proof.
  intros H1 H2 Hreg Hidx Hcap. pose proof step_reg as Hr.
  apply lookup_insert_Some in H1 as [[<- <-]|[Hn1 H1]];
    apply lookup_insert_Some in H2 as [[<- <-]|[Hn2 H2]]; [lia| | |].
  - exfalso. rewrite Hreg in Hcap. pose proof (step_cap k2 tl2 H2 Hcap) as Hcap'.
    destruct (ao_inv _ _ Hok k2 tl2 H2 Hcap') as [Hix _].
    rewrite <-Hreg in *. unfold tl in *. cbn [reg_array_id reg_array_idx] in *.
    rewrite Nat2Z.id in *. fold a in Hix.
    pose proof (step_alloc_mono r Hr) as [_ [[_ Heq]|[? ?]]]; [|done].
    rewrite Heq in Hcap. destruct step_rev_new as [Hu _]; lia.
  - destruct (ao_virt _ _ Hok k1 tl1 H1) as [Hin _].
    apply list_elem_of_lookup in Hin as [i Hi]. pose proof (lookup_lt_Some _ _ _ Hi).
    exists i, (length pre). split_and!; [done| |by apply list_lookup_middle].
    by rewrite lookup_app_l.
  - pose proof (step_cap k1 tl1 H1 Hcap) as Hcap'.
    destruct (ao_order _ _ Hok k1 k2 tl1 tl2) as (i & j & Hij & Hi & Hj); try done.
    pose proof (lookup_lt_Some _ _ _ Hi). pose proof (lookup_lt_Some _ _ _ Hj).
    exists i, j. split_and!; [done| |]; by rewrite lookup_app_l.
Qed.

Lemma assign_key_ok : assign_ok (pre ++ [(k, f)]) (assign_key st (k, f)).
Proof.
  rewrite step_fields. pose proof step_reg as Hr. pose proof step_alloc_bound as Ha.
  destruct step_lock as (Hll & Hlk & Hlw).
  split; cbn [idx_to_alloc weight lock_weight a_virt a_rev];
    rewrite ?length_insert, ?length_alter, ?length_app, ?total_freq_app;
    cbn [length total_freq foldr snd]; rewrite ?Z.add_0_r; try done; try by apply Hok.
  - intros r' Hr'. pose proof (step_alloc_mono r' Hr').
    pose proof (ao_alloc _ _ Hok r' Hr'). lia.
  - intros r' Hr'. pose proof (ao_weight _ _ Hok r Hr) as Hw.
    rewrite <-(wrap_small 64 (weight st !!! r + f)) by lia.
    apply (bump_bounds _ _ _ _ N_REGS); try done; apply Hok.
  - intros k' f' [Hin|[= -> ->]%list_elem_of_singleton]%elem_of_app.
    + destruct (ao_dom _ _ Hok k' f' Hin) as (tl' & Htl & <-). exists tl'.
      rewrite lookup_insert_ne; [done|]. intros <-. by rewrite virt_fresh in Htl.
    + exists tl. by rewrite lookup_insert_eq.
  - intros k' tl' [[<- <-]|[Hne Htl]]%lookup_insert_Some.
    + split_and!; [apply elem_of_app; right; by apply list_elem_of_singleton| |done].
      exists r. split_and!; try done. pose proof (step_alloc_mono r Hr). lia.
    + destruct (ao_virt _ _ Hok k' tl' Htl) as (Hin & (r' & Hr' & Hid & Hpos) & Hl).
      split_and!; [set_solver| |done]. exists r'. split_and!; try done.
      pose proof (step_alloc_mono r' Hr'). lia.
  - intros r' m i k' Hm Hi.
    destruct (step_rev r' m i k' Hm Hi) as [(m0 & Hm0 & Hi0)|(-> & -> & ->)].
    + destruct (ao_rev _ _ Hok r' m0 i k' Hm0 Hi0) as [? ?].
      assert (r' < N_REGS)%nat as Hr'
        by (rewrite <-(ao_rev_len _ _ Hok); by eapply lookup_lt_Some).
      pose proof (step_alloc_mono r' Hr'). lia.
    + pose proof (step_alloc_mono r Hr) as [_ [[_ ->]|[? ?]]]; [|done].
      split; [by apply wrap_range|].
      pose proof (Z.mod_le a (2 ^ 16) ltac:(lia) ltac:(lia)) as Hle. unfold wrap. lia.
  - intros r' m i k' Hm Hi.
    destruct (step_rev r' m i k' Hm Hi) as [(m0 & Hm0 & Hi0)|(-> & -> & ->)].
    + destruct (ao_back _ _ Hok r' m0 i k' Hm0 Hi0) as (tl' & Htl & ?). exists tl'.
      rewrite lookup_insert_ne; [done|]. intros <-. by rewrite virt_fresh in Htl.
    + exists tl. by rewrite lookup_insert_eq.
  - intros k' tl' [[<- <-]|[Hne Htl]]%lookup_insert_Some Hcap;
      [unfold tl in *; cbn [reg_array_id reg_array_idx] in *|].
    + rewrite Nat2Z.id in *. pose proof (step_alloc_mono r Hr) as [_ [[_ Heq]|[? ?]]]; [|done].
      rewrite Heq in *. destruct step_rev_new as [Hu Hnew]; [done|]. rewrite Hu at 1 2. split; [lia|done].
    + destruct (ao_virt _ _ Hok k' tl' Htl) as (_ & (r' & Hr' & Hid & _) & _).
      rewrite Hid, Nat2Z.id in *. pose proof (step_alloc_mono r' Hr').
      destruct (ao_inv _ _ Hok k' tl' Htl) as (Hix & m & Hm & Hmk);
        rewrite Hid, Nat2Z.id in *; [lia|]. split; [lia|]. by eapply step_rev_mono.
  - apply step_order.
Qed.
End step.

(** ** The loop as a whole *)

Lemma freqs_ok_prefix l pre k f post :
  freqs_ok l → l = pre ++ (k, f) :: post →
  k ∉ pre.*1 ∧ 0 ≤ f ∧ total_freq pre + f < 2 ^ 64 ∧ Z.of_nat (length pre) + 1 < 2 ^ 64.
Proof.
  intros [Hk Hn Ht Hl] ->. rewrite fmap_app, NoDup_app in Hk. rewrite Forall_app, Forall_cons in Hn.
  destruct Hn as (Hpre & Hf & Hpost). apply total_freq_nonneg in Hpost.
  rewrite total_freq_app in Ht. rewrite length_app in Hl. simpl in *. split_and!; try lia.
  intros Hin. destruct Hk as (_ & Hd & _). apply (Hd k Hin). by left.
Qed.

Lemma assign_all_ok l : freqs_ok l → assign_ok l (assign_all l).
Proof.
  intros Hl. unfold assign_all. apply (foldl_inv assign_ok); [apply assign_init_ok|].
  intros pre [k f] post st Hcut Hst.
  destruct (freqs_ok_prefix _ _ _ _ _ Hl Hcut) as (? & ? & ? & ?). by apply assign_key_ok.
Qed.

(** The table in the order the constructor assigns it. *)
Notation by_freq ids := (std_sort id_freq_less ids).

Lemma by_freq_ok ids : freqs_ok ids → freqs_ok (by_freq ids).
Proof. apply freqs_ok_perm. symmetry. apply std_sort_perm. Qed.

Lemma layout_ok ids : freqs_ok ids → assign_ok (by_freq ids) (assign_all (by_freq ids)).
Proof. intros. by apply assign_all_ok, by_freq_ok. Qed.

(** No register array is given more keys than a 16-bit index distinguishes. *)
Definition no_index_overflow (ids : list (Z * Z)) : Prop :=
  ∀ r, (r < N_REGS)%nat → idx_to_alloc (assign_all (by_freq ids)) !!! r ≤ 2 ^ 16.

Lemma few_keys_no_overflow ids :
  freqs_ok ids → Z.of_nat (length ids) ≤ 2 ^ 16 → no_index_overflow ids.
Proof.
  intros Hok Hlen r Hr. destruct (ao_alloc _ _ (layout_ok ids Hok) r Hr) as [_ H].
  rewrite (Permutation_length (std_sort_perm _ ids)) in H. lia.
Qed.

(** The key after the 2^16-th of a register takes its index 0 again, which
    [rev_by_reg] keeps for the first one. *)
Record overflow_ok (st : assign_state) : Prop := {
  oo_first : ∀ r, (r < N_REGS)%nat → 0 < idx_to_alloc st !!! r → ∃ m k, a_rev st !! r = Some m ∧ m !! 0 = Some k;
  oo_again : ∀ r, (r < N_REGS)%nat → 2 ^ 16 < idx_to_alloc st !!! r →
    ∃ k tl m k', a_virt st !! k = Some tl ∧ reg_array_id tl = Z.of_nat r ∧ reg_array_idx tl = 0
                 ∧ a_rev st !! r = Some m ∧ m !! 0 = Some k' ∧ k' ≠ k;
}.

Lemma overflow_step pre k f st :
  assign_ok pre st → k ∉ pre.*1 → 0 ≤ f → total_freq pre + f < 2 ^ 64 → Z.of_nat (length pre) + 1 < 2 ^ 64 →
  overflow_ok st → overflow_ok (assign_key st (k, f)).
Proof.
  intros Hok Hfresh Hf Htot Hlen [H1 H2]. rewrite (step_fields pre k f st Hok Hfresh Hf Htot Hlen).
  set (r := argmin (weight st)). set (a := idx_to_alloc st !!! r). pose proof (step_reg pre st Hok) as Hr. fold r in Hr.
  pose proof (step_alloc_mono pre f st Hok) as Hmono. fold r a in Hmono. pose proof (virt_fresh pre k st Hok Hfresh) as Hv.
  split; cbn [idx_to_alloc a_virt a_rev]; intros r' Hr' Hlt.
  - destruct (decide (0 < idx_to_alloc st !!! r')) as [Hp|Hz].
    + destruct (H1 r' Hr' Hp) as (m & k0 & Hm & H0). destruct (step_rev_mono k st r' m 0 k0 Hm H0) as (m' & ? & ?). by exists m', k0.
    + destruct (Hmono r' Hr') as [_ [[-> Ea]|[_ Ea]]]; [|lia]. pose proof (ao_alloc _ _ Hok r Hr) as Hb. fold a in Hb, Hz.
      assert (a = 0) as Hu by lia. change (u16 a) with (a `mod` 2 ^ 16). rewrite Hu, Z.mod_0_l by done.
      destruct (lookup_lt_is_Some_2 (a_rev st) r) as [m Hm]; [by rewrite (ao_rev_len _ _ Hok)|]. rewrite list_lookup_alter_eq, Hm.
      destruct (m !! 0) as [x|] eqn:Ex; unfold emplace; cbn; eexists _, _; (split; [done|]); rewrite Ex; [done|by rewrite lookup_insert_eq].
  - destruct (decide (2 ^ 16 < idx_to_alloc st !!! r')) as [Hp|Hz].
    + destruct (H2 r' Hr' Hp) as (k1 & tl & m & k' & Htl & Hid & Hix & Hm & H0 & Hne). destruct (step_rev_mono k st r' m 0 k' Hm H0) as (m' & ? & ?).
      exists k1, tl, m', k'. split_and!; try done. rewrite lookup_insert_ne; [done|]. intros <-. by rewrite Hv in Htl.
    + destruct (Hmono r' Hr') as [_ [[-> Ea]|[_ Ea]]]; [|lia]. fold a in Hz. assert (a = 2 ^ 16) as Ha by lia.
      destruct (H1 r Hr) as (m & k0 & Hm & H0); [fold a; lia|].
      destruct (step_rev_mono k st r m 0 k0 Hm H0) as (m' & Hm' & H0'). fold r a in Hm'.
      eexists k, _, m', k0. rewrite lookup_insert_eq. split_and!; [done|done|cbn; fold r a; by rewrite Ha|done|done|].
      intros ->. destruct (ao_back _ _ Hok r m 0 k Hm H0) as (tl & Htl & _). by rewrite Hv in Htl.
Qed.

Lemma layout_overflow ids : freqs_ok ids → overflow_ok (assign_all (by_freq ids)).
Proof.
  intros Hl%by_freq_ok. unfold assign_all. apply (foldl_inv (λ pre st, assign_ok pre st ∧ overflow_ok st)).
  - split; [apply assign_init_ok|]. split; cbn [assign_init idx_to_alloc]; intros r Hr; rewrite lookup_total_replicate_2 by done; lia.
  - intros pre [k f] post st Hcut [Hst Ho]. destruct (freqs_ok_prefix _ _ _ _ _ Hl Hcut) as (? & ? & ? & ?).
    split; [by apply assign_key_ok|by eapply overflow_step].
Qed.

Lemma id_freq_may_precede p q :
  may_precede id_freq_less p q ↔ q.2 < p.2 ∨ (q.2 = p.2 ∧ q.1 ≤ p.1).
Proof.
  unfold may_precede, id_freq_less, total_order_gt. destruct p as [k1 f1], q as [k2 f2]; simpl.
  repeat case_bool_decide; lia.
Qed.

#[global] Instance id_freq_trans : Transitive (may_precede id_freq_less).
Proof. intros p q s. rewrite !id_freq_may_precede. lia. Qed.


(** ** Properties *)

(** C19: looking a key up and asking the layout which key lives at the answer
    gives the key back, as long as no register was given more keys than its
    16-bit indices distinguish.  Let the block [b] that the scheduler granted
    fit into 16 bits.  If every register has at most 2^16 keys of the frequency
    table, then for every key of the table that the layout reports as accelerated
    the slot returned by [get_location] is the slot of that key in [rev_lookup];
    the lookup reports the key's frequency and leaves the layout unchanged.  If
    some register has more keys, the [uint16_t] index has been truncated, and
    there is a key of the table that the layout reports as accelerated at the
    slot of another key. *)
Theorem layout_roundtrip bm ids b :
  freqs_ok ids → 0 ≤ b → 0 < SLOTS_PER_SCHED_BLOCK bm → SLOTS_PER_SCHED_BLOCK bm * (b + 1) ≤ 2 ^ 16 →
  let L := set_block_num b (layout_of ids) in
  (no_index_overflow ids → ∀ k f, (k, f) ∈ ids →
     ∃ hot loc, get_location bm L k = ((hot, loc), L) ∧ dist_freq loc = f
       ∧ (hot = true → rev_lookup bm L (Z.to_nat (reg_array_id loc)) (reg_array_idx loc) = Ok (Some k)))
  ∧ (¬ no_index_overflow ids → ∃ k loc k', k ∈ ids.*1 ∧ get_location bm L k = ((true, loc), L)
       ∧ rev_lookup bm L (Z.to_nat (reg_array_id loc)) (reg_array_idx loc) = Ok (Some k') ∧ k' ≠ k).
Proof.
  intros Hok Hb Hslots Hfit L. pose proof (layout_ok ids Hok) as HA.
  assert (∀ r i m, a_rev (assign_all (by_freq ids)) !! r = Some m → 0 ≤ i < SLOTS_PER_SCHED_BLOCK bm →
    rev_lookup bm L r (u16 (block_base bm L + i)) = Ok (m !! i)) as Hrev.
  { intros r i m Hm Hi. unfold rev_lookup, block_base. cbn. unfold aget. rewrite Hm. cbn.
    assert (0 ≤ SLOTS_PER_SCHED_BLOCK bm * b) by nia. assert (SLOTS_PER_SCHED_BLOCK bm * b + SLOTS_PER_SCHED_BLOCK bm ≤ 2 ^ 16) by nia.
    rewrite (wrap_small 64 (_ * b)) by lia. rewrite (wrap_small 16) by lia. rewrite wrap_small by lia. by rewrite Z.add_simpl_l. }
  split.
  - intros Hno k f Hin. rewrite <-(std_sort_perm id_freq_less) in Hin. destruct (ao_dom _ _ HA k f Hin) as (tl & Htl & Hf).
    unfold get_location, virt_get. cbn [L set_block_num virt_map layout_of]. rewrite Htl. do 2 eexists. split; [done|].
    split; [done|]. intros Hhot%Z.ltb_lt. destruct (ao_virt _ _ HA k tl Htl) as (_ & (r & Hr & Hid & _) & _).
    destruct (ao_inv _ _ HA k tl Htl) as (Hix & m & Hm & Hmk); [rewrite Hid, Nat2Z.id; by apply Hno|].
    cbn [reg_array_id reg_array_idx]. rewrite (Hrev _ (reg_array_idx tl) m Hm) by lia. by rewrite Hmk.
  - intros Hno. destruct (decide (Forall (λ r, idx_to_alloc (assign_all (by_freq ids)) !!! r ≤ 2 ^ 16) (seq 0 N_REGS))) as [Hall|Hex].
    { destruct Hno. intros r Hr. rewrite Forall_forall in Hall. apply Hall, elem_of_seq. lia. }
    apply not_Forall_Exists in Hex; [|apply _]. apply Exists_exists in Hex as (r & Hr%elem_of_seq & Hgt).
    destruct (oo_again _ (layout_overflow ids Hok) r) as (k & tl & m & k' & Htl & Hid & Hix & Hm & H0 & Hne); [lia|cbn in Hgt; lia|].
    eexists k, _, k'. split_and!; [| | |done].
    + destruct (ao_virt _ _ HA k tl Htl) as [Hin _]. rewrite std_sort_perm in Hin. apply list_elem_of_fmap. by eexists (_, _).
    + unfold get_location, virt_get. cbn [L set_block_num virt_map layout_of]. rewrite Htl, Hix, (proj2 (Z.ltb_lt _ _) Hslots). reflexivity.
    + cbn [reg_array_id reg_array_idx]. rewrite Hid, Nat2Z.id, (Hrev _ 0 m Hm) by lia. by rewrite H0.
Qed.

(** The lock table after a step stays as balanced as it was. *)
Lemma pick_lock_spread lw idx f d B :
  length lw = N_SW_LOCKS → 0 ≤ f ≤ d → B + f < 2 ^ 64 →
  (∀ j, (j < N_SW_LOCKS)%nat → 0 ≤ lw !!! j ≤ B) →
  spread lw d → spread (pick_lock lw idx f).1 d.
Proof.
  intros Hl Hf HB Hw Hs. assert (lw ≠ []) as Hne by (intros ->; done).
  pose proof (argmin_lt lw Hne) as Hlt. rewrite Hl in Hlt. pose proof (Hw _ Hlt).
  destruct (pick_lock lw idx f) as [lw' lk] eqn:E.
  destruct (pick_lock_ok _ _ _ _ _ Hl E) as [_ [(_ & _ & ->)|(_ & _ & _ & ->)]]; [done|].
  cbn [fst]. rewrite wrap_small by lia. by apply spread_argmin.
Qed.

(** The declustered layout is load balanced.  If no key is more frequent
    than [d], then the total frequencies assigned to any two registers of the
    switch differ by at most [d], and so do the frequencies guarded by any two
    of its locks. *)
Theorem layout_balance ids d :
  freqs_ok ids → Forall (λ pr : Z * Z, pr.2 ≤ d) ids → 0 ≤ d →
  spread (weight (assign_all (by_freq ids))) d
  ∧ spread (lock_weight (assign_all (by_freq ids))) d.
Proof.
  intros Hok Hd Hd0. apply by_freq_ok in Hok. rewrite <-(std_sort_perm id_freq_less) in Hd.
  revert Hok Hd. generalize (by_freq ids) as l. intros l Hok Hd.
  apply (foldl_inv (λ pre st, assign_ok pre st ∧ spread (weight st) d ∧ spread (lock_weight st) d)
    assign_key l assign_init).
  - split; [apply assign_init_ok|]. split; by apply spread_replicate.
  - intros pre [k f] post st Hcut (HA & Hw & Hlw).
    destruct (freqs_ok_prefix _ _ _ _ _ Hok Hcut) as (Hfr & Hf & Ht & Hn).
    assert (f ≤ d) as Hfd.
    { subst l. rewrite Forall_app, Forall_cons in Hd. by destruct Hd as (_ & ? & _). }
    split; [by apply assign_key_ok|].
    rewrite (step_fields pre) by done. cbn [weight lock_weight]. split.
    + apply spread_argmin; [|lia|done]. intros Hnil.
      pose proof (ao_weight_len _ _ HA) as Hlen. by rewrite Hnil in Hlen.
    + apply (pick_lock_spread _ _ _ _ (total_freq pre)); try done; try apply HA; lia.
Qed.

(** Inside one register array the keys are stored hottest first, so the
    slot that is never locked (index 0) holds the register's most frequent
    key: a key at a smaller index is at least as frequent as one at a larger
    index. *)
Theorem layout_order ids k1 k2 tl1 tl2 :
  freqs_ok ids → no_index_overflow ids →
  virt_map (layout_of ids) !! k1 = Some tl1 → virt_map (layout_of ids) !! k2 = Some tl2 →
  reg_array_id tl1 = reg_array_id tl2 → reg_array_idx tl1 < reg_array_idx tl2 →
  dist_freq tl2 ≤ dist_freq tl1
  ∧ (lock_pos tl1 = NO_LOCK ↔ reg_array_idx tl1 = 0).
Proof.
  intros Hok Hno H1 H2 Hreg Hidx. pose proof (layout_ok ids Hok) as HA.
  destruct (ao_virt _ _ HA k1 tl1 H1) as (_ & (r & Hr & Hid & _) & Hlk).
  destruct (ao_order _ _ HA k1 k2 tl1 tl2) as (i & j & Hij & Hi & Hj); try done.
  { rewrite Hid, Nat2Z.id. by apply Hno. }
  pose proof (StronglySorted_lookup _ _ _ _ _ _ (std_sort_sorted id_freq_less ids _) Hi Hj Hij) as Hp.
  apply id_freq_may_precede in Hp. simpl in Hp. split; [lia|].
  unfold NO_LOCK, N_SW_LOCKS in *. lia.
Qed.

(** Two keys never share a slot. *)
Lemma layout_injective ids k1 k2 tl1 tl2 :
  freqs_ok ids → no_index_overflow ids →
  virt_map (layout_of ids) !! k1 = Some tl1 → virt_map (layout_of ids) !! k2 = Some tl2 →
  reg_array_id tl1 = reg_array_id tl2 → reg_array_idx tl1 = reg_array_idx tl2 → k1 = k2.
Proof.
  intros Hok Hno H1 H2 Hreg Hidx. pose proof (layout_ok ids Hok) as HA.
  assert (∀ k tl, virt_map (layout_of ids) !! k = Some tl →
    ∃ m, a_rev (assign_all (by_freq ids)) !! Z.to_nat (reg_array_id tl) = Some m
         ∧ m !! reg_array_idx tl = Some k) as Hm.
  { intros k tl Hk. destruct (ao_virt _ _ HA k tl Hk) as (_ & (r & Hr & Hid & _) & _).
    destruct (ao_inv _ _ HA k tl Hk) as [_ ?]; [|done]. rewrite Hid, Nat2Z.id. by apply Hno. }
  destruct (Hm k1 tl1 H1) as (m1 & E1 & F1), (Hm k2 tl2 H2) as (m2 & E2 & F2).
  rewrite Hreg, Hidx in *. congruence.
Qed.

(** The first key assigned takes slot 0 of register 0 and keeps it. *)
Lemma first_key_slot l k f :
  ∃ m, a_rev (assign_all ((k, f) :: l)) !! 0%nat = Some m ∧ m !! 0 = Some k.
Proof.
  unfold assign_all. cbn [foldl].
  apply (foldl_inv (λ _ st, ∃ m, a_rev st !! 0%nat = Some m ∧ m !! 0 = Some k) assign_key l).
  - unfold assign_key. cbn [assign_init weight idx_to_alloc lock_weight a_virt a_rev fst snd].
    replace (argmin (replicate N_REGS 0)) with 0%nat by (vm_compute; reflexivity).
    destruct (pick_lock _ _ _) as [lw lk]. cbn [a_rev]. eexists.
    change (Z.to_nat (u8 (Z.of_nat 0))) with 0%nat.
    change (u16 (replicate N_REGS 0 !!! 0%nat)) with 0.
    split; [rewrite list_lookup_alter_eq; reflexivity|].
    unfold emplace. rewrite lookup_empty. by rewrite lookup_insert_eq.
  - intros _ [k' f'] _ st _ (m & Hm & Hk). unfold assign_key. cbn [fst snd].
    destruct (pick_lock _ _ _) as [lw lk]. cbn [a_rev].
    set (i := u16 _). set (r := Z.to_nat _). destruct (decide (r = 0%nat)) as [Hr|Hr].
    + rewrite Hr, list_lookup_alter_eq, Hm. eexists; split; [done|].
      unfold emplace. destruct (m !! i) eqn:E; [done|]. rewrite lookup_insert_ne; [done|]. congruence.
    + rewrite list_lookup_alter_ne by done. eauto.
Qed.

(** A key that is not in the frequency table is reported as accelerated:
    [get_location] default-constructs an entry for it, and the zero entry is
    slot 0 of register 0, which belongs to the hottest key of the table. *)
Theorem unknown_key_aliases_hottest bm ids b k :
  freqs_ok ids → ids ≠ [] → k ∉ ids.*1 →
  0 ≤ b → 0 < SLOTS_PER_SCHED_BLOCK bm → SLOTS_PER_SCHED_BLOCK bm * (b + 1) ≤ 2 ^ 16 →
  ∃ loc L' hottest,
    get_location bm (set_block_num b (layout_of ids)) k = ((true, loc), L')
    ∧ hottest ∈ ids.*1
    ∧ rev_lookup bm L' (Z.to_nat (reg_array_id loc)) (reg_array_idx loc) = Ok (Some hottest)
    ∧ hottest ≠ k.
Proof.
  intros Hok Hne Hk Hb Hs Hfit. pose proof (layout_ok ids Hok) as HA.
  assert (virt_map (layout_of ids) !! k = None) as Hv.
  { destruct (virt_map (layout_of ids) !! k) as [tl|] eqn:E; [|done]. destruct Hk.
    apply (ao_virt _ _ HA) in E as [Hin _]. rewrite std_sort_perm in Hin.
    apply list_elem_of_fmap. by eexists (_, _). }
  destruct (by_freq ids) as [|[h f] l] eqn:El.
  { pose proof (std_sort_perm id_freq_less ids) as Hp. rewrite El in Hp.
    by apply Permutation_nil_l in Hp. }
  assert (h ∈ ids.*1) as Hh.
  { apply list_elem_of_fmap. exists (h, f). split; [done|].
    rewrite <-(std_sort_perm id_freq_less), El. by left. }
  destruct (first_key_slot l h f) as (m & Hm & Hm0).
  unfold get_location, virt_get. cbn [set_block_num virt_map]. rewrite Hv.
  do 3 eexists. split; [|split_and!].
  - rewrite (proj2 (Z.ltb_lt _ _)); [reflexivity|done].
  - exact Hh.
  - unfold rev_lookup, block_base. cbn [set_block_num rev_by_reg block_num reg_array_id reg_array_idx inhabitant].
    unfold layout_of. rewrite El. cbn [rev_by_reg]. unfold aget.
    replace (Z.to_nat (reg_array_id inhabitant)) with 0%nat by done. rewrite Hm. simpl.
    change (reg_array_idx inhabitant) with 0.
    rewrite (wrap_small 64 (_ * b)) by nia. rewrite (wrap_small 16) by nia.
    rewrite wrap_small by nia. replace (_ * b + 0 - _ * b) with 0 by lia. by rewrite Hm0.
  - intros ->. done.
Qed.

(** ** Witnesses *)

Definition sample_freqs : list (Z * Z) := [(7, 5); (3, 9); (11, 5); (2, 1)].
(** Two keys that share register 0. *)
Definition shared_freqs : list (Z * Z) := [(1, 0); (2, 0)].

Lemma sample_freqs_ok : freqs_ok sample_freqs.
Proof.
  split; [|repeat constructor; simpl; lia|vm_compute; done|vm_compute; done].
  by apply (bool_decide_unpack _); vm_compute.
Qed.

Lemma shared_freqs_ok : freqs_ok shared_freqs.
Proof.
  split; [|repeat constructor; simpl; lia|vm_compute; done|vm_compute; done].
  by apply (bool_decide_unpack _); vm_compute.
Qed.

Lemma layout_roundtrip_witness :
  ∃ hot loc, get_location default_build (set_block_num 3 (layout_of sample_freqs)) 11
             = ((hot, loc), set_block_num 3 (layout_of sample_freqs))
    ∧ dist_freq loc = 5
    ∧ (hot = true → rev_lookup default_build (set_block_num 3 (layout_of sample_freqs))
                      (Z.to_nat (reg_array_id loc)) (reg_array_idx loc) = Ok (Some 11)).
Proof.
  apply (layout_roundtrip default_build sample_freqs 3); [apply sample_freqs_ok|lia|done|done| |].
  - apply few_keys_no_overflow; [apply sample_freqs_ok|done].
  - do 2 right. left.
Defined.

Lemma layout_balance_witness :
  spread (weight (assign_all (by_freq sample_freqs))) 9
  ∧ spread (lock_weight (assign_all (by_freq sample_freqs))) 9.
Proof.
  apply layout_balance; [apply sample_freqs_ok|repeat constructor; simpl; lia|lia].
Defined.

Lemma layout_order_witness :
  dist_freq (MkTupleLoc 0 1 0 0) ≤ dist_freq (MkTupleLoc 0 0 0 NO_LOCK)
  ∧ (lock_pos (MkTupleLoc 0 0 0 NO_LOCK) = NO_LOCK ↔ reg_array_idx (MkTupleLoc 0 0 0 NO_LOCK) = 0).
Proof.
  apply (layout_order shared_freqs 2 1); [apply shared_freqs_ok| |by vm_compute|by vm_compute|done|done].
  apply few_keys_no_overflow; [apply shared_freqs_ok|done].
Defined.

Lemma unknown_key_aliases_hottest_witness :
  ∃ loc L' hottest,
    get_location default_build (set_block_num 3 (layout_of sample_freqs)) 100 = ((true, loc), L')
    ∧ hottest ∈ sample_freqs.*1
    ∧ rev_lookup default_build L' (Z.to_nat (reg_array_id loc)) (reg_array_idx loc) = Ok (Some hottest)
    ∧ hottest ≠ 100.
Proof.
  apply unknown_key_aliases_hottest; [apply sample_freqs_ok|done| |lia|done|done].
  by apply (bool_decide_unpack _); vm_compute.
Defined.
