(* ===== verification/Msg.v ===== *)
(** * Messages between nodes

    [src/src/comm/msg.hpp]: the message types, their headers, and the
    conversions that reuse a received packet's buffer for the reply.  The four
    tuple messages share one layout (header, [TupleMsgHeader], a packed
    transaction id, the tuple bytes), so one record models the buffer and
    [convert] only rewrites its type tag.  The row type [KV] is
    [src/src/ee/table.hpp]'s. *)
From stdpp Require Import base tactics list numbers gmap.
From Stdlib Require Import ZArith Lia.
From S2P Require Import Prelude Types.

(** [KV]: a 64-bit id and a 32-bit value. *)
Record KV := MkKV { kv_id : Z; kv_value : Z }.
#[global] Instance KV_eq_dec : EqDecision KV.
Proof. solve_decision. Defined.
#[global] Instance KV_inhabited : Inhabited KV := populate (MkKV 0 0).

Definition set_value (v : Z) (t : KV) : KV := MkKV (kv_id t) v.

(** The tuple messages of [msg::Type]. *)
Inductive tuple_type := TUPLE_GET_REQ | TUPLE_GET_RES | TUPLE_PUT_REQ | TUPLE_PUT_RES.
#[global] Instance tuple_type_eq_dec : EqDecision tuple_type.
Proof. solve_decision. Defined.

(** The buffer of a tuple message: [Header] (type, sender, msg_id),
    [TupleMsgHeader] (ts, tid, rid, mode), the word named [me_pack] in a
    request and [last_acq_pack] in the others, and the tuple bytes. *)
Record tuple_msg := MkTupleMsg {
  mt_type : tuple_type;
  mt_sender : node_t;
  mt_id : Z;
  mt_ts : Z;
  mt_tid : Z;
  mt_rid : Z;
  mt_mode : AccessMode;
  mt_pack : Z;
  mt_tuple : KV;
}.

(** [msg::Init], [msg::Barrier] and the tuple messages. *)
Inductive message :=
| Init (sender : node_t)
| Barrier (sender : node_t) (num : Z)
| TupleMsg (m : tuple_msg).

(** The values of [msg::Type]. *)
Definition Type_repr (m : message) : Z :=
  match m with
  | Init _ => 65537
  | Barrier _ _ => 65538
  | TupleMsg t =>
      match mt_type t with
      | TUPLE_GET_REQ => 1 | TUPLE_GET_RES => 2 | TUPLE_PUT_REQ => 3 | TUPLE_PUT_RES => 4
      end
  end.

(** [TupleGetReq(ts, tid, rid, mode, me)] in a fresh buffer, the tuple bytes of
    which are whatever the buffer held. *)
Definition TupleGetReq (ts tid rid : Z) (mode : AccessMode) (me : TxnId) (junk : KV) : tuple_msg :=
  MkTupleMsg TUPLE_GET_REQ (MkNode 0) 0 ts tid rid mode (get_packed me) junk.

(** [req->convert<T>()]. *)
Definition convert (t : tuple_type) (m : tuple_msg) : tuple_msg :=
  MkTupleMsg t (mt_sender m) (mt_id m) (mt_ts m) (mt_tid m) (mt_rid m) (mt_mode m)
             (mt_pack m) (mt_tuple m).

(** Field assignments on a buffer. *)
Definition msg_set_sender (s : node_t) (m : tuple_msg) : tuple_msg :=
  MkTupleMsg (mt_type m) s (mt_id m) (mt_ts m) (mt_tid m) (mt_rid m) (mt_mode m)
             (mt_pack m) (mt_tuple m).
Definition msg_set_id (i : Z) (m : tuple_msg) : tuple_msg :=
  MkTupleMsg (mt_type m) (mt_sender m) i (mt_ts m) (mt_tid m) (mt_rid m) (mt_mode m)
             (mt_pack m) (mt_tuple m).
Definition msg_set_mode (a : AccessMode) (m : tuple_msg) : tuple_msg :=
  MkTupleMsg (mt_type m) (mt_sender m) (mt_id m) (mt_ts m) (mt_tid m) (mt_rid m) a
             (mt_pack m) (mt_tuple m).
Definition msg_set_pack (p : Z) (m : tuple_msg) : tuple_msg :=
  MkTupleMsg (mt_type m) (mt_sender m) (mt_id m) (mt_ts m) (mt_tid m) (mt_rid m) (mt_mode m)
             p (mt_tuple m).
Definition msg_set_tuple (t : KV) (m : tuple_msg) : tuple_msg :=
  MkTupleMsg (mt_type m) (mt_sender m) (mt_id m) (mt_ts m) (mt_tid m) (mt_rid m) (mt_mode m)
             (mt_pack m) t.

(** ** Sizes

    Offsets follow the alignment of the fields: [Header] is 4 + 4 + 8 bytes,
    [TupleMsgHeader] 8 + 8 + 8 + 1 rounded up to 8, the packed id 4, the tuple
    bytes aligned to 8. *)
Definition MSG_SIZE : Z := 72.
Definition round_up (a n : Z) : Z := (n + a - 1) / a * a.
Definition sizeof_Header : Z := 4 + 4 + 8.
Definition sizeof_TupleMsgHeader : Z := round_up 8 (8 + 8 + 8 + 1).
Definition sizeof_TupleGetReq : Z := round_up 8 (sizeof_Header + sizeof_TupleMsgHeader + 4).
Definition sizeof_TupleGetRes : Z := round_up 8 (sizeof_Header + sizeof_TupleMsgHeader + 4).
Definition sizeof_TuplePutReq : Z := sizeof_TupleGetRes.
Definition sizeof_TuplePutRes : Z := sizeof_Header + sizeof_TupleMsgHeader.
Definition sizeof_KV : Z := round_up 8 (8 + 4).
(** [TupleGetRes::size(tuple_size)]. *)
Definition TupleGetRes_size (tuple_size : Z) : Z := sizeof_TupleGetRes + tuple_size.
(** [TuplePutReq::size(tuple_size)]. *)
Definition TuplePutReq_size (tuple_size : Z) : Z := sizeof_TuplePutReq + tuple_size.
