(* ===== verification/Row.v ===== *)
(** * Rows and their locks

    [src/src/ee/row.hpp]: a row is a tuple with a shared/exclusive lock and the
    id of the transaction that last acquired it; [src/src/ee/future.hpp]: the
    future through which an executor sees a locked tuple.  The second half is a
    step relation of many clients on one row and the invariant it keeps. *)
From stdpp Require Import base tactics list numbers gmap relations sorting.
From Stdlib Require Import ZArith Lia.
From S2P Require Import Prelude Types Msg.

(** ** The row *)

Record Row := MkRow {
  lock_type : AccessMode;
  owner_cnt : Z;          (* uint32_t *)
  tuple : KV;
  last_acq : TxnId;
}.
#[global] Instance Row_eq_dec : EqDecision Row.
Proof. solve_decision. Defined.

(** [Row()]: the tuple is value-initialised by [make_unique]. *)
Definition Row_init : Row := MkRow INVALID 0 (MkKV 0 0) (TxnId_make true 0 0).

(** ** Futures *)

(** [TupleFuture::tuple]: null, the [EXCEPTION] sentinel, a pointer to a local
    row's tuple (its index in the table) or to the tuple bytes of [pkt]. *)
Inductive tuple_ptr := PNull | PException | PLocal (idx : nat) | PPacket.
#[global] Instance tuple_ptr_eq_dec : EqDecision tuple_ptr.
Proof. solve_decision. Defined.

Record TupleFuture := MkFuture {
  fut_pkt : option tuple_msg;
  fut_tuple : tuple_ptr;
  fut_last_acq : TxnId;
}.

(** [TupleFuture()]. *)
Definition Future_init : TupleFuture := MkFuture None PNull TxnId_default.

(** [set_pkt]. *)
Definition set_pkt (p : tuple_msg) (f : TupleFuture) : TupleFuture :=
  MkFuture (Some p) (fut_tuple f) (fut_last_acq f).

Definition fut_set_last_acq (t : TxnId) (f : TupleFuture) : TupleFuture :=
  MkFuture (fut_pkt f) (fut_tuple f) t.

(** [get()] and its private [wait()]: the pointer, null for a failed request,
    and the future afterwards; [None] while the reply has not arrived (the
    loop spins). *)
Definition future_get (f : TupleFuture) : option (option tuple_ptr * TupleFuture) :=
  match fut_tuple f with
  | PException => Some (None, f)
  | PLocal i => Some (Some (PLocal i), f)
  | PPacket => Some (Some PPacket, f)
  | PNull =>
      match fut_pkt f with
      | Some res =>
          if bool_decide (mt_mode res = INVALID)
          then Some (None, MkFuture (Some res) PException (fut_last_acq f))
          else Some (Some PPacket, MkFuture (Some res) PPacket (TxnId_unpack (mt_pack res)))
      | None => None
      end
  end.

(** ** Locking *)

(** [mb_allow_lock]. *)
Definition mb_allow_lock (bm : build) (row : Row) (txn_id : TxnId) : outcome bool :=
  if valid txn_id then
    assert (mini_batch_id (last_acq row) <=? mini_batch_id txn_id);;
    Ok (negb ((mini_batch_id txn_id =? mini_batch_id (last_acq row))
              && (negb (USE_FLOW_ORDER bm) || negb (node_id txn_id =? node_id (last_acq row)))))
  else Ok true.

(** [is_compatible]. *)
Definition is_compatible (row : Row) (mode : AccessMode) : bool :=
  if bool_decide (lock_type row = INVALID) then true
  else if bool_decide (lock_type row = WRITE ∨ mode = WRITE) then false
  else true.

(** The error of a refused lock. *)
Definition lock_error (mode : AccessMode) : ErrorCode :=
  match mode with
  | READ => READ_LOCK_FAILED
  | WRITE => WRITE_LOCK_FAILED
  | INVALID => INVALID_ACCESS_MODE
  end.

(** [++owner_cnt; lock_type = mode]. *)
Definition grant (mode : AccessMode) (row : Row) : Row :=
  MkRow mode (u32 (owner_cnt row + 1)) (tuple row) (last_acq row).

(** [local_lock]: [early] is the row as the unlocked test at the top reads it,
    [row] the row under the mutex.  [self] is the row's index, the address the
    future receives. *)
Definition local_lock (bm : build) (early row : Row) (self : nat) (mode : AccessMode)
    (future : TupleFuture) : outcome (ErrorCode * Row * TupleFuture) :=
  if negb (is_compatible early mode) then Ok (lock_error mode, row, future)
  else
    allow_lock ← mb_allow_lock bm row (fut_last_acq future);
    if negb (is_compatible row mode) || negb allow_lock
    then Ok (lock_error mode, row, future)
    else Ok (SUCCESS, grant mode row, MkFuture (fut_pkt future) (PLocal self) (last_acq row)).

(** [remote_lock]: the row and the reply written into the request's buffer. *)
Definition remote_lock (bm : build) (row : Row) (req : tuple_msg) : outcome (Row * tuple_msg) :=
  allow_lock ← mb_allow_lock bm row (TxnId_unpack (mt_pack req));
  if negb (is_compatible row (mt_mode req)) || negb allow_lock
  then Ok (row, msg_set_mode INVALID (convert TUPLE_GET_RES req))
  else Ok (grant (mt_mode req) row,
           msg_set_tuple (tuple row)
             (msg_set_pack (get_packed (last_acq row)) (convert TUPLE_GET_RES req))).

(** [local_unlock]. *)
Definition local_unlock (row : Row) (mode : AccessMode) (id : TxnId) : ErrorCode * Row :=
  let row1 := MkRow (lock_type row) (owner_cnt row) (tuple row) id in
  if bool_decide (lock_type row ≠ mode) then (INVALID_ACCESS_MODE, row1)
  else
    let cnt := u32 (owner_cnt row - 1) in
    if 0 <? cnt then (SUCCESS, MkRow (lock_type row) cnt (tuple row) id)
    else (SUCCESS, MkRow INVALID cnt (tuple row) id).

(** [remote_unlock]; the result of [local_unlock] is discarded. *)
Definition remote_unlock (row : Row) (req : tuple_msg) : Row :=
  let row1 :=
    if bool_decide (mt_mode req = WRITE)
    then MkRow (lock_type row) (owner_cnt row) (mt_tuple req) (last_acq row) else row in
  (local_unlock row1 (mt_mode req) (TxnId_unpack (mt_pack req))).2.

(** [check()]. *)
Definition row_check (row : Row) : bool := bool_decide (lock_type row = INVALID).

(** ** The specification: a shared/exclusive lock *)

Inductive rw := Free | Shared (n : Z) | Exclusive.

Definition spec_acquire (s : rw) (mode : AccessMode) : option rw :=
  match s, mode with
  | Free, READ => Some (Shared 1)
  | Free, WRITE => Some Exclusive
  | Shared n, READ => Some (Shared (n + 1))
  | _, _ => None
  end.

Definition spec_release (s : rw) (mode : AccessMode) : option rw :=
  match s, mode with
  | Shared n, READ => Some (if 1 <? n then Shared (n - 1) else Free)
  | Exclusive, WRITE => Some Free
  | _, _ => None
  end.

Definition rw_of (row : Row) : rw :=
  match lock_type row with
  | INVALID => Free
  | READ => Shared (owner_cnt row)
  | WRITE => Exclusive
  end.

(** The lock word is consistent. *)
Definition row_wf (row : Row) : Prop :=
  0 ≤ owner_cnt row < 2 ^ 32
  ∧ (lock_type row = INVALID ↔ owner_cnt row = 0)
  ∧ (lock_type row = WRITE → owner_cnt row = 1).

Lemma Row_init_wf : row_wf Row_init.
Proof. repeat split; simpl; done. Qed.

Lemma is_compatible_spec row mode :
  row_wf row → mode ≠ INVALID →
  is_compatible row mode = bool_decide (is_Some (spec_acquire (rw_of row) mode)).
Proof.
  intros _ Hm. unfold is_compatible, rw_of, spec_acquire.
  destruct (lock_type row), mode; repeat case_bool_decide; naive_solver eauto.
Qed.

Lemma grant_wf row mode :
  row_wf row → mode ≠ INVALID → owner_cnt row + 1 < 2 ^ 32 → is_compatible row mode = true →
  row_wf (grant mode row) ∧ spec_acquire (rw_of row) mode = Some (rw_of (grant mode row))
  ∧ owner_cnt (grant mode row) = owner_cnt row + 1.
Proof.
  intros (Hc & Hi & Hw) Hm Hlt Hcomp. unfold is_compatible in Hcomp.
  unfold grant, row_wf, rw_of; cbn [lock_type owner_cnt]. rewrite wrap_small by lia.
  destruct (lock_type row), mode; repeat case_bool_decide; simplify_eq/=;
    intuition (try congruence; try lia); do 2 f_equal; lia.
Qed.

Lemma local_unlock_wf row mode id :
  row_wf row → mode ≠ INVALID → lock_type row = mode →
  ∃ row', local_unlock row mode id = (SUCCESS, row')
    ∧ row_wf row' ∧ spec_release (rw_of row) mode = Some (rw_of row')
    ∧ owner_cnt row' = owner_cnt row - 1 ∧ last_acq row' = id ∧ tuple row' = tuple row
    ∧ (owner_cnt row' ≠ 0 → lock_type row' = mode).
Proof.
  intros (Hc & Hi & Hw) Hm Hl. unfold local_unlock. rewrite bool_decide_false by naive_solver.
  assert (0 < owner_cnt row) as Hpos.
  { destruct (decide (owner_cnt row = 0)); [|lia]. naive_solver. }
  rewrite wrap_small by lia.
  destruct (0 <? owner_cnt row - 1) eqn:E; eexists; (split; [done|]);
    unfold row_wf, rw_of; cbn [lock_type owner_cnt last_acq tuple]; rewrite Hl.
  - apply Z.ltb_lt in E. split_and!; try done; try lia.
    + split; [naive_solver|lia].
    + intros ->. specialize (Hw Hl). lia.
    + destruct mode; simplify_eq/=; [|specialize (Hw Hl); lia].
      by rewrite (proj2 (Z.ltb_lt _ _)) by lia.
  - apply Z.ltb_ge in E. split_and!; try done; try lia.
    + split; [lia|done].
    + destruct mode; simplify_eq/=; [|done]. by rewrite (proj2 (Z.ltb_ge _ _)) by lia.
Qed.

(** C14: the row lock refines the specification of a shared/exclusive lock.
    On a consistent lock word, [local_lock] succeeds exactly when the
    specification grants the mode and the mini-batch rule allows the
    transaction, and then takes the word to the specification's next state;
    otherwise it leaves the row alone.  Releasing a mode the specification can
    release reports success and takes the specification's step. *)
Theorem row_lock_refines bm row self mode fut b :
  row_wf row → mode ≠ INVALID → owner_cnt row + 1 < 2 ^ 32 →
  mb_allow_lock bm row (fut_last_acq fut) = Ok b →
  ∃ e row' fut', local_lock bm row row self mode fut = Ok (e, row', fut')
    ∧ row_wf row'
    ∧ (e = SUCCESS ↔ b = true ∧ is_Some (spec_acquire (rw_of row) mode))
    ∧ (e = SUCCESS → spec_acquire (rw_of row) mode = Some (rw_of row')
                     ∧ fut' = MkFuture (fut_pkt fut) (PLocal self) (last_acq row)
                     ∧ ∀ id, ∃ row'', local_unlock row' mode id = (SUCCESS, row'')
                             ∧ spec_release (rw_of row') mode = Some (rw_of row''))
    ∧ (e ≠ SUCCESS → row' = row ∧ fut' = fut).
Proof.
  intros Hwf Hm Hlt Hb. unfold local_lock. rewrite Hb.
  destruct (is_compatible row mode) eqn:Hcomp; simpl.
  - destruct (grant_wf row mode Hwf Hm Hlt Hcomp) as (Hwf' & Hs & _).
    destruct b; simpl; do 3 eexists; (split; [done|]).
    + split_and!; [done| |intros _; split_and!; try done|naive_solver].
      * rewrite Hs. naive_solver.
      * intros id. destruct (local_unlock_wf _ mode id Hwf') as (row'' & ? & _ & ? & _); eauto.
    + split_and!; try done; destruct mode; naive_solver.
  - rewrite is_compatible_spec in Hcomp by done. apply bool_decide_eq_false in Hcomp.
    do 3 eexists. split; [done|]. split_and!; try done; destruct mode; naive_solver.
Qed.

(** ** Many clients on one row *)

(** A client that holds the lock: its mode, its own id and the [last_acq] its
    future received when the lock was granted. *)
Record client := MkClient { c_mode : AccessMode; c_id : TxnId; c_saved : TxnId }.

(** [s_commits] records, newest first, the ids of the transactions that
    released the row as committed and stamp it ([my_execute]). *)
Record sys := MkSys { s_row : Row; s_hold : gmap nat client; s_commits : list TxnId }.

Definition sys_init : sys := MkSys Row_init ∅ [].

(** The id a committing client leaves in the row: [my_execute] overwrites the
    future's [last_acq] with its own valid id, [execute] (whose id is not
    valid) leaves the saved one. *)
Definition commit_stamp (cl : client) : TxnId :=
  if valid (c_id cl) then c_id cl else c_saved cl.

Definition record_commit (cl : client) (log : list TxnId) : list TxnId :=
  if valid (c_id cl) then c_id cl :: log else log.

(** The put message a client's undo log sends for a remote row. *)
Definition put_for (cl : client) (id : TxnId) (t : KV) : tuple_msg :=
  MkTupleMsg TUPLE_PUT_REQ (MkNode 0) 0 0 0 0 (c_mode cl) (get_packed id) t.

Section system.
Context (bm : build).

(** One atomic action on the row.  The unlocked test of [local_lock] may have
    seen any earlier state of the row. *)
Inductive row_step : sys → sys → Prop :=
| row_lock_local s c early self mode fut row' fut' :
    s_hold s !! c = None → mode ≠ INVALID → TxnId_ok (fut_last_acq fut) →
    Z.of_nat (size (s_hold s)) + 1 < 2 ^ 32 →
    local_lock bm early (s_row s) self mode fut = Ok (SUCCESS, row', fut') →
    row_step s (MkSys row' (<[c := MkClient mode (fut_last_acq fut) (fut_last_acq fut')]> (s_hold s))
                      (s_commits s))
| row_lock_remote s c req row' res :
    s_hold s !! c = None → mt_mode req ≠ INVALID →
    Z.of_nat (size (s_hold s)) + 1 < 2 ^ 32 →
    remote_lock bm (s_row s) req = Ok (row', res) → mt_mode res ≠ INVALID →
    row_step s (MkSys row' (<[c := MkClient (mt_mode req) (TxnId_unpack (mt_pack req))
                                            (TxnId_unpack (mt_pack res))]> (s_hold s))
                      (s_commits s))
| row_write s c cl v :
    s_hold s !! c = Some cl → c_mode cl = WRITE →
    row_step s (MkSys (MkRow (lock_type (s_row s)) (owner_cnt (s_row s))
                             (set_value v (tuple (s_row s))) (last_acq (s_row s)))
                      (s_hold s) (s_commits s))
| row_commit_local s c cl e row' :
    s_hold s !! c = Some cl →
    local_unlock (s_row s) (c_mode cl) (commit_stamp cl) = (e, row') →
    row_step s (MkSys row' (delete c (s_hold s)) (record_commit cl (s_commits s)))
| row_commit_remote s c cl t :
    s_hold s !! c = Some cl →
    row_step s (MkSys (remote_unlock (s_row s) (put_for cl (commit_stamp cl) t))
                      (delete c (s_hold s)) (record_commit cl (s_commits s)))
| row_abort_local s c cl e row' :
    s_hold s !! c = Some cl →
    local_unlock (s_row s) (c_mode cl) (c_saved cl) = (e, row') →
    row_step s (MkSys row' (delete c (s_hold s)) (s_commits s))
| row_abort_remote s c cl t :
    s_hold s !! c = Some cl →
    row_step s (MkSys (remote_unlock (s_row s) (put_for cl (c_saved cl) t))
                      (delete c (s_hold s)) (s_commits s)).

(** The row's lock word counts exactly the holders, all in the row's mode. *)
Record sys_wf (s : sys) : Prop := {
  sw_row : row_wf (s_row s);
  sw_cnt : owner_cnt (s_row s) = Z.of_nat (size (s_hold s));
  sw_mode : ∀ c cl, s_hold s !! c = Some cl →
    c_mode cl = lock_type (s_row s) ∧ TxnId_ok (c_id cl) ∧ TxnId_ok (c_saved cl);
  sw_last : TxnId_ok (last_acq (s_row s));
}.

Lemma sys_init_wf : sys_wf sys_init.
Proof. split; [apply Row_init_wf|done|done|apply TxnId_make_ok]. Qed.

(** What a granted lock request establishes, local or remote. *)
Lemma local_lock_granted early row self mode fut row' fut' :
  local_lock bm early row self mode fut = Ok (SUCCESS, row', fut') → mode ≠ INVALID →
  row' = grant mode row ∧ is_compatible row mode = true
  ∧ fut' = MkFuture (fut_pkt fut) (PLocal self) (last_acq row)
  ∧ mb_allow_lock bm row (fut_last_acq fut) = Ok true.
Proof.
  unfold local_lock. intros H Hm. destruct (is_compatible early mode); simpl in H;
    [|destruct mode; naive_solver].
  destruct (mb_allow_lock bm row _) as [[]|] eqn:Ea; simpl in H;
    destruct (is_compatible row mode); simpl in H; destruct mode; naive_solver.
Qed.

Lemma remote_lock_granted row req row' res :
  remote_lock bm row req = Ok (row', res) → mt_mode res ≠ INVALID →
  row' = grant (mt_mode req) row ∧ is_compatible row (mt_mode req) = true
  ∧ mt_pack res = get_packed (last_acq row) ∧ mt_tuple res = tuple row
  ∧ mb_allow_lock bm row (TxnId_unpack (mt_pack req)) = Ok true.
Proof.
  unfold remote_lock. intros H Hm.
  destruct (mb_allow_lock bm row _) as [[]|] eqn:Ea; simpl in H;
    destruct (is_compatible row _); simpl in H; simplify_eq; simpl in Hm; naive_solver.
Qed.

Lemma grant_sys s c mode id saved :
  sys_wf s → s_hold s !! c = None → mode ≠ INVALID →
  Z.of_nat (size (s_hold s)) + 1 < 2 ^ 32 → is_compatible (s_row s) mode = true →
  TxnId_ok id → TxnId_ok saved →
  sys_wf (MkSys (grant mode (s_row s)) (<[c := MkClient mode id saved]> (s_hold s)) (s_commits s)).
Proof.
  intros [Hr Hc Hm Hl] Hn Hmode Hsz Hcomp Hid Hsaved. rewrite <-Hc in Hsz.
  destruct (grant_wf (s_row s) mode Hr Hmode Hsz Hcomp) as (Hwf & _ & Hcnt).
  split; cbn [s_row s_hold]; [done| | |done].
  - rewrite Hcnt, Hc, map_size_insert_None by done. lia.
  - intros c' cl [[<- <-]|[Hne Hcl]]%lookup_insert_Some; [done|].
    destruct (Hm c' cl Hcl) as (Hcm & ?). split; [|done]. cbn [grant lock_type].
    assert (lock_type (s_row s) ≠ INVALID) as Hni.
    { intros Hi%Hr. rewrite Hc in Hi. pose proof (map_size_non_empty_iff (s_hold s)) as [_ He].
      apply He; [|lia]. intros He'. by rewrite He', lookup_empty in Hcl. }
    unfold is_compatible in Hcomp. rewrite bool_decide_false in Hcomp by done.
    case_bool_decide as Hw; [done|]. destruct (lock_type (s_row s)), mode; naive_solver.
Qed.

Lemma delete_size (h : gmap nat client) c cl :
  h !! c = Some cl → Z.of_nat (size (delete c h)) = Z.of_nat (size h) - 1.
Proof.
  intros H. rewrite map_size_delete, H. assert (size h ≠ 0)%nat; [|lia].
  apply map_size_non_empty_iff. intros ->. by rewrite lookup_empty in H.
Qed.

(** A holder can always release, and the release is a success. *)
Lemma release_sys s c cl t id :
  sys_wf s → s_hold s !! c = Some cl → TxnId_ok id →
  ∃ row', local_unlock (MkRow (lock_type (s_row s)) (owner_cnt (s_row s)) t (last_acq (s_row s)))
                       (c_mode cl) id = (SUCCESS, row')
    ∧ (∀ log, sys_wf (MkSys row' (delete c (s_hold s)) log))
    ∧ last_acq row' = id ∧ tuple row' = t.
Proof.
  intros [Hr Hc Hm Hl] Hcl Hid. destruct (Hm c cl Hcl) as (Hcm & _).
  pose proof (delete_size _ _ _ Hcl) as Hsz.
  assert (c_mode cl ≠ INVALID) as Hni.
  { rewrite Hcm. intros Hi%Hr. rewrite Hc in Hi. pose proof (delete_size _ _ _ Hcl). lia. }
  destruct (local_unlock_wf (MkRow (lock_type (s_row s)) (owner_cnt (s_row s)) t (last_acq (s_row s)))
    (c_mode cl) id) as (row' & He & Hwf & _ & Hcnt & Hla & Ht & Hlt); try done.
  exists row'. split; [done|]. split; [|done]. intros log. split; cbn [s_row s_hold]; try done.
  - rewrite Hcnt. simpl. lia.
  - intros c' cl' [Hne Hcl']%lookup_delete_Some. destruct (Hm c' cl' Hcl') as (Hcm' & ?).
    split; [|done]. rewrite Hlt; [congruence|]. rewrite Hcnt. simpl. rewrite Hc.
    assert (delete c (s_hold s) !! c' = Some cl') as Hd by by rewrite lookup_delete_ne.
    pose proof (delete_size _ _ _ Hd) as H2. lia.
  - by rewrite Hla.
Qed.

Lemma remote_unlock_local row cl id t :
  TxnId_ok id →
  remote_unlock row (put_for cl id t)
  = (local_unlock (MkRow (lock_type row) (owner_cnt row)
       (if decide (c_mode cl = WRITE) then t else tuple row) (last_acq row)) (c_mode cl) id).2.
Proof.
  intros Hid. unfold remote_unlock, put_for. cbn [mt_mode mt_pack mt_tuple].
  rewrite txn_id_unpack_packed by done. case_bool_decide; case_decide; done.
Qed.

Lemma commit_stamp_ok s c cl : sys_wf s → s_hold s !! c = Some cl → TxnId_ok (commit_stamp cl).
Proof. intros H Hcl. destruct (sw_mode _ H c cl Hcl) as (_ & ? & ?). unfold commit_stamp. by case_match. Qed.

Lemma row_eta row : MkRow (lock_type row) (owner_cnt row) (tuple row) (last_acq row) = row.
Proof. by destruct row. Qed.

Lemma row_step_wf s s' : sys_wf s → row_step s s' → sys_wf s'.
Proof.
  intros Hs. destruct 1 as [s c early self mode fut row' fut' Hn Hm Hid Hsz Hl
    |s c req row' res Hn Hm Hsz Hl Hres|s c cl v Hcl Hw|s c cl e row' Hcl Hu|s c cl t Hcl
    |s c cl e row' Hcl Hu|s c cl t Hcl].
  - apply local_lock_granted in Hl as (-> & Hcomp & -> & _); [|done].
    apply grant_sys; try done. apply Hs.
  - apply remote_lock_granted in Hl as (-> & Hcomp & -> & _); [|done].
    apply grant_sys; try done; apply TxnId_unpack_ok.
  - destruct Hs as [Hr Hc Hmode Hl]. split; try done.
  - destruct (release_sys s c cl (tuple (s_row s)) (commit_stamp cl)) as (r & Hr & Hwf & _);
      [done|done|by eapply commit_stamp_ok|]. rewrite row_eta, Hu in Hr. simplify_eq. apply Hwf.
  - rewrite remote_unlock_local by by eapply commit_stamp_ok.
    destruct (release_sys s c cl (if decide (c_mode cl = WRITE) then t else tuple (s_row s))
      (commit_stamp cl)) as (r & -> & Hwf & _); [done|done|by eapply commit_stamp_ok|]. apply Hwf.
  - destruct (sw_mode _ Hs c cl Hcl) as (_ & _ & Hok).
    destruct (release_sys s c cl (tuple (s_row s)) (c_saved cl)) as (r & Hr & Hwf & _); [done..|].
    rewrite row_eta, Hu in Hr. simplify_eq. apply Hwf.
  - destruct (sw_mode _ Hs c cl Hcl) as (_ & _ & Hok). rewrite remote_unlock_local by done.
    destruct (release_sys s c cl (if decide (c_mode cl = WRITE) then t else tuple (s_row s))
      (c_saved cl)) as (r & -> & Hwf & _); [done..|]. apply Hwf.
Qed.

Lemma row_reachable_wf s : rtc row_step sys_init s → sys_wf s.
Proof.
  intros H. revert H. apply (rtc_ind_r (λ s, sys_wf s)); [apply sys_init_wf|].
  intros s1 s2 _ Hst H1. by eapply row_step_wf.
Qed.

(** What the release of client [c] leaves: one owner less, free after the
    last. *)
Definition freed (s : sys) (c : nat) (row' : Row) : Prop :=
  owner_cnt row' = Z.of_nat (size (delete c (s_hold s)))
  ∧ (lock_type row' = INVALID ↔ delete c (s_hold s) = ∅)
  ∧ (delete c (s_hold s) ≠ ∅ → lock_type row' = lock_type (s_row s)).

Lemma holder_mode s c cl : sys_wf s → s_hold s !! c = Some cl → lock_type (s_row s) ≠ INVALID.
Proof.
  intros Hs Hcl Hi. apply (sw_row _ Hs) in Hi. rewrite (sw_cnt _ Hs) in Hi.
  assert (size (s_hold s) = 0%nat) as H0%map_size_empty_inv by lia. by rewrite H0, lookup_empty in Hcl.
Qed.

Lemma holders_share s c1 c2 cl1 cl2 :
  sys_wf s → s_hold s !! c1 = Some cl1 → s_hold s !! c2 = Some cl2 → c1 ≠ c2 → lock_type (s_row s) = READ.
Proof.
  intros Hs H1 H2 Hne. pose proof (delete_size _ _ _ H1) as Hd1.
  assert (delete c1 (s_hold s) !! c2 = Some cl2) as H2' by by rewrite lookup_delete_ne.
  pose proof (delete_size _ _ _ H2') as Hd2. pose proof (sw_row _ Hs) as (_ & _ & Hw). pose proof (sw_cnt _ Hs) as Hc.
  pose proof (holder_mode s c1 cl1 Hs H1). destruct (lock_type (s_row s)); [done|done|]. specialize (Hw eq_refl). lia.
Qed.

Lemma freed_wf s c row' log :
  sys_wf s → sys_wf (MkSys row' (delete c (s_hold s)) log) → freed s c row'.
Proof.
  intros Hs [(_ & Hi & _) Hc Hm _]. cbn [s_row s_hold] in *. split; [done|]. split.
  - rewrite Hi, Hc, <-map_size_empty_iff. lia.
  - intros (c' & cl' & Hcl')%map_choose. rewrite <-(proj1 (Hm c' cl' Hcl')).
    apply lookup_delete_Some in Hcl' as [_ Hcl']. exact (proj1 (sw_mode _ Hs c' cl' Hcl')).
Qed.

(** C3: mutual exclusion on a row.  However the lock, write and unlock steps
    of local workers and of the message handler interleave, and whatever the
    unlocked early test saw: the owner count is the number of holders, and the
    lock is free exactly when there is none; a holder has the row's mode; two
    clients hold the row at once only if both are readers; and every holder - a
    reader or a writer, the only one or one of many - can release, locally or
    through a put message, with its own id or the one it saved: the release
    succeeds (so the undo log never throws), takes one off the owner count, frees
    the lock if the holder was the last one, and leaves the tuple alone but for
    the one a remote writer sends. *)
Theorem row_mutual_exclusion s :
  rtc row_step sys_init s →
  owner_cnt (s_row s) = Z.of_nat (size (s_hold s)) ∧ (lock_type (s_row s) = INVALID ↔ s_hold s = ∅)
  ∧ (∀ c1 c2 cl1 cl2, s_hold s !! c1 = Some cl1 → s_hold s !! c2 = Some cl2 → c1 ≠ c2 →
       c_mode cl1 = READ ∧ c_mode cl2 = READ)
  ∧ (∀ c cl, s_hold s !! c = Some cl → c_mode cl = lock_type (s_row s) ∧ c_mode cl ≠ INVALID
       ∧ ∀ id, id = commit_stamp cl ∨ id = c_saved cl →
           (∃ row', local_unlock (s_row s) (c_mode cl) id = (SUCCESS, row') ∧ freed s c row' ∧ tuple row' = tuple (s_row s))
           ∧ ∀ t, let row' := remote_unlock (s_row s) (put_for cl id t) in
               freed s c row' ∧ tuple row' = (match c_mode cl with WRITE => t | _ => tuple (s_row s) end)).
Proof.
  intros Hreach. pose proof (row_reachable_wf s Hreach) as Hs. pose proof (sw_cnt _ Hs) as Hc.
  pose proof (sw_row _ Hs) as (_ & Hi & Hw).
  split_and!; [done| | |].
  - rewrite Hi, Hc, <-map_size_empty_iff. lia.
  - intros c1 c2 cl1 cl2 H1 H2 Hne. pose proof (holders_share s c1 c2 cl1 cl2 Hs H1 H2 Hne) as Hr.
    destruct (sw_mode _ Hs c1 cl1 H1) as [-> _], (sw_mode _ Hs c2 cl2 H2) as [-> _]. done.
  - intros c cl Hcl. destruct (sw_mode _ Hs c cl Hcl) as (Hm & _ & Hok). split; [done|].
    split; [rewrite Hm; by eapply holder_mode|]. intros id Hid.
    assert (TxnId_ok id) as Hidok by (destruct Hid as [-> | ->]; [by eapply commit_stamp_ok|done]). split.
    + destruct (release_sys s c cl (tuple (s_row s)) id Hs Hcl Hidok) as (r & Hr & Hwf & _ & Ht). rewrite row_eta in Hr.
      exists r. split_and!; [done|apply (freed_wf s c r [] Hs (Hwf []))|done].
    + intros t. rewrite remote_unlock_local by done.
      destruct (release_sys s c cl (if decide (c_mode cl = WRITE) then t else tuple (s_row s)) id Hs Hcl Hidok) as (r & -> & Hwf & _ & Ht).
      cbn [snd]. split; [apply (freed_wf s c r [] Hs (Hwf []))|]. rewrite Ht. by destruct (c_mode cl).
Qed.

(** ** Mini-batch order *)

(** [e] may be followed by [l] on a row: a later mini-batch, or, with flow
    order, the same mini-batch on the same node. *)
Definition flow_le (e l : TxnId) : Prop :=
  mini_batch_id e < mini_batch_id l
  ∨ USE_FLOW_ORDER bm = true ∧ mini_batch_id e = mini_batch_id l ∧ node_id e = node_id l.

Lemma mb_allow_flow row id :
  mb_allow_lock bm row id = Ok true → valid id = true → flow_le (last_acq row) id.
Proof.
  unfold mb_allow_lock. intros H Hv. rewrite Hv in H. minv.
  unfold flow_le. destruct (USE_FLOW_ORDER bm); lia.
Qed.

#[global] Instance flow_trans : Transitive flow_le.
Proof. intros a b c. unfold flow_le. intuition (try lia). Qed.

(** Histories in which every lock taken is exclusive. *)
Definition write_step (s s' : sys) : Prop :=
  row_step s s' ∧ map_Forall (λ _ cl, c_mode cl = WRITE) (s_hold s').

(** The row carries the id of the last committed stamping transaction, every
    holder saved it, and a stamping holder may follow it. *)
Record flow_wf (s : sys) : Prop := {
  fw_sys : sys_wf s;
  fw_excl : map_Forall (λ _ cl, c_mode cl = WRITE) (s_hold s);
  fw_last : last_acq (s_row s) = default (TxnId_make true 0 0) (head (s_commits s));
  fw_hold : ∀ c cl, s_hold s !! c = Some cl →
    c_saved cl = last_acq (s_row s) ∧ (valid (c_id cl) = true → flow_le (last_acq (s_row s)) (c_id cl));
  fw_sorted : StronglySorted (flip flow_le) (s_commits s);
}.

Lemma flow_commit_sorted s c cl :
  flow_wf s → s_hold s !! c = Some cl →
  StronglySorted (flip flow_le) (record_commit cl (s_commits s))
  ∧ commit_stamp cl = default (TxnId_make true 0 0) (head (record_commit cl (s_commits s))).
Proof.
  intros [Hs _ Hl Hh Hst] Hcl. destruct (Hh c cl Hcl) as [Hsv Hfl].
  unfold record_commit, commit_stamp. destruct (valid (c_id cl)) eqn:Hv.
  - split; [|done]. constructor; [done|]. specialize (Hfl eq_refl). rewrite Hl in Hfl.
    destruct (s_commits s) as [|h log]; [done|]. simpl in Hfl. constructor; [done|].
    inversion_clear Hst as [|? ? _ Hall]. eapply Forall_impl; [done|]. intros x Hx. simpl in *.
    by etrans.
  - split; [done|]. by rewrite Hsv.
Qed.

(** With exclusive holders only, deleting one leaves nobody. *)
Lemma excl_delete s c cl :
  sys_wf s → map_Forall (λ _ cl, c_mode cl = WRITE) (s_hold s) → s_hold s !! c = Some cl →
  delete c (s_hold s) = ∅.
Proof.
  intros Hs He Hcl. apply map_empty. intros c'. destruct (delete c (s_hold s) !! c') as [cl'|] eqn:E; [|done].
  exfalso. pose proof (delete_size _ _ _ Hcl). pose proof (delete_size _ _ _ E).
  destruct (sw_row _ Hs) as (_ & _ & Hw). destruct (sw_mode _ Hs c cl Hcl) as [Hm _].
  rewrite (He c cl Hcl) in Hm. specialize (Hw (eq_sym Hm)). rewrite (sw_cnt _ Hs) in Hw. lia.
Qed.

(** Releasing the only holder. *)
Lemma flow_release s c cl row' log :
  flow_wf s → s_hold s !! c = Some cl → sys_wf (MkSys row' (delete c (s_hold s)) log) →
  StronglySorted (flip flow_le) log →
  last_acq row' = default (TxnId_make true 0 0) (head log) →
  flow_wf (MkSys row' (delete c (s_hold s)) log).
Proof.
  intros Hf Hcl Hs' Hso Hla.
  assert (delete c (s_hold s) = ∅) as Hd by (eapply excl_delete; [apply Hf..|done]).
  split; try done; cbn [s_row s_hold]; rewrite Hd.
  - apply map_Forall_empty.
  - by intros ? ? ?%lookup_empty_Some.
Qed.

Lemma release_last s c cl id t e row' :
  sys_wf s → s_hold s !! c = Some cl → TxnId_ok id →
  local_unlock (MkRow (lock_type (s_row s)) (owner_cnt (s_row s)) t (last_acq (s_row s)))
    (c_mode cl) id = (e, row') → last_acq row' = id.
Proof.
  intros Hs Hcl Hid Hu. destruct (release_sys s c cl t id) as (r & Hr & _ & Hla & _); try done.
  congruence.
Qed.

Lemma remote_release_last s c cl id t :
  sys_wf s → s_hold s !! c = Some cl → TxnId_ok id →
  last_acq (remote_unlock (s_row s) (put_for cl id t)) = id.
Proof.
  intros Hs Hcl Hid. rewrite remote_unlock_local by done.
  destruct (local_unlock _ _ _) as [e row'] eqn:E. by eapply release_last in E.
Qed.

Lemma write_step_flow s s' : flow_wf s → write_step s s' → flow_wf s'.
Proof.
  intros Hf [Hst He]. pose proof (fw_sys _ Hf) as Hs. pose proof (row_step_wf s s' Hs Hst) as Hs'.
  destruct Hst as [s c early self mode fut row' fut' Hn Hm Hid Hsz Hl
    |s c req row' res Hn Hm Hsz Hl Hres|s c cl v Hcl Hw|s c cl e row' Hcl Hu|s c cl t Hcl
    |s c cl e row' Hcl Hu|s c cl t Hcl];
    try (destruct (flow_commit_sorted s c cl Hf Hcl) as [Hso Hhd];
         pose proof (commit_stamp_ok s c cl Hs Hcl) as Hstamp;
         destruct (fw_hold _ Hf c cl Hcl) as [Hsv _];
         destruct (sw_mode _ Hs c cl Hcl) as (_ & _ & Hok)).
  - apply local_lock_granted in Hl as (-> & Hcomp & -> & Hb); [|done].
    split; try done; try apply Hf. cbn [s_hold s_row grant last_acq].
    intros c' cl' [[<- <-]|[Hne Hcl]]%lookup_insert_Some; [|by apply (fw_hold _ Hf c')].
    split; [done|]. intros Hv. by apply mb_allow_flow.
  - apply remote_lock_granted in Hl as (-> & Hcomp & Hp & _ & Hb); [|done].
    split; try done; try apply Hf. cbn [s_hold s_row grant last_acq].
    intros c' cl' [[<- <-]|[Hne Hcl]]%lookup_insert_Some; [|by apply (fw_hold _ Hf c')].
    cbn [c_saved c_id]. rewrite Hp, txn_id_unpack_packed by apply (sw_last _ Hs).
    split; [done|]. intros Hv. by apply mb_allow_flow.
  - split; try done; apply Hf.
  - rewrite <-(row_eta (s_row s)) in Hu. apply (release_last s c) in Hu; try done.
    eapply flow_release; [done..|]. by rewrite Hu.
  - eapply flow_release; [done..|]. by rewrite (remote_release_last s c).
  - rewrite <-(row_eta (s_row s)) in Hu. apply (release_last s c) in Hu; try done.
    eapply flow_release; try done; [apply Hf|]. rewrite Hu, Hsv. apply Hf.
  - eapply flow_release; try done; [apply Hf|]. rewrite (remote_release_last s c), Hsv by done. apply Hf.
Qed.

(** C13: exclusive histories respect the mini-batch order.  When a row is only
    ever locked for writing, the transactions that commit on it do so in
    non-decreasing mini-batch order, and two that commit in the same
    mini-batch come from the same node (with flow order; without it no two
    commit in the same mini-batch). *)
Theorem row_flow_order s i j e l :
  rtc write_step sys_init s →
  reverse (s_commits s) !! i = Some e → reverse (s_commits s) !! j = Some l → (i < j)%nat →
  flow_le e l.
Proof.
  intros Hreach Hi Hj Hij.
  assert (flow_wf s) as Hf.
  { revert Hreach. apply (rtc_ind_r (λ s, flow_wf s)).
    - split; [apply sys_init_wf|apply map_Forall_empty|done|done|constructor].
    - intros s1 s2 _ Hst H1. by eapply write_step_flow. }
  pose proof (lookup_lt_Some _ _ _ Hi) as Hil. pose proof (lookup_lt_Some _ _ _ Hj) as Hjl.
  rewrite length_reverse in Hil, Hjl.
  rewrite reverse_lookup in Hi, Hj by done.
  eapply (StronglySorted_lookup (flip flow_le)) in Hi; [exact Hi|apply Hf|exact Hj|lia].
Qed.
End system.

(** ** Shared readers *)

Definition reader_fut (node mb : Z) : TupleFuture := MkFuture None PNull (TxnId_make true node mb).

(** With shared readers the mini-batch order is lost.  Two readers of the
    same mini-batch on different nodes share the row; the first commits and
    stamps it, the second aborts and puts the older stamp back; then a writer
    of the second node takes the row in the mini-batch in which the first node
    has already committed. *)
Theorem shared_abort_loses_order :
  ∃ s c cl e, rtc (row_step default_build) sys_init s
    ∧ s_hold s !! c = Some cl ∧ c_mode cl = WRITE ∧ e ∈ s_commits s
    ∧ valid e = true ∧ valid (c_id cl) = true
    ∧ mini_batch_id e = mini_batch_id (c_id cl) ∧ node_id e ≠ node_id (c_id cl).
Proof.
  eexists _, 2%nat, _, (TxnId_make true 0 5). split.
  - eapply rtc_l; [eapply (row_lock_local _ _ 0%nat Row_init 0 READ (reader_fut 0 5));
      [done|done|apply TxnId_make_ok|by vm_compute|vm_compute; reflexivity]|].
    eapply rtc_l; [eapply (row_lock_local _ _ 1%nat Row_init 0 READ (reader_fut 1 5));
      [done|done|apply TxnId_make_ok|by vm_compute|vm_compute; reflexivity]|].
    eapply rtc_l; [eapply (row_commit_local _ _ 0%nat); [vm_compute; reflexivity|vm_compute; reflexivity]|].
    eapply rtc_l; [eapply (row_abort_local _ _ 1%nat); [vm_compute; reflexivity|vm_compute; reflexivity]|].
    eapply rtc_l; [eapply (row_lock_local _ _ 2%nat Row_init 0 WRITE (reader_fut 1 5));
      [vm_compute; reflexivity|done|apply TxnId_make_ok|by vm_compute|vm_compute; reflexivity]|].
    apply rtc_refl.
  - cbn [s_hold s_commits]. split; [apply lookup_insert_eq|]. split; [done|].
    split; [by apply (bool_decide_unpack _); vm_compute|]. by vm_compute.
Qed.

(** ** Witnesses *)

Definition two_readers : sys :=
  MkSys (MkRow READ 2 (MkKV 0 0) (TxnId_make true 0 0))
        (<[1%nat := MkClient READ (TxnId_make true 1 5) (TxnId_make true 0 0)]>
          (<[0%nat := MkClient READ (TxnId_make true 0 5) (TxnId_make true 0 0)]> ∅)) [].

Lemma two_readers_reachable : rtc (row_step default_build) sys_init two_readers.
Proof.
  eapply rtc_l; [eapply (row_lock_local _ _ 0%nat Row_init 0 READ (reader_fut 0 5));
    [done|done|apply TxnId_make_ok|by vm_compute|vm_compute; reflexivity]|].
  eapply rtc_l; [eapply (row_lock_local _ _ 1%nat Row_init 0 READ (reader_fut 1 5));
    [done|done|apply TxnId_make_ok|by vm_compute|vm_compute; reflexivity]|].
  apply rtc_refl.
Qed.

Lemma row_mutual_exclusion_witness :
  owner_cnt (s_row two_readers) = Z.of_nat (size (s_hold two_readers))
  ∧ ∃ row', local_unlock (s_row two_readers) READ (TxnId_make true 0 0) = (SUCCESS, row') ∧ freed two_readers 0 row'.
Proof.
  destruct (row_mutual_exclusion default_build two_readers two_readers_reachable) as (H1 & _ & _ & H4). split; [exact H1|].
  destruct (H4 0%nat (MkClient READ (TxnId_make true 0 5) (TxnId_make true 0 0))) as (_ & _ & Hrel); [by vm_compute|].
  destruct (Hrel (TxnId_make true 0 0)) as [(row' & Hu & Hf & _) _]; [by right|]. by exists row'.
Defined.

Lemma row_lock_refines_witness :
  ∃ e row' fut', local_lock default_build Row_init Row_init 0 WRITE (reader_fut 1 5) = Ok (e, row', fut')
    ∧ row_wf row'
    ∧ (e = SUCCESS ↔ true = true ∧ is_Some (spec_acquire (rw_of Row_init) WRITE))
    ∧ (e = SUCCESS → spec_acquire (rw_of Row_init) WRITE = Some (rw_of row')
                     ∧ fut' = MkFuture None (PLocal 0) (last_acq Row_init)
                     ∧ ∀ id, ∃ row'', local_unlock row' WRITE id = (SUCCESS, row'')
                             ∧ spec_release (rw_of row') WRITE = Some (rw_of row''))
    ∧ (e ≠ SUCCESS → row' = Row_init ∧ fut' = reader_fut 1 5).
Proof. apply (row_lock_refines default_build Row_init 0 WRITE (reader_fut 1 5) true); [apply Row_init_wf|done|done|done]. Defined.

(** A history of three writers: two of node 1 in mini-batch 5, one of node 0 in
    mini-batch 6. *)
Definition three_writers : sys :=
  MkSys (MkRow INVALID 0 (MkKV 0 0) (TxnId_make true 0 6)) ∅
        [TxnId_make true 0 6; TxnId_make true 1 5; TxnId_make true 1 5].

Lemma write_round s node mb row :
  s_hold s = ∅ → mb_allow_lock default_build (s_row s) (TxnId_make true node mb) = Ok true →
  lock_type (s_row s) = INVALID → owner_cnt (s_row s) = 0 →
  row = MkRow INVALID 0 (tuple (s_row s)) (TxnId_make true node mb) →
  rtc (write_step default_build) s (MkSys row ∅ (TxnId_make true node mb :: s_commits s)).
Proof.
  destruct s as [r h log]; cbn [s_hold s_row s_commits]. intros -> Ha Hl Hc ->.
  eapply rtc_l; [split; [eapply (row_lock_local _ _ 0%nat r 0 WRITE (reader_fut node mb));
    [done|done|apply TxnId_make_ok|by vm_compute|]|]|].
  - unfold local_lock, is_compatible, reader_fut. cbn [s_row fut_last_acq].
    rewrite Hl, Ha. reflexivity.
  - cbn [s_hold]. rewrite insert_empty. by apply map_Forall_singleton.
  - apply rtc_once. split; [|done]. cbn [s_hold s_commits fut_last_acq reader_fut]. rewrite insert_empty.
    set (cl := MkClient _ _ _).
    pose proof (row_commit_local default_build (MkSys (grant WRITE r) {[ 0%nat := cl ]} log) 0%nat cl SUCCESS
      (MkRow INVALID 0 (tuple r) (TxnId_make true node mb))) as H.
    cbn [s_hold s_commits s_row] in H. rewrite delete_singleton_eq in H. apply H.
    + apply lookup_singleton_eq.
    + unfold grant, local_unlock. cbn [lock_type owner_cnt tuple last_acq]. by rewrite Hc.
Qed.

Lemma three_writers_reachable : rtc (write_step default_build) sys_init three_writers.
Proof.
  set (row mb n := MkRow INVALID 0 (MkKV 0 0) (TxnId_make true n mb)).
  etrans; [apply (write_round sys_init 1 5 (row 5 1)); [done|by vm_compute|done..]|].
  etrans; [apply (write_round (MkSys (row 5 1) ∅ [TxnId_make true 1 5]) 1 5 (row 5 1));
    [done|by vm_compute|done..]|].
  apply (write_round (MkSys (row 5 1) ∅ [TxnId_make true 1 5; TxnId_make true 1 5]) 0 6 (row 6 0));
    [done|by vm_compute|done..].
Qed.

Lemma row_flow_order_witness : flow_le default_build (TxnId_make true 1 5) (TxnId_make true 0 6).
Proof.
  apply (row_flow_order default_build three_writers 1 2);
    [apply three_writers_reachable|by vm_compute|by vm_compute|lia].
Defined.
