(* ===== verification/Table.v ===== *)
(** * Partitions, tables and the database's table registry

    [src/src/ee/partition.hpp] (which node owns a key), [src/src/ee/table.hpp]
    ([StructTable]: the rows of a node and the local and remote entry points to
    their locks) and the table registry of [src/src/ee/database.hpp]. *)
From stdpp Require Import base tactics list numbers gmap strings.
From Stdlib Require Import ZArith Lia.
From S2P Require Import Prelude Types Msg Row.

(** ** Partitions *)

(** The fields [PartitionInfo]'s constructor sets. *)
Record PartitionInfo := MkPart {
  total_size : Z;
  partition_size : Z;
  offset : Z;
  my_id : node_t;
  switch_id : node_t;
}.

(** [PartitionInfo(total_size)], with the three values it takes from the
    configuration. *)
Definition PartitionInfo_make (total num_nodes node_id switch : Z) : outcome PartitionInfo :=
  r ← umod total num_nodes;
  if bool_decide (r ≠ 0) then Fail (Thrown RuntimeError)
  else
    psize ← udiv total num_nodes;
    Ok (MkPart total psize (u64 (psize * node_id)) (node_of node_id) (node_of switch)).

(** [location]; node ids are compared through [operator uint32_t]. *)
Definition location (p : PartitionInfo) (index : Z) : outcome LocationInfo :=
  q ← udiv index (partition_size p);
  let t := node_of q in
  Ok (MkLoc (node_u32 t =? node_u32 (my_id p)) t).

(** [translate]. *)
Definition translate (p : PartitionInfo) (index : Z) : Z := index.

(** ** Tables *)

Record StructTable := MkTable {
  tb_id : Z;
  tb_name : string;
  tb_size : Z;                (* std::atomic<uint64_t> *)
  max_size : Z;
  part_info : PartitionInfo;
  data : list Row;
}.

(** [StructTable(max_size)]. *)
Definition StructTable_make (msize num_nodes node_id switch : Z) : outcome StructTable :=
  p ← PartitionInfo_make msize num_nodes node_id switch;
  Ok (MkTable 0 EmptyString 0 msize p (replicate (Z.to_nat msize) Row_init)).

Definition set_data (d : list Row) (t : StructTable) : StructTable :=
  MkTable (tb_id t) (tb_name t) (tb_size t) (max_size t) (part_info t) d.

(** [lockless_access], as a read; the reference it returns is written through
    [lockless_write]. *)
Definition lockless_access (t : StructTable) (index : Z) : outcome KV :=
  let local_index := translate (part_info t) index in
  if tb_size t <=? local_index then Fail AssertFailed
  else row ← aget (data t) (Z.to_nat local_index); Ok (tuple row).

Definition set_tuple (kv : KV) (row : Row) : Row :=
  MkRow (lock_type row) (owner_cnt row) kv (last_acq row).

(** [lockless_access(index).value = v]. *)
Definition lockless_write (t : StructTable) (index v : Z) : outcome StructTable :=
  let local_index := translate (part_info t) index in
  if tb_size t <=? local_index then Fail AssertFailed
  else
    row ← aget (data t) (Z.to_nat local_index);
    d ← aset (data t) (Z.to_nat local_index) (set_tuple (set_value v (tuple row)) row);
    Ok (set_data d t).

(** [get]; the unlocked test of [local_lock] reads the row as it is. *)
Definition table_get (bm : build) (t : StructTable) (index : Z) (mode : AccessMode)
    (future : TupleFuture) : outcome (ErrorCode * StructTable * TupleFuture) :=
  let local_index := translate (part_info t) index in
  if tb_size t <=? local_index then Ok (INVALID_ROW_ID, t, future)
  else
    row ← aget (data t) (Z.to_nat local_index);
    '(e, row', future') ← local_lock bm row row (Z.to_nat local_index) mode future;
    d ← aset (data t) (Z.to_nat local_index) row';
    Ok (e, set_data d t, future').

(** [put]. *)
Definition table_put (t : StructTable) (index : Z) (mode : AccessMode) (id : TxnId)
  : outcome (ErrorCode * StructTable) :=
  let local_index := translate (part_info t) index in
  if tb_size t <=? local_index then Ok (INVALID_ROW_ID, t)
  else
    row ← aget (data t) (Z.to_nat local_index);
    let '(e, row') := local_unlock row mode id in
    d ← aset (data t) (Z.to_nat local_index) row';
    Ok (e, set_data d t).

(** [insert]: the key of the new row; the reference it returns is the row's
    tuple. *)
Definition table_insert (t : StructTable) : outcome (Z * StructTable) :=
  if max_size t <=? tb_size t then Fail (Thrown TableFull)
  else
    _ ← aget (data t) (Z.to_nat (tb_size t));
    Ok (tb_size t, MkTable (tb_id t) (tb_name t) (u64 (tb_size t + 1)) (max_size t) (part_info t) (data t)).

(** [remote_get] and [remote_put]: no test of the row id. *)
Definition remote_get (bm : build) (t : StructTable) (req : tuple_msg)
  : outcome (StructTable * tuple_msg) :=
  let local_index := translate (part_info t) (mt_rid req) in
  row ← aget (data t) (Z.to_nat local_index);
  '(row', res) ← remote_lock bm row req;
  d ← aset (data t) (Z.to_nat local_index) row';
  Ok (set_data d t, res).

Definition remote_put (t : StructTable) (req : tuple_msg) : outcome StructTable :=
  let local_index := translate (part_info t) (mt_rid req) in
  row ← aget (data t) (Z.to_nat local_index);
  d ← aset (data t) (Z.to_nat local_index) (remote_unlock row req);
  Ok (set_data d t).

(** [~StructTable] under [config.verify]: the rows it reports as still locked. *)
Definition failed_checks (t : StructTable) : list nat :=
  filter (λ i, row_check <$> data t !! i = Some false) (seq 0 (Z.to_nat (max_size t))).

(** [write_dump] and [read_dump]: the file is the sequence of values written;
    rows are written whole, lock words included. *)
Record dump := MkDump { d_max_size : Z; d_size : Z; d_rows : list Row }.

Definition write_dump (t : StructTable) : dump :=
  MkDump (max_size t) (tb_size t) (take (Z.to_nat (tb_size t)) (data t)).

Definition read_dump (t : StructTable) (file : option dump) : bool * StructTable :=
  match file with
  | None => (false, t)
  | Some f =>
      if bool_decide (d_max_size f ≠ max_size t) then (false, t)
      else (true, MkTable (tb_id t) (tb_name t) (d_size f) (max_size t) (part_info t)
                          (d_rows f ++ drop (length (d_rows f)) (data t)))
  end.

(** ** The registry *)

Record Registry := MkRegistry { table_ids : list StructTable; table_names : gmap string nat }.

Definition Registry_init : Registry := MkRegistry [] ∅.

(** [has_table]. *)
Definition has_table (r : Registry) (name : string) : bool :=
  bool_decide (is_Some (table_names r !! name)).

(** [make_table<StructTable>(key, max_size)]. *)
Definition make_table (r : Registry) (key : string) (msize num_nodes node_id switch : Z)
  : outcome (nat * Registry) :=
  if has_table r key then Fail (Thrown LogicError)
  else
    t ← StructTable_make msize num_nodes node_id switch;
    let i := length (table_ids r) in
    let t' := MkTable (Z.of_nat i) key (tb_size t) (max_size t) (part_info t) (data t) in
    Ok (i, MkRegistry (table_ids r ++ [t']) (<[key := i]> (table_names r))).

(** [operator[](std::string)], [operator[](table_t)]. *)
Definition by_name (r : Registry) (key : string) : outcome nat :=
  match table_names r !! key with Some i => Ok i | None => Fail (Thrown OutOfRangeError) end.

Definition by_id (r : Registry) (id : Z) : outcome StructTable := aget (table_ids r) (Z.to_nat id).

(** [get_casted<StructTable>]: every table is a [StructTable], so the cast
    succeeds. *)
Definition get_casted (r : Registry) (key : string) : outcome nat := by_name r key.

(** ** Partitions: one owner per key *)

Lemma node_u32_of z : node_u32 (node_of z) = wrap 8 z.
Proof.
  unfold node_u32, node_of; cbn [node_value]. rewrite land_ones_wrap by lia.
  unfold wrap. rewrite <-Znumtheory.Zmod_div_mod; [done|lia|lia|by exists (2 ^ 24)].
Qed.

Section partition.
Context (total n sw : Z) (Hn : 0 < n <= 2 ^ 8) (Htot : 0 < total < 2 ^ 64) (Hdiv : total mod n = 0).

Lemma PartitionInfo_make_ok m :
  0 ≤ m < n →
  ∃ p, PartitionInfo_make total n m sw = Ok p ∧ partition_size p = total / n
       ∧ offset p = total / n * m ∧ node_u32 (my_id p) = m ∧ 0 < partition_size p
       ∧ partition_size p * n = total.
Proof.
  intros Hm. unfold PartitionInfo_make, umod, udiv.
  rewrite (proj2 (Z.eqb_neq n 0)) by lia. cbn [mbind outcome_bind]. rewrite Hdiv. simpl.
  pose proof (Z.div_mod total n ltac:(lia)) as Hd. rewrite Hdiv in Hd.
  eexists; split; [done|]; cbn [partition_size offset my_id].
  split_and!; [done| | |nia|lia].
  - apply wrap_small. split; [|]; nia.
  - rewrite node_u32_of. apply wrap_small. lia.
Qed.

Lemma location_ok m p k :
  0 ≤ m < n → PartitionInfo_make total n m sw = Ok p → 0 ≤ k < total →
  ∃ loc, location p k = Ok loc ∧ node_u32 (target loc) = k / partition_size p
    ∧ 0 ≤ node_u32 (target loc) < n
    ∧ is_local loc = bool_decide (node_u32 (target loc) = m).
Proof.
  intros Hm Hp Hk. destruct (PartitionInfo_make_ok m Hm) as (p' & Hp' & Hs & Ho & Hid & Hpos & Hmul).
  rewrite Hp in Hp'. injection Hp' as <-. unfold location, udiv. rewrite (proj2 (Z.eqb_neq (partition_size p) 0)) by lia.
  eexists; split; [done|]. cbn [target is_local]. rewrite Hid, node_u32_of.
  assert (0 ≤ k / partition_size p < n) as Hq.
  { split; [apply Z.div_pos; lia|apply Z.div_lt_upper_bound; nia]. }
  rewrite wrap_small by lia. split_and!; [done..|lia|lia|].
  apply eq_true_iff_eq. rewrite bool_decide_eq_true. apply Z.eqb_eq.
Qed.
End partition.

(** The partitions cover the key space without overlap.  When the number
    of keys is a multiple of the number of nodes (at most 256), every node's
    constructor succeeds, and each key below the table size is local to
    exactly the node whose range [offset, offset + partition_size) contains
    it; every other node locates the key at that owner. *)
Theorem partition_owner total n sw k :
  0 < n ≤ 2 ^ 8 → 0 < total < 2 ^ 64 → total mod n = 0 → 0 ≤ k < total →
  ∃ owner, 0 ≤ owner < n ∧ ∀ m, 0 ≤ m < n →
    ∃ p loc, PartitionInfo_make total n m sw = Ok p ∧ location p k = Ok loc
      ∧ node_u32 (target loc) = owner
      ∧ (is_local loc = true ↔ m = owner)
      ∧ (is_local loc = true ↔ offset p ≤ k < offset p + partition_size p).
Proof.
  intros Hn Ht Hd Hk. exists (k / (total / n)).
  pose proof (Z.div_mod total n ltac:(lia)) as He. rewrite Hd in He.
  split; [split; [apply Z.div_pos; nia|apply Z.div_lt_upper_bound; nia]|].
  intros m Hm. destruct (PartitionInfo_make_ok total n sw Hn Ht Hd m Hm) as (p & Hp & Hs & Ho & _ & Hpos & _).
  destruct (location_ok total n sw Hn Ht Hd m p k Hm Hp Hk) as (loc & Hl & Htg & _ & Hloc).
  exists p, loc. rewrite Hloc, Htg, <-Hs, bool_decide_eq_true. split_and!; [done..| |].
  { naive_solver. }
  rewrite Ho, <-Hs. pose proof (Z.div_mod k (partition_size p) ltac:(lia)).
  pose proof (Z.mod_pos_bound k (partition_size p) Hpos).
  split; [intros <-; nia|]. intros ?. symmetry. apply (Z.div_unique _ _ _ (k - partition_size p * m)); nia.
Qed.

Lemma partition_owner_witness :
  ∃ owner, 0 ≤ owner < 2 ∧ ∀ m, 0 ≤ m < 2 →
    ∃ p loc, PartitionInfo_make 10 2 m 7 = Ok p ∧ location p 6 = Ok loc
      ∧ node_u32 (target loc) = owner
      ∧ (is_local loc = true ↔ m = owner)
      ∧ (is_local loc = true ↔ offset p ≤ 6 < offset p + partition_size p).
Proof. apply (partition_owner 10 2 7 6); by vm_compute. Defined.

(** ** The registry keeps ids and names in step *)

Record registry_ok (r : Registry) : Prop := {
  ro_names : ∀ name i, table_names r !! name = Some i →
    ∃ t, table_ids r !! i = Some t ∧ tb_name t = name;
  ro_ids : ∀ i t, table_ids r !! i = Some t →
    tb_id t = Z.of_nat i ∧ table_names r !! tb_name t = Some i;
}.

(** Registering a table under a fresh name succeeds, keeps the ids and
    names of the registry in step, and lookups by the new id and by the new
    name find the same empty table; a second registration of a name is refused
    with an exception. *)
Theorem make_table_registers r key total n m sw :
  registry_ok r → 0 < n ≤ 2 ^ 8 → 0 < total < 2 ^ 64 → total mod n = 0 → 0 ≤ m < n →
  table_names r !! key = None →
  ∃ i r' t, make_table r key total n m sw = Ok (i, r') ∧ registry_ok r'
    ∧ by_name r' key = Ok i ∧ by_id r' (Z.of_nat i) = Ok t
    ∧ tb_name t = key ∧ tb_size t = 0 ∧ length (data t) = Z.to_nat total
    ∧ (∀ j t', table_ids r !! j = Some t' → table_ids r' !! j = Some t')
    ∧ make_table r' key total n m sw = Fail (Thrown LogicError).
Proof.
  intros [Hnm Hid] Hn Ht Hd Hm Hfresh.
  destruct (PartitionInfo_make_ok total n sw Hn Ht Hd m Hm) as (p & Hp & _).
  unfold make_table, has_table. rewrite bool_decide_false by (rewrite Hfresh; by intros [? ?]).
  unfold StructTable_make. rewrite Hp. cbn [mbind outcome_bind].
  eexists _, _, _; split; [done|]. cbn [table_ids table_names tb_size part_info data max_size].
  set (i := length (table_ids r)). set (t := MkTable _ _ _ _ _ _).
  split_and!.
  - split; cbn [table_ids table_names].
    + intros name j [[<- <-]|[Hne Hj]]%lookup_insert_Some.
      * exists t. split; [by apply list_lookup_middle|done].
      * destruct (Hnm name j Hj) as (t' & ? & ?). exists t'. split; [|done].
        by apply lookup_app_l_Some.
    + intros j t' [Hj|[Hge Hj]]%lookup_app_Some.
      * destruct (Hid j t' Hj) as [? Hj']. split; [done|].
        rewrite lookup_insert_ne; [done|]. intros ->. congruence.
      * apply list_lookup_singleton_Some in Hj as [Hj <-].
        replace j with i by (unfold i in *; lia). cbn [tb_id tb_name].
        by rewrite lookup_insert_eq.
  - unfold by_name; cbn [table_names]. by rewrite lookup_insert_eq.
  - unfold by_id; cbn [table_ids]. rewrite Nat2Z.id. apply aget_ok. by apply list_lookup_middle.
  - done.
  - done.
  - cbn [data t]. by rewrite length_replicate.
  - intros j t' Hj. by apply lookup_app_l_Some.
  - rewrite bool_decide_true; [done|]. cbn [table_names]. by rewrite lookup_insert_eq.
Qed.

Lemma make_table_registers_witness :
  ∃ i r' t, make_table Registry_init "kvs" 10 2 1 7 = Ok (i, r') ∧ registry_ok r'
    ∧ by_name r' "kvs" = Ok i ∧ by_id r' (Z.of_nat i) = Ok t
    ∧ tb_name t = "kvs"%string ∧ tb_size t = 0 ∧ length (data t) = Z.to_nat 10
    ∧ (∀ j t', table_ids Registry_init !! j = Some t' → table_ids r' !! j = Some t')
    ∧ make_table r' "kvs" 10 2 1 7 = Fail (Thrown LogicError).
Proof. apply make_table_registers; [by split|by vm_compute..]. Defined.
