(* ===== verification/Mempool.v ===== *)
(** * Memory pools

    [src/src/utils/mempools.hpp]: the bump allocators [StackPool] and
    [LockedStackPool], and the free-list pools [FixedMempool] and
    [FixedThreadsafeMempool] with its per-thread cache.  A pointer is the
    offset of a block in its pool's buffer, or the index of a node in [data]. *)
From stdpp Require Import base tactics list numbers gmap.
From Stdlib Require Import ZArith Lia.
From S2P Require Import Prelude.

(** ** Bump allocators *)

(** [StackPool<max_size>]: its size and the bytes handed out. *)
Definition StackPool_allocate (max_size size want : Z) : outcome (Z * Z) :=
  if max_size <? u64 (size + want) then Fail (Thrown RuntimeError)
  else Ok (size, u64 (size + want)).

Definition StackPool_clear : Z := 0.

(** [LockedStackPool]: the size is advanced before the test. *)
Record LockedStackPool := MkLSP { capacity : Z; lsp_size : Z }.

Definition LockedStackPool_make (cap : Z) : LockedStackPool := MkLSP cap 0.

Definition LockedStackPool_allocate (p : LockedStackPool) (want : Z)
  : outcome (Z * LockedStackPool) :=
  let cur_size := lsp_size p in
  let p' := MkLSP (capacity p) (u64 (cur_size + want)) in
  assert (u64 (cur_size + want) <? capacity p);;
  Ok (cur_size, p').

Definition LockedStackPool_clear (p : LockedStackPool) : LockedStackPool := MkLSP (capacity p) 0.

(** ** Free lists *)

Definition CACHE_SIZE : nat := 64.

(** [Cache]: its [fill] pointers, the last one on top. *)
Definition Cache_allocate (cache : list nat) : option (nat * list nat) :=
  match last cache with
  | None => None
  | Some p => Some (p, take (length cache - 1) cache)
  end.

Definition Cache_deallocate (cache : list nat) (p : nat) : bool * list nat :=
  if bool_decide (length cache = CACHE_SIZE) then (false, cache) else (true, cache ++ [p]).

(** [free.back()] then [free.pop_back()]: undefined on an empty vector. *)
Definition free_pop (free : list nat) : outcome (nat * list nat) :=
  match last free with
  | None => Fail OutOfBounds
  | Some p => Ok (p, take (length free - 1) free)
  end.

(** [FixedMempool]. *)
Definition FixedMempool_make (size : nat) : list nat := seq 0 size.
Definition FixedMempool_allocate (free : list nat) : outcome (nat * list nat) := free_pop free.
Definition FixedMempool_deallocate (free : list nat) (node : nat) : list nat := free ++ [node].

(** [FixedThreadsafeMempool]: the free list and the cache of each thread. *)
Record Mempool := MkMempool { mp_free : list nat; mp_cache : nat → list nat }.

Definition FixedThreadsafeMempool_make (size : nat) : Mempool := MkMempool (seq 0 size) (λ _, []).

Definition set_cache (t : nat) (c : list nat) (f : nat → list nat) : nat → list nat :=
  λ t', if decide (t' = t) then c else f t'.

(** [while (cache.fill < CACHE_SIZE) cache.deallocate(free.back(), pop)];
    [n] bounds the rounds, and [CACHE_SIZE] rounds fill any cache. *)
Fixpoint refill (n : nat) (free cache : list nat) : outcome (list nat * list nat) :=
  match n with
  | O => Ok (free, cache)
  | S n' =>
      if decide (length cache < CACHE_SIZE)%nat then
        '(p, free') ← free_pop free;
        refill n' free' (Cache_deallocate cache p).2
      else Ok (free, cache)
  end.

Definition mempool_allocate (m : Mempool) (t : nat) : outcome (nat * Mempool) :=
  match Cache_allocate (mp_cache m t) with
  | Some (p, c) => Ok (p, MkMempool (mp_free m) (set_cache t c (mp_cache m)))
  | None =>
      '(free, cache) ← refill CACHE_SIZE (mp_free m) (mp_cache m t);
      '(node, free') ← free_pop free;
      Ok (node, MkMempool free' (set_cache t cache (mp_cache m)))
  end.

(** The loop [while (cache.fill > CACHE_SIZE)] that returns surplus pointers to
    the free list. *)
Fixpoint spill (n : nat) (free cache : list nat) : list nat * list nat :=
  match n with
  | O => (free, cache)
  | S n' =>
      if decide (CACHE_SIZE < length cache)%nat then
        match Cache_allocate cache with
        | Some (p, cache') => spill n' (free ++ [p]) cache'
        | None => (free, cache)
        end
      else (free, cache)
  end.

Definition mempool_deallocate (m : Mempool) (t node : nat) : Mempool :=
  match Cache_deallocate (mp_cache m t) node with
  | (true, c) => MkMempool (mp_free m) (set_cache t c (mp_cache m))
  | (false, c) =>
      let '(free, cache) := spill (length c) (mp_free m) c in
      MkMempool (free ++ [node]) (set_cache t cache (mp_cache m))
  end.

(** ** Bump allocation hands out disjoint blocks *)

(** A run of allocations from an empty pool. *)
Fixpoint lsp_allocs (p : LockedStackPool) (wants : list Z) : outcome (list Z * LockedStackPool) :=
  match wants with
  | [] => Ok ([], p)
  | w :: ws =>
      '(o, p') ← LockedStackPool_allocate p w;
      '(os, p'') ← lsp_allocs p' ws;
      Ok (o :: os, p'')
  end.

Definition sumZ (l : list Z) : Z := foldr Z.add 0 l.

Lemma sumZ_app l1 l2 : sumZ (l1 ++ l2) = sumZ l1 + sumZ l2.
Proof. induction l1; simpl; lia. Qed.

Lemma sumZ_nonneg l : Forall (λ w, 0 ≤ w) l → 0 ≤ sumZ l.
Proof. induction 1; simpl; lia. Qed.

Lemma lsp_allocs_spec p wants :
  Forall (λ w, 0 < w) wants → 0 ≤ lsp_size p → capacity p < 2 ^ 64 →
  (lsp_size p + sumZ wants < capacity p ∨ wants = [] →
   ∃ os, lsp_allocs p wants = Ok (os, MkLSP (capacity p) (lsp_size p + sumZ wants))
     ∧ length os = length wants
     ∧ ∀ i o w, os !! i = Some o → wants !! i = Some w → o = lsp_size p + sumZ (take i wants))
  ∧ (capacity p ≤ lsp_size p + sumZ wants < 2 ^ 64 → wants ≠ [] → lsp_allocs p wants = Fail AssertFailed).
Proof.
  revert p. induction wants as [|w ws IH]; intros p Hw H0 Hc; inversion_clear Hw as [|?? Hw1 Hws].
  - split; [|done]. intros _. exists []. simpl. rewrite Z.add_0_r. destruct p. naive_solver.
  - assert (0 ≤ sumZ ws) as Hs. { apply sumZ_nonneg. eapply Forall_impl; [done|]. simpl; lia. }
    cbn [lsp_allocs sumZ foldr] in *. fold (sumZ ws).
    unfold LockedStackPool_allocate.
    specialize (IH (MkLSP (capacity p) (lsp_size p + w)) Hws). cbn [lsp_size capacity] in IH.
    destruct IH as [IH1 IH2]; [lia|done|].
    split.
    + intros [Hlt|?]; [|done]. rewrite wrap_small by lia.
      rewrite (proj2 (Z.ltb_lt _ _)) by lia. cbn [assert mbind outcome_bind].
      destruct IH1 as (os & -> & Hl & Ho); [destruct ws; [by right|left; lia]|].
      cbn [mbind outcome_bind]. exists (lsp_size p :: os).
      split; [do 2 f_equal; f_equal; lia|]. split; [simpl; lia|].
      intros [|i] o w' Hi Hwi; simplify_eq/=; [lia|].
      rewrite (Ho i o w' Hi Hwi). fold (sumZ (take i ws)). lia.
    + intros Hge _. destruct (decide (capacity p ≤ lsp_size p + w)) as [Hn|Hn].
      * rewrite wrap_small by lia. by rewrite (proj2 (Z.ltb_ge _ _)) by lia.
      * rewrite wrap_small by lia. rewrite (proj2 (Z.ltb_lt _ _)) by lia. cbn [assert mbind outcome_bind].
        rewrite IH2; [done|lia|]. intros ->. simpl in *. lia.
Qed.

(** ** Free lists never hand a node out twice *)

(** The nodes a pool holds for the given threads, plus the nodes in use. *)
Definition pool_nodes (threads : list nat) (m : Mempool) (used : list nat) : list nat :=
  mp_free m ++ concat (mp_cache m <$> threads) ++ used.

Definition pool_ok (threads : list nat) (size : nat) (m : Mempool) (used : list nat) : Prop :=
  NoDup threads ∧ pool_nodes threads m used ≡ₚ seq 0 size
  ∧ (∀ t, (length (mp_cache m t) ≤ CACHE_SIZE)%nat).

Lemma free_pop_spec free p free' : free_pop free = Ok (p, free') → free = free' ++ [p].
Proof. unfold free_pop. destruct (last free) eqn:E; [|done]. intros [= -> <-]. by apply take_pop. Qed.

Lemma Cache_allocate_spec c p c' : Cache_allocate c = Some (p, c') → c = c' ++ [p].
Proof. unfold Cache_allocate. destruct (last c) eqn:E; [|done]. intros [= -> <-]. by apply take_pop. Qed.

Lemma free_pop_nonempty free : free ≠ [] → ∃ p free', free_pop free = Ok (p, free') ∧ free = free' ++ [p].
Proof.
  intros Hne. destruct (last free) as [p|] eqn:E; [|by apply last_None in E].
  exists p, (take (length free - 1) free). split; [unfold free_pop; by rewrite E|by apply take_pop].
Qed.

Lemma refill_spec n free cache :
  (length cache ≤ CACHE_SIZE)%nat → (CACHE_SIZE - length cache ≤ n)%nat →
  (CACHE_SIZE - length cache ≤ length free)%nat →
  ∃ free' cache', refill n free cache = Ok (free', cache')
    ∧ length cache' = CACHE_SIZE ∧ free ++ cache ≡ₚ free' ++ cache'
    ∧ (length free' = length free - (CACHE_SIZE - length cache))%nat.
Proof.
  revert free cache. induction n as [|n IH]; intros free cache Hc Hn Hf; cbn [refill].
  - exists free, cache. split_and!; [done|lia|done|lia].
  - case_decide as Hd; [|exists free, cache; split_and!; [done|lia|done|lia]].
    destruct (free_pop_nonempty free) as (p & free' & -> & Hfree); [intros ->; simpl in *; lia|].
    cbn [mbind outcome_bind]. unfold Cache_deallocate. rewrite bool_decide_false by lia.
    cbn [snd]. rewrite Hfree, length_app in Hf. simpl in Hf.
    destruct (IH free' (cache ++ [p])) as (f2 & c2 & -> & H1 & H2 & H3); rewrite ?length_app; simpl; try lia.
    exists f2, c2. split_and!; [done..| |].
    + rewrite <-H2, Hfree. solve_Permutation.
    + rewrite H3, Hfree, !length_app. simpl. lia.
Qed.

Lemma spill_le n free cache : (length cache ≤ CACHE_SIZE)%nat → spill n free cache = (free, cache).
Proof. intros. destruct n; cbn [spill]; [done|]. by rewrite decide_False by lia. Qed.

Lemma set_cache_perm threads t c f :
  NoDup threads → t ∈ threads →
  ∃ rest, concat (set_cache t c f <$> threads) ≡ₚ c ++ rest ∧ concat (f <$> threads) ≡ₚ f t ++ rest.
Proof.
  intros Hnd [l1 [l2 ->]]%list_elem_of_split. apply NoDup_app in Hnd as (_ & H1 & H2).
  apply NoDup_cons in H2 as [H2 _].
  exists (concat (f <$> l1) ++ concat (f <$> l2)).
  rewrite !fmap_app, !fmap_cons, !concat_app. simpl.
  unfold set_cache at 2. rewrite decide_True by done.
  assert (∀ l : list nat, t ∉ l → set_cache t c f <$> l = f <$> l) as Hne.
  { intros l Hl. apply list_fmap_ext. intros i x Hx. unfold set_cache.
    rewrite decide_False; [done|]. intros ->. apply Hl. by eapply list_elem_of_lookup_2. }
  rewrite !Hne; [split; solve_Permutation|done|]. intros Hin. apply (H1 t Hin). by left.
Qed.

Lemma set_cache_len t c f n :
  (length c ≤ n)%nat → (∀ t', (length (f t') ≤ n)%nat) → ∀ t', (length (set_cache t c f t') ≤ n)%nat.
Proof. intros Hc Hf t'. unfold set_cache. case_decide; auto. Qed.

(** C27: the thread-safe packet pool never hands the same node to two owners.
    While the nodes of the free list, of the threads' caches and in use are
    together exactly the pool's nodes, an allocation succeeds whenever the
    caller's cache has a node or the free list has enough to refill it and one
    more, the node it returns was not in use, and the accounting is kept;
    returning a node that is in use keeps it too. *)
Theorem mempool_no_double_alloc threads size m used t :
  pool_ok threads size m used → t ∈ threads →
  (mp_cache m t ≠ [] ∨ (CACHE_SIZE < length (mp_free m))%nat →
   ∃ p m', mempool_allocate m t = Ok (p, m') ∧ (p < size)%nat ∧ p ∉ used
     ∧ pool_ok threads size m' (p :: used))
  ∧ (∀ p used', used ≡ₚ p :: used' → pool_ok threads size (mempool_deallocate m t p) used').
Proof.
  intros (Hnd & Hp & Hlen) Ht.
  assert (∀ p m', pool_nodes threads m' (p :: used) ≡ₚ pool_nodes threads m used →
    (∀ t', (length (mp_cache m' t') ≤ CACHE_SIZE)%nat) →
    (p < size)%nat ∧ p ∉ used ∧ pool_ok threads size m' (p :: used)) as Halloc.
  { intros p m' Hpm Hl'. rewrite Hp in Hpm.
    assert (NoDup (pool_nodes threads m' (p :: used))) as Hu by (rewrite Hpm; apply NoDup_seq).
    split_and!; [|unfold pool_nodes in Hu; rewrite !NoDup_app, NoDup_cons in Hu; naive_solver|done].
    assert (p ∈ seq 0 size) as Hin.
    { rewrite <-Hpm. unfold pool_nodes. rewrite !elem_of_app. do 2 right. by left. }
    apply elem_of_seq in Hin. lia. }
  split.
  - intros Hav. unfold mempool_allocate.
    destruct (Cache_allocate (mp_cache m t)) as [[p c]|] eqn:Ec.
    + apply Cache_allocate_spec in Ec. exists p, (MkMempool (mp_free m) (set_cache t c (mp_cache m))).
      split; [done|]. apply Halloc.
      * destruct (set_cache_perm threads t c (mp_cache m) Hnd Ht) as (rest & H1 & H2).
        unfold pool_nodes; cbn [mp_free mp_cache]. rewrite H1, H2, Ec. solve_Permutation.
      * apply set_cache_len; [|done]. specialize (Hlen t). rewrite Ec, length_app in Hlen. lia.
    + assert (mp_cache m t = []) as Hc0.
      { unfold Cache_allocate in Ec. destruct (last (mp_cache m t)) eqn:E; [done|by apply last_None in E]. }
      destruct Hav as [?|Hav]; [done|].
      destruct (refill_spec CACHE_SIZE (mp_free m) (mp_cache m t)) as (free & cache & Hr & Hcl & Hrp & Hfl);
        rewrite ?Hc0; simpl length; try lia.
      rewrite Hc0 in Hr. rewrite Hr. cbn [mbind outcome_bind]. rewrite Hc0 in Hfl. simpl length in Hfl.
      destruct (free_pop_nonempty free) as (p & free' & Hpop & Hfree); [intros ->; cbn [length] in Hfl; lia|].
      rewrite Hpop. cbn [mbind outcome_bind]. eexists p, _; split; [done|]. apply Halloc.
      * destruct (set_cache_perm threads t cache (mp_cache m) Hnd Ht) as (rest & H1 & H2).
        unfold pool_nodes; cbn [mp_free mp_cache]. rewrite H1, H2, Hc0. rewrite Hc0, app_nil_r in Hrp.
        rewrite Hrp, Hfree. solve_Permutation.
      * cbn [mp_cache]. apply set_cache_len; [lia|done].
  - intros p used' Hused. unfold mempool_deallocate, Cache_deallocate.
    specialize (Hlen t) as Hlt.
    case_bool_decide as Hfull; cbn [fst snd].
    + assert (spill (length (mp_cache m t)) (mp_free m) (mp_cache m t) = (mp_free m, mp_cache m t)) as ->.
      { by apply spill_le. }
      destruct (set_cache_perm threads t (mp_cache m t) (mp_cache m) Hnd Ht) as (rest & H1 & H2).
      split_and!; [done| |].
      * rewrite <-Hp. unfold pool_nodes; cbn [mp_free mp_cache]. rewrite H1, H2, Hused. solve_Permutation.
      * cbn [mp_cache]. by apply set_cache_len.
    + destruct (set_cache_perm threads t (mp_cache m t ++ [p]) (mp_cache m) Hnd Ht) as (rest & H1 & H2).
      split_and!; [done| |].
      * rewrite <-Hp. unfold pool_nodes; cbn [mp_free mp_cache]. rewrite H1, H2, Hused. solve_Permutation.
      * cbn [mp_cache]. apply set_cache_len; [rewrite length_app; simpl; lia|done].
Qed.

Lemma fresh_pool_ok threads size :
  NoDup threads → pool_ok threads size (FixedThreadsafeMempool_make size) [].
Proof.
  intros Hnd. split_and!; [done| |intros; simpl; lia].
  unfold pool_nodes; cbn [mp_free mp_cache FixedThreadsafeMempool_make].
  assert (concat ((λ _, []) <$> threads) = @nil nat) as ->.
  { clear. induction threads; simpl; auto. }
  by rewrite !app_nil_r.
Qed.

Lemma mempool_no_double_alloc_witness :
  ∃ p m', mempool_allocate (FixedThreadsafeMempool_make 100) 0 = Ok (p, m') ∧ (p < 100)%nat ∧ p ∉ []
    ∧ pool_ok [0; 1]%nat 100 m' [p].
Proof.
  apply (mempool_no_double_alloc [0; 1]%nat 100 _ [] 0).
  - apply fresh_pool_ok. by apply (bool_decide_unpack _); vm_compute.
  - left.
  - right. vm_compute. lia.
Defined.
