(* ===== verification/SendQ.v ===== *)
(** * The queue of packets for the switch

    [hot_send_q_t] of [src/src/ee/database.hpp]: every committed transaction
    reserves a packet buffer and a queue entry, which the leader thread sends
    at the end of the batch. *)
From stdpp Require Import base tactics list numbers gmap.
From Stdlib Require Import ZArith Lia.
From S2P Require Import Prelude Types Mempool.

(** [HOT_TXN_PKT_BYTES] with raw packets, for the one-pass and the generic
    packet format. *)
Definition HOT_TXN_PKT_BYTES (use_1pass : bool) : Z :=
  if use_1pass then 180 + (Z.of_nat N_REGS - 20) * 5 else 144.

Definition USE_1PASS_PKTS : bool := true.

(** A [Txn*]: the thread whose vector holds it and its position there. *)
Definition txn_ref : Type := Z * nat.

Record hot_txn_entry := MkEntry { e_txn : txn_ref; e_mb_num : Z; iov_base : Z; iov_len : Z }.
#[global] Instance hot_txn_entry_inhabited : Inhabited hot_txn_entry :=
  populate (MkEntry (0, 0%nat) 0 0 0).

Record hot_send_q := MkSendQ {
  send_q_tail : Z;               (* uint32_t *)
  send_q_capacity : Z;
  send_q : list hot_txn_entry;
  buf_pool : LockedStackPool;
}.

(** [hot_send_q_t(cap)]; the entries start uninitialised. *)
Definition hot_send_q_make (cap : Z) : hot_send_q :=
  MkSendQ 0 cap (replicate (Z.to_nat cap) inhabitant)
          (LockedStackPool_make (u64 (cap * HOT_TXN_PKT_BYTES USE_1PASS_PKTS))).

(** [alloc_slot]: the buffer's offset in the pool. *)
Definition alloc_slot (q : hot_send_q) (mb_num : Z) (txn : txn_ref) : outcome (Z * hot_send_q) :=
  '(buf, pool') ← LockedStackPool_allocate (buf_pool q) (HOT_TXN_PKT_BYTES USE_1PASS_PKTS);
  entries ← aset (send_q q) (Z.to_nat (send_q_tail q))
                 (MkEntry txn mb_num buf (HOT_TXN_PKT_BYTES USE_1PASS_PKTS));
  Ok (buf, MkSendQ (u32 (send_q_tail q + 1)) (send_q_capacity q) entries pool').

(** [done_sending]. *)
Definition done_sending (q : hot_send_q) : hot_send_q :=
  MkSendQ 0 (send_q_capacity q) (send_q q) (LockedStackPool_clear (buf_pool q)).

(** ** The queue between two [done_sending]s *)

#[local] Arguments HOT_TXN_PKT_BYTES : simpl never.

Lemma pkt_bytes_pos b : 0 < HOT_TXN_PKT_BYTES b < 1000.
Proof. by destruct b. Qed.

(** The queue holds the reservations [l], in order, each with a buffer of its
    own. *)
Record send_q_ok (q : hot_send_q) (l : list (Z * txn_ref)) : Prop := {
  sq_tail : send_q_tail q = Z.of_nat (length l);
  sq_len : length (send_q q) = Z.to_nat (send_q_capacity q);
  sq_cap : 0 ≤ send_q_capacity q < 2 ^ 32;
  sq_pool : buf_pool q = MkLSP (send_q_capacity q * HOT_TXN_PKT_BYTES USE_1PASS_PKTS)
                               (Z.of_nat (length l) * HOT_TXN_PKT_BYTES USE_1PASS_PKTS);
  sq_entries : ∀ i mb r, l !! i = Some (mb, r) →
    send_q q !! i = Some (MkEntry r mb (Z.of_nat i * HOT_TXN_PKT_BYTES USE_1PASS_PKTS)
                                  (HOT_TXN_PKT_BYTES USE_1PASS_PKTS));
  sq_room : Z.of_nat (length l) < send_q_capacity q ∨ l = [];
}.

Lemma hot_send_q_make_ok cap : 0 ≤ cap < 2 ^ 32 → send_q_ok (hot_send_q_make cap) [].
Proof.
  intros Hc. pose proof (pkt_bytes_pos USE_1PASS_PKTS) as Hp.
  split; cbn [hot_send_q_make send_q_tail send_q send_q_capacity buf_pool]; try done.
  - by rewrite length_replicate.
  - unfold LockedStackPool_make. rewrite wrap_small by nia. done.
  - by right.
Qed.

Lemma done_sending_ok q l : send_q_ok q l → send_q_ok (done_sending q) [].
Proof.
  intros [H1 H2 H3 H4 H5 H6].
  split; cbn [done_sending send_q_tail send_q send_q_capacity buf_pool]; try done.
  - rewrite H4. unfold LockedStackPool_clear; cbn [capacity]. done.
  - by right.
Qed.

(** A reservation in the switch queue succeeds while the queue holds fewer
    than [capacity - 1] packets, and then gets the next entry and a buffer
    disjoint from all earlier ones (entry [i] owns bytes
    [i * HOT_TXN_PKT_BYTES, (i + 1) * HOT_TXN_PKT_BYTES)); the pool's strict
    test makes the reservation that would fill the last entry fail its
    assertion. *)
Theorem alloc_slot_spec q l mb r :
  send_q_ok q l →
  (Z.of_nat (length l) + 1 < send_q_capacity q →
   ∃ q', alloc_slot q mb r = Ok (Z.of_nat (length l) * HOT_TXN_PKT_BYTES USE_1PASS_PKTS, q')
     ∧ send_q_ok q' (l ++ [(mb, r)]) ∧ send_q_ok (done_sending q') [])
  ∧ (Z.of_nat (length l) + 1 = send_q_capacity q → alloc_slot q mb r = Fail AssertFailed).
Proof.
  intros Hok. pose proof Hok as [Ht Hl Hc Hp He Hr]. pose proof (pkt_bytes_pos USE_1PASS_PKTS) as Hb.
  unfold alloc_slot, LockedStackPool_allocate. rewrite Hp. cbn [lsp_size capacity].
  set (B := HOT_TXN_PKT_BYTES USE_1PASS_PKTS) in *. set (n := Z.of_nat (length l)) in *. assert (n = Z.of_nat (length l)) as Hn by done.
  assert (B = HOT_TXN_PKT_BYTES USE_1PASS_PKTS) as HB0 by done. clearbody B n. split.
  - intros Hlt. assert (n * B + B < send_q_capacity q * B) as HB by nia.
    rewrite (wrap_small 64) by nia. rewrite (proj2 (Z.ltb_lt _ _)) by done.
    cbn [assert mbind outcome_bind]. rewrite aset_lt by lia. cbn [mbind outcome_bind].
    eexists; split; [done|]. rewrite wrap_small by lia.
    assert (send_q_ok (MkSendQ (send_q_tail q + 1) (send_q_capacity q)
      (<[Z.to_nat (send_q_tail q) := MkEntry r mb (n * B) B]> (send_q q))
      (MkLSP (send_q_capacity q * B) (n * B + B))) (l ++ [(mb, r)])) as Hok'; [|by split; [|eapply done_sending_ok]].
    split; cbn [send_q_tail send_q send_q_capacity buf_pool]; rewrite ?length_app; cbn [length]; try done.
    + lia.
    + by rewrite length_insert.
    + rewrite <-HB0. f_equal. lia.
    + rewrite <-HB0. rewrite Ht, Hn, Nat2Z.id. intros i mb' r' [Hi|[Hge Hi]]%lookup_app_Some.
      * rewrite list_lookup_insert_ne; [by apply He|]. apply lookup_lt_Some in Hi. lia.
      * apply list_lookup_singleton_Some in Hi as [Hi [= -> ->]].
        replace i with (length l) by lia. rewrite list_lookup_insert_eq by lia. done.
    + left. lia.
  - intros Heq. assert (n * B + B = send_q_capacity q * B) as HB by nia.
    rewrite (wrap_small 64) by nia. by rewrite HB, Z.ltb_irrefl.
Qed.

Lemma alloc_slot_spec_witness :
  (∃ q', alloc_slot (hot_send_q_make 3) 5 (0, 7%nat) = Ok (0 * HOT_TXN_PKT_BYTES USE_1PASS_PKTS, q')
     ∧ send_q_ok q' [(5, (0, 7%nat))] ∧ send_q_ok (done_sending q') [])
  ∧ alloc_slot (hot_send_q_make 1) 5 (0, 7%nat) = Fail AssertFailed.
Proof.
  split.
  - apply (alloc_slot_spec (hot_send_q_make 3) [] 5 (0, 7%nat)); [by apply hot_send_q_make_ok|done].
  - apply (alloc_slot_spec (hot_send_q_make 1) [] 5 (0, 7%nat)); [by apply hot_send_q_make_ok|done].
Defined.
