(* ===== verification/MsgHandler.v ===== *)
(** * The message handler of a node

    [src/src/comm/msg_handler.cpp] with the three handlers it owns
    ([src/src/comm/handlers/init.cpp], [barrier.cpp], [tuple_put_res.cpp]): the
    state of a node as the network thread sees it, the dispatch of a received
    message, and the open futures that match replies to requests. *)
From stdpp Require Import base tactics list numbers gmap.
From Stdlib Require Import ZArith Lia.
From S2P Require Import Prelude Types Msg Row Table Mempool SendQ.

(** ** The handlers *)

(** [InitHandler]: which nodes have reported. *)
Record InitHandler := MkInit { init_num_nodes : Z; init_nodes : list bool }.

Definition InitHandler_make (num_nodes : Z) : InitHandler :=
  MkInit num_nodes (replicate (Z.to_nat num_nodes) false).

(** [InitHandler::handle]: [nodes.at(node) = true]. *)
Definition init_handle (h : InitHandler) (node : node_t) : outcome InitHandler :=
  let i := Z.to_nat (node_u32 node) in
  if decide (i < length (init_nodes h))%nat
  then Ok (MkInit (init_num_nodes h) (<[i := true]> (init_nodes h)))
  else Fail (Thrown OutOfRangeError).

(** The messages a node sends to every other node. *)
Definition broadcast (num_nodes me : Z) (m : message) : list (Z * message) :=
  (λ i, (Z.of_nat i, m)) <$>
    filter (λ i, Z.of_nat i ≠ me) (seq 0 (Z.to_nat num_nodes)).

(** One round of [InitHandler::wait]: whether it was the last, and the
    messages it sends (also after the last report). *)
Definition init_wait_round (h : InitHandler) (me : Z) : bool * list (Z * message) :=
  (forallb (λ n, (Z.of_nat n =? me) || (init_nodes h !!! n)) (seq 0 (length (init_nodes h))),
   broadcast (init_num_nodes h) me (Init (node_of me))).

(** [TuplePutResHandler]: one 64-bit counter per worker. *)
Definition TuplePutResHandler_make (num_txn_workers : Z) : list Z :=
  replicate (Z.to_nat num_txn_workers) 0.

Definition putres_add (counts : list Z) (index : Z) : outcome (list Z) :=
  c ← aget counts (Z.to_nat index); aset counts (Z.to_nat index) (u64 (c + 1)).

Definition putres_handle (counts : list Z) (node : node_t) : outcome (list Z) :=
  c ← aget counts (Z.to_nat (get_tid node)); aset counts (Z.to_nat (get_tid node)) (u64 (c - 1)).

(** [wait]: returns when the counter is zero. *)
Definition putres_wait (counts : list Z) (index : Z) : outcome unit :=
  c ← aget counts (Z.to_nat index); if c =? 0 then Ok tt else Fail Spins.

(** ** The node *)

(** An [AbstractFuture*]: the thread that owns it and its index among the
    thread's futures. *)
Definition fut_ref : Type := Z * nat.

(** A node: its database (tables and switch queue) and its [MessageHandler]. *)
Record Node := MkNodeState {
  n_id : Z;
  n_num : Z;
  n_db : Registry;
  n_send_q : hot_send_q;
  n_init : InitHandler;
  n_received : Z;                 (* BarrierHandler::received, uint32_t *)
  n_putres : list Z;
  next_id : Z;                    (* std::atomic<msg::id_t> *)
  open_futures : gmap Z fut_ref;
}.

Definition set_db (r : Registry) (n : Node) : Node :=
  MkNodeState (n_id n) (n_num n) r (n_send_q n) (n_init n) (n_received n) (n_putres n) (next_id n) (open_futures n).
Definition set_send_q (q : hot_send_q) (n : Node) : Node :=
  MkNodeState (n_id n) (n_num n) (n_db n) q (n_init n) (n_received n) (n_putres n) (next_id n) (open_futures n).
Definition set_init (h : InitHandler) (n : Node) : Node :=
  MkNodeState (n_id n) (n_num n) (n_db n) (n_send_q n) h (n_received n) (n_putres n) (next_id n) (open_futures n).
Definition set_received (r : Z) (n : Node) : Node :=
  MkNodeState (n_id n) (n_num n) (n_db n) (n_send_q n) (n_init n) r (n_putres n) (next_id n) (open_futures n).
Definition set_putres (c : list Z) (n : Node) : Node :=
  MkNodeState (n_id n) (n_num n) (n_db n) (n_send_q n) (n_init n) (n_received n) c (next_id n) (open_futures n).
Definition set_next_id (i : Z) (n : Node) : Node :=
  MkNodeState (n_id n) (n_num n) (n_db n) (n_send_q n) (n_init n) (n_received n) (n_putres n) i (open_futures n).
Definition set_futures (m : gmap Z fut_ref) (n : Node) : Node :=
  MkNodeState (n_id n) (n_num n) (n_db n) (n_send_q n) (n_init n) (n_received n) (n_putres n) (next_id n) m.

(** [*table_ids[i] = t]. *)
Definition set_table (i : nat) (t : StructTable) (n : Node) : Node :=
  set_db (MkRegistry (<[i := t]> (table_ids (n_db n))) (table_names (n_db n))) n.

(** [set_new_id]: the message with its id. *)
Definition set_new_id (n : Node) (m : tuple_msg) : tuple_msg * Node :=
  (msg_set_id (next_id n) m, set_next_id (u64 (next_id n + 1)) n).

(** [add_future]. *)
Definition add_future (n : Node) (id : Z) (f : fut_ref) : outcome Node :=
  assert (bool_decide (open_futures n !! id = None));;
  Ok (set_futures (<[id := f]> (open_futures n)) n).

(** What handling a message does beside changing the node: messages sent, and
    the packet a future receives. *)
Record effects := MkEffects { sent : list (Z * message); completed : option (fut_ref * tuple_msg) }.

Definition no_effects : effects := MkEffects [] None.

(** [handle] on a [TupleGetReq]: [db[req->tid]->remote_get(pkt, req)], which
    replies to the sender. *)
Definition handle_get_req (bm : build) (n : Node) (req : tuple_msg) : outcome (Node * effects) :=
  t ← by_id (n_db n) (mt_tid req);
  '(t', res) ← remote_get bm t req;
  Ok (set_table (Z.to_nat (mt_tid req)) t' n,
      MkEffects [(node_u32 (mt_sender res), TupleMsg res)] None).

(** [handle] on a [TupleGetRes]. *)
Definition handle_get_res (n : Node) (res : tuple_msg) : outcome (Node * effects) :=
  match open_futures n !! mt_id res with
  | None => Fail AssertFailed
  | Some f => Ok (set_futures (delete (mt_id res) (open_futures n)) n, MkEffects [] (Some (f, res)))
  end.

(** [handle] on a [TuplePutReq]. *)
Definition handle_put_req (n : Node) (req : tuple_msg) : outcome (Node * effects) :=
  t ← by_id (n_db n) (mt_tid req);
  t' ← remote_put t req;
  let res := convert TUPLE_PUT_RES req in
  Ok (set_table (Z.to_nat (mt_tid req)) t' n,
      MkEffects [(node_u32 (mt_sender res), TupleMsg res)] None).

(** [handle] on a [TuplePutRes]. *)
Definition handle_put_res (n : Node) (res : tuple_msg) : outcome (Node * effects) :=
  c ← putres_handle (n_putres n) (mt_sender res);
  Ok (set_putres c n, no_effects).

(** [handle(pkt)]: the dispatch on the message type. *)
Definition handle (bm : build) (n : Node) (m : message) : outcome (Node * effects) :=
  match m with
  | Init sender => h ← init_handle (n_init n) sender; Ok (set_init h n, no_effects)
  | Barrier _ _ => Ok (set_received (u32 (n_received n + 1)) n, no_effects)
  | TupleMsg t =>
      match mt_type t with
      | TUPLE_GET_REQ => handle_get_req bm n t
      | TUPLE_GET_RES => handle_get_res n t
      | TUPLE_PUT_REQ => handle_put_req n t
      | TUPLE_PUT_RES => handle_put_res n t
      end
  end.

(** ** The network

    The nodes of a run and the delivery of messages to them.  [deliver] hands
    each message to its destination's handler, then the messages that one
    sends, until none is left; a request and its reply need two rounds, and
    [fuel] bounds them. *)
Abbreviation world := (list Node).

Fixpoint deliver (bm : build) (fuel : nat) (w : world) (msgs : list (Z * message))
    (done : list (fut_ref * tuple_msg)) : outcome (world * list (fut_ref * tuple_msg)) :=
  match msgs with
  | [] => Ok (w, done)
  | (dst, m) :: msgs' =>
      match fuel with
      | O => Fail Spins
      | S fuel' =>
          n ← aget w (Z.to_nat dst);
          '(n', eff) ← handle bm n m;
          deliver bm fuel' (<[Z.to_nat dst := n']> w) (msgs' ++ sent eff)
                  (match completed eff with Some c => done ++ [c] | None => done end)
      end
  end.
