(* ===== verification/SwitchPkt.v ===== *)
(** * Packets for the switch

    [src/src/ee/switch.cpp]: the one-pass packet (one instruction slot per
    register array) and the generic packet (a list of instructions), their
    construction from an accelerated transaction and the processing of the
    switch's reply. *)
From stdpp Require Import base tactics list numbers gmap.
From Stdlib Require Import ZArith Lia.
From S2P Require Import Prelude Types Layout Msg Row Table SendQ.

#[local] Arguments N_REGS : simpl never.

(** ** Byte order *)

(** [htons] and [htonl] on a little-endian host; [ntohs] and [ntohl] are the
    same swaps. *)
Definition htons (z : Z) : Z := (z mod 2 ^ 8) * 2 ^ 8 + (z / 2 ^ 8) mod 2 ^ 8.
Definition htonl (z : Z) : Z := htons (z mod 2 ^ 16) * 2 ^ 16 + htons ((z / 2 ^ 16) mod 2 ^ 16).

(** ** Layout of the packets *)

Definition STOP : Z := 128.
Definition UID_HDR : list Z :=
  [190; 135; 239; 126; 97; 60; 75; 51; 130; 235; 144; 102; 58; 64; 61; 174].
Definition N_OFFSET_BITS : Z := 7.
Definition N_INSTRS_PADDED : nat := 20.
Definition PERM_BIT_POS : Z := 7.
Definition P4DB_ETHER_TYPE : Z := 34997.

(** [pass1_normal_instr_t]; a padded instruction is one with a byte in front. *)
Record pass1_instr := MkInstr { idx_perm_mask : Z; data__be : Z }.
#[global] Instance pass1_instr_inhabited : Inhabited pass1_instr := populate (MkInstr 0 0).
#[global] Instance pass1_instr_eq_dec : EqDecision pass1_instr.
Proof. solve_decision. Defined.

(** [generic_instr_t]. *)
Record generic_instr := MkGInstr { g_type : Z; g_op : Z; g_idx__be : Z; g_data__be : Z }.
#[global] Instance generic_instr_inhabited : Inhabited generic_instr := populate (MkGInstr 0 0 0 0).

(** [network_hdr_t] with raw packets. *)
Record network_hdr := MkHdr {
  dst_mac : list Z;
  src_mac : list Z;
  ether_type : Z;
  ipv4_udp_unused : list Z;
  uid : list Z;
}.

Record pass1_pkt := MkPass1 {
  p1_hdr : network_hdr;
  base_offset : Z;
  padded_instrs : list pass1_instr;
  normal_instrs : list pass1_instr;
}.

Record generic_pkt := MkGeneric {
  g_hdr : network_hdr;
  locks_check__nb : Z;
  locks_acquire__nb : Z;
  locks_undo__nb : Z;
  is_second_pass : Z;
  n_failed : Z;
  g_instrs : list generic_instr;
}.

(** [sizeof] of the packed structures. *)
Definition sizeof_network_hdr : Z := 6 + 6 + 2 + 28 + Z.of_nat (length UID_HDR).
Definition sizeof_pass1_pkt : Z :=
  sizeof_network_hdr + 2 + Z.of_nat N_INSTRS_PADDED * 6 + (Z.of_nat N_REGS - Z.of_nat N_INSTRS_PADDED) * 5.
Definition sizeof_generic_pkt : Z :=
  sizeof_network_hdr + 4 + 4 + 4 + 1 + 1 + (1 + Z.of_nat MAX_HOT_OPS) * 8.

(** The two addresses [fill_network_hdr] takes from the configuration. *)
Record macs := MkMacs { switch_mac : list Z; node_mac : list Z }.

(** [fill_network_hdr]: the 28 bytes of [ipv4_udp_unused] keep what the buffer
    held. *)
Definition fill_network_hdr (c : macs) (h : network_hdr) : network_hdr :=
  MkHdr (switch_mac c) (node_mac c) (htons P4DB_ETHER_TYPE) (ipv4_udp_unused h) UID_HDR.

(** The operations a loop [p < N && ops[p].first.mode != INVALID] visits. *)
Fixpoint active_hot (ops : list (OP * TupleLocation)) : list (OP * TupleLocation) :=
  match ops with
  | [] => []
  | pr :: ops' => if bool_decide (op_mode pr.1 = INVALID) then [] else pr :: active_hot ops'
  end.

(** ** One-pass packets *)

(** The instruction slot of a register, for writing. *)
Definition set_instr (pkt : pass1_pkt) (reg : nat) (i : pass1_instr) : outcome pass1_pkt :=
  if decide (reg < N_INSTRS_PADDED)%nat then
    l ← aset (padded_instrs pkt) reg i;
    Ok (MkPass1 (p1_hdr pkt) (base_offset pkt) l (normal_instrs pkt))
  else
    l ← aset (normal_instrs pkt) (reg - N_INSTRS_PADDED) i;
    Ok (MkPass1 (p1_hdr pkt) (base_offset pkt) (padded_instrs pkt) l).

(** The slot's index and permission byte. *)
Definition pass1_mask (base : Z) (pr : OP * TupleLocation) : outcome Z :=
  let idx := u64 (reg_array_idx pr.2 - base) in
  assert (Z.land idx (Z.ones N_OFFSET_BITS) =? idx);;
  let is_write_bits := if bool_decide (op_mode pr.1 = WRITE) then Z.shiftl 1 PERM_BIT_POS else 0 in
  Ok (u8 (Z.lor is_write_bits idx)).

Definition make_instr (base : Z) (pkt : pass1_pkt) (pr : OP * TupleLocation) : outcome pass1_pkt :=
  m ← pass1_mask base pr;
  set_instr pkt (Z.to_nat (reg_array_id pr.2)) (MkInstr m (htonl (op_value pr.1))).

(** [offset & ~((1 << N_OFFSET_BITS) - 1)]. *)
Definition pkt_base (bm : build) (L : DeclusteredLayout) : Z :=
  Z.land (block_base bm L) (Z.lnot (Z.ones N_OFFSET_BITS)).

Definition clear_mask (i : pass1_instr) : pass1_instr := MkInstr 0 (data__be i).

(** [make_txn] with [USE_1PASS_PKTS]; [old] is what the buffer held. *)
Definition make_txn_1pass (bm : build) (c : macs) (L : DeclusteredLayout) (txn : Txn) (old : pass1_pkt)
  : outcome pass1_pkt :=
  assert (do_accel txn);;
  let base := pkt_base bm L in
  assert (base <? 2 ^ 16 - 1);;
  let pkt := MkPass1 (fill_network_hdr c (p1_hdr old)) (htons base)
                     (clear_mask <$> padded_instrs old) (clear_mask <$> normal_instrs old) in
  ofold (make_instr base) (active_hot (take N_OPS (hot_ops_pass1 txn))) pkt.

(** ** Generic packets *)

Definition fill_reg_instr (pr : OP * TupleLocation) : generic_instr :=
  MkGInstr (u8 (1 + reg_array_id pr.2)) (AccessMode_repr (op_mode pr.1))
           (htons (reg_array_idx pr.2)) (htonl (op_value pr.1)).

(** [instrs[off + p]] for [p] from 0. *)
Fixpoint fill_instrs (l : list generic_instr) (off : nat) (ops : list (OP * TupleLocation))
  : outcome (list generic_instr) :=
  match ops with
  | [] => Ok l
  | pr :: ops' => l' ← aset l off (fill_reg_instr pr); fill_instrs l' (S off) ops'
  end.

Definition set_type (t : Z) (i : generic_instr) : generic_instr :=
  MkGInstr t (g_op i) (g_idx__be i) (g_data__be i).

(** [instrs[i].type = f(instrs[i].type)]. *)
Definition update_type (l : list generic_instr) (i : nat) (f : Z → Z) : outcome (list generic_instr) :=
  x ← aget l i; aset l i (set_type (f (g_type x)) x).

(** [make_txn] without [USE_1PASS_PKTS]. *)
Definition make_txn_generic (bm : build) (c : macs) (txn : Txn) (old : generic_pkt) : outcome generic_pkt :=
  assert (do_accel txn);;
  let pass1 := active_hot (take N_OPS (hot_ops_pass1 txn)) in
  l1 ← fill_instrs (g_instrs old) 0 pass1;
  l ← (if 1 <? MAX_PASSES_ACCEL bm then
         let off1 := length pass1 in
         let pass2 := active_hot (take MAX_OPS_PASS2_ACCEL (hot_ops_pass2 txn)) in
         l2 ← fill_instrs l1 off1 pass2;
         l3 ← update_type l2 off1 (λ t, Z.lor t STOP);
         update_type l3 (off1 + length pass2) (λ _, STOP)
       else update_type l1 (length pass1) (λ _, STOP));
  Ok (MkGeneric (fill_network_hdr c (g_hdr old)) (htonl (locks_check txn)) (htonl (locks_acquire txn))
                0 0 0 l).

(** ** Replies *)

(** The slot [process_reply_txn] reads for a register: from
    [N_INSTRS_PADDED] on it indexes [normal_instrs] by the register itself. *)
Definition reply_instr (pkt : pass1_pkt) (reg : nat) : outcome pass1_instr :=
  if decide (reg < N_INSTRS_PADDED)%nat then aget (padded_instrs pkt) reg
  else aget (normal_instrs pkt) reg.

Definition reply_step (pkt : pass1_pkt) (wr : bool) (t : StructTable) (pr : OP * TupleLocation)
  : outcome StructTable :=
  if wr then
    i ← reply_instr pkt (Z.to_nat (reg_array_id pr.2));
    lockless_write t (op_id pr.1) (htonl (data__be i))
  else Ok t.

(** [process_reply_txn] with [USE_1PASS_PKTS]. *)
Definition process_reply_1pass (t : StructTable) (txn : Txn) (pkt : pass1_pkt) (wr : bool)
  : outcome StructTable :=
  ofold (reply_step pkt wr) (active_hot (take N_OPS (hot_ops_pass1 txn))) t.

Definition reply_write (t : StructTable) (wr : bool) (instrs : list generic_instr) (i : nat)
    (pr : OP * TupleLocation) : outcome StructTable :=
  if wr then x ← aget instrs i; lockless_write t (op_id pr.1) (htonl (g_data__be x)) else Ok t.

(** [process_reply_txn] without it: the second loop takes its operation from
    [hot_ops_pass2[off1 + p]]. *)
Definition process_reply_generic (bm : build) (t : StructTable) (txn : Txn) (pkt : generic_pkt) (wr : bool)
  : outcome StructTable :=
  let pass1 := active_hot (take N_OPS (hot_ops_pass1 txn)) in
  t1 ← ofold (λ t p, pr ← aget pass1 p; reply_write t wr (g_instrs pkt) p pr) (seq 0 (length pass1)) t;
  if 1 <? MAX_PASSES_ACCEL bm then
    let off1 := length pass1 in
    let pass2 := active_hot (take MAX_OPS_PASS2_ACCEL (hot_ops_pass2 txn)) in
    ofold (λ t p, pr ← aget (hot_ops_pass2 txn) (off1 + p); reply_write t wr (g_instrs pkt) (off1 + p) pr)
          (seq 0 (length pass2)) t1
  else Ok t1.

(** ** What the switch sees

    The switch reads slot [reg] of a packet as: write or read, the index
    [base_offset + low 7 bits], the value. *)
Record sw_instr := MkSw { sw_write : bool; sw_idx : Z; sw_value : Z }.

Definition instr_slot (pkt : pass1_pkt) (reg : nat) : option pass1_instr :=
  if decide (reg < N_INSTRS_PADDED)%nat then padded_instrs pkt !! reg
  else normal_instrs pkt !! (reg - N_INSTRS_PADDED)%nat.

Definition decode_instr (base__be : Z) (i : pass1_instr) : sw_instr :=
  MkSw (Z.testbit (idx_perm_mask i) PERM_BIT_POS)
       (htons base__be + Z.land (idx_perm_mask i) (Z.ones N_OFFSET_BITS)) (htonl (data__be i)).

Definition encoded (pr : OP * TupleLocation) : sw_instr :=
  MkSw (bool_decide (op_mode pr.1 = WRITE)) (reg_array_idx pr.2) (op_value pr.1).

(** ** Byte order round trips *)

Lemma htons_range z : 0 ≤ htons z < 2 ^ 16.
Proof. unfold htons. Z.to_euclidean_division_equations. lia. Qed.

Lemma htons_htons z : 0 ≤ z < 2 ^ 16 → htons (htons z) = z.
Proof. intros Hz. unfold htons. Z.to_euclidean_division_equations. lia. Qed.

Lemma htonl_htonl z : 0 ≤ z < 2 ^ 32 → htonl (htonl z) = z.
Proof.
  intros Hz. unfold htonl at 2. set (lo := z mod 2 ^ 16). set (hi := (z / 2 ^ 16) mod 2 ^ 16).
  pose proof (htons_range lo). pose proof (htons_range hi). unfold htonl.
  replace ((htons lo * 2 ^ 16 + htons hi) mod 2 ^ 16) with (htons hi)
    by (Z.to_euclidean_division_equations; lia).
  replace (((htons lo * 2 ^ 16 + htons hi) / 2 ^ 16) mod 2 ^ 16) with (htons lo)
    by (Z.to_euclidean_division_equations; lia).
  rewrite !htons_htons by (unfold lo, hi; Z.to_euclidean_division_equations; lia).
  unfold lo, hi. Z.to_euclidean_division_equations; lia.
Qed.

(** ** Slots *)

(** A packet with all its slots. *)
Definition pkt_ok (pkt : pass1_pkt) : Prop :=
  length (padded_instrs pkt) = N_INSTRS_PADDED
  ∧ length (normal_instrs pkt) = (N_REGS - N_INSTRS_PADDED)%nat.

Lemma set_instr_ok pkt reg i :
  pkt_ok pkt → (reg < N_REGS)%nat →
  ∃ pkt', set_instr pkt reg i = Ok pkt' ∧ pkt_ok pkt' ∧ base_offset pkt' = base_offset pkt
    ∧ p1_hdr pkt' = p1_hdr pkt
    ∧ ∀ r, instr_slot pkt' r = if decide (r = reg) then Some i else instr_slot pkt r.
Proof.
  intros [H1 H2] Hr. unfold set_instr. case_decide as Hp.
  - rewrite aset_lt by lia. eexists; split; [done|]. split_and!; try done.
    + split; [|done]. cbn [padded_instrs]. by rewrite length_insert.
    + intros r. unfold instr_slot; cbn [padded_instrs normal_instrs].
      repeat case_decide; subst; try lia; try done;
        rewrite ?list_lookup_insert_eq, ?list_lookup_insert_ne by lia; done.
  - rewrite aset_lt by lia. eexists; split; [done|]. split_and!; try done.
    + split; [done|]. cbn [normal_instrs]. by rewrite length_insert.
    + intros r. unfold instr_slot; cbn [padded_instrs normal_instrs].
      repeat case_decide; subst; try lia; try done;
        rewrite ?list_lookup_insert_eq, ?list_lookup_insert_ne by lia; done.
Qed.

(** The element after a prefix differs from the prefix in any injective view. *)
Lemma fmap_app_distinct {A B} (f : A → B) pre x post y :
  NoDup (f <$> pre ++ x :: post) → y ∈ pre → f y = f x → False.
Proof.
  rewrite fmap_app, NoDup_app. intros (_ & Hnd & _) Hy Heq. apply (Hnd (f x)); [|left].
  rewrite <-Heq. by apply list_elem_of_fmap_2.
Qed.

(** ** Addresses *)

Section address.
Context (bm : build) (L : DeclusteredLayout).
Context (HS : 0 < SLOTS_PER_SCHED_BLOCK bm)
        (Hdiv : 2 ^ N_OFFSET_BITS mod SLOTS_PER_SCHED_BLOCK bm = 0)
        (Hb : 0 ≤ block_num L)
        (Htop : SLOTS_PER_SCHED_BLOCK bm * block_num L < 2 ^ 16 - 1).

Lemma block_base_small : block_base bm L = SLOTS_PER_SCHED_BLOCK bm * block_num L.
Proof. unfold block_base. apply wrap_small. nia. Qed.

Lemma pkt_base_spec :
  pkt_base bm L = block_base bm L - block_base bm L mod 2 ^ N_OFFSET_BITS.
Proof.
  unfold pkt_base. rewrite <-Z.ldiff_land, Z.ldiff_ones_r by (unfold N_OFFSET_BITS; lia).
  rewrite Z.shiftl_mul_pow2, Z.shiftr_div_pow2 by (unfold N_OFFSET_BITS; lia).
  pose proof (Z.div_mod (block_base bm L) (2 ^ N_OFFSET_BITS) ltac:(unfold N_OFFSET_BITS; lia)). lia.
Qed.

Lemma pkt_base_range : 0 ≤ pkt_base bm L ≤ block_base bm L.
Proof.
  rewrite pkt_base_spec. pose proof block_base_small.
  pose proof (Z.mod_le (block_base bm L) (2 ^ N_OFFSET_BITS)).
  pose proof (Z.mod_pos_bound (block_base bm L) (2 ^ N_OFFSET_BITS)).
  unfold N_OFFSET_BITS in *. nia.
Qed.

(** The block of the node lies within the window of the packet. *)
Lemma block_in_window :
  block_base bm L + SLOTS_PER_SCHED_BLOCK bm ≤ pkt_base bm L + 2 ^ N_OFFSET_BITS.
Proof.
  rewrite pkt_base_spec, block_base_small.
  set (S := SLOTS_PER_SCHED_BLOCK bm) in *. set (b := block_num L) in *.
  pose proof (Z.div_mod (2 ^ N_OFFSET_BITS) S ltac:(lia)) as Hd. rewrite Hdiv in Hd.
  set (q := 2 ^ N_OFFSET_BITS / S) in *.
  assert (0 < q) by (unfold N_OFFSET_BITS in *; nia).
  rewrite Hd, Z.add_0_r, Zmult_mod_distr_l. pose proof (Z.mod_pos_bound b q ltac:(lia)). nia.
Qed.

Lemma pass1_mask_ok pr :
  block_base bm L ≤ reg_array_idx pr.2 < block_base bm L + SLOTS_PER_SCHED_BLOCK bm →
  ∃ m, pass1_mask (pkt_base bm L) pr = Ok m
    ∧ Z.testbit m PERM_BIT_POS = bool_decide (op_mode pr.1 = WRITE)
    ∧ pkt_base bm L + Z.land m (Z.ones N_OFFSET_BITS) = reg_array_idx pr.2.
Proof.
  intros Hi. pose proof pkt_base_range. pose proof block_in_window. pose proof block_base_small.
  unfold pass1_mask. set (idx := reg_array_idx pr.2 - pkt_base bm L).
  assert (0 ≤ idx < 2 ^ 7) as Hx by (unfold idx, N_OFFSET_BITS in *; lia).
  rewrite (wrap_small 64 idx) by lia. rewrite land_ones_wrap, (wrap_small N_OFFSET_BITS idx) by (unfold N_OFFSET_BITS; lia).
  rewrite Z.eqb_refl. cbn [assert mbind outcome_bind]. eexists; split; [done|].
  unfold PERM_BIT_POS, N_OFFSET_BITS in *.
  assert (∀ b : bool, u8 (Z.lor (if b then Z.shiftl 1 7 else 0) idx) = idx + Z.b2z b * 2 ^ 7) as Hm.
  { intros b. rewrite Z.lor_comm. destruct b.
    - rewrite lor_shiftl_add by lia. apply wrap_small. simpl Z.b2z. lia.
    - rewrite Z.lor_0_r. rewrite wrap_small by lia. simpl Z.b2z. lia. }
  rewrite Hm. split.
  - rewrite testbit_shiftr, split_high by lia. by destruct (bool_decide _).
  - rewrite land_ones_wrap, split_low by lia. unfold idx. lia.
Qed.
End address.

(** The packet of a transaction, slot by slot. *)
Lemma make_txn_spec bm c L txn old :
  do_accel txn = true → pkt_ok old → 0 < SLOTS_PER_SCHED_BLOCK bm →
  2 ^ N_OFFSET_BITS mod SLOTS_PER_SCHED_BLOCK bm = 0 →
  0 ≤ block_num L → SLOTS_PER_SCHED_BLOCK bm * block_num L < 2 ^ 16 - 1 →
  let ops := active_hot (take N_OPS (hot_ops_pass1 txn)) in
  NoDup ((λ pr, reg_array_id pr.2) <$> ops) →
  Forall (λ pr, 0 ≤ reg_array_id pr.2 < Z.of_nat N_REGS ∧ 0 ≤ op_value pr.1 < 2 ^ 32
    ∧ block_base bm L ≤ reg_array_idx pr.2 < block_base bm L + SLOTS_PER_SCHED_BLOCK bm) ops →
  ∃ pkt, make_txn_1pass bm c L txn old = Ok pkt ∧ pkt_ok pkt
    ∧ p1_hdr pkt = fill_network_hdr c (p1_hdr old)
    ∧ (∀ pr, pr ∈ ops → decode_instr (base_offset pkt) <$> instr_slot pkt (Z.to_nat (reg_array_id pr.2))
                        = Some (encoded pr))
    ∧ (∀ r, (r < N_REGS)%nat → Z.of_nat r ∉ ((λ pr, reg_array_id pr.2) <$> ops) →
         idx_perm_mask <$> instr_slot pkt r = Some 0).
Proof.
  intros Hacc [Hp1 Hp2] HS Hdiv Hb Htop ops Hnd Hops.
  pose proof (pkt_base_range bm L HS Hb Htop) as Hbase.
  pose proof (block_base_small bm L HS Hb Htop) as Hbb.
  unfold make_txn_1pass. rewrite Hacc. cbn [assert mbind outcome_bind].
  rewrite (proj2 (Z.ltb_lt _ _)) by lia. cbn [assert mbind outcome_bind]. fold ops.
  set (pkt0 := MkPass1 _ _ _ _).
  destruct (ofold_total (λ pre pkt, pkt_ok pkt ∧ p1_hdr pkt = p1_hdr pkt0
      ∧ base_offset pkt = htons (pkt_base bm L)
      ∧ (∀ pr, pr ∈ pre → decode_instr (base_offset pkt) <$> instr_slot pkt (Z.to_nat (reg_array_id pr.2))
                        = Some (encoded pr))
      ∧ (∀ r, (r < N_REGS)%nat → Z.of_nat r ∉ ((λ pr, reg_array_id pr.2) <$> pre) →
           idx_perm_mask <$> instr_slot pkt r = Some 0)) (make_instr (pkt_base bm L)) ops pkt0)
    as (pkt & Hpkt & Hok & Hh & _ & Hin & Hout).
  - split_and!; try done.
    + split; cbn [pkt0 padded_instrs normal_instrs]; by rewrite length_fmap.
    + by intros pr ?%not_elem_of_nil.
    + intros r Hr _. unfold instr_slot; cbn [pkt0 padded_instrs normal_instrs].
      case_decide; rewrite list_lookup_fmap.
      * destruct (lookup_lt_is_Some_2 (padded_instrs old) r) as [? ->]; [lia|done].
      * destruct (lookup_lt_is_Some_2 (normal_instrs old) (r - N_INSTRS_PADDED)) as [? ->]; [lia|done].
  - intros pre pr post pkt Hcut (Hok & Hh & Hbo & Hin & Hout).
    assert (pr ∈ ops) as Hpr by (rewrite Hcut, elem_of_app; right; left).
    rewrite Forall_forall in Hops. destruct (Hops pr Hpr) as (Hreg & Hval & Hidx).
    destruct (pass1_mask_ok bm L HS Hdiv Hb Htop pr Hidx) as (m & Hm & Hbit & Haddr).
    unfold make_instr. rewrite Hm. cbn [mbind outcome_bind].
    destruct (set_instr_ok pkt (Z.to_nat (reg_array_id pr.2)) (MkInstr m (htonl (op_value pr.1))))
      as (pkt' & -> & Hok' & Hbo' & Hh' & Hslot); [done|lia|].
    exists pkt'. split; [done|]. rewrite Hbo', Hbo, Hh'. split_and!; try done.
    + intros pr' [Hpre|Heq%list_elem_of_singleton]%elem_of_app; rewrite Hslot.
      * rewrite decide_False, <-Hbo; [by apply Hin|]. intros Heq.
        destruct (Hops pr') as (? & _ & _); [rewrite Hcut; apply elem_of_app; by left|].
        apply Z2Nat.inj in Heq; [|lia..]. eapply (fmap_app_distinct (λ pr, reg_array_id pr.2)); eauto.
        by rewrite <-Hcut.
      * subst pr'. rewrite decide_True by done.
        unfold decode_instr, encoded; cbn [idx_perm_mask data__be fmap option_fmap option_map].
        rewrite htons_htons by lia. by rewrite Hbit, Haddr, htonl_htonl.
    + intros r Hr Hnin. rewrite fmap_app, not_elem_of_app in Hnin. destruct Hnin as [Hn1 Hn2].
      rewrite Hslot, decide_False by (intros ->; apply Hn2; rewrite Z2Nat.id by lia; left).
      by apply Hout.
  - exists pkt. done.
Qed.

(** C15: a one-pass packet is exactly the transaction's hot operations.  When
    the registers of the operations are distinct, the block granted to the node
    starts below slot 65535 and the operations address slots of that block,
    [make_txn] meets its assertions, and the switch decodes from slot [r] of
    the packet the mode, absolute index and value of the operation on register
    [r]; every register without an operation carries a read of the window's
    first slot. *)
Theorem make_txn_decodes bm c L txn old :
  do_accel txn = true → pkt_ok old → 0 < SLOTS_PER_SCHED_BLOCK bm →
  2 ^ N_OFFSET_BITS mod SLOTS_PER_SCHED_BLOCK bm = 0 →
  0 ≤ block_num L → SLOTS_PER_SCHED_BLOCK bm * block_num L < 2 ^ 16 - 1 →
  let ops := active_hot (take N_OPS (hot_ops_pass1 txn)) in
  NoDup ((λ pr, reg_array_id pr.2) <$> ops) →
  Forall (λ pr, 0 ≤ reg_array_id pr.2 < Z.of_nat N_REGS ∧ 0 ≤ op_value pr.1 < 2 ^ 32
    ∧ block_base bm L ≤ reg_array_idx pr.2 < block_base bm L + SLOTS_PER_SCHED_BLOCK bm) ops →
  ∃ pkt, make_txn_1pass bm c L txn old = Ok pkt ∧ pkt_ok pkt
    ∧ p1_hdr pkt = fill_network_hdr c (p1_hdr old)
    ∧ (∀ pr, pr ∈ ops → decode_instr (base_offset pkt) <$> instr_slot pkt (Z.to_nat (reg_array_id pr.2))
                        = Some (encoded pr))
    ∧ (∀ r, (r < N_REGS)%nat → Z.of_nat r ∉ ((λ pr, reg_array_id pr.2) <$> ops) →
         idx_perm_mask <$> instr_slot pkt r = Some 0).
Proof. apply make_txn_spec. Qed.

(** ** Witness data *)

Definition sample_old_pkt : pass1_pkt :=
  MkPass1 (MkHdr [] [] 0 [] []) 9 (replicate 20 (MkInstr 255 7)) (replicate 52 (MkInstr 255 7)).

Definition sample_macs : macs := MkMacs [1; 2; 3; 4; 5; 6] [7; 8; 9; 10; 11; 12].

Definition sample_hot_ops : list (OP * TupleLocation) :=
  [(MkOP 40 inhabitant WRITE 70000, MkTupleLoc 5 (32 * 6 + 31) 9 3);
   (MkOP 41 inhabitant READ 1, MkTupleLoc 71 (32 * 6) 8 255)].

Definition sample_hot_txn : Txn :=
  MkTxn [] (sample_hot_ops ++ replicate 6 inhabitant) (replicate 8 inhabitant)
        true true 0 None None 0 0 TxnId_default 0.

Definition sample_sw_layout : DeclusteredLayout := MkLayout 6 ∅ [] [].

Lemma make_txn_decodes_witness :
  ∃ pkt, make_txn_1pass default_build sample_macs sample_sw_layout sample_hot_txn sample_old_pkt = Ok pkt
    ∧ pkt_ok pkt
    ∧ p1_hdr pkt = fill_network_hdr sample_macs (p1_hdr sample_old_pkt)
    ∧ (∀ pr, pr ∈ sample_hot_ops →
         decode_instr (base_offset pkt) <$> instr_slot pkt (Z.to_nat (reg_array_id pr.2)) = Some (encoded pr))
    ∧ (∀ r, (r < N_REGS)%nat → Z.of_nat r ∉ ((λ pr, reg_array_id pr.2) <$> sample_hot_ops) →
         idx_perm_mask <$> instr_slot pkt r = Some 0).
Proof.
  apply (make_txn_decodes default_build sample_macs sample_sw_layout sample_hot_txn sample_old_pkt).
  - done.
  - by split.
  - done.
  - done.
  - done.
  - done.
  - apply (bool_decide_unpack _). by vm_compute.
  - by repeat constructor.
Defined.

(** C37: the reply path does not read back the slots the request path wrote.
    For a transaction with one hot operation on register [reg], storing the
    reply takes the value of register [reg] when [reg] is below 20, of register
    [reg + 20] when it is below 52, and reads past the packet's instruction
    array from register 52 on. *)
Theorem process_reply_misreads t txn pkt pr reg row i :
  pkt_ok pkt → active_hot (take N_OPS (hot_ops_pass1 txn)) = [pr] →
  reg_array_id pr.2 = Z.of_nat reg → (reg < N_REGS)%nat →
  op_id pr.1 < tb_size t → data t !! Z.to_nat (op_id pr.1) = Some row →
  instr_slot pkt (if decide (reg < 20)%nat then reg else (reg + 20)%nat) = Some i ∨ (52 ≤ reg)%nat →
  process_reply_1pass t txn pkt true
  = if decide (reg < 52)%nat
    then Ok (set_data (<[Z.to_nat (op_id pr.1) :=
                        set_tuple (set_value (htonl (data__be i)) (tuple row)) row]> (data t)) t)
    else Fail OutOfBounds.
Proof.
  intros [Hp1 Hp2] Hops Hreg Hr Hlt Hrow Hi. unfold process_reply_1pass. rewrite Hops.
  cbn [ofold]. unfold reply_step, reply_instr. rewrite Hreg, Nat2Z.id.
  unfold N_INSTRS_PADDED, N_REGS in *.
  assert (∀ x, lockless_write t (op_id pr.1) x = Ok (set_data (<[Z.to_nat (op_id pr.1) :=
    set_tuple (set_value x (tuple row)) row]> (data t)) t)) as Hw.
  { intros x. unfold lockless_write, translate. rewrite (proj2 (Z.leb_gt _ _)) by done.
    unfold aget. rewrite Hrow. cbn [mbind outcome_bind].
    rewrite aset_lt by (by eapply lookup_lt_Some). done. }
  destruct (decide (reg < 52)%nat) as [H52|H52].
  - destruct Hi as [Hi|]; [|lia]. unfold instr_slot, N_INSTRS_PADDED in Hi.
    destruct (decide (reg < 20)%nat); (case_decide; [|lia]) || (case_decide; [lia|]).
    + unfold aget. rewrite Hi. cbn [mbind outcome_bind]. by rewrite Hw.
    + replace (reg + 20 - 20)%nat with reg in Hi by lia.
      unfold aget. rewrite Hi. cbn [mbind outcome_bind]. by rewrite Hw.
  - rewrite decide_False by lia. unfold aget. by rewrite (lookup_ge_None_2 (normal_instrs pkt)) by lia.
Qed.

Definition reply_txn : Txn :=
  MkTxn [] ((MkOP 0 inhabitant READ 0, MkTupleLoc 25 0 0 255) :: replicate 7 inhabitant)
        (replicate 8 inhabitant) true true 0 None None 0 0 TxnId_default 0.

Definition reply_pkt : pass1_pkt :=
  MkPass1 (MkHdr [] [] 0 [] []) 0 (replicate 20 inhabitant)
          (imap (λ j _, MkInstr 0 (htonl (20 + Z.of_nat j))) (replicate 52 ())).

Definition reply_table : StructTable :=
  MkTable 0 inhabitant 1 1 (MkPart 1 1 0 (MkNode 0) (MkNode 1)) [Row_init].

Lemma process_reply_misreads_witness :
  process_reply_1pass reply_table reply_txn reply_pkt true
  = Ok (set_data [set_tuple (MkKV 0 45) Row_init] reply_table).
Proof.
  rewrite (process_reply_misreads reply_table reply_txn reply_pkt
    (MkOP 0 inhabitant READ 0, MkTupleLoc 25 0 0 255) 25 Row_init (MkInstr 0 (htonl 45)));
    try (by vm_compute); [unfold N_REGS; lia|by left].
Defined.
