(* ===== verification/GenericPkt.v ===== *)
(** * Packets on the wire

    Both formats of [SwitchInfo::make_txn] ([ee/switch.cpp]): what the generic
    format says to a switch that reads it instruction by instruction, and that the
    fields of both formats stay within the C types of the packed structures. *)
From stdpp Require Import base tactics list numbers gmap.
From Stdlib Require Import ZArith Lia.
From S2P Require Import Prelude Types Layout Msg SwitchPkt.

#[local] Open Scope Z_scope.
#[local] Arguments N_OPS : simpl never.
#[local] Arguments MAX_HOT_OPS : simpl never.

(** ** Types *)

Definition byte (z : Z) : Prop := 0 ≤ z < 2 ^ 8.
Definition half (z : Z) : Prop := 0 ≤ z < 2 ^ 16.
Definition word (z : Z) : Prop := 0 ≤ z < 2 ^ 32.

Record typed_hdr (h : network_hdr) : Prop := {
  th_dst : length (dst_mac h) = 6%nat ∧ Forall byte (dst_mac h);
  th_src : length (src_mac h) = 6%nat ∧ Forall byte (src_mac h);
  th_type : half (ether_type h);
  th_unused : length (ipv4_udp_unused h) = 28%nat ∧ Forall byte (ipv4_udp_unused h);
  th_uid : length (uid h) = 16%nat ∧ Forall byte (uid h);
}.
Definition typed_instr (i : pass1_instr) : Prop := byte (idx_perm_mask i) ∧ word (data__be i).
Definition typed_ginstr (i : generic_instr) : Prop := byte (g_type i) ∧ byte (g_op i) ∧ half (g_idx__be i) ∧ word (g_data__be i).

Record typed_pass1 (p : pass1_pkt) : Prop := {
  tp_hdr : typed_hdr (p1_hdr p);
  tp_base : half (base_offset p);
  tp_size : pkt_ok p;
  tp_padded : Forall typed_instr (padded_instrs p);
  tp_normal : Forall typed_instr (normal_instrs p);
}.
Record typed_generic (p : generic_pkt) : Prop := {
  tg_hdr : typed_hdr (g_hdr p);
  tg_check : word (locks_check__nb p);
  tg_acquire : word (locks_acquire__nb p);
  tg_undo : word (locks_undo__nb p);
  tg_second : byte (is_second_pass p);
  tg_failed : byte (n_failed p);
  tg_size : length (g_instrs p) = S MAX_HOT_OPS;
  tg_instrs : Forall typed_ginstr (g_instrs p);
}.

(** The addresses of the configuration; an operation on a key of the layout. *)
Definition typed_macs (c : macs) : Prop :=
  (length (switch_mac c) = 6%nat ∧ Forall byte (switch_mac c)) ∧ length (node_mac c) = 6%nat ∧ Forall byte (node_mac c).
Definition typed_op (pr : OP * TupleLocation) : Prop := 0 ≤ reg_array_id pr.2 < Z.of_nat N_REGS ∧ half (reg_array_idx pr.2) ∧ word (op_value pr.1).

Lemma htonl_range z : word (htonl z).
Proof. unfold word, htonl. pose proof (htons_range (z mod 2 ^ 16)). pose proof (htons_range ((z / 2 ^ 16) mod 2 ^ 16)). lia. Qed.

Lemma fill_hdr_typed c h : typed_macs c → typed_hdr h → typed_hdr (fill_network_hdr c h).
Proof.
  intros [[? ?] [? ?]] [_ _ _ [? ?] _]. split; cbn; try done. split; [done|]. repeat constructor; unfold byte; lia.
Qed.

(** ** Generic instructions *)

Lemma fill_instrs_spec ops : ∀ a m b, length m = length ops → fill_instrs (a ++ m ++ b) (length a) ops = Ok (a ++ (fill_reg_instr <$> ops) ++ b).
Proof.
  induction ops as [|pr ops IH]; intros a m b Hm; cbn [fill_instrs]; [by apply nil_length_inv in Hm as ->|].
  destruct m as [|x m]; [done|]. rewrite aset_lt by (rewrite !length_app; cbn; lia). cbn [mbind outcome_bind].
  rewrite insert_app_r_alt, Nat.sub_diag by lia. cbn [insert list_insert app]. injection Hm as Hm.
  specialize (IH (a ++ [fill_reg_instr pr]) m b Hm). rewrite length_app, Nat.add_1_r in IH. rewrite <-!app_assoc in IH. exact IH.
Qed.

Lemma fill_reg_typed pr : typed_op pr → typed_ginstr (fill_reg_instr pr) ∧ 0 < g_type (fill_reg_instr pr) < STOP.
Proof.
  intros (Hr & _ & _). unfold N_REGS, STOP in *. unfold typed_ginstr, byte, half, fill_reg_instr. cbn [g_type g_op g_idx__be g_data__be].
  rewrite wrap_small by lia. pose proof (htons_range (reg_array_idx pr.2)). pose proof (htonl_range (op_value pr.1)) as Hw.
  assert (0 ≤ AccessMode_repr (op_mode pr.1) < 2 ^ 8) by (destruct (op_mode pr.1); cbn; lia). unfold word in *. lia.
Qed.

Lemma update_type_spec a x b f : update_type (a ++ x :: b) (length a) f = Ok (a ++ set_type (f (g_type x)) x :: b).
Proof.
  unfold update_type. rewrite (aget_some _ _ x) by (by apply list_lookup_middle). cbn [mbind outcome_bind].
  rewrite aset_lt by (rewrite length_app; cbn; lia). by rewrite insert_app_r_alt, Nat.sub_diag by lia.
Qed.

(** ** How the switch program reads them *)

(** The constants of [switch_src/my_p4db.p4]: [InstrType_t.SKIP], the number of
    [REG_] types, [NEG_STOP], [OPCode_t.WRITE], the places of [reg_skip] and the
    first word that the parser takes for a packet of the system. *)
Definition P4_SKIP : Z := 0.
Definition P4_REGS : Z := 40.
Definition P4_NEG_STOP : Z := 127.
Definition P4_WRITE : Z := 1.
Definition P4_SKIPS : nat := 7.
Definition P4_UID_1 : Z := 0x7EEF87B8.

(** [parse_regs]: the instructions up to one with the bit [STOP], and what
    follows; the packet is rejected at a type that is no register.  There is one
    header per register, so a later instruction for it replaces an earlier one. *)
Fixpoint parse_regs (l : list generic_instr) : option (list generic_instr * list generic_instr) :=
  match l with
  | [] => None
  | i :: l' =>
      if Z.testbit (g_type i) 7 then Some ([], l)
      else if (1 <=? g_type i) && (g_type i <=? P4_REGS) then
        match parse_regs l' with
        | Some (acc, rest) => Some (if existsb (λ j, g_type j =? g_type i) acc then acc else i :: acc, rest)
        | None => None
        end
      else None
  end.

(** [parse_skips]: the instructions of an earlier pass are skipped. *)
Fixpoint parse_skips (room : nat) (l : list generic_instr) {struct l} : option (list generic_instr * list generic_instr) :=
  match l with
  | [] => None
  | i :: l' =>
      if g_type i =? P4_SKIP then match room with O => None | S room => parse_skips room l' end
      else parse_regs l
  end.

(** The register action of an instruction: the register, whether the value is
    stored, the index and the value. *)
Definition decode_generic (i : generic_instr) : Z * bool * Z * Z :=
  (g_type i - 1, g_op i =? P4_WRITE, htons (g_idx__be i), htonl (g_data__be i)).

(** The accesses of the first pass, when the locks are free; then the executed
    instructions become [SKIP], [NEG_STOP] clears the bit of the next one, and a
    packet that recirculates is parsed again.  (The switch also puts the old values into the data and sends the
    executed instructions in the order of their registers, which the second
    parse does not look at.) *)
Definition p4_pass1 (l : list generic_instr) : option (list (Z * bool * Z * Z)) :=
  match parse_skips P4_SKIPS l with Some (acc, _) => Some (decode_generic <$> acc) | None => None end.
Definition p4_recirculate (l : list generic_instr) : option (list generic_instr) :=
  match parse_skips P4_SKIPS l with
  | Some (acc, i :: rest) => Some ((set_type P4_SKIP <$> acc) ++ set_type (Z.land (g_type i) P4_NEG_STOP) i :: rest)
  | _ => None
  end.
Definition p4_pass2 (l : list generic_instr) : option (list (Z * bool * Z * Z)) := l2 ← p4_recirculate l; p4_pass1 l2.

(** A word in network order. *)
Definition be_word (l : list Z) : Z := foldl (λ a b, 256 * a + b) 0 l.

(** What the switch does for an operation of the transaction: it stores the value
    of a read and only reads for a write. *)
Definition swapped (pr : OP * TupleLocation) : Z * bool * Z * Z :=
  (reg_array_id pr.2, bool_decide (op_mode pr.1 = READ), reg_array_idx pr.2, op_value pr.1).

Lemma decode_fill pr : typed_op pr → decode_generic (fill_reg_instr pr) = swapped pr.
Proof.
  intros (Hr & Hi & Hv). unfold decode_generic, swapped, fill_reg_instr. cbn [g_type g_op g_idx__be g_data__be].
  unfold half, word, N_REGS in *. rewrite wrap_small by lia. rewrite htons_htons, htonl_htonl by done.
  f_equal. f_equal. f_equal; [lia|by destruct (op_mode pr.1)].
Qed.

Lemma no_stop z : 0 < z < STOP → Z.testbit z 7 = false.
Proof. unfold STOP. intros Hz. apply Z.bits_above_log2; [lia|]. apply Z.log2_lt_pow2; lia. Qed.

Lemma lor_stop z : 0 < z < STOP → byte (Z.lor z STOP) ∧ Z.testbit (Z.lor z STOP) 7 = true ∧ Z.land (Z.lor z STOP) P4_NEG_STOP = z.
Proof.
  intros Hz. assert (Z.lor z STOP = z + 1 * 2 ^ 7) as E by (unfold STOP; change 128 with (Z.shiftl 1 7); apply lor_shiftl_add; unfold STOP in Hz; lia).
  split; [rewrite E; unfold byte, STOP in *; lia|]. split; [by rewrite Z.lor_spec, orb_true_r|].
  rewrite Z.land_lor_distr_l. change (Z.land STOP P4_NEG_STOP) with 0. rewrite Z.lor_0_r. change P4_NEG_STOP with (Z.ones 7).
  unfold STOP in Hz. rewrite land_ones_wrap, wrap_small by lia. done.
Qed.

(** Whether the switch has the registers of all operations. *)
Definition p4_known (ops : list (OP * TupleLocation)) : bool := forallb (λ pr, reg_array_id pr.2 <? P4_REGS) ops.

(** The registers of the operations. *)
Definition op_regs (ops : list (OP * TupleLocation)) : list Z := (λ pr, reg_array_id pr.2) <$> ops.

Lemma fill_type pr : typed_op pr → g_type (fill_reg_instr pr) = 1 + reg_array_id pr.2.
Proof. intros (Hr & _). cbn. unfold N_REGS in Hr. apply wrap_small. lia. Qed.

Lemma other_registers pr ops : Forall typed_op (pr :: ops) → NoDup (op_regs (pr :: ops)) →
  existsb (λ j, g_type j =? g_type (fill_reg_instr pr)) (fill_reg_instr <$> ops) = false.
Proof.
  intros [Hp Ht]%Forall_cons [Hnin _]%NoDup_cons. destruct (existsb _ _) eqn:E; [|done].
  apply existsb_exists in E as (j & Hj & Heq). apply list_elem_of_In, list_elem_of_fmap in Hj as (q & -> & Hq).
  rewrite Forall_forall in Ht. rewrite !fill_type in Heq by auto. apply Z.eqb_eq in Heq.
  destruct Hnin. apply list_elem_of_fmap. exists q. split; [cbn; lia|done].
Qed.

Lemma parse_regs_spec ops i rest : Forall typed_op ops → NoDup (op_regs ops) → Z.testbit (g_type i) 7 = true →
  parse_regs ((fill_reg_instr <$> ops) ++ i :: rest) = if p4_known ops then Some (fill_reg_instr <$> ops, i :: rest) else None.
Proof.
  intros Hops Hnd Hi. induction Hops as [|pr ops Hp Hops IH]; [cbn [fmap list_fmap app parse_regs p4_known forallb]; by rewrite Hi|].
  pose proof (other_registers pr ops (Forall_cons_2 _ _ _ Hp Hops) Hnd) as Hother. apply NoDup_cons in Hnd as [_ Hnd].
  destruct (fill_reg_typed pr Hp) as [_ Ht]. cbn [fmap list_fmap app parse_regs p4_known forallb]. rewrite (no_stop _ Ht), (IH Hnd).
  rewrite (fill_type pr Hp) in Hother |- *. destruct Hp as (Hr & _). rewrite (proj2 (Z.leb_le 1 _)) by lia. unfold P4_REGS. fold (p4_known ops).
  destruct (Z.ltb_spec (reg_array_id pr.2) 40); [rewrite (proj2 (Z.leb_le _ 40)) by lia|rewrite (proj2 (Z.leb_gt _ 40)) by lia; done].
  change (forallb _ ops) with (p4_known ops). destruct (p4_known ops); [|done]. cbn [andb]. by rewrite Hother.
Qed.

Lemma parse_skips_spec ops i rest : Forall typed_op ops → Z.testbit (g_type i) 7 = true →
  parse_skips P4_SKIPS ((fill_reg_instr <$> ops) ++ i :: rest) = parse_regs ((fill_reg_instr <$> ops) ++ i :: rest).
Proof.
  intros Hops Hi. destruct Hops as [|pr ops Hp _]; cbn [fmap list_fmap app parse_skips].
  - destruct (Z.eqb_spec (g_type i) P4_SKIP) as [E|_]; [rewrite E in Hi; discriminate Hi|done].
  - destruct (fill_reg_typed pr Hp) as [_ Ht]. rewrite (proj2 (Z.eqb_neq _ _)); [done|]. unfold P4_SKIP. lia.
Qed.

Lemma parse_skips_app room (acc l : list generic_instr) : (length acc ≤ room)%nat → ∃ room', parse_skips room ((set_type P4_SKIP <$> acc) ++ l) = parse_skips room' l.
Proof.
  revert room. induction acc as [|i acc IH]; intros room Hle; [by exists room|]. destruct room as [|room]; cbn in Hle; [lia|]. apply IH. lia.
Qed.

Lemma decode_all ops : Forall typed_op ops → decode_generic <$> (fill_reg_instr <$> ops) = swapped <$> ops.
Proof. induction 1 as [|pr ops Hp _ IH]; [done|]. cbn. by rewrite decode_fill, IH. Qed.

Lemma set_type_typed t i : byte t → typed_ginstr i → typed_ginstr (set_type t i).
Proof. intros Ht (_ & ? & ? & ?). by split_and!. Qed.

Lemma fill_all_typed ops : Forall typed_op ops → Forall typed_ginstr (fill_reg_instr <$> ops).
Proof. intros H. apply Forall_fmap. eapply Forall_impl; [exact H|]. intros pr Hp. by apply fill_reg_typed. Qed.

Section generic.
Context (bm : build) (txn : Txn).

(** The operations of the two passes. *)
Definition pass1_ops : list (OP * TupleLocation) := active_hot (take N_OPS (hot_ops_pass1 txn)).
Definition pass2_ops : list (OP * TupleLocation) :=
  if 1 <? MAX_PASSES_ACCEL bm then active_hot (take MAX_OPS_PASS2_ACCEL (hot_ops_pass2 txn)) else [].

(** The instructions of a generic packet: the first pass, then, with the bit
    [STOP], the second one if there is any, then [STOP]. *)
Definition laid_out (l : list generic_instr) : Prop :=
  ∃ z rest, Z.testbit (g_type z) 7 = true ∧ l = (fill_reg_instr <$> pass1_ops) ++
    match pass2_ops with
    | [] => z :: rest
    | pr :: Q => set_type (Z.lor (g_type (fill_reg_instr pr)) STOP) (fill_reg_instr pr) :: (fill_reg_instr <$> Q) ++ z :: rest
    end.

Lemma generic_instrs (old : list generic_instr) :
  length old = S MAX_HOT_OPS → Forall typed_ginstr old → (length pass1_ops + length pass2_ops ≤ MAX_HOT_OPS)%nat →
  Forall typed_op pass1_ops → Forall typed_op pass2_ops →
  ∃ l1 l, fill_instrs old 0 pass1_ops = Ok l1
    ∧ (if 1 <? MAX_PASSES_ACCEL bm then
         l2 ← fill_instrs l1 (length pass1_ops) pass2_ops;
         l3 ← update_type l2 (length pass1_ops) (λ t, Z.lor t STOP);
         update_type l3 (length pass1_ops + length pass2_ops) (λ _, STOP)
       else update_type l1 (length pass1_ops) (λ _, STOP)) = Ok l
    ∧ length l = S MAX_HOT_OPS ∧ Forall typed_ginstr l ∧ laid_out l.
Proof.
  intros Hlen Hold Hfit H1 H2. set (n1 := length pass1_ops) in *. set (n2 := length pass2_ops) in *.
  assert (∃ m1 m2 z b, old = m1 ++ m2 ++ z :: b ∧ length m1 = n1 ∧ length m2 = n2) as (m1 & m2 & z & b & -> & Hm1 & Hm2).
  { destruct (lookup_lt_is_Some_2 old (n1 + n2)%nat) as [z Hz]; [lia|]. exists (take n1 old), (take n2 (drop n1 old)), z, (drop (S (n1 + n2)) old).
    split_and!; [|rewrite length_take; lia|rewrite length_take, length_drop; lia].
    rewrite <-(take_drop n1 old) at 1. f_equal. rewrite <-(take_drop n2 (drop n1 old)) at 1. f_equal. rewrite drop_drop. by apply drop_S. }
  apply Forall_app in Hold as [_ Hold]. apply Forall_app in Hold as [Ht2 Hold]. apply Forall_cons in Hold as [Hz Hb].
  pose proof (fill_all_typed _ H1) as Hf1. pose proof (fill_all_typed _ H2) as Hf2.
  exists ((fill_reg_instr <$> pass1_ops) ++ m2 ++ z :: b). rewrite !length_app in Hlen. cbn [length] in Hlen.
  assert (byte STOP) as Hstop by (unfold byte, STOP; lia).
  assert (n1 = length (fill_reg_instr <$> pass1_ops)) as E1 by (by rewrite length_fmap).
  assert (set_type STOP (set_type (Z.lor (g_type z) STOP) z) = set_type STOP z) as Hset by done.
  unfold laid_out, pass2_ops in *. destruct (1 <? MAX_PASSES_ACCEL bm) eqn:Emax.
  - set (P2 := active_hot _) in *. clearbody P2. destruct P2 as [|pr Q2].
    + destruct m2; [|done]. eexists. split; [exact (fill_instrs_spec pass1_ops [] m1 _ Hm1)|]. cbn [app fill_instrs mbind outcome_bind]. rewrite E1 at 1.
      rewrite update_type_spec. cbn [mbind outcome_bind]. unfold n2. cbn [length]. rewrite Nat.add_0_r. rewrite E1 at 1. rewrite update_type_spec. split; [done|]. split_and!.
      * rewrite length_app, length_fmap. fold n1. cbn in *. lia.
      * apply Forall_app_2; [done|]. constructor; [|done]. rewrite Hset. by apply set_type_typed.
      * eexists _, _. by split; [|reflexivity].
    + destruct m2 as [|y m2]; [done|]. cbn [fmap list_fmap] in Hf2. apply Forall_cons in Hf2 as [Hfp Hf2]. apply Forall_cons in H2 as [Hp H2].
      destruct (fill_reg_typed pr Hp) as [Htp Hrange]. destruct (lor_stop _ Hrange) as [Hor _].
      eexists. split; [exact (fill_instrs_spec pass1_ops [] m1 _ Hm1)|]. rewrite E1 at 1.
      rewrite (fill_instrs_spec (pr :: Q2) (fill_reg_instr <$> pass1_ops) (y :: m2) (z :: b)) by (by rewrite Hm2). cbn [mbind outcome_bind fmap list_fmap app].
      rewrite E1 at 1. rewrite update_type_spec. cbn [mbind outcome_bind].
      set (i2 := set_type _ (fill_reg_instr pr)). replace ((fill_reg_instr <$> pass1_ops) ++ i2 :: (fill_reg_instr <$> Q2) ++ z :: b)
        with (((fill_reg_instr <$> pass1_ops) ++ i2 :: (fill_reg_instr <$> Q2)) ++ z :: b) by (by rewrite <-app_assoc).
      replace (n1 + n2)%nat with (length ((fill_reg_instr <$> pass1_ops) ++ i2 :: (fill_reg_instr <$> Q2))) by (rewrite length_app; cbn [length]; rewrite !length_fmap; unfold n2; cbn; lia).
      rewrite update_type_spec. split; [done|]. split_and!.
      * rewrite !length_app. cbn [length]. rewrite !length_fmap. fold n1. cbn in Hlen, Hm2. unfold n2 in Hm2. cbn in Hm2. lia.
      * apply Forall_app_2; [apply Forall_app_2; [done|constructor; [|done]]|constructor; [by apply set_type_typed|done]]. by apply set_type_typed.
      * eexists (set_type STOP z), b. split; [done|]. by rewrite <-app_assoc.
  - destruct m2; [|done]. eexists. split; [exact (fill_instrs_spec pass1_ops [] m1 _ Hm1)|]. cbn [app]. rewrite E1 at 1. rewrite update_type_spec. split; [done|]. split_and!.
    + rewrite length_app, length_fmap. fold n1. cbn in *. lia.
    + apply Forall_app_2; [done|]. constructor; [|done]. by apply set_type_typed.
    + eexists _, _. by split; [|reflexivity].
Qed.

(** What the switch makes of them. *)
Lemma laid_out_read l : laid_out l → Forall typed_op pass1_ops → Forall typed_op pass2_ops →
  NoDup (op_regs pass1_ops) → NoDup (op_regs pass2_ops) → (length pass1_ops + length pass2_ops ≤ MAX_HOT_OPS)%nat →
  p4_pass1 l = (if p4_known pass1_ops then Some (swapped <$> pass1_ops) else None)
  ∧ (p4_known pass1_ops = true → pass2_ops ≠ [] → p4_pass2 l = if p4_known pass2_ops then Some (swapped <$> pass2_ops) else None).
Proof.
  intros (z & rest & Hz & ->) H1 H2 Hd1 Hd2 Hfit. unfold p4_pass2, p4_recirculate. destruct pass2_ops as [|pr Q] eqn:E2.
  - unfold p4_pass1. rewrite parse_skips_spec, parse_regs_spec by done. split; [|done].
    destruct (p4_known pass1_ops); [|done]. cbn [mbind option_bind]. by rewrite decode_all.
  - pose proof H2 as [Hp _]%Forall_cons. destruct (fill_reg_typed pr Hp) as [_ Hrange]. destruct (lor_stop _ Hrange) as (_ & Hstop & Hland).
    unfold p4_pass1. rewrite parse_skips_spec, parse_regs_spec by done. split.
    + destruct (p4_known pass1_ops); [|done]. cbn [mbind option_bind]. by rewrite decode_all.
    + intros -> _. cbn [mbind option_bind]. cbn [set_type g_type]. rewrite Hland.
      destruct (parse_skips_app P4_SKIPS (fill_reg_instr <$> pass1_ops) ((fill_reg_instr <$> pr :: Q) ++ z :: rest)) as (room & E).
      { rewrite length_fmap. cbn in Hfit. unfold P4_SKIPS, MAX_HOT_OPS in *. lia. }
      assert (∀ i : generic_instr, set_type (g_type i) (set_type (Z.lor (g_type i) STOP) i) = i) as Hset by (by intros []).
      rewrite Hset. cbn [fmap list_fmap app] in E. rewrite E. cbn [parse_skips]. rewrite (proj2 (Z.eqb_neq _ _)) by (unfold P4_SKIP; lia).
      pose proof (parse_regs_spec (pr :: Q) z rest H2 Hd2 Hz) as ER. cbn [fmap list_fmap app] in ER. rewrite ER.
      destruct (p4_known (pr :: Q)); [|done]. cbn [mbind option_bind]. f_equal. exact (decode_all (pr :: Q) H2).
Qed.
End generic.

(** ** One-pass packets *)

Lemma set_instr_typed pkt reg i pkt' : typed_pass1 pkt → typed_instr i → set_instr pkt reg i = Ok pkt' → typed_pass1 pkt'.
Proof.
  intros [Hh Hb [Hp Hn] Hpi Hni] Hi H. unfold set_instr in H. case_decide; minv; (split; cbn; [done|done|split; cbn; by rewrite ?length_insert|..]); try done; by apply Forall_insert.
Qed.

Lemma make_txn_typed bm c L txn old pkt : typed_macs c → typed_pass1 old → make_txn_1pass bm c L txn old = Ok pkt → typed_pass1 pkt.
Proof.
  intros Hc [Hh Hb [Hp Hn] Hpi Hni] H. unfold make_txn_1pass in H. minv.
  assert (∀ l, Forall typed_instr l → Forall typed_instr (clear_mask <$> l)) as Hclear.
  { intros l Hl. apply Forall_fmap. eapply Forall_impl; [exact Hl|]. intros i [_ Hd]. split; cbn; [unfold byte; lia|done]. }
  revert H. apply (ofold_inv (λ _ p, typed_pass1 p)).
  - split; cbn; [by apply fill_hdr_typed|apply htons_range|split; cbn; by rewrite length_fmap|by apply Hclear..].
  - intros pre pr post p1 p2 _ Hp1 Hstep. unfold make_instr, pass1_mask in Hstep. minv. eapply set_instr_typed; [done| |exact Hstep].
    split; cbn; [|apply htonl_range]. apply wrap_range. lia.
Qed.


Definition blank_generic : generic_pkt := MkGeneric (MkHdr (replicate 6 0) (replicate 6 0) 0 (replicate 28 0) (replicate 16 0)) 0 0 0 0 0 (replicate 9 inhabitant).

(** A write and a read in the first pass, a write in the second. *)
Definition two_pass_build : build := Build false true true 32 2.
Definition two_pass_txn : Txn :=
  MkTxn [] ([(MkOP 40 inhabitant WRITE 70000, MkTupleLoc 5 223 9 3); (MkOP 41 inhabitant READ 9, MkTupleLoc 38 192 8 255)] ++ replicate 6 inhabitant)
    ((MkOP 42 inhabitant WRITE 1, MkTupleLoc 5 200 7 3) :: replicate 7 inhabitant) true true 0 None None 0 0 TxnId_default 0.

