(* ===== verification/HotCold.v ===== *)
(** * Splitting a transaction into hot and cold operations

    [src/src/ee/hot_cold.cpp]: [extract_hot_cold] asks the layout where each
    operation's key lives, moves the keys of the switch to one or two passes
    over the register arrays, and compacts the others in place. *)
From stdpp Require Import base tactics list numbers gmap sorting.
From Stdlib Require Import ZArith Lia.
From S2P Require Import Prelude Types Layout Msg Row Table SendQ SwitchPkt.

#[local] Arguments N_REGS : simpl never.
#[local] Arguments N_OPS : simpl never.
#[local] Arguments MAX_OPS_PASS2_ACCEL : simpl never.

(** ** Field assignments on a transaction *)

Definition set_cold (l : list OP) (t : Txn) : Txn :=
  MkTxn l (hot_ops_pass1 t) (hot_ops_pass2 t) (init_done t) (do_accel t) (n_aborts t)
        (hottest_cold_i1 t) (hottest_cold_i2 t) (locks_check t) (locks_acquire t) (txn_id t) (loader_id t).
Definition set_hot1 (l : list (OP * TupleLocation)) (t : Txn) : Txn :=
  MkTxn (cold_ops t) l (hot_ops_pass2 t) (init_done t) (do_accel t) (n_aborts t)
        (hottest_cold_i1 t) (hottest_cold_i2 t) (locks_check t) (locks_acquire t) (txn_id t) (loader_id t).
Definition set_hot2 (l : list (OP * TupleLocation)) (t : Txn) : Txn :=
  MkTxn (cold_ops t) (hot_ops_pass1 t) l (init_done t) (do_accel t) (n_aborts t)
        (hottest_cold_i1 t) (hottest_cold_i2 t) (locks_check t) (locks_acquire t) (txn_id t) (loader_id t).
Definition set_accel (b : bool) (t : Txn) : Txn :=
  MkTxn (cold_ops t) (hot_ops_pass1 t) (hot_ops_pass2 t) (init_done t) b (n_aborts t)
        (hottest_cold_i1 t) (hottest_cold_i2 t) (locks_check t) (locks_acquire t) (txn_id t) (loader_id t).
Definition set_locks (c a : Z) (t : Txn) : Txn :=
  MkTxn (cold_ops t) (hot_ops_pass1 t) (hot_ops_pass2 t) (init_done t) (do_accel t) (n_aborts t)
        (hottest_cold_i1 t) (hottest_cold_i2 t) c a (txn_id t) (loader_id t).
Definition set_hottest (i1 i2 : option nat) (t : Txn) : Txn :=
  MkTxn (cold_ops t) (hot_ops_pass1 t) (hot_ops_pass2 t) (init_done t) (do_accel t) (n_aborts t)
        i1 i2 (locks_check t) (locks_acquire t) (txn_id t) (loader_id t).
Definition set_init_done (b : bool) (t : Txn) : Txn :=
  MkTxn (cold_ops t) (hot_ops_pass1 t) (hot_ops_pass2 t) b (do_accel t) (n_aborts t)
        (hottest_cold_i1 t) (hottest_cold_i2 t) (locks_check t) (locks_acquire t) (txn_id t) (loader_id t).

(** [std::bitset::set(pos)], which throws past the width. *)
Definition bitset_set (width : nat) (bits pos : Z) : outcome Z :=
  if pos <? Z.of_nat width then Ok (Z.setbit bits pos) else Fail (Thrown OutOfRangeError).
Definition bitset_test (width : nat) (bits pos : Z) : outcome bool :=
  if pos <? Z.of_nat width then Ok (Z.testbit bits pos) else Fail (Thrown OutOfRangeError).

(** [locks.set(lock_pos)] unless the location has no lock. *)
Definition note_lock (bits pos : Z) : outcome Z :=
  if bool_decide (pos = NO_LOCK) then Ok bits else bitset_set N_SW_LOCKS bits pos.

(** The function's variables.  [cold1_i] and [cold2_i] start uninitialised. *)
Record ehc := MkEhc {
  h_txn : Txn;
  h_layout : DeclusteredLayout;
  cold1_i : option nat;  cold1_v : Z;
  cold2_i : option nat;  cold2_v : Z;
  hot_p1 : nat;  hot_p2 : nat;  cold_p : nat;
  reg_usage : Z;
  reg_usage_2 : Z;
  hot_reorder_buf : list nat;
  n_pass2_ops : nat;
}.

(** First hot operation on its register. *)
Definition take_pass1 (bm : build) (st : ehc) (op : OP) (loc : TupleLocation) : outcome ehc :=
  let reg := reg_array_id loc in
  usage ← bitset_set N_REGS (reg_usage st) reg;
  buf ← (if 1 <? MAX_PASSES_ACCEL bm then aset (hot_reorder_buf st) (Z.to_nat reg) (hot_p1 st)
         else Ok (hot_reorder_buf st));
  hot1 ← aset (hot_ops_pass1 (h_txn st)) (hot_p1 st) (op, loc);
  lc ← note_lock (locks_check (h_txn st)) (lock_pos loc);
  Ok (MkEhc (set_locks lc (locks_acquire (h_txn st)) (set_hot1 hot1 (h_txn st))) (h_layout st)
            (cold1_i st) (cold1_v st) (cold2_i st) (cold2_v st)
            (S (hot_p1 st)) (hot_p2 st) (cold_p st) usage (reg_usage_2 st) buf (n_pass2_ops st)).

(** Second hot operation on its register, with two passes: the hotter of the
    two stays in the first pass. *)
Definition take_pass2 (st : ehc) (op : OP) (loc : TupleLocation) : outcome ehc :=
  let reg := reg_array_id loc in
  usage2 ← bitset_set N_REGS (reg_usage_2 st) reg;
  swap_idx ← aget (hot_reorder_buf st) (Z.to_nat reg);
  other ← aget (hot_ops_pass1 (h_txn st)) swap_idx;
  txn' ← (if total_order_gt (dist_freq other.2) (op_id other.1) (dist_freq loc) (op_id op) then
            hot2 ← aset (hot_ops_pass2 (h_txn st)) (hot_p2 st) (op, loc);
            Ok (set_hot2 hot2 (h_txn st))
          else
            hot2 ← aset (hot_ops_pass2 (h_txn st)) (hot_p2 st) other;
            hot1 ← aset (hot_ops_pass1 (h_txn st)) swap_idx (op, loc);
            Ok (set_hot1 hot1 (set_hot2 hot2 (h_txn st))));
  lc ← note_lock (locks_check txn') (lock_pos loc);
  la ← note_lock (locks_acquire txn') (lock_pos loc);
  Ok (MkEhc (set_locks lc la txn') (h_layout st) (cold1_i st) (cold1_v st) (cold2_i st) (cold2_v st)
            (hot_p1 st) (S (hot_p2 st)) (cold_p st) (reg_usage st) usage2 (hot_reorder_buf st)
            (S (n_pass2_ops st))).

(** A hot operation that fits no pass. *)
Definition give_up_accel (st : ehc) (op : OP) (loc : TupleLocation) : outcome ehc :=
  hot1 ← aset (hot_ops_pass1 (h_txn st)) (hot_p1 st) (op, loc);
  Ok (MkEhc (set_hot1 hot1 (set_accel false (h_txn st))) (h_layout st)
            (cold1_i st) (cold1_v st) (cold2_i st) (cold2_v st)
            (S (hot_p1 st)) (hot_p2 st) (cold_p st) (reg_usage st) (reg_usage_2 st)
            (hot_reorder_buf st) (n_pass2_ops st)).

(** A cold operation: compacted to [cold_p], and tracked if it is hot for a
    cold one. *)
Definition take_cold (st : ehc) (op : OP) (loc : TupleLocation) : outcome ehc :=
  let '(c1i, c1v, c2i, c2v) :=
    if cold1_v st <? dist_freq loc then (Some (cold_p st), dist_freq loc, cold2_i st, cold2_v st)
    else if cold2_v st <? dist_freq loc then (cold1_i st, cold1_v st, Some (cold_p st), dist_freq loc)
    else (cold1_i st, cold1_v st, cold2_i st, cold2_v st) in
  cold ← aset (cold_ops (h_txn st)) (cold_p st) op;
  Ok (MkEhc (set_cold cold (h_txn st)) (h_layout st) c1i c1v c2i c2v
            (hot_p1 st) (hot_p2 st) (S (cold_p st)) (reg_usage st) (reg_usage_2 st)
            (hot_reorder_buf st) (n_pass2_ops st)).

(** The body of the loop, after the operation and its location are known. *)
Definition place (bm : build) (st : ehc) (op : OP) (hot : bool) (loc : TupleLocation) : outcome ehc :=
  if hot then
    used ← bitset_test N_REGS (reg_usage st) (reg_array_id loc);
    if negb used then take_pass1 bm st op loc
    else if ORIG_MODE bm then Ok st
    else if MAX_PASSES_ACCEL bm =? 2 then
      used2 ← bitset_test N_REGS (reg_usage_2 st) (reg_array_id loc);
      if negb used2 && bool_decide (n_pass2_ops st < MAX_OPS_PASS2_ACCEL)%nat
      then take_pass2 st op loc
      else give_up_accel st op loc
    else give_up_accel st op loc
  else take_cold st op loc.

(** One iteration for operation [i]. *)
Definition ehc_step (bm : build) (p : PartitionInfo) (st : ehc) (i : nat) (op0 : OP) : outcome ehc :=
  linfo ← location p (op_id op0);
  let op := set_loc linfo op0 in
  cold ← aset (cold_ops (h_txn st)) i op;
  let '((hot, loc), L') := get_location bm (h_layout st) (op_id op) in
  place bm (MkEhc (set_cold cold (h_txn st)) L' (cold1_i st) (cold1_v st) (cold2_i st) (cold2_v st)
                  (hot_p1 st) (hot_p2 st) (cold_p st) (reg_usage st) (reg_usage_2 st)
                  (hot_reorder_buf st) (n_pass2_ops st)) op hot loc.

(** The loop from operation [i]; [n] is [N_OPS - i]. *)
Fixpoint ehc_loop (bm : build) (p : PartitionInfo) (n i : nat) (st : ehc) : outcome ehc :=
  match n with
  | O => Ok st
  | S n' =>
      op0 ← aget (cold_ops (h_txn st)) i;
      if bool_decide (op_mode op0 = INVALID) then Ok st
      else st' ← ehc_step bm p st i op0; ehc_loop bm p n' (S i) st'
  end.

(** [dst[from + k] = src[k]] for [k < n]. *)
Definition copy_ops (dst : list OP) (from n : nat) (src : list (OP * TupleLocation)) : outcome (list OP) :=
  ofold (λ dst k, pr ← aget src k; aset dst (k + from) pr.1) (seq 0 n) dst.

(** [ops[i].first.mode = INVALID] and [ops[i].mode = INVALID]. *)
Definition stop_hot (l : list (OP * TupleLocation)) (i : nat) : outcome (list (OP * TupleLocation)) :=
  pr ← aget l i; aset l i (set_mode INVALID pr.1, pr.2).
Definition stop_cold (l : list OP) (i : nat) : outcome (list OP) :=
  o ← aget l i; aset l i (set_mode INVALID o).

(** The end of the function when a hot operation fits no pass. *)
Definition ehc_restore (st : ehc) : outcome Txn :=
  let t := h_txn st in
  c1 ← copy_ops (cold_ops t) (cold_p st) (hot_p1 st) (hot_ops_pass1 t);
  c2 ← copy_ops c1 (cold_p st + hot_p1 st) (hot_p2 st) (hot_ops_pass2 t);
  h1 ← stop_hot (hot_ops_pass1 t) 0;
  h2 ← stop_hot (hot_ops_pass2 t) 0;
  Ok (set_cold c2 (set_hot1 h1 (set_hot2 h2 t))).

(** The end of the function otherwise. *)
Definition ehc_finish (bm : build) (st : ehc) : outcome Txn :=
  let t := h_txn st in
  c ← (if decide (cold_p st < N_OPS)%nat then stop_cold (cold_ops t) (cold_p st) else Ok (cold_ops t));
  h1 ← (if decide (hot_p1 st < N_OPS)%nat then stop_hot (hot_ops_pass1 t) (hot_p1 st)
        else Ok (hot_ops_pass1 t));
  h2 ← (if (MAX_PASSES_ACCEL bm =? 2) && bool_decide (hot_p2 st < MAX_OPS_PASS2_ACCEL)%nat
        then stop_hot (hot_ops_pass2 t) (hot_p2 st) else Ok (hot_ops_pass2 t));
  let t1 := set_cold c (set_hot1 h1 (set_hot2 h2 t)) in
  let t2 := set_hottest (if 0 <? cold1_v st then cold1_i st else hottest_cold_i1 t1)
                        (if 0 <? cold2_v st then cold2_i st else hottest_cold_i2 t1) t1 in
  assert (ORIG_MODE bm || bool_decide (cold_p st + hot_p1 st + hot_p2 st = N_OPS)%nat);;
  Ok t2.

(** [extract_hot_cold]. *)
Definition extract_hot_cold (bm : build) (p : PartitionInfo) (txn : Txn) (L : DeclusteredLayout)
  : outcome (Txn * DeclusteredLayout) :=
  let st0 := MkEhc (set_accel true txn) L None 0 None 0 0 0 0 0 0 (replicate N_REGS 0%nat) 0 in
  st ← ehc_loop bm p N_OPS 0 st0;
  t ← (if negb (do_accel (h_txn st)) then ehc_restore st else ehc_finish bm st);
  Ok (set_init_done true t, h_layout st).

(** ** Locations the layout answers with *)

(** What the layout says about a key, whatever it was asked before. *)
Definition hot_of (bm : build) (L : DeclusteredLayout) (k : Z) : bool * TupleLocation :=
  (get_location bm L k).1.

(** Every location names a register array, a lock or [NO_LOCK], and a count. *)
Definition locs_ok (bm : build) (L : DeclusteredLayout) : Prop :=
  ∀ k, let tl := (hot_of bm L k).2 in
    0 ≤ reg_array_id tl < Z.of_nat N_REGS
    ∧ (lock_pos tl = NO_LOCK ∨ 0 ≤ lock_pos tl < Z.of_nat N_SW_LOCKS) ∧ 0 ≤ dist_freq tl.

(** Asking for a key changes no later answer. *)
Lemma get_location_stable bm L k k' :
  hot_of bm (get_location bm L k).2 k' = hot_of bm L k'.
Proof.
  unfold hot_of, get_location, virt_get, block_base.
  destruct (virt_map L !! k) eqn:Ek; [done|]. cbn [snd virt_map block_num].
  destruct (decide (k = k')) as [->|Hne].
  - by rewrite lookup_insert_eq, Ek.
  - rewrite lookup_insert_ne by done. by destruct (virt_map L !! k').
Qed.

Lemma layout_locs_ok bm ids b : freqs_ok ids → locs_ok bm (set_block_num b (layout_of ids)).
Proof.
  intros Hf k. unfold hot_of, get_location, virt_get. cbn [set_block_num layout_of virt_map].
  pose proof (layout_ok ids Hf) as Hok.
  destruct (a_virt _ !! k) as [tl|] eqn:Ek; cbn [fst snd reg_array_id lock_pos dist_freq].
  - destruct (ao_virt _ _ Hok k tl Ek) as (Hin & (r & Hr & -> & _) & Hlk).
    split_and!; [lia|lia|destruct Hlk as [[_ ->]|[_ ?]]; [by left|by right]|].
    rewrite std_sort_perm in Hin. pose proof (fo_nonneg _ Hf) as Hnn.
    rewrite Forall_forall in Hnn. by apply (Hnn _ Hin).
  - split_and!; try done. by right.
Qed.

(** The partition's answer, when the partition is not empty. *)
Definition loc_of (p : PartitionInfo) (k : Z) : LocationInfo :=
  let t := node_of (k / partition_size p) in MkLoc (node_u32 t =? node_u32 (my_id p)) t.

Lemma location_loc_of p k : partition_size p ≠ 0 → location p k = Ok (loc_of p k).
Proof. intros H. unfold location, udiv. by rewrite (proj2 (Z.eqb_neq _ _)). Qed.

(** An operation with its location filled in. *)
Definition relocate (p : PartitionInfo) (o : OP) : OP := set_loc (loc_of p (op_id o)) o.

Abbreviation reg_of := (λ pr : OP * TupleLocation, reg_array_id pr.2).

Lemma bitset_set_ok w bits pos :
  0 ≤ pos < Z.of_nat w → bitset_set w bits pos = Ok (Z.setbit bits pos).
Proof. intros. unfold bitset_set. by rewrite (proj2 (Z.ltb_lt _ _)) by lia. Qed.

Lemma bitset_test_ok w bits pos :
  0 ≤ pos < Z.of_nat w → bitset_test w bits pos = Ok (Z.testbit bits pos).
Proof. intros. unfold bitset_test. by rewrite (proj2 (Z.ltb_lt _ _)) by lia. Qed.

Lemma setbit_true bits pos i :
  0 ≤ pos → Z.testbit (Z.setbit bits pos) i = true ↔ i = pos ∨ Z.testbit bits i = true.
Proof.
  intros Hp. destruct (decide (0 ≤ i)) as [Hi|Hi].
  - rewrite Z.setbit_eqb, orb_true_iff, Z.eqb_eq by done. naive_solver.
  - rewrite !Z.testbit_neg_r by lia. split; [done|]. intros [->|]; [lia|done].
Qed.

Lemma note_lock_ok bits pos :
  pos = NO_LOCK ∨ 0 ≤ pos < Z.of_nat N_SW_LOCKS →
  ∃ bits', note_lock bits pos = Ok bits'
    ∧ ∀ i, Z.testbit bits' i = true ↔ i = pos ∧ pos ≠ NO_LOCK ∨ Z.testbit bits i = true.
Proof.
  intros H. unfold note_lock. case_bool_decide as Hd.
  - exists bits. split; [done|]. naive_solver.
  - destruct H as [?|H]; [done|]. rewrite bitset_set_ok by done. eexists; split; [done|].
    intros i. rewrite setbit_true by lia. naive_solver.
Qed.

(** Writing just past a prefix extends it. *)
Lemma take_insert_end {A} (l : list A) n x :
  (n < length l)%nat → take (S n) (<[n := x]> l) = take n l ++ [x].
Proof.
  intros Hn. rewrite (take_S_r _ _ x) by (by apply list_lookup_insert_eq).
  by rewrite take_insert_ge.
Qed.

(** ** The loop's invariant

    [C], [H1] and [H2] are the operations so far in the cold, first-pass and
    second-pass arrays, together the operations [placed]; the cold array still
    holds [orig] from index [i] on. *)
Section extract.
Context (bm : build) (p : PartitionInfo) (L0 : DeclusteredLayout) (orig : list OP) (lid : Z).

(** The fields the loop does not touch. *)
Definition kept (t : Txn) : Prop :=
  hottest_cold_i1 t = None ∧ hottest_cold_i2 t = None ∧ loader_id t = lid ∧ n_aborts t = 0.

Record ehc_inv (i : nat) (placed : list OP) (C : list OP) (H1 H2 : list (OP * TupleLocation)) (st : ehc) : Prop := {
  hi_kept : kept (h_txn st);
  hi_len_c : length (cold_ops (h_txn st)) = N_OPS;
  hi_len_1 : length (hot_ops_pass1 (h_txn st)) = N_OPS;
  hi_len_2 : length (hot_ops_pass2 (h_txn st)) = MAX_OPS_PASS2_ACCEL;
  hi_len_b : length (hot_reorder_buf st) = N_REGS;
  hi_cold : take (cold_p st) (cold_ops (h_txn st)) = C ∧ length C = cold_p st;
  hi_hot1 : take (hot_p1 st) (hot_ops_pass1 (h_txn st)) = H1 ∧ length H1 = hot_p1 st;
  hi_hot2 : take (hot_p2 st) (hot_ops_pass2 (h_txn st)) = H2 ∧ length H2 = hot_p2 st;
  hi_rest : drop i (cold_ops (h_txn st)) = drop i orig;
  hi_tail2 : Forall (λ pr : OP * TupleLocation, op_mode pr.1 = INVALID)
                    (drop (hot_p2 st) (hot_ops_pass2 (h_txn st)));
  hi_perm : C ++ H1.*1 ++ H2.*1 ≡ₚ placed;
  hi_layout : ∀ k, hot_of bm (h_layout st) k = hot_of bm L0 k;
  hi_hot : Forall (λ pr, hot_of bm L0 (op_id pr.1) = (true, pr.2)) (H1 ++ H2);
  hi_not : Forall (λ o, (hot_of bm L0 (op_id o)).1 = false) C;
  hi_usage : ∀ r, Z.testbit (reg_usage st) r = true ↔ r ∈ reg_of <$> H1;
  hi_usage2 : ∀ r, Z.testbit (reg_usage_2 st) r = true ↔ r ∈ reg_of <$> H2;
  hi_buf : 1 < MAX_PASSES_ACCEL bm → ∀ r, Z.testbit (reg_usage st) r = true →
    ∃ j pr, hot_reorder_buf st !! Z.to_nat r = Some j ∧ H1 !! j = Some pr ∧ reg_array_id pr.2 = r;
  hi_n2 : n_pass2_ops st = hot_p2 st;
  hi_one : MAX_PASSES_ACCEL bm ≠ 2 → H2 = [];
  hi_accel : do_accel (h_txn st) = true →
    NoDup (reg_of <$> H1) ∧ NoDup (reg_of <$> H2)
    ∧ (∀ a, a ∈ H2 → ∃ b, b ∈ H1 ∧ reg_of b = reg_of a
         ∧ total_order_gt (dist_freq b.2) (op_id b.1) (dist_freq a.2) (op_id a.1)
           || bool_decide (dist_freq b.2 = dist_freq a.2 ∧ op_id b.1 = op_id a.1) = true)
    ∧ (∀ l, Z.testbit (locks_check (h_txn st)) l = true ↔
         l ≠ NO_LOCK ∧ l ∈ (λ pr : OP * TupleLocation, lock_pos pr.2) <$> H1 ++ H2);
  hi_first : (cold1_v st = 0 ∧ cold1_i st = None
              ∨ 0 < cold1_v st ∧ ∃ j o, cold1_i st = Some j ∧ C !! j = Some o
                 ∧ dist_freq (hot_of bm L0 (op_id o)).2 = cold1_v st)
    ∧ Forall (λ o, dist_freq (hot_of bm L0 (op_id o)).2 ≤ cold1_v st) C;
  hi_second : cold2_v st = 0 ∧ cold2_i st = None
    ∨ 0 < cold2_v st ∧ ∃ j o, cold2_i st = Some j ∧ C !! j = Some o ∧ cold2_i st ≠ cold1_i st
       ∧ dist_freq (hot_of bm L0 (op_id o)).2 = cold2_v st;
}.

Context (HL : locs_ok bm L0).

(** The number of operations placed. *)
Lemma hi_count i placed C H1 H2 st :
  ehc_inv i placed C H1 H2 st → (cold_p st + hot_p1 st + hot_p2 st = length placed)%nat.
Proof.
  intros H. rewrite <-(hi_perm _ _ _ _ _ _ H), !length_app, !length_fmap.
  destruct (hi_cold _ _ _ _ _ _ H), (hi_hot1 _ _ _ _ _ _ H), (hi_hot2 _ _ _ _ _ _ H). lia.
Qed.

(** A step of the loop has placed one more operation. *)
Definition placed_next (i : nat) (placed : list OP) (op : OP) (r : outcome ehc) : Prop :=
  ∃ st C H1 H2, r = Ok st ∧ ehc_inv i (placed ++ [op]) C H1 H2 st.

Section step.
Context (i : nat) (placed : list OP) (C : list OP) (H1 H2 : list (OP * TupleLocation)) (st : ehc).
Context (Hinv : ehc_inv i placed C H1 H2 st) (Hlen : (length placed < i ≤ N_OPS)%nat).
Context (op : OP) (loc : TupleLocation).

Lemma take_cold_ok :
  hot_of bm L0 (op_id op) = (false, loc) → placed_next i placed op (take_cold st op loc).
Proof.
  intros Hloc. pose proof (hi_count _ _ _ _ _ _ Hinv) as Hcnt. destruct Hinv.
  destruct hi_cold0 as [HC HCl].
  assert (cold_p st < N_OPS)%nat as Hc by lia.
  unfold take_cold. rewrite aset_lt by lia.
  assert (C ++ [op] = take (S (cold_p st)) (<[cold_p st := op]> (cold_ops (h_txn st)))) as HC'.
  { by rewrite take_insert_end, HC by lia. }
  assert (∀ j o, C !! j = Some o → (C ++ [op]) !! j = Some o) as Hmono by (intros; by apply lookup_app_l_Some).
  assert ((C ++ [op]) !! cold_p st = Some op) as Hnew by (rewrite <-HCl; by apply list_lookup_middle).
  assert (∀ j o, C !! j = Some o → j ≠ cold_p st) as Hlt by (intros j o ?%lookup_lt_Some; lia).
  destruct hi_first0 as [Hf1 Hfa].
  assert (dist_freq (hot_of bm L0 (op_id op)).2 = dist_freq loc) as Hfl by by rewrite Hloc.
  destruct (cold1_v st <? dist_freq loc) eqn:E1; [apply Z.ltb_lt in E1|apply Z.ltb_ge in E1;
    destruct (cold2_v st <? dist_freq loc) eqn:E2; [apply Z.ltb_lt in E2|apply Z.ltb_ge in E2]];
  (eexists _, (C ++ [op]), H1, H2; split; [done|]);
  (split; cbn [h_txn set_cold cold_ops hot_ops_pass1 hot_ops_pass2 hot_reorder_buf cold_p hot_p1 hot_p2
    h_layout reg_usage reg_usage_2 n_pass2_ops do_accel locks_check cold1_v cold1_i cold2_v cold2_i];
    rewrite ?length_insert, ?length_app; try done).
  all: try (rewrite HCl; split; [done|simpl; lia]).
  all: try (rewrite drop_insert_lt; [done|lia]).
  all: try (rewrite <-hi_perm0; solve_Permutation).
  all: try (apply Forall_app_2; [done|]; apply Forall_singleton; by rewrite ?Hloc).
  all: try (split; [|apply Forall_app_2; [eapply Forall_impl; [done|]; simpl; intros; lia
                                         |apply Forall_singleton; lia]]).
  - right. split; [destruct Hf1 as [[? _]|[? _]]; lia|]. by exists (cold_p st), op.
  - destruct hi_second0 as [?|(? & j & o & Hj & Ho & _ & ?)]; [by left|right].
    split; [done|]. exists j, o. split_and!; eauto. rewrite Hj. intros [= ->]. by eapply Hlt.
  - destruct Hf1 as [?|(? & j & o & ? & ? & ?)]; [by left|right; split; [done|]]. exists j, o. eauto.
  - right. split; [destruct hi_second0 as [[? _]|[? _]]; lia|]. exists (cold_p st), op.
    split_and!; try done. destruct Hf1 as [[_ ->]|(_ & j & o & -> & Ho & _)]; [done|].
    intros [= Heq]. by eapply (Hlt j o).
  - destruct Hf1 as [?|(? & j & o & ? & ? & ?)]; [by left|right; split; [done|]]. exists j, o. eauto.
  - destruct hi_second0 as [?|(? & j & o & ? & ? & ? & ?)]; [by left|right; split; [done|]]. exists j, o. eauto.
Qed.

Lemma reg_range pr : pr ∈ H1 ++ H2 → 0 ≤ reg_array_id pr.2 < Z.of_nat N_REGS.
Proof.
  intros Hpr. pose proof (hi_hot _ _ _ _ _ _ Hinv) as Hf. rewrite Forall_forall in Hf.
  specialize (HL (op_id pr.1)). rewrite (Hf pr Hpr) in HL. apply HL.
Qed.

Lemma new_hot : hot_of bm L0 (op_id op) = (true, loc) →
  0 ≤ reg_array_id loc < Z.of_nat N_REGS
  ∧ (lock_pos loc = NO_LOCK ∨ 0 ≤ lock_pos loc < Z.of_nat N_SW_LOCKS).
Proof. intros Hh. specialize (HL (op_id op)). rewrite Hh in HL. naive_solver. Qed.

(** Extending the first pass: the array, its prefix and the operations placed. *)
Lemma extend_hot1 :
  (hot_p1 st < length (hot_ops_pass1 (h_txn st)))%nat ∧
  take (S (hot_p1 st)) (<[hot_p1 st := (op, loc)]> (hot_ops_pass1 (h_txn st))) = H1 ++ [(op, loc)]
  ∧ length (H1 ++ [(op, loc)]) = S (hot_p1 st)
  ∧ C ++ (H1 ++ [(op, loc)]).*1 ++ H2.*1 ≡ₚ placed ++ [op].
Proof.
  pose proof (hi_count _ _ _ _ _ _ Hinv) as Hcnt. destruct Hinv. destruct hi_hot3 as [HH HHl].
  split; [lia|]. rewrite take_insert_end, HH by lia. split; [done|]. split.
  - rewrite length_app. simpl. lia.
  - rewrite <-hi_perm0, fmap_app. simpl. solve_Permutation.
Qed.

Lemma hot_snoc (H : list (OP * TupleLocation)) :
  hot_of bm L0 (op_id op) = (true, loc) →
  Forall (λ pr, hot_of bm L0 (op_id pr.1) = (true, pr.2)) (H1 ++ H2) →
  Forall (λ pr, hot_of bm L0 (op_id pr.1) = (true, pr.2)) ((H1 ++ [(op, loc)]) ++ H2).
Proof.
  rewrite !Forall_app. intros Hh [? ?]. split_and!; try done. by apply Forall_singleton.
Qed.

Lemma take_pass1_ok :
  hot_of bm L0 (op_id op) = (true, loc) → Z.testbit (reg_usage st) (reg_array_id loc) = false →
  placed_next i placed op (take_pass1 bm st op loc).
Proof.
  intros Hh Hfree. destruct (new_hot Hh) as [Hreg Hlock].
  destruct extend_hot1 as (Hlt & Htake & Hlen1 & Hperm).
  pose proof reg_range as Hrange. destruct Hinv.
  assert (reg_array_id loc ∉ reg_of <$> H1) as Hnew.
  { rewrite <-hi_usage0, Hfree. done. }
  unfold take_pass1. rewrite bitset_set_ok by done. cbn [mbind outcome_bind].
  destruct (note_lock_ok (locks_check (h_txn st)) (lock_pos loc) Hlock) as (lc & Hlc & Hlcb).
  assert (∃ buf, (if 1 <? MAX_PASSES_ACCEL bm
      then aset (hot_reorder_buf st) (Z.to_nat (reg_array_id loc)) (hot_p1 st)
      else Ok (hot_reorder_buf st)) = Ok buf ∧ length buf = N_REGS
      ∧ (1 < MAX_PASSES_ACCEL bm → buf = <[Z.to_nat (reg_array_id loc) := hot_p1 st]> (hot_reorder_buf st)))
    as (buf & Hbuf & Hbl & Hbeq).
  { destruct (1 <? MAX_PASSES_ACCEL bm) eqn:E.
    - rewrite aset_lt by lia. eexists; split; [done|]. by rewrite length_insert.
    - apply Z.ltb_ge in E. eexists; split_and!; [done..|lia]. }
  rewrite Hbuf. cbn [mbind outcome_bind]. rewrite aset_lt by done. cbn [mbind outcome_bind].
  rewrite Hlc. cbn [mbind outcome_bind].
  eexists _, C, (H1 ++ [(op, loc)]), H2; split; [done|].
  split; cbn [h_txn set_locks set_hot1 cold_ops hot_ops_pass1 hot_ops_pass2 hot_reorder_buf cold_p hot_p1 hot_p2
    h_layout reg_usage reg_usage_2 n_pass2_ops do_accel locks_check cold1_v cold1_i cold2_v cold2_i];
    rewrite ?length_insert; try done.
  - by apply hot_snoc.
  - intros r. rewrite setbit_true by lia. rewrite hi_usage0, fmap_app, elem_of_app.
    cbn [fmap list_fmap]. rewrite list_elem_of_singleton. tauto.
  - intros Hmp r Hr. rewrite Hbeq by done. rewrite setbit_true in Hr by lia.
    destruct (decide (r = reg_array_id loc)) as [->|Hne].
    + exists (hot_p1 st), (op, loc). split_and!; [|rewrite list_lookup_middle; [done|lia]|done].
      rewrite list_lookup_insert_eq by lia. done.
    + destruct Hr as [?|Hr]; [done|]. destruct (hi_buf0 Hmp r Hr) as (j & pr & Hj & Hpr & Hpreg).
      exists j, pr. split_and!; [|by apply lookup_app_l_Some|done].
      rewrite list_lookup_insert_ne; [done|]. intros Heq. apply Hne.
      assert (pr ∈ H1 ++ H2) as Hin by (apply elem_of_app; left; by eapply list_elem_of_lookup_2).
      specialize (Hrange pr Hin). lia.
  - intros Hacc. destruct (hi_accel0 Hacc) as (Hn1 & Hn2 & Hpair & Hlk). split_and!.
    + rewrite fmap_app. apply NoDup_app. split_and!; [done| |apply NoDup_singleton].
      intros r Hr ->%list_elem_of_singleton. done.
    + done.
    + intros a Ha. destruct (Hpair a Ha) as (b & Hb & ?). exists b. split; [apply elem_of_app; by left|done].
    + intros l. rewrite Hlcb, Hlk, !fmap_app, !elem_of_app. cbn [fmap list_fmap].
      rewrite list_elem_of_singleton. clear. naive_solver.
Qed.

Lemma give_up_accel_ok :
  hot_of bm L0 (op_id op) = (true, loc) → Z.testbit (reg_usage st) (reg_array_id loc) = true →
  placed_next i placed op (give_up_accel st op loc).
Proof.
  intros Hh Hused. destruct extend_hot1 as (Hlt & Htake & Hlen1 & Hperm). destruct Hinv.
  unfold give_up_accel. rewrite aset_lt by done. cbn [mbind outcome_bind].
  eexists _, C, (H1 ++ [(op, loc)]), H2; split; [done|].
  split; cbn [h_txn set_accel set_hot1 cold_ops hot_ops_pass1 hot_ops_pass2 hot_reorder_buf cold_p hot_p1 hot_p2
    h_layout reg_usage reg_usage_2 n_pass2_ops do_accel locks_check cold1_v cold1_i cold2_v cold2_i];
    rewrite ?length_insert; try done.
  - by apply hot_snoc.
  - intros r. rewrite hi_usage0, fmap_app, elem_of_app. cbn [fmap list_fmap].
    rewrite list_elem_of_singleton. rewrite hi_usage0 in Hused. naive_solver.
  - intros Hmp r Hr. destruct (hi_buf0 Hmp r Hr) as (j & pr & ? & ? & ?).
    exists j, pr. split_and!; [done|by apply lookup_app_l_Some|done].
Qed.

(** What the two ways of filling the second pass have in common: the register
    [reg_array_id loc] of slot [j] of the first pass gets a second operation. *)
Record pass2_filled (j : nat) (t : Txn) (H1' H2' : list (OP * TupleLocation)) : Prop := {
  pf_kept : kept t;
  pf_cold : cold_ops t = cold_ops (h_txn st);
  pf_accel : do_accel t = do_accel (h_txn st);
  pf_locks : locks_check t = locks_check (h_txn st);
  pf_len_1 : length (hot_ops_pass1 t) = N_OPS;
  pf_len_2 : length (hot_ops_pass2 t) = MAX_OPS_PASS2_ACCEL;
  pf_hot1 : take (hot_p1 st) (hot_ops_pass1 t) = H1' ∧ length H1' = hot_p1 st;
  pf_hot2 : take (S (hot_p2 st)) (hot_ops_pass2 t) = H2' ∧ length H2' = S (hot_p2 st);
  pf_tail2 : drop (S (hot_p2 st)) (hot_ops_pass2 t) = drop (S (hot_p2 st)) (hot_ops_pass2 (h_txn st));
  pf_perm : H1' ++ H2' ≡ₚ (H1 ++ H2) ++ [(op, loc)];
  pf_regs1 : reg_of <$> H1' = reg_of <$> H1;
  pf_regs2 : reg_of <$> H2' = (reg_of <$> H2) ++ [reg_array_id loc];
  pf_other : ∀ j', j' ≠ j → H1' !! j' = H1 !! j';
  pf_old : ∀ a, a ∈ H2 → a ∈ H2';
  pf_pair : ∀ a, a ∈ H2' → a ∉ H2 → ∃ b, b ∈ H1' ∧ reg_of b = reg_of a
     ∧ total_order_gt (dist_freq b.2) (op_id b.1) (dist_freq a.2) (op_id a.1)
       || bool_decide (dist_freq b.2 = dist_freq a.2 ∧ op_id b.1 = op_id a.1) = true;
}.

(** [total_order_gt] is total up to equal pairs. *)
Lemma total_order_total f1 k1 f2 k2 :
  total_order_gt f1 k1 f2 k2 = false →
  total_order_gt f2 k2 f1 k1 || bool_decide (f2 = f1 ∧ k2 = k1) = true.
Proof.
  unfold total_order_gt. repeat case_bool_decide; rewrite ?orb_true_iff, ?orb_true_r; try done;
    rewrite ?Z.ltb_ge, ?Z.ltb_lt, ?orb_false_r; intros; rewrite ?Z.ltb_lt; try lia.
  all: left; lia.
Qed.

Lemma pass2_fill j other :
  H1 !! j = Some other → reg_array_id other.2 = reg_array_id loc → (hot_p2 st < MAX_OPS_PASS2_ACCEL)%nat →
  ∃ t H1' H2',
    (if total_order_gt (dist_freq other.2) (op_id other.1) (dist_freq loc) (op_id op) then
       hot2 ← aset (hot_ops_pass2 (h_txn st)) (hot_p2 st) (op, loc);
       Ok (set_hot2 hot2 (h_txn st))
     else
       hot2 ← aset (hot_ops_pass2 (h_txn st)) (hot_p2 st) other;
       hot1 ← aset (hot_ops_pass1 (h_txn st)) j (op, loc);
       Ok (set_hot1 hot1 (set_hot2 hot2 (h_txn st)))) = Ok t
    ∧ pass2_filled j t H1' H2'.
Proof.
  intros Hj Hreg Hp2. pose proof (lookup_lt_Some _ _ _ Hj) as Hjl. destruct Hinv.
  destruct hi_hot3 as [HH1 HH1l], hi_hot4 as [HH2 HH2l].
  assert (other ∈ H1) as Hin by by eapply list_elem_of_lookup_2.
  assert (j < length (hot_ops_pass1 (h_txn st)))%nat as Hjl'.
  { rewrite <-HH1, length_take in Hjl. lia. }
  destruct (total_order_gt _ _ _ _) eqn:Egt.
  - rewrite aset_lt by lia. eexists _, H1, (H2 ++ [(op, loc)]). split; [done|].
    split; cbn [set_hot2 cold_ops do_accel locks_check hot_ops_pass1 hot_ops_pass2]; rewrite ?length_insert; try done.
    + rewrite take_insert_end, HH2 by lia. rewrite length_app. simpl. split; [done|lia].
    + by rewrite drop_insert_lt by lia.
    + by rewrite (assoc_L (++)).
    + by rewrite fmap_app.
    + intros a Ha. apply elem_of_app. by left.
    + intros a [?| ->%list_elem_of_singleton]%elem_of_app Hn; [done|]. exists other.
      split_and!; [done..|]. cbn [fst snd]. by rewrite Egt.
  - rewrite aset_lt by lia. cbn [mbind outcome_bind].
    rewrite aset_lt by lia. eexists _, (<[j := (op, loc)]> H1), (H2 ++ [other]). split; [done|].
    split; cbn [set_hot1 set_hot2 cold_ops do_accel locks_check hot_ops_pass1 hot_ops_pass2];
      rewrite ?length_insert; try done.
    + rewrite take_insert_lt, HH1 by lia. done.
    + rewrite take_insert_end, HH2 by lia. rewrite length_app. simpl. split; [done|lia].
    + by rewrite drop_insert_lt by lia.
    + rewrite insert_take_drop by done. rewrite <-(take_drop_middle H1 j other Hj) at 3. solve_Permutation.
    + rewrite list_fmap_insert. apply list_insert_id. by rewrite list_lookup_fmap, Hj; cbn; f_equal.
    + rewrite fmap_app. cbn. by rewrite Hreg.
    + intros j' Hne. by rewrite list_lookup_insert_ne.
    + intros a Ha. apply elem_of_app. by left.
    + intros a [?| ->%list_elem_of_singleton]%elem_of_app Hn; [done|]. exists (op, loc).
      split_and!; [|done|by apply total_order_total].
      apply (list_elem_of_lookup_2 _ j). by apply list_lookup_insert_eq.
Qed.

Lemma take_pass2_ok :
  hot_of bm L0 (op_id op) = (true, loc) → Z.testbit (reg_usage st) (reg_array_id loc) = true →
  Z.testbit (reg_usage_2 st) (reg_array_id loc) = false → MAX_PASSES_ACCEL bm = 2 →
  (n_pass2_ops st < MAX_OPS_PASS2_ACCEL)%nat →
  placed_next i placed op (take_pass2 st op loc).
Proof.
  intros Hh Hused Hfree Hmp Hn. destruct (new_hot Hh) as [Hreg Hlock].
  destruct (hi_buf _ _ _ _ _ _ Hinv ltac:(lia) _ Hused) as (j & other & Hbj & Hj & Hoj).
  rewrite (hi_n2 _ _ _ _ _ _ Hinv) in Hn.
  destruct (pass2_fill j other Hj Hoj Hn) as (t & H1' & H2' & Ht & Hf).
  destruct Hinv, Hf.
  assert (∀ pr, pr ∈ H1' ++ H2' ↔ pr ∈ H1 ++ H2 ∨ pr = (op, loc)) as Hel.
  { intros pr. rewrite pf_perm0, (elem_of_app (H1 ++ H2)), list_elem_of_singleton. done. }
  unfold take_pass2. rewrite bitset_set_ok by done. cbn [mbind outcome_bind].
  rewrite (proj2 (aget_ok _ _ _) Hbj). cbn [mbind outcome_bind].
  assert (hot_ops_pass1 (h_txn st) !! j = Some other) as Hoth.
  { destruct hi_hot3 as [HH1 HH1l]. rewrite <-HH1 in Hj. by apply lookup_take_Some in Hj as [? _]. }
  rewrite (proj2 (aget_ok _ _ _) Hoth). cbn [mbind outcome_bind].
  rewrite Ht. cbn [mbind outcome_bind]. rewrite pf_locks0.
  destruct (note_lock_ok (locks_check (h_txn st)) (lock_pos loc) Hlock) as (lc & -> & Hlcb).
  destruct (note_lock_ok (locks_acquire t) (lock_pos loc) Hlock) as (la & -> & _).
  cbn [mbind outcome_bind]. eexists _, C, H1', H2'; split; [done|].
  split; cbn [h_txn set_locks cold_ops hot_ops_pass1 hot_ops_pass2 hot_reorder_buf cold_p hot_p1 hot_p2
    h_layout reg_usage reg_usage_2 n_pass2_ops do_accel locks_check cold1_v cold1_i cold2_v cold2_i];
    rewrite ?pf_cold0, ?pf_accel0; try done.
  - rewrite pf_tail3, <-Nat.add_1_r, <-drop_drop. by apply Forall_drop.
  - rewrite <-fmap_app, pf_perm0, <-hi_perm0, !fmap_app. cbn [fmap list_fmap]. solve_Permutation.
  - apply Forall_forall. intros pr Hpr. apply Hel in Hpr as [Hpr| ->]; [|done].
    rewrite Forall_forall in hi_hot0. by apply hi_hot0.
  - intros r. by rewrite pf_regs3, hi_usage0.
  - intros r. rewrite pf_regs4, setbit_true, hi_usage3, elem_of_app, list_elem_of_singleton by lia. tauto.
  - intros Hmp' r Hr. destruct (hi_buf0 Hmp' r Hr) as (j' & pr & ? & Hj' & ?).
    destruct (decide (j' = j)) as [->|Hne]; [|exists j', pr; by rewrite pf_other0].
    assert ((reg_of <$> H1') !! j = Some r) as Hr'.
    { rewrite pf_regs3, list_lookup_fmap, Hj'. by cbn; f_equal. }
    rewrite list_lookup_fmap in Hr'. destruct (H1' !! j) as [pr'|] eqn:E; [|done].
    exists j, pr'. split_and!; [done..|]. by injection Hr'.
  - by rewrite hi_n3.
  - intros Hacc. destruct (hi_accel0 Hacc) as (Hn1 & Hn2 & Hpair & Hlk). split_and!.
    + by rewrite pf_regs3.
    + rewrite pf_regs4. apply NoDup_app. split_and!; [done| |apply NoDup_singleton].
      intros r Hr ->%list_elem_of_singleton. rewrite <-hi_usage3, Hfree in Hr. done.
    + intros a Ha. destruct (decide (a ∈ H2)) as [Ha2|]; [|by apply pf_pair0].
      destruct (Hpair a Ha2) as (b & Hb & Hrb & Hob).
      destruct (decide (b ∈ H1')) as [?|Hnb]; [by exists b|].
      (* [b] moved to the second pass: then [a] is on another register than the new operation *)
      exfalso. apply Hnb. apply (list_elem_of_lookup) in Hb as [jb Hjb].
      destruct (decide (jb = j)) as [->|Hnj].
      * rewrite Hj in Hjb. injection Hjb as <-.
        assert (reg_array_id loc ∈ reg_of <$> H2) as Hx.
        { rewrite <-Hoj, Hrb. by apply (list_elem_of_fmap_2 reg_of). }
        rewrite <-hi_usage3, Hfree in Hx. done.
      * apply (list_elem_of_lookup_2 _ jb). by rewrite pf_other0.
    + intros l. rewrite Hlcb, Hlk. rewrite !list_elem_of_fmap. setoid_rewrite Hel. clear. split.
      * intros [[-> ?]|(? & y & -> & ?)]; (split; [done|]); [by exists (op, loc); auto|by exists y; auto].
      * intros (? & y & -> & [?| ->]); [right|by left]. split; [done|]. by exists y.
Qed.

(** The dispatch of an operation, in the accelerated build. *)
Lemma place_ok hot :
  ORIG_MODE bm = false → hot_of bm L0 (op_id op) = (hot, loc) →
  placed_next i placed op (place bm st op hot loc).
Proof.
  intros Horig Hh. unfold place. destruct hot; [|by apply take_cold_ok].
  destruct (new_hot Hh) as [Hreg _]. rewrite (bitset_test_ok N_REGS (reg_usage st)) by done. cbn [mbind outcome_bind].
  destruct (Z.testbit (reg_usage st) (reg_array_id loc)) eqn:Eu; cbn [negb]; [|by apply take_pass1_ok].
  rewrite Horig. destruct (Z.eqb_spec (MAX_PASSES_ACCEL bm) 2) as [Hmp|Hmp]; [|by apply give_up_accel_ok].
  rewrite (bitset_test_ok N_REGS (reg_usage_2 st)) by done. cbn [mbind outcome_bind].
  destruct (Z.testbit (reg_usage_2 st) (reg_array_id loc)) eqn:Eu2; cbn [negb andb];
    [by apply give_up_accel_ok|].
  case_bool_decide; [by apply take_pass2_ok|by apply give_up_accel_ok].
Qed.
End step.

Context (Hp : partition_size p ≠ 0) (Horig : ORIG_MODE bm = false) (Hlo : length orig = N_OPS).

Lemma ehc_step_ok i C H1 H2 st o :
  ehc_inv i (relocate p <$> take i orig) C H1 H2 st → orig !! i = Some o →
  placed_next (S i) (relocate p <$> take i orig) (relocate p o) (ehc_step bm p st i o).
Proof.
  intros Hinv Hi. pose proof (lookup_lt_Some _ _ _ Hi) as Hilt.
  pose proof (hi_count _ _ _ _ _ _ Hinv) as Hcnt.
  rewrite length_fmap, length_take in Hcnt.
  unfold ehc_step. rewrite location_loc_of by done. cbn [mbind outcome_bind].
  fold (relocate p o). rewrite aset_lt by (rewrite (hi_len_c _ _ _ _ _ _ Hinv); lia).
  cbn [mbind outcome_bind].
  pose proof (hi_layout _ _ _ _ _ _ Hinv (op_id (relocate p o))) as Hq. unfold hot_of in Hq at 1.
  pose proof (get_location_stable bm (h_layout st) (op_id (relocate p o))) as Hst.
  destruct (get_location bm (h_layout st) (op_id (relocate p o))) as [[hot loc] L'] eqn:EL.
  cbn [fst snd] in Hq, Hst.
  eapply place_ok; [|rewrite length_fmap, length_take; lia|done|done].
  instantiate (1 := H2). instantiate (1 := H1). instantiate (1 := C).
  destruct Hinv. split; cbn [h_txn set_cold cold_ops hot_ops_pass1 hot_ops_pass2 hot_reorder_buf cold_p hot_p1
    hot_p2 h_layout reg_usage reg_usage_2 n_pass2_ops do_accel locks_check cold1_v cold1_i cold2_v cold2_i];
    rewrite ?length_insert; try done.
  - rewrite take_insert_ge by lia. done.
  - rewrite drop_insert_lt by lia. rewrite <-(Nat.add_1_r i), <-!drop_drop. by rewrite hi_rest0.
  - intros k. by rewrite Hst.
Qed.

Lemma ehc_loop_ok n i C H1 H2 st :
  Forall (λ o, op_mode o ≠ INVALID) orig → (i + n = N_OPS)%nat →
  ehc_inv i (relocate p <$> take i orig) C H1 H2 st →
  ∃ st' C' H1' H2', ehc_loop bm p n i st = Ok st' ∧ ehc_inv N_OPS (relocate p <$> orig) C' H1' H2' st'.
Proof.
  intros Hval. revert i C H1 H2 st. induction n as [|n IH]; intros i C H1 H2 st Hin Hinv; cbn [ehc_loop].
  - rewrite firstn_all2 in Hinv by lia. replace i with N_OPS in Hinv by lia. eauto 10.
  - destruct (lookup_lt_is_Some_2 orig i) as [o Ho]; [lia|].
    assert (cold_ops (h_txn st) !! i = Some o) as Hco.
    { pose proof (hi_rest _ _ _ _ _ _ Hinv) as Hr. apply (f_equal (lookup 0%nat)) in Hr.
      rewrite !lookup_drop, Nat.add_0_r in Hr. by rewrite Hr. }
    rewrite (proj2 (aget_ok _ _ _) Hco). cbn [mbind outcome_bind].
    rewrite Forall_forall in Hval. rewrite bool_decide_false by (apply Hval; by eapply list_elem_of_lookup_2).
    destruct (ehc_step_ok i C H1 H2 st o Hinv Ho) as (st' & C' & H1' & H2' & -> & Hinv').
    cbn [mbind outcome_bind]. eapply (IH (S i)); [lia|].
    rewrite (take_S_r _ _ o Ho), fmap_app. exact Hinv'.
Qed.
End extract.

(** ** The arrays after the loop *)

(** The cold operations a loop over [cold_ops] visits. *)
Fixpoint active_cold (ops : list OP) : list OP :=
  match ops with
  | [] => []
  | o :: ops' => if bool_decide (op_mode o = INVALID) then [] else o :: active_cold ops'
  end.

Lemma active_hot_prefix (H r : list (OP * TupleLocation)) :
  Forall (λ pr, op_mode pr.1 ≠ INVALID) H → (∀ pr, r !! 0%nat = Some pr → op_mode pr.1 = INVALID) →
  active_hot (H ++ r) = H.
Proof.
  intros HH Hr. induction HH as [|pr H Hpr _ IH]; simpl.
  - destruct r as [|pr r]; [done|]. simpl. by rewrite bool_decide_true by (by apply Hr).
  - rewrite bool_decide_false by done. by rewrite IH.
Qed.

Lemma active_cold_prefix (C r : list OP) :
  Forall (λ o, op_mode o ≠ INVALID) C → (∀ o, r !! 0%nat = Some o → op_mode o = INVALID) →
  active_cold (C ++ r) = C.
Proof.
  intros HC Hr. induction HC as [|o C Ho _ IH]; simpl.
  - destruct r as [|o r]; [done|]. simpl. by rewrite bool_decide_true by (by apply Hr).
  - rewrite bool_decide_false by done. by rewrite IH.
Qed.

Lemma active_hot_all H : Forall (λ pr : OP * TupleLocation, op_mode pr.1 ≠ INVALID) H → active_hot H = H.
Proof. intros. rewrite <-(app_nil_r H) at 1. by apply active_hot_prefix. Qed.

Lemma active_cold_all C : Forall (λ o, op_mode o ≠ INVALID) C → active_cold C = C.
Proof. intros. rewrite <-(app_nil_r C) at 1. by apply active_cold_prefix. Qed.

(** Stopping an array at the end of its prefix. *)
Lemma stop_hot_ok l n H :
  take n l = H → length H = n → (n < length l)%nat →
  ∃ l', stop_hot l n = Ok l' ∧ length l' = length l
    ∧ (Forall (λ pr, op_mode pr.1 ≠ INVALID) H → active_hot l' = H).
Proof.
  intros Ht Hn Hl. unfold stop_hot. destruct (aget_lt l n Hl) as (pr & -> & Hpr).
  cbn [mbind outcome_bind]. rewrite aset_lt by done. eexists; split; [done|]. rewrite length_insert.
  split; [done|]. intros Hv. rewrite insert_take_drop by done. rewrite Ht. apply active_hot_prefix; [done|].
  by intros ? [= <-].
Qed.

Lemma stop_cold_ok l n C :
  take n l = C → length C = n → (n < length l)%nat →
  ∃ l', stop_cold l n = Ok l' ∧ length l' = length l
    ∧ (∀ j o, C !! j = Some o → l' !! j = Some o)
    ∧ (Forall (λ o, op_mode o ≠ INVALID) C → active_cold l' = C).
Proof.
  intros Ht Hn Hl. unfold stop_cold. destruct (aget_lt l n Hl) as (o & -> & Ho).
  cbn [mbind outcome_bind]. rewrite aset_lt by done. eexists; split; [done|]. rewrite length_insert.
  split; [done|]. rewrite insert_take_drop by done. rewrite Ht. split.
  - intros j o' Hj. by apply lookup_app_l_Some.
  - intros Hv. apply active_cold_prefix; [done|]. by intros ? [= <-].
Qed.

Lemma copy_ops_ok A B n src :
  (n ≤ length src)%nat → (n ≤ length B)%nat →
  copy_ops (A ++ B) (length A) n src = Ok (A ++ (take n src).*1 ++ drop n B).
Proof.
  intros Hs HB. unfold copy_ops. induction n as [|n IH]; [done|].
  rewrite seq_S, ofold_app, IH, Nat.add_0_l by lia. cbn [mbind outcome_bind ofold].
  destruct (aget_lt src n) as (pr & -> & Hpr); [lia|]. cbn [mbind outcome_bind].
  assert (length (take n src).*1 = n) as Hl by (rewrite length_fmap, length_take; lia).
  rewrite aset_lt by (rewrite !length_app, length_drop; lia). cbn [mbind outcome_bind]. f_equal.
  rewrite insert_app_r_alt by lia. f_equal.
  rewrite insert_app_r_alt by lia. rewrite (take_S_r _ _ pr Hpr), fmap_app, <-(assoc_L (++)). f_equal.
  replace (n + length A - length A - length (take n src).*1)%nat with 0%nat by lia.
  destruct (lookup_lt_is_Some_2 B n) as [b Hb]; [lia|]. by rewrite (drop_S B b n Hb).
Qed.

(** ** The result *)

(** What [extract_hot_cold] leaves in a transaction whose operations are
    [ops]. *)
Record extracted (bm : build) (p : PartitionInfo) (L : DeclusteredLayout) (ops : list OP) (lid : Z)
    (t : Txn) (C : list OP) (H1 H2 : list (OP * TupleLocation)) : Prop := {
  ex_cold : active_cold (cold_ops t) = C;
  ex_hot1 : active_hot (hot_ops_pass1 t) = H1;
  ex_hot2 : active_hot (hot_ops_pass2 t) = H2;
  ex_len : length (cold_ops t) = N_OPS ∧ length (hot_ops_pass1 t) = N_OPS
           ∧ length (hot_ops_pass2 t) = MAX_OPS_PASS2_ACCEL;
  ex_perm : C ++ H1.*1 ++ H2.*1 ≡ₚ relocate p <$> ops;
  ex_init : init_done t = true;
  ex_kept : loader_id t = lid ∧ n_aborts t = 0;
  ex_fallback : do_accel t = false → H1 = [] ∧ H2 = [] ∧ hottest_cold_i1 t = None ∧ hottest_cold_i2 t = None;
  ex_accel : do_accel t = true →
    Forall (λ o, (hot_of bm L (op_id o)).1 = false) C
    ∧ Forall (λ pr, hot_of bm L (op_id pr.1) = (true, pr.2)) (H1 ++ H2)
    ∧ NoDup (reg_of <$> H1) ∧ NoDup (reg_of <$> H2)
    ∧ (∀ l, Z.testbit (locks_check t) l = true ↔
         l ≠ NO_LOCK ∧ l ∈ (λ pr : OP * TupleLocation, lock_pos pr.2) <$> H1 ++ H2);
  ex_pair : do_accel t = true → ∀ a, a ∈ H2 → ∃ b, b ∈ H1 ∧ reg_of b = reg_of a
    ∧ total_order_gt (dist_freq b.2) (op_id b.1) (dist_freq a.2) (op_id a.1)
      || bool_decide (dist_freq b.2 = dist_freq a.2 ∧ op_id b.1 = op_id a.1) = true;
  ex_one : MAX_PASSES_ACCEL bm ≠ 2 → H2 = [];
  ex_first : do_accel t = true →
    match hottest_cold_i1 t with
    | None => Forall (λ o, dist_freq (hot_of bm L (op_id o)).2 = 0) C
    | Some j => ∃ o, C !! j = Some o ∧ 0 < dist_freq (hot_of bm L (op_id o)).2
                ∧ Forall (λ o', dist_freq (hot_of bm L (op_id o')).2 ≤ dist_freq (hot_of bm L (op_id o)).2) C
    end;
  ex_second : do_accel t = true → ∀ j, hottest_cold_i2 t = Some j →
    hottest_cold_i1 t ≠ Some j ∧ ∃ o, C !! j = Some o ∧ 0 < dist_freq (hot_of bm L (op_id o)).2;
}.

Section result.
Context (bm : build) (p : PartitionInfo) (L : DeclusteredLayout) (ops : list OP) (lid : Z).
Context (Horig : ORIG_MODE bm = false) (Hp : partition_size p ≠ 0) (HL : locs_ok bm L)
        (Hlen : length ops = N_OPS) (Hval : Forall (λ o, op_mode o ≠ INVALID) ops).

Lemma ehc_inv_init :
  ehc_inv bm L ops lid 0 (relocate p <$> take 0 ops) [] [] []
    (MkEhc (set_accel true (Txn_init ops lid)) L None 0 None 0 0 0 0 0 0 (replicate N_REGS 0%nat) 0).
Proof.
  split; cbn [h_txn set_accel Txn_init cold_ops hot_ops_pass1 hot_ops_pass2 hot_reorder_buf cold_p hot_p1
    hot_p2 h_layout reg_usage reg_usage_2 n_pass2_ops do_accel locks_check cold1_v cold1_i cold2_v cold2_i];
    rewrite ?length_replicate; try done.
  - rewrite drop_0. by apply Forall_replicate.
  - intros r. rewrite Z.testbit_0_l. split; [done|]. by intros ?%not_elem_of_nil.
  - intros r. rewrite Z.testbit_0_l. split; [done|]. by intros ?%not_elem_of_nil.
  - by intros _ r; rewrite Z.testbit_0_l.
  - intros _. split_and!; try apply NoDup_nil_2; try done.
    + by intros a ?%not_elem_of_nil.
    + intros l. rewrite Z.testbit_0_l. split; [done|]. by intros [_ ?%not_elem_of_nil].
  - split; [by left|done].
  - by left.
Qed.

(** The operations placed are valid, in each of the three arrays. *)
Lemma placed_valid C H1 H2 :
  C ++ H1.*1 ++ H2.*1 ≡ₚ relocate p <$> ops →
  Forall (λ o, op_mode o ≠ INVALID) C ∧ Forall (λ pr : OP * TupleLocation, op_mode pr.1 ≠ INVALID) H1
  ∧ Forall (λ pr : OP * TupleLocation, op_mode pr.1 ≠ INVALID) H2.
Proof.
  intros Hperm.
  assert (Forall (λ o, op_mode o ≠ INVALID) (C ++ H1.*1 ++ H2.*1)) as HF.
  { rewrite Hperm. apply Forall_fmap. eapply Forall_impl; [done|]. by intros []. }
  rewrite !Forall_app, !Forall_fmap in HF. done.
Qed.

Section ending.
Context (st : ehc) (C : list OP) (H1 H2 : list (OP * TupleLocation)).
Context (Hinv : ehc_inv bm L ops lid N_OPS (relocate p <$> ops) C H1 H2 st).

Lemma ehc_restore_ok :
  do_accel (h_txn st) = false →
  ∃ t, ehc_restore st = Ok t ∧ extracted bm p L ops lid (set_init_done true t) (C ++ H1.*1 ++ H2.*1) [] [].
Proof.
  intros Hacc. pose proof (hi_count _ _ _ _ _ _ _ _ _ _ Hinv) as Hcnt. rewrite length_fmap, Hlen in Hcnt.
  destruct (placed_valid C H1 H2 (hi_perm _ _ _ _ _ _ _ _ _ _ Hinv)) as (HvC & Hv1 & Hv2).
  destruct Hinv. destruct hi_cold0 as [HC HCl], hi_hot3 as [HH1 HH1l], hi_hot4 as [HH2 HH2l].
  unfold ehc_restore.
  rewrite <-(take_drop (cold_p st) (cold_ops (h_txn st))), HC, <-HCl.
  assert (length (drop (length C) (cold_ops (h_txn st))) = hot_p1 st + hot_p2 st)%nat as Hdl.
  { rewrite length_drop. lia. }
  rewrite copy_ops_ok by (unfold MAX_OPS_PASS2_ACCEL, N_OPS in *; lia). cbn [mbind outcome_bind].
  rewrite HH1, drop_drop, (assoc_L (++)).
  replace (length C + hot_p1 st)%nat with (length (C ++ H1.*1)) by (rewrite length_app, length_fmap; lia).
  rewrite copy_ops_ok by (rewrite ?length_drop, ?length_app, ?length_fmap;
    unfold MAX_OPS_PASS2_ACCEL, N_OPS in *; lia).
  cbn [mbind outcome_bind].
  destruct (stop_hot_ok (hot_ops_pass1 (h_txn st)) 0 []) as (h1 & -> & Hl1 & Ha1);
    [done|done|unfold N_OPS in *; lia|]. cbn [mbind outcome_bind].
  destruct (stop_hot_ok (hot_ops_pass2 (h_txn st)) 0 []) as (h2 & -> & Hl2 & Ha2);
    [done|done|unfold MAX_OPS_PASS2_ACCEL in *; lia|]. cbn [mbind outcome_bind].
  rewrite HH2, drop_ge by (rewrite ?length_drop, ?length_app, ?length_fmap; lia).
  rewrite app_nil_r, <-(assoc_L (++)).
  eexists; split; [done|].
  split; cbn [set_init_done set_cold set_hot1 set_hot2 cold_ops hot_ops_pass1 hot_ops_pass2 do_accel init_done
    hottest_cold_i1 hottest_cold_i2]; rewrite ?Hacc; try done; auto.
  - apply active_cold_all.
    rewrite !Forall_app, !Forall_fmap. done.
  - rewrite Hl1, Hl2. split_and!; [|done..]. rewrite !length_app, !length_fmap. lia.
  - by rewrite !app_nil_r.
  - by destruct hi_kept0 as (? & ? & ? & ?).
  - by destruct hi_kept0 as (? & ? & ? & ?).
Qed.

Lemma ehc_finish_ok :
  MAX_PASSES_ACCEL bm = 1 ∨ MAX_PASSES_ACCEL bm = 2 → do_accel (h_txn st) = true →
  ∃ t, ehc_finish bm st = Ok t ∧ extracted bm p L ops lid (set_init_done true t) C H1 H2.
Proof.
  intros Hmp Hacc. pose proof (hi_count _ _ _ _ _ _ _ _ _ _ Hinv) as Hcnt. rewrite length_fmap, Hlen in Hcnt.
  destruct (placed_valid C H1 H2 (hi_perm _ _ _ _ _ _ _ _ _ _ Hinv)) as (HvC & Hv1 & Hv2).
  destruct Hinv. destruct hi_cold0 as [HC HCl], hi_hot3 as [HH1 HH1l], hi_hot4 as [HH2 HH2l].
  unfold ehc_finish.
  assert (∃ c, (if decide (cold_p st < N_OPS)%nat then stop_cold (cold_ops (h_txn st)) (cold_p st)
                else Ok (cold_ops (h_txn st))) = Ok c ∧ length c = N_OPS ∧ active_cold c = C) as (c & -> & Hlc & Hac).
  { case_decide.
    - destruct (stop_cold_ok (cold_ops (h_txn st)) (cold_p st) C) as (c & ? & ? & _ & ?); eauto; [lia|].
      exists c. split_and!; [done|lia|auto].
    - eexists; split_and!; [done..|]. rewrite firstn_all2 in HC by lia. rewrite HC. by apply active_cold_all. }
  cbn [mbind outcome_bind].
  assert (∃ h, (if decide (hot_p1 st < N_OPS)%nat then stop_hot (hot_ops_pass1 (h_txn st)) (hot_p1 st)
                else Ok (hot_ops_pass1 (h_txn st))) = Ok h ∧ length h = N_OPS ∧ active_hot h = H1) as (h1 & -> & Hl1 & Ha1).
  { case_decide.
    - destruct (stop_hot_ok (hot_ops_pass1 (h_txn st)) (hot_p1 st) H1) as (h & ? & ? & ?); eauto; [lia|].
      exists h. split_and!; [done|lia|auto].
    - eexists; split_and!; [done..|]. rewrite firstn_all2 in HH1 by lia. rewrite HH1. by apply active_hot_all. }
  cbn [mbind outcome_bind].
  assert (active_hot (hot_ops_pass2 (h_txn st)) = H2) as Ha2.
  { rewrite <-(take_drop (hot_p2 st) (hot_ops_pass2 (h_txn st))), HH2. apply active_hot_prefix; [done|].
    intros pr Hpr. rewrite Forall_lookup in hi_tail3. by eapply hi_tail3. }
  assert (∃ h, (if (MAX_PASSES_ACCEL bm =? 2) && bool_decide (hot_p2 st < MAX_OPS_PASS2_ACCEL)%nat
                then stop_hot (hot_ops_pass2 (h_txn st)) (hot_p2 st) else Ok (hot_ops_pass2 (h_txn st))) = Ok h
               ∧ length h = MAX_OPS_PASS2_ACCEL ∧ active_hot h = H2) as (h2 & -> & Hl2 & Ha2').
  { destruct (_ && _) eqn:E; [|eauto]. apply andb_true_iff in E as [_ E%bool_decide_eq_true].
    destruct (stop_hot_ok (hot_ops_pass2 (h_txn st)) (hot_p2 st) H2) as (h & ? & ? & ?); eauto; [lia|].
    exists h. split_and!; [done|lia|auto]. }
  cbn [mbind outcome_bind]. rewrite bool_decide_true, orb_true_r by lia. cbn [assert mbind outcome_bind].
  eexists; split; [done|]. destruct hi_kept0 as (Hf1 & Hf2 & Hlid & Hab).
  destruct (hi_accel0 Hacc) as (Hn1 & Hn2 & Hpair & Hlk). destruct hi_first0 as [Hfst Hmax].
  split; cbn [set_init_done set_hottest set_cold set_hot1 set_hot2 cold_ops hot_ops_pass1 hot_ops_pass2 do_accel
    init_done hottest_cold_i1 hottest_cold_i2 locks_check]; rewrite ?Hacc, ?Hf1, ?Hf2; try done.
  - intros _. destruct Hfst as [[Hv Hi]|(Hv & j & o & -> & Ho & Hfo)].
    + rewrite Hv. simpl. rewrite Forall_forall in *. intros o Ho. specialize (Hmax o Ho).
      pose proof (HL (op_id o)) as (_ & _ & ?). lia.
    + rewrite (proj2 (Z.ltb_lt _ _)) by done. exists o. rewrite Hfo. done.
  - intros _ j. destruct hi_second0 as [[-> _]|(Hv & j2 & o & Hi2 & Ho & Hne & Hfo)]; [done|].
    rewrite (proj2 (Z.ltb_lt 0 (cold2_v st))) by done. rewrite Hi2. intros [= <-]. split.
    + destruct (0 <? cold1_v st); [|done]. congruence.
    + exists o. rewrite Hfo. done.
Qed.
End ending.

Lemma extract_spec :
  MAX_PASSES_ACCEL bm = 1 ∨ MAX_PASSES_ACCEL bm = 2 →
  ∃ t L' C H1 H2, extract_hot_cold bm p (Txn_init ops lid) L = Ok (t, L')
    ∧ extracted bm p L ops lid t C H1 H2 ∧ (∀ k, hot_of bm L' k = hot_of bm L k).
Proof.
  intros Hmp. unfold extract_hot_cold.
  destruct (ehc_loop_ok bm p L ops lid HL Hp Horig Hlen N_OPS 0 [] [] [] _ Hval eq_refl ehc_inv_init)
    as (st & C & H1 & H2 & Hloop & Hinv).
  rewrite Hloop. cbn [mbind outcome_bind].
  destruct (do_accel (h_txn st)) eqn:Eacc; cbn [negb].
  - destruct (ehc_finish_ok st C H1 H2 Hinv Hmp Eacc) as (t & -> & Hex). cbn [mbind outcome_bind].
    eexists _, _, C, H1, H2. split_and!; [done..|apply Hinv].
  - destruct (ehc_restore_ok st C H1 H2 Hinv Eacc) as (t & -> & Hex). cbn [mbind outcome_bind].
    eexists _, _, _, [], []. split_and!; [done..|apply Hinv].
Qed.
End result.

(** C7: in the accelerated build [extract_hot_cold] loses and duplicates no
    operation.  For a fresh transaction of [N_OPS] operations it meets all its
    assertions and bounds; the operations it leaves in the cold and hot arrays
    are together a permutation of the original ones, each with its partition
    filled in.  If it accelerates, the cold array holds exactly keys the layout
    does not place on the switch, the hot arrays keys it does with their
    locations, no pass uses a register twice and the locks to check are those
    of the hot keys; if it does not, everything is back in the cold array. *)
Theorem extract_partitions_ops bm p L ops lid :
  ORIG_MODE bm = false → MAX_PASSES_ACCEL bm = 1 ∨ MAX_PASSES_ACCEL bm = 2 →
  partition_size p ≠ 0 → locs_ok bm L →
  length ops = N_OPS → Forall (λ o, op_mode o ≠ INVALID) ops →
  ∃ t L', extract_hot_cold bm p (Txn_init ops lid) L = Ok (t, L')
    ∧ (∀ k, hot_of bm L' k = hot_of bm L k) ∧ init_done t = true
    ∧ let C := active_cold (cold_ops t) in
      let H1 := active_hot (hot_ops_pass1 t) in
      let H2 := active_hot (hot_ops_pass2 t) in
      C ++ H1.*1 ++ H2.*1 ≡ₚ relocate p <$> ops
      ∧ (do_accel t = false → H1 = [] ∧ H2 = [])
      ∧ (do_accel t = true →
           Forall (λ o, (hot_of bm L (op_id o)).1 = false) C
           ∧ Forall (λ pr, hot_of bm L (op_id pr.1) = (true, pr.2)) (H1 ++ H2)
           ∧ NoDup (reg_of <$> H1) ∧ NoDup (reg_of <$> H2)
           ∧ (∀ l, Z.testbit (locks_check t) l = true ↔
                l ≠ NO_LOCK ∧ l ∈ (λ pr : OP * TupleLocation, lock_pos pr.2) <$> H1 ++ H2)).
Proof.
  intros Ho Hmp Hp HL Hlen Hval.
  destruct (extract_spec bm p L ops lid Ho Hp HL Hlen Hval Hmp) as (t & L' & C & H1 & H2 & Hx & Hex & Hst).
  exists t, L'. destruct Hex. rewrite ex_cold0, ex_hot3, ex_hot4. split_and!; try done. cbv zeta.
  split_and!; try done. intros Hf. by destruct (ex_fallback0 Hf) as (-> & -> & _).
Qed.

(** Of an accelerated transaction, [hottest_cold_i1] is the position of a
    cold operation whose key is accessed most, or unset when no cold key is
    ever accessed; [hottest_cold_i2], when set, is the position of another
    cold operation with an accessed key. *)
Theorem extract_tracks_hottest bm p L ops lid t L' :
  ORIG_MODE bm = false → MAX_PASSES_ACCEL bm = 1 ∨ MAX_PASSES_ACCEL bm = 2 →
  partition_size p ≠ 0 → locs_ok bm L →
  length ops = N_OPS → Forall (λ o, op_mode o ≠ INVALID) ops →
  extract_hot_cold bm p (Txn_init ops lid) L = Ok (t, L') → do_accel t = true →
  let C := active_cold (cold_ops t) in
  let freq o := dist_freq (hot_of bm L (op_id o)).2 in
  match hottest_cold_i1 t with
  | None => Forall (λ o, freq o = 0) C
  | Some j => ∃ o, C !! j = Some o ∧ 0 < freq o ∧ Forall (λ o', freq o' ≤ freq o) C
  end
  ∧ ∀ j, hottest_cold_i2 t = Some j → hottest_cold_i1 t ≠ Some j ∧ ∃ o, C !! j = Some o ∧ 0 < freq o.
Proof.
  intros Ho Hmp Hp HL Hlen Hval Ht Hacc.
  destruct (extract_spec bm p L ops lid Ho Hp HL Hlen Hval Hmp) as (t1 & L1 & C & H1 & H2 & Hx & Hex & Hst).
  rewrite Ht in Hx. injection Hx as -> ->. destruct Hex. rewrite ex_cold0. cbv zeta. split; [by apply ex_first0|by apply ex_second0].
Qed.

(** With two passes, the operation moved to the second pass is never the
    colder one.  For every operation of the second pass the first pass holds
    an operation on the same register whose key is accessed at most as often:
    [total_order_gt] is true when its first argument is the smaller. *)
Theorem pass2_gets_hotter bm p L ops lid t L' a :
  ORIG_MODE bm = false → MAX_PASSES_ACCEL bm = 2 → partition_size p ≠ 0 → locs_ok bm L →
  length ops = N_OPS → Forall (λ o, op_mode o ≠ INVALID) ops →
  extract_hot_cold bm p (Txn_init ops lid) L = Ok (t, L') → do_accel t = true →
  a ∈ active_hot (hot_ops_pass2 t) →
  ∃ b, b ∈ active_hot (hot_ops_pass1 t) ∧ reg_array_id b.2 = reg_array_id a.2
       ∧ dist_freq b.2 ≤ dist_freq a.2.
Proof.
  intros Ho Hmp Hp HL Hlen Hval Ht Hacc Ha.
  destruct (extract_spec bm p L ops lid Ho Hp HL Hlen Hval (or_intror Hmp)) as (t1 & L1 & C & H1 & H2 & Hx & Hex & _).
  rewrite Ht in Hx. injection Hx as -> ->. destruct Hex. rewrite ex_hot4 in Ha. rewrite ex_hot3.
  destruct (ex_pair0 Hacc a Ha) as (b & Hb & Hr & Hf). exists b. split_and!; [done..|].
  apply orb_true_iff in Hf as [Hf|Hf%bool_decide_eq_true]; [|lia].
  unfold total_order_gt in Hf. case_bool_decide; [apply Z.ltb_lt in Hf|]; lia.
Qed.

(** ** Witness data: a small layout *)

Definition loc_fine (tl : TupleLocation) : Prop :=
  0 ≤ reg_array_id tl < Z.of_nat N_REGS
  ∧ (lock_pos tl = NO_LOCK ∨ 0 ≤ lock_pos tl < Z.of_nat N_SW_LOCKS) ∧ 0 ≤ dist_freq tl.

Lemma locs_ok_map bm L : map_Forall (λ _, loc_fine) (virt_map L) → locs_ok bm L.
Proof.
  intros HF k. unfold hot_of, get_location, virt_get. destruct (virt_map L !! k) as [tl|] eqn:E.
  - apply (HF k tl E).
  - cbn. split_and!; try done. by right.
Qed.

Definition one_slot : build := Build false true true 1 1.
Definition two_slots : build := Build false true true 2 2.

(** Keys 0 to 7 lead registers 0 to 7; keys 10 to 13 follow on registers 0 to 3. *)
Definition small_layout : DeclusteredLayout :=
  MkLayout 0 (list_to_map
    (((λ k, (k, MkTupleLoc k 0 (100 - k) NO_LOCK)) <$> seqZ 0 8)
     ++ ((λ k, (10 + k, MkTupleLoc k 1 (50 - k) k)) <$> seqZ 0 4))) [] [].

Definition write_op (k : Z) : OP := MkOP k inhabitant WRITE (k + 1).
Definition half_hot : list OP := write_op <$> [0; 10; 1; 11; 2; 13; 3; 12].
Definition shared_reg : list OP := write_op <$> [0; 1; 2; 3; 10; 4; 5; 6].
Definition half_part : PartitionInfo := MkPart 20 10 0 (MkNode 0) (MkNode 9).

Lemma small_locs bm : locs_ok bm small_layout.
Proof.
  apply locs_ok_map. unfold loc_fine. apply (bool_decide_unpack _). by vm_compute.
Qed.

Lemma half_hot_valid : Forall (λ o, op_mode o ≠ INVALID) half_hot.
Proof. by repeat constructor. Qed.

Lemma extract_partitions_ops_witness :
  ∃ t L', extract_hot_cold one_slot half_part (Txn_init half_hot 4) small_layout = Ok (t, L')
    ∧ do_accel t = true
    ∧ active_cold (cold_ops t) ++ (active_hot (hot_ops_pass1 t)).*1 ++ (active_hot (hot_ops_pass2 t)).*1
      ≡ₚ relocate half_part <$> half_hot.
Proof.
  destruct (extract_partitions_ops one_slot half_part small_layout half_hot 4) as (t & L' & Ht & _ & _ & Hp & _);
    [done|by left|done|apply small_locs|done|apply half_hot_valid|].
  exists t, L'. split; [done|]. split; [|done]. clear Hp. vm_compute in Ht. by injection Ht as <- _.
Defined.

Lemma extract_tracks_hottest_witness :
  ∃ t L', extract_hot_cold one_slot half_part (Txn_init half_hot 4) small_layout = Ok (t, L')
    ∧ hottest_cold_i1 t = Some 0%nat ∧ hottest_cold_i2 t = Some 1%nat
    ∧ hottest_cold_i1 t ≠ Some 1%nat.
Proof.
  destruct (extract_hot_cold one_slot half_part (Txn_init half_hot 4) small_layout) as [[t L']|] eqn:E;
    [|by vm_compute in E].
  assert (do_accel t = true ∧ hottest_cold_i1 t = Some 0%nat ∧ hottest_cold_i2 t = Some 1%nat) as (Ha & H1 & H2)
    by (vm_compute in E; by injection E as <- _).
  exists t, L'. split_and!; [done..|].
  refine (proj1 (proj2 (extract_tracks_hottest one_slot half_part small_layout half_hot 4 t L'
    eq_refl (or_introl eq_refl) _ (small_locs _) eq_refl half_hot_valid E Ha) 1%nat H2)). done.
Defined.

Lemma pass2_gets_hotter_witness :
  ∃ t L', extract_hot_cold two_slots half_part (Txn_init shared_reg 4) small_layout = Ok (t, L')
    ∧ ∃ b, b ∈ active_hot (hot_ops_pass1 t) ∧ reg_array_id b.2 = 0 ∧ dist_freq b.2 ≤ 100.
Proof.
  destruct (extract_hot_cold two_slots half_part (Txn_init shared_reg 4) small_layout) as [[t L']|] eqn:E;
    [|by vm_compute in E].
  exists t, L'. split; [done|].
  refine (pass2_gets_hotter two_slots half_part small_layout shared_reg 4 t L'
    (relocate half_part (write_op 0), MkTupleLoc 0 0 100 NO_LOCK) eq_refl eq_refl _ (small_locs _) eq_refl _ E _ _).
  - done.
  - by repeat constructor.
  - vm_compute in E. by injection E as <- _.
  - vm_compute in E. injection E as <- _. vm_compute. left.
Defined.

(** The old hottest cold key is forgotten, not demoted, when a hotter one
    follows it. *)
Example second_hottest_forgotten :
  (λ r : Txn * DeclusteredLayout, (active_cold (cold_ops r.1), hottest_cold_i1 r.1, hottest_cold_i2 r.1)) <$>
    extract_hot_cold one_slot half_part (Txn_init (write_op <$> [0; 1; 2; 3; 4; 5; 12; 10]) 4) small_layout
  = Ok (relocate half_part <$> [write_op 12; write_op 10], Some 1%nat, None).
Proof. by vm_compute. Qed.
