(* ===== verification/Sched.v ===== *)
(** * The mini-batch scheduler

    [src/src/ee/sched.cpp]: the pool of schedules (which node may run a key in
    which mini-batch slot) and [sched_batch], which splits each transaction of
    a batch into hot and cold operations and queues it in the slot its hottest
    cold keys allow. *)
From stdpp Require Import base tactics list numbers gmap sorting.
From Stdlib Require Import ZArith Lia.
From S2P Require Import Prelude Types Layout Msg Row Table SendQ SwitchPkt HotCold.

#[local] Arguments N_OPS : simpl never.

(** ** The scheduler *)

Record scheduler_t := MkSched {
  sc_node_id : Z;
  schedules : list (list (list Z));
  n_schedules : Z;
  n_queues : Z;
  schedule_len : Z;
  mb_queues : list (list nat);
}.

(** [(num_nodes * (100 - REMOTE_FRAC) - 100) / REMOTE_FRAC], on [size_t]. *)
Definition n_extra_local (num_nodes : Z) : Z :=
  u64 (u64 (num_nodes * (100 - REMOTE_FRAC)) - 100) / REMOTE_FRAC.

(** [schedule[i]] of schedule [s] of [node]. *)
Definition schedule_at (num_nodes node s i : Z) : Z :=
  if (s <=? i) && (i <? s + num_nodes) then i - s else node.

Definition make_schedule (num_nodes len node s : Z) : list Z :=
  schedule_at num_nodes node s <$> seqZ 0 len.

(** [scheduler_t(exec)]. *)
Definition scheduler_make (num_nodes node_id : Z) : scheduler_t :=
  let extra := n_extra_local num_nodes in
  let n_sched := extra + 1 in
  let len := extra + num_nodes in
  MkSched node_id
    ((λ node, make_schedule num_nodes len node <$> seqZ 0 n_sched) <$> seqZ 0 num_nodes)
    n_sched len len (replicate (Z.to_nat len) []).

Definition set_queues (q : list (list nat)) (s : scheduler_t) : scheduler_t :=
  MkSched (sc_node_id s) (schedules s) (n_schedules s) (n_queues s) (schedule_len s) q.

(** [entry_to_txn]. *)
Definition entry_to_txn (txns : list Txn) (entry : nat) : outcome Txn :=
  assert (bool_decide (entry < length txns)%nat);; aget txns entry.

(** [schedules[op.loc_info.target][op.id % n_schedules]]. *)
Definition schedule_of (sc : scheduler_t) (op : OP) : outcome (list Z) :=
  per_node ← aget (schedules sc) (Z.to_nat (node_u32 (target (loc_info op))));
  k ← umod (op_id op) (n_schedules sc);
  aget per_node (Z.to_nat k).

(** The scan for the shortest queue among the slots [ok] admits. *)
Definition best_slot (queues : list (list nat)) (ok : nat → outcome bool) (len : nat) : outcome (option nat) :=
  ofold (λ best s,
    b ← ok s;
    if (b : bool) then
      match best with
      | None => Ok (Some s)
      | Some sb =>
          qb ← aget queues sb; q ← aget queues s;
          Ok (if decide (length (q : list nat) < length (qb : list nat))%nat then Some s else best)
      end
    else Ok best) (seq 0 len) None.

(** [sched[s] == node_id]. *)
Definition slot_mine (sc : scheduler_t) (sched : list Z) (s : nat) : outcome bool :=
  x ← aget sched s; Ok (x =? sc_node_id sc).

(** The slot for a transaction whose hottest cold operation is [i1]. *)
Definition pick_slot (sc : scheduler_t) (txn : Txn) (i1 : nat) : outcome (option nat) :=
  op1 ← aget (cold_ops txn) i1;
  sched1 ← schedule_of sc op1;
  both ← match hottest_cold_i2 txn with
         | Some i2 =>
             op2 ← aget (cold_ops txn) i2;
             sched2 ← schedule_of sc op2;
             best_slot (mb_queues sc)
               (λ s, a ← slot_mine sc sched1 s; if (a : bool) then slot_mine sc sched2 s else Ok false)
               (Z.to_nat (schedule_len sc))
         | None => Ok None
         end;
  match both with
  | Some s => Ok (Some s)
  | None => best_slot (mb_queues sc) (slot_mine sc sched1) (Z.to_nat (schedule_len sc))
  end.

(** [mb_queues[s].push(i)]; the queue holds [uint32_t]s. *)
Definition push_queue (sc : scheduler_t) (s i : nat) : outcome scheduler_t :=
  q ← aget (mb_queues sc) s;
  qs ← aset (mb_queues sc) s (q ++ [Z.to_nat (u32 (Z.of_nat i))]);
  Ok (set_queues qs sc).

(** The variables of [sched_batch]'s loop. *)
Record batch_state := MkBatch {
  b_sched : scheduler_t;
  b_txns : list Txn;
  b_layout : DeclusteredLayout;
  zero_spray_idx : Z;
}.

(** One iteration: transaction [i]. *)
Definition sched_txn (bm : build) (p : PartitionInfo) (st : batch_state) (i : nat) : outcome batch_state :=
  txn ← aget (b_txns st) i;
  assert (negb (init_done txn));;
  '(txn', L') ← extract_hot_cold bm p txn (b_layout st);
  txns' ← aset (b_txns st) i txn';
  assert (init_done txn');;
  match (if DO_SCHED bm then hottest_cold_i1 txn' else None) with
  | Some i1 =>
      s_best ← pick_slot (b_sched st) txn' i1;
      match s_best with
      | None => Fail AssertFailed
      | Some s =>
          e ← entry_to_txn txns' i;
          assert (loader_id txn' =? loader_id e);;
          sc' ← push_queue (b_sched st) s i;
          Ok (MkBatch sc' txns' L' (zero_spray_idx st))
      end
  | None =>
      s ← umod (zero_spray_idx st) (n_queues (b_sched st));
      sc' ← push_queue (b_sched st) (Z.to_nat s) i;
      Ok (MkBatch sc' txns' L' (u64 (zero_spray_idx st + 1)))
  end.

(** [sched_batch(txns, start, end)]. *)
Definition sched_batch (bm : build) (p : PartitionInfo) (sc : scheduler_t) (txns : list Txn)
    (L : DeclusteredLayout) (start end_ : nat) : outcome batch_state :=
  assert (forallb (λ q : list nat, bool_decide (q = [])) (take (Z.to_nat (n_queues sc)) (mb_queues sc)));;
  ofold (sched_txn bm p) (seq start (end_ - start)) (MkBatch sc txns L 0).

(** ** Schedules *)

Section schedules.
Context (n m : Z) (Hn : 2 ≤ n ≤ 2 ^ 8) (Hm : 0 ≤ m < n).

Lemma n_extra_local_eq : n_extra_local n = 9 * n - 10.
Proof.
  unfold n_extra_local, REMOTE_FRAC. rewrite !wrap_small by (rewrite ?wrap_small; lia).
  symmetry. apply (Z.div_unique _ _ _ 0); lia.
Qed.

Lemma make_schedule_lookup len node s i :
  0 ≤ i < len → make_schedule n len node s !! Z.to_nat i = Some (schedule_at n node s i).
Proof.
  intros Hi. unfold make_schedule. rewrite list_lookup_fmap, lookup_seqZ_lt by lia.
  cbn [fmap option_fmap option_map]. do 2 f_equal. lia.
Qed.

(** The part of a scheduler that [sched_batch] leaves alone. *)
Record sched_like (sc : scheduler_t) : Prop := {
  sl_node : sc_node_id sc = m;
  sl_schedules : schedules sc = schedules (scheduler_make n m);
  sl_n_schedules : n_schedules sc = 9 * n - 9;
  sl_len : schedule_len sc = 10 * n - 10;
  sl_n_queues : n_queues sc = 10 * n - 10;
  sl_queues : length (mb_queues sc) = Z.to_nat (10 * n - 10);
}.

Lemma scheduler_make_like : sched_like (scheduler_make n m).
Proof.
  pose proof n_extra_local_eq as Hx. split; cbn [scheduler_make sc_node_id schedules n_schedules schedule_len
    n_queues mb_queues]; try done; try lia. rewrite length_replicate. lia.
Qed.

(** The schedule a key follows, and that every node has a slot in it. *)
Definition key_schedule (op : OP) : list Z :=
  make_schedule n (10 * n - 10) (node_u32 (target (loc_info op))) (op_id op mod (9 * n - 9)).

Lemma schedule_of_ok sc op :
  sched_like sc → 0 ≤ node_u32 (target (loc_info op)) < n → 0 ≤ op_id op →
  schedule_of sc op = Ok (key_schedule op).
Proof.
  intros [_ Hs Hns _ _ _] Ht Hid. unfold schedule_of. rewrite Hs, Hns. cbn [scheduler_make schedules].
  pose proof n_extra_local_eq as Hx. rewrite Hx.
  set (t := node_u32 (target (loc_info op))) in *.
  rewrite (proj2 (aget_ok _ _ (make_schedule n (9 * n - 10 + n) t <$> seqZ 0 (9 * n - 10 + 1)))).
  2:{ rewrite list_lookup_fmap, lookup_seqZ_lt by lia. cbn [fmap option_fmap option_map].
      by replace (0 + Z.of_nat (Z.to_nat t)) with t by lia. }
  cbn [mbind outcome_bind]. unfold umod. rewrite (proj2 (Z.eqb_neq _ _)) by lia. cbn [mbind outcome_bind].
  pose proof (Z.mod_pos_bound (op_id op) (9 * n - 9) ltac:(lia)) as Hmod.
  apply aget_ok. rewrite list_lookup_fmap, lookup_seqZ_lt by lia.
  cbn [fmap option_fmap option_map]. unfold key_schedule. f_equal. f_equal; lia.
Qed.

Lemma key_schedule_length op : length (key_schedule op) = Z.to_nat (10 * n - 10).
Proof. unfold key_schedule, make_schedule. by rewrite length_fmap, length_seqZ. Qed.

Lemma key_schedule_has op : ∃ s, (s < Z.to_nat (10 * n - 10))%nat ∧ key_schedule op !! s = Some m.
Proof.
  pose proof (Z.mod_pos_bound (op_id op) (9 * n - 9) ltac:(lia)) as Hmod.
  set (s0 := op_id op mod (9 * n - 9)) in *. exists (Z.to_nat (s0 + m)). split; [lia|].
  unfold key_schedule. rewrite make_schedule_lookup by lia. f_equal. unfold schedule_at. fold s0.
  rewrite (proj2 (Z.leb_le _ _)), (proj2 (Z.ltb_lt _ _)) by lia. simpl. lia.
Qed.
End schedules.

(** ** The scan for a slot *)

Lemma best_slot_ok queues ok len :
  (len ≤ length queues)%nat → (∀ s, (s < len)%nat → ∃ b, ok s = Ok b) →
  ∃ r, best_slot queues ok len = Ok r ∧
    match r with
    | None => ∀ s, (s < len)%nat → ok s = Ok false
    | Some s => (s < len)%nat ∧ ok s = Ok true
        ∧ ∀ s', (s' < len)%nat → ok s' = Ok true → (length (queues !!! s) ≤ length (queues !!! s'))%nat
    end.
Proof.
  intros Hlen Hok. unfold best_slot.
  pose proof (ofold_total (λ (pre : list nat) (r : option nat), match r with
    | None => ∀ s, (s < length pre)%nat → ok s = Ok false
    | Some s => (s < length pre)%nat ∧ ok s = Ok true
        ∧ ∀ s', (s' < length pre)%nat → ok s' = Ok true → (length (queues !!! s) ≤ length (queues !!! s'))%nat
    end)) as Hloop.
  edestruct Hloop as (r & Hr & HP); [| |exists r; split; [exact Hr|]].
  - intros s Hs. simpl in Hs. lia.
  - intros pre s post best Hcut HP. apply seq_cut in Hcut as (_ & -> & Hlt). cbn [Nat.add].
    rewrite length_app. cbn [length].
    destruct (Hok _ Hlt) as [b Hb]. rewrite Hb. cbn [mbind outcome_bind].
    assert (∀ s, (s < length pre + 1)%nat → s = length pre ∨ (s < length pre)%nat) as Hcase by lia.
    destruct b.
    + destruct best as [sb|].
      * destruct HP as (Hsb & Hsbo & Hmin).
        destruct (aget_lt queues sb ltac:(lia)) as (qb & -> & Hqb).
        destruct (aget_lt queues (length pre) ltac:(lia)) as (q & -> & Hq). cbn [mbind outcome_bind].
        apply list_lookup_total_correct in Hqb, Hq.
        eexists; split; [done|]. case_decide; cbn beta iota; (split_and!; [lia|done|]);
          intros s' Hs' Hos'; rewrite ?Hqb, ?Hq; destruct (Hcase s' Hs') as [->|Hlt'];
          rewrite ?Hq; try lia; specialize (Hmin s' Hlt' Hos'); rewrite Hqb in Hmin; lia.
      * eexists; split; [done|]. cbn beta iota. split_and!; [lia|done|].
        intros s' Hs' Hos'. destruct (Hcase s' Hs') as [->|Hlt']; [lia|]. specialize (HP s' Hlt'). congruence.
    + eexists; split; [done|]. destruct best as [sb|].
      * destruct HP as (Hsb & Hsbo & Hmin). split_and!; [lia|done|].
        intros s' Hs' Hos'. destruct (Hcase s' Hs') as [->|Hlt']; [congruence|auto].
      * intros s' Hs'. destruct (Hcase s' Hs') as [->|Hlt']; auto.
  - rewrite length_seq in HP. done.
Qed.

(** ** Placing one transaction *)

Section place.
Context (n m : Z) (Hn : 2 ≤ n ≤ 2 ^ 8) (Hm : 0 ≤ m < n).

(** An operation the scheduler can look up. *)
Definition op_known (op : OP) : Prop := 0 ≤ node_u32 (target (loc_info op)) < n ∧ 0 ≤ op_id op.

(** Slot [s] belongs to this node in the schedule of [op]'s key. *)
Definition mine (op : OP) (s : nat) : Prop := key_schedule n op !! s = Some m.

Lemma slot_mine_ok sc op s :
  sched_like n m sc → (s < Z.to_nat (10 * n - 10))%nat →
  ∃ b, slot_mine sc (key_schedule n op) s = Ok b ∧ (b = true ↔ mine op s).
Proof.
  intros Hsl Hs. unfold slot_mine, mine. rewrite (sl_node _ _ _ Hsl).
  destruct (aget_lt (key_schedule n op) s) as (x & -> & Hx); [by rewrite key_schedule_length|].
  cbn [mbind outcome_bind]. eexists; split; [done|]. rewrite Hx, Z.eqb_eq. naive_solver.
Qed.

Lemma pick_slot_ok sc txn i1 op1 :
  sched_like n m sc → cold_ops txn !! i1 = Some op1 → op_known op1 →
  (∀ i2, hottest_cold_i2 txn = Some i2 → ∃ op2, cold_ops txn !! i2 = Some op2 ∧ op_known op2) →
  ∃ s, pick_slot sc txn i1 = Ok (Some s) ∧ (s < length (mb_queues sc))%nat ∧ mine op1 s.
Proof.
  intros Hsl Hop1 [Ht1 Hid1] Hop2. unfold pick_slot.
  rewrite (proj2 (aget_ok _ _ _) Hop1). cbn [mbind outcome_bind].
  rewrite (schedule_of_ok n m Hn) by done. cbn [mbind outcome_bind]. rewrite (sl_len _ _ _ Hsl).
  pose proof (sl_queues _ _ _ Hsl) as Hq.
  assert (∃ r, best_slot (mb_queues sc) (slot_mine sc (key_schedule n op1)) (Z.to_nat (10 * n - 10)) = Ok (Some r)
    ∧ (r < length (mb_queues sc))%nat ∧ mine op1 r) as (r1 & Hr1 & Hl1 & Hm1).
  { destruct (best_slot_ok (mb_queues sc) (slot_mine sc (key_schedule n op1)) (Z.to_nat (10 * n - 10)))
      as ([r|] & Hr & HP); [lia| | |].
    - intros s Hs. destruct (slot_mine_ok sc op1 s Hsl Hs) as (b & Hb & _). by exists b.
    - destruct HP as (Hrl & Hrt & _). exists r. split_and!; [done|lia|].
      destruct (slot_mine_ok sc op1 r Hsl Hrl) as (b & Hb & Hbm). apply Hbm. congruence.
    - destruct (key_schedule_has n m Hn Hm op1) as (s & Hs & Hms).
      destruct (slot_mine_ok sc op1 s Hsl Hs) as (b & Hb & Hbm). rewrite (HP s Hs) in Hb.
      injection Hb as <-. by specialize (proj2 Hbm Hms). }
  destruct (hottest_cold_i2 txn) as [i2|].
  - destruct (Hop2 i2 eq_refl) as (op2 & Hi2 & Ht2 & Hid2).
    rewrite (proj2 (aget_ok _ _ _) Hi2). cbn [mbind outcome_bind].
    rewrite (schedule_of_ok n m Hn) by done. cbn [mbind outcome_bind].
    destruct (best_slot_ok (mb_queues sc) (λ s, a ← slot_mine sc (key_schedule n op1) s;
        if (a : bool) then slot_mine sc (key_schedule n op2) s else Ok false) (Z.to_nat (10 * n - 10)))
      as (r & -> & HP); [lia| |].
    + intros s Hs. destruct (slot_mine_ok sc op1 s Hsl Hs) as (b & -> & _). cbn [mbind outcome_bind].
      destruct b; [|by eexists]. destruct (slot_mine_ok sc op2 s Hsl Hs) as (b & -> & _). by eexists.
    + cbn [mbind outcome_bind]. destruct r as [r|]; [|by exists r1].
      destruct HP as (Hrl & Hrt & _). exists r. split_and!; [done|lia|].
      destruct (slot_mine_ok sc op1 r Hsl Hrl) as (b & Hb & Hbm). rewrite Hb in Hrt. cbn [mbind outcome_bind] in Hrt.
      apply Hbm. by destruct b.
  - cbn [mbind outcome_bind]. by exists r1.
Qed.

Lemma push_queue_ok sc s i :
  sched_like n m sc → (s < length (mb_queues sc))%nat → Z.of_nat i < 2 ^ 32 →
  ∃ sc', push_queue sc s i = Ok sc' ∧ sched_like n m sc'
    ∧ concat (mb_queues sc') ≡ₚ concat (mb_queues sc) ++ [i]
    ∧ ∀ s' q j, mb_queues sc' !! s' = Some q → j ∈ q →
        (∃ q0, mb_queues sc !! s' = Some q0 ∧ j ∈ q0) ∨ j = i ∧ s' = s.
Proof.
  intros Hsl Hs Hi. unfold push_queue. destruct (aget_lt (mb_queues sc) s Hs) as (q & -> & Hq).
  cbn [mbind outcome_bind]. rewrite aset_lt by done. cbn [mbind outcome_bind].
  rewrite wrap_small, Nat2Z.id by lia. eexists; split; [done|]. split_and!.
  - destruct Hsl. split; cbn [set_queues sc_node_id schedules n_schedules schedule_len n_queues mb_queues]; try done.
    by rewrite length_insert.
  - cbn [set_queues mb_queues]. rewrite insert_take_drop by done.
    rewrite <-(take_drop_middle (mb_queues sc) s q Hq) at 3. rewrite !concat_app. cbn [concat]. solve_Permutation.
  - cbn [set_queues mb_queues]. intros s' q' j Hs' Hj.
    destruct (decide (s' = s)) as [->|Hne].
    + rewrite list_lookup_insert_eq in Hs' by done. injection Hs' as <-.
      apply elem_of_app in Hj as [Hj|Hj%list_elem_of_singleton]; [left; by exists q|by right].
    + rewrite list_lookup_insert_ne in Hs' by done. left. by exists q'.
Qed.
End place.

(** ** A batch *)

(** A transaction of the trace that has not been looked at: [N_OPS] operations
    on keys of the table. *)
Definition fresh_txn (total : Z) (t : Txn) : Prop :=
  ∃ ops lid, t = Txn_init ops lid ∧ length ops = N_OPS
    ∧ Forall (λ o, op_mode o ≠ INVALID) ops ∧ Forall (λ o, 0 ≤ op_id o < total) ops.

Lemma active_cold_lookup l j o : active_cold l !! j = Some o → l !! j = Some o.
Proof.
  revert j. induction l as [|x l IH]; intros j; simpl; [done|].
  case_bool_decide; [done|]. destruct j; simpl; auto.
Qed.

Section batch.
Context (bm : build) (total n m sw : Z) (p : PartitionInfo) (L0 : DeclusteredLayout) (txns0 : list Txn).
Context (Horig : ORIG_MODE bm = false) (Hmp : MAX_PASSES_ACCEL bm = 1 ∨ MAX_PASSES_ACCEL bm = 2)
        (Hn : 2 ≤ n ≤ 2 ^ 8) (Hm : 0 ≤ m < n) (Htot : 0 < total < 2 ^ 64) (Hdiv : total mod n = 0)
        (Hp : PartitionInfo_make total n m sw = Ok p) (HL : locs_ok bm L0).

Lemma part_size : partition_size p ≠ 0.
Proof.
  destruct (PartitionInfo_make_ok total n sw ltac:(lia) Htot Hdiv m Hm) as (p' & Hp' & _ & _ & _ & ? & _).
  rewrite Hp in Hp'. injection Hp' as <-. lia.
Qed.

Lemma relocated_known o : 0 ≤ op_id o < total → op_known n (relocate p o).
Proof.
  intros Hk. destruct (location_ok total n sw ltac:(lia) Htot Hdiv m p (op_id o) Hm Hp Hk) as (l & Hl & _ & Hr & _).
  rewrite location_loc_of in Hl by apply part_size. injection Hl as <-. split; [exact Hr|]. simpl. lia.
Qed.

Lemma extracted_known L ops lid t C H1 H2 j o :
  extracted bm p L ops lid t C H1 H2 → Forall (λ o, 0 ≤ op_id o < total) ops → C !! j = Some o →
  cold_ops t !! j = Some o ∧ op_known n o ∧ loc_info o = loc_of p (op_id o).
Proof.
  intros Hex Hk Hj. split; [apply active_cold_lookup; by rewrite (ex_cold _ _ _ _ _ _ _ _ _ Hex)|].
  assert (o ∈ relocate p <$> ops) as (o' & -> & Ho')%list_elem_of_fmap.
  { rewrite <-(ex_perm _ _ _ _ _ _ _ _ _ Hex). apply elem_of_app. left. by eapply list_elem_of_lookup_2. }
  split; [|done]. apply relocated_known. rewrite Forall_forall in Hk. by apply Hk.
Qed.

(** A positive frequency picks a position of the cold array. *)
Lemma hottest_known L ops lid t C H1 H2 :
  extracted bm p L ops lid t C H1 H2 → Forall (λ o, 0 ≤ op_id o < total) ops →
  (∀ j, hottest_cold_i1 t = Some j → ∃ o, cold_ops t !! j = Some o ∧ op_known n o ∧ loc_info o = loc_of p (op_id o))
  ∧ (∀ j, hottest_cold_i2 t = Some j → ∃ o, cold_ops t !! j = Some o ∧ op_known n o ∧ loc_info o = loc_of p (op_id o)).
Proof.
  intros Hex Hk. destruct (do_accel t) eqn:Ha.
  - pose proof (ex_first _ _ _ _ _ _ _ _ _ Hex Ha) as H1st. pose proof (ex_second _ _ _ _ _ _ _ _ _ Hex Ha) as H2nd.
    split; intros j Hj.
    + rewrite Hj in H1st. destruct H1st as (o & Ho & _). exists o. by eapply extracted_known.
    + destruct (H2nd j Hj) as (_ & o & Ho & _). exists o. by eapply extracted_known.
  - destruct (ex_fallback _ _ _ _ _ _ _ _ _ Hex Ha) as (_ & _ & -> & ->). done.
Qed.

(** The state after placing the transactions at positions [pre]. *)
Record batch_ok (pre : list nat) (st : batch_state) : Prop := {
  bo_like : sched_like n m (b_sched st);
  bo_queues : concat (mb_queues (b_sched st)) ≡ₚ pre;
  bo_len : length (b_txns st) = length txns0;
  bo_rest : ∀ i, i ∉ pre → b_txns st !! i = txns0 !! i;
  bo_done : ∀ i, i ∈ pre → ∃ L ops lid t C H1 H2,
    txns0 !! i = Some (Txn_init ops lid) ∧ b_txns st !! i = Some t
    ∧ ((∀ k, hot_of bm L k = hot_of bm L0 k) ∧ ∃ L', extract_hot_cold bm p (Txn_init ops lid) L = Ok (t, L'))
    ∧ extracted bm p L ops lid t C H1 H2;
  bo_slot : DO_SCHED bm = true → ∀ s q i t i1,
    mb_queues (b_sched st) !! s = Some q → i ∈ q → b_txns st !! i = Some t → hottest_cold_i1 t = Some i1 →
    ∃ o, cold_ops t !! i1 = Some o ∧ mine n m o s;
  bo_layout : ∀ k, hot_of bm (b_layout st) k = hot_of bm L0 k;
  bo_spray : 0 ≤ zero_spray_idx st ≤ Z.of_nat (length pre);
}.

Lemma queued pre st s q i :
  batch_ok pre st → mb_queues (b_sched st) !! s = Some q → i ∈ q → i ∈ pre.
Proof.
  intros Hok Hq Hi. rewrite <-(bo_queues _ _ Hok). apply list_elem_of_In, in_concat. exists q.
  split; [apply list_elem_of_In; by eapply list_elem_of_lookup_2|by apply list_elem_of_In].
Qed.

(** Pushing transaction [i], just rewritten to [t], keeps the invariant. *)
Lemma batch_push pre st i s L t ops lid C H1 H2 zs L' :
  batch_ok pre st → i ∉ pre → Z.of_nat i < 2 ^ 32 → (i < length txns0)%nat →
  (s < length (mb_queues (b_sched st)))%nat →
  txns0 !! i = Some (Txn_init ops lid) → (∀ k, hot_of bm L k = hot_of bm L0 k) →
  (∀ k, hot_of bm L' k = hot_of bm L0 k) → extract_hot_cold bm p (Txn_init ops lid) L = Ok (t, L') →
  extracted bm p L ops lid t C H1 H2 →
  (DO_SCHED bm = true → ∀ i1, hottest_cold_i1 t = Some i1 → ∃ o, cold_ops t !! i1 = Some o ∧ mine n m o s) →
  0 ≤ zs ≤ Z.of_nat (S (length pre)) →
  ∃ sc', push_queue (b_sched st) s i = Ok sc'
    ∧ batch_ok (pre ++ [i]) (MkBatch sc' (<[i := t]> (b_txns st)) L' zs).
Proof.
  intros Hok Hi Hi32 Hil Hs Htx HLk HLk' Hxt Hex Hslot Hzs. pose proof (λ s q i, queued pre st s q i Hok) as Hold.
  destruct Hok.
  destruct (push_queue_ok n m (b_sched st) s i bo_like0 Hs Hi32) as (sc' & -> & Hl' & Hq' & Hin').
  exists sc'. split; [done|].
  split; cbn [b_sched b_txns b_layout zero_spray_idx]; try done.
  - by rewrite Hq', bo_queues0.
  - by rewrite length_insert.
  - intros j Hj. apply not_elem_of_app in Hj as [Hj1 Hj2%not_elem_of_cons].
    rewrite list_lookup_insert_ne by naive_solver. by apply bo_rest0.
  - intros j [Hj|Hj%list_elem_of_singleton]%elem_of_app.
    + destruct (bo_done0 j Hj) as (L1 & ops1 & lid1 & t1 & C1 & G1 & G2 & ? & ? & [? ?] & ?).
      exists L1, ops1, lid1, t1, C1, G1, G2. split_and!; try done.
      rewrite list_lookup_insert_ne; [done|]. by intros ->.
    + subst j. exists L, ops, lid, t, C, H1, H2. split_and!; try done.
      * apply list_lookup_insert_eq. lia.
      * by exists L'.
  - intros Hds s' q j t' i1 Hq Hj Ht' Hh.
    destruct (Hin' s' q j Hq Hj) as [(q0 & Hq0 & Hj0)|[-> ->]].
    + rewrite list_lookup_insert_ne in Ht' by (intros ->; by apply Hi, (Hold s' q0 _)).
      by apply (bo_slot0 Hds s' q0 j t' i1).
    + rewrite list_lookup_insert_eq in Ht' by lia. injection Ht' as <-. by apply Hslot.
  - rewrite length_app. simpl. lia.
Qed.

Lemma sched_txn_ok pre st i :
  batch_ok pre st → i ∉ pre → Z.of_nat (length pre) < 2 ^ 32 → Z.of_nat i < 2 ^ 32 →
  (∃ t, txns0 !! i = Some t ∧ fresh_txn total t) →
  ∃ st', sched_txn bm p st i = Ok st' ∧ batch_ok (pre ++ [i]) st'.
Proof.
  intros Hok Hi Hpl Hi32 (t0 & Ht0 & ops & lid & -> & Hlen & Hval & Hkeys).
  pose proof (lookup_lt_Some _ _ _ Ht0) as Hil. unfold sched_txn.
  rewrite (proj2 (aget_ok (b_txns st) i (Txn_init ops lid))) by (rewrite (bo_rest _ _ Hok i Hi); done).
  cbn [mbind outcome_bind Txn_init init_done negb assert]. fold (Txn_init ops lid).
  assert (locs_ok bm (b_layout st)) as HLs. { intros k. rewrite (bo_layout _ _ Hok). apply HL. }
  destruct (extract_spec bm p (b_layout st) ops lid Horig part_size HLs Hlen Hval Hmp)
    as (t & L' & C & H1 & H2 & Hx & Hex & Hst).
  rewrite Hx. cbn [mbind outcome_bind].
  rewrite aset_lt by (rewrite (bo_len _ _ Hok); done). cbn [mbind outcome_bind].
  rewrite (ex_init _ _ _ _ _ _ _ _ _ Hex). cbn [assert mbind outcome_bind].
  destruct (hottest_known _ _ _ _ _ _ _ Hex Hkeys) as [Hk1 Hk2].
  assert (∀ k, hot_of bm L' k = hot_of bm L0 k) as HL'. { intros k. by rewrite Hst, (bo_layout _ _ Hok). }
  pose proof (bo_layout _ _ Hok) as HLk. pose proof (bo_spray _ _ Hok) as Hsp.
  pose proof (bo_like _ _ Hok) as Hlike.
  destruct (DO_SCHED bm) eqn:Hds; [destruct (hottest_cold_i1 t) as [i1|] eqn:Hh|].
  - destruct (Hk1 i1 eq_refl) as (o1 & Ho1 & Hko1 & _).
    destruct (pick_slot_ok n m Hn Hm (b_sched st) t i1 o1 Hlike Ho1 Hko1) as (s & -> & Hs & Hmine);
      [naive_solver|].
    cbn [mbind outcome_bind]. unfold entry_to_txn.
    rewrite bool_decide_true by (rewrite length_insert, (bo_len _ _ Hok); done). cbn [assert mbind outcome_bind].
    rewrite (proj2 (aget_ok (<[i := t]> (b_txns st)) i t))
      by (apply list_lookup_insert_eq; rewrite (bo_len _ _ Hok); done).
    cbn [mbind outcome_bind]. rewrite Z.eqb_refl. cbn [assert mbind outcome_bind].
    edestruct (batch_push pre st i s (b_layout st) t ops lid C H1 H2 (zero_spray_idx st) L')
      as (sc' & -> & Hok'); try done; [|lia|].
    { intros _ i1' Hi1'. rewrite Hh in Hi1'. injection Hi1' as <-. by exists o1. }
    cbn [mbind outcome_bind]. eexists. split; [done|]. exact Hok'.
  - edestruct (batch_push pre st i (Z.to_nat (zero_spray_idx st mod (10 * n - 10))) (b_layout st) t ops lid C H1 H2
      (u64 (zero_spray_idx st + 1)) L') as (sc' & Hpush & Hok'); try done.
    { rewrite (sl_queues _ _ _ Hlike). pose proof (Z.mod_pos_bound (zero_spray_idx st) (10 * n - 10)). lia. }
    { intros _ i1' Hi1'. by rewrite Hh in Hi1'. }
    { rewrite wrap_small by lia. lia. }
    rewrite (sl_n_queues _ _ _ Hlike). unfold umod. rewrite (proj2 (Z.eqb_neq (10 * n - 10) 0)) by lia.
    cbn [mbind outcome_bind]. rewrite Hpush. cbn [mbind outcome_bind]. eexists. split; [done|]. exact Hok'.
  - edestruct (batch_push pre st i (Z.to_nat (zero_spray_idx st mod (10 * n - 10))) (b_layout st) t ops lid C H1 H2
      (u64 (zero_spray_idx st + 1)) L') as (sc' & Hpush & Hok'); try done.
    { rewrite (sl_queues _ _ _ Hlike). pose proof (Z.mod_pos_bound (zero_spray_idx st) (10 * n - 10)). lia. }
    { by rewrite Hds. }
    { rewrite wrap_small by lia. lia. }
    rewrite (sl_n_queues _ _ _ Hlike). unfold umod. rewrite (proj2 (Z.eqb_neq (10 * n - 10) 0)) by lia.
    cbn [mbind outcome_bind]. rewrite Hpush. cbn [mbind outcome_bind]. eexists. split; [done|]. exact Hok'.
Qed.

Lemma sched_batch_ok start end_ :
  (start ≤ end_ ≤ length txns0)%nat → Z.of_nat end_ < 2 ^ 32 →
  (∀ i t, (start ≤ i < end_)%nat → txns0 !! i = Some t → fresh_txn total t) →
  ∃ st, sched_batch bm p (scheduler_make n m) txns0 L0 start end_ = Ok st
    ∧ batch_ok (seq start (end_ - start)) st.
Proof.
  intros Hse H32 Hfresh. unfold sched_batch.
  assert (forallb (λ q : list nat, bool_decide (q = [])) (take (Z.to_nat (n_queues (scheduler_make n m)))
    (mb_queues (scheduler_make n m))) = true) as ->.
  { apply forallb_forall. intros q Hq%list_elem_of_In. apply list_elem_of_lookup in Hq as [j Hj].
    apply lookup_take_Some in Hj as [Hj _]. cbn [scheduler_make mb_queues] in Hj.
    apply lookup_replicate in Hj as [-> _]. by rewrite bool_decide_true. }
  cbn [assert mbind outcome_bind]. apply (ofold_total batch_ok).
  - pose proof (scheduler_make_like n m Hn) as Hsl.
    split; cbn [b_sched b_txns b_layout zero_spray_idx]; try done.
    + cbn [scheduler_make mb_queues]. clear. induction (Z.to_nat (n_extra_local n + n)); simpl; auto.
    + by intros i ?%not_elem_of_nil.
    + intros _ s q i t i1 Hq Hi. cbn [scheduler_make mb_queues] in Hq.
      apply lookup_replicate in Hq as [-> _]. by apply not_elem_of_nil in Hi.
  - intros pre i post st Hcut Hok. pose proof Hcut as Hcut'. apply seq_cut in Hcut' as (Hpre & -> & Hlt).
    apply sched_txn_ok; try done; try lia.
    + rewrite Hpre, elem_of_seq, length_seq. lia.
    + destruct (lookup_lt_is_Some_2 txns0 (start + length pre)) as [t Ht]; [lia|].
      exists t. split; [done|]. eapply Hfresh; [|done]. lia.
Qed.

(** The hottest operation of a queued transaction: its slot and its home. *)
Lemma queued_hottest pre st s q i t h o :
  batch_ok pre st → DO_SCHED bm = true → (∀ j t', j ∈ pre → txns0 !! j = Some t' → fresh_txn total t') →
  mb_queues (b_sched st) !! s = Some q → i ∈ q → b_txns st !! i = Some t →
  hottest_cold_i1 t = Some h → cold_ops t !! h = Some o →
  mine n m o s ∧ loc_info o = loc_of p (op_id o).
Proof.
  intros Hok Hds Hf Hq Hi Ht Hh Ho. pose proof (queued _ _ _ _ _ Hok Hq Hi) as Hpre.
  destruct (bo_slot _ _ Hok Hds s q i t h Hq Hi Ht Hh) as (o' & Ho' & Hmine).
  rewrite Ho in Ho'. injection Ho' as <-. split; [done|].
  destruct (bo_done _ _ Hok i Hpre) as (L & ops & lid & t' & C & H1 & H2 & Htx & Ht' & _ & Hex).
  rewrite Ht in Ht'. injection Ht' as <-.
  destruct (Hf i _ Hpre Htx) as (ops' & lid' & [= -> _] & _ & _ & Hkeys).
  destruct (hottest_known _ _ _ _ _ _ _ Hex Hkeys) as [Hk _]. destruct (Hk h Hh) as (o' & Ho' & _ & Hl). congruence.
Qed.
End batch.

(** C10: [sched_batch] queues every transaction of the batch exactly once.  On
    a fresh scheduler of a cluster of 2 to 256 nodes, for a batch of fresh
    transactions over keys of the table, it meets every assertion (so a slot
    for the hottest key is always found), the queues together hold each
    position of the batch once, every transaction of the batch is what
    [extract_hot_cold] makes of it with a layout that places every key as the
    given one does, so that its cold and hot arrays hold its operations and,
    when it is accelerated, its cold keys are those the layout keeps off the
    switch and its hot keys those it places there; and no other transaction has
    changed. *)
Theorem sched_batch_complete bm total n m sw p L txns start end_ :
  ORIG_MODE bm = false → MAX_PASSES_ACCEL bm = 1 ∨ MAX_PASSES_ACCEL bm = 2 →
  2 ≤ n ≤ 2 ^ 8 → 0 ≤ m < n → 0 < total < 2 ^ 64 → total mod n = 0 →
  PartitionInfo_make total n m sw = Ok p → locs_ok bm L →
  (start ≤ end_ ≤ length txns)%nat → Z.of_nat end_ < 2 ^ 32 →
  (∀ i t, (start ≤ i < end_)%nat → txns !! i = Some t → fresh_txn total t) →
  ∃ st, sched_batch bm p (scheduler_make n m) txns L start end_ = Ok st
    ∧ concat (mb_queues (b_sched st)) ≡ₚ seq start (end_ - start)
    ∧ (∀ i, ¬ (start ≤ i < end_)%nat → b_txns st !! i = txns !! i)
    ∧ (∀ i, (start ≤ i < end_)%nat → ∃ t0 t L1 L2, txns !! i = Some t0 ∧ b_txns st !! i = Some t
         ∧ extract_hot_cold bm p t0 L1 = Ok (t, L2) ∧ (∀ k, hot_of bm L1 k = hot_of bm L k) ∧ init_done t = true
         ∧ let hot := active_hot (hot_ops_pass1 t) ++ active_hot (hot_ops_pass2 t) in
           active_cold (cold_ops t) ++ hot.*1 ≡ₚ relocate p <$> cold_ops t0
           ∧ (do_accel t = false → hot = [])
           ∧ (do_accel t = true → Forall (λ o, (hot_of bm L (op_id o)).1 = false) (active_cold (cold_ops t))
                ∧ Forall (λ pr, hot_of bm L (op_id pr.1) = (true, pr.2)) hot)).
Proof.
  intros Ho Hmp Hn Hm Ht Hd Hp HL Hse H32 Hf.
  destruct (sched_batch_ok bm total n m sw p L txns Ho Hmp Hn Hm Ht Hd Hp HL start end_ Hse H32 Hf) as (st & -> & Hok).
  exists st. split_and!; [done|apply Hok| |].
  - intros i Hi. apply (bo_rest _ _ _ _ _ _ _ _ Hok). rewrite elem_of_seq. lia.
  - intros i Hi. destruct (bo_done _ _ _ _ _ _ _ _ Hok i) as (L1 & ops & lid & t & C & H1 & H2 & Ht0 & Ht1 & Hx & Hex).
    { apply elem_of_seq. lia. }
    destruct Hx as [HL1 [L2 Hx]]. exists (Txn_init ops lid), t, L1, L2. destruct Hex as [Hc0 Hh1 Hh2 _ Hperm Hinit _ Hfb Hac _ _ _ _].
    split_and!; [done..|]. cbv zeta. rewrite Hc0, Hh1, Hh2, fmap_app. split_and!; [done| |].
    + intros Hna. by destruct (Hfb Hna) as (-> & -> & _).
    + intros Ha. destruct (Hac Ha) as (HC & HH & _).
      split; [eapply Forall_impl; [exact HC|]|eapply Forall_impl; [exact HH|]]; cbn; intros ?; by rewrite HL1.
Qed.

(** C6: no two nodes run the same hottest key in the same mini-batch slot.  If
    two nodes of a cluster schedule batches, and the hottest cold key of a
    transaction in slot [s1] of one is the hottest cold key of a transaction in
    slot [s2] of the other, then [s1] and [s2] differ. *)
Theorem sched_no_clash bm total n sw m1 m2 p1 p2 L1 L2 txns1 txns2 st1 st2 b1 e1 b2 e2 s1 s2 q1 q2 i1 i2 t1 t2 h1 h2 o1 o2 :
  ORIG_MODE bm = false → DO_SCHED bm = true → MAX_PASSES_ACCEL bm = 1 ∨ MAX_PASSES_ACCEL bm = 2 →
  2 ≤ n ≤ 2 ^ 8 → 0 ≤ m1 < n → 0 ≤ m2 < n → m1 ≠ m2 → 0 < total < 2 ^ 64 → total mod n = 0 →
  PartitionInfo_make total n m1 sw = Ok p1 → PartitionInfo_make total n m2 sw = Ok p2 →
  locs_ok bm L1 → locs_ok bm L2 →
  (b1 ≤ e1 ≤ length txns1)%nat → Z.of_nat e1 < 2 ^ 32 →
  (b2 ≤ e2 ≤ length txns2)%nat → Z.of_nat e2 < 2 ^ 32 →
  (∀ i t, (b1 ≤ i < e1)%nat → txns1 !! i = Some t → fresh_txn total t) →
  (∀ i t, (b2 ≤ i < e2)%nat → txns2 !! i = Some t → fresh_txn total t) →
  sched_batch bm p1 (scheduler_make n m1) txns1 L1 b1 e1 = Ok st1 →
  sched_batch bm p2 (scheduler_make n m2) txns2 L2 b2 e2 = Ok st2 →
  mb_queues (b_sched st1) !! s1 = Some q1 → i1 ∈ q1 → b_txns st1 !! i1 = Some t1 →
  mb_queues (b_sched st2) !! s2 = Some q2 → i2 ∈ q2 → b_txns st2 !! i2 = Some t2 →
  hottest_cold_i1 t1 = Some h1 → cold_ops t1 !! h1 = Some o1 →
  hottest_cold_i1 t2 = Some h2 → cold_ops t2 !! h2 = Some o2 →
  op_id o1 = op_id o2 →
  s1 ≠ s2.
Proof.
  intros Ho Hds Hmp Hn Hm1 Hm2 Hne Ht Hd Hp1 Hp2 HL1 HL2 Hse1 H321 Hse2 H322 Hf1 Hf2 Hst1 Hst2
    Hq1 Hi1 Ht1 Hq2 Hi2 Ht2 Hh1 Ho1 Hh2 Ho2 Hid ->.
  destruct (sched_batch_ok bm total n m1 sw p1 L1 txns1 Ho Hmp Hn Hm1 Ht Hd Hp1 HL1 b1 e1 Hse1 H321 Hf1) as (x1 & Hx1 & Hok1).
  destruct (sched_batch_ok bm total n m2 sw p2 L2 txns2 Ho Hmp Hn Hm2 Ht Hd Hp2 HL2 b2 e2 Hse2 H322 Hf2) as (x2 & Hx2 & Hok2).
  rewrite Hst1 in Hx1. rewrite Hst2 in Hx2. injection Hx1 as <-. injection Hx2 as <-.
  assert (∀ j t', j ∈ seq b1 (e1 - b1) → txns1 !! j = Some t' → fresh_txn total t') as Hg1
    by (intros j t' Hj%elem_of_seq; apply Hf1; lia).
  destruct (queued_hottest bm total n m1 sw p1 L1 txns1 Hn Hm1 Ht Hd Hp1 _ st1 s2 q1 i1 t1 h1 o1
    Hok1 Hds Hg1 Hq1 Hi1 Ht1 Hh1 Ho1) as [Hmine1 Hl1].
  assert (∀ j t', j ∈ seq b2 (e2 - b2) → txns2 !! j = Some t' → fresh_txn total t') as Hg2
    by (intros j t' Hj%elem_of_seq; apply Hf2; lia).
  destruct (queued_hottest bm total n m2 sw p2 L2 txns2 Hn Hm2 Ht Hd Hp2 _ st2 s2 q2 i2 t2 h2 o2
    Hok2 Hds Hg2 Hq2 Hi2 Ht2 Hh2 Ho2) as [Hmine2 Hl2].
  destruct (PartitionInfo_make_ok total n sw ltac:(lia) Ht Hd m1 Hm1) as (p1' & Hp1' & Hps1 & _).
  destruct (PartitionInfo_make_ok total n sw ltac:(lia) Ht Hd m2 Hm2) as (p2' & Hp2' & Hps2 & _).
  assert (p1' = p1) as -> by congruence. assert (p2' = p2) as -> by congruence.
  unfold mine, key_schedule in Hmine1, Hmine2. rewrite Hid, Hl1 in Hmine1. rewrite Hl2 in Hmine2.
  unfold loc_of in Hmine1, Hmine2; cbn [target] in Hmine1, Hmine2.
  rewrite Hps1, Hid in Hmine1. rewrite Hps2 in Hmine2. congruence.
Qed.

(** With one node the number of extra local slices is not 0: the
    subtraction [90 - 100] wraps around and the schedule pool would have more
    than 10^18 schedules. *)
Theorem single_node_underflow :
  n_extra_local 1 = 1844674407370955160
  ∧ n_schedules (scheduler_make 1 0) = 1844674407370955161
  ∧ n_extra_local 2 = 8.
Proof.
  change (n_schedules (scheduler_make 1 0)) with (n_extra_local 1 + 1). split_and!; by vm_compute.
Qed.

(** ** Witness data *)

Definition sample_txns : list Txn :=
  [Txn_init half_hot 0; Txn_init (write_op <$> [0; 1; 2; 3; 4; 5; 6; 7]) 1; Txn_init half_hot 2].

Definition part_of (m : Z) : PartitionInfo := MkPart 20 10 (10 * m) (MkNode m) (MkNode 9).

Lemma sample_txns_fresh i t :
  (0 ≤ i < 3)%nat → sample_txns !! i = Some t → fresh_txn 20 t.
Proof.
  intros Hi Ht. do 3 (destruct i as [|i]; [injection Ht as <-; eexists _, _; split; [done|]; split_and!;
    [done|by repeat constructor|by repeat constructor]|]). lia.
Qed.

(** Three transactions; four keys of the first are hot. *)
Lemma sched_batch_complete_witness :
  ∃ st, sched_batch one_slot (part_of 0) (scheduler_make 2 0) sample_txns small_layout 0 3 = Ok st
    ∧ concat (mb_queues (b_sched st)) ≡ₚ [0; 1; 2]%nat
    ∧ ∃ t L1 L2, b_txns st !! 0%nat = Some t ∧ extract_hot_cold one_slot (part_of 0) (Txn_init half_hot 0) L1 = Ok (t, L2).
Proof.
  pose proof (sched_batch_complete one_slot 20 2 0 9 (part_of 0) small_layout sample_txns 0 3 eq_refl (or_introl eq_refl)
    ltac:(lia) ltac:(lia) ltac:(lia) eq_refl eq_refl (small_locs _) ltac:(cbn; lia) eq_refl sample_txns_fresh) as (st & H & Hq & _ & Ht).
  exists st. split; [exact H|]. split; [exact Hq|]. destruct (Ht 0%nat) as (t0 & t & L1 & L2 & H0 & H1 & H2 & _); [lia|].
  injection H0 as <-. exists t, L1, L2. split; [exact H1|exact H2].
Defined.

Lemma sched_no_clash_witness :
  ∃ st1 st2, sched_batch one_slot (part_of 0) (scheduler_make 2 0) sample_txns small_layout 0 3 = Ok st1
    ∧ sched_batch one_slot (part_of 1) (scheduler_make 2 1) sample_txns small_layout 0 3 = Ok st2
    ∧ mb_queues (b_sched st1) !! 1%nat = Some [0; 2]%nat
    ∧ mb_queues (b_sched st2) !! 0%nat = Some [0; 1]%nat
    ∧ 1%nat ≠ 0%nat.
Proof.
  destruct (sched_batch one_slot (part_of 0) (scheduler_make 2 0) sample_txns small_layout 0 3) as [st1|] eqn:E1;
    [|by vm_compute in E1].
  destruct (sched_batch one_slot (part_of 1) (scheduler_make 2 1) sample_txns small_layout 0 3) as [st2|] eqn:E2;
    [|by vm_compute in E2].
  assert (mb_queues (b_sched st1) !! 1%nat = Some [0; 2]%nat
    ∧ ∃ t o, b_txns st1 !! 0%nat = Some t ∧ hottest_cold_i1 t = Some 0%nat ∧ cold_ops t !! 0%nat = Some o
             ∧ op_id o = 10) as (Hq1 & t1 & o1 & Ht1 & Hh1 & Ho1 & Hid1).
  { vm_compute in E1. injection E1 as <-. split; [reflexivity|]. eexists _, _. split_and!; reflexivity. }
  assert (mb_queues (b_sched st2) !! 0%nat = Some [0; 1]%nat
    ∧ ∃ t o, b_txns st2 !! 0%nat = Some t ∧ hottest_cold_i1 t = Some 0%nat ∧ cold_ops t !! 0%nat = Some o
             ∧ op_id o = 10) as (Hq2 & t2 & o2 & Ht2 & Hh2 & Ho2 & Hid2).
  { vm_compute in E2. injection E2 as <-. split; [reflexivity|]. eexists _, _. split_and!; reflexivity. }
  exists st1, st2. split; [exact eq_refl|]. split; [exact eq_refl|]. split; [exact Hq1|]. split; [exact Hq2|].
  refine (sched_no_clash one_slot 20 2 9 0 1 (part_of 0) (part_of 1) small_layout small_layout sample_txns sample_txns
    st1 st2 0 3 0 3 1 0 [0; 2]%nat [0; 1]%nat 0 0 t1 t2 0 0 o1 o2
    eq_refl eq_refl (or_introl eq_refl) _ _ _ _ _ eq_refl eq_refl eq_refl (small_locs _) (small_locs _) _ _ _ _
    sample_txns_fresh sample_txns_fresh E1 E2 Hq1 _ Ht1 Hq2 _ Ht2 Hh1 Ho1 Hh2 Ho2 _).
  12: by rewrite Hid1, Hid2.
  11: left.
  10: left.
  all: clear; try done; simpl; lia.
Defined.
