(* ===== verification/Undolog.v ===== *)
(** * The executor's state and its undo log

    The fields of [TxnExecutor] ([src/src/ee/executor.hpp]) and the log of the
    locks it holds ([src/src/ee/undolog.hpp], [undolog.cpp]): an entry per
    local or remote lock, cleared by [commit] and [rollback] alike.

    Clearing a remote entry only sends the put request: the worker waits once,
    after the whole log, for the count of unanswered requests to reach zero.
    [clear_action] therefore returns the messages it sends; [log_clear] is the
    run of a worker during whose wait the network hands over its requests and
    their responses.  (In [Serial] the messages stay under way for any time.) *)
From stdpp Require Import base tactics list numbers gmap.
From Stdlib Require Import ZArith Lia.
From S2P Require Import Prelude Types Msg Row Table Mempool SendQ SwitchPkt MsgHandler.

(** [Write]/[Read] on a local row and [Remote<mode>]. *)
Inductive Action :=
| ALocal (mode : AccessMode) (index : Z) (fut : nat)
| ARemote (mode : AccessMode) (fut : nat) (tgt : node_t).

Inductive RC := COMMIT | ROLLBACK.
#[global] Instance RC_eq_dec : EqDecision RC.
Proof. solve_decision. Defined.

(** [TxnExecutor]: [x_kvs] is the table [kvs] points to, [x_futs] the futures
    in [mempool], [x_built] the packets built in the switch queue's buffers. *)
Record TxnExecutor := MkExec {
  x_node : nat;
  x_tid : Z;
  x_kvs : nat;
  mini_batch_num : Z;             (* uint32_t *)
  x_ts : Z;
  x_futs : list TupleFuture;
  x_log : list Action;
  leftover_txns : list nat;
  n_commits : Z;
  x_n_aborts : Z;
  n_dropped : Z;
  n_cold_fallbacks : Z;
  x_built : list (Z * pass1_pkt);
}.

Definition set_futs (l : list TupleFuture) (x : TxnExecutor) : TxnExecutor :=
  MkExec (x_node x) (x_tid x) (x_kvs x) (mini_batch_num x) (x_ts x) l (x_log x) (leftover_txns x)
         (n_commits x) (x_n_aborts x) (n_dropped x) (n_cold_fallbacks x) (x_built x).
Definition set_log (l : list Action) (x : TxnExecutor) : TxnExecutor :=
  MkExec (x_node x) (x_tid x) (x_kvs x) (mini_batch_num x) (x_ts x) (x_futs x) l (leftover_txns x)
         (n_commits x) (x_n_aborts x) (n_dropped x) (n_cold_fallbacks x) (x_built x).
Definition set_leftover (l : list nat) (x : TxnExecutor) : TxnExecutor :=
  MkExec (x_node x) (x_tid x) (x_kvs x) (mini_batch_num x) (x_ts x) (x_futs x) (x_log x) l
         (n_commits x) (x_n_aborts x) (n_dropped x) (n_cold_fallbacks x) (x_built x).
Definition set_mb (mb : Z) (x : TxnExecutor) : TxnExecutor :=
  MkExec (x_node x) (x_tid x) (x_kvs x) mb (x_ts x) (x_futs x) (x_log x) (leftover_txns x)
         (n_commits x) (x_n_aborts x) (n_dropped x) (n_cold_fallbacks x) (x_built x).
Definition set_ts (ts : Z) (x : TxnExecutor) : TxnExecutor :=
  MkExec (x_node x) (x_tid x) (x_kvs x) (mini_batch_num x) ts (x_futs x) (x_log x) (leftover_txns x)
         (n_commits x) (x_n_aborts x) (n_dropped x) (n_cold_fallbacks x) (x_built x).
Definition set_stats (c a d f : Z) (x : TxnExecutor) : TxnExecutor :=
  MkExec (x_node x) (x_tid x) (x_kvs x) (mini_batch_num x) (x_ts x) (x_futs x) (x_log x) (leftover_txns x)
         c a d f (x_built x).
Definition set_built (l : list (Z * pass1_pkt)) (x : TxnExecutor) : TxnExecutor :=
  MkExec (x_node x) (x_tid x) (x_kvs x) (mini_batch_num x) (x_ts x) (x_futs x) (x_log x) (leftover_txns x)
         (n_commits x) (x_n_aborts x) (n_dropped x) (n_cold_fallbacks x) l.

Definition add_commits (x : TxnExecutor) : TxnExecutor :=
  set_stats (u64 (n_commits x + 1)) (x_n_aborts x) (n_dropped x) (n_cold_fallbacks x) x.
Definition add_aborts (x : TxnExecutor) : TxnExecutor :=
  set_stats (n_commits x) (u64 (x_n_aborts x + 1)) (n_dropped x) (n_cold_fallbacks x) x.
Definition add_dropped (x : TxnExecutor) : TxnExecutor :=
  set_stats (n_commits x) (x_n_aborts x) (u64 (n_dropped x + 1)) (n_cold_fallbacks x) x.
Definition add_fallbacks (x : TxnExecutor) : TxnExecutor :=
  set_stats (n_commits x) (x_n_aborts x) (n_dropped x) (u64 (n_cold_fallbacks x + 1)) x.

(** [mempool.allocate<Future_t>()] followed by the assignments to the fresh
    future, and an assignment to future [f]. *)
Definition push_fut (f : TupleFuture) (x : TxnExecutor) : TxnExecutor := set_futs (x_futs x ++ [f]) x.
Definition put_fut (f : nat) (v : TupleFuture) (x : TxnExecutor) : TxnExecutor :=
  set_futs (<[f := v]> (x_futs x)) x.
(** [log.add_read], [add_write], [add_remote_read], [add_remote_write]. *)
Definition push_log (a : Action) (x : TxnExecutor) : TxnExecutor := set_log (x_log x ++ [a]) x.

(** [*kvs] of the executor's node, and a change of it. *)
Definition kvs_of (w : world) (x : TxnExecutor) : outcome (Node * StructTable) :=
  n ← aget w (x_node x); t ← aget (table_ids (n_db n)) (x_kvs x); Ok (n, t).

Definition put_kvs (w : world) (x : TxnExecutor) (n : Node) (t : StructTable) : world :=
  <[x_node x := set_table (x_kvs x) t n]> w.

(** Replies reach the futures of the thread that waits for them. *)
Definition complete (x : TxnExecutor) (l : list (fut_ref * tuple_msg)) : TxnExecutor :=
  set_futs (foldl (λ futs c, if c.1.1 =? x_tid x then alter (set_pkt c.2) c.1.2 futs else futs) (x_futs x) l) x.

Section undolog.
Context (bm : build).

(** [Write::clear] and [Read::clear]. *)
Definition clear_local (w : world) (x : TxnExecutor) (mode : AccessMode) (index : Z) (f : nat)
  : outcome (world * TxnExecutor) :=
  fut ← aget (x_futs x) f;
  if bool_decide (fut_tuple fut = PNull) then Fail (Thrown RuntimeError)
  else
    '(n, t) ← kvs_of w x;
    '(e, t') ← table_put t index mode (fut_last_acq fut);
    if error e then Fail (Thrown UndoException) else Ok (put_kvs w x n t', x).

(** [Remote<mode>::clear]: the packet of a granted request becomes the put
    request, which is counted and sent; nothing waits here.  Its tuple bytes
    are the ones [tuple] points to. *)
Definition clear_remote (w : world) (x : TxnExecutor) (mode : AccessMode) (f : nat) (tgt : node_t)
  : outcome (list (Z * message) * world * TxnExecutor) :=
  fut ← aget (x_futs x) f;
  match future_get fut with
  | None => Fail Spins
  | Some (None, fut') => Ok ([], w, put_fut f fut' x)
  | Some (Some _, fut') =>
      match fut_pkt fut' with
      | None => Fail Spins
      | Some pkt =>
          if 4 <? mt_tid pkt then Fail (Thrown RuntimeError)
          else
            n ← aget w (x_node x);
            let req := msg_set_pack (get_packed (fut_last_acq fut'))
                         (msg_set_sender (node_of_thread (n_id n) (x_tid x)) (convert TUPLE_PUT_REQ pkt)) in
            if bool_decide (mode = INVALID) then Fail (Thrown InvalidAccessMode)
            else
              counts ← putres_add (n_putres n) (x_tid x);
              Ok ([(node_u32 tgt, TupleMsg req)], <[x_node x := set_putres counts n]> w, put_fut f fut' x)
      end
  end.

(** [action->clear(comm, tid, ts)], with the messages it sends. *)
Definition clear_action (w : world) (x : TxnExecutor) (a : Action)
  : outcome (list (Z * message) * world * TxnExecutor) :=
  match a with
  | ALocal mode index f => '(w', x') ← clear_local w x mode index f; Ok ([], w', x')
  | ARemote mode f tgt => clear_remote w x mode f tgt
  end.

(** The loop over the entries. *)
Fixpoint clear_actions (w : world) (x : TxnExecutor) (acts : list Action)
  : outcome (list (Z * message) * world * TxnExecutor) :=
  match acts with
  | [] => Ok ([], w, x)
  | a :: acts' =>
      '(out, w1, x1) ← clear_action w x a;
      '(out', w2, x2) ← clear_actions w1 x1 acts';
      Ok (out ++ out', w2, x2)
  end.

(** [comm->handler->putresponses.wait(tid)]. *)
Definition wait_puts (w : world) (x : TxnExecutor) : outcome unit :=
  n ← aget w (x_node x); putres_wait (n_putres n) (x_tid x).

(** What the network does while the worker waits: [out] is handed over, then
    the responses. *)
Definition settle (w : world) (x : TxnExecutor) (out : list (Z * message)) : outcome world :=
  '(w', _) ← deliver bm (2 * length out) w out [];
  wait_puts w' x;;
  Ok w'.

(** [Undolog::clear]. *)
Definition log_clear (w : world) (x : TxnExecutor) : outcome (world * TxnExecutor) :=
  '(out, w1, x1) ← clear_actions w x (x_log x);
  w2 ← settle w1 x1 out;
  Ok (w2, set_log [] x1).

(** [Undolog::clear_last_n]. *)
Definition log_clear_last_n (w : world) (x : TxnExecutor) (n : nat) : outcome (world * TxnExecutor) :=
  if decide (length (x_log x) < n)%nat then Fail (Thrown RuntimeError)
  else
    let keep := (length (x_log x) - n)%nat in
    '(out, w1, x1) ← clear_actions w x (rev (drop keep (x_log x)));
    w2 ← settle w1 x1 out;
    Ok (w2, set_log (take keep (x_log x)) x1).
End undolog.
