(* ===== verification/Executor.v ===== *)
(** * The transaction executor

    [src/src/ee/executor.cpp]: acquiring the locks of a transaction, applying
    its writes, committing or rolling back, and the loops that run the queues
    of a batch. *)
From stdpp Require Import base tactics list numbers gmap.
From Stdlib Require Import ZArith Lia.
From S2P Require Import Prelude Types Layout Msg Row Table Mempool SendQ SwitchPkt MsgHandler HotCold Sched Undolog.

#[local] Arguments N_OPS : simpl never.

(** What an execution takes from outside the modelled code: the bytes a fresh
    packet buffer holds, the contents of a switch packet buffer before it is
    filled, the addresses of the packet header, whether the switch replies in
    time, and the readings of the clock behind [ts_factory]. *)
Record externals := MkExt {
  ext_junk : KV;
  ext_buf : pass1_pkt;
  ext_macs : macs;
  ext_reply : bool;
  ext_clock : nat → Z;
}.

Section executor.
Context (bm : build) (ext : externals).

(** What [future->get()] means for an operation: the future's index, or null. *)
Definition fut_result (w : world) (x : TxnExecutor) (f : nat)
  : outcome (option nat * world * TxnExecutor) :=
  fut ← aget (x_futs x) f;
  match future_get fut with
  | None => Fail Spins
  | Some (None, fut') => Ok (None, w, put_fut f fut' x)
  | Some (Some _, fut') => Ok (Some f, w, put_fut f fut' x)
  end.

(** The local half of [read] and [write]. *)
Definition acquire_local (w : world) (x : TxnExecutor) (mode : AccessMode) (op : OP) (id : TxnId)
  : outcome (option nat * world * TxnExecutor) :=
  let f := length (x_futs x) in
  assert (negb (valid id) || (mini_batch_id id =? mini_batch_num x));;
  '(n, t) ← kvs_of w x;
  '(e, t', fut) ← table_get bm t (op_id op) mode (MkFuture None PNull id);
  let w' := put_kvs w x n t' in
  let x1 := push_fut fut x in
  if error e then Ok (None, w', x1)
  else fut_result w' (push_log (ALocal mode (op_id op) f) x1) f.

(** The remote half: the request, its reply, and the future. *)
Definition acquire_remote (w : world) (x : TxnExecutor) (mode : AccessMode) (op : OP) (id : TxnId)
  : outcome (option nat * world * TxnExecutor) :=
  let f := length (x_futs x) in
  '(n, t) ← kvs_of w x;
  let req0 := msg_set_pack (get_packed id)
                (msg_set_sender (node_of (n_id n))
                   (TupleGetReq (x_ts x) (tb_id t) (op_id op) mode id (ext_junk ext))) in
  let '(req, n1) := set_new_id n req0 in
  n2 ← add_future n1 (mt_id req) (x_tid x, f);
  let tgt := target (loc_info op) in
  let x1 := push_log (ARemote mode f tgt) (push_fut Future_init x) in
  '(w', done) ← deliver bm 2 (<[x_node x := n2]> w) [(node_u32 tgt, TupleMsg req)] [];
  fut_result w' (complete x1 done) f.

(** [read] and [write], which differ in the mode. *)
Definition acquire (mode : AccessMode) (w : world) (x : TxnExecutor) (op : OP) (id : TxnId)
  : outcome (option nat * world * TxnExecutor) :=
  if is_local (loc_info op) then acquire_local w x mode op id else acquire_remote w x mode op id.

Definition read := acquire READ.
Definition write := acquire WRITE.

(** [insert]: a new row, locked for writing. *)
Definition insert_row (w : world) (x : TxnExecutor) : outcome (option nat * world * TxnExecutor) :=
  '(n, t) ← kvs_of w x;
  '(key, t1) ← table_insert t;
  let f := length (x_futs x) in
  '(e, t2, fut) ← table_get bm t1 key WRITE Future_init;
  let w' := put_kvs w x n t2 in
  let x1 := push_fut fut x in
  if error e then Ok (None, w', x1)
  else fut_result w' (push_log (ALocal WRITE key f) x1) f.

(** The first loop of [my_execute] and [execute]: the futures of the locked
    operations, or the operation that was refused.  [short_ok] is whether the
    loop may stop early at an [INVALID] operation. *)
Fixpoint lock_loop (short_ok : bool) (w : world) (x : TxnExecutor) (ops : list OP) (id : TxnId)
    (futs : list nat) : outcome (option (list nat) * world * TxnExecutor) :=
  match ops with
  | [] => Ok (Some futs, w, x)
  | op :: ops' =>
      match op_mode op with
      | INVALID => assert short_ok;; Ok (Some futs, w, x)
      | mode =>
          '(r, w1, x1) ← acquire mode w x op id;
          match r with
          | None => Ok (None, w1, x1)
          | Some f => lock_loop short_ok w1 x1 ops' id (futs ++ [f])
          end
      end
  end.

(** [x->value = v] through a future's pointer. *)
Definition write_through (w : world) (x : TxnExecutor) (f : nat) (fut : TupleFuture) (p : tuple_ptr) (v : Z)
  : outcome (world * TxnExecutor) :=
  match p with
  | PLocal i =>
      '(n, t) ← kvs_of w x;
      row ← aget (data t) i;
      d ← aset (data t) i (set_tuple (set_value v (tuple row)) row);
      Ok (put_kvs w x n (set_data d t), x)
  | PPacket =>
      match fut_pkt fut with
      | Some pkt =>
          Ok (w, put_fut f (MkFuture (Some (msg_set_tuple (set_value v (mt_tuple pkt)) pkt))
                                     (fut_tuple fut) (fut_last_acq fut)) x)
      | None => Fail OutOfBounds
      end
  | PNull | PException => Fail OutOfBounds
  end.

(** [x->value] through a future's pointer. *)
Definition read_through (w : world) (x : TxnExecutor) (fut : TupleFuture) (p : tuple_ptr) : outcome Z :=
  match p with
  | PLocal i => '(n, t) ← kvs_of w x; row ← aget (data t) i; Ok (kv_value (tuple row))
  | PPacket => match fut_pkt fut with Some pkt => Ok (kv_value (mt_tuple pkt)) | None => Fail OutOfBounds end
  | PNull | PException => Fail OutOfBounds
  end.

(** [ops[i]->last_acq = arg.id]. *)
Definition stamp_fut (stamp : option TxnId) (f : nat) (x : TxnExecutor) : TxnExecutor :=
  match stamp with
  | None => x
  | Some id => set_futs (alter (fut_set_last_acq id) f (x_futs x)) x
  end.

(** One operation of the second loop; [None] when the tuple is null.  A read
    returns the value it saw. *)
Definition apply_op (stamp : option TxnId) (w : world) (x : TxnExecutor) (op : OP) (f : nat)
  : outcome (option (option Z) * world * TxnExecutor) :=
  fut ← aget (x_futs x) f;
  match future_get fut with
  | None => Fail Spins
  | Some (None, fut') => Ok (None, w, put_fut f fut' x)
  | Some (Some p, fut') =>
      let x1 := put_fut f fut' x in
      match op_mode op with
      | WRITE => '(w', x2) ← write_through w x1 f fut' p (op_value op);
                 Ok (Some None, w', stamp_fut stamp f x2)
      | _ => v ← read_through w x1 fut' p; Ok (Some (Some v), w, stamp_fut stamp f x1)
      end
  end.

(** The second loop: false when it must roll back; [reads] collects the values
    the reads saw. *)
Fixpoint apply_loop (stamp : option TxnId) (w : world) (x : TxnExecutor) (ops : list OP) (futs : list nat)
    (reads : list Z) : outcome (bool * list Z * world * TxnExecutor) :=
  match ops with
  | [] => Ok (true, reads, w, x)
  | op :: ops' =>
      match op_mode op with
      | INVALID => Ok (true, reads, w, x)
      | _ =>
          match futs with
          | [] => Fail OutOfBounds
          | f :: futs' =>
              '(r, w1, x1) ← apply_op stamp w x op f;
              match r with
              | None => Ok (false, reads, w1, x1)
              | Some v => apply_loop stamp w1 x1 ops' futs'
                            (match v with Some z => reads ++ [z] | None => reads end)
              end
          end
      end
  end.

(** [commit] and [rollback]: both clear the log and the futures. *)
Definition end_txn (rc : RC) (w : world) (x : TxnExecutor) : outcome (RC * world * TxnExecutor) :=
  '(w', x') ← log_clear bm w x;
  Ok (rc, w', set_futs [] x').

Definition commit := end_txn COMMIT.
Definition rollback := end_txn ROLLBACK.

Definition set_id (id : TxnId) (t : Txn) : Txn :=
  MkTxn (cold_ops t) (hot_ops_pass1 t) (hot_ops_pass2 t) (init_done t) (do_accel t) (n_aborts t)
        (hottest_cold_i1 t) (hottest_cold_i2 t) (locks_check t) (locks_acquire t) id (loader_id t).
Definition set_txn_aborts (n : Z) (t : Txn) : Txn :=
  MkTxn (cold_ops t) (hot_ops_pass1 t) (hot_ops_pass2 t) (init_done t) (do_accel t) n
        (hottest_cold_i1 t) (hottest_cold_i2 t) (locks_check t) (locks_acquire t) (txn_id t) (loader_id t).

(** [my_execute]: the result, the packet buffer it reserved and the values it
    read. *)
Record exec_result := MkResult { r_rc : RC; r_fill : option Z; r_reads : list Z }.

Definition my_execute (w : world) (x : TxnExecutor) (arg : Txn) (ref : txn_ref)
  : outcome (exec_result * Txn * world * TxnExecutor) :=
  let id := set_valid true (txn_id arg) in
  let arg' := set_id id arg in
  assert (mini_batch_id id =? mini_batch_num x);;
  '(locked, w1, x1) ← lock_loop true w x (cold_ops arg') id [];
  match locked with
  | None => '(rc, w2, x2) ← rollback w1 x1; Ok (MkResult rc None [], arg', w2, x2)
  | Some futs =>
      '(ok, reads, w2, x2) ← apply_loop (Some id) w1 x1 (cold_ops arg') futs [];
      if negb ok then '(rc, w3, x3) ← rollback w2 x2; Ok (MkResult rc None [], arg', w3, x3)
      else
        n ← aget w2 (x_node x2);
        '(buf, q') ← alloc_slot (n_send_q n) (mini_batch_num x2) ref;
        '(rc, w3, x3) ← commit (<[x_node x2 := set_send_q q' n]> w2) x2;
        Ok (MkResult rc (Some buf) reads, arg', w3, x3)
  end.

(** [atomic]: the packet is built, sent, and the reply awaited. *)
Definition atomic (L : DeclusteredLayout) (x : TxnExecutor) (arg : Txn) : outcome TxnExecutor :=
  _ ← make_txn_1pass bm (ext_macs ext) L arg (ext_buf ext);
  Ok (if ext_reply ext then x else add_dropped x).

(** [execute], the path without acceleration; [now] is the timestamp. *)
Definition execute (L : DeclusteredLayout) (now : Z) (w : world) (x0 : TxnExecutor) (arg : Txn)
  : outcome (exec_result * Txn * world * TxnExecutor) :=
  let id := set_valid false (txn_id arg) in
  let arg' := set_id id arg in
  let x := set_ts now x0 in
  '(locked, w1, x1) ← lock_loop (ORIG_MODE bm) w x (cold_ops arg') id [];
  match locked with
  | None => '(rc, w2, x2) ← rollback w1 (add_aborts x1); Ok (MkResult rc None [], arg', w2, x2)
  | Some futs =>
      '(ok, reads, w2, x2) ← apply_loop None w1 x1 (cold_ops arg') futs [];
      if negb ok then '(rc, w3, x3) ← rollback w2 (add_aborts x2); Ok (MkResult rc None [], arg', w3, x3)
      else
        x3 ← (if do_accel arg' then atomic L x2 arg' else Ok x2);
        '(rc, w4, x4) ← commit w2 (add_commits x3);
        Ok (MkResult rc None reads, arg', w4, x4)
  end.

(** ** Queues of transactions *)

(** The conversion of hot operations back into cold ones: both loops take
    their operations from [hot_ops_pass1], and fill [cold_ops] from the end. *)
Definition restore_hot (txn : Txn) : outcome (list OP * Z) :=
  let pass1 := active_hot (take N_OPS (hot_ops_pass1 txn)) in
  let pass2 := active_hot (take MAX_OPS_PASS2_ACCEL (hot_ops_pass2 txn)) in
  let put := λ (st : list OP * Z) (p : nat),
    pr ← aget (hot_ops_pass1 txn) p; c ← zset st.1 st.2 pr.1; Ok (c, u64 (st.2 - 1)) in
  st1 ← ofold put (seq 0 (length pass1)) (cold_ops txn, Z.of_nat N_OPS - 1);
  ofold put (seq 0 (length pass2)) st1.

(** [run_txn(sched, enqueue_aborts, q)] on the thread's transactions. *)
Definition run_txn (L : DeclusteredLayout) (node_id : Z) (enqueue_aborts : bool) (q : list nat)
    (txns : list Txn) (w : world) (x : TxnExecutor)
  : outcome (list nat * list Txn * world * TxnExecutor) :=
  match q with
  | [] => Fail AssertFailed
  | e :: q' =>
      txn0 ← entry_to_txn txns e;
      assert (init_done txn0);;
      assert (0 <? mini_batch_num x);;
      let txn := set_id (TxnId_make true node_id (mini_batch_num x)) txn0 in
      assert ((node_id =? Types.node_id (txn_id txn)) && (mini_batch_id (txn_id txn) =? mini_batch_num x));;
      if do_accel txn then
        '(res, txn1, w1, x1) ← my_execute w x txn (x_tid x, e);
        match r_rc res with
        | ROLLBACK =>
            let x2 := add_aborts x1 in
            let txn2 := set_txn_aborts (u64 (n_aborts txn1 + 1)) txn1 in
            if enqueue_aborts && (n_aborts txn2 <=? MAX_TIMES_ACCEL_ABORT) then
              txns' ← aset txns e txn2; Ok (q' ++ [e], txns', w1, x2)
            else
              '(cold, cold_p) ← restore_hot txn2;
              c ← zget cold cold_p;
              assert (bool_decide (op_mode c ≠ INVALID));;
              txns' ← aset txns e (set_accel false (set_cold cold txn2));
              let x3 := add_fallbacks x2 in
              Ok (q', txns', w1, set_leftover (leftover_txns x3 ++ [e]) x3)
        | COMMIT =>
            let x2 := add_commits x1 in
            txns' ← aset txns e txn1;
            match r_fill res with
            | None => Fail OutOfBounds
            | Some buf =>
                pkt ← make_txn_1pass bm (ext_macs ext) L txn1 (ext_buf ext);
                Ok (q', txns', w1, set_built (x_built x2 ++ [(buf, pkt)]) x2)
            end
        end
      else
        txns' ← aset txns e txn;
        let x1 := add_fallbacks x in
        Ok (q', txns', w, set_leftover (leftover_txns x1 ++ [e]) x1)
  end.

(** The loop of [run_leftover_txns]: [fuel] bounds the number of executions,
    [k] is the number of the next one. *)
Fixpoint leftover_loop (fuel : nat) (L : DeclusteredLayout) (k : nat) (keep : nat) (txns : list Txn)
    (w : world) (x : TxnExecutor) : outcome (list Txn * world * TxnExecutor) :=
  if decide (keep < length (leftover_txns x))%nat then
    match fuel, leftover_txns x with
    | S fuel', e :: _ =>
        txn ← entry_to_txn txns e;
        '(res, txn', w', x') ← execute L (ext_clock ext k) w x txn;
        txns' ← aset txns e txn';
        let l := match r_rc res with ROLLBACK => leftover_txns x' ++ [e] | COMMIT => leftover_txns x' end in
        leftover_loop fuel' L (S k) keep txns' w' (set_leftover (tail l) x')
    | _, _ => Fail Spins
    end
  else Ok (txns, w, x).

(** [run_leftover_txns]. *)
Definition run_leftover_txns (fuel : nat) (L : DeclusteredLayout) (k : nat) (txns : list Txn)
    (w : world) (x : TxnExecutor) : outcome (list Txn * world * TxnExecutor) :=
  '(txns', w', x') ← leftover_loop fuel L k (Nat.div (length (leftover_txns x)) 100) txns w x;
  Ok (txns', w', set_leftover [] x').

(** One mini-batch: up to [tgt] transactions of queue [q]; [fuel] is the
    number left to run. *)
Fixpoint mini_batch (fuel : nat) (L : DeclusteredLayout) (node_id : Z) (q : list nat) (txns : list Txn)
    (w : world) (x : TxnExecutor) : outcome (list nat * list Txn * world * TxnExecutor) :=
  match fuel, q with
  | S fuel', _ :: _ =>
      '(q', txns', w', x') ← run_txn L node_id true q txns w x;
      mini_batch fuel' L node_id q' txns' w' x'
  | _, _ => Ok (q, txns, w, x)
  end.

(** [while (!q.empty()) run_txn(sched, false, q)], which takes an element off
    the queue every time. *)
Fixpoint drain (fuel : nat) (L : DeclusteredLayout) (node_id : Z) (q : list nat) (txns : list Txn)
    (w : world) (x : TxnExecutor) : outcome (list Txn * world * TxnExecutor) :=
  match q with
  | [] => Ok (txns, w, x)
  | _ :: _ =>
      match fuel with
      | O => Fail Spins
      | S fuel' =>
          '(q', txns', w', x') ← run_txn L node_id false q txns w x;
          drain fuel' L node_id q' txns' w' x'
      end
  end.

(** The mini-batches of a batch: [rounds] times the next queue, up to
    [mini_batch_tgt] transactions, then the mini-batch number is advanced and
    the workers meet at the barrier. *)
Fixpoint mini_batches (rounds : nat) (mini_batch_tgt : nat) (L : DeclusteredLayout) (sc : scheduler_t)
    (txns : list Txn) (w : world) (x : TxnExecutor) : outcome (scheduler_t * list Txn * world * TxnExecutor) :=
  match rounds with
  | O => Ok (sc, txns, w, x)
  | S rounds' =>
      qn ← umod (u32 (mini_batch_num x - 1)) (n_queues sc);
      q ← aget (mb_queues sc) (Z.to_nat qn);
      '(q', txns', w', x') ← mini_batch mini_batch_tgt L (sc_node_id sc) q txns w x;
      qs ← aset (mb_queues sc) (Z.to_nat qn) q';
      mini_batches rounds' mini_batch_tgt L (set_queues qs sc) txns' w'
                   (set_mb (u32 (mini_batch_num x' + 1)) x')
  end.

(** The drain of all queues in one more mini-batch. *)
Fixpoint drain_all (L : DeclusteredLayout) (node_id : Z) (qs : list (list nat)) (txns : list Txn)
    (w : world) (x : TxnExecutor) : outcome (list Txn * world * TxnExecutor) :=
  match qs with
  | [] => Ok (txns, w, x)
  | q :: qs' =>
      '(txns', w', x') ← drain (length q) L node_id q txns w x;
      drain_all L node_id qs' txns' w' x'
  end.

(** One batch of [txn_executor] on a worker, up to the hot period. *)
Definition run_batch (L : DeclusteredLayout) (p : PartitionInfo) (n_threads : Z) (sc : scheduler_t)
    (txns : list Txn) (i : nat) (w : world) (x : TxnExecutor)
  : outcome (scheduler_t * list Txn * DeclusteredLayout * world * TxnExecutor) :=
  batch_tgt ← udiv BATCH_SIZE_TGT n_threads;
  mini_tgt ← udiv MINI_BATCH_SIZE_TGT n_threads;
  st ← sched_batch bm p sc txns L i (i + Z.to_nat batch_tgt);
  '(sc1, txns1, w1, x1) ← mini_batches (Z.to_nat (BATCH_SIZE_TGT / MINI_BATCH_SIZE_TGT)) (Z.to_nat mini_tgt)
                            (b_layout st) (b_sched st) (b_txns st) w x;
  '(txns2, w2, x2) ← drain_all (b_layout st) (sc_node_id sc1)
                       (take (Z.to_nat (n_queues sc1)) (mb_queues sc1)) txns1 w1 x1;
  Ok (set_queues (replicate (length (mb_queues sc1)) []) sc1, txns2, b_layout st, w2,
      set_mb (u32 (mini_batch_num x2 + 1)) x2).

(** [txns.resize((txns.size() / batch_tgt) * batch_tgt)]. *)
Definition trim_txns (batch_tgt : nat) (txns : list Txn) : list Txn :=
  take (Nat.div (length txns) batch_tgt * batch_tgt) txns.

(** The loop of [orig_txn_executor]. *)
Fixpoint orig_loop (idxs : list nat) (p : PartitionInfo) (k : nat) (L : DeclusteredLayout) (txns : list Txn)
    (w : world) (x : TxnExecutor) : outcome (DeclusteredLayout * list Txn * world * TxnExecutor) :=
  match idxs with
  | [] => Ok (L, txns, w, x)
  | i :: idxs' =>
      txn ← aget txns i;
      '(txn1, L1) ← extract_hot_cold bm p txn L;
      assert (init_done txn1);;
      '(res, txn2, w1, x1) ← execute L1 (ext_clock ext k) w x txn1;
      txns' ← aset txns i txn2;
      let x2 := match r_rc res with
                | ROLLBACK => set_leftover (leftover_txns x1 ++ [i]) x1
                | COMMIT => x1
                end in
      orig_loop idxs' p (S k) L1 txns' w1 x2
  end.

(** [orig_txn_executor]. *)
Definition orig_txn_executor (fuel : nat) (p : PartitionInfo) (n_threads : Z) (L : DeclusteredLayout)
    (txns0 : list Txn) (w : world) (x : TxnExecutor) : outcome (list Txn * world * TxnExecutor) :=
  batch_tgt ← udiv BATCH_SIZE_TGT n_threads;
  let txns := trim_txns (Z.to_nat batch_tgt) txns0 in
  '(L1, txns1, w1, x1) ← orig_loop (seq 0 (length txns)) p 0%nat L txns w x;
  run_leftover_txns fuel L1 (length txns) txns1 w1 x1.
End executor.
