(* ===== verification/RowAccess.v ===== *)
(** * What the executor does to rows

    The effect of acquiring and releasing one lock on the world, stated on the
    rows: local calls and request/reply pairs with another node change exactly
    the addressed row. *)
From stdpp Require Import base tactics list numbers gmap.
From Stdlib Require Import ZArith Lia.
From S2P Require Import Prelude Types Layout Msg Row Table Mempool SendQ SwitchPkt MsgHandler HotCold Sched Undolog Executor.

(** ** Addresses *)

(** A row's address: its node and its key. *)
Definition addr : Type := nat * nat.

Definition row_at (kvs : nat) (w : world) (a : addr) : option Row :=
  n ← w !! a.1; t ← table_ids (n_db n) !! kvs; data t !! a.2.

Definition set_node_row (kvs k : nat) (r : Row) (n : Node) : Node :=
  set_db (MkRegistry (alter (λ t, set_data (<[k := r]> (data t)) t) kvs (table_ids (n_db n)))
                     (table_names (n_db n))) n.

Definition set_row (kvs : nat) (w : world) (a : addr) (r : Row) : world :=
  alter (set_node_row kvs a.2 r) a.1 w.

(** One more message id used by a node. *)
Definition bump_id (i : nat) (w : world) : world :=
  alter (λ n, set_next_id (u64 (next_id n + 1)) n) i w.

Lemma alter_const {A} (l : list A) i f x : l !! i = Some x → alter f i l = <[i := f x]> l.
Proof.
  intros H. apply list_eq. intros j. destruct (decide (i = j)) as [->|Hne].
  - rewrite list_lookup_alter_eq, H, list_lookup_insert_eq; [done|by eapply lookup_lt_Some].
  - by rewrite list_lookup_alter_ne, list_lookup_insert_ne.
Qed.

Lemma row_at_inv kvs w a r :
  row_at kvs w a = Some r →
  ∃ n t, w !! a.1 = Some n ∧ table_ids (n_db n) !! kvs = Some t ∧ data t !! a.2 = Some r.
Proof.
  unfold row_at. destruct (w !! a.1) as [n|]; simpl; [|done].
  destruct (table_ids (n_db n) !! kvs) as [t|] eqn:E; simpl; [|done]. intros H. by exists n, t.
Qed.

Lemma row_at_set_row kvs w a r a' :
  is_Some (row_at kvs w a) →
  row_at kvs (set_row kvs w a r) a' = if decide (a' = a) then Some r else row_at kvs w a'.
Proof.
  intros [r0 (n & t & Hn & Ht & Hr)%row_at_inv]. destruct a as [i k], a' as [i' k']. simpl in *.
  unfold row_at, set_row; cbn [fst snd].
  destruct (decide (i' = i)) as [->|Hne].
  - rewrite list_lookup_alter_eq, Hn. cbn [fmap option_fmap option_map mbind option_bind].
    unfold set_node_row; cbn [set_db n_db table_ids]. rewrite list_lookup_alter_eq, Ht.
    cbn [fmap option_fmap option_map mbind option_bind set_data data].
    destruct (decide (k' = k)) as [->|Hk].
    + rewrite decide_True by done. rewrite list_lookup_insert_eq; [done|]. by eapply lookup_lt_Some.
    + rewrite decide_False by congruence. by rewrite list_lookup_insert_ne.
  - rewrite decide_False by congruence. by rewrite list_lookup_alter_ne.
Qed.

Lemma row_at_bump kvs i w a : row_at kvs (bump_id i w) a = row_at kvs w a.
Proof.
  unfold row_at, bump_id. destruct (decide (a.1 = i)) as [->|Hne].
  - rewrite list_lookup_alter_eq. by destruct (w !! i).
  - by rewrite list_lookup_alter_ne.
Qed.

(** ** Worlds between two calls

    Every future has been answered; put requests may be under way.  [workers]
    is the number of workers per node, each with a count of unanswered puts. *)
Record node_ok (kvs : nat) (workers : Z) (i : nat) (n : Node) : Prop := {
  no_id : n_id n = Z.of_nat i;
  no_futures : open_futures n = ∅;
  no_putres : length (n_putres n) = Z.to_nat workers;
  no_kvs : ∃ t, table_ids (n_db n) !! kvs = Some t ∧ tb_id t = Z.of_nat kvs
             ∧ tb_size t = Z.of_nat (length (data t))
             ∧ Forall (λ r, TxnId_ok (last_acq r)) (data t);
}.

Record world_ok (kvs : nat) (workers : Z) (w : world) : Prop := {
  wo_len : (length w ≤ 256)%nat;
  wo_node : ∀ i n, w !! i = Some n → node_ok kvs workers i n;
}.

Record exec_ok (kvs : nat) (workers : Z) (w : world) (x : TxnExecutor) : Prop := {
  eo_node : (x_node x < length w)%nat;
  eo_tid : 0 ≤ x_tid x < workers;
  eo_workers : workers ≤ 2 ^ 24;
  eo_kvs : x_kvs x = kvs ∧ (kvs ≤ 4)%nat;
}.

Lemma set_row_ok kvs workers w a r :
  world_ok kvs workers w → TxnId_ok (last_acq r) → world_ok kvs workers (set_row kvs w a r).
Proof.
  intros [Hl Hn] Hr. split; [unfold set_row; by rewrite length_alter|].
  intros i n Hi. unfold set_row in Hi. destruct (decide (i = a.1)) as [->|Hne].
  - rewrite list_lookup_alter_eq in Hi. destruct (w !! a.1) as [n0|] eqn:E; [|done]. injection Hi as <-.
    destruct (Hn _ _ E) as [H1 H2 H3 (t & Ht & Hid & Hsz & HF)]. split; try done.
    exists (set_data (<[a.2 := r]> (data t)) t). unfold set_node_row; cbn [set_db n_db table_ids].
    rewrite list_lookup_alter_eq, Ht. cbn [set_data tb_id tb_size data]. rewrite length_insert.
    split_and!; try done. by apply Forall_insert.
  - rewrite list_lookup_alter_ne in Hi by done. by apply Hn.
Qed.

Lemma bump_id_ok kvs workers w i : world_ok kvs workers w → world_ok kvs workers (bump_id i w).
Proof.
  intros [Hl Hn]. split; [unfold bump_id; by rewrite length_alter|].
  intros j n Hj. unfold bump_id in Hj. destruct (decide (j = i)) as [->|Hne].
  - rewrite list_lookup_alter_eq in Hj. destruct (w !! i) as [n0|] eqn:E; [|done]. injection Hj as <-.
    by destruct (Hn _ _ E).
  - rewrite list_lookup_alter_ne in Hj by done. by apply Hn.
Qed.

Lemma length_set_row kvs w a r : length (set_row kvs w a r) = length w.
Proof. apply length_alter. Qed.
Lemma length_bump i w : length (bump_id i w) = length w.
Proof. apply length_alter. Qed.

(** The switch queues are not touched by row accesses. *)
Lemma send_q_set_row kvs w a r : n_send_q <$> set_row kvs w a r = n_send_q <$> w.
Proof.
  apply list_eq. intros i. rewrite !list_lookup_fmap. unfold set_row. destruct (decide (a.1 = i)) as [<-|Hne].
  - rewrite list_lookup_alter_eq. by destruct (w !! a.1).
  - by rewrite list_lookup_alter_ne.
Qed.

Lemma send_q_bump i w : n_send_q <$> bump_id i w = n_send_q <$> w.
Proof.
  apply list_eq. intros j. rewrite !list_lookup_fmap. unfold bump_id. destruct (decide (i = j)) as [<-|Hne].
  - rewrite list_lookup_alter_eq. by destruct (w !! i).
  - by rewrite list_lookup_alter_ne.
Qed.

Lemma send_q_len (w w' : world) : n_send_q <$> w' = n_send_q <$> w → length w' = length w.
Proof. intros H. apply (f_equal length) in H. by rewrite !length_fmap in H. Qed.

(** Neither are the counts of unanswered puts. *)
Lemma putres_set_row kvs w a r : n_putres <$> set_row kvs w a r = n_putres <$> w.
Proof.
  apply list_eq. intros i. rewrite !list_lookup_fmap. unfold set_row. destruct (decide (a.1 = i)) as [<-|Hne].
  - rewrite list_lookup_alter_eq. by destruct (w !! a.1).
  - by rewrite list_lookup_alter_ne.
Qed.

Lemma putres_bump i w : n_putres <$> bump_id i w = n_putres <$> w.
Proof.
  apply list_eq. intros j. rewrite !list_lookup_fmap. unfold bump_id. destruct (decide (i = j)) as [<-|Hne].
  - rewrite list_lookup_alter_eq. by destruct (w !! i).
  - by rewrite list_lookup_alter_ne.
Qed.

(** ** The counts of unanswered puts *)

Definition put_count (w : world) (i c : nat) : option Z := counts ← (n_putres <$> w) !! i; counts !! c.

Definition set_count (i c : nat) (v : Z) (w : world) : world :=
  alter (λ n, set_putres (<[c := v]> (n_putres n)) n) i w.

Lemma put_count_inv w i c v : put_count w i c = Some v → ∃ n, w !! i = Some n ∧ n_putres n !! c = Some v.
Proof.
  unfold put_count. rewrite list_lookup_fmap. destruct (w !! i) as [n|]; simpl; [|done]. by exists n.
Qed.

Lemma row_at_set_count kvs i c v w a : row_at kvs (set_count i c v w) a = row_at kvs w a.
Proof.
  unfold row_at, set_count. destruct (decide (a.1 = i)) as [->|Hne].
  - rewrite list_lookup_alter_eq. by destruct (w !! i).
  - by rewrite list_lookup_alter_ne.
Qed.

Lemma length_set_count i c v w : length (set_count i c v w) = length w.
Proof. apply length_alter. Qed.

Lemma put_count_set_count i c v w i' c' :
  is_Some (put_count w i c) →
  put_count (set_count i c v w) i' c' = if decide ((i', c') = (i, c)) then Some v else put_count w i' c'.
Proof.
  intros [v0 (n & Hn & Hc)%put_count_inv]. unfold put_count, set_count. rewrite !list_lookup_fmap.
  destruct (decide (i' = i)) as [->|Hne].
  - rewrite list_lookup_alter_eq, Hn. cbn [fmap option_fmap option_map mbind option_bind set_putres n_putres].
    destruct (decide (c' = c)) as [->|Hc'].
    + rewrite decide_True by done. apply list_lookup_insert_eq. by eapply lookup_lt_Some.
    + rewrite decide_False by congruence. by rewrite list_lookup_insert_ne.
  - rewrite decide_False by congruence. by rewrite list_lookup_alter_ne.
Qed.

Lemma set_count_ok kvs workers w i c v : world_ok kvs workers w → world_ok kvs workers (set_count i c v w).
Proof.
  intros [Hl Hn]. split; [by rewrite length_set_count|].
  intros j n Hj. unfold set_count in Hj. destruct (decide (j = i)) as [->|Hne].
  - rewrite list_lookup_alter_eq in Hj. destruct (w !! i) as [n0|] eqn:E; [|done]. injection Hj as <-.
    destruct (Hn _ _ E) as [H1 H2 H3 H4]. split; try done. cbn [set_putres n_putres]. by rewrite length_insert.
  - rewrite list_lookup_alter_ne in Hj by done. by apply Hn.
Qed.

Lemma exec_ok_len kvs workers w w' x :
  length w' = length w → exec_ok kvs workers w x → exec_ok kvs workers w' x.
Proof. intros Hl []. split; try done. by rewrite Hl. Qed.

Lemma set_table_row n kvs t k r :
  table_ids (n_db n) !! kvs = Some t →
  set_table kvs (set_data (<[k := r]> (data t)) t) n = set_node_row kvs k r n.
Proof. intros Ht. unfold set_table, set_node_row. by rewrite (alter_const _ _ _ t Ht). Qed.

Lemma put_kvs_row w x n t k r :
  w !! x_node x = Some n → table_ids (n_db n) !! x_kvs x = Some t →
  put_kvs w x n (set_data (<[k := r]> (data t)) t) = set_row (x_kvs x) w (x_node x, k) r.
Proof.
  intros Hn Ht. unfold put_kvs, set_row; cbn [fst snd].
  by rewrite (alter_const _ _ _ n Hn), set_table_row.
Qed.

(** Writing back a row that is already there. *)
Lemma set_row_id kvs w a r : row_at kvs w a = Some r → set_row kvs w a r = w.
Proof.
  intros (n & t & Hn & Ht & Hr)%row_at_inv. unfold set_row. rewrite (alter_const _ _ _ n Hn).
  apply list_insert_id. rewrite Hn. f_equal. unfold set_node_row. rewrite (alter_const _ _ _ t Ht).
  rewrite (list_insert_id (data t)) by done.
  assert (set_data (data t) t = t) as -> by by destruct t.
  rewrite (list_insert_id (table_ids (n_db n))) by done. destruct n as [? ? [? ?] ? ? ? ? ? ?]. done.
Qed.

Lemma set_row_set_row kvs w a r1 r2 : set_row kvs (set_row kvs w a r1) a r2 = set_row kvs w a r2.
Proof.
  unfold set_row. rewrite list_alter_alter_eq. apply list_alter_ext; [|done].
  intros n _. unfold compose, set_node_row, set_db;
    cbn [n_db table_ids table_names n_id n_num n_send_q n_init n_received n_putres next_id open_futures].
  rewrite list_alter_alter_eq. do 2 f_equal. apply list_alter_ext; [|done].
  intros t _. unfold compose. cbn [set_data data]. by rewrite list_insert_insert_eq.
Qed.

(** The two steps of a table's entry points, on the row. *)
Section access.
Context (bm : build) (ext : externals) (kvs : nat) (workers : Z).

Lemma kvs_of_ok w x :
  world_ok kvs workers w → exec_ok kvs workers w x →
  ∃ n t, kvs_of w x = Ok (n, t) ∧ w !! x_node x = Some n ∧ table_ids (n_db n) !! x_kvs x = Some t
    ∧ node_ok kvs workers (x_node x) n ∧ tb_id t = Z.of_nat kvs ∧ tb_size t = Z.of_nat (length (data t)).
Proof.
  intros Hw Hx. unfold kvs_of. destruct (lookup_lt_is_Some_2 w (x_node x)) as [n Hn]; [apply Hx|].
  pose proof (wo_node _ _ _ Hw _ _ Hn) as Hno. destruct (no_kvs _ _ _ _ Hno) as (t & Ht & Hid & Hsz & _).
  destruct (eo_kvs _ _ _ _ Hx) as [Hk _]. exists n, t. rewrite Hk.
  rewrite (proj2 (aget_ok _ _ _) Hn). cbn [mbind outcome_bind].
  rewrite (proj2 (aget_ok _ _ _) Ht). done.
Qed.

(** The executor's future and log after a granted local lock. *)
Definition local_granted (x : TxnExecutor) (mode : AccessMode) (k : Z) (r : Row) : TxnExecutor :=
  push_log (ALocal mode k (length (x_futs x)))
    (push_fut (MkFuture None (PLocal (Z.to_nat k)) (last_acq r)) x).

Lemma put_fut_last x f v : x_futs x = f ++ [v] → put_fut (length f) v x = x.
Proof.
  intros Hf. unfold put_fut, set_futs. rewrite Hf. rewrite list_insert_id by (by apply list_lookup_middle).
  destruct x. cbn in *. by rewrite Hf.
Qed.

Lemma acquire_local_spec w x mode op id r b :
  world_ok kvs workers w → exec_ok kvs workers w x → 0 ≤ op_id op → mode ≠ INVALID →
  valid id = false ∨ mini_batch_id id = mini_batch_num x →
  row_at kvs w (x_node x, Z.to_nat (op_id op)) = Some r →
  (is_compatible r mode = true → mb_allow_lock bm r id = Ok b) →
  acquire_local bm w x mode op id =
    if is_compatible r mode && b
    then Ok (Some (length (x_futs x)), set_row kvs w (x_node x, Z.to_nat (op_id op)) (grant mode r),
             local_granted x mode (op_id op) r)
    else Ok (None, w, push_fut (MkFuture None PNull id) x).
Proof.
  intros Hw Hx Hk Hmode Hmb Hrow Hallow.
  destruct (kvs_of_ok w x Hw Hx) as (n & t & Hkvs & Hn & Ht & Hno & Hid & Hsz).
  destruct (eo_kvs _ _ _ _ Hx) as [Hxk _].
  assert (data t !! Z.to_nat (op_id op) = Some r) as Hr.
  { unfold row_at in Hrow. cbn [fst snd] in Hrow. rewrite Hn in Hrow. simpl in Hrow.
    rewrite <-Hxk, Ht in Hrow. done. }
  pose proof (lookup_lt_Some _ _ _ Hr) as Hlt.
  unfold acquire_local.
  assert (negb (valid id) || (mini_batch_id id =? mini_batch_num x) = true) as ->.
  { destruct Hmb as [-> | ->]; [done|]. by rewrite Z.eqb_refl, orb_true_r. }
  cbn [assert mbind outcome_bind]. rewrite Hkvs. cbn [mbind outcome_bind].
  unfold table_get, translate. rewrite (proj2 (Z.leb_gt _ _)) by lia.
  rewrite (proj2 (aget_ok _ _ _) Hr). cbn [mbind outcome_bind].
  unfold local_lock; cbn [fut_last_acq fut_pkt].
  assert (error (lock_error mode) = true ∧
    put_kvs w x n (set_data (<[Z.to_nat (op_id op) := r]> (data t)) t) = w) as [Herr Hput].
  { split; [by destruct mode|]. rewrite put_kvs_row by done. rewrite Hxk. by apply set_row_id. }
  destruct (is_compatible r mode) eqn:Ec; cbn [negb andb].
  - rewrite Hallow by done. cbn [mbind outcome_bind negb orb]. destruct b; cbn [negb orb].
    + cbn [mbind outcome_bind]. rewrite aset_lt by done. cbn [mbind outcome_bind].
      change (error SUCCESS) with false. cbn [mbind outcome_bind].
      rewrite put_kvs_row by done. rewrite Hxk. unfold fut_result.
      rewrite (proj2 (aget_ok _ _ (MkFuture None (PLocal (Z.to_nat (op_id op))) (last_acq r)))).
      2:{ cbn [push_log push_fut set_log set_futs x_futs]. by apply list_lookup_middle. }
      cbn [mbind outcome_bind future_get fut_tuple]. fold (local_granted x mode (op_id op) r).
      by rewrite (put_fut_last _ (x_futs x)).
    + cbn [mbind outcome_bind]. rewrite aset_lt by done. cbn [mbind outcome_bind].
      by rewrite Herr, Hput.
  - cbn [mbind outcome_bind]. rewrite aset_lt by done. cbn [mbind outcome_bind].
    by rewrite Herr, Hput.
Qed.

(** The executor's future and log after a remote request. *)
Definition remote_asked (x : TxnExecutor) (mode : AccessMode) (tgt : node_t) (fut : TupleFuture) : TxnExecutor :=
  push_log (ARemote mode (length (x_futs x)) tgt) (push_fut fut x).

Lemma insert_two (w : world) i j n nj n3 nj' n2 :
  i ≠ j → w !! i = Some n → w !! j = Some nj →
  <[i := n3]> (<[j := nj']> (<[i := n2]> w)) = <[i := n3]> (<[j := nj']> w).
Proof.
  intros Hne Hi Hj. apply list_eq. intros k.
  pose proof (lookup_lt_Some _ _ _ Hi). pose proof (lookup_lt_Some _ _ _ Hj).
  destruct (decide (k = i)) as [->|Hki]; [|destruct (decide (k = j)) as [->|Hkj]].
  - by rewrite !list_lookup_insert_eq by (rewrite ?length_insert; done).
  - rewrite !(list_lookup_insert_ne _ i j) by done. by rewrite !list_lookup_insert_eq by (rewrite ?length_insert; done).
  - by rewrite !list_lookup_insert_ne by done.
Qed.

(** The request a remote lock sends, and the reply a granted one gets. *)
Definition lock_req (n : Node) (x : TxnExecutor) (k : Z) (mode : AccessMode) (id : TxnId) : tuple_msg :=
  MkTupleMsg TUPLE_GET_REQ (node_of (n_id n)) (next_id n) (x_ts x) (Z.of_nat kvs) k mode (get_packed id) (ext_junk ext).

Definition lock_res (req : tuple_msg) (r : Row) (granted : bool) : tuple_msg :=
  if granted then msg_set_tuple (tuple r) (msg_set_pack (get_packed (last_acq r)) (convert TUPLE_GET_RES req))
  else msg_set_mode INVALID (convert TUPLE_GET_RES req).

(** The target's handling of a lock request. *)
Lemma handle_lock_req nj j r n x k mode id b :
  node_ok kvs workers j nj → (∃ t, table_ids (n_db nj) !! kvs = Some t ∧ data t !! Z.to_nat k = Some r) →
  TxnId_ok id → mb_allow_lock bm r id = Ok b →
  let g := is_compatible r mode && b in
  let req := lock_req n x k mode id in
  handle bm nj (TupleMsg req)
  = Ok (set_node_row kvs (Z.to_nat k) (if g then grant mode r else r) nj,
        MkEffects [(node_u32 (node_of (n_id n)), TupleMsg (lock_res req r g))] None).
Proof.
  intros Hno (t & Ht & Hr) Hid Hallow g req.
  unfold handle. change (mt_type req) with TUPLE_GET_REQ. cbv beta iota.
  unfold handle_get_req, by_id. change (mt_tid req) with (Z.of_nat kvs). rewrite Nat2Z.id.
  rewrite (proj2 (aget_ok _ _ _) Ht). cbn [mbind outcome_bind].
  unfold remote_get, translate. change (mt_rid req) with k. rewrite (proj2 (aget_ok _ _ _) Hr). cbn [mbind outcome_bind].
  unfold remote_lock. change (mt_pack req) with (get_packed id). change (mt_mode req) with mode. rewrite txn_id_unpack_packed, Hallow by done. cbn [mbind outcome_bind].
  assert (Z.to_nat k < length (data t))%nat as Hlt by by eapply lookup_lt_Some.
  unfold g. destruct (is_compatible r mode), b; cbn [negb orb andb mbind outcome_bind];
    rewrite aset_lt by done; cbn [mbind outcome_bind]; by rewrite set_table_row.
Qed.

Lemma acquire_remote_spec w x mode op id r b :
  let j := Z.to_nat (node_u32 (target (loc_info op))) in
  let k := Z.to_nat (op_id op) in
  world_ok kvs workers w → exec_ok kvs workers w x → 0 ≤ op_id op → mode ≠ INVALID → j ≠ x_node x →
  TxnId_ok id → row_at kvs w (j, k) = Some r → mb_allow_lock bm r id = Ok b →
  ∃ pkt, mt_tid pkt = Z.of_nat kvs ∧ mt_rid pkt = op_id op
    ∧ (is_compatible r mode && b = true → mt_mode pkt = mode ∧ mt_tuple pkt = tuple r)
    ∧ acquire_remote bm ext w x mode op id =
      if is_compatible r mode && b
      then Ok (Some (length (x_futs x)), bump_id (x_node x) (set_row kvs w (j, k) (grant mode r)),
               remote_asked x mode (target (loc_info op)) (MkFuture (Some pkt) PPacket (last_acq r)))
      else Ok (None, bump_id (x_node x) w,
               remote_asked x mode (target (loc_info op)) (MkFuture (Some pkt) PException TxnId_default)).
Proof.
  intros j k Hw Hx Hk Hmode Hj Hid Hrow Hallow.
  destruct (kvs_of_ok w x Hw Hx) as (n & t & Hkvs & Hn & Ht & Hno & Htid & Hsz).
  destruct (eo_kvs _ _ _ _ Hx) as [Hxk Hk4].
  pose proof Hrow as (nj & tj & Hnj & Htj & Hr)%row_at_inv. cbn [fst snd] in Hnj, Htj, Hr.
  pose proof (wo_node _ _ _ Hw _ _ Hnj) as Hnoj.
  assert (TxnId_ok (last_acq r)) as Hla.
  { destruct (no_kvs _ _ _ _ Hnoj) as (t' & Ht' & _ & _ & HF). assert (t' = tj) as -> by congruence.
    rewrite Forall_lookup in HF. by eapply HF. }
  set (g := is_compatible r mode && b).
  exists (lock_res (lock_req n x (op_id op) mode id) r g).
  split; [by destruct g|]. split; [by destruct g|].
  split; [destruct g; [done|discriminate]|].
  unfold acquire_remote. rewrite Hkvs. cbn [mbind outcome_bind]. rewrite Htid.
  change (set_new_id n _) with (lock_req n x (op_id op) mode id, set_next_id (u64 (next_id n + 1)) n).
  cbv beta iota. unfold add_future; cbn [set_next_id open_futures lock_req mt_id].
  rewrite (no_futures _ _ _ _ Hno). rewrite bool_decide_true by done. cbn [assert mbind outcome_bind].
  set (n2 := set_futures _ _). set (x1 := push_log _ _).
  pose proof (lookup_lt_Some _ _ _ Hn) as Hnl. pose proof (lookup_lt_Some _ _ _ Hnj) as Hnjl.
  cbn [deliver]. fold j. rewrite (proj2 (aget_ok _ _ nj)) by (by rewrite list_lookup_insert_ne).
  cbn [mbind outcome_bind]. rewrite (handle_lock_req nj j r n x (op_id op) mode id b) by eauto.
  fold g. cbn [mbind outcome_bind sent completed app]. cbn [deliver].
  rewrite node_u32_of, (no_id _ _ _ _ Hno), wrap_small by (pose proof (wo_len _ _ _ Hw); lia). rewrite Nat2Z.id.
  rewrite (proj2 (aget_ok _ _ n2)).
  2:{ rewrite list_lookup_insert_ne by done. by rewrite list_lookup_insert_eq. }
  cbn [mbind outcome_bind].
  assert (handle bm n2 (TupleMsg (lock_res (lock_req n x (op_id op) mode id) r g))
    = Ok (set_next_id (u64 (next_id n + 1)) n,
          MkEffects [] (Some ((x_tid x, length (x_futs x)), lock_res (lock_req n x (op_id op) mode id) r g)))) as ->.
  { unfold handle. assert (mt_type (lock_res (lock_req n x (op_id op) mode id) r g) = TUPLE_GET_RES) as ->
      by by destruct g.
    unfold handle_get_res. assert (mt_id (lock_res (lock_req n x (op_id op) mode id) r g) = next_id n) as ->
      by by destruct g.
    cbn [n2 set_futures open_futures]. rewrite lookup_insert_eq. do 2 f_equal.
    rewrite delete_insert_eq. rewrite delete_id by done.
    pose proof (no_futures _ _ _ _ Hno) as Hof. destruct n; cbn in *. by rewrite Hof. }
  cbn [mbind outcome_bind sent completed app]. cbn [deliver mbind outcome_bind].
  rewrite (insert_two w (x_node x) j n nj) by done.
  assert (∀ r', <[x_node x := set_next_id (u64 (next_id n + 1)) n]> (<[j := set_node_row kvs k r' nj]> w)
    = bump_id (x_node x) (set_row kvs w (j, k) r')) as Hworld.
  { intros r'. unfold set_row; cbn [fst snd]. rewrite (alter_const _ _ _ nj) by done. unfold bump_id.
    by rewrite (alter_const _ _ _ n) by (by rewrite list_lookup_insert_ne). }
  fold k. rewrite Hworld. unfold fut_result.
  set (x2 := complete x1 _).
  assert (x2 = remote_asked x mode (target (loc_info op))
    (MkFuture (Some (lock_res (lock_req n x (op_id op) mode id) r g)) PNull TxnId_default)) as Hx2.
  { unfold x2, complete, x1, remote_asked, push_log, push_fut, set_futs, set_log, Future_init, set_pkt.
    cbn [foldl fst snd x_tid x_futs x_node x_kvs mini_batch_num x_ts leftover_txns n_commits x_n_aborts n_dropped
      n_cold_fallbacks x_built x_log]. rewrite Z.eqb_refl.
    rewrite (alter_const _ _ _ (MkFuture None PNull TxnId_default)) by by apply list_lookup_middle.
    rewrite insert_app_r_alt, Nat.sub_diag by lia. done. }
  rewrite Hx2. clearbody x2. clear Hx2.
  assert (∀ fut, x_futs (remote_asked x mode (target (loc_info op)) fut) !! length (x_futs x) = Some fut) as Hlk.
  { intros fut. by apply list_lookup_middle. }
  rewrite (proj2 (aget_ok _ _ _) (Hlk _)). cbn [mbind outcome_bind].
  unfold future_get; cbn [fut_tuple fut_pkt fut_last_acq].
  assert (∀ fut fut', put_fut (length (x_futs x)) fut' (remote_asked x mode (target (loc_info op)) fut)
    = remote_asked x mode (target (loc_info op)) fut') as Hpf.
  { intros fut fut'. unfold put_fut, remote_asked, push_log, push_fut, set_futs, set_log.
    cbn [x_tid x_futs x_node x_kvs mini_batch_num x_ts leftover_txns n_commits x_n_aborts n_dropped
      n_cold_fallbacks x_built x_log]. rewrite insert_app_r_alt, Nat.sub_diag by lia. done. }
  destruct g; cbn [lock_res].
  - cbn [msg_set_tuple msg_set_pack convert lock_req mt_mode mt_pack]. rewrite bool_decide_false by done.
    rewrite txn_id_unpack_packed by done. by rewrite Hpf.
  - cbn [msg_set_mode convert lock_req mt_mode mt_pack]. rewrite bool_decide_true by done.
    rewrite Hpf. by rewrite (set_row_id _ _ _ r).
Qed.

Lemma clear_local_spec w x mode k f fut r r' :
  world_ok kvs workers w → exec_ok kvs workers w x → 0 ≤ k →
  x_futs x !! f = Some fut → fut_tuple fut ≠ PNull →
  row_at kvs w (x_node x, Z.to_nat k) = Some r → local_unlock r mode (fut_last_acq fut) = (SUCCESS, r') →
  clear_action w x (ALocal mode k f) = Ok ([], set_row kvs w (x_node x, Z.to_nat k) r', x).
Proof.
  intros Hw Hx Hk Hf Hnull Hrow Hun.
  destruct (kvs_of_ok w x Hw Hx) as (n & t & Hkvs & Hn & Ht & Hno & Hid & Hsz).
  destruct (eo_kvs _ _ _ _ Hx) as [Hxk _].
  assert (data t !! Z.to_nat k = Some r) as Hr.
  { apply row_at_inv in Hrow as (n' & t' & Hn' & Ht' & Hr). cbn [fst snd] in *. congruence. }
  pose proof (lookup_lt_Some _ _ _ Hr) as Hlt. cbn [clear_action]. unfold clear_local.
  rewrite (proj2 (aget_ok _ _ _) Hf). cbn [mbind outcome_bind]. rewrite bool_decide_false by done.
  rewrite Hkvs. cbn [mbind outcome_bind]. unfold table_put, translate. rewrite (proj2 (Z.leb_gt _ _)) by lia.
  rewrite (proj2 (aget_ok _ _ _) Hr). cbn [mbind outcome_bind]. rewrite Hun. rewrite aset_lt by done.
  cbn [mbind outcome_bind]. change (error SUCCESS) with false. cbv beta iota. cbn [mbind outcome_bind].
  rewrite put_kvs_row by done. by rewrite Hxk.
Qed.

Lemma put_fut_id x f fut : x_futs x !! f = Some fut → put_fut f fut x = x.
Proof. intros Hf. unfold put_fut, set_futs. rewrite list_insert_id by done. by destruct x. Qed.

Lemma clear_remote_refused w x mode f tgt p la :
  x_futs x !! f = Some (MkFuture p PException la) → clear_action w x (ARemote mode f tgt) = Ok ([], w, x).
Proof.
  intros Hf. cbn [clear_action]. unfold clear_remote. rewrite (proj2 (aget_ok _ _ _) Hf).
  cbn [mbind outcome_bind future_get fut_tuple]. by rewrite put_fut_id.
Qed.

(** What the owner of a row does with a put request: the tuple of a writer,
    then the unlock. *)
Definition put_row (r : Row) (mode : AccessMode) (kv : KV) (la : TxnId) : Row :=
  (local_unlock (if bool_decide (mode = WRITE) then set_tuple kv r else r) mode la).2.

(** The put request made from the packet of a granted lock. *)
Definition put_req (x : TxnExecutor) (pkt : tuple_msg) (la : TxnId) : tuple_msg :=
  msg_set_pack (get_packed la)
    (msg_set_sender (node_of_thread (Z.of_nat (x_node x)) (x_tid x)) (convert TUPLE_PUT_REQ pkt)).

Lemma put_req_sender w x pkt la :
  world_ok kvs workers w → exec_ok kvs workers w x →
  node_u32 (mt_sender (put_req x pkt la)) = Z.of_nat (x_node x) ∧ get_tid (mt_sender (put_req x pkt la)) = x_tid x.
Proof.
  intros Hw Hx. pose proof (wo_len _ _ _ Hw). pose proof (eo_node _ _ _ _ Hx). pose proof (eo_tid _ _ _ _ Hx).
  pose proof (eo_workers _ _ _ _ Hx). cbn [put_req msg_set_pack msg_set_sender mt_sender].
  destruct (node_of_thread_split (Z.of_nat (x_node x)) (x_tid x)); [lia|lia|done].
Qed.

(** Clearing the entry of a granted remote lock counts and sends the request. *)
Lemma clear_remote_spec w x mode f tgt pkt la c :
  world_ok kvs workers w → exec_ok kvs workers w x →
  x_futs x !! f = Some (MkFuture (Some pkt) PPacket la) → mt_tid pkt = Z.of_nat kvs → mode ≠ INVALID →
  put_count w (x_node x) (Z.to_nat (x_tid x)) = Some c →
  clear_action w x (ARemote mode f tgt)
  = Ok ([(node_u32 tgt, TupleMsg (put_req x pkt la))], set_count (x_node x) (Z.to_nat (x_tid x)) (u64 (c + 1)) w, x).
Proof.
  intros Hw Hx Hf Htid Hinv (n & Hn & Hc)%put_count_inv. destruct (eo_kvs _ _ _ _ Hx) as [_ Hk4].
  cbn [clear_action]. unfold clear_remote. rewrite (proj2 (aget_ok _ _ _) Hf).
  cbn [mbind outcome_bind future_get fut_tuple fut_pkt fut_last_acq]. rewrite Htid.
  rewrite (proj2 (Z.ltb_ge _ _)) by lia. rewrite (proj2 (aget_ok _ _ _) Hn). cbn [mbind outcome_bind].
  rewrite bool_decide_false by done. unfold putres_add. rewrite (proj2 (aget_ok _ _ _) Hc). cbn [mbind outcome_bind].
  rewrite aset_lt by (by eapply lookup_lt_Some). cbn [mbind outcome_bind].
  rewrite put_fut_id by done. rewrite (no_id _ _ _ _ (wo_node _ _ _ Hw _ _ Hn)).
  unfold set_count. by rewrite (alter_const _ _ _ n Hn).
Qed.

(** The owner of the row handles a put request. *)
Lemma handle_put_spec w j nj q la r :
  w !! j = Some nj → mt_type q = TUPLE_PUT_REQ → mt_tid q = Z.of_nat kvs →
  mt_pack q = get_packed la → TxnId_ok la → row_at kvs w (j, Z.to_nat (mt_rid q)) = Some r →
  ∃ nj', handle bm nj (TupleMsg q)
         = Ok (nj', MkEffects [(node_u32 (mt_sender q), TupleMsg (convert TUPLE_PUT_RES q))] None)
    ∧ <[j := nj']> w = set_row kvs w (j, Z.to_nat (mt_rid q)) (put_row r (mt_mode q) (mt_tuple q) la).
Proof.
  intros Hnj Hty Htid Hpack Hla (n' & tj & Hn' & Htj & Hr)%row_at_inv. cbn [fst snd] in *.
  assert (n' = nj) as -> by congruence. eexists. split.
  - unfold handle. rewrite Hty. unfold handle_put_req, by_id. rewrite Htid, Nat2Z.id.
    rewrite (proj2 (aget_ok _ _ _) Htj). cbn [mbind outcome_bind]. unfold remote_put, translate.
    rewrite (proj2 (aget_ok _ _ _) Hr). cbn [mbind outcome_bind].
    rewrite aset_lt by (by eapply lookup_lt_Some). cbn [mbind outcome_bind]. by rewrite set_table_row.
  - unfold set_row; cbn [fst snd]. rewrite (alter_const _ _ _ nj Hnj). do 2 f_equal.
    unfold remote_unlock, put_row. by rewrite Hpack, txn_id_unpack_packed.
Qed.

(** The sender handles the response. *)
Lemma handle_ack_spec w i q c :
  mt_type q = TUPLE_PUT_RES → put_count w i (Z.to_nat (get_tid (mt_sender q))) = Some c →
  ∃ n n', w !! i = Some n ∧ handle bm n (TupleMsg q) = Ok (n', no_effects)
    ∧ <[i := n']> w = set_count i (Z.to_nat (get_tid (mt_sender q))) (u64 (c - 1)) w.
Proof.
  intros Hty (n & Hn & Hc)%put_count_inv. exists n. eexists. split; [done|]. split.
  - unfold handle. rewrite Hty. unfold handle_put_res, putres_handle. rewrite (proj2 (aget_ok _ _ _) Hc).
    cbn [mbind outcome_bind]. rewrite aset_lt by (by eapply lookup_lt_Some). done.
  - unfold set_count. by rewrite (alter_const _ _ _ n Hn).
Qed.

(** ** Both kinds of access together *)

Lemma row_last_ok w a r : world_ok kvs workers w → row_at kvs w a = Some r → TxnId_ok (last_acq r).
Proof.
  intros Hw (n & t & Hn & Ht & Hr)%row_at_inv.
  destruct (no_kvs _ _ _ _ (wo_node _ _ _ Hw _ _ Hn)) as (t' & Ht' & _ & _ & HF).
  assert (t' = t) as -> by congruence. rewrite Forall_lookup in HF. by eapply HF.
Qed.

(** A lock request that returns has seen the row's mini-batch rule succeed,
    unless the lock was not compatible to begin with. *)
Lemma acquire_local_allowed w x mode op id r res :
  world_ok kvs workers w → exec_ok kvs workers w x → 0 ≤ op_id op →
  row_at kvs w (x_node x, Z.to_nat (op_id op)) = Some r → is_compatible r mode = true →
  acquire_local bm w x mode op id = Ok res → ∃ b, mb_allow_lock bm r id = Ok b.
Proof.
  intros Hw Hx Hk Hrow Hc Hacq.
  destruct (kvs_of_ok w x Hw Hx) as (n & t & Hkvs & Hn & Ht & Hno & Hid & Hsz).
  destruct (eo_kvs _ _ _ _ Hx) as [Hxk _].
  assert (data t !! Z.to_nat (op_id op) = Some r) as Hr.
  { apply row_at_inv in Hrow as (n' & t' & Hn' & Ht' & Hr). cbn [fst snd] in *. congruence. }
  pose proof (lookup_lt_Some _ _ _ Hr) as Hlt. unfold acquire_local in Hacq. rewrite Hkvs in Hacq.
  apply bind_ok in Hacq as (? & _ & Hacq). cbn [mbind outcome_bind] in Hacq.
  apply bind_ok in Hacq as (? & Hget & _). unfold table_get, translate in Hget.
  rewrite (proj2 (Z.leb_gt _ _)) in Hget by lia. rewrite (proj2 (aget_ok _ _ _) Hr) in Hget.
  cbn [mbind outcome_bind] in Hget. unfold local_lock in Hget. rewrite Hc in Hget.
  cbn [negb orb fut_last_acq] in Hget. destruct (mb_allow_lock bm r id) as [b|]; [by exists b|done].
Qed.

Lemma acquire_remote_allowed w x mode op id r res :
  let j := Z.to_nat (node_u32 (target (loc_info op))) in
  world_ok kvs workers w → exec_ok kvs workers w x → j ≠ x_node x → TxnId_ok id →
  row_at kvs w (j, Z.to_nat (op_id op)) = Some r →
  acquire_remote bm ext w x mode op id = Ok res → ∃ b, mb_allow_lock bm r id = Ok b.
Proof.
  intros j Hw Hx Hj Hid Hrow Hacq.
  destruct (kvs_of_ok w x Hw Hx) as (n & t & Hkvs & Hn & Ht & Hno & Htid & Hsz).
  pose proof Hrow as (nj & tj & Hnj & Htj & Hr)%row_at_inv. cbn [fst snd] in Hnj, Htj, Hr.
  unfold acquire_remote in Hacq. rewrite Hkvs in Hacq. cbn [mbind outcome_bind] in Hacq. rewrite Htid in Hacq.
  change (set_new_id n _) with (lock_req n x (op_id op) mode id, set_next_id (u64 (next_id n + 1)) n) in Hacq.
  cbv beta iota in Hacq. apply bind_ok in Hacq as (n2 & _ & Hacq). apply bind_ok in Hacq as (? & Hd & _).
  cbn [deliver] in Hd. fold j in Hd. rewrite (proj2 (aget_ok _ _ nj)) in Hd by (by rewrite list_lookup_insert_ne).
  cbn [mbind outcome_bind] in Hd. apply bind_ok in Hd as (? & Hh & _).
  unfold handle in Hh. change (mt_type (lock_req n x (op_id op) mode id)) with TUPLE_GET_REQ in Hh.
  cbv beta iota in Hh. unfold handle_get_req, by_id in Hh.
  change (mt_tid (lock_req n x (op_id op) mode id)) with (Z.of_nat kvs) in Hh. rewrite Nat2Z.id in Hh.
  rewrite (proj2 (aget_ok _ _ _) Htj) in Hh. cbn [mbind outcome_bind] in Hh.
  unfold remote_get, translate in Hh. change (mt_rid (lock_req n x (op_id op) mode id)) with (op_id op) in Hh.
  rewrite (proj2 (aget_ok _ _ _) Hr) in Hh. cbn [mbind outcome_bind] in Hh. unfold remote_lock in Hh.
  change (mt_pack (lock_req n x (op_id op) mode id)) with (get_packed id) in Hh.
  rewrite txn_id_unpack_packed in Hh by done. destruct (mb_allow_lock bm r id) as [b|]; [by exists b|done].
Qed.

(** The address an operation refers to. *)
Definition op_addr (node : nat) (op : OP) : addr :=
  (if is_local (loc_info op) then node else Z.to_nat (node_u32 (target (loc_info op))), Z.to_nat (op_id op)).

(** What a worker knows after a granted lock: its future sees the tuple of the
    row as it was granted, and the log has the entry that will release it. *)
Record granted (x x' : TxnExecutor) (op : OP) (r : Row) (act : Action) (fut : TupleFuture) : Prop := {
  gr_x : x' = push_log act (push_fut fut x);
  gr_la : fut_last_acq fut = last_acq r;
  gr_act : if is_local (loc_info op)
           then act = ALocal (op_mode op) (op_id op) (length (x_futs x))
                ∧ fut_pkt fut = None ∧ fut_tuple fut = PLocal (Z.to_nat (op_id op))
           else act = ARemote (op_mode op) (length (x_futs x)) (target (loc_info op))
                ∧ fut_tuple fut = PPacket
                ∧ ∃ pkt, fut_pkt fut = Some pkt ∧ mt_tid pkt = Z.of_nat kvs ∧ mt_rid pkt = op_id op
                    ∧ mt_mode pkt = op_mode op ∧ mt_tuple pkt = tuple r;
}.

(** After a refused one: nothing but a future and, for a remote row, a log
    entry whose future failed. *)
Definition refused (x x' : TxnExecutor) (op : OP) : Prop :=
  ∃ fut, if is_local (loc_info op) then x' = push_fut fut x
         else x' = push_log (ARemote (op_mode op) (length (x_futs x)) (target (loc_info op))) (push_fut fut x)
              ∧ fut_tuple fut = PException.

Lemma acquire_inv w x op id r res w' x' :
  world_ok kvs workers w → exec_ok kvs workers w x → 0 ≤ op_id op → op_mode op ≠ INVALID →
  (is_local (loc_info op) = false → (op_addr (x_node x) op).1 ≠ x_node x) → TxnId_ok id →
  valid id = false ∨ mini_batch_id id = mini_batch_num x →
  row_at kvs w (op_addr (x_node x) op) = Some r →
  acquire bm ext (op_mode op) w x op id = Ok (res, w', x') →
  world_ok kvs workers w' ∧ n_send_q <$> w' = n_send_q <$> w ∧ n_putres <$> w' = n_putres <$> w ∧
  match res with
  | Some f => f = length (x_futs x) ∧ (is_compatible r (op_mode op) = true ∧ mb_allow_lock bm r id = Ok true)
      ∧ (∀ b, row_at kvs w' b = if decide (b = op_addr (x_node x) op) then Some (grant (op_mode op) r) else row_at kvs w b)
      ∧ ∃ act fut, granted x x' op r act fut
  | None => (∀ b, row_at kvs w' b = row_at kvs w b) ∧ refused x x' op
      ∧ (is_compatible r (op_mode op) = true → mb_allow_lock bm r id = Ok false)
  end.
Proof.
  intros Hw Hx Hk Hm Hne Hid Hmb Hrow Hacq. pose proof (row_last_ok _ _ _ Hw Hrow) as Hla.
  unfold acquire in Hacq. unfold op_addr in *. destruct (is_local (loc_info op)) eqn:El.
  - assert (∃ b, is_compatible r (op_mode op) = true → mb_allow_lock bm r id = Ok b) as [b Hb].
    { destruct (is_compatible r (op_mode op)) eqn:Ec; [|by exists true].
      destruct (acquire_local_allowed w x _ op id r _ Hw Hx Hk Hrow Ec Hacq) as [b Hb]. by exists b. }
    rewrite (acquire_local_spec w x (op_mode op) op id r b) in Hacq by done.
    destruct (is_compatible r (op_mode op)) eqn:Ec; [destruct b|]; cbn [andb] in Hacq; injection Hacq as <- <- <-.
    + split_and!; [by apply set_row_ok|apply send_q_set_row|apply putres_set_row|done|done|by apply Hb|intros b; by apply row_at_set_row|].
      do 2 eexists. split; [done|done|]. by rewrite El.
    + split_and!; auto. eexists. by rewrite El.
    + split_and!; try done. eexists. by rewrite El.
  - specialize (Hne eq_refl). cbn [fst] in Hne.
    destruct (acquire_remote_allowed w x _ op id r _ Hw Hx Hne Hid Hrow Hacq) as [b Hb].
    destruct (acquire_remote_spec w x (op_mode op) op id r b Hw Hx Hk Hm Hne Hid Hrow Hb) as (pkt & H1 & H2 & H3 & Heq).
    rewrite Heq in Hacq. destruct (is_compatible r (op_mode op) && b) eqn:Ec; injection Hacq as <- <- <-.
    + destruct (H3 eq_refl) as [Hpm Hpt]. apply andb_prop in Ec as [Ec ->].
      split_and!; [by apply bump_id_ok, set_row_ok|by rewrite send_q_bump, send_q_set_row|by rewrite putres_bump, putres_set_row|done|done|done| |].
      * intros b'. rewrite row_at_bump. by apply row_at_set_row.
      * do 2 eexists. split; [done|done|]. rewrite El. split_and!; try done. by exists pkt.
    + split_and!; [by apply bump_id_ok|apply send_q_bump|apply putres_bump|intros b'; apply row_at_bump| |].
      * eexists. rewrite El. done.
      * intros Hc. rewrite Hc in Ec. cbn [andb] in Ec. by rewrite Ec in Hb.
Qed.
End access.
