(* ===== verification/Serial.v ===== *)
(** * Concurrent transactions are serializable

    Many workers, on any nodes, run [my_execute] or [execute] at the same time.
    A worker's transaction is cut into the steps between which others can act:
    one lock request, one operation of the write loop, one entry of the undo
    log.  Releasing a remote lock only sends a put request: the request, and the
    response to it, are under way until the network hands them over, in any
    order and after any time, and the worker waits for all its responses at the
    end.  The theorem: in every interleaving, the transactions that commit
    read and leave the values they would in a serial run, in the order in which
    they obtained their last lock. *)
From stdpp Require Import base tactics list numbers gmap relations.
From Stdlib Require Import ZArith Lia.
From S2P Require Import Prelude Types Layout Msg Row Table Mempool SendQ SwitchPkt MsgHandler HotCold Sched Undolog Executor RowAccess.

(** ** Threads *)

(** Where a transaction is: acquiring locks (with the futures it has), in the
    second loop (at operation [i], with the values it read), clearing its log
    (with the operations whose locks it still holds and the entries left), or
    done. *)
Inductive phase :=
| Locking (futs : list nat)
| Applying (i : nat) (futs : list nat) (reads : list Z)
| Releasing (held : list OP) (rest : list Action) (rc : RC) (reads : list Z)
| Finished (rc : RC) (reads : list Z).

(** [th_stamp] is the id [my_execute] leaves in the rows; [execute] has none.
    [th_net]: the messages of the transaction that are under way - put requests
    on their way to the owner of a row, responses on their way back - each with
    its destination and the operation whose lock it releases (the latter for the
    specification only: no step looks at it). *)
Record thread := MkThread {
  th_x : TxnExecutor;
  th_ops : list OP;
  th_id : TxnId;
  th_stamp : option TxnId;
  th_ph : phase;
  th_net : list (OP * (Z * message));
}.

Definition set_th (th : thread) (x : TxnExecutor) (ph : phase) : thread :=
  MkThread x (th_ops th) (th_id th) (th_stamp th) ph (th_net th).

Definition set_net (th : thread) (net : list (OP * (Z * message))) : thread :=
  MkThread (th_x th) (th_ops th) (th_id th) (th_stamp th) (th_ph th) net.

Section steps.
Context (bm : build) (ext : externals).

(** The reservation of a packet buffer between the write loop and the commit of
    [my_execute]. *)
Definition reserve (stamp : option TxnId) (ref : txn_ref) (w : world) (x : TxnExecutor) : outcome world :=
  match stamp with
  | None => Ok w
  | Some _ =>
      n ← aget w (x_node x);
      '(_, q') ← alloc_slot (n_send_q n) (mini_batch_num x) ref;
      Ok (<[x_node x := set_send_q q' n]> w)
  end.

(** A step of a transaction: of its worker, or ([t_net]) of the network with one
    of its messages.  The test [local_lock] makes before it takes the mutex may
    have seen an older state of the row, so a local lock may be refused at any
    time ([t_stale]). *)
Inductive tstep : world → thread → world → thread → Prop :=
| t_lock w th futs op f w' x' :
    th_ph th = Locking futs → th_ops th !! length futs = Some op →
    acquire bm ext (op_mode op) w (th_x th) op (th_id th) = Ok (Some f, w', x') →
    tstep w th w' (set_th th x' (Locking (futs ++ [f])))
| t_refuse w th futs op w' x' :
    th_ph th = Locking futs → th_ops th !! length futs = Some op →
    acquire bm ext (op_mode op) w (th_x th) op (th_id th) = Ok (None, w', x') →
    tstep w th w' (set_th th x' (Releasing (take (length futs) (th_ops th)) (x_log x') ROLLBACK []))
| t_stale w th futs op :
    th_ph th = Locking futs → th_ops th !! length futs = Some op → is_local (loc_info op) = true →
    tstep w th w (set_th th (push_fut (MkFuture None PNull (th_id th)) (th_x th))
                     (Releasing (take (length futs) (th_ops th)) (x_log (th_x th)) ROLLBACK []))
| t_locked w th futs :
    th_ph th = Locking futs → length futs = length (th_ops th) →
    tstep w th w (set_th th (th_x th) (Applying 0 futs []))
| t_apply w th i futs reads op f v w' x' :
    th_ph th = Applying i futs reads → th_ops th !! i = Some op → futs !! i = Some f →
    apply_op (th_stamp th) w (th_x th) op f = Ok (Some v, w', x') →
    tstep w th w' (set_th th x' (Applying (S i) futs (match v with Some z => reads ++ [z] | None => reads end)))
| t_null w th i futs reads op f w' x' :
    th_ph th = Applying i futs reads → th_ops th !! i = Some op → futs !! i = Some f →
    apply_op (th_stamp th) w (th_x th) op f = Ok (None, w', x') →
    tstep w th w' (set_th th x' (Releasing (th_ops th) (x_log x') ROLLBACK []))
| t_applied w th futs reads ref w' :
    th_ph th = Applying (length (th_ops th)) futs reads →
    reserve (th_stamp th) ref w (th_x th) = Ok w' →
    tstep w th w' (set_th th (th_x th) (Releasing (th_ops th) (x_log (th_x th)) COMMIT reads))
| t_release w th op held m k f rest rc reads w' x' :
    th_ph th = Releasing (op :: held) (ALocal m k f :: rest) rc reads →
    clear_action w (th_x th) (ALocal m k f) = Ok ([], w', x') →
    tstep w th w' (set_th th x' (Releasing held rest rc reads))
| t_skip w th held m f tgt rest rc reads w' x' :
    th_ph th = Releasing held (ARemote m f tgt :: rest) rc reads →
    clear_action w (th_x th) (ARemote m f tgt) = Ok ([], w', x') →
    tstep w th w' (set_th th x' (Releasing held rest rc reads))
| t_send w th op held m f tgt rest rc reads msg w' x' :
    th_ph th = Releasing (op :: held) (ARemote m f tgt :: rest) rc reads →
    clear_action w (th_x th) (ARemote m f tgt) = Ok ([msg], w', x') →
    tstep w th w' (set_net (set_th th x' (Releasing held rest rc reads)) (th_net th ++ [(op, msg)]))
| t_net w th pre op dst m post n n' eff :
    th_net th = pre ++ (op, (dst, m)) :: post → w !! Z.to_nat dst = Some n →
    handle bm n m = Ok (n', eff) → completed eff = None →
    tstep w th (<[Z.to_nat dst := n']> w) (set_net th (pre ++ post ++ (pair op <$> sent eff)))
| t_done w th held rc reads :
    th_ph th = Releasing held [] rc reads → wait_puts w (th_x th) = Ok tt →
    tstep w th w (set_th th (set_futs [] (set_log [] (th_x th))) (Finished rc reads)).

(** ** The system *)

(** [s_order]: the threads that obtained all their locks, in that order. *)
Record sysst := MkSysSt { s_w : world; s_ths : list thread; s_order : list nat }.

(** The step that ends the lock phase is the one that orders a transaction. *)
Definition is_locked_step (th th' : thread) : bool :=
  match th_ph th, th_ph th' with Locking _, Applying _ _ _ => true | _, _ => false end.

Inductive sstep : sysst → sysst → Prop :=
| s_thread s t th w' th' :
    s_ths s !! t = Some th → tstep (s_w s) th w' th' →
    sstep s (MkSysSt w' (<[t := th']> (s_ths s))
                     (if is_locked_step th th' then s_order s ++ [t] else s_order s)).
End steps.

(** ** The serial specification *)

Definition store : Type := addr → Z.

Definition upd (S : store) (a : addr) (v : Z) : store := λ b, if decide (b = a) then v else S b.

(** A transaction alone: its reads see the store it starts from, then its
    writes are applied.  (No transaction that obtains its locks names a key it
    writes twice, so the order of its operations does not matter.) *)
Definition write_all (node : nat) (S : store) (ops : list OP) : store :=
  foldl (λ S op, if bool_decide (op_mode op = WRITE) then upd S (op_addr node op) (op_value op) else S) S ops.

Definition read_vals (node : nat) (S : store) (ops : list OP) : list Z :=
  omap (λ op, if bool_decide (op_mode op = READ) then Some (S (op_addr node op)) else None) ops.

(** The store after the transactions of [order], run one after the other. *)
Definition serial_store (S0 : store) (ths : list thread) (order : list nat) : store :=
  foldl (λ S t, match ths !! t with
                | Some th => write_all (x_node (th_x th)) S (th_ops th)
                | None => S
                end) S0 order.

(** ** What a thread holds *)

(** What the worker holds by itself, and the locks whose put requests nobody has
    handled yet. *)
Definition phase_held (th : thread) : list OP :=
  match th_ph th with
  | Locking futs => take (length futs) (th_ops th)
  | Applying _ _ _ => th_ops th
  | Releasing held _ _ _ => held
  | Finished _ _ => []
  end.

Definition is_put_req (m : message) : bool :=
  match m with TupleMsg q => bool_decide (mt_type q = TUPLE_PUT_REQ) | _ => false end.

Definition net_held (net : list (OP * (Z * message))) : list OP :=
  omap (λ e, if is_put_req e.2.2 then Some e.1 else None) net.

Definition held_ops (th : thread) : list OP := phase_held th ++ net_held (th_net th).

(** The transaction has obtained all its locks. *)
Definition post (th : thread) : bool :=
  match th_ph th with
  | Applying _ _ _ => true
  | Releasing _ _ rc _ | Finished rc _ => bool_decide (rc = COMMIT)
  | Locking _ => false
  end.

(** Operation [j] of the held ones has been through the write loop. *)
Definition applied (th : thread) (j : nat) : bool :=
  match th_ph th with
  | Applying i _ _ => bool_decide (j < i)%nat
  | Releasing _ _ rc _ => bool_decide (rc = COMMIT)
  | _ => false
  end.

Definition t_addr (th : thread) (op : OP) : addr := op_addr (x_node (th_x th)) op.

Definition act_fut (a : Action) : nat := match a with ALocal _ _ f => f | ARemote _ f _ => f end.

Lemma read_vals_ext node S S' ops : (∀ a, S a = S' a) → read_vals node S ops = read_vals node S' ops.
Proof.
  intros H. induction ops as [|op ops IH]; [done|]. unfold read_vals in *. cbn [omap list_omap].
  case_bool_decide; by rewrite ?H, IH.
Qed.

Section invariant.
Context (bm : build) (ext : externals) (kvs : nat) (workers : Z) (S0 : store).

(** The log entry of a held lock: its future sees the row's tuple, or the value
    written in its place. *)
Definition hold_ok (w : world) (th : thread) (j : nat) (op : OP) (act : Action) : Prop :=
  ∃ r, row_at kvs w (t_addr th op) = Some r ∧
  let written := applied th j && bool_decide (op_mode op = WRITE) in
  match act with
  | ALocal m k f =>
      m = op_mode op ∧ k = op_id op ∧ is_local (loc_info op) = true ∧
      ∃ la, x_futs (th_x th) !! f = Some (MkFuture None (PLocal (Z.to_nat k)) la) ∧ TxnId_ok la
        ∧ (written = true → kv_value (tuple r) = op_value op)
  | ARemote m f tgt =>
      m = op_mode op ∧ tgt = target (loc_info op) ∧ is_local (loc_info op) = false ∧
      ∃ pkt la, x_futs (th_x th) !! f = Some (MkFuture (Some pkt) PPacket la) ∧ TxnId_ok la
        ∧ mt_tid pkt = Z.of_nat kvs ∧ mt_rid pkt = op_id op ∧ mt_mode pkt = m
        ∧ (if written then kv_value (mt_tuple pkt) = op_value op else mt_tuple pkt = tuple r)
  end.

Record acts_ok (w : world) (th : thread) (ops : list OP) (acts : list Action) : Prop := {
  ac_len : length ops = length acts;
  ac_hold : ∀ j op act, ops !! j = Some op → acts !! j = Some act → hold_ok w th j op act;
  ac_fresh : NoDup (act_fut <$> acts);
  ac_futs : Forall (λ a, act_fut a < length (x_futs (th_x th)))%nat acts;
}.

(** Operations a thread may be given: real ones, on rows that exist, a remote
    one on another node. *)
Definition op_ok (w : world) (th : thread) (op : OP) : Prop :=
  op_mode op ≠ INVALID ∧ 0 ≤ op_id op ∧ is_Some (row_at kvs w (t_addr th op))
  ∧ (is_local (loc_info op) = false → (t_addr th op).1 ≠ x_node (th_x th)).

Record static_ok (w : world) (th : thread) : Prop := {
  st_exec : exec_ok kvs workers w (th_x th);
  st_ops : Forall (op_ok w th) (th_ops th);
  st_id : TxnId_ok (th_id th);
  st_stamp : ∀ id, th_stamp th = Some id → TxnId_ok id;
  st_mb : valid (th_id th) = false ∨ mini_batch_id (th_id th) = mini_batch_num (th_x th);
}.

Definition phase_ok (w : world) (th : thread) : Prop :=
  match th_ph th with
  | Locking futs =>
      (length futs ≤ length (th_ops th))%nat ∧ futs = act_fut <$> x_log (th_x th)
      ∧ acts_ok w th (take (length futs) (th_ops th)) (x_log (th_x th))
  | Applying i futs reads =>
      (i ≤ length (th_ops th))%nat ∧ futs = act_fut <$> x_log (th_x th)
      ∧ acts_ok w th (th_ops th) (x_log (th_x th))
  | Releasing held rest rc reads =>
      ∃ acts tl, rest = acts ++ tl ∧ acts_ok w th held acts
        ∧ (tl = [] ∨ ∃ m f tgt p la, tl = [ARemote m f tgt]
             ∧ x_futs (th_x th) !! f = Some (MkFuture p PException la))
  | Finished _ _ => True
  end.

(** A message under way: a put request carries the value the row is to have when
    its lock is free, a response goes back to the worker. *)
Definition msg_ok (w : world) (th : thread) (e : OP * (Z * message)) : Prop :=
  ∃ q, e.2.2 = TupleMsg q ∧ node_u32 (mt_sender q) = Z.of_nat (x_node (th_x th))
  ∧ get_tid (mt_sender q) = x_tid (th_x th) ∧
  match mt_type q with
  | TUPLE_PUT_REQ =>
      is_local (loc_info e.1) = false ∧ e.2.1 = node_u32 (target (loc_info e.1))
      ∧ mt_tid q = Z.of_nat kvs ∧ mt_rid q = op_id e.1 ∧ mt_mode q = op_mode e.1
      ∧ (∃ la, mt_pack q = get_packed la ∧ TxnId_ok la)
      ∧ ∃ r, row_at kvs w (t_addr th e.1) = Some r
          ∧ if post th && bool_decide (op_mode e.1 = WRITE) then kv_value (mt_tuple q) = op_value e.1
            else mt_tuple q = tuple r
  | TUPLE_PUT_RES => e.2.1 = Z.of_nat (x_node (th_x th))
  | _ => False
  end.

(** Messages are under way only while a log is being cleared. *)
Record net_ok (w : world) (th : thread) : Prop := {
  nt_msgs : Forall (msg_ok w th) (th_net th);
  nt_sub : phase_held th ++ (th_net th).*1 ⊆+ th_ops th;
  nt_quiet : th_net th = [] ∨ ∃ held rest rc reads, th_ph th = Releasing held rest rc reads;
}.

(** A worker's count is the number of its messages under way; no two
    transactions share a worker. *)
Definition counts_ok (w : world) (ths : list thread) : Prop :=
  ∀ t th, ths !! t = Some th →
    put_count w (x_node (th_x th)) (Z.to_nat (x_tid (th_x th))) = Some (Z.of_nat (length (th_net th))).

Definition workers_ok (ths : list thread) : Prop :=
  ∀ t1 t2 th1 th2, ths !! t1 = Some th1 → ths !! t2 = Some th2 →
    x_node (th_x th1) = x_node (th_x th2) → x_tid (th_x th1) = x_tid (th_x th2) → t1 = t2.

(** The number of locks held on a row. *)
Definition t_count (a : addr) (th : thread) : nat :=
  length (filter (λ op, t_addr th op = a) (held_ops th)).

Definition hcount (a : addr) (ths : list thread) : nat := foldr (λ th n, t_count a th + n)%nat 0%nat ths.

Record rows_ok (w : world) (ths : list thread) : Prop := {
  rk_wf : ∀ a r, row_at kvs w a = Some r → row_wf r ∧ owner_cnt r = Z.of_nat (hcount a ths);
  rk_mode : ∀ a r t th op, row_at kvs w a = Some r → ths !! t = Some th → op ∈ held_ops th →
    t_addr th op = a → lock_type r = op_mode op;
}.

(** A transaction past its lock phase still holds [a] for writing. *)
Definition post_writer (ths : list thread) (a : addr) : Prop :=
  ∃ t th op, ths !! t = Some th ∧ post th = true ∧ op ∈ held_ops th ∧ t_addr th op = a ∧ op_mode op = WRITE.

(** The reads a thread has made, given the store it was ordered in. *)
Definition reads_ok (S : store) (th : thread) : Prop :=
  let node := x_node (th_x th) in
  match th_ph th with
  | Applying i _ reads => reads = read_vals node S (take i (th_ops th))
  | Releasing _ _ COMMIT reads | Finished COMMIT reads => reads = read_vals node S (th_ops th)
  | _ => True
  end.

Lemma reads_ok_ext S S' th : (∀ a, S a = S' a) → reads_ok S th → reads_ok S' th.
Proof.
  unfold reads_ok. intros H. destruct (th_ph th) as [|i ? ?| ? ? [] ?|[] ?]; try done;
    intros ->; by apply read_vals_ext.
Qed.

Record values_ok (w : world) (ths : list thread) (order : list nat) : Prop := {
  vk_row : ∀ a r, row_at kvs w a = Some r → ¬ post_writer ths a →
    kv_value (tuple r) = serial_store S0 ths order a;
  vk_write : ∀ t th op, ths !! t = Some th → post th = true → op ∈ held_ops th → op_mode op = WRITE →
    serial_store S0 ths order (t_addr th op) = op_value op;
  vk_reads : ∀ pre t post' th, order = pre ++ t :: post' → ths !! t = Some th →
    reads_ok (serial_store S0 ths pre) th
    ∧ ∀ op, op ∈ held_ops th → op_mode op = READ →
        serial_store S0 ths pre (t_addr th op) = serial_store S0 ths order (t_addr th op);
  vk_order : ∀ t th, ths !! t = Some th → (t ∈ order ↔ post th = true);
  vk_nodup : NoDup order ∧ Forall (λ t, is_Some (ths !! t)) order;
}.

(** Fewer locks than the owner count can hold. *)
Definition few_ops (ths : list thread) : Prop := Z.of_nat (length (concat (th_ops <$> ths))) + 1 < 2 ^ 32.

Record inv (s : sysst) : Prop := {
  in_world : world_ok kvs workers (s_w s);
  in_static : ∀ t th, s_ths s !! t = Some th → static_ok (s_w s) th;
  in_phase : ∀ t th, s_ths s !! t = Some th → phase_ok (s_w s) th;
  in_rows : rows_ok (s_w s) (s_ths s);
  in_values : values_ok (s_w s) (s_ths s) (s_order s);
  in_few : few_ops (s_ths s);
  in_net : ∀ t th, s_ths s !! t = Some th → net_ok (s_w s) th;
  in_counts : counts_ok (s_w s) (s_ths s);
  in_workers : workers_ok (s_ths s);
}.

(** ** Counting locks *)

Lemma hcount_insert a ths t th th' :
  ths !! t = Some th → (hcount a (<[t := th']> ths) + t_count a th = hcount a ths + t_count a th')%nat.
Proof.
  revert t. induction ths as [|th0 ths IH]; intros [|t] Ht; simplify_eq/=; [lia|].
  specialize (IH t Ht). unfold hcount in *. lia.
Qed.

Lemma hcount_ge a ths t th : ths !! t = Some th → (t_count a th ≤ hcount a ths)%nat.
Proof.
  revert t. induction ths as [|th0 ths IH]; intros [|t] Ht; simplify_eq/=; [lia|].
  specialize (IH t Ht). unfold hcount in *. lia.
Qed.

Lemma hcount_two a ths t1 t2 th1 th2 :
  t1 ≠ t2 → ths !! t1 = Some th1 → ths !! t2 = Some th2 →
  (t_count a th1 + t_count a th2 ≤ hcount a ths)%nat.
Proof.
  intros Hne H1 H2. pose proof (hcount_ge a (<[t1 := MkThread (th_x th1) [] (th_id th1) None (Finished COMMIT []) []]> ths) t2 th2) as Hg.
  rewrite list_lookup_insert_ne in Hg by done. specialize (Hg H2).
  pose proof (hcount_insert a ths t1 th1 (MkThread (th_x th1) [] (th_id th1) None (Finished COMMIT []) []) H1) as Hi.
  unfold t_count at 2 in Hi. cbn in Hi. lia.
Qed.

Lemma t_count_pos th op : op ∈ held_ops th → (1 ≤ t_count (t_addr th op) th)%nat.
Proof.
  intros Hop. unfold t_count.
  assert (op ∈ filter (λ o, t_addr th o = t_addr th op) (held_ops th)) as Hin by by apply list_elem_of_filter.
  destruct (filter _ _); [by apply not_elem_of_nil in Hin|simpl; lia].
Qed.

Lemma filter_two {A} (P : A → Prop) `{!∀ x, Decision (P x)} (l : list A) i j x y :
  i ≠ j → l !! i = Some x → l !! j = Some y → P x → P y → (2 ≤ length (filter P l))%nat.
Proof.
  revert i j. induction l as [|z l IH]; intros i j Hne Hi Hj Hx Hy; [done|].
  assert (∀ k v, l !! k = Some v → P v → (1 ≤ length (filter P l))%nat) as H1.
  { intros k v Hk Hv. assert (v ∈ filter P l) as Hin.
    { apply list_elem_of_filter. split; [done|]. by eapply list_elem_of_lookup_2. }
    destruct (filter P l); [by apply not_elem_of_nil in Hin|simpl; lia]. }
  rewrite filter_cons. destruct i as [|i], j as [|j]; simplify_eq/=; try done.
  - rewrite decide_True by done. simpl. specialize (H1 _ _ Hj Hy). lia.
  - rewrite decide_True by done. simpl. specialize (H1 _ _ Hi Hx). lia.
  - specialize (IH i j ltac:(lia) Hi Hj Hx Hy). case_decide; simpl; lia.
Qed.

Lemma hcount_le a ths :
  (∀ t th, ths !! t = Some th → (length (held_ops th) ≤ length (th_ops th))%nat) →
  (hcount a ths ≤ length (concat (th_ops <$> ths)))%nat.
Proof.
  induction ths as [|th ths IH]; intros Hle; [simpl; lia|].
  rewrite fmap_cons. cbn [concat hcount foldr]. fold (hcount a ths). rewrite length_app.
  specialize (IH (λ t th' Ht, Hle (S t) th' Ht)). specialize (Hle 0%nat th eq_refl).
  pose proof (length_filter (λ op, t_addr th op = a) (held_ops th)). unfold t_count. lia.
Qed.

(** ** Frames *)

(** Two threads run the same transaction on the same worker. *)
Record same_txn (th th' : thread) : Prop := {
  sm_ops : th_ops th' = th_ops th;
  sm_id : th_id th' = th_id th;
  sm_stamp : th_stamp th' = th_stamp th;
  sm_node : x_node (th_x th') = x_node (th_x th);
  sm_tid : x_tid (th_x th') = x_tid (th_x th);
  sm_kvs : x_kvs (th_x th') = x_kvs (th_x th);
  sm_mb : mini_batch_num (th_x th') = mini_batch_num (th_x th);
}.

Lemma same_addr th th' op : same_txn th th' → t_addr th' op = t_addr th op.
Proof. intros H. unfold t_addr. by rewrite (sm_node _ _ H). Qed.

Lemma net_held_sub net : net_held net `sublist_of` net.*1.
Proof.
  induction net as [|e net IH]; [constructor|]. unfold net_held in *. cbn [omap list_omap fmap list_fmap].
  destruct (is_put_req e.2.2); by constructor.
Qed.

Lemma held_submseteq w th : net_ok w th → held_ops th ⊆+ th_ops th.
Proof.
  intros [_ Hs _]. etrans; [|exact Hs]. apply submseteq_app; [done|]. apply sublist_submseteq, net_held_sub.
Qed.

Lemma held_sub w th op : net_ok w th → op ∈ held_ops th → op ∈ th_ops th.
Proof. intros Hn%held_submseteq Hop. by eapply elem_of_submseteq. Qed.

Lemma held_len w th : net_ok w th → (length (held_ops th) ≤ length (th_ops th))%nat.
Proof. intros Hn%held_submseteq. by apply submseteq_length. Qed.

Lemma net_len w th : net_ok w th → (length (th_net th) ≤ length (th_ops th))%nat.
Proof. intros [_ Hs%submseteq_length _]. rewrite length_app, length_fmap in Hs. lia. Qed.

Lemma net_held_elem net e : e ∈ net → is_put_req e.2.2 = true → e.1 ∈ net_held net.
Proof. intros Hin Hr. apply list_elem_of_omap. exists e. by rewrite Hr. Qed.

Lemma msg_frame w w' th e :
  (is_put_req e.2.2 = true → tuple <$> row_at kvs w' (t_addr th e.1) = tuple <$> row_at kvs w (t_addr th e.1)) →
  msg_ok w th e → msg_ok w' th e.
Proof.
  intros Ht (q & Hq & Hs & Hi & Hm). exists q. split_and!; try done. rewrite Hq in Ht. cbn [is_put_req] in Ht.
  destruct (mt_type q) eqn:Ety; try done. specialize (Ht (bool_decide_eq_true_2 _ eq_refl)).
  destruct Hm as (H1 & H2 & H3 & H4 & H5 & H6 & r & Hr & Hv). split_and!; try done. rewrite Hr in Ht.
  destruct (row_at kvs w' (t_addr th e.1)) as [r'|]; [|done]. injection Ht as Ht. exists r'. split; [done|].
  by rewrite Ht.
Qed.

Lemma net_frame w w' th :
  (∀ op, op ∈ held_ops th → tuple <$> row_at kvs w' (t_addr th op) = tuple <$> row_at kvs w (t_addr th op)) →
  net_ok w th → net_ok w' th.
Proof.
  intros Ht [H1 H2 H3]. split; try done. rewrite Forall_forall in H1 |- *. intros e He. eapply msg_frame; [|by apply H1].
  intros Hq. apply Ht. unfold held_ops. apply elem_of_app. right. by apply net_held_elem.
Qed.

Lemma net_ok_nil w th : th_net th = [] → phase_held th ⊆+ th_ops th → net_ok w th.
Proof. intros Hn Hs. split; rewrite Hn; [constructor|by rewrite app_nil_r|by left]. Qed.

Lemma hold_frame w w' th j op act :
  tuple <$> row_at kvs w' (t_addr th op) = tuple <$> row_at kvs w (t_addr th op) →
  hold_ok w th j op act → hold_ok w' th j op act.
Proof.
  intros Ht (r & Hr & Hact). rewrite Hr in Ht. destruct (row_at kvs w' (t_addr th op)) as [r'|] eqn:E; [|done].
  injection Ht as Ht. exists r'. split; [done|]. cbv zeta in *. by rewrite Ht.
Qed.

Lemma acts_frame w w' th ops acts :
  (∀ op, op ∈ ops → tuple <$> row_at kvs w' (t_addr th op) = tuple <$> row_at kvs w (t_addr th op)) →
  acts_ok w th ops acts → acts_ok w' th ops acts.
Proof.
  intros Ht [H1 H2 H3 H4]. split; try done. intros j op act Hop Ha.
  eapply hold_frame; [|by apply H2]. apply Ht. by eapply list_elem_of_lookup_2.
Qed.

Lemma phase_frame w w' th :
  (∀ op, op ∈ phase_held th → tuple <$> row_at kvs w' (t_addr th op) = tuple <$> row_at kvs w (t_addr th op)) →
  phase_ok w th → phase_ok w' th.
Proof.
  unfold phase_ok, phase_held. destruct (th_ph th); intros Ht Hp.
  - destruct Hp as (? & ? & ?). split_and!; try done. by eapply acts_frame.
  - destruct Hp as (? & ? & ?). split_and!; try done. by eapply acts_frame.
  - destruct Hp as (acts & tl & ? & ? & ?). exists acts, tl. split_and!; try done. by eapply acts_frame.
  - done.
Qed.

Lemma static_frame w w' th th' :
  length w' = length w → (∀ a, is_Some (row_at kvs w a) → is_Some (row_at kvs w' a)) → same_txn th th' →
  static_ok w th → static_ok w' th'.
Proof.
  intros Hl Hr [H1 H2 H3 H4 H5 H6 H7] [[E1 E2 E3 E4] Ho Hi Hs Hm]. split.
  - split; rewrite ?Hl, ?H4, ?H5, ?H6; done.
  - rewrite H1. eapply Forall_impl; [exact Ho|]. intros op (? & ? & ? & ?).
    unfold op_ok, t_addr. rewrite H4. split_and!; eauto.
  - by rewrite H2.
  - by rewrite H3.
  - by rewrite H2, H7.
Qed.

Lemma serial_store_insert ths t th th' order :
  ths !! t = Some th → same_txn th th' → ∀ a, serial_store S0 (<[t := th']> ths) order a = serial_store S0 ths order a.
Proof.
  intros Ht Hs. unfold serial_store.
  assert (∀ S, foldl (λ S t0, match <[t := th']> ths !! t0 with
      | Some th0 => write_all (x_node (th_x th0)) S (th_ops th0) | None => S end) S order
    = foldl (λ S t0, match ths !! t0 with
      | Some th0 => write_all (x_node (th_x th0)) S (th_ops th0) | None => S end) S order) as Heq.
  { induction order as [|u order IH]; intros S; [done|]. cbn [foldl]. rewrite IH. f_equal.
    destruct (decide (u = t)) as [->|Hne].
    - rewrite list_lookup_insert_eq by (by eapply lookup_lt_Some). rewrite Ht.
      by rewrite (sm_node _ _ Hs), (sm_ops _ _ Hs).
    - by rewrite list_lookup_insert_ne. }
  intros a. by rewrite Heq.
Qed.

Lemma few_ops_insert ths t th th' :
  ths !! t = Some th → same_txn th th' → few_ops ths → few_ops (<[t := th']> ths).
Proof.
  intros Ht Hs. unfold few_ops. rewrite list_fmap_insert, (sm_ops _ _ Hs), list_insert_id; [done|].
  by rewrite list_lookup_fmap, Ht.
Qed.

(** ** Exclusive locks *)

Lemma held_row w (ths : list thread) t th op :
  (∀ t th, ths !! t = Some th → static_ok w th) → (∀ t th, ths !! t = Some th → net_ok w th) →
  ths !! t = Some th → op ∈ held_ops th → ∃ r, row_at kvs w (t_addr th op) = Some r ∧ op_ok w th op.
Proof.
  intros Hst Hph Ht Hop. pose proof (st_ops _ _ (Hst t th Ht)) as Ho. rewrite Forall_forall in Ho.
  destruct (Ho op) as (H1 & H2 & [r Hr] & H4); [by eapply held_sub; eauto|].
  exists r. split; [done|]. split_and!; eauto.
Qed.

Lemma exclusive w ths t1 t2 th1 th2 j1 j2 op1 op2 r :
  rows_ok w ths → ths !! t1 = Some th1 → ths !! t2 = Some th2 →
  held_ops th1 !! j1 = Some op1 → held_ops th2 !! j2 = Some op2 →
  op_mode op1 = WRITE → t_addr th2 op2 = t_addr th1 op1 → row_at kvs w (t_addr th1 op1) = Some r →
  t1 = t2 ∧ j1 = j2.
Proof.
  intros [Hwf Hm] Ht1 Ht2 Hj1 Hj2 Hw Ha Hr.
  destruct (Hwf _ _ Hr) as [(_ & _ & Hx) Hc].
  assert (op1 ∈ held_ops th1) as Hin1 by by eapply list_elem_of_lookup_2.
  assert (op2 ∈ held_ops th2) as Hin2 by by eapply list_elem_of_lookup_2.
  rewrite (Hm _ _ t1 th1 op1 Hr Ht1 Hin1 eq_refl) in Hx. specialize (Hx Hw).
  destruct (decide (t1 = t2)) as [->|Hne].
  - split; [done|]. destruct (decide (j1 = j2)) as [|Hj]; [done|]. rewrite Ht1 in Ht2. injection Ht2 as <-.
    pose proof (hcount_ge (t_addr th1 op1) ths t2 th1 Ht1).
    pose proof (filter_two (λ op, t_addr th1 op = t_addr th1 op1) (held_ops th1) j1 j2 op1 op2 Hj Hj1 Hj2 eq_refl Ha).
    unfold t_count in *. lia.
  - pose proof (hcount_two (t_addr th1 op1) ths t1 t2 th1 th2 Hne Ht1 Ht2).
    pose proof (t_count_pos th1 op1 Hin1). pose proof (t_count_pos th2 op2 Hin2) as H2. rewrite Ha in H2. lia.
Qed.

(** ** One thread moves *)

Section move.
Context (w w' : world) (ths : list thread) (t : nat) (th th' : thread).
Context (Ht : ths !! t = Some th) (Hsame : same_txn th th').

Lemma moved_self : <[t := th']> ths !! t = Some th'.
Proof. apply list_lookup_insert_eq. by eapply lookup_lt_Some. Qed.

Lemma moved_cases u thu :
  <[t := th']> ths !! u = Some thu → u = t ∧ thu = th' ∨ u ≠ t ∧ ths !! u = Some thu.
Proof.
  intros Hu. destruct (decide (u = t)) as [->|Hne].
  - rewrite moved_self in Hu. injection Hu as <-. by left.
  - rewrite list_lookup_insert_ne in Hu by done. by right.
Qed.

(** The row [a0] changes together with the locks of the thread on it. *)
Lemma rows_step a0 r0 r1 :
  rows_ok w ths → row_at kvs w a0 = Some r0 →
  (∀ b, row_at kvs w' b = if decide (b = a0) then Some r1 else row_at kvs w b) →
  row_wf r1 → owner_cnt r1 + Z.of_nat (t_count a0 th) = owner_cnt r0 + Z.of_nat (t_count a0 th') →
  (∀ b, b ≠ a0 → t_count b th' = t_count b th) →
  (∀ op, op ∈ held_ops th' → t_addr th op ≠ a0 → op ∈ held_ops th) →
  (∀ u thu op, <[t := th']> ths !! u = Some thu → op ∈ held_ops thu → t_addr thu op = a0 →
     lock_type r1 = op_mode op) →
  rows_ok w' (<[t := th']> ths).
Proof.
  intros [Hwf Hm] Hr0 Hrow Hr1 Hcnt Hother Hsub Hmode. split.
  - intros b r. rewrite Hrow. pose proof (hcount_insert b ths t th th' Ht) as Hi. case_decide as Hb.
    + subst b. intros [= <-]. split; [done|]. destruct (Hwf _ _ Hr0) as [_ Hc]. lia.
    + intros Hr. destruct (Hwf _ _ Hr) as [? ->]. rewrite (Hother b Hb) in Hi. split; [done|lia].
  - intros b r u thu op. rewrite Hrow. case_decide as Hb.
    + subst b. intros [= <-] Hu Hop Ha. by eapply Hmode.
    + intros Hr Hu Hop Ha. destruct (moved_cases u thu Hu) as [[-> ->]|[_ Hu']]; [|by eapply Hm].
      rewrite (same_addr _ _ _ Hsame) in Ha. eapply (Hm _ _ t th); eauto. apply Hsub; [done|congruence].
Qed.

(** No lock changes hands. *)
Lemma rows_same :
  rows_ok w ths → held_ops th' ≡ₚ held_ops th →
  (∀ b r', row_at kvs w' b = Some r' →
     ∃ r, row_at kvs w b = Some r ∧ lock_type r' = lock_type r ∧ owner_cnt r' = owner_cnt r) →
  rows_ok w' (<[t := th']> ths).
Proof.
  intros [Hwf Hm] Hheld Hrow.
  assert (∀ b, t_count b th' = t_count b th) as Hcnt.
  { intros b. unfold t_count, t_addr. rewrite (sm_node _ _ Hsame). by rewrite Hheld. }
  split.
  - intros b r' Hr'. destruct (Hrow b r' Hr') as (r & Hr & Hl & Ho). destruct (Hwf _ _ Hr) as [Hw Hc].
    split; [unfold row_wf in *; by rewrite Hl, Ho|].
    pose proof (hcount_insert b ths t th th' Ht) as Hi. rewrite Hcnt in Hi. rewrite Ho. lia.
  - intros b r' u thu op Hr' Hu Hop Ha. destruct (Hrow b r' Hr') as (r & Hr & -> & _).
    destruct (moved_cases u thu Hu) as [[-> ->]|[_ Hu']]; [|by eapply Hm].
    rewrite (same_addr _ _ _ Hsame) in Ha. rewrite Hheld in Hop. by eapply (Hm _ _ t th).
Qed.

Lemma counts_step v :
  counts_ok w ths → workers_ok ths → (∀ u thu, ths !! u = Some thu → 0 ≤ x_tid (th_x thu)) →
  (∀ i c, put_count w' i c = if decide ((i, c) = (x_node (th_x th), Z.to_nat (x_tid (th_x th)))) then Some v
                             else put_count w i c) →
  v = Z.of_nat (length (th_net th')) → counts_ok w' (<[t := th']> ths).
Proof.
  intros Hc Hwk Hpos Hput -> u thu Hu. destruct (moved_cases u thu Hu) as [[-> ->]|[Hne Hu']].
  - rewrite (sm_node _ _ Hsame), (sm_tid _ _ Hsame), Hput. by rewrite decide_True.
  - rewrite Hput, decide_False; [by apply (Hc u)|]. intros [= Hnd Htd]. apply Hne.
    eapply Hwk; eauto. pose proof (Hpos u thu Hu'). pose proof (Hpos t th Ht). lia.
Qed.

Lemma counts_same :
  counts_ok w ths → n_putres <$> w' = n_putres <$> w → length (th_net th') = length (th_net th) →
  counts_ok w' (<[t := th']> ths).
Proof.
  intros Hc Hput Hlen u thu Hu. unfold put_count. rewrite Hput. destruct (moved_cases u thu Hu) as [[-> ->]|[Hne Hu']].
  - rewrite (sm_node _ _ Hsame), (sm_tid _ _ Hsame), Hlen. by apply (Hc t).
  - by apply (Hc u).
Qed.

Lemma workers_step : workers_ok ths → workers_ok (<[t := th']> ths).
Proof.
  intros Hwk t1 t2 th1 th2 H1 H2 Hn Hi.
  assert (∀ u thu, <[t := th']> ths !! u = Some thu → ∃ thu0, ths !! u = Some thu0
    ∧ x_node (th_x thu0) = x_node (th_x thu) ∧ x_tid (th_x thu0) = x_tid (th_x thu)) as Hold.
  { intros u thu Hu. destruct (moved_cases u thu Hu) as [[-> ->]|[_ Hu']]; [|by exists thu].
    exists th. by rewrite (sm_node _ _ Hsame), (sm_tid _ _ Hsame). }
  destruct (Hold _ _ H1) as (a & Ha & Ha1 & Ha2), (Hold _ _ H2) as (b & Hb & Hb1 & Hb2).
  eapply Hwk; eauto; congruence.
Qed.

Lemma post_writer_keep b :
  post th' = post th → (post th = true → ∀ op, op ∈ held_ops th → op_mode op = WRITE → op ∈ held_ops th') →
  post_writer ths b → post_writer (<[t := th']> ths) b.
Proof.
  intros Hp Hh (u & thu & op & Hu & Hpu & Hop & Ha & Hw). destruct (decide (u = t)) as [->|Hne].
  - rewrite Ht in Hu. injection Hu as <-. exists t, th', op. rewrite moved_self, Hp.
    split_and!; try done; [by apply Hh|]. by rewrite (same_addr _ _ _ Hsame).
  - exists u, thu, op. by rewrite list_lookup_insert_ne.
Qed.

Lemma values_step order :
  values_ok w ths order → post th' = post th →
  (post th = true → ∀ op, op ∈ held_ops th' → op ∈ held_ops th) →
  (∀ b r', row_at kvs w' b = Some r' → ¬ post_writer (<[t := th']> ths) b →
     kv_value (tuple r') = serial_store S0 ths order b) →
  (∀ S, (∀ op, op ∈ held_ops th → op_mode op = READ → S (t_addr th op) = serial_store S0 ths order (t_addr th op)) →
     reads_ok S th → reads_ok S th') →
  values_ok w' (<[t := th']> ths) order.
Proof.
  intros [Hrow Hwr Hrd Hord Hnd] Hpost Hheld Hrow' Hreads.
  pose proof (λ o, serial_store_insert ths t th th' o Ht Hsame) as Hser. split.
  - intros b r' Hr' Hn. rewrite Hser. by apply Hrow'.
  - intros u thu op Hu Hp Hop Hw. rewrite Hser. destruct (moved_cases u thu Hu) as [[-> ->]|[_ Hu']]; [|by eapply Hwr].
    rewrite (same_addr _ _ _ Hsame). apply (Hwr t th op Ht); [congruence| |done]. apply Hheld; [congruence|done].
  - intros pre u post' thu Ho Hu. destruct (moved_cases u thu Hu) as [[-> ->]|[_ Hu']].
    + destruct (Hrd pre t post' th Ho Ht) as [Hro Hag].
      assert (post th = true) as Hpt.
      { apply (Hord t th Ht). rewrite Ho. apply elem_of_app. right. left. }
      split.
      * assert (reads_ok (serial_store S0 ths pre) th') as Hr' by (by apply Hreads).
        eapply reads_ok_ext; [|exact Hr']. intros a. by rewrite Hser.
      * intros op Hop Hmode. rewrite !Hser, (same_addr _ _ _ Hsame). apply Hag; [|done]. by apply Hheld.
    + destruct (Hrd pre u post' thu Ho Hu') as [Hro Hag]. split.
      * eapply reads_ok_ext; [|exact Hro]. intros a. by rewrite Hser.
      * intros op Hop Hmode. rewrite !Hser. by apply Hag.
  - intros u thu Hu. destruct (moved_cases u thu Hu) as [[-> ->]|[_ Hu']]; [|by apply Hord].
    rewrite Hpost. by apply Hord.
  - destruct Hnd as [? Hall]. split; [done|]. eapply Forall_impl; [done|]. intros u [thu Hu]. simpl.
    destruct (decide (u = t)) as [->|Hne]; [rewrite moved_self; by eexists|rewrite list_lookup_insert_ne by done; by eexists].
Qed.
End move.
End invariant.
