(* ===== verification/SerialSteps.v ===== *)
(** * Every step keeps the serializability invariant

    One lemma per step of [Serial.tstep]. *)
From stdpp Require Import base tactics list numbers gmap relations.
From Stdlib Require Import ZArith Lia.
From S2P Require Import Prelude Types Layout Msg Row Table Mempool SendQ SwitchPkt MsgHandler HotCold Sched Undolog Executor RowAccess Serial.

Section steps.
Context (bm : build) (ext : externals) (kvs : nat) (workers : Z) (S0 : store).

#[local] Abbreviation inv := (inv kvs workers S0).
#[local] Abbreviation rows_ok := (rows_ok kvs).
#[local] Abbreviation values_ok := (values_ok kvs S0).
#[local] Abbreviation phase_ok := (phase_ok kvs).
#[local] Abbreviation acts_ok := (acts_ok kvs).
#[local] Abbreviation hold_ok := (hold_ok kvs).
#[local] Abbreviation net_ok := (net_ok kvs).

(** The parts of the invariant that no step of another thread disturbs. *)
Lemma inv_step s t th w' th' order' :
  inv s → s_ths s !! t = Some th → same_txn th th' →
  world_ok kvs workers w' → length w' = length (s_w s) →
  (∀ a, is_Some (row_at kvs (s_w s) a) → is_Some (row_at kvs w' a)) →
  (∀ u thu op, u ≠ t → s_ths s !! u = Some thu → op ∈ held_ops thu →
     tuple <$> row_at kvs w' (t_addr thu op) = tuple <$> row_at kvs (s_w s) (t_addr thu op)) →
  phase_ok w' th' → rows_ok w' (<[t := th']> (s_ths s)) →
  values_ok w' (<[t := th']> (s_ths s)) order' →
  net_ok w' th' → counts_ok w' (<[t := th']> (s_ths s)) →
  inv (MkSysSt w' (<[t := th']> (s_ths s)) order').
Proof.
  intros [Hw Hst Hph Hrows Hval Hfew Hnet Hcnt Hwk] Ht Hsame Hw' Hlen Hdom Hframe Hph' Hrows' Hval' Hnet' Hcnt'.
  assert (∀ thu, same_txn thu thu) as Hrefl by by split.
  split; cbn [s_w s_ths s_order]; try done.
  - intros u thu Hu. destruct (moved_cases _ t th th' Ht u thu Hu) as [[-> ->]|[_ Hu']];
      eapply static_frame; eauto.
  - intros u thu Hu. destruct (moved_cases _ t th th' Ht u thu Hu) as [[-> ->]|[Hne Hu']]; [done|].
    eapply phase_frame; [|by eapply Hph]. intros op Hop. eapply Hframe; [done..|]. apply elem_of_app. by left.
  - by eapply few_ops_insert.
  - intros u thu Hu. destruct (moved_cases _ t th th' Ht u thu Hu) as [[-> ->]|[Hne Hu']]; [done|].
    eapply net_frame; [|by eapply Hnet]. intros op Hop. by eapply Hframe.
  - by eapply workers_step.
Qed.

(** Outside the release phase a transaction has no message under way. *)
Lemma net_nil s t th :
  inv s → s_ths s !! t = Some th → match th_ph th with Releasing _ _ _ _ => False | _ => True end → th_net th = [].
Proof.
  intros Hi Ht Hph. destruct (nt_quiet _ _ _ (in_net _ _ _ _ Hi t th Ht)) as [|(? & ? & ? & ? & He)]; [done|].
  by rewrite He in Hph.
Qed.

Lemma held_nil th : th_net th = [] → held_ops th = phase_held th.
Proof. intros Hn. unfold held_ops. rewrite Hn. apply app_nil_r. Qed.

(** A step of a thread with no message under way that sends none. *)
Lemma inv_calm s t th w' th' order' :
  inv s → s_ths s !! t = Some th → same_txn th th' →
  world_ok kvs workers w' → length w' = length (s_w s) →
  (∀ a, is_Some (row_at kvs (s_w s) a) → is_Some (row_at kvs w' a)) →
  (∀ u thu op, u ≠ t → s_ths s !! u = Some thu → op ∈ held_ops thu →
     tuple <$> row_at kvs w' (t_addr thu op) = tuple <$> row_at kvs (s_w s) (t_addr thu op)) →
  phase_ok w' th' → rows_ok w' (<[t := th']> (s_ths s)) →
  values_ok w' (<[t := th']> (s_ths s)) order' →
  th_net th = [] → th_net th' = [] → phase_held th' ⊆+ th_ops th → n_putres <$> w' = n_putres <$> s_w s →
  inv (MkSysSt w' (<[t := th']> (s_ths s)) order').
Proof.
  intros Hi Ht Hsame Hw' Hlen Hdom Hframe Hph' Hrows' Hval' Hn Hn' Hsub Hput.
  eapply inv_step; eauto.
  - apply net_ok_nil; [done|]. by rewrite (sm_ops _ _ Hsame).
  - eapply (counts_same (s_w s)); eauto; [apply Hi|by rewrite Hn, Hn'].
Qed.

Lemma set_th_same th x ph :
  x_node x = x_node (th_x th) → x_tid x = x_tid (th_x th) → x_kvs x = x_kvs (th_x th) →
  mini_batch_num x = mini_batch_num (th_x th) → same_txn th (set_th th x ph).
Proof. by split. Qed.

(** The row of an operation about to be locked. *)
Lemma op_row s t th op :
  inv s → s_ths s !! t = Some th → op ∈ th_ops th →
  op_mode op ≠ INVALID ∧ 0 ≤ op_id op ∧ (∃ r, row_at kvs (s_w s) (t_addr th op) = Some r)
  ∧ (is_local (loc_info op) = false → (t_addr th op).1 ≠ x_node (th_x th)).
Proof.
  intros Hi Ht Hop. pose proof (st_ops _ _ _ _ (in_static _ _ _ _ Hi t th Ht)) as Ho.
  rewrite Forall_forall in Ho. by destruct (Ho op Hop) as (? & ? & [r Hr] & ?); eauto 6.
Qed.

(** The owner count of a row stays within 32 bits. *)
Lemma count_small s a r :
  inv s → row_at kvs (s_w s) a = Some r → owner_cnt r + 1 < 2 ^ 32.
Proof.
  intros Hi Hr. destruct (rk_wf _ _ _ (in_rows _ _ _ _ Hi) a r Hr) as [_ ->].
  pose proof (hcount_le a (s_ths s)) as Hle. pose proof (in_few _ _ _ _ Hi) as Hf. unfold few_ops in Hf.
  enough (Z.of_nat (hcount a (s_ths s)) ≤ Z.of_nat (length (concat (th_ops <$> s_ths s)))) by lia.
  apply inj_le, Hle. intros t th Ht. eapply held_len. by eapply (in_net _ _ _ _ Hi).
Qed.

Lemma t_count_same th th' b :
  same_txn th th' → t_count b th' = length (filter (λ op, t_addr th op = b) (held_ops th')).
Proof. intros Hs. unfold t_count, t_addr. by rewrite (sm_node _ _ Hs). Qed.

(** ** Moving one thread's view of its locks *)

Lemma hold_move w w' th th' j op act :
  same_txn th th' → x_futs (th_x th') !! act_fut act = x_futs (th_x th) !! act_fut act →
  applied th' j = applied th j →
  tuple <$> row_at kvs w' (t_addr th op) = tuple <$> row_at kvs w (t_addr th op) →
  hold_ok w th j op act → hold_ok w' th' j op act.
Proof.
  intros Hs Hf Ha Ht Hh. unfold Serial.hold_ok in *. rewrite Ha, (same_addr _ _ _ Hs).
  destruct Hh as (r & Hr & Hact). rewrite Hr in Ht. destruct (row_at kvs w' (t_addr th op)) as [r'|]; [|done].
  injection Ht as Ht. exists r'. split; [done|]. cbv zeta in *. rewrite Ht. destruct act; cbn [act_fut] in Hf; by rewrite Hf.
Qed.

Lemma acts_move w w' th th' ops acts :
  same_txn th th' →
  (∀ act, act ∈ acts → x_futs (th_x th') !! act_fut act = x_futs (th_x th) !! act_fut act) →
  (length (x_futs (th_x th)) ≤ length (x_futs (th_x th')))%nat →
  (∀ j, (j < length ops)%nat → applied th' j = applied th j) →
  (∀ op, op ∈ ops → tuple <$> row_at kvs w' (t_addr th op) = tuple <$> row_at kvs w (t_addr th op)) →
  acts_ok w th ops acts → acts_ok w' th' ops acts.
Proof.
  intros Hs Hf Hl Ha Ht [H1 H2 H3 H4]. split; try done.
  - intros j op act Hop Hact. eapply hold_move; [done|apply Hf; by eapply list_elem_of_lookup_2| | |by eapply H2].
    + apply Ha. by eapply lookup_lt_Some.
    + apply Ht. by eapply list_elem_of_lookup_2.
  - eapply Forall_impl; [done|]. simpl. intros. lia.
Qed.

Lemma acts_nil w th : acts_ok w th [] [].
Proof. split; [done|done|constructor|constructor]. Qed.

Lemma acts_snoc w th ops acts op act :
  acts_ok w th ops acts → hold_ok w th (length ops) op act →
  act_fut act ∉ (act_fut <$> acts) → (act_fut act < length (x_futs (th_x th)))%nat →
  acts_ok w th (ops ++ [op]) (acts ++ [act]).
Proof.
  intros [H1 H2 H3 H4] Hh Hfr Hlt. split.
  - rewrite !length_app. simpl. lia.
  - intros j op' act' Hop Hact. destruct (decide (j < length ops)%nat) as [Hj|Hj].
    + rewrite lookup_app_l in Hop by lia. rewrite lookup_app_l in Hact by lia. by apply H2.
    + rewrite lookup_app_r in Hop by lia. rewrite lookup_app_r in Hact by lia.
      apply list_lookup_singleton_Some in Hop as [Hj0 <-]. apply list_lookup_singleton_Some in Hact as [_ <-].
      by replace j with (length ops) by lia.
  - rewrite fmap_app. apply NoDup_app. split_and!; [done| |apply NoDup_singleton].
    intros f Hf Hin. simpl in Hin. apply list_elem_of_singleton in Hin as ->. done.
  - apply Forall_app. split; [done|]. by constructor.
Qed.

(** An entry is released: the others stay. *)
Lemma acts_tail w th op ops act acts :
  (∀ i j, applied th i = applied th j) → acts_ok w th (op :: ops) (act :: acts) → acts_ok w th ops acts.
Proof.
  intros Ha [H1 H2 H3 H4]. apply Forall_cons in H4 as [_ H4]. rewrite fmap_cons in H3. apply NoDup_cons in H3 as [_ H3].
  split; [simpl in H1; lia| |done|done]. intros j op' act' Hop Hact.
  specialize (H2 (S j) op' act' Hop Hact). unfold Serial.hold_ok in *. by rewrite (Ha j (S j)).
Qed.

Lemma compatible_mode r m m' :
  is_compatible r m = true → lock_type r = m' → m' ≠ INVALID → m ≠ INVALID → m = m'.
Proof. unfold is_compatible. intros H <- ??. repeat case_bool_decide; destruct (lock_type r), m; naive_solver. Qed.

(** ** The lock phase *)

(** The view a granted lock gives. *)
Lemma granted_hold w' th x' op r act fut ph r' :
  granted kvs (th_x th) x' op r act fut → TxnId_ok (last_acq r) →
  row_at kvs w' (t_addr th op) = Some r' → tuple r' = tuple r → x_node x' = x_node (th_x th) →
  ∀ j, applied (set_th th x' ph) j = false → hold_ok w' (set_th th x' ph) j op act ∧ act_fut act = length (x_futs (th_x th)).
Proof.
  intros [-> Hla Hact] Hok Hr' Htup _ j Hj.
  assert (x_futs (push_log act (push_fut fut (th_x th))) !! length (x_futs (th_x th)) = Some fut) as Hf
    by by apply list_lookup_middle.
  destruct fut as [pk tp la]. cbn [fut_last_acq fut_pkt fut_tuple] in *. subst la.
  unfold Serial.hold_ok. rewrite Hj. cbn [andb].
  destruct (is_local (loc_info op)) eqn:El.
  - destruct Hact as (-> & -> & ->). split; [|done]. exists r'. split; [done|]. split_and!; try done.
    eexists. split_and!; [exact Hf|done|done].
  - destruct Hact as (-> & -> & pkt & -> & ? & ? & ? & ?). split; [|done]. exists r'. split; [done|].
    split_and!; try done. do 2 eexists. split_and!; [exact Hf|done..|]. congruence.
Qed.

Lemma granted_same th x' op r act fut ph :
  granted kvs (th_x th) x' op r act fut → same_txn th (set_th th x' ph).
Proof. intros [-> _ _]. by apply set_th_same. Qed.

Section lock_step.
Context (s : sysst) (t : nat) (th : thread) (futs : list nat) (op : OP) (r : Row).
Context (w' : world) (x' : TxnExecutor) (act : Action) (fut : TupleFuture).
Context (Hi : inv s) (Ht : s_ths s !! t = Some th) (Hph : th_ph th = Locking futs).
Context (Hop : th_ops th !! length futs = Some op) (Hr : row_at kvs (s_w s) (t_addr th op) = Some r).
Context (Hm : op_mode op ≠ INVALID) (Hcomp : is_compatible r (op_mode op) = true).
Context (Hrow : ∀ b, row_at kvs w' b = if decide (b = t_addr th op) then Some (grant (op_mode op) r) else row_at kvs (s_w s) b).
Context (Hg : granted kvs (th_x th) x' op r act fut).

Let th' := set_th th x' (Locking (futs ++ [length (x_futs (th_x th))])).

Lemma lock_same : same_txn th th'.
Proof. by eapply granted_same. Qed.

Lemma lock_net : th_net th = [].
Proof. apply (net_nil s t th Hi Ht). by rewrite Hph. Qed.

Lemma lock_held : held_ops th' = held_ops th ++ [op].
Proof.
  rewrite !held_nil by exact lock_net. unfold phase_held, th'; cbn [set_th th_ph th_ops]. rewrite Hph, length_app. cbn [length].
  rewrite Nat.add_1_r. by apply take_S_r.
Qed.

Lemma lock_tuple b : tuple <$> row_at kvs w' b = tuple <$> row_at kvs (s_w s) b.
Proof. rewrite Hrow. case_decide as Hb; [|done]. by rewrite Hb, Hr. Qed.

Lemma lock_phase : phase_ok w' th'.
Proof.
  pose proof (row_last_ok kvs workers _ _ _ (in_world _ _ _ _ Hi) Hr) as Hla.
  pose proof (in_phase _ _ _ _ Hi t th Ht) as Hp. unfold Serial.phase_ok in Hp. rewrite Hph in Hp.
  destruct Hp as (Hle & Hfuts & Hacts). pose proof (ac_futs _ _ _ _ _ Hacts) as HF. rewrite Forall_forall in HF.
  destruct (granted_hold w' th x' op r act fut (Locking (futs ++ [length (x_futs (th_x th))])) (grant (op_mode op) r) Hg Hla)
    with (j := length futs) as [Hh Haf]; [by rewrite Hrow, decide_True|done|by apply lock_same|done|].
  pose proof (gr_x _ _ _ _ _ _ _ Hg) as Hx'.
  assert (x_futs x' = x_futs (th_x th) ++ [fut] ∧ x_log x' = x_log (th_x th) ++ [act]) as [Hxf Hlog] by by rewrite Hx'.
  unfold Serial.phase_ok, th'; cbn [set_th th_ph th_ops th_x]. rewrite length_app. cbn [length].
  rewrite Nat.add_1_r, (take_S_r _ _ op) by done. rewrite Hlog. split_and!.
  - apply lookup_lt_Some in Hop. lia.
  - rewrite fmap_app, <-Hfuts. simpl. by rewrite Haf.
  - apply acts_snoc.
    + eapply acts_move; [exact lock_same| | | | |exact Hacts].
      * intros a Ha. unfold th'; cbn [set_th th_x]. rewrite Hxf. apply lookup_app_l. by apply HF.
      * unfold th'; cbn [set_th th_x]. rewrite Hxf, length_app. lia.
      * intros j _. unfold applied. by rewrite Hph.
      * intros o _. apply lock_tuple.
    + rewrite length_take, Nat.min_l by done. exact Hh.
    + rewrite Haf. intros Hin. apply list_elem_of_fmap in Hin as (a & Ha & Hin). specialize (HF a Hin). simpl in HF. lia.
    + cbn [set_th th_x]. rewrite Haf, Hxf, length_app. simpl. lia.
Qed.

(** All holders of the row, the new one included, have its mode. *)
Lemma lock_modes u thu o :
  <[t := th']> (s_ths s) !! u = Some thu → o ∈ held_ops thu → t_addr thu o = t_addr th op → op_mode op = op_mode o.
Proof.
  assert (∀ thu, s_ths s !! u = Some thu → o ∈ held_ops thu → t_addr thu o = t_addr th op → op_mode op = op_mode o) as Hold.
  { intros th0 H0 Ho0 Ha0. eapply compatible_mode; [done| | |done].
    - by eapply (rk_mode _ _ _ (in_rows _ _ _ _ Hi)).
    - apply (op_row s u th0 o Hi H0). eapply held_sub; [|done]. by eapply (in_net _ _ _ _ Hi). }
  intros Hu Ho Ha. destruct (moved_cases _ t th th' Ht u thu Hu) as [[-> ->]|[Hn Hu']]; [|by eapply Hold].
  rewrite (same_addr _ _ _ lock_same) in Ha. rewrite lock_held, elem_of_app, list_elem_of_singleton in Ho.
  destruct Ho as [Ho|Ho]; [by eapply Hold|by subst o].
Qed.

Lemma lock_rows : rows_ok w' (<[t := th']> (s_ths s)).
Proof.
  destruct (grant_wf r (op_mode op)) as (Hwf' & _ & Hcnt);
    [by apply (rk_wf _ _ _ (in_rows _ _ _ _ Hi) _ _ Hr)|done|by eapply count_small|done|].
  assert (∀ b, t_count b th' = (t_count b th + if decide (t_addr th op = b) then 1 else 0)%nat) as Hc.
  { intros b. rewrite (t_count_same th th' b lock_same), lock_held, filter_app, length_app.
    unfold t_count. f_equal. rewrite filter_cons, filter_nil. by case_decide. }
  eapply (rows_step kvs (s_w s) w' _ t th th' Ht lock_same (t_addr th op) r (grant (op_mode op) r)); try done.
  - apply Hi.
  - rewrite Hc, decide_True by done. rewrite Hcnt. lia.
  - intros b Hb. rewrite Hc, decide_False by done. lia.
  - intros o. rewrite lock_held, elem_of_app, list_elem_of_singleton. intros [Ho|Ho] Hne'; [done|]. by subst o.
  - exact lock_modes.
Qed.
End lock_step.

(** A step of a transaction that is not yet ordered, and that leaves the
    tuples of all rows alone, keeps the values. *)
Lemma values_quiet s t th w' th' :
  inv s → s_ths s !! t = Some th → same_txn th th' → post th = false → post th' = false →
  (∀ b, tuple <$> row_at kvs w' b = tuple <$> row_at kvs (s_w s) b) →
  values_ok w' (<[t := th']> (s_ths s)) (s_order s).
Proof.
  intros Hi Ht Hsame Hpost Hpost' Htup.
  apply (values_step kvs S0 (s_w s) w' _ t th th' Ht Hsame); [apply Hi|congruence|congruence| |].
  - intros b r' Hr' Hn. specialize (Htup b). rewrite Hr' in Htup. destruct (row_at kvs (s_w s) b) as [rb|] eqn:Eb; [|done].
    injection Htup as ->. apply (vk_row _ _ _ _ _ (in_values _ _ _ _ Hi) b rb Eb). intros Hpw. apply Hn.
    eapply post_writer_keep; eauto; congruence.
  - intros S _ _. unfold post in Hpost'. unfold reads_ok. by destruct (th_ph th') as [| |? ? [] ?|[] ?].
Qed.

Lemma inv_lock s t th futs op f w' x' :
  inv s → s_ths s !! t = Some th → th_ph th = Locking futs → th_ops th !! length futs = Some op →
  acquire bm ext (op_mode op) (s_w s) (th_x th) op (th_id th) = Ok (Some f, w', x') →
  inv (MkSysSt w' (<[t := set_th th x' (Locking (futs ++ [f]))]> (s_ths s)) (s_order s)).
Proof.
  intros Hi Ht Hph Hop Hacq.
  destruct (op_row s t th op Hi Ht) as (Hm & Hk & [r Hr] & Hne); [by eapply list_elem_of_lookup_2|].
  destruct (in_static _ _ _ _ Hi t th Ht) as [Hx _ Hid _ Hmb].
  destruct (acquire_inv bm ext kvs workers (s_w s) (th_x th) op (th_id th) r _ w' x' (in_world _ _ _ _ Hi) Hx Hk Hm Hne Hid Hmb Hr Hacq)
    as (Hw' & Hlen%send_q_len & Hput & -> & [Hcomp _] & Hrow & act & fut & Hg).
  fold (t_addr th op) in Hrow. pose proof (lock_tuple s th op r w' Hr Hrow) as Htup.
  pose proof (lock_net s t th futs Hi Ht Hph) as Hn. eapply inv_calm; eauto.
  - by eapply lock_same.
  - intros b [rb Hb]. rewrite Hrow. case_decide; by eexists.
  - by eapply lock_phase.
  - by eapply lock_rows.
  - eapply values_quiet; eauto; [by eapply lock_same|by unfold post; rewrite Hph].
  - apply sublist_submseteq. apply sublist_take.
Qed.

(** A refused request leaves one more entry in the log, whose future failed, or
    none. *)
Lemma refused_acts th x' op futs rest :
  refused (th_x th) x' op → th_ph th = Locking futs →
  phase_ok rest th →
  phase_ok rest (set_th th x' (Releasing (take (length futs) (th_ops th)) (x_log x') ROLLBACK []))
  ∧ same_txn th (set_th th x' (Releasing (take (length futs) (th_ops th)) (x_log x') ROLLBACK [])).
Proof.
  intros [fut Hx'] Hph Hp. unfold Serial.phase_ok in Hp. rewrite Hph in Hp. destruct Hp as (Hle & Hfuts & Hacts).
  pose proof (ac_futs _ _ _ _ _ Hacts) as HF. rewrite Forall_forall in HF.
  assert (same_txn th (set_th th x' (Releasing (take (length futs) (th_ops th)) (x_log x') ROLLBACK []))) as Hsame.
  { destruct (is_local (loc_info op)); [subst x'|destruct Hx' as [-> _]]; by apply set_th_same. }
  split; [|done].
  assert (x_futs x' = x_futs (th_x th) ++ [fut]) as Hxf by (destruct (is_local (loc_info op)); naive_solver).
  unfold Serial.phase_ok; cbn [set_th th_ph th_ops th_x]. exists (x_log (th_x th)).
  exists (if is_local (loc_info op) then [] else [ARemote (op_mode op) (length (x_futs (th_x th))) (target (loc_info op))]).
  split_and!.
  - destruct (is_local (loc_info op)); [subst x'; by rewrite app_nil_r|by destruct Hx' as [-> _]].
  - eapply acts_move; [exact Hsame| | | |done|exact Hacts].
    + intros a Ha. cbn [set_th th_x]. rewrite Hxf. apply lookup_app_l. by apply HF.
    + cbn [set_th th_x]. rewrite Hxf, length_app. lia.
    + intros j _. unfold applied. by rewrite Hph.
  - destruct (is_local (loc_info op)); [by left|right]. destruct Hx' as [-> Hf]. destruct fut as [p tp la].
    cbn in Hf. subst tp. do 5 eexists. split; [done|]. by apply list_lookup_middle.
Qed.

Lemma inv_refused s t th futs op w' x' :
  inv s → s_ths s !! t = Some th → th_ph th = Locking futs → world_ok kvs workers w' → length w' = length (s_w s) →
  n_putres <$> w' = n_putres <$> s_w s → (∀ b, row_at kvs w' b = row_at kvs (s_w s) b) → refused (th_x th) x' op →
  inv (MkSysSt w' (<[t := set_th th x' (Releasing (take (length futs) (th_ops th)) (x_log x') ROLLBACK [])]> (s_ths s))
               (s_order s)).
Proof.
  intros Hi Ht Hph Hw' Hlen Hput Hrow Href. pose proof (lock_net s t th futs Hi Ht Hph) as Hn.
  destruct (refused_acts th x' op futs w' Href Hph) as [Hp Hsame].
  { eapply phase_frame; [|by eapply (in_phase _ _ _ _ Hi)]. intros o _. by rewrite Hrow. }
  eapply inv_calm; eauto.
  - intros b. by rewrite Hrow.
  - intros. by rewrite Hrow.
  - eapply (rows_same kvs (s_w s)); eauto; [apply Hi|by rewrite !held_nil by done; unfold phase_held; rewrite Hph|].
    intros b r'. rewrite Hrow. by exists r'.
  - eapply values_quiet; eauto; [by unfold post; rewrite Hph|]. intros b. by rewrite Hrow.
  - apply sublist_submseteq. apply sublist_take.
Qed.

Lemma inv_refuse s t th futs op w' x' :
  inv s → s_ths s !! t = Some th → th_ph th = Locking futs → th_ops th !! length futs = Some op →
  acquire bm ext (op_mode op) (s_w s) (th_x th) op (th_id th) = Ok (None, w', x') →
  inv (MkSysSt w' (<[t := set_th th x' (Releasing (take (length futs) (th_ops th)) (x_log x') ROLLBACK [])]> (s_ths s))
               (s_order s)).
Proof.
  intros Hi Ht Hph Hop Hacq.
  destruct (op_row s t th op Hi Ht) as (Hm & Hk & [r Hr] & Hne); [by eapply list_elem_of_lookup_2|].
  destruct (in_static _ _ _ _ Hi t th Ht) as [Hx _ Hid _ Hmb].
  destruct (acquire_inv bm ext kvs workers (s_w s) (th_x th) op (th_id th) r _ w' x' (in_world _ _ _ _ Hi) Hx Hk Hm Hne Hid Hmb Hr Hacq)
    as (Hw' & Hlen%send_q_len & Hput & Hrow & Href & _).
  by eapply inv_refused.
Qed.

Lemma inv_stale s t th futs op :
  inv s → s_ths s !! t = Some th → th_ph th = Locking futs → is_local (loc_info op) = true →
  inv (MkSysSt (s_w s) (<[t := set_th th (push_fut (MkFuture None PNull (th_id th)) (th_x th))
         (Releasing (take (length futs) (th_ops th)) (x_log (th_x th)) ROLLBACK [])]> (s_ths s)) (s_order s)).
Proof.
  intros Hi Ht Hph Hl. change (x_log (th_x th)) with (x_log (push_fut (MkFuture None PNull (th_id th)) (th_x th))).
  eapply (inv_refused s t th futs op); try done; [apply Hi|]. eexists. by rewrite Hl.
Qed.

(** ** The commit point *)

Lemma write_all_other node S ops a :
  (∀ op, op ∈ ops → op_mode op = WRITE → op_addr node op ≠ a) → write_all node S ops a = S a.
Proof.
  revert S. induction ops as [|op ops IH]; intros S H; [done|]. unfold write_all in *. cbn [foldl].
  rewrite IH by (intros o Ho; apply H; by right). case_bool_decide as Hw; [|done].
  unfold upd. rewrite decide_False; [done|]. intros ->. by apply (H op); [left|..].
Qed.

Lemma write_all_at node S ops i op :
  ops !! i = Some op → op_mode op = WRITE →
  (∀ j o, ops !! j = Some o → op_addr node o = op_addr node op → j = i) →
  write_all node S ops (op_addr node op) = op_value op.
Proof.
  intros Hi Hw Hu. rewrite <-(take_drop_middle ops i op Hi).
  unfold write_all. rewrite foldl_app. cbn [foldl]. rewrite bool_decide_true by done.
  fold (write_all node S (take i ops)). set (S1 := write_all node S (take i ops)).
  fold (write_all node (upd S1 (op_addr node op) (op_value op)) (drop (Datatypes.S i) ops)).
  rewrite write_all_other; [unfold upd; by rewrite decide_True|].
  intros o Ho _ Ha. apply list_elem_of_lookup in Ho as [j Hj]. rewrite lookup_drop in Hj.
  specialize (Hu _ _ Hj Ha). lia.
Qed.

Lemma serial_store_snoc ths order t th :
  ths !! t = Some th →
  serial_store S0 ths (order ++ [t]) = write_all (x_node (th_x th)) (serial_store S0 ths order) (th_ops th).
Proof. intros Ht. unfold serial_store. rewrite foldl_app. cbn [foldl]. by rewrite Ht. Qed.

(** Two held operations on one row, one of them a write, are the same. *)
Lemma exclusive_held s t1 t2 th1 th2 op1 op2 :
  inv s → s_ths s !! t1 = Some th1 → s_ths s !! t2 = Some th2 →
  op1 ∈ held_ops th1 → op2 ∈ held_ops th2 → op_mode op1 = WRITE → t_addr th2 op2 = t_addr th1 op1 →
  t1 = t2 ∧ op1 = op2.
Proof.
  intros Hi H1 H2 Ho1 Ho2 Hw Ha.
  destruct (op_row s t1 th1 op1 Hi H1) as (_ & _ & [r Hr] & _).
  { eapply held_sub; [|done]. by eapply (in_net _ _ _ _ Hi). }
  apply list_elem_of_lookup in Ho1 as [j1 Hj1]. apply list_elem_of_lookup in Ho2 as [j2 Hj2].
  destruct (exclusive _ _ _ t1 t2 th1 th2 j1 j2 op1 op2 r (in_rows _ _ _ _ Hi) H1 H2 Hj1 Hj2 Hw Ha Hr) as [-> ->].
  split; [done|]. congruence.
Qed.

Section commit_point.
Context (s : sysst) (t : nat) (th th' : thread) (futs : list nat).
Context (Hi : inv s) (Ht : s_ths s !! t = Some th) (Hph : th_ph th = Locking futs).
Context (Hlen : length futs = length (th_ops th)) (Hth' : th' = set_th th (th_x th) (Applying 0 futs [])).

Lemma cp_net : th_net th = [].
Proof. apply (net_nil s t th Hi Ht). by rewrite Hph. Qed.

Lemma cp_held : held_ops th = th_ops th.
Proof. rewrite held_nil by exact cp_net. unfold phase_held. rewrite Hph, Hlen. by apply firstn_all. Qed.

Lemma cp_same : same_txn th th'.
Proof. subst th'. by apply set_th_same. Qed.

(** The store after this transaction, at a row somebody else still holds, or
    that this one only reads. *)
Lemma cp_store u thu op :
  s_ths s !! u = Some thu → op ∈ held_ops thu → u ≠ t ∨ op_mode op = READ →
  serial_store S0 (s_ths s) (s_order s ++ [t]) (t_addr thu op) = serial_store S0 (s_ths s) (s_order s) (t_addr thu op).
Proof.
  intros Hu Hop Hc. rewrite (serial_store_snoc _ _ _ th) by done. apply write_all_other.
  intros o Ho Hw Ha. rewrite <-cp_held in Ho.
  destruct (exclusive_held s t u th thu o op Hi Ht Hu Ho Hop Hw) as [-> ->]; [by rewrite <-Ha|].
  destruct Hc; congruence.
Qed.

Lemma cp_write op :
  op ∈ th_ops th → op_mode op = WRITE →
  serial_store S0 (s_ths s) (s_order s ++ [t]) (t_addr th op) = op_value op.
Proof.
  intros Hop Hw. rewrite (serial_store_snoc _ _ _ th) by done.
  apply list_elem_of_lookup in Hop as [i Hi']. apply (write_all_at _ _ _ i); [done..|].
  intros j o Hj Ha. rewrite <-cp_held in Hi', Hj.
  destruct (op_row s t th op Hi Ht) as (_ & _ & [r Hr] & _).
  { rewrite <-cp_held. by eapply list_elem_of_lookup_2. }
  by destruct (exclusive _ _ _ t t th th i j op o r (in_rows _ _ _ _ Hi) Ht Ht Hi' Hj Hw Ha Hr).
Qed.

Lemma cp_not_ordered : t ∉ s_order s.
Proof.
  rewrite (vk_order _ _ _ _ _ (in_values _ _ _ _ Hi) t th Ht). unfold post. by rewrite Hph.
Qed.

Lemma cp_values : values_ok (s_w s) (<[t := th']> (s_ths s)) (s_order s ++ [t]).
Proof.
  pose proof (in_values _ _ _ _ Hi) as [Hrow Hwr Hrd Hord [Hnd Hall]].
  pose proof (λ o, serial_store_insert S0 _ t th th' o Ht cp_same) as Hser.
  assert (held_ops th' = th_ops th) as Hheld' by (subst th'; rewrite held_nil by exact cp_net; done).
  pose proof (moved_self _ t th th' Ht) as Hself. split.
  - intros b r Hr Hn. rewrite Hser, (serial_store_snoc _ _ _ th) by done. rewrite write_all_other.
    + apply Hrow; [done|]. intros (u & thu & op & Hu & Hp & Hop & Ha & Hw). apply Hn.
      assert (u ≠ t) by (intros ->; apply cp_not_ordered; apply (Hord t thu Hu); done).
      exists u, thu, op. by rewrite list_lookup_insert_ne.
    + intros op Hop Hw Ha. apply Hn. exists t, th', op. rewrite Hself, Hheld'.
      split_and!; try done; [by subst th'|]. by rewrite (same_addr _ _ _ cp_same).
  - intros u thu op Hu Hp Hop Hw. rewrite Hser.
    destruct (moved_cases _ t th th' Ht u thu Hu) as [[-> ->]|[Hne Hu']].
    + rewrite (same_addr _ _ _ cp_same). apply cp_write; [by rewrite <-Hheld'|done].
    + rewrite (cp_store u thu op) by auto. by apply (Hwr u thu op).
  - intros pre u post' thu Ho Hu.
    destruct (moved_cases _ t th th' Ht u thu Hu) as [[-> ->]|[Hne Hu']].
    + assert (pre = s_order s) as ->.
      { destruct post' as [|z post' _] using rev_ind; [by apply app_inj_tail in Ho as [-> _]|].
        rewrite app_comm_cons, app_assoc in Ho. apply app_inj_tail in Ho as [Ho _].
        destruct cp_not_ordered. rewrite Ho. apply elem_of_app. right. left. }
      split; [by subst th'|]. intros op Hop Hm. rewrite !Hser, (same_addr _ _ _ cp_same). symmetry.
      apply (cp_store t th); [done| |by right]. by rewrite cp_held, <-Hheld'.
    + destruct post' as [|z post' _] using rev_ind; [by apply app_inj_tail in Ho as [_ ->]|].
      rewrite app_comm_cons, app_assoc in Ho. apply app_inj_tail in Ho as [Ho _].
      destruct (Hrd pre u post' thu Ho Hu') as [Hr Hag]. split.
      * eapply reads_ok_ext; [|exact Hr]. intros a. by rewrite Hser.
      * intros op Hop Hm. rewrite !Hser, (cp_store u thu op) by auto. by apply Hag.
  - intros u thu Hu. rewrite elem_of_app, list_elem_of_singleton.
    destruct (moved_cases _ t th th' Ht u thu Hu) as [[-> ->]|[Hne Hu']]; [subst th'; naive_solver|].
    rewrite (Hord u thu Hu'). naive_solver.
  - split.
    + apply NoDup_app. split_and!; [done| |apply NoDup_singleton]. intros u Hu ->%list_elem_of_singleton.
      by apply cp_not_ordered.
    + apply Forall_app. split; [|by constructor; [rewrite Hself|]]. eapply Forall_impl; [exact Hall|].
      intros u Hu. apply lookup_lt_is_Some. rewrite length_insert. by apply lookup_lt_is_Some.
Qed.

Lemma inv_locked : inv (MkSysSt (s_w s) (<[t := th']> (s_ths s)) (s_order s ++ [t])).
Proof.
  apply (inv_calm s t th); try done; [apply cp_same|apply Hi| | |apply cp_values|apply cp_net|by subst th'; apply cp_net|by subst th'].
  - pose proof (in_phase _ _ _ _ Hi t th Ht) as Hp. unfold Serial.phase_ok in *. rewrite Hph, Hlen, firstn_all in Hp.
    destruct Hp as (_ & Hf & Hacts). subst th'. cbn [set_th th_ph th_ops th_x]. split_and!; [lia|done|].
    eapply acts_move; [apply set_th_same| | | | |exact Hacts]; try done.
    intros j _. unfold applied; cbn [set_th th_ph]. rewrite Hph. apply bool_decide_eq_false. lia.
  - eapply (rows_same kvs (s_w s)); eauto; [apply cp_same|apply Hi|rewrite cp_held; subst th'; by rewrite held_nil by exact cp_net].
Qed.
End commit_point.

(** ** The second loop *)

Lemma stamp_put stamp f v x :
  (f < length (x_futs x))%nat →
  stamp_fut stamp f (put_fut f v x) = put_fut f (match stamp with None => v | Some id => fut_set_last_acq id v end) x.
Proof.
  intros Hf. destruct stamp as [id|]; [|done]. unfold stamp_fut, put_fut, set_futs.
  cbn [x_futs x_tid x_node x_kvs mini_batch_num x_ts leftover_txns n_commits x_n_aborts n_dropped n_cold_fallbacks x_built x_log].
  rewrite (alter_const _ _ _ v) by (by apply list_lookup_insert_eq). by rewrite list_insert_insert_eq.
Qed.

(** The row a write loop leaves behind, and the value a read sees. *)
Definition apply_row (op : OP) (r : Row) : Row :=
  if is_local (loc_info op) && bool_decide (op_mode op = WRITE) then set_tuple (set_value (op_value op) (tuple r)) r else r.

Definition apply_res (op : OP) (r : Row) : option Z :=
  if bool_decide (op_mode op = WRITE) then None else Some (kv_value (tuple r)).

Lemma read_local w x k r :
  world_ok kvs workers w → exec_ok kvs workers w x → row_at kvs w (x_node x, k) = Some r →
  (∃ n t, kvs_of w x = Ok (n, t) ∧ aget (data t) k = Ok r
    ∧ ∀ r', aset (data t) k r' = Ok (<[k := r']> (data t)) ∧ put_kvs w x n (set_data (<[k := r']> (data t)) t) = set_row kvs w (x_node x, k) r').
Proof.
  intros Hw Hx Hrow. destruct (kvs_of_ok kvs workers w x Hw Hx) as (n & t & Hkvs & Hn & Ht & _).
  destruct (eo_kvs _ _ _ _ Hx) as [Hxk _]. apply row_at_inv in Hrow as (n' & t' & Hn' & Ht' & Hr). cbn [fst snd] in *.
  assert (n' = n) as -> by congruence. assert (t' = t) as -> by congruence.
  exists n, t. split_and!; [done|by apply aget_ok|]. intros r'. split.
  - apply aset_lt. by eapply lookup_lt_Some.
  - rewrite put_kvs_row by done. by rewrite Hxk.
Qed.

(** What one operation of the loop does. *)
Definition applies (w : world) (th : thread) (i : nat) (op : OP) (act : Action) (r : Row)
    (res : option (option Z)) (w' : world) (x' : TxnExecutor) : Prop :=
  res = Some (apply_res op r) ∧ w' = set_row kvs w (t_addr th op) (apply_row op r)
  ∧ ∃ fut', x' = put_fut (act_fut act) fut' (th_x th) ∧
    ∀ ph, applied (set_th th x' ph) i = true → hold_ok w' (set_th th x' ph) i op act.

Section apply_op.
Context (w : world) (th : thread) (i : nat) (op : OP) (r : Row) (res : option (option Z)) (w' : world) (x' : TxnExecutor).
Context (Hw : world_ok kvs workers w) (Hx : exec_ok kvs workers w (th_x th)) (Happ : applied th i = false).
Context (Hm : op_mode op ≠ INVALID) (Hst : ∀ id, th_stamp th = Some id → TxnId_ok id).
Context (Hr' : row_at kvs w (t_addr th op) = Some r).

Lemma apply_local m k f :
  hold_ok w th i op (ALocal m k f) → apply_op (th_stamp th) w (th_x th) op f = Ok (res, w', x') →
  applies w th i op (ALocal m k f) r res w' x'.
Proof.
  intros (r0 & Hr0 & Hh) Hap. rewrite Hr' in Hr0. injection Hr0 as <-. rewrite Happ in Hh. cbn [andb] in Hh.
  unfold apply_op in Hap. unfold applies. cbn [act_fut] in *.
  destruct Hh as (-> & -> & Hl & la & Hf & Hla & _). rewrite (proj2 (aget_ok _ _ _) Hf) in Hap.
  cbn [mbind outcome_bind future_get fut_tuple] in Hap. rewrite (put_fut_id _ _ _ Hf) in Hap.
  assert (t_addr th op = (x_node (th_x th), Z.to_nat (op_id op))) as Ha by (unfold t_addr, op_addr; by rewrite Hl).
  rewrite Ha in *. pose proof (lookup_lt_Some _ _ _ Hf) as Hlt.
  destruct (read_local w (th_x th) (Z.to_nat (op_id op)) r Hw Hx Hr') as (n & tb & Hkvs & Hget & Hset).
  destruct (Hset (set_tuple (set_value (op_value op) (tuple r)) r)) as [Hs1 Hs2].
  unfold apply_res, apply_row. rewrite Hl. cbn [andb]. set (la' := match th_stamp th with Some id => id | None => la end).
  assert (TxnId_ok la') as Hla' by (unfold la'; destruct (th_stamp th); [by apply Hst|done]).
  assert (stamp_fut (th_stamp th) f (th_x th) = put_fut f (MkFuture None (PLocal (Z.to_nat (op_id op))) la') (th_x th)) as Hsx.
  { rewrite <-(put_fut_id _ _ _ Hf) at 1. rewrite stamp_put by done. unfold la'. by destruct (th_stamp th). }
  assert (x_futs (put_fut f (MkFuture None (PLocal (Z.to_nat (op_id op))) la') (th_x th)) !! f
    = Some (MkFuture None (PLocal (Z.to_nat (op_id op))) la')) as Hf' by by apply list_lookup_insert_eq.
  destruct (op_mode op) eqn:Em; [done| |].
  - unfold read_through in Hap. rewrite Hkvs in Hap. cbn [mbind outcome_bind] in Hap. rewrite Hget in Hap.
    cbn [mbind outcome_bind] in Hap. rewrite Hsx in Hap. injection Hap as <- <- <-. rewrite bool_decide_false by done.
    rewrite set_row_id by done. split_and!; [done..|]. eexists. split; [done|]. intros ph Hap'.
    exists r. split; [change (t_addr (set_th th _ ph) op) with (t_addr th op); by rewrite Ha|]. rewrite Hap', Em. cbv zeta. split_and!; try done. by exists la'.
  - unfold write_through in Hap. rewrite Hkvs in Hap. cbn [mbind outcome_bind] in Hap. rewrite Hget in Hap.
    cbn [mbind outcome_bind] in Hap. rewrite Hs1 in Hap. cbn [mbind outcome_bind] in Hap. rewrite Hs2, Hsx in Hap.
    injection Hap as <- <- <-. rewrite bool_decide_true by done. split_and!; [done..|]. eexists. split; [done|].
    intros ph Hap'. eexists. split.
    + change (t_addr (set_th th _ ph) op) with (t_addr th op). rewrite Ha. rewrite row_at_set_row by (by eexists). by rewrite decide_True.
    + rewrite Hap', Em. cbv zeta. split_and!; try done. exists la'. split_and!; done.
Qed.

Lemma apply_remote m f tgt :
  hold_ok w th i op (ARemote m f tgt) → apply_op (th_stamp th) w (th_x th) op f = Ok (res, w', x') →
  applies w th i op (ARemote m f tgt) r res w' x'.
Proof.
  intros (r0 & Hr0 & Hh) Hap. rewrite Hr' in Hr0. injection Hr0 as <-. rewrite Happ in Hh. cbn [andb] in Hh.
  unfold apply_op in Hap. unfold applies. cbn [act_fut] in *.
  destruct Hh as (-> & -> & Hl & pkt & la & Hf & Hla & H1 & H2 & H3 & H4). rewrite (proj2 (aget_ok _ _ _) Hf) in Hap.
  cbn [mbind outcome_bind future_get fut_tuple] in Hap. rewrite (put_fut_id _ _ _ Hf) in Hap.
  pose proof (lookup_lt_Some _ _ _ Hf) as Hlt. unfold apply_res, apply_row. rewrite Hl. cbn [andb].
  rewrite set_row_id by done. set (la' := match th_stamp th with Some id => id | None => la end).
  assert (TxnId_ok la') as Hla' by (unfold la'; destruct (th_stamp th); [by apply Hst|done]).
  assert (∀ pk, stamp_fut (th_stamp th) f (put_fut f (MkFuture (Some pk) PPacket la) (th_x th))
    = put_fut f (MkFuture (Some pk) PPacket la') (th_x th)) as Hsx.
  { intros pk. rewrite stamp_put by done. unfold la'. by destruct (th_stamp th). }
  assert (∀ pk, x_futs (put_fut f (MkFuture (Some pk) PPacket la') (th_x th)) !! f
    = Some (MkFuture (Some pk) PPacket la')) as Hf' by (intros pk; by apply list_lookup_insert_eq).
  destruct (op_mode op) eqn:Em; [done| |].
  - unfold read_through in Hap. cbn [fut_pkt mbind outcome_bind] in Hap.
    assert (stamp_fut (th_stamp th) f (th_x th) = put_fut f (MkFuture (Some pkt) PPacket la') (th_x th)) as Hsx'
      by (rewrite <-(put_fut_id _ _ _ Hf) at 1; apply Hsx).
    rewrite Hsx' in Hap.
    injection Hap as <- <- <-. rewrite bool_decide_false by done.
    split_and!; [by rewrite H4|done|]. eexists. split; [done|]. intros ph Hap'.
    exists r. split; [done|]. rewrite Hap', Em. cbv zeta. split_and!; try done. exists pkt, la'. split_and!; [apply Hf'|done..].
  - unfold write_through in Hap. cbn [fut_pkt fut_tuple fut_last_acq mbind outcome_bind] in Hap. rewrite Hsx in Hap.
    injection Hap as <- <- <-. rewrite bool_decide_true by done. split_and!; [done..|]. eexists. split; [done|].
    intros ph Hap'. exists r. split; [done|]. rewrite Hap', Em. cbv zeta. split_and!; try done.
    do 2 eexists. split_and!; [apply Hf'|done..].
Qed.

Lemma apply_inv act :
  hold_ok w th i op act → apply_op (th_stamp th) w (th_x th) op (act_fut act) = Ok (res, w', x') →
  applies w th i op act r res w' x'.
Proof. destruct act; [apply apply_local|apply apply_remote]. Qed.
End apply_op.

Lemma read_vals_snoc node S ops op :
  read_vals node S (ops ++ [op])
  = read_vals node S ops ++ (if bool_decide (op_mode op = READ) then [S (op_addr node op)] else []).
Proof. unfold read_vals. rewrite omap_app. f_equal. cbn [omap list_omap]. by case_bool_decide. Qed.

Section apply_step.
Context (s : sysst) (t : nat) (th : thread) (i : nat) (futs : list nat) (reads : list Z) (op : OP) (f : nat).
Context (res : option (option Z)) (w' : world) (x' : TxnExecutor).
Context (Hi : inv s) (Ht : s_ths s !! t = Some th) (Hph : th_ph th = Applying i futs reads).
Context (Hop : th_ops th !! i = Some op) (Hf : futs !! i = Some f).
Context (Hap : apply_op (th_stamp th) (s_w s) (th_x th) op f = Ok (res, w', x')).

Lemma ap_net : th_net th = [].
Proof. apply (net_nil s t th Hi Ht). by rewrite Hph. Qed.

Lemma ap_held : held_ops th = th_ops th.
Proof. rewrite held_nil by exact ap_net. unfold phase_held. by rewrite Hph. Qed.

Lemma ap_elem : op ∈ held_ops th.
Proof. rewrite ap_held. by eapply list_elem_of_lookup_2. Qed.

Lemma ap_phase : (i ≤ length (th_ops th))%nat ∧ futs = act_fut <$> x_log (th_x th)
  ∧ acts_ok (s_w s) th (th_ops th) (x_log (th_x th)).
Proof. pose proof (in_phase _ _ _ _ Hi t th Ht) as Hp. unfold Serial.phase_ok in Hp. by rewrite Hph in Hp. Qed.

Lemma ap_applies : ∃ act r, x_log (th_x th) !! i = Some act ∧ act_fut act = f
  ∧ row_at kvs (s_w s) (t_addr th op) = Some r ∧ applies (s_w s) th i op act r res w' x'.
Proof.
  destruct ap_phase as (Hle & Hfuts & Hacts). rewrite Hfuts, list_lookup_fmap in Hf.
  destruct (x_log (th_x th) !! i) as [act|] eqn:Eact; [|done]. injection Hf as <-.
  destruct (op_row s t th op Hi Ht) as (Hm & Hk & [r Hr] & Hne); [by eapply list_elem_of_lookup_2|].
  destruct (in_static _ _ _ _ Hi t th Ht) as [Hx _ _ Hst _]. exists act, r. split_and!; try done.
  eapply apply_inv; eauto; [apply Hi|unfold applied; rewrite Hph; apply bool_decide_eq_false; lia|].
  by eapply (ac_hold _ _ _ _ _ Hacts).
Qed.

(** No other held operation sees the row a write changes. *)
Lemma ap_frame u thu j o :
  s_ths s !! u = Some thu → held_ops thu !! j = Some o → u ≠ t ∨ j ≠ i →
  tuple <$> row_at kvs w' (t_addr thu o) = tuple <$> row_at kvs (s_w s) (t_addr thu o).
Proof.
  intros Hu Ho Hne. destruct ap_applies as (act & r & _ & _ & Hr & _ & -> & _).
  rewrite row_at_set_row by (by eexists). case_decide as Ha; [|done]. rewrite Ha, Hr. unfold apply_row.
  destruct (is_local (loc_info op)); [|done]. case_bool_decide as Hw; [|done].
  assert (held_ops th !! i = Some op) as Hhi by by rewrite ap_held.
  destruct (exclusive _ _ _ t u th thu i j op o r (in_rows _ _ _ _ Hi) Ht Hu Hhi Ho Hw Ha Hr) as [-> ->].
  by destruct Hne.
Qed.

Lemma ap_row b r' : row_at kvs w' b = Some r' →
  ∃ r, row_at kvs (s_w s) b = Some r ∧ lock_type r' = lock_type r ∧ owner_cnt r' = owner_cnt r
    ∧ (op_mode op ≠ WRITE ∨ b ≠ t_addr th op → r' = r).
Proof.
  destruct ap_applies as (act & r & _ & _ & Hr & _ & -> & _). rewrite row_at_set_row by (by eexists).
  case_decide as Hb; [subst b; intros [= <-]|intros Hr'; by exists r'].
  exists r. unfold apply_row. destruct (is_local (loc_info op)); [|done]. case_bool_decide; [|done].
  cbn [andb]. split_and!; try done. by intros [?|?].
Qed.

Lemma ap_null : res ≠ None.
Proof. by destruct ap_applies as (? & ? & _ & _ & _ & -> & _). Qed.

Context (v : option Z) (Hres : res = Some v).
Let th' := set_th th x' (Applying (S i) futs (match v with Some z => reads ++ [z] | None => reads end)).

Lemma ap_same : same_txn th th'.
Proof. destruct ap_applies as (? & ? & _ & _ & _ & _ & _ & fut' & -> & _). by apply set_th_same. Qed.

Lemma ap_phase' : phase_ok w' th'.
Proof.
  destruct ap_phase as (Hle & Hfuts & [H1 H2 H3 H4]).
  destruct ap_applies as (act & r & Hact & Haf & Hr & _ & Hw' & fut' & Hx' & Hh).
  pose proof (lookup_lt_Some _ _ _ Hop) as Hlt.
  assert (x_log x' = x_log (th_x th)) as Hlog by by rewrite Hx'.
  unfold Serial.phase_ok, th'; cbn [set_th th_ph th_ops th_x]. rewrite Hlog. split_and!; [lia|done|].
  split; try done; cbn [set_th th_x].
  - intros j o a Ho Ha. destruct (decide (j = i)) as [->|Hj].
    + assert (o = op) as -> by congruence. assert (a = act) as -> by congruence. apply Hh.
      unfold applied; cbn [set_th th_ph]. apply bool_decide_eq_true. lia.
    + eapply hold_move; [by apply ap_same| | | |by eapply H2].
      * rewrite Hx'. cbn [set_th th_x]. unfold put_fut. cbn [set_futs x_futs]. apply list_lookup_insert_ne.
        intros He. apply Hj. symmetry. eapply NoDup_lookup; [exact H3| |]; rewrite list_lookup_fmap, ?Hact, ?Ha; [done|].
        simpl. by rewrite He.
      * unfold applied; cbn [set_th th_ph]. rewrite Hph. apply bool_decide_ext. lia.
      * apply (ap_frame t th j); [done|by rewrite ap_held|by right].
  - rewrite Hx'. unfold put_fut. cbn [set_futs x_futs]. by rewrite length_insert.
Qed.

Lemma ap_values : values_ok w' (<[t := th']> (s_ths s)) (s_order s).
Proof.
  assert (post th' = true ∧ post th = true ∧ held_ops th' = held_ops th) as (Hp' & Hp & Hheld).
  { unfold post, th' at 1; cbn [set_th th_ph]. rewrite Hph, ap_held. split_and!; try done. by rewrite held_nil by exact ap_net. }
  apply (values_step kvs S0 (s_w s) w' _ t th th' Ht ap_same); [apply Hi|congruence|by rewrite Hheld| |].
  - intros b r' Hr' Hn. destruct (ap_row b r' Hr') as (r & Hr & _ & _ & Heq).
    assert (¬ post_writer (s_ths s) b) as Hn0.
    { intros Hpw. apply Hn. apply (post_writer_keep _ t th th' Ht ap_same); [congruence|by rewrite Hheld|done]. }
    rewrite Heq; [by apply (vk_row _ _ _ _ _ (in_values _ _ _ _ Hi))|].
    destruct (decide (op_mode op = WRITE)) as [Hw|]; [right|by left]. intros ->. apply Hn0.
    exists t, th, op. split_and!; try done. apply ap_elem.
  - intros S Hag Hro. unfold reads_ok in *. rewrite Hph in Hro. unfold th'; cbn [set_th th_ph th_x th_ops].
    rewrite (sm_node _ _ ap_same : x_node x' = _), (take_S_r _ _ op Hop), read_vals_snoc, <-Hro.
    destruct ap_applies as (act & r & _ & _ & Hr & Hres' & _). rewrite Hres in Hres'. injection Hres' as ->.
    destruct (op_row s t th op Hi Ht) as (Hm & _); [by eapply list_elem_of_lookup_2|].
    unfold apply_res. destruct (op_mode op) eqn:Em; [done| |]; [|by rewrite app_nil_r].
    rewrite bool_decide_false, bool_decide_true by done. do 2 f_equal. fold (t_addr th op).
    rewrite Hag by (done || apply ap_elem). apply (vk_row _ _ _ _ _ (in_values _ _ _ _ Hi)); [done|].
    intros (u & thu & o & Hu & _ & Ho & Ha & Hw).
    destruct (exclusive_held s u t thu th o op Hi Hu Ht Ho ap_elem Hw) as [_ ->]; [by rewrite Ha|congruence].
Qed.

Lemma inv_apply : inv (MkSysSt w' (<[t := th']> (s_ths s)) (s_order s)).
Proof.
  destruct ap_applies as (act & r & _ & _ & Hr & _ & Hw' & _).
  apply (inv_calm s t th); try done; [apply ap_same| | | | |apply ap_phase'| |apply ap_values|apply ap_net|apply ap_net|].
  - rewrite Hw'. apply set_row_ok; [apply Hi|]. unfold apply_row.
    pose proof (row_last_ok kvs workers _ _ _ (in_world _ _ _ _ Hi) Hr). by destruct (is_local _ && _).
  - rewrite Hw'. apply length_set_row.
  - intros b Hb. rewrite Hw', row_at_set_row by (by eexists). case_decide; [by eexists|done].
  - intros u thu o Hne Hu Ho. apply list_elem_of_lookup in Ho as [j Hj]. apply (ap_frame u thu j); auto.
  - eapply (rows_same kvs (s_w s)); eauto; [apply ap_same|apply Hi|by rewrite ap_held, held_nil by exact ap_net|].
    intros b r' Hr'. destruct (ap_row b r' Hr') as (r0 & ? & ? & ? & _). eauto.
  - rewrite Hw'. apply putres_set_row.
Qed.
End apply_step.

(** ** Releasing *)

Lemma reserve_inv stamp ref w x w' :
  world_ok kvs workers w → reserve stamp ref w x = Ok w' →
  world_ok kvs workers w' ∧ length w' = length w ∧ n_putres <$> w' = n_putres <$> w ∧ ∀ b, row_at kvs w' b = row_at kvs w b.
Proof.
  intros Hw Hre. destruct stamp; cbn [reserve] in Hre; [|by injection Hre as <-].
  minv. destruct r0 as [buf q']. minv. split_and!; [|apply length_insert| |].
  - destruct Hw as [Hl Hn]. split; [by rewrite length_insert|]. intros i n Hi'.
    apply list_lookup_insert_Some in Hi' as [(<- & <- & _)|(_ & Hi')]; [|by apply Hn]. by destruct (Hn _ _ E).
  - rewrite list_fmap_insert. apply list_insert_id. by rewrite list_lookup_fmap, E.
  - intros b. unfold row_at. destruct (decide (b.1 = x_node x)) as [Hb|Hb].
    + rewrite Hb, list_lookup_insert_eq by (by eapply lookup_lt_Some). by rewrite E.
    + by rewrite list_lookup_insert_ne.
Qed.

Lemma inv_applied s t th futs reads ref w' :
  inv s → s_ths s !! t = Some th → th_ph th = Applying (length (th_ops th)) futs reads →
  reserve (th_stamp th) ref (s_w s) (th_x th) = Ok w' →
  inv (MkSysSt w' (<[t := set_th th (th_x th) (Releasing (th_ops th) (x_log (th_x th)) COMMIT reads)]> (s_ths s)) (s_order s)).
Proof.
  intros Hi Ht Hph Hre. destruct (reserve_inv _ _ _ _ _ (in_world _ _ _ _ Hi) Hre) as (Hw' & Hlen & Hput & Hrow).
  set (th' := set_th th (th_x th) _). assert (same_txn th th') as Hsame by by apply set_th_same.
  pose proof (ap_net s t th _ _ _ Hi Ht Hph) as Hn. assert (th_net th' = []) as Hn' by done.
  pose proof (in_phase _ _ _ _ Hi t th Ht) as Hp. unfold Serial.phase_ok in Hp. rewrite Hph in Hp. destruct Hp as (_ & _ & Hacts).
  assert (held_ops th' = held_ops th ∧ post th' = post th) as [Hheld Hpost]
    by (rewrite !held_nil by done; unfold phase_held, post; by rewrite Hph).
  apply (inv_calm s t th); try done.
  - intros b. by rewrite Hrow.
  - intros. by rewrite Hrow.
  - exists (x_log (th_x th)), []. split_and!; [by rewrite app_nil_r| |by left].
    eapply acts_move; [exact Hsame|done|done| | |exact Hacts].
    + intros j Hj. unfold applied, th'; cbn [set_th th_ph]. rewrite Hph. by rewrite (bool_decide_true (j < _)%nat).
    + intros. by rewrite Hrow.
  - eapply (rows_same kvs (s_w s)); eauto; [apply Hi|by rewrite Hheld|]. intros b r. rewrite Hrow. by exists r.
  - apply (values_step kvs S0 (s_w s) w' _ t th th' Ht Hsame); [apply Hi|done|by rewrite Hheld| |].
    + intros b r. rewrite Hrow. intros Hr Hn0. apply (vk_row _ _ _ _ _ (in_values _ _ _ _ Hi)); [done|].
      intros Hpw. apply Hn0. apply (post_writer_keep _ t th th' Ht Hsame); [done|by rewrite Hheld|done].
    + intros S _ Hro. unfold reads_ok in *. rewrite Hph, firstn_all in Hro. done.
Qed.

(** What freeing the lock of [op] does to its row; [wrote]: the transaction
    committed and [op] is a write. *)
Record released (wrote : bool) (op : OP) (r r' : Row) : Prop := {
  rl_wf : row_wf r';
  rl_cnt : owner_cnt r' = owner_cnt r - 1;
  rl_mode : owner_cnt r' ≠ 0 → lock_type r' = op_mode op;
  rl_last : TxnId_ok (last_acq r');
  rl_keep : wrote = false → tuple r' = tuple r;
  rl_write : wrote = true → kv_value (tuple r') = op_value op;
}.

Lemma unlock_released wrote op r la :
  row_wf r → lock_type r = op_mode op → op_mode op ≠ INVALID → TxnId_ok la →
  (wrote = true → kv_value (tuple r) = op_value op) →
  ∃ r', local_unlock r (op_mode op) la = (SUCCESS, r') ∧ released wrote op r r'.
Proof.
  intros Hwf Hlt Hm Hla Hwr.
  destruct (local_unlock_wf r (op_mode op) la Hwf Hm Hlt) as (r' & Hun & Hwf' & _ & Hc & Hlast & Htup & Hmode).
  exists r'. split; [done|]. split; try done; [congruence|]. intros Ha. rewrite Htup. auto.
Qed.

Lemma put_released wrote op r kv la :
  row_wf r → lock_type r = op_mode op → op_mode op ≠ INVALID → TxnId_ok la → (wrote = true → op_mode op = WRITE) →
  (if wrote then kv_value kv = op_value op else kv = tuple r) → released wrote op r (put_row r (op_mode op) kv la).
Proof.
  intros Hwf Hlt Hm Hla Hw Hv. unfold put_row.
  set (r1 := if bool_decide (op_mode op = WRITE) then set_tuple kv r else r).
  destruct (unlock_released wrote op r1 la) as (r' & -> & [H1 H2 H3 H4 H5 H6]); try done.
  - unfold r1; by case_bool_decide.
  - unfold r1; by case_bool_decide.
  - intros ->. unfold r1. by rewrite bool_decide_true by auto.
  - cbn [snd]. assert (owner_cnt r1 = owner_cnt r) as Hc by (unfold r1; by case_bool_decide).
    split; try done; [congruence|]. intros ->. rewrite H5 by done. unfold r1. case_bool_decide; [|done]. by subst kv.
Qed.

(** The freed lock of a writer was the only one on its row. *)
Lemma exclusive_twice w ths t th op l o r :
  rows_ok w ths → ths !! t = Some th → held_ops th ≡ₚ op :: l → o ∈ l → op_mode op = WRITE →
  t_addr th o = t_addr th op → row_at kvs w (t_addr th op) = Some r → False.
Proof.
  intros [Hwf Hm] Ht Hp Ho Hw Ha Hr. destruct (Hwf _ _ Hr) as [(_ & _ & Hx) Hc].
  assert (op ∈ held_ops th) as Hin by (rewrite Hp; by left).
  rewrite (Hm _ _ t th op Hr Ht Hin eq_refl) in Hx. specialize (Hx Hw).
  pose proof (hcount_ge (t_addr th op) ths t th Ht) as Hge. unfold t_count in Hge. rewrite Hp, filter_cons, decide_True in Hge by done.
  assert (o ∈ filter (λ op0, t_addr th op0 = t_addr th op) l) as Hf by (by apply list_elem_of_filter).
  destruct (filter _ l); [by apply not_elem_of_nil in Hf|]. simpl in Hge. lia.
Qed.

(** One lock of a thread is freed, by the worker or by the owner of the row. *)
Section free_step.
Context (s : sysst) (t : nat) (th th' : thread) (op : OP) (r r' : Row) (w' : world).
Context (Hi : inv s) (Ht : s_ths s !! t = Some th) (Hsame : same_txn th th').
Context (Hheld : held_ops th ≡ₚ op :: held_ops th') (Hpost : post th' = post th).
Context (Hreads : ∀ S, reads_ok S th → reads_ok S th').
Context (Hr : row_at kvs (s_w s) (t_addr th op) = Some r).
Context (Hrow : ∀ b, row_at kvs w' b = if decide (b = t_addr th op) then Some r' else row_at kvs (s_w s) b).
Context (Hrel : released (post th && bool_decide (op_mode op = WRITE)) op r r').

Lemma fr_in : op ∈ held_ops th.
Proof. rewrite Hheld. by left. Qed.

Lemma fr_sub o : o ∈ held_ops th' → o ∈ held_ops th.
Proof. rewrite Hheld. by right. Qed.

(** Who still holds the row saw no change of its tuple. *)
Lemma fr_frame u thu o :
  s_ths s !! u = Some thu → (u ≠ t ∧ o ∈ held_ops thu) ∨ (u = t ∧ o ∈ held_ops th') →
  tuple <$> row_at kvs w' (t_addr thu o) = tuple <$> row_at kvs (s_w s) (t_addr thu o).
Proof.
  intros Hu Ho. rewrite Hrow. destruct (decide (t_addr thu o = t_addr th op)) as [Ha|Ha]; [|done].
  rewrite Ha, Hr. cbn. f_equal. apply Hrel.
  apply andb_false_iff. right. apply bool_decide_eq_false. intros Hw. destruct Ho as [[Hne Ho]|[-> Ho]].
  - destruct (exclusive_held s t u th thu op o Hi Ht Hu fr_in Ho Hw Ha) as [-> _]. done.
  - rewrite Ht in Hu. injection Hu as <-. exact (exclusive_twice (s_w s) _ t th op _ o r (in_rows _ _ _ _ Hi) Ht Hheld Ho Hw Ha Hr).
Qed.

Lemma fr_rows : rows_ok w' (<[t := th']> (s_ths s)).
Proof.
  assert (∀ b, t_count b th = (t_count b th' + if decide (t_addr th op = b) then 1 else 0)%nat) as Hc.
  { intros b. rewrite (t_count_same th th' b Hsame). unfold t_count. rewrite Hheld, filter_cons.
    destruct (decide (t_addr th op = b)); simpl; lia. }
  pose proof (in_rows _ _ _ _ Hi) as Hrows. destruct (rk_wf _ _ _ Hrows _ _ Hr) as [_ Hcr].
  eapply (rows_step kvs (s_w s) w' _ t th th' Ht Hsame (t_addr th op) r r'); try done.
  - apply Hrel.
  - rewrite Hc, decide_True, (rl_cnt _ _ _ _ Hrel) by done. lia.
  - intros b Hb. rewrite (Hc b), decide_False by done. lia.
  - intros o Ho _. by apply fr_sub.
  - intros u thu o Hu Ho Ha.
    assert (1 ≤ owner_cnt r') as Hpos.
    { rewrite (rl_cnt _ _ _ _ Hrel), Hcr. pose proof (hcount_insert (t_addr th op) _ t th th' Ht) as Hins.
      rewrite (Hc (t_addr th op)), decide_True in Hins by done. pose proof (hcount_ge (t_addr th op) _ u thu Hu).
      pose proof (t_count_pos thu o Ho) as Hp. rewrite Ha in Hp. lia. }
    rewrite (rl_mode _ _ _ _ Hrel) by lia.
    assert (lock_type r = op_mode op) as <- by (eapply (rk_mode _ _ _ Hrows _ _ t th op Hr Ht); [apply fr_in|done]).
    destruct (moved_cases _ t th th' Ht u thu Hu) as [[-> ->]|[_ Hu']]; [|by eapply (rk_mode _ _ _ Hrows)].
    rewrite (same_addr _ _ _ Hsame) in Ha.
    eapply (rk_mode _ _ _ Hrows _ _ t th o Hr Ht); [|done]. by apply fr_sub.
Qed.

(** The value the release leaves is the serial one. *)
Lemma fr_value : ¬ post_writer (<[t := th']> (s_ths s)) (t_addr th op) →
  kv_value (tuple r') = serial_store S0 (s_ths s) (s_order s) (t_addr th op).
Proof.
  intros Hn. pose proof (in_values _ _ _ _ Hi) as Hv. pose proof fr_in as Hop.
  destruct (post th && bool_decide (op_mode op = WRITE)) eqn:Eb.
  - rewrite (rl_write _ _ _ _ Hrel) by done. apply andb_prop in Eb as [Hpt Hw%bool_decide_eq_true].
    symmetry. by eapply (vk_write _ _ _ _ _ Hv).
  - rewrite (rl_keep _ _ _ _ Hrel) by done. apply (vk_row _ _ _ _ _ Hv); [done|].
    intros (u & thu & o & Hu & Hpu & Ho & Ha & Hw). destruct (decide (u = t)) as [->|Hne].
    + destruct (exclusive_held s t t thu th o op Hi Hu Ht Ho Hop Hw) as [_ ->]; [done|].
      rewrite Ht in Hu. injection Hu as <-. by rewrite Hpu, bool_decide_true in Eb by done.
    + apply Hn. exists u, thu, o. by rewrite list_lookup_insert_ne.
Qed.

Lemma fr_values : values_ok w' (<[t := th']> (s_ths s)) (s_order s).
Proof.
  apply (values_step kvs S0 (s_w s) w' _ t th th' Ht Hsame); [apply Hi|done| | |].
  - intros _ o. apply fr_sub.
  - intros b rb. rewrite Hrow. destruct (decide (b = t_addr th op)) as [Hb|Hb]; [subst b; intros [= <-]; apply fr_value|].
    intros Hrb Hn. apply (vk_row _ _ _ _ _ (in_values _ _ _ _ Hi)); [done|].
    intros (u & thu & o & Hu & Hpu & Ho & Ha & Hw). apply Hn. destruct (decide (u = t)) as [->|Hne].
    + rewrite Ht in Hu. injection Hu as <-. rewrite Hheld in Ho. apply elem_of_cons in Ho as [->|Ho]; [done|].
      exists t, th', o. rewrite (moved_self _ t th th' Ht), Hpost. split_and!; try done. by rewrite (same_addr _ _ _ Hsame).
    + exists u, thu, o. by rewrite list_lookup_insert_ne.
  - intros S _. apply Hreads.
Qed.

Lemma inv_freed :
  world_ok kvs workers w' → length w' = length (s_w s) → phase_ok w' th' → net_ok w' th' →
  n_putres <$> w' = n_putres <$> s_w s → length (th_net th') = length (th_net th) →
  inv (MkSysSt w' (<[t := th']> (s_ths s)) (s_order s)).
Proof.
  intros Hw' Hlen Hph' Hnet' Hput Hnl.
  apply (inv_step s t th w' th' _ Hi Ht Hsame); try done; [| |apply fr_rows|apply fr_values|].
  - intros b Hb. rewrite Hrow. destruct (decide _); [by eexists|done].
  - intros u thu o Hne Hu Ho. apply (fr_frame u); auto.
  - eapply (counts_same (s_w s)); eauto. apply Hi.
Qed.
End free_step.

(** A step that leaves all rows and all locks as they are. *)
Lemma inv_still s t th w' th' :
  inv s → s_ths s !! t = Some th → same_txn th th' → world_ok kvs workers w' → length w' = length (s_w s) →
  (∀ b, row_at kvs w' b = row_at kvs (s_w s) b) → held_ops th' ≡ₚ held_ops th → post th' = post th →
  (∀ S, reads_ok S th → reads_ok S th') → phase_ok w' th' → net_ok w' th' → counts_ok w' (<[t := th']> (s_ths s)) →
  inv (MkSysSt w' (<[t := th']> (s_ths s)) (s_order s)).
Proof.
  intros Hi Ht Hsame Hw' Hlen Hrow Hheld Hpost Hreads Hph' Hnet' Hcnt'.
  apply (inv_step s t th w' th' _ Hi Ht Hsame); try done.
  - intros b. by rewrite Hrow.
  - intros. by rewrite Hrow.
  - eapply (rows_same kvs (s_w s)); eauto; [apply Hi|]. intros b r. rewrite Hrow. by exists r.
  - apply (values_step kvs S0 (s_w s) w' _ t th th' Ht Hsame); [apply Hi|done|by intros _ o; rewrite Hheld| |].
    + intros b r. rewrite Hrow. intros Hr Hn. apply (vk_row _ _ _ _ _ (in_values _ _ _ _ Hi)); [done|]. intros Hpw. apply Hn.
      apply (post_writer_keep _ t th th' Ht Hsame); [done|by intros _ o; rewrite Hheld|done].
    + intros S _. apply Hreads.
Qed.

(** ** Releasing one entry *)

Lemma msg_move w th th' e : same_txn th th' → post th' = post th → msg_ok kvs w th e → msg_ok kvs w th' e.
Proof.
  intros Hs Hp. unfold msg_ok. rewrite Hp, (sm_node _ _ Hs), (sm_tid _ _ Hs), (same_addr _ _ _ Hs). done.
Qed.

(** What the invariant says of the entry about to be cleared. *)
Section release.
Context (s : sysst) (t : nat) (th : thread) (held : list OP) (a : Action) (rest : list Action) (rc : RC) (reads : list Z).
Context (Hi : inv s) (Ht : s_ths s !! t = Some th) (Hph : th_ph th = Releasing held (a :: rest) rc reads).

Lemma re_cases :
  (∃ op held', held = op :: held' ∧ hold_ok (s_w s) th 0 op a ∧ op ∈ held_ops th
     ∧ ∀ w' th', same_txn th th' → x_futs (th_x th') = x_futs (th_x th) → th_ph th' = Releasing held' rest rc reads →
         (∀ o, o ∈ held' → tuple <$> row_at kvs w' (t_addr th o) = tuple <$> row_at kvs (s_w s) (t_addr th o)) →
         phase_ok w' th')
  ∨ ∃ m f tgt p la, a = ARemote m f tgt ∧ rest = [] ∧ held = [] ∧ x_futs (th_x th) !! f = Some (MkFuture p PException la).
Proof.
  pose proof (in_phase _ _ _ _ Hi t th Ht) as Hp. unfold Serial.phase_ok in Hp. rewrite Hph in Hp.
  destruct Hp as (acts & tl & Heq & Hacts & Htl). pose proof (ac_len _ _ _ _ _ Hacts) as Hlen. destruct acts as [|act acts].
  - right. simpl in Heq. subst tl. destruct Htl as [|(m & f & tgt & p & la & [= -> ->] & Hf)]; [done|].
    destruct held; [|done]. eauto 10.
  - left. destruct held as [|op held']; [done|]. simpl in Heq. injection Heq as -> Hrest. exists op, held'. split; [done|].
    split; [by apply (ac_hold _ _ _ _ _ Hacts 0%nat)|]. split; [unfold held_ops, phase_held; rewrite Hph; by left|].
    intros w' th' Hs Hfu Hph' Hfr. unfold Serial.phase_ok. rewrite Hph'. exists acts, tl. split_and!; [done| |by rewrite Hfu].
    eapply (acts_move (s_w s)); [exact Hs|by rewrite Hfu|by rewrite Hfu| |exact Hfr|].
    + intros j _. unfold applied. by rewrite Hph, Hph'.
    + eapply acts_tail; [|exact Hacts]. intros i j. unfold applied. by rewrite Hph.
Qed.

Lemma re_post : applied th 0 = post th.
Proof. unfold applied, post. by rewrite Hph. Qed.

(** The row of a held operation. *)
Lemma re_row op : op ∈ held_ops th → ∃ r, row_at kvs (s_w s) (t_addr th op) = Some r ∧ row_wf r ∧ lock_type r = op_mode op
  ∧ op_mode op ≠ INVALID ∧ 0 ≤ op_id op ∧ (is_local (loc_info op) = false → (t_addr th op).1 ≠ x_node (th_x th)).
Proof.
  intros Hop. destruct (op_row s t th op Hi Ht) as (Hm & Hk & [r Hr] & Hne).
  { eapply held_sub; [|exact Hop]. by eapply (in_net _ _ _ _ Hi). }
  destruct (in_rows _ _ _ _ Hi) as [Hwf Hmode]. exists r. split_and!; try done; [by eapply Hwf|by eapply Hmode].
Qed.

Lemma re_count : put_count (s_w s) (x_node (th_x th)) (Z.to_nat (x_tid (th_x th))) = Some (Z.of_nat (length (th_net th)))
  ∧ Z.of_nat (length (th_net th)) + 1 < 2 ^ 32.
Proof.
  split; [by apply (in_counts _ _ _ _ Hi t th Ht)|]. pose proof (in_few _ _ _ _ Hi) as Hf. unfold few_ops in Hf.
  pose proof (net_len _ _ _ (in_net _ _ _ _ Hi t th Ht)) as Hl.
  enough (length (th_ops th) ≤ length (concat (th_ops <$> s_ths s)))%nat by lia.
  clear -Ht. revert t Ht. induction (s_ths s) as [|th0 l IH]; intros [|t] Ht; simplify_eq/=; rewrite length_app; [lia|].
  specialize (IH t Ht). lia.
Qed.
End release.

(** The messages of a thread whose locks shrink by one. *)
Lemma net_shrink s t th th' w' held held' rest rest' rc reads op :
  inv s → s_ths s !! t = Some th → same_txn th th' → th_ph th = Releasing held rest rc reads →
  th_ph th' = Releasing held' rest' rc reads → held = op :: held' ∨ held = held' → th_net th' = th_net th →
  (∀ o, o ∈ net_held (th_net th) → tuple <$> row_at kvs w' (t_addr th o) = tuple <$> row_at kvs (s_w s) (t_addr th o)) →
  net_ok w' th'.
Proof.
  intros Hi Ht Hs Hph Hph' Hh Hn Hfr. destruct (in_net _ _ _ _ Hi t th Ht) as [H1 H2 _]. unfold phase_held in H2. rewrite Hph in H2.
  split; [| |right; eauto].
  - rewrite Hn. rewrite Forall_forall in H1 |- *. intros e He. apply (msg_move _ th); [done|unfold post; by rewrite Hph, Hph'|].
    eapply msg_frame; [|by apply H1]. intros Hq. apply Hfr. by apply net_held_elem.
  - unfold phase_held. rewrite Hph', Hn, (sm_ops _ _ Hs). destruct Hh as [->| ->]; [|done].
    etrans; [|exact H2]. cbn [app]. apply submseteq_cons. done.
Qed.

Lemma inv_release s t th op held m k f rest rc reads w' x' :
  inv s → s_ths s !! t = Some th → th_ph th = Releasing (op :: held) (ALocal m k f :: rest) rc reads →
  clear_action (s_w s) (th_x th) (ALocal m k f) = Ok ([], w', x') →
  (∀ b, is_Some (row_at kvs (s_w s) b) → is_Some (row_at kvs w' b))
  ∧ inv (MkSysSt w' (<[t := set_th th x' (Releasing held rest rc reads)]> (s_ths s)) (s_order s)).
Proof.
  intros Hi Ht Hph Hcl.
  destruct (re_cases s t th _ _ _ _ _ Hi Ht Hph) as [(op0 & held0 & [= <- <-] & (r0 & Hr0 & Hh) & Hop & Hphase)|(? & ? & ? & ? & ? & ? & ?)]; [|done].
  destruct (re_row s t th Hi Ht op Hop) as (r & Hr & Hwf & Hlt & Hm & Hk & _). rewrite Hr in Hr0. injection Hr0 as <-.
  rewrite (re_post th _ _ _ _ _ Hph) in Hh. cbv zeta in Hh. destruct Hh as (-> & -> & Hl & la & Hf & Hla & Hwr).
  destruct (unlock_released _ op r la Hwf Hlt Hm Hla Hwr) as (r' & Hun & Hrel).
  pose proof (st_exec _ _ _ _ (in_static _ _ _ _ Hi t th Ht)) as Hx.
  assert (t_addr th op = (x_node (th_x th), Z.to_nat (op_id op))) as Ha by (unfold t_addr, op_addr; by rewrite Hl).
  rewrite (clear_local_spec kvs workers (s_w s) (th_x th) _ _ f (MkFuture None (PLocal (Z.to_nat (op_id op))) la) r r') in Hcl
    by (first [done|apply Hi|by rewrite <-Ha]).
  injection Hcl as <- <-. rewrite <-Ha. set (th' := set_th th (th_x th) _).
  assert (same_txn th th') as Hsame by by apply set_th_same.
  assert (held_ops th ≡ₚ op :: held_ops th') as Hheld by (unfold held_ops, phase_held; by rewrite Hph).
  assert (post th' = post th) as Hpost by (unfold post; by rewrite Hph).
  assert (∀ b, row_at kvs (set_row kvs (s_w s) (t_addr th op) r') b = if decide (b = t_addr th op) then Some r' else row_at kvs (s_w s) b)
    as Hrow by (intros b; apply row_at_set_row; by eexists).
  assert (∀ o, o ∈ held_ops th' → tuple <$> row_at kvs (set_row kvs (s_w s) (t_addr th op) r') (t_addr th o)
    = tuple <$> row_at kvs (s_w s) (t_addr th o)) as Hfr by (intros o Ho; eapply (fr_frame s t th th'); eauto).
  split; [intros b Hb; rewrite Hrow; destruct (decide _); [by eexists|done]|].
  eapply (inv_freed s t th th' op r r'); eauto.
  - intros S. unfold reads_ok. by rewrite Hph.
  - apply set_row_ok; [apply Hi|apply Hrel].
  - apply length_set_row.
  - apply Hphase; try done. intros o Ho. apply Hfr. apply elem_of_app. by left.
  - apply (net_shrink s t th th' _ (op :: held) held (ALocal (op_mode op) (op_id op) f :: rest) rest rc reads op); auto. intros o Ho. apply Hfr. apply elem_of_app. by right.
  - apply putres_set_row.
Qed.

Lemma inv_skip s t th held m f tgt rest rc reads w' x' :
  inv s → s_ths s !! t = Some th → th_ph th = Releasing held (ARemote m f tgt :: rest) rc reads →
  clear_action (s_w s) (th_x th) (ARemote m f tgt) = Ok ([], w', x') →
  w' = s_w s ∧ inv (MkSysSt w' (<[t := set_th th x' (Releasing held rest rc reads)]> (s_ths s)) (s_order s)).
Proof.
  intros Hi Ht Hph Hcl. pose proof (st_exec _ _ _ _ (in_static _ _ _ _ Hi t th Ht)) as Hx.
  destruct (re_count s t th Hi Ht) as [Hcnt _].
  destruct (re_cases s t th _ _ _ _ _ Hi Ht Hph) as [(op & held0 & -> & (r0 & Hr0 & Hh) & Hop & Hphase)
    |(m0 & f0 & tgt0 & p & la & [= <- <- <-] & -> & -> & Hf)].
  - destruct (re_row s t th Hi Ht op Hop) as (r & Hr & Hwf & Hlt & Hm & Hk & _). cbv zeta in Hh.
    destruct Hh as (-> & -> & Hl & pkt & la & Hf & Hla & Htid & _).
    by rewrite (clear_remote_spec kvs workers (s_w s) (th_x th) _ f _ pkt la _ (in_world _ _ _ _ Hi) Hx Hf Htid Hm Hcnt) in Hcl.
  - rewrite (clear_remote_refused (s_w s) (th_x th) m f tgt p la Hf) in Hcl. injection Hcl as <- <-. split; [done|].
    set (th' := set_th th _ _). assert (same_txn th th') as Hsame by by apply set_th_same.
    apply (inv_still s t th _ th' Hi Ht Hsame); try done; [apply Hi| | | | | |].
    + unfold held_ops, phase_held. by rewrite Hph.
    + unfold post. by rewrite Hph.
    + intros S. unfold reads_ok. by rewrite Hph.
    + exists [], []. split_and!; [done|apply acts_nil|by left].
    + eapply (net_shrink s t th th' _ [] [] _ [] rc reads (MkOP 0 (MkLoc true (node_of 0)) READ 0)); eauto.
    + eapply (counts_same (s_w s)); eauto. apply Hi.
Qed.

Lemma inv_send s t th op held m f tgt rest rc reads msg w' x' :
  inv s → s_ths s !! t = Some th → th_ph th = Releasing (op :: held) (ARemote m f tgt :: rest) rc reads →
  clear_action (s_w s) (th_x th) (ARemote m f tgt) = Ok ([msg], w', x') →
  (∀ b, row_at kvs w' b = row_at kvs (s_w s) b)
  ∧ inv (MkSysSt w' (<[t := set_net (set_th th x' (Releasing held rest rc reads)) (th_net th ++ [(op, msg)])]> (s_ths s)) (s_order s)).
Proof.
  intros Hi Ht Hph Hcl. pose proof (st_exec _ _ _ _ (in_static _ _ _ _ Hi t th Ht)) as Hx.
  destruct (re_count s t th Hi Ht) as [Hcnt Hsmall].
  destruct (re_cases s t th _ _ _ _ _ Hi Ht Hph) as [(op0 & held0 & [= <- <-] & (r0 & Hr0 & Hh) & Hop & Hphase)|(? & ? & ? & ? & ? & ? & ? & ? & _)]; [|done].
  destruct (re_row s t th Hi Ht op Hop) as (r & Hr & Hwf & Hlt & Hm & Hk & _). rewrite Hr in Hr0. injection Hr0 as <-.
  rewrite (re_post th _ _ _ _ _ Hph) in Hh. cbv zeta in Hh.
  destruct Hh as (-> & -> & Hl & pkt & la & Hf & Hla & Htid & Hrid & Hpm & Htup).
  rewrite (clear_remote_spec kvs workers (s_w s) (th_x th) _ f _ pkt la _ (in_world _ _ _ _ Hi) Hx Hf Htid Hm Hcnt) in Hcl.
  injection Hcl as <- <- <-. split; [intros b; apply row_at_set_count|]. set (msg := (_, TupleMsg _)). set (th' := set_net _ _).
  assert (same_txn th th') as Hsame by by split.
  assert (post th' = post th) as Hpost by (unfold post; by rewrite Hph).
  destruct (in_net _ _ _ _ Hi t th Ht) as [N1 N2 _]. unfold phase_held in N2. rewrite Hph in N2.
  apply (inv_still s t th _ th' Hi Ht Hsame); try done.
  - apply set_count_ok, Hi.
  - apply length_set_count.
  - intros b. apply row_at_set_count.
  - unfold held_ops, phase_held; cbn [th' set_net set_th th_ph th_net]. rewrite Hph. unfold net_held. rewrite omap_app.
    cbn [omap list_omap msg fst snd is_put_req put_req msg_set_pack msg_set_sender convert mt_type]. rewrite bool_decide_true by done.
    rewrite app_assoc. rewrite Permutation_app_comm. done.
  - intros S. unfold reads_ok. by rewrite Hph.
  - apply Hphase; try done. intros o _. by rewrite row_at_set_count.
  - split; cbn [th' set_net set_th th_net]; [| |right; eauto].
    + apply Forall_app. split; [|constructor; [|constructor]].
      * eapply Forall_impl; [exact N1|]. intros e He. apply (msg_move _ th); [done..|].
        eapply msg_frame; [|exact He]. intros _. by rewrite row_at_set_count.
      * destruct (put_req_sender kvs workers (s_w s) (th_x th) pkt la (in_world _ _ _ _ Hi) Hx) as [Hs1 Hs2].
        exists (put_req (th_x th) pkt la). split_and!; [done..|]. cbn [put_req msg_set_pack msg_set_sender convert mt_type mt_tid mt_rid mt_mode mt_pack mt_tuple fst snd msg].
        split_and!; try done; [by exists la|]. exists r. rewrite row_at_set_count, Hpost. split; [exact Hr|exact Htup].
    + unfold phase_held; cbn [th' set_net set_th th_ph th_ops]. rewrite fmap_app. cbn [fmap list_fmap fst].
      rewrite app_assoc, Permutation_app_comm. exact N2.
  - eapply (counts_step (s_w s) _ _ t th th' Ht Hsame); [apply Hi|apply Hi| | |].
    + intros u thu Hu. apply (st_exec _ _ _ _ (in_static _ _ _ _ Hi u thu Hu)).
    + intros i c. apply put_count_set_count. by eexists.
    + cbn [th' set_net th_net]. rewrite length_app. cbn [length]. rewrite wrap_small by lia. lia.
Qed.

(** ** The network *)

(** One message of a thread is replaced by what its handling sends. *)
Lemma net_replace s t th th' w' pre op e suf out :
  inv s → s_ths s !! t = Some th → same_txn th th' → th_ph th' = th_ph th → th_net th = pre ++ (op, e) :: suf →
  th_net th' = pre ++ suf ++ (pair op <$> out) → (length out ≤ 1)%nat → Forall (λ m, msg_ok kvs w' th' (op, m)) out →
  (∀ o, o ∈ net_held (pre ++ suf) → tuple <$> row_at kvs w' (t_addr th o) = tuple <$> row_at kvs (s_w s) (t_addr th o)) →
  net_ok w' th'.
Proof.
  intros Hi Ht Hs Hph Hn Hn' Hout Hmo Hfr. destruct (in_net _ _ _ _ Hi t th Ht) as [H1 H2 H3]. rewrite Hn in H1, H2, H3.
  split.
  - rewrite Hn'. apply Forall_app in H1 as [Hpre Hsuf]. apply Forall_cons in Hsuf as [_ Hsuf]. rewrite app_assoc.
    apply Forall_app. split; [|by apply Forall_fmap].
    assert (Forall (msg_ok kvs (s_w s) th) (pre ++ suf)) as Hall by (apply Forall_app; by split).
    rewrite Forall_forall in Hall |- *. intros e' He. apply (msg_move _ th); [done|unfold post; by rewrite Hph|].
    eapply msg_frame; [|by apply Hall]. intros Hq. apply Hfr. by apply net_held_elem.
  - rewrite Hn', (sm_ops _ _ Hs). unfold phase_held in *. rewrite Hph, (sm_ops _ _ Hs). etrans; [|exact H2]. rewrite !fmap_app, fmap_cons. cbn [fst].
    assert ((pair op <$> out).*1 ⊆+ [op]) as Hsub.
    { destruct out as [|m [|]]; [apply submseteq_nil_l|done|simpl in Hout; lia]. }
    apply submseteq_app; [done|]. apply submseteq_app; [done|]. rewrite (Permutation_app_comm suf.*1). 
    change (op :: suf.*1) with ([op] ++ suf.*1). by apply submseteq_app.
  - right. rewrite Hph. destruct H3 as [H3|H3]; [by destruct pre|done].
Qed.

Section network.
Context (s : sysst) (t : nat) (th : thread) (pre suf : list (OP * (Z * message))) (op : OP) (dst : Z) (m : message).
Context (Hi : inv s) (Ht : s_ths s !! t = Some th) (Hnet : th_net th = pre ++ (op, (dst, m)) :: suf).

(** The handler of the destination takes any message under way; a request is
    answered, a response is not. *)
Definition net_result (n n' : Node) (eff : effects) : Prop :=
  s_w s !! Z.to_nat dst = Some n ∧ handle bm n m = Ok (n', eff) ∧ completed eff = None
  ∧ inv (MkSysSt (<[Z.to_nat dst := n']> (s_w s)) (<[t := set_net th (pre ++ suf ++ (pair op <$> sent eff))]> (s_ths s)) (s_order s))
  ∧ (∀ b, is_Some (row_at kvs (s_w s) b) → is_Some (row_at kvs (<[Z.to_nat dst := n']> (s_w s)) b))
  ∧ if is_put_req m then ∃ a, sent eff = [a] ∧ is_put_req a.2 = false else sent eff = [].

Lemma net_msg_ok : msg_ok kvs (s_w s) th (op, (dst, m)).
Proof.
  destruct (in_net _ _ _ _ Hi t th Ht) as [H _ _]. rewrite Hnet, Forall_app, Forall_cons in H. apply H.
Qed.

Lemma net_phase th' : same_txn th th' → th_x th' = th_x th → th_ph th' = th_ph th → ∀ w',
  (∀ o, o ∈ phase_held th → tuple <$> row_at kvs w' (t_addr th o) = tuple <$> row_at kvs (s_w s) (t_addr th o)) →
  phase_ok w' th'.
Proof.
  intros Hs Hx Hph w' Hfr. pose proof (in_phase _ _ _ _ Hi t th Ht) as Hp. apply (phase_frame kvs _ w') in Hp; [|done].
  destruct (nt_quiet _ _ _ (in_net _ _ _ _ Hi t th Ht)) as [Hq|(held & rest & rc & reads & He)];
    [by rewrite Hnet in Hq; destruct pre|].
  unfold Serial.phase_ok in *. rewrite Hph. rewrite He in *. destruct Hp as (acts & tl & H1 & H2 & H3). exists acts, tl.
  split_and!; [done| |by rewrite Hx]. eapply (acts_move w'); [exact Hs|by rewrite Hx|by rewrite Hx| |done|exact H2].
  intros j _. unfold applied. by rewrite Hph, He.
Qed.

Lemma net_request q : m = TupleMsg q → mt_type q = TUPLE_PUT_REQ → ∃ n n' eff, net_result n n' eff.
Proof.
  intros Hmq Hty. destruct net_msg_ok as (q' & Hq' & Hsn & Hst & Hm). cbn [fst snd] in Hq', Hm. rewrite Hmq in Hq'. injection Hq' as <-.
  rewrite Hty in Hm. unfold net_result. rewrite Hmq.
  destruct Hm as (Hl & Hdst & Htid & Hrid & Hmode & (la & Hpack & Hla) & r & Hr & Hv).
  assert (is_put_req (TupleMsg q) = true) as Hreq by (cbn; by rewrite bool_decide_true).
  assert (t_addr th op = (Z.to_nat dst, Z.to_nat (mt_rid q))) as Ha by (unfold t_addr, op_addr; by rewrite Hl, Hrid, Hdst).
  pose proof Hr as Hr0. rewrite Ha in Hr0. apply row_at_inv in Hr0 as (nj & tj & Hnj & _). cbn [fst] in Hnj.
  destruct (handle_put_spec bm kvs (s_w s) (Z.to_nat dst) nj q la r Hnj Hty Htid Hpack Hla) as (nj' & Hh & Hw'); [by rewrite <-Ha|].
  exists nj, nj'. eexists. split; [done|]. split; [exact Hh|]. split; [done|]. rewrite Hw', <-Ha, Hmode. cbn [sent fmap list_fmap].
  set (th' := set_net th _). assert (same_txn th th') as Hsame by by split.
  assert (held_ops th ≡ₚ op :: held_ops th') as Hheld.
  { unfold held_ops, phase_held; cbn [th' set_net th_ph th_net th_ops]. rewrite Hnet. unfold net_held. rewrite !omap_app.
    cbn [omap list_omap fst snd]. rewrite Hmq, Hreq. cbn [is_put_req convert mt_type]. rewrite bool_decide_false by done. rewrite app_nil_r.
    rewrite Permutation_middle. f_equiv. by rewrite Permutation_middle. }
  assert (op ∈ held_ops th) as Hop by (rewrite Hheld; by left).
  destruct (re_row s t th Hi Ht op Hop) as (r1 & Hr1 & Hwf & Hlt & Hm & _). rewrite Hr in Hr1. injection Hr1 as <-.
  set (w' := set_row kvs (s_w s) (t_addr th op) (put_row r (op_mode op) (mt_tuple q) la)).
  assert (released (post th && bool_decide (op_mode op = WRITE)) op r (put_row r (op_mode op) (mt_tuple q) la)) as Hrel.
  { apply put_released; try done. intros [_ Hw]%andb_prop. by apply bool_decide_eq_true in Hw. }
  assert (∀ b, row_at kvs w' b = if decide (b = t_addr th op) then Some (put_row r (op_mode op) (mt_tuple q) la) else row_at kvs (s_w s) b)
    as Hrow by (intros b; apply row_at_set_row; by eexists).
  assert (∀ o, o ∈ held_ops th' → tuple <$> row_at kvs w' (t_addr th o) = tuple <$> row_at kvs (s_w s) (t_addr th o)) as Hfr
    by (intros o Ho; eapply (fr_frame s t th th'); eauto).
  split_and!; [| |rewrite Hreq; by eexists].
  - eapply (inv_freed s t th th' op r); eauto.
    + apply set_row_ok; [apply Hi|apply Hrel].
    + apply length_set_row.
    + apply net_phase; try done. intros o Ho. apply Hfr. apply elem_of_app. by left.
    + eapply (net_replace s t th th'); [done..|exact Hnet|by unfold th'; instantiate (1 := [_])|simpl; lia| |].
      * constructor; [|constructor]. exists (convert TUPLE_PUT_RES q). split_and!; done.
      * intros o Ho. apply Hfr. unfold held_ops. apply elem_of_app. right. cbn [th' set_net th_net].
        rewrite app_assoc. unfold net_held in *. rewrite omap_app. apply elem_of_app. by left.
    + apply putres_set_row.
    + cbn [th' set_net th_net]. rewrite Hnet, !length_app. simpl. lia.
  - intros b Hb. rewrite Hrow. destruct (decide _); [by eexists|done].
Qed.

Lemma net_response q : m = TupleMsg q → mt_type q = TUPLE_PUT_RES → ∃ n n' eff, net_result n n' eff.
Proof.
  intros Hmq Hty. destruct net_msg_ok as (q' & Hq' & Hsn & Hst & Hm). cbn [fst snd] in Hq', Hm. rewrite Hmq in Hq'. injection Hq' as <-.
  rewrite Hty in Hm. unfold net_result. rewrite Hmq, Hm.
  assert (is_put_req (TupleMsg q) = false) as Hreq by (cbn; by rewrite Hty).
  destruct (re_count s t th Hi Ht) as [Hcnt Hsmall]. rewrite <-Hst in Hcnt.
  destruct (handle_ack_spec bm (s_w s) _ q _ Hty Hcnt) as (n & n' & Hn & Hh & Hw').
  exists n, n', no_effects. rewrite Nat2Z.id, Hw', Hreq. split_and!; try done.
  2:{ intros b. by rewrite row_at_set_count. }
  cbn [sent no_effects fmap list_fmap]. set (th' := set_net th _). assert (same_txn th th') as Hsame by by split.
  rewrite Hst in *. apply (inv_still s t th _ th' Hi Ht Hsame); try done.
  - apply set_count_ok, Hi.
  - apply length_set_count.
  - intros b. apply row_at_set_count.
  - unfold held_ops, phase_held; cbn [th' set_net th_ph th_net th_ops]. rewrite Hnet. unfold net_held. rewrite !omap_app.
    cbn [omap list_omap fst snd]. by rewrite Hmq, Hreq, app_nil_r.
  - apply net_phase; try done. intros o _. by rewrite row_at_set_count.
  - eapply (net_replace s t th th' _ pre op _ suf []); try done; [simpl; lia|]. intros o _. by rewrite row_at_set_count.
  - eapply (counts_step (s_w s) _ _ t th th' Ht Hsame); [apply Hi|apply Hi| | |].
    + intros u thu Hu. apply (st_exec _ _ _ _ (in_static _ _ _ _ Hi u thu Hu)).
    + intros i c. apply put_count_set_count. by eexists.
    + cbn [th' set_net th_net]. rewrite Hnet, !length_app in *. simpl in *. rewrite wrap_small by lia. lia.
Qed.

Lemma net_handled : ∃ n n' eff, net_result n n' eff.
Proof.
  destruct net_msg_ok as (q & Hq & _ & _ & Hm). cbn [fst snd] in Hq.
  destruct (mt_type q) eqn:Ety; [done|done|by eapply net_request|by eapply net_response].
Qed.

Lemma net_step n n' eff : s_w s !! Z.to_nat dst = Some n → handle bm n m = Ok (n', eff) → net_result n n' eff.
Proof.
  intros Hn Hh. destruct net_handled as (n1 & n2 & eff1 & H1 & H2 & H3). rewrite Hn in H1. injection H1 as <-.
  rewrite Hh in H2. injection H2 as <- <-. done.
Qed.
End network.

(** The worker has seen all its responses. *)
Lemma wait_puts_net s t th :
  inv s → s_ths s !! t = Some th → wait_puts (s_w s) (th_x th) = Ok tt ↔ th_net th = [].
Proof.
  intros Hi Ht. pose proof (in_counts _ _ _ _ Hi t th Ht) as Hc. apply put_count_inv in Hc as (n & Hn & Hc).
  unfold wait_puts, putres_wait. rewrite (proj2 (aget_ok _ _ _) Hn). cbn [mbind outcome_bind].
  rewrite (proj2 (aget_ok _ _ _) Hc). cbn [mbind outcome_bind]. destruct (th_net th); [done|]. cbn [length].
  rewrite (proj2 (Z.eqb_neq _ _)) by lia. done.
Qed.

Lemma inv_done s t th held rc reads :
  inv s → s_ths s !! t = Some th → th_ph th = Releasing held [] rc reads → wait_puts (s_w s) (th_x th) = Ok tt →
  inv (MkSysSt (s_w s) (<[t := set_th th (set_futs [] (set_log [] (th_x th))) (Finished rc reads)]> (s_ths s)) (s_order s)).
Proof.
  intros Hi Ht Hph Hwait. apply (wait_puts_net s t th Hi Ht) in Hwait as Hn.
  set (th' := set_th th _ _). assert (same_txn th th') as Hsame by by apply set_th_same.
  pose proof (in_phase _ _ _ _ Hi t th Ht) as Hp. unfold Serial.phase_ok in Hp. rewrite Hph in Hp.
  destruct Hp as (acts & tl & Heq & Hacts & _). symmetry in Heq. apply app_nil in Heq as [-> ->].
  pose proof (ac_len _ _ _ _ _ Hacts) as Hlen. destruct held; [|done].
  apply (inv_still s t th _ th' Hi Ht Hsame); try done; [apply Hi| | | | |].
  - rewrite !held_nil by done. unfold phase_held. by rewrite Hph.
  - unfold post. by rewrite Hph.
  - intros S. unfold reads_ok. by rewrite Hph.
  - apply net_ok_nil; [done|]. apply submseteq_nil_l.
  - eapply (counts_same (s_w s)); eauto. apply Hi.
Qed.

Lemma inv_sstep s s' : inv s → sstep bm ext s s' → inv s'.
Proof.
  intros Hi Hst. destruct Hst as [s t th w' th' Ht Hst]. remember (s_w s) as w0 eqn:Hw0. destruct Hst as
    [w th futs op f w' x' Hph Hop Ha|w th futs op w' x' Hph Hop Ha|w th futs op Hph Hop Hl|w th futs Hph Hlen
    |w th i futs reads op f v w' x' Hph Hop Hf Ha|w th i futs reads op f w' x' Hph Hop Hf Ha
    |w th futs reads ref w' Hph Hre|w th op held m k f rest rc reads w' x' Hph Hcl|w th held m f tgt rest rc reads w' x' Hph Hcl
    |w th op held m f tgt rest rc reads msg w' x' Hph Hcl|w th pre op dst m suf n n' eff Hnet Hn Hh _|w th held rc reads Hph Hwait];
    subst w; try (unfold is_locked_step; rewrite Hph; cbn [set_net set_th th_ph]).
  - by eapply inv_lock.
  - by eapply inv_refuse.
  - by eapply inv_stale.
  - by apply (inv_locked s t th _ futs Hi Ht Hph Hlen).
  - by apply (inv_apply s t th i futs reads op f (Some v) w' x' Hi Ht Hph Hop Hf Ha v eq_refl).
  - by destruct (ap_null s t th i futs reads op f None w' x' Hi Ht Hph Hop Hf Ha).
  - by eapply inv_applied.
  - by eapply inv_release.
  - by eapply inv_skip.
  - by eapply inv_send.
  - destruct (net_step s t th pre suf op dst m Hi Ht Hnet n n' eff Hn Hh) as (_ & _ & _ & Hi' & _).
    assert (is_locked_step th (set_net th (pre ++ suf ++ (pair op <$> sent eff))) = false) as ->; [|done].
    unfold is_locked_step; cbn [set_net th_ph]. by destruct (th_ph th).
  - by eapply inv_done.
Qed.

Lemma inv_reachable s s' : inv s → rtc (sstep bm ext) s s' → inv s'.
Proof. intros Hi Hr. induction Hr; [done|]. eauto using inv_sstep. Qed.
End steps.
