(* ===== verification/Serializability.v ===== *)
(** * Serializability and progress of concurrent transactions

    The theorems about the step relation of [Serial]: serializability of every
    interleaving, a bound on the number of steps of a transaction, and that
    [my_execute] run without interruption is such a sequence of steps. *)
From stdpp Require Import base tactics list numbers gmap relations strings.
From Stdlib Require Import ZArith Lia.
From S2P Require Import Prelude Types Layout Msg Row Table Mempool SendQ SwitchPkt MsgHandler HotCold Sched Undolog Executor RowAccess Serial SerialSteps.

(** ** What no step changes *)

Definition txn_of (th : thread) : nat * list OP := (x_node (th_x th), th_ops th).

Section frames.
Context (bm : build) (ext : externals).

(** All fields of a worker but its futures and its log. *)
Definition frame_of (x : TxnExecutor) : TxnExecutor := set_futs [] (set_log [] x).

Lemma fut_result_frame w x f res w' x' : fut_result w x f = Ok (res, w', x') → frame_of x' = frame_of x.
Proof. unfold fut_result. intros H. minv. destruct (future_get r) as [[[p|] f']|]; minv; done. Qed.

Lemma acquire_frame mode w x op id res w' x' :
  acquire bm ext mode w x op id = Ok (res, w', x') → frame_of x' = frame_of x.
Proof.
  unfold acquire, acquire_local, acquire_remote. intros H. destruct (is_local (loc_info op)); minv.
  - destruct r0 as [n t]. minv. destruct r0 as [[e t'] fut]. destruct (error e); minv; [done|].
    by apply fut_result_frame in H as ->.
  - destruct r as [n t]. minv. destruct (set_new_id n _) as [req n1]. minv. destruct r0 as [w1 dn].
    by apply fut_result_frame in H as ->.
Qed.

Lemma apply_frame stamp w x op f res w' x' : apply_op stamp w x op f = Ok (res, w', x') → frame_of x' = frame_of x.
Proof.
  unfold apply_op. intros H. minv. destruct (future_get r) as [[[p|] f']|]; minv; [|done].
  assert (∀ y, frame_of (stamp_fut stamp f y) = frame_of y) as Hs by (intros; by destruct stamp).
  assert (∀ w1 p0 v wx, write_through w1 (put_fut f f' x) f f' p0 v = Ok wx → frame_of wx.2 = frame_of x) as Hw.
  { intros w1 p0 v wx Hwt. unfold write_through in Hwt. destruct p0; minv; try done.
    - destruct r0 as [n t]. minv. done.
    - destruct (fut_pkt f'); minv; done. }
  destruct (op_mode op); minv; try by rewrite Hs. destruct r0 as [w1 x1]. minv. rewrite Hs. by apply Hw in E0.
Qed.

Lemma clear_frame w x a out w' x' : clear_action w x a = Ok (out, w', x') → frame_of x' = frame_of x.
Proof.
  destruct a as [m k f|m f tgt]; cbn [clear_action]; unfold clear_local, clear_remote; intros H; minv.
  - destruct r as [w1 x1]. minv. case_bool_decide; minv. destruct r as [n t]. minv. destruct r as [e t']. destruct (error e); minv; done.
  - destruct (future_get r) as [[[p|] f']|]; minv; [|done]. destruct (fut_pkt f'); [|done].
    destruct (4 <? _); minv. case_bool_decide; minv. done.
Qed.

Lemma clear_actions_frame w x acts out w' x' : clear_actions w x acts = Ok (out, w', x') → frame_of x' = frame_of x.
Proof.
  revert w x out. induction acts as [|a acts IH]; intros w x out H; cbn [clear_actions] in H; minv; [done|].
  destruct r as [[o1 w1] x1]. minv. destruct r as [[o2 w2] x2]. minv. apply IH in E0. apply clear_frame in E. congruence.
Qed.

Lemma frame_node x x' : frame_of x' = frame_of x → x_node x' = x_node x.
Proof. intros H. exact (f_equal x_node H). Qed.

(** The worker's other fields are untouched. *)
Definition framed (x x' : TxnExecutor) : Prop := frame_of x' = frame_of x.

Lemma framed_trans x y z : framed x y → framed y z → framed x z.
Proof. unfold framed. intros H1 H2. by rewrite H2. Qed.

Lemma framed_account x x' :
  framed x x' → leftover_txns x' = leftover_txns x ∧ x_built x' = x_built x ∧ n_commits x' = n_commits x.
Proof. intros H. exact (conj (f_equal leftover_txns H) (conj (f_equal x_built H) (f_equal n_commits H))). Qed.

Lemma tstep_txn w th w' th' : tstep bm ext w th w' th' → txn_of th' = txn_of th.
Proof.
  unfold txn_of. intros []; cbn [set_net set_th th_x th_ops]; f_equal; try done;
    apply frame_node;
    first [by eapply acquire_frame|by eapply apply_frame|by eapply clear_frame].
Qed.

Lemma sstep_txns s s' : sstep bm ext s s' → txn_of <$> s_ths s' = txn_of <$> s_ths s.
Proof.
  intros [s0 t th w' th' Ht Hst]. cbn [s_ths]. rewrite list_fmap_insert, (tstep_txn _ _ _ _ Hst).
  apply list_insert_id. by rewrite list_lookup_fmap, Ht.
Qed.

Lemma steps_txns s s' : rtc (sstep bm ext) s s' → txn_of <$> s_ths s' = txn_of <$> s_ths s.
Proof. induction 1 as [|s s1 s' Hst _ IH]; [done|]. by rewrite IH, (sstep_txns _ _ Hst). Qed.
End frames.

Lemma serial_store_txns S ths ths' order :
  txn_of <$> ths' = txn_of <$> ths → serial_store S ths' order = serial_store S ths order.
Proof.
  intros Heq. revert S. induction order as [|t order IH]; intros S; [done|].
  unfold serial_store in *. cbn [foldl]. rewrite IH. f_equal.
  assert ((txn_of <$> ths') !! t = (txn_of <$> ths) !! t) as Hl by by rewrite Heq.
  rewrite !list_lookup_fmap in Hl. destruct (ths' !! t) as [th'|], (ths !! t) as [th|]; simplify_eq/=; [|done].
  unfold txn_of in Hl. congruence.
Qed.

(** ** The start of a run *)

Section run.
Context (bm : build) (ext : externals) (kvs : nat) (workers : Z).

(** The values of the rows. *)
Definition store_of (w : world) : store :=
  λ a, match row_at kvs w a with Some r => kv_value (tuple r) | None => 0 end.

(** No lock is held, no put of the workers is unanswered, and every worker is
    about to run its transaction. *)
Record start (w : world) (ths : list thread) : Prop := {
  sa_world : world_ok kvs workers w;
  sa_free : ∀ a r, row_at kvs w a = Some r → lock_type r = INVALID ∧ owner_cnt r = 0;
  sa_static : ∀ t th, ths !! t = Some th → static_ok kvs workers w th;
  sa_new : ∀ t th, ths !! t = Some th → th_ph th = Locking [] ∧ x_log (th_x th) = [];
  sa_few : few_ops ths;
  sa_net : ∀ t th, ths !! t = Some th → th_net th = [];
  sa_quiet : ∀ t th, ths !! t = Some th → put_count w (x_node (th_x th)) (Z.to_nat (x_tid (th_x th))) = Some 0;
  sa_workers : workers_ok ths;
}.

Lemma start_held w ths t th : start w ths → ths !! t = Some th → held_ops th = [] ∧ post th = false.
Proof.
  intros Hs Ht. rewrite held_nil by (by eapply sa_net). unfold phase_held, post. by destruct (sa_new _ _ Hs t th Ht) as [-> _].
Qed.

Lemma start_count w ths a : start w ths → hcount a ths = 0%nat.
Proof.
  intros Hs. assert (∀ th, th ∈ ths → held_ops th = []) as Hh.
  { intros th [t Ht]%list_elem_of_lookup. by eapply start_held. }
  clear Hs. induction ths as [|th ths IH]; [done|]. unfold hcount in *. cbn [foldr]. rewrite IH.
  - unfold t_count. rewrite (Hh th) by left. done.
  - intros th' Hin. apply Hh. by right.
Qed.

Lemma start_inv w ths : start w ths → inv kvs workers (store_of w) (MkSysSt w ths []).
Proof.
  intros Hs. pose proof Hs as [Hw Hfree Hst Hnew Hfew Hnet Hq Hwk]. split; cbn [s_w s_ths s_order]; try done.
  - intros t th Ht. destruct (Hnew t th Ht) as [Hph Hlog]. unfold phase_ok. rewrite Hph, Hlog. cbn [length].
    rewrite take_0. split_and!; [lia|done|apply acts_nil].
  - split.
    + intros a r Hr. destruct (Hfree a r Hr) as [Hl Hc]. rewrite (start_count w ths a Hs). unfold row_wf. rewrite Hl, Hc.
      split_and!; done.
    + intros a r t th op _ Ht Hop _. destruct (start_held w ths t th Hs Ht) as [Hh _]. rewrite Hh in Hop.
      by apply not_elem_of_nil in Hop.
  - split.
    + intros a r Hr _. unfold serial_store, store_of. cbn [foldl]. by rewrite Hr.
    + intros t th op Ht Hp. destruct (start_held w ths t th Hs Ht) as [_ Hpf]. congruence.
    + intros pre t post' th Ho. by destruct pre.
    + intros t th Ht. destruct (start_held w ths t th Hs Ht) as [_ ->]. split; [|done]. by intros ?%not_elem_of_nil.
    + split; constructor.
  - intros t th Ht. apply net_ok_nil; [by eapply Hnet|]. rewrite <-held_nil by (by eapply Hnet).
    destruct (start_held w ths t th Hs Ht) as [-> _]. apply submseteq_nil_l.
  - intros t th Ht. rewrite (Hnet t th Ht). by apply (Hq t).
Qed.

(** What a finished transaction read, and what is left when all are finished. *)
Lemma finished_reads S0 s t th rc reads :
  inv kvs workers S0 s → s_ths s !! t = Some th → th_ph th = Finished rc reads →
  match rc with
  | COMMIT => ∃ before after, s_order s = before ++ t :: after
                ∧ reads = read_vals (x_node (th_x th)) (serial_store S0 (s_ths s) before) (th_ops th)
  | ROLLBACK => t ∉ s_order s
  end.
Proof.
  intros Hi Ht Hph. pose proof (in_values _ _ _ _ Hi) as [_ _ Hrd Hord _].
  specialize (Hord t th Ht). unfold post in Hord. rewrite Hph in Hord. destruct rc.
  - pose proof (proj2 Hord eq_refl) as Hin. apply list_elem_of_split in Hin as (before & after & Ho).
    exists before, after. split; [done|].
    destruct (Hrd before t after th Ho Ht) as [Hro _]. unfold reads_ok in Hro. by rewrite Hph in Hro.
  - intros Hin%Hord. done.
Qed.

Lemma finished_rows S0 s a r :
  inv kvs workers S0 s → (∀ t th, s_ths s !! t = Some th → ∃ rc reads, th_ph th = Finished rc reads) →
  row_at kvs (s_w s) a = Some r →
  lock_type r = INVALID ∧ owner_cnt r = 0 ∧ kv_value (tuple r) = serial_store S0 (s_ths s) (s_order s) a.
Proof.
  intros Hi Hfin Hra. destruct (rk_wf _ _ _ (in_rows _ _ _ _ Hi) a r Hra) as [(_ & Hz & _) Hc].
  assert (∀ t th, s_ths s !! t = Some th → held_ops th = []) as Hheld.
  { intros t th Ht. destruct (Hfin t th Ht) as (rc & reads & Hph).
    rewrite held_nil by (apply (net_nil kvs workers S0 s t th Hi Ht); by rewrite Hph). unfold phase_held. by rewrite Hph. }
  assert (hcount a (s_ths s) = 0%nat) as H0.
  { clear -Hheld. induction (s_ths s) as [|th l IH]; [done|]. unfold hcount in *. cbn [foldr].
    rewrite IH by (intros t; apply (Hheld (S t))). unfold t_count. by rewrite (Hheld 0%nat th eq_refl). }
  rewrite H0 in Hc. split_and!; [by apply Hz|done|]. apply (vk_row _ _ _ _ _ (in_values _ _ _ _ Hi)); [done|].
  intros (t & th & op & Ht & _ & Hop & _). rewrite (Hheld t th Ht) in Hop. by apply not_elem_of_nil in Hop.
Qed.

(** Rows never disappear. *)
Definition keeps (w w' : world) : Prop := ∀ a, is_Some (row_at kvs w a) → is_Some (row_at kvs w' a).

Lemma set_row_keeps w a r : is_Some (row_at kvs w a) → keeps w (set_row kvs w a r).
Proof. intros Ha b Hb. rewrite row_at_set_row by done. case_decide; [by eexists|done]. Qed.

Lemma tstep_keeps S0 s t th w' th' :
  inv kvs workers S0 s → s_ths s !! t = Some th → tstep bm ext (s_w s) th w' th' → keeps (s_w s) w'.
Proof.
  intros Hi Ht Hst. assert (∀ op res w' x', op ∈ th_ops th →
    acquire bm ext (op_mode op) (s_w s) (th_x th) op (th_id th) = Ok (res, w', x') → keeps (s_w s) w') as Hacq.
  { intros op res w1 x1 Hop Ha. destruct (op_row kvs workers S0 s t th op Hi Ht Hop) as (Hm & Hk & [r Hr] & Hne).
    destruct (in_static _ _ _ _ Hi t th Ht) as [Hx _ Hid _ Hmb].
    destruct (acquire_inv bm ext kvs workers (s_w s) (th_x th) op (th_id th) r _ w1 x1 (in_world _ _ _ _ Hi) Hx Hk Hm Hne Hid Hmb Hr Ha)
      as (_ & _ & _ & Hres). intros b Hb. destruct res as [f|].
    - destruct Hres as (_ & _ & Hrow & _). rewrite Hrow. case_decide; [by eexists|done].
    - destruct Hres as (Hrow & _). by rewrite Hrow. }
  remember (s_w s) as w0 eqn:Hw0. destruct Hst as
    [w th futs op f w' x' Hph Hop Ha|w th futs op w' x' Hph Hop Ha|w th futs op Hph Hop Hl|w th futs Hph Hlen
    |w th i futs reads op f v w' x' Hph Hop Hf Ha|w th i futs reads op f w' x' Hph Hop Hf Ha
    |w th futs reads ref w' Hph Hre|w th op held m k f rest rc reads w' x' Hph Hcl|w th held m f tgt rest rc reads w' x' Hph Hcl
    |w th op held m f tgt rest rc reads msg w' x' Hph Hcl|w th pre op dst m suf n n' eff Hnet Hn Hh _|w th held rc reads Hph Hwait];
    subst w; try by intros b.
  - eapply Hacq; [by eapply list_elem_of_lookup_2|done].
  - eapply Hacq; [by eapply list_elem_of_lookup_2|done].
  - destruct (ap_applies kvs workers S0 s t th i futs reads op f _ w' x' Hi Ht Hph Hop Hf Ha) as (act & r & _ & _ & Hr & _ & -> & _).
    apply set_row_keeps. by eexists.
  - by destruct (ap_null kvs workers S0 s t th i futs reads op f None w' x' Hi Ht Hph Hop Hf Ha).
  - destruct (reserve_inv kvs workers _ _ _ _ _ (in_world _ _ _ _ Hi) Hre) as (_ & _ & _ & Hrow). intros b. by rewrite Hrow.
  - by destruct (inv_release kvs workers S0 s t th op held m k f rest rc reads w' x' Hi Ht Hph Hcl).
  - by destruct (inv_skip kvs workers S0 s t th held m f tgt rest rc reads w' x' Hi Ht Hph Hcl) as [-> _]; intros b.
  - destruct (inv_send kvs workers S0 s t th op held m f tgt rest rc reads msg w' x' Hi Ht Hph Hcl) as [Hrow _].
    intros b. by rewrite Hrow.
  - by destruct (net_step bm kvs workers S0 s t th pre suf op dst m Hi Ht Hnet n n' eff Hn Hh) as (_ & _ & _ & _ & Hk & _).
Qed.

Lemma steps_keep S0 s s' : inv kvs workers S0 s → rtc (sstep bm ext) s s' → keeps (s_w s) (s_w s').
Proof.
  intros Hi Hr. induction Hr as [s|s s1 s' Hst _ IH]; [by intros a|].
  intros a Ha. apply IH; [by eapply inv_sstep|]. destruct Hst as [s t th w' th' Ht Hst]. cbn [s_w].
  by eapply (tstep_keeps S0 s t th w' th' Hi Ht Hst).
Qed.

(** C1: concurrent transactions are serializable.  Start any number of workers
    on any nodes, each with a transaction on local and remote rows, from a
    world where no lock is held and no put is unanswered, and interleave in any
    way their lock requests, writes and releases and the handling, in any order
    and after any delay, of the put requests and responses they have under way.
    Then the transactions that obtained all their locks are ordered, without
    repetition; a transaction that ended has none of its messages under way any
    more; if it ended as committed it is among the ordered ones and read exactly
    the values of the serial run of its predecessors, if it rolled back it is
    not; and once every worker is done, every row is still there, its lock free,
    with the value of the serial run of the ordered transactions. *)
Theorem transactions_serializable w ths s :
  start w ths → rtc (sstep bm ext) (MkSysSt w ths []) s →
  let run := serial_store (store_of w) ths in
  NoDup (s_order s)
  ∧ (∀ t th rc reads, s_ths s !! t = Some th → th_ph th = Finished rc reads →
       th_net th = []
       ∧ match rc with
         | COMMIT => ∃ before after, s_order s = before ++ t :: after
                       ∧ reads = read_vals (x_node (th_x th)) (run before) (th_ops th)
         | ROLLBACK => t ∉ s_order s
         end)
  ∧ ((∀ t th, s_ths s !! t = Some th → ∃ rc reads, th_ph th = Finished rc reads) →
     ∀ a, is_Some (row_at kvs w a) → ∃ r, row_at kvs (s_w s) a = Some r
       ∧ lock_type r = INVALID ∧ owner_cnt r = 0 ∧ kv_value (tuple r) = run (s_order s) a).
Proof.
  intros Hs Hr run. pose proof (inv_reachable bm ext kvs workers (store_of w) _ _ (start_inv w ths Hs) Hr) as Hi.
  pose proof (λ o, serial_store_txns (store_of w) _ _ o (steps_txns _ _ _ _ Hr)) as Hrun.
  cbn [s_ths] in Hrun. fold run in Hrun. split; [apply (in_values _ _ _ _ Hi)|]. split.
  - intros t th rc reads Ht Hph. split; [apply (net_nil kvs workers _ s t th Hi Ht); by rewrite Hph|].
    pose proof (finished_reads _ _ _ _ _ _ Hi Ht Hph) as Hf. destruct rc; [|done].
    destruct Hf as (before & after & Ho & ->). exists before, after. by rewrite Hrun.
  - intros Hfin a Ha. destruct (steps_keep _ _ _ (start_inv w ths Hs) Hr a Ha) as [r Hra]. exists r. split; [done|].
    rewrite <-Hrun. by eapply finished_rows.
Qed.

(** ** Progress *)

(** What a worker needs from outside: the mini-batch rule's assertion on the
    row it asks for next, and room in the switch queue when it commits. *)
Definition may_go (w : world) (th : thread) : Prop :=
  match th_ph th with
  | Locking futs => ∀ op r, th_ops th !! length futs = Some op → row_at kvs w (t_addr th op) = Some r →
                      ∃ b, mb_allow_lock bm r (th_id th) = Ok b
  | Applying i _ _ => i = length (th_ops th) → ∃ ref w', reserve (th_stamp th) ref w (th_x th) = Ok w'
  | _ => True
  end.

Definition finished (th : thread) : bool := match th_ph th with Finished _ _ => true | _ => false end.

Section progress.
Context (S0 : store) (s : sysst) (t : nat) (th : thread).
Context (Hi : inv kvs workers S0 s) (Ht : s_ths s !! t = Some th).

Lemma lock_go op :
  op ∈ th_ops th → (∀ r, row_at kvs (s_w s) (t_addr th op) = Some r → ∃ b, mb_allow_lock bm r (th_id th) = Ok b) →
  ∃ res, acquire bm ext (op_mode op) (s_w s) (th_x th) op (th_id th) = Ok res.
Proof.
  intros Hop Hmb. destruct (op_row kvs workers S0 s t th op Hi Ht Hop) as (Hm & Hk & [r Hr] & Hne).
  destruct (Hmb r Hr) as [b Hb]. destruct (in_static _ _ _ _ Hi t th Ht) as [Hx _ Hid _ Hv]. unfold acquire.
  unfold t_addr, op_addr in Hr, Hne. destruct (is_local (loc_info op)).
  - rewrite (acquire_local_spec bm kvs workers _ _ _ op (th_id th) r b) by (try done; apply Hi). destruct (_ && b); by eexists.
  - destruct (acquire_remote_spec bm ext kvs workers (s_w s) (th_x th) (op_mode op) op (th_id th) r b) as (pkt & _ & _ & _ & ->);
      try done; [apply Hi|by apply Hne|]. destruct (_ && b); by eexists.
Qed.

Lemma apply_go op j act :
  op ∈ th_ops th → hold_ok kvs (s_w s) th j op act → applied th j = false →
  ∃ res, apply_op (th_stamp th) (s_w s) (th_x th) op (act_fut act) = Ok res.
Proof.
  intros Hop (r & Hr & Hh) Ha. rewrite Ha in Hh. destruct (op_row kvs workers S0 s t th op Hi Ht Hop) as (Hm & _).
  destruct (in_static _ _ _ _ Hi t th Ht) as [Hx _ _ _ _]. unfold apply_op. destruct act as [m k f|m f tgt]; cbn [act_fut].
  - destruct Hh as (-> & -> & Hl & la & Hf & _). rewrite (proj2 (aget_ok _ _ _) Hf). cbn [mbind outcome_bind future_get fut_tuple].
    unfold t_addr, op_addr in Hr. rewrite Hl in Hr. rewrite (put_fut_id _ _ _ Hf).
    destruct (read_local kvs workers (s_w s) (th_x th) _ r (in_world _ _ _ _ Hi) Hx Hr) as (n & tb & Hkvs & Hget & Hset).
    unfold read_through, write_through. rewrite Hkvs. cbn [mbind outcome_bind]. rewrite Hget. cbn [mbind outcome_bind].
    rewrite (proj1 (Hset _)). cbn [mbind outcome_bind]. destruct (op_mode op); [done|by eexists..].
  - destruct Hh as (-> & -> & Hl & pkt & la & Hf & _). rewrite (proj2 (aget_ok _ _ _) Hf).
    cbn [mbind outcome_bind future_get fut_tuple]. destruct (op_mode op); [done|by eexists..].
Qed.

(** The next entry of the log is released, skipped, or its put sent. *)
Lemma release_go held a rest rc reads :
  th_ph th = Releasing held (a :: rest) rc reads →
  ∃ out w' x', clear_action (s_w s) (th_x th) a = Ok (out, w', x')
    ∧ ∃ held', let th' := set_net (set_th th x' (Releasing held' rest rc reads)) (th_net th ++ (pair (hd inhabitant held) <$> out)) in
      tstep bm ext (s_w s) th w' th'.
Proof.
  intros Hph. pose proof (st_exec _ _ _ _ (in_static _ _ _ _ Hi t th Ht)) as Hx. pose proof (in_world _ _ _ _ Hi) as Hw.
  destruct (re_count kvs workers S0 s t th Hi Ht) as [Hcnt _].
  assert (∀ x ph, set_net (set_th th x ph) (th_net th ++ []) = set_th th x ph) as Hnil by (intros; by rewrite app_nil_r).
  destruct (re_cases kvs workers S0 s t th _ _ _ _ _ Hi Ht Hph) as [(op & held0 & -> & (r0 & Hr0 & Hh) & Hop & _)
    |(m & f & tgt & p & la & -> & -> & -> & Hf)].
  - destruct (re_row kvs workers S0 s t th Hi Ht op Hop) as (r & Hr & Hwf & Hlt & Hm & Hk & Hne).
    destruct a as [m k f|m f tgt].
    + destruct Hh as (-> & -> & Hl & la & Hf & Hla & _). unfold t_addr, op_addr in Hr. rewrite Hl in Hr.
      destruct (local_unlock_wf r (op_mode op) la Hwf Hm Hlt) as (r' & Hun & _).
      pose proof (clear_local_spec kvs workers (s_w s) (th_x th) (op_mode op) (op_id op) f _ r r' Hw Hx Hk Hf ltac:(done) Hr Hun) as Hc.
      do 3 eexists. split; [exact Hc|]. exists held0. cbv zeta. cbn [fmap list_fmap]. rewrite Hnil. by eapply t_release.
    + destruct Hh as (-> & -> & Hl & pkt & la & Hf & Hla & Htid & _).
      pose proof (clear_remote_spec kvs workers (s_w s) (th_x th) (op_mode op) f (target (loc_info op)) pkt la _ Hw Hx Hf Htid Hm Hcnt) as Hc.
      do 3 eexists. split; [exact Hc|]. exists held0. cbn [fmap list_fmap hd]. by eapply t_send.
  - pose proof (clear_remote_refused (s_w s) (th_x th) m f tgt p la Hf) as Hc.
    do 3 eexists. split; [exact Hc|]. exists []. cbv zeta. cbn [fmap list_fmap]. rewrite Hnil. by eapply t_skip.
Qed.

(** Every message under way can be handled. *)
Lemma network_go pre op dst m suf :
  th_net th = pre ++ (op, (dst, m)) :: suf → ∃ n n' eff, s_w s !! Z.to_nat dst = Some n ∧ handle bm n m = Ok (n', eff)
    ∧ tstep bm ext (s_w s) th (<[Z.to_nat dst := n']> (s_w s)) (set_net th (pre ++ suf ++ (pair op <$> sent eff))).
Proof.
  intros Hn. destruct (net_handled bm kvs workers S0 s t th pre suf op dst m Hi Ht Hn) as (n & n' & eff & H1 & H2 & H3 & _).
  exists n, n', eff. split_and!; [done|done|]. by eapply t_net.
Qed.

Lemma can_step : finished th = false → may_go (s_w s) th → ∃ w' th', tstep bm ext (s_w s) th w' th'.
Proof.
  unfold finished, may_go. intros Hf Hgo. pose proof (in_phase _ _ _ _ Hi t th Ht) as Hp. unfold phase_ok in Hp.
  destruct (th_ph th) as [futs|i futs reads|held rest rc reads|] eqn:Hph; [| | |done].
  - destruct Hp as (Hle & _). destruct (th_ops th !! length futs) as [op|] eqn:Hop.
    + destruct (lock_go op) as [[[[f|] w'] x'] Ha]; [by eapply list_elem_of_lookup_2|by intros; eapply Hgo| |].
      * do 2 eexists. by eapply t_lock.
      * do 2 eexists. by eapply t_refuse.
    + apply lookup_ge_None in Hop. do 2 eexists. eapply t_locked; [done|lia].
  - destruct Hp as (Hle & Hfuts & Hacts). destruct (th_ops th !! i) as [op|] eqn:Hop.
    + destruct (lookup_lt_is_Some_2 (x_log (th_x th)) i) as [act Hact].
      { rewrite <-(ac_len _ _ _ _ _ Hacts). by eapply lookup_lt_Some. }
      destruct (apply_go op i act) as [[[[v|] w'] x'] Ha]; [by eapply list_elem_of_lookup_2|by eapply (ac_hold _ _ _ _ _ Hacts)
        |unfold applied; rewrite Hph; apply bool_decide_eq_false; lia| |].
      * do 2 eexists. eapply (t_apply _ _ _ _ _ futs); eauto. by rewrite Hfuts, list_lookup_fmap, Hact.
      * do 2 eexists. eapply (t_null _ _ _ _ _ futs); eauto. by rewrite Hfuts, list_lookup_fmap, Hact.
    + apply lookup_ge_None in Hop. assert (i = length (th_ops th)) as -> by lia. destruct (Hgo eq_refl) as (ref & w' & Hre).
      do 2 eexists. by eapply t_applied.
  - destruct rest as [|a rest].
    + destruct (th_net th) as [|[op [dst m]] net] eqn:Hn.
      * do 2 eexists. eapply t_done; [done|]. by apply (wait_puts_net kvs workers S0 s t th Hi Ht).
      * destruct (network_go [] op dst m net Hn) as (n & n' & eff & _ & _ & Hst). by do 2 eexists.
    + destruct (release_go held a rest rc reads Hph) as (out & w' & x' & _ & held' & Hst). by do 2 eexists.
Qed.
End progress.

(** The steps a transaction may still take: three per entry of the log (the
    entry, the handling of its put request, that of the response). *)
Definition net_fuel (net : list (OP * (Z * message))) : nat :=
  foldr (λ e n, (if is_put_req e.2.2 then 2 else 1) + n)%nat 0%nat net.

Lemma net_fuel_app l k : net_fuel (l ++ k) = (net_fuel l + net_fuel k)%nat.
Proof. induction l as [|e l IH]; [done|]. unfold net_fuel in *. cbn [app foldr]. rewrite IH. lia. Qed.

Lemma net_fuel_cons e l : net_fuel (e :: l) = ((if is_put_req e.2.2 then 2 else 1) + net_fuel l)%nat.
Proof. done. Qed.

Definition fuel_left (th : thread) : nat :=
  let n := length (th_ops th) in
  match th_ph th with
  | Locking futs => 5 * n + 3 - length futs
  | Applying i _ _ => 4 * n + 2 - i
  | Releasing _ rest _ _ => 3 * length rest + 1
  | Finished _ _ => 0
  end + net_fuel (th_net th).

Lemma log_len S0 s t th :
  inv kvs workers S0 s → s_ths s !! t = Some th →
  match th_ph th with Locking futs | Applying _ futs _ => length (x_log (th_x th)) = length futs ∧ (length futs ≤ length (th_ops th))%nat
  | _ => True end.
Proof.
  intros Hi Ht. pose proof (in_phase _ _ _ _ Hi t th Ht) as Hp. unfold phase_ok in Hp.
  destruct (th_ph th); [|destruct Hp as (_ & -> & Hp)|done..].
  - destruct Hp as (? & -> & _). by rewrite length_fmap in *.
  - rewrite length_fmap. split; [done|]. by rewrite (ac_len _ _ _ _ _ Hp).
Qed.

Lemma tstep_fuel S0 s t th w' th' :
  inv kvs workers S0 s → s_ths s !! t = Some th → tstep bm ext (s_w s) th w' th' → (fuel_left th' < fuel_left th)%nat.
Proof.
  intros Hi Ht Hst. pose proof (log_len S0 s t th Hi Ht) as Hl. pose proof (in_static _ _ _ _ Hi t th Ht) as Hstat.
  remember (s_w s) as w0 eqn:Hw0. destruct Hst as
    [w th futs op f w' x' Hph Hop Ha|w th futs op w' x' Hph Hop Ha|w th futs op Hph Hop Hloc|w th futs Hph Hlen
    |w th i futs reads op f v w' x' Hph Hop Hf Ha|w th i futs reads op f w' x' Hph Hop Hf Ha
    |w th futs reads ref w' Hph Hre|w th op held m k f rest rc reads w' x' Hph Hcl|w th held m f tgt rest rc reads w' x' Hph Hcl
    |w th op held m f tgt rest rc reads msg w' x' Hph Hcl|w th pre op dst m suf n n' eff Hnet Hn Hh _|w th held rc reads Hph Hwait];
    subst w; unfold fuel_left; cbn [set_net set_th th_ph th_ops th_net]; try rewrite Hph in Hl |- *.
  - apply lookup_lt_Some in Hop. rewrite length_app. cbn [length]. lia.
  - destruct (op_row kvs workers S0 s t th op Hi Ht) as (Hm & Hk & [r Hr] & Hne); [by eapply list_elem_of_lookup_2|].
    destruct Hstat as [Hx _ Hid _ Hmb].
    destruct (acquire_inv bm ext kvs workers (s_w s) (th_x th) op (th_id th) r _ w' x' (in_world _ _ _ _ Hi) Hx Hk Hm Hne Hid Hmb Hr Ha)
      as (_ & _ & _ & _ & [fut Href] & _). apply lookup_lt_Some in Hop.
    assert (length (x_log x') ≤ length futs + 1)%nat.
    { destruct (is_local (loc_info op)); [subst x'|destruct Href as [-> _]]; cbn [push_fut push_log set_futs set_log x_log];
        rewrite ?length_app; simpl; lia. }
    lia.
  - apply lookup_lt_Some in Hop. lia.
  - lia.
  - apply lookup_lt_Some in Hop. lia.
  - by destruct (ap_null kvs workers S0 s t th i futs reads op f None w' x' Hi Ht Hph Hop Hf Ha).
  - lia.
  - simpl. lia.
  - simpl. lia.
  - rewrite net_fuel_app, net_fuel_cons. cbn [length fst snd]. change (net_fuel []) with 0%nat. destruct (is_put_req _); lia.
  - destruct (net_step bm kvs workers S0 s t th pre suf op dst m Hi Ht Hnet n n' eff Hn Hh) as (_ & _ & _ & _ & _ & Hsent).
    rewrite Hnet, !net_fuel_app, net_fuel_cons. cbn [fst snd]. destruct (is_put_req m).
    + destruct Hsent as (a & -> & Ha). cbn [fmap list_fmap]. rewrite net_fuel_cons. cbn [fst snd]. rewrite Ha.
      change (net_fuel []) with 0%nat. lia.
    + rewrite Hsent. cbn [fmap list_fmap]. change (net_fuel []) with 0%nat. lia.
  - simpl. lia.
Qed.

Definition total_fuel (ths : list thread) : nat := foldr (λ th n, fuel_left th + n)%nat 0%nat ths.

Lemma total_fuel_insert ths t th th' :
  ths !! t = Some th → (total_fuel (<[t := th']> ths) + fuel_left th = total_fuel ths + fuel_left th')%nat.
Proof.
  revert t. induction ths as [|th0 ths IH]; intros [|t] Ht; simplify_eq/=; [lia|]. specialize (IH t Ht). unfold total_fuel in *. lia.
Qed.

Lemma steps_fuel S0 k s s' :
  inv kvs workers S0 s → nsteps (sstep bm ext) k s s' → (k + total_fuel (s_ths s') ≤ total_fuel (s_ths s))%nat.
Proof.
  intros Hi Hn. induction Hn as [s|k s s1 s' Hst _ IH]; [lia|].
  specialize (IH (inv_sstep bm ext kvs workers S0 s s1 Hi Hst)). destruct Hst as [s t th w' th' Ht Hst].
  pose proof (tstep_fuel S0 s t th w' th' Hi Ht Hst). pose proof (total_fuel_insert (s_ths s) t th th' Ht). cbn [s_ths] in IH. lia.
Qed.

End run.

(** ** Running a schedule *)

(** The next step of a thread, computed: a schedule is a list of thread
    numbers. *)
Section schedule.
Context (bm : build) (ext : externals).

Definition tnext (w : world) (th : thread) : option (world * thread) :=
  match th_ph th with
  | Locking futs =>
      match th_ops th !! length futs with
      | Some op =>
          match acquire bm ext (op_mode op) w (th_x th) op (th_id th) with
          | Ok (Some f, w', x') => Some (w', set_th th x' (Locking (futs ++ [f])))
          | Ok (None, w', x') => Some (w', set_th th x' (Releasing (take (length futs) (th_ops th)) (x_log x') ROLLBACK []))
          | Fail _ => None
          end
      | None => if decide (length futs = length (th_ops th)) then Some (w, set_th th (th_x th) (Applying 0 futs [])) else None
      end
  | Applying i futs reads =>
      match th_ops th !! i, futs !! i with
      | Some op, Some f =>
          match apply_op (th_stamp th) w (th_x th) op f with
          | Ok (Some v, w', x') =>
              Some (w', set_th th x' (Applying (S i) futs (match v with Some z => reads ++ [z] | None => reads end)))
          | Ok (None, w', x') => Some (w', set_th th x' (Releasing (th_ops th) (x_log x') ROLLBACK []))
          | Fail _ => None
          end
      | _, _ =>
          if decide (i = length (th_ops th)) then
            match reserve (th_stamp th) (x_tid (th_x th), 0%nat) w (th_x th) with
            | Ok w' => Some (w', set_th th (th_x th) (Releasing (th_ops th) (x_log (th_x th)) COMMIT reads))
            | Fail _ => None
            end
          else None
      end
  | Releasing held (a :: rest) rc reads =>
      match clear_action w (th_x th) a, a, held with
      | Ok ([], w', x'), ALocal _ _ _, op :: held' => Some (w', set_th th x' (Releasing held' rest rc reads))
      | Ok ([], w', x'), ARemote _ _ _, _ => Some (w', set_th th x' (Releasing held rest rc reads))
      | Ok ([msg], w', x'), ARemote _ _ _, op :: held' =>
          Some (w', set_net (set_th th x' (Releasing held' rest rc reads)) (th_net th ++ [(op, msg)]))
      | _, _, _ => None
      end
  | Releasing held [] rc reads =>
      match wait_puts w (th_x th) with
      | Ok _ => Some (w, set_th th (set_futs [] (set_log [] (th_x th))) (Finished rc reads))
      | Fail _ => None
      end
  | Finished _ _ => None
  end.

(** The network hands over message [k] of a thread. *)
Definition nnext (k : nat) (w : world) (th : thread) : option (world * thread) :=
  '(op, (dst, m)) ← th_net th !! k;
  n ← w !! Z.to_nat dst;
  match handle bm n m with
  | Ok (n', MkEffects out None) =>
      Some (<[Z.to_nat dst := n']> w, set_net th (take k (th_net th) ++ drop (S k) (th_net th) ++ (pair op <$> out)))
  | _ => None
  end.

Lemma tnext_sound w th w' th' : tnext w th = Some (w', th') → tstep bm ext w th w' th'.
Proof.
  unfold tnext. intros H. destruct (th_ph th) as [futs|i futs reads|held [|a rest] rc reads|] eqn:Hph; [| | | |done].
  - destruct (th_ops th !! length futs) as [op|] eqn:Hop.
    + destruct (acquire _ _ _ _ _ _ _) as [[[[f|] w1] x1]|] eqn:Ha; simplify_eq; [by eapply t_lock|by eapply t_refuse].
    + case_decide; simplify_eq. by eapply t_locked.
  - assert (i = length (th_ops th) → ∀ w1, reserve (th_stamp th) (x_tid (th_x th), 0%nat) w (th_x th) = Ok w1 →
      tstep bm ext w th w1 (set_th th (th_x th) (Releasing (th_ops th) (x_log (th_x th)) COMMIT reads))) as Hend.
    { intros -> w1 Hre. by eapply t_applied. }
    destruct (th_ops th !! i) as [op|] eqn:Hop; [destruct (futs !! i) as [f|] eqn:Hf|].
    + destruct (apply_op _ _ _ _ _) as [[[[v|] w1] x1]|] eqn:Ha; simplify_eq; [by eapply t_apply|by eapply t_null].
    + case_decide; [|done]. apply lookup_lt_Some in Hop. lia.
    + case_decide; [|done]. destruct (reserve _ _ _ _) as [w1|] eqn:Hre; simplify_eq. by apply Hend.
  - destruct (wait_puts _ _) as [[]|] eqn:Hwp; simplify_eq. by eapply t_done.
  - destruct (clear_action _ _ _) as [[[[|msg [|]] w1] x1]|] eqn:Hc; [| | |done];
      (destruct a as [m k f|m f tgt]; [destruct held as [|op held]|]); simplify_eq;
      first [by eapply t_release|by eapply t_skip|idtac].
    all: destruct held as [|op held]; simplify_eq; by eapply t_send.
Qed.

Lemma nnext_sound k w th w' th' : nnext k w th = Some (w', th') → tstep bm ext w th w' th'.
Proof.
  unfold nnext. intros H. destruct (th_net th !! k) as [[op [dst m]]|] eqn:Hk; [|done]. cbn in H.
  destruct (w !! Z.to_nat dst) as [n|] eqn:Hn; [|done]. cbn in H.
  destruct (handle bm n m) as [[n' [out [c|]]]|] eqn:Hh; simplify_eq.
  eapply (t_net bm ext w th (take k (th_net th)) op dst m (drop (S k) (th_net th)) n n' (MkEffects out None)); try done.
  by rewrite take_drop_middle.
Qed.

(** A schedule: the worker of a thread, or the network with one of its
    messages. *)
Fixpoint run_schedule (sched : list (nat * option nat)) (s : sysst) : option sysst :=
  match sched with
  | [] => Some s
  | (t, who) :: sched' =>
      th ← s_ths s !! t;
      '(w', th') ← match who with None => tnext (s_w s) th | Some k => nnext k (s_w s) th end;
      run_schedule sched' (MkSysSt w' (<[t := th']> (s_ths s))
                                   (if is_locked_step th th' then s_order s ++ [t] else s_order s))
  end.

Lemma run_schedule_sound sched s s' : run_schedule sched s = Some s' → nsteps (sstep bm ext) (length sched) s s'.
Proof.
  revert s. induction sched as [|[t who] sched IH]; intros s; cbn [run_schedule]; [intros [= ->]; constructor|].
  destruct (s_ths s !! t) as [th|] eqn:Ht; [|done]. cbn [mbind option_bind].
  destruct (match who with None => _ | Some k => _ end) as [[w' th']|] eqn:Hn; [|done]. cbn [mbind option_bind]. intros Hr.
  econstructor; [|by apply IH]. constructor; [done|]. destruct who; [by eapply nnext_sound|by apply tnext_sound].
Qed.
End schedule.

(** ** An example

    Two nodes with two rows each.  A worker of node 0 reads row 0 of its node
    and writes row 1 of node 1; a worker of node 1 reads row 0 of node 0 and
    writes row 0 of its own node. *)
Module Demo.
Definition row (v : Z) : Row := MkRow INVALID 0 (MkKV 0 v) (TxnId_make true 0 0).
Definition table (i : Z) : StructTable :=
  MkTable 0 EmptyString 2 2 (MkPart 4 2 (2 * i) (node_of i) (node_of 9)) [row (10 * i); row (10 * i + 1)].
Definition node (i : Z) : Node :=
  MkNodeState i 2 (MkRegistry [table i] ∅) (hot_send_q_make 4) (InitHandler_make 2) 0 [0; 0] 0 ∅.
Definition nodes : world := [node 0; node 1].
Definition ext : externals := MkExt (MkKV 0 0) (MkPass1 (MkHdr [] [] 0 [] []) 0 [] []) (MkMacs [] []) true (λ k, Z.of_nat k).
Definition exec (i : nat) : TxnExecutor := MkExec i 0 0 1 0 [] [] [] 0 0 0 0 [].
Definition op (local : bool) (n k : Z) (m : AccessMode) (v : Z) : OP := MkOP k (MkLoc local (node_of n)) m v.
Definition id (n : Z) : TxnId := TxnId_make true n 1.
Definition ops0 : list OP := [op true 0 0 READ 0; op false 1 1 WRITE 55].
Definition ops1 : list OP := [op false 0 0 READ 0; op true 1 0 WRITE 66].
Definition thread0 : thread := MkThread (exec 0) ops0 (id 0) (Some (id 0)) (Locking []) [].
Definition thread1 : thread := MkThread (exec 1) ops1 (id 1) (Some (id 1)) (Locking []) [].
Definition begin : sysst := MkSysSt nodes [thread0; thread1] [].
(** Both workers have a put under way when the network starts to move. *)
Definition schedule : list (nat * option nat) :=
  ((λ t, (t, None)) <$> [0; 1; 1; 0; 1; 0; 0; 1; 1; 0; 0; 1; 1; 1; 0; 0]%nat)
  ++ [(1, Some 0); (0, Some 0); (0, Some 0); (0, None); (1, Some 0); (1, None)]%nat.
Definition final : sysst := default begin (run_schedule default_build ext schedule begin).

Lemma nodes_ok : world_ok 0 2 nodes.
Proof.
  split; [cbn; lia|]. intros [|[|i]] n Hn; simplify_eq/=; (split; [done|done|done|]);
    eexists; (split_and!; [done|done|done|]); repeat constructor; by vm_compute.
Qed.

Lemma rows_free a r : row_at 0 nodes a = Some r → lock_type r = INVALID ∧ owner_cnt r = 0.
Proof. destruct a as [[|[|i]] [|[|k]]]; cbn; intros; simplify_eq; done. Qed.

Lemma static0 : static_ok 0 2 nodes thread0.
Proof.
  split; [split; cbn; lia| | | |by right].
  - repeat constructor; try (by vm_compute); by eexists.
  - split; by vm_compute.
  - intros i [= <-]. split; by vm_compute.
Qed.

Lemma static1 : static_ok 0 2 nodes thread1.
Proof.
  split; [split; cbn; lia| | | |by right].
  - repeat constructor; try (by vm_compute); by eexists.
  - split; by vm_compute.
  - intros i [= <-]. split; by vm_compute.
Qed.

Lemma demo_start : start 0 2 nodes [thread0; thread1].
Proof.
  split; [apply nodes_ok|apply rows_free| | |by vm_compute| | |].
  - intros [|[|t]] th Ht; simplify_eq/=; [apply static0|apply static1].
  - intros [|[|t]] th Ht; by simplify_eq/=.
  - intros [|[|t]] th Ht; by simplify_eq/=.
  - intros [|[|t]] th Ht; by simplify_eq/=.
  - intros [|[|t1]] [|[|t2]] th1 th2 H1 H2 Hn _; by simplify_eq/=.
Qed.

Lemma demo_run : run_schedule default_build ext schedule begin = Some final.
Proof. by vm_compute. Qed.
End Demo.

Lemma transactions_serializable_witness :
  s_order Demo.final = [1%nat; 0%nat] ∧
  ∃ r, row_at 0 (s_w Demo.final) (1%nat, 1%nat) = Some r ∧ lock_type r = INVALID ∧ kv_value (tuple r) = 55.
Proof.
  split; [by vm_compute|].
  pose proof (transactions_serializable default_build Demo.ext 0 2 Demo.nodes [Demo.thread0; Demo.thread1] Demo.final
    Demo.demo_start (rtc_nsteps_2 _ _ _ (run_schedule_sound _ _ _ _ _ Demo.demo_run))) as (_ & _ & Hall).
  destruct (Hall) with (a := (1%nat, 1%nat)) as (r & Hr & Hl & _ & Hv).
  - intros [|[|t]] th Ht; vm_compute in Ht; [injection Ht as <-; by do 2 eexists..|done].
  - by eexists.
  - exists r. split; [done|]. split; [done|]. rewrite Hv. by vm_compute.
Defined.


