(* ===== verification/ExecSpec.v ===== *)
(** * [my_execute] run alone

    A transaction that runs while no other worker holds a lock: [my_execute]
    returns, and its result and its effect on every row are those of one serial
    transaction or of none. *)
From stdpp Require Import base tactics list numbers gmap relations.
From Stdlib Require Import ZArith Lia.
From S2P Require Import Prelude Types Layout Msg Row Table Mempool SendQ SwitchPkt MsgHandler HotCold Sched Undolog Executor RowAccess Serial SerialSteps Serializability.

(** The operations before the first [INVALID] one, where the loops stop. *)
Fixpoint real_ops (ops : list OP) : list OP :=
  match ops with
  | [] => []
  | op :: ops' => match op_mode op with INVALID => [] | _ => op :: real_ops ops' end
  end.

Section alone.
Context (bm : build) (ext : externals) (kvs : nat) (workers : Z) (S0 : store).
Context (tops : list OP) (id : TxnId) (stamp : option TxnId) (B : addr → bool).

(** A system of one worker, with or without messages under way. *)
Definition busy (w : world) (x : TxnExecutor) (ph : phase) (net : list (OP * (Z * message))) (order : list nat) : sysst :=
  MkSysSt w [MkThread x tops id stamp ph net] order.
Definition one (w : world) (x : TxnExecutor) (ph : phase) (order : list nat) : sysst := busy w x ph [] order.

(** Operation [j] finds its row free of a conflicting lock of an earlier
    operation, and the mini-batch rule lets it in. *)
Definition lockable_at (node : nat) (j : nat) : Prop :=
  ∀ op, tops !! j = Some op →
    B (op_addr node op) = true
    ∧ ∀ i o, (i < j)%nat → tops !! i = Some o → op_addr node o = op_addr node op →
        op_mode o = READ ∧ op_mode op = READ.

(** The mini-batch rule on every row. *)
Definition rule (w : world) : Prop := ∀ a r, row_at kvs w a = Some r → mb_allow_lock bm r id = Ok (B a).

#[local] Abbreviation inv := (inv kvs workers S0).

Lemma busy_step w x ph net w' x' ph' net' order order' :
  inv (busy w x ph net order) → tstep bm ext w (MkThread x tops id stamp ph net) w' (MkThread x' tops id stamp ph' net') →
  order' = (if is_locked_step (MkThread x tops id stamp ph net) (MkThread x' tops id stamp ph' net') then order ++ [0%nat] else order) →
  inv (busy w' x' ph' net' order') ∧ keeps kvs w w'.
Proof.
  intros Hi Hst ->. split; [|by apply (tstep_keeps bm ext kvs workers S0 (busy w x ph net order) 0 (MkThread x tops id stamp ph net) w' (MkThread x' tops id stamp ph' net'))].
  apply (inv_sstep bm ext kvs workers S0 _ _ Hi).
  exact (s_thread bm ext (busy w x ph net order) 0 (MkThread x tops id stamp ph net) w' (MkThread x' tops id stamp ph' net') eq_refl Hst).
Qed.

Lemma one_step w x ph w' x' ph' order order' :
  inv (one w x ph order) → tstep bm ext w (MkThread x tops id stamp ph []) w' (MkThread x' tops id stamp ph' []) →
  order' = (if is_locked_step (MkThread x tops id stamp ph []) (MkThread x' tops id stamp ph' []) then order ++ [0%nat] else order) →
  inv (one w' x' ph' order') ∧ keeps kvs w w'.
Proof. apply busy_step. Qed.

(** A row is compatible with the next operation exactly when no earlier one
    conflicts. *)
Lemma compatible_alone w x futs order op r :
  inv (one w x (Locking futs) order) → tops !! length futs = Some op →
  row_at kvs w (op_addr (x_node x) op) = Some r →
  is_compatible r (op_mode op) = true ↔
  ∀ i o, (i < length futs)%nat → tops !! i = Some o → op_addr (x_node x) o = op_addr (x_node x) op →
    op_mode o = READ ∧ op_mode op = READ.
Proof.
  intros Hi Hop Hr. set (th := MkThread x tops id stamp (Locking futs) []).
  assert (s_ths (one w x (Locking futs) order) !! 0%nat = Some th) as Ht by done.
  assert (∀ i o, (i < length futs)%nat → tops !! i = Some o → o ∈ held_ops th ∧ op_mode o ≠ INVALID) as Hheld.
  { intros i o Hlt Ho. split; [|apply (op_row kvs workers S0 _ 0 th o Hi Ht); by eapply list_elem_of_lookup_2].
    rewrite held_nil by done. unfold phase_held; cbn [th th_ph th_ops]. apply (list_elem_of_lookup_2 _ i). by rewrite lookup_take_lt. }
  destruct (in_rows _ _ _ _ Hi) as [Hwf Hmode]. destruct (Hwf _ _ Hr) as [(_ & Hz & _) Hc].
  assert (op_mode op ≠ INVALID) as Hm by (apply (op_row kvs workers S0 _ 0 th op Hi Ht); by eapply list_elem_of_lookup_2).
  split.
  - intros Hcomp i o Hlt Ho Ha. destruct (Hheld i o Hlt Ho) as [Hin Hmo].
    pose proof (Hmode _ _ 0%nat th o Hr Ht Hin Ha) as Hl. unfold is_compatible in Hcomp. rewrite Hl in Hcomp.
    clear -Hcomp Hmo Hm. destruct (op_mode o), (op_mode op); try done; cbn in Hcomp; by repeat case_bool_decide.
  - intros Hall. destruct (decide (lock_type r = INVALID)) as [Hl|Hl].
    { unfold is_compatible. by rewrite bool_decide_true. }
    assert (t_count (op_addr (x_node x) op) th ≠ 0)%nat as Hcnt.
    { intros H0. apply Hl, Hz. rewrite Hc. unfold one, busy; cbn [s_ths hcount foldr]. fold th. rewrite H0. done. }
    unfold t_count in Hcnt. destruct (filter _ (held_ops th)) as [|o l] eqn:Ef; [done|].
    assert (o ∈ filter (λ op0, t_addr th op0 = op_addr (x_node x) op) (held_ops th)) as Hin by (rewrite Ef; by left).
    apply list_elem_of_filter in Hin as [Ha Hin]. pose proof (Hmode _ _ 0%nat th o Hr Ht Hin Ha) as Hlo.
    apply list_elem_of_lookup in Hin as [i Hio]. rewrite held_nil in Hio by done. unfold phase_held in Hio; cbn [th th_ph th_ops] in Hio.
    apply lookup_take_Some in Hio as [Hio Hlt]. destruct (Hall i o Hlt Hio Ha) as [Ho Hop'].
    unfold is_compatible. rewrite Hlo, Ho, Hop'. by rewrite !bool_decide_false by naive_solver.
Qed.

(** One lock request of the first loop. *)
Lemma lock_one w x futs op :
  inv (one w x (Locking futs) []) → rule w → tops !! length futs = Some op →
  ∃ res w1 x1, acquire bm ext (op_mode op) w x op id = Ok (res, w1, x1)
    ∧ rule w1 ∧ keeps kvs w w1 ∧ n_send_q <$> w1 = n_send_q <$> w ∧ x_node x1 = x_node x
    ∧ match res with
      | Some f => inv (one w1 x1 (Locking (futs ++ [f])) []) ∧ lockable_at (x_node x) (length futs)
      | None => inv (one w1 x1 (Releasing (take (length futs) tops) (x_log x1) ROLLBACK []) [])
                ∧ ¬ lockable_at (x_node x) (length futs)
      end.
Proof.
  intros Hi Hrule Hop. set (th := MkThread x tops id stamp (Locking futs) []).
  assert (s_ths (one w x (Locking futs) []) !! 0%nat = Some th) as Ht by done.
  assert (op ∈ tops) as Hin by by eapply list_elem_of_lookup_2.
  destruct (op_row kvs workers S0 _ 0 th op Hi Ht Hin) as (Hm & Hk & [r Hr] & Hne).
  destruct (lock_go bm ext kvs workers S0 _ 0 th Hi Ht op Hin) as [[[res w1] x1] Ha].
  { intros r0 Hr0. eexists. by apply Hrule. }
  cbn [s_w one busy th th_x th_id] in Ha. destruct (in_static _ _ _ _ Hi 0%nat th Ht) as [Hx _ Hid _ Hmb].
  destruct (acquire_inv bm ext kvs workers w x op id r res w1 x1 (in_world _ _ _ _ Hi) Hx Hk Hm Hne Hid Hmb Hr Ha) as (_ & Hq & _ & Hres).
  pose proof (compatible_alone w x futs [] op r Hi Hop Hr) as Hcomp. pose proof (Hrule _ _ Hr) as HB.
  exists res, w1, x1. split; [done|]. pose proof (frame_node _ _ (acquire_frame _ _ _ _ _ _ _ _ _ _ Ha)) as Hnode. destruct res as [f|].
  - destruct Hres as (-> & [Hc Hb] & Hrow & _). rewrite HB in Hb. injection Hb as Hb.
    destruct (one_step w x (Locking futs) w1 x1 (Locking (futs ++ [length (x_futs x)])) [] [] Hi) as [Hi' Hkeep]; [exact (t_lock bm ext w th futs op _ w1 x1 eq_refl Hop Ha)|done|].
    split_and!; try done.
    + intros a r0. rewrite Hrow. case_decide as Ha'; [|apply Hrule]. intros [= <-]. subst a. exact HB.
    + intros o Ho. assert (o = op) as -> by congruence. split; [done|]. by apply Hcomp.
  - destruct Hres as (Hrow & _ & Hb).
    destruct (one_step w x (Locking futs) w1 x1 (Releasing (take (length futs) tops) (x_log x1) ROLLBACK []) [] [] Hi)
      as [Hi' Hkeep]; [exact (t_refuse bm ext w th futs op w1 x1 eq_refl Hop Ha)|done|].
    split_and!; try done.
    + intros a r0. rewrite Hrow. apply Hrule.
    + intros Hl. destruct (Hl op Hop) as [Hb' Hall]. apply Hcomp in Hall. specialize (Hb Hall). rewrite HB in Hb. injection Hb as Hb. change (t_addr th op) with (op_addr (x_node x) op) in Hb. congruence.
Qed.

Lemma lock_spec ops w x futs :
  inv (one w x (Locking futs) []) → rule w → drop (length futs) tops = real_ops ops → (length futs ≤ length tops)%nat →
  (∀ j, (j < length futs)%nat → lockable_at (x_node x) j) →
  ∃ res w1 x1, lock_loop bm ext true w x ops id futs = Ok (res, w1, x1)
    ∧ keeps kvs w w1 ∧ n_send_q <$> w1 = n_send_q <$> w ∧ x_node x1 = x_node x
    ∧ match res with
      | Some futs' => inv (one w1 x1 (Locking futs') []) ∧ length futs' = length tops
                      ∧ ∀ j, lockable_at (x_node x) j
      | None => ∃ held, inv (one w1 x1 (Releasing held (x_log x1) ROLLBACK []) []) ∧ ¬ ∀ j, lockable_at (x_node x) j
      end.
Proof.
  revert w x futs. induction ops as [|op ops IH]; intros w x futs Hi Hrule Hdrop Hle Hgood.
  all: assert (drop (length futs) tops = [] → length futs = length tops ∧ ∀ j, lockable_at (x_node x) j) as Hend
    by (intros Hd; apply (f_equal length) in Hd; rewrite length_drop in Hd; cbn [length] in Hd;
        assert (length futs = length tops) by lia; split; [done|]; intros j o Ho; apply Hgood; [|done];
        apply lookup_lt_Some in Ho; lia).
  - do 3 eexists. split; [done|]. split_and!; [by intros a|done|done|done|by apply Hend..].
  - cbn [lock_loop real_ops] in *. destruct (op_mode op) eqn:Em.
    { do 3 eexists. split; [done|]. split_and!; [by intros a|done|done|done|by apply Hend..]. }
    all: assert (tops !! length futs = Some op) as Hop by (by rewrite <-(Nat.add_0_r (length futs)), <-lookup_drop, Hdrop);
      destruct (lock_one w x futs op Hi Hrule Hop) as (res & w1 & x1 & Ha & Hrule1 & Hk1 & Hq1 & Hn1 & Hres);
      rewrite Em in Ha; rewrite Ha; cbn [mbind outcome_bind]; destruct res as [f|];
      [destruct Hres as [Hi1 Hl]|destruct Hres as [Hi1 Hl]; do 3 eexists; split; [done|]; split_and!; try done; eauto].
    all: apply lookup_lt_Some in Hop as Hlt; destruct (IH w1 x1 (futs ++ [f])) as (res2 & w2 & x2 & -> & Hk2 & Hq2 & Hn2 & Hres2);
      [done|done|rewrite length_app; cbn [length]; by rewrite <-drop_drop, Hdrop
      |rewrite length_app; cbn [length]; lia
      |rewrite Hn1, length_app; cbn [length]; intros j Hj; destruct (decide (j = length futs)) as [->|]; [done|apply Hgood; lia]
      |do 3 eexists; split; [done|]; rewrite Hn1 in *; split_and!; [intros a Ha'; by apply Hk2, Hk1|congruence|done|done]].
Qed.

(** One operation of the second loop. *)
Lemma apply_one w x i futs reads op order :
  inv (one w x (Applying i futs reads) order) → tops !! i = Some op →
  ∃ f v w1 x1, futs !! i = Some f ∧ apply_op stamp w x op f = Ok (Some v, w1, x1)
    ∧ keeps kvs w w1 ∧ n_send_q <$> w1 = n_send_q <$> w ∧ x_node x1 = x_node x
    ∧ inv (one w1 x1 (Applying (S i) futs (match v with Some z => reads ++ [z] | None => reads end)) order).
Proof.
  intros Hi Hop. set (th := MkThread x tops id stamp (Applying i futs reads) []).
  pose proof (in_phase _ _ _ _ Hi 0%nat th eq_refl) as (Hle & Hfuts & Hacts). cbn [th th_ops th_x] in Hle, Hfuts, Hacts.
  destruct (lookup_lt_is_Some_2 (x_log x) i) as [act Hact].
  { rewrite <-(ac_len _ _ _ _ _ Hacts). by eapply lookup_lt_Some. }
  assert (futs !! i = Some (act_fut act)) as Hf by (by rewrite Hfuts, list_lookup_fmap, Hact).
  destruct (apply_go kvs workers S0 _ 0 th Hi eq_refl op i act) as [[[res w1] x1] Ha];
    [by eapply list_elem_of_lookup_2|by eapply (ac_hold _ _ _ _ _ Hacts)|apply bool_decide_eq_false; lia|].
  cbn [one busy s_w th th_stamp th_x] in Ha.
  pose proof (ap_applies kvs workers S0 _ 0 th i futs reads op _ res w1 x1 Hi eq_refl eq_refl Hop Hf Ha)
    as (act' & r & _ & _ & Hr & -> & Hw1 & fut' & Hx1 & _).
  destruct (one_step w x (Applying i futs reads) w1 x1
    (Applying (S i) futs (match apply_res op r with Some z => reads ++ [z] | None => reads end)) order order Hi) as [Hi1 Hk1];
    [exact (t_apply bm ext w th i futs reads op _ _ w1 x1 eq_refl Hop Hf Ha)|done|].
  do 4 eexists. split_and!; [done|done|done|rewrite Hw1; apply send_q_set_row|by rewrite Hx1|done].
Qed.

(** The second loop goes through: its futures all see a tuple. *)
Lemma apply_spec ops w x i futs reads order :
  inv (one w x (Applying i futs reads) order) → drop i tops = real_ops ops →
  ∃ reads' w1 x1, apply_loop stamp w x ops (drop i futs) reads = Ok (true, reads', w1, x1)
    ∧ keeps kvs w w1 ∧ n_send_q <$> w1 = n_send_q <$> w ∧ x_node x1 = x_node x
    ∧ inv (one w1 x1 (Applying (length tops) futs reads') order).
Proof.
  revert w x i reads. induction ops as [|op ops IH]; intros w x i reads Hi Hdrop.
  all: pose proof (in_phase _ _ _ _ Hi 0%nat _ eq_refl) as (Hle & _); cbn [th_ops] in Hle;
    assert (drop i tops = [] → i = length tops) as Hend
      by (intros Hd; apply (f_equal length) in Hd; rewrite length_drop in Hd; cbn [length] in Hd; lia).
  - do 3 eexists. split; [done|]. specialize (Hend Hdrop) as ->. split_and!; [by intros a|done..].
  - cbn [real_ops apply_loop] in *. destruct (op_mode op) eqn:Em.
    { do 3 eexists. split; [done|]. specialize (Hend Hdrop) as ->. split_and!; [by intros a|done..]. }
    all: assert (tops !! i = Some op) as Hop by (by rewrite <-(Nat.add_0_r i), <-lookup_drop, Hdrop);
      destruct (apply_one w x i futs reads op order Hi Hop) as (f & v & w1 & x1 & Hf & Ha & Hk1 & Hq1 & Hn1 & Hi1);
      rewrite (drop_S futs _ _ Hf), Ha; cbn [mbind outcome_bind];
      destruct (IH w1 x1 (S i) _ Hi1) as (reads' & w2 & x2 & -> & Hk2 & Hq2 & Hn2 & Hi2);
      [rewrite (drop_S tops _ _ Hop) in Hdrop; by injection Hdrop|];
      do 3 eexists; split; [done|]; split_and!; [intros a Ha'; by apply Hk2, Hk1|congruence|congruence|done].
Qed.

(** The log is cleared entry by entry, the puts are left to the network. *)
Lemma clear_spec acts w x held rc reads net order :
  inv (busy w x (Releasing held acts rc reads) net order) →
  ∃ out w1 x1 held1 net1, clear_actions w x acts = Ok (out, w1, x1)
    ∧ keeps kvs w w1 ∧ x_node x1 = x_node x ∧ net1.*2 = net.*2 ++ out
    ∧ inv (busy w1 x1 (Releasing held1 [] rc reads) net1 order).
Proof.
  revert w x held net. induction acts as [|a acts IH]; intros w x held net Hi.
  - do 5 eexists. split; [done|]. split_and!; [by intros b|done|by rewrite app_nil_r|exact Hi].
  - set (th := MkThread x tops id stamp (Releasing held (a :: acts) rc reads) net).
    destruct (release_go bm ext kvs workers S0 _ 0 th Hi eq_refl held a acts rc reads eq_refl) as (out & w1 & x1 & Hc & held1 & Hst).
    cbn [busy s_w th th_x] in Hc, Hst. cbn [clear_actions]. rewrite Hc. cbn [mbind outcome_bind].
    destruct (busy_step w x _ net w1 x1 (Releasing held1 acts rc reads) _ order order Hi Hst eq_refl) as [Hi1 Hk1].
    destruct (IH w1 x1 _ _ Hi1) as (out2 & w2 & x2 & held2 & net2 & -> & Hk2 & Hn2 & Hnet & Hi2). cbn [mbind outcome_bind].
    do 5 eexists. split; [done|]. split_and!; [intros b Hb; by apply Hk2, Hk1
      |by rewrite Hn2, (frame_node _ _ (clear_frame _ _ _ _ _ _ Hc))| |exact Hi2].
    rewrite Hnet, fmap_app, <-app_assoc. do 2 f_equal. rewrite <-list_fmap_compose. by rewrite list_fmap_id.
Qed.

(** The network hands over all messages, the responses after the requests. *)
Lemma deliver_spec fuel w x held rc reads net order dn :
  inv (busy w x (Releasing held [] rc reads) net order) → (net_fuel net ≤ fuel)%nat →
  ∃ w1, deliver bm fuel w net.*2 dn = Ok (w1, dn) ∧ keeps kvs w w1
    ∧ inv (busy w1 x (Releasing held [] rc reads) [] order).
Proof.
  revert w net. induction fuel as [|fuel IH]; intros w net Hi Hf; destruct net as [|[op [dst m]] net];
    try by (eexists; split; [done|]; split; [by intros b|]).
  - rewrite net_fuel_cons in Hf. destruct (is_put_req _); lia.
  - set (th := MkThread x tops id stamp (Releasing held [] rc reads) ((op, (dst, m)) :: net)).
    destruct (net_handled bm kvs workers S0 _ 0 th [] net op dst m Hi eq_refl eq_refl) as (n & n' & eff & Hn & Hh & Hco & Hi1 & Hk1 & Hs).
    cbn [busy s_w s_ths s_order] in Hn, Hi1, Hk1. cbn [fmap list_fmap snd deliver].
    rewrite (proj2 (aget_ok _ _ _) Hn). cbn [mbind outcome_bind]. rewrite Hh. cbn [mbind outcome_bind]. rewrite Hco.
    destruct (IH (<[Z.to_nat dst := n']> w) (net ++ (pair op <$> sent eff))) as (w1 & Hd & Hk2 & Hi2); [exact Hi1| |].
    { rewrite net_fuel_cons in Hf. cbn [fst snd] in Hf. rewrite net_fuel_app. destruct (is_put_req m).
      - destruct Hs as (a & -> & Ha). cbn [fmap list_fmap]. rewrite net_fuel_cons. cbn [fst snd]. rewrite Ha.
        change (net_fuel []) with 0%nat. lia.
      - rewrite Hs. cbn [fmap list_fmap]. change (net_fuel []) with 0%nat. lia. }
    exists w1. rewrite fmap_app, <-list_fmap_compose in Hd. cbn [compose] in Hd. rewrite list_fmap_id in Hd.
    split; [exact Hd|]. split; [|done]. intros b Hb. by apply Hk2, Hk1.
Qed.

Lemma net_fuel_twice net : (net_fuel net ≤ 2 * length net)%nat.
Proof. induction net as [|e net IH]; [done|]. rewrite net_fuel_cons. cbn [length]. destruct (is_put_req _); lia. Qed.

Lemma end_spec w x held rc reads order :
  inv (one w x (Releasing held (x_log x) rc reads) order) →
  ∃ w1 x1, end_txn bm rc w x = Ok (rc, w1, x1) ∧ keeps kvs w w1 ∧ x_node x1 = x_node x
    ∧ inv (one w1 x1 (Finished rc reads) order).
Proof.
  intros Hi. destruct (clear_spec _ w x held rc reads [] order Hi) as (out & w1 & x1 & held1 & net & Hc & Hk & Hn & Hnet & Hi1).
  cbn [fmap list_fmap app] in Hnet. subst out.
  destruct (deliver_spec (2 * length net.*2) w1 x1 held1 rc reads net order [] Hi1) as (w2 & Hd & Hk2 & Hi2).
  { rewrite length_fmap. apply net_fuel_twice. }
  set (th := MkThread x1 tops id stamp (Releasing held1 [] rc reads) []).
  assert (wait_puts w2 x1 = Ok tt) as Hwait by (by apply (wait_puts_net kvs workers S0 _ 0 th Hi2 eq_refl)).
  unfold end_txn, log_clear, settle. rewrite Hc. cbn [mbind outcome_bind]. rewrite Hd. cbn [mbind outcome_bind].
  rewrite Hwait. cbn [mbind outcome_bind].
  do 2 eexists. split; [done|]. split; [intros b Hb; by apply Hk2, Hk|]. split; [done|].
  apply (one_step w2 x1 _ w2 _ (Finished rc reads) order order Hi2);
    [exact (t_done bm ext w2 th held1 rc reads eq_refl Hwait)|done].
Qed.
End alone.

(** ** The theorem *)

Section theorem.
Context (bm : build) (ext : externals) (kvs : nat) (workers : Z).

(** What a finished transaction, alone in the system, leaves. *)
Lemma alone_finished S0 tops id stamp w x rc reads order :
  inv kvs workers S0 (one tops id stamp w x (Finished rc reads) order) → order = (if bool_decide (rc = COMMIT) then [0%nat] else []) →
  (rc = COMMIT → reads = read_vals (x_node x) S0 tops)
  ∧ ∀ a r, row_at kvs w a = Some r → lock_type r = INVALID ∧ owner_cnt r = 0
      ∧ kv_value (tuple r) = (match rc with COMMIT => write_all (x_node x) S0 tops a | ROLLBACK => S0 a end).
Proof.
  intros Hi Ho. set (th := MkThread x tops id stamp (Finished rc reads) []). split.
  - intros ->. pose proof (finished_reads kvs workers S0 _ 0 th COMMIT reads Hi eq_refl eq_refl) as (before & after & Heq & ->).
    cbn [one busy s_order] in Heq. subst order. rewrite bool_decide_true in Heq by done. by destruct before as [|? []].
  - intros a r Hr. destruct (finished_rows kvs workers S0 _ a r Hi) as (H1 & H2 & H3); [|done|].
    + intros [|t] th' Ht; [|done]. injection Ht as <-. by do 2 eexists.
    + split_and!; [done..|]. rewrite H3. subst order. by destruct rc.
Qed.

(** From the last lock to the end, when the switch queue has room. *)
Lemma commit_alone S0 id cold w x futs ref n slot :
  let ops := real_ops cold in
  inv kvs workers S0 (one ops id (Some id) w x (Locking futs) []) → length futs = length ops → valid id = true →
  w !! x_node x = Some n → alloc_slot (n_send_q n) (mini_batch_id id) ref = Ok slot →
  ∃ reads w2 x2 n2 w3 x3, apply_loop (Some id) w x cold futs [] = Ok (true, reads, w2, x2)
    ∧ aget w2 (x_node x2) = Ok n2 ∧ alloc_slot (n_send_q n2) (mini_batch_num x2) ref = Ok slot
    ∧ commit bm (<[x_node x2 := set_send_q slot.2 n2]> w2) x2 = Ok (COMMIT, w3, x3)
    ∧ keeps kvs w w3 ∧ x_node x3 = x_node x
    ∧ inv kvs workers S0 (one ops id (Some id) w3 x3 (Finished COMMIT reads) [0%nat]).
Proof.
  intros ops Hi Hlen Hvalid Hn Hslot. set (th := MkThread x ops id (Some id) (Locking futs) []).
  destruct (one_step bm ext kvs workers S0 ops id (Some id) w x (Locking futs) w x (Applying 0 futs []) [] [0%nat] Hi)
    as [Hi1 _]; [exact (t_locked bm ext w th futs eq_refl Hlen)|done|].
  destruct (apply_spec bm ext kvs workers _ ops id (Some id) cold w x 0 futs [] [0%nat] Hi1)
    as (reads & w2 & x2 & Hap & Hk2 & Hq2 & Hn2 & Hi2); [done|]. rewrite drop_0 in Hap.
  set (th2 := MkThread x2 ops id (Some id) (Applying (length ops) futs reads) []).
  pose proof (in_static _ _ _ _ Hi2 0%nat th2 eq_refl) as [Hx2 _ _ _ [Hv|Hmb]]; cbn [th2 th_id th_x] in *; [congruence|].
  destruct (lookup_lt_is_Some_2 w2 (x_node x2)) as [n2 Hn']; [apply Hx2|].
  assert (n_send_q n2 = n_send_q n) as Hnq.
  { assert ((n_send_q <$> w2) !! x_node x2 = (n_send_q <$> w) !! x_node x) as He by (by rewrite Hq2, Hn2).
    rewrite !list_lookup_fmap, Hn, Hn' in He. by injection He. }
  rewrite Hmb, <-Hnq in Hslot. destruct slot as [buf q']. apply aget_ok in Hn' as Hg.
  destruct (one_step bm ext kvs workers S0 ops id (Some id) w2 x2 (Applying (length ops) futs reads) (<[x_node x2 := set_send_q q' n2]> w2) x2
    (Releasing ops (x_log x2) COMMIT reads) [0%nat] [0%nat] Hi2) as [Hi3 Hk3]; [|done|].
  { refine (t_applied bm ext w2 th2 futs reads ref _ eq_refl _). cbn [th2 th_stamp th_x reserve].
    rewrite Hg. cbn [mbind outcome_bind]. by rewrite Hslot. }
  destruct (end_spec bm ext kvs workers _ ops id (Some id) _ x2 ops COMMIT reads [0%nat] Hi3) as (w4 & x4 & Hend & Hk4 & Hn4 & Hi4).
  exists reads, w2, x2, n2, w4, x4. split_and!; try done; [|congruence]. intros a Ha. by apply Hk4, Hk3, Hk2.
Qed.

(** C5: [my_execute] is atomic.  Run on a node while no lock is held anywhere,
    with the mini-batch assertion true on every row and room in the switch
    queue, [my_execute] returns.  It commits exactly when the mini-batch rule
    admits every row it names and no two of its operations, one of them a
    write, name the same row (so a transaction that names a row twice and
    writes it can never commit, however often it is retried).  If it commits,
    its reads saw the values before the transaction and each row it writes has
    the written value; if it rolls back, every row has its old value; in both
    cases all locks are free again. *)
Theorem my_execute_atomic w x arg ref B :
  let id := set_valid true (txn_id arg) in
  let ops := real_ops (cold_ops arg) in
  start kvs workers w [MkThread x ops id (Some id) (Locking []) []] →
  rule bm kvs id B w →
  (∀ n, w !! x_node x = Some n → ∃ slot, alloc_slot (n_send_q n) (mini_batch_num x) ref = Ok slot) →
  ∃ res arg' w' x', my_execute bm ext w x arg ref = Ok (res, arg', w', x')
    ∧ (r_rc res = COMMIT ↔ ∀ j, lockable_at ops B (x_node x) j)
    ∧ (r_rc res = COMMIT → r_reads res = read_vals (x_node x) (store_of kvs w) ops ∧ is_Some (r_fill res))
    ∧ ∀ a r, row_at kvs w a = Some r → ∃ r', row_at kvs w' a = Some r'
        ∧ lock_type r' = INVALID ∧ owner_cnt r' = 0
        ∧ kv_value (tuple r') = (match r_rc res with
                                 | COMMIT => write_all (x_node x) (store_of kvs w) ops a
                                 | ROLLBACK => kv_value (tuple r)
                                 end).
Proof.
  intros id ops Hs Hrule Hroom. pose proof (start_inv kvs workers _ _ Hs) as Hi.
  pose proof (in_static _ _ _ _ Hi 0%nat _ eq_refl) as [Hx _ _ _ [Hv|Hmb]]; [done|]. cbn [th_id th_x] in Hmb.
  assert (∀ a r, row_at kvs w a = Some r → store_of kvs w a = kv_value (tuple r)) as Hst.
  { intros a r Hr. unfold store_of. by rewrite Hr. }
  unfold my_execute. fold id. rewrite (proj2 (Z.eqb_eq _ _) Hmb). cbn [assert mbind outcome_bind set_id cold_ops].
  destruct (lock_spec bm ext kvs workers (store_of kvs w) ops id (Some id) B (cold_ops arg) w x []) as (res & w1 & x1 & -> & Hk1 & Hq1 & Hn1 & Hres);
    [done|done|done|cbn; lia|cbn; lia|]. cbn [mbind outcome_bind]. destruct res as [futs|].
  - destruct Hres as (Hi1 & Hlen & Hgood).
    destruct (lookup_lt_is_Some_2 w (x_node x)) as [n Hn]; [apply Hx|]. destruct (Hroom n Hn) as [slot Hslot].
    assert (∃ n1, w1 !! x_node x1 = Some n1 ∧ n_send_q n1 = n_send_q n) as (n1 & Hn1' & Hnq).
    { assert ((n_send_q <$> w1) !! x_node x1 = (n_send_q <$> w) !! x_node x) as He by (by rewrite Hq1, Hn1).
      rewrite !list_lookup_fmap, Hn in He. destruct (w1 !! x_node x1) as [n1|]; [|done]. injection He as He. by exists n1. }
    rewrite <-Hnq, <-Hmb in Hslot.
    destruct (commit_alone _ id (cold_ops arg) w1 x1 futs ref n1 slot Hi1 Hlen eq_refl Hn1' Hslot)
      as (reads & w2 & x2 & n2 & w4 & x4 & -> & Hg & Hal & Hend & Hk4 & Hn4 & Hi4).
    cbn [mbind outcome_bind negb]. rewrite Hg. cbn [mbind outcome_bind]. rewrite Hal. destruct slot as [buf q'].
    cbn [mbind outcome_bind snd] in *. rewrite Hend. cbn [mbind outcome_bind]. do 4 eexists. split; [done|]. cbn [r_rc r_reads r_fill].
    destruct (alone_finished _ _ _ _ _ _ _ _ _ Hi4 eq_refl) as [Hreads Hrows]. rewrite Hn4, Hn1 in Hreads, Hrows.
    split_and!; [done|by split; [apply Hreads|eexists]|].
    intros a r Hr. destruct (Hk4 a) as [r' Hr']; [apply Hk1; by eexists|]. exists r'. split; [done|]. by apply Hrows.
  - destruct Hres as (held & Hi1 & Hbad).
    destruct (end_spec bm ext kvs workers _ ops id (Some id) w1 x1 held ROLLBACK [] [] Hi1) as (w4 & x4 & Hend & Hk4 & Hn4 & Hi4).
    unfold rollback. rewrite Hend. cbn [mbind outcome_bind]. do 4 eexists. split; [done|]. cbn [r_rc r_reads r_fill].
    destruct (alone_finished _ _ _ _ _ _ _ _ _ Hi4 eq_refl) as [_ Hrows].
    split_and!; [by split|done|]. intros a r Hr. destruct (Hk4 a) as [r' Hr']; [apply Hk1; by eexists|]. exists r'. split; [done|].
    rewrite <-(Hst a r Hr). by apply Hrows.
Qed.
End theorem.

(** The transaction of [Demo]'s first worker, and one that names a row twice. *)
Definition demo_txn (ops : list OP) : Txn :=
  MkTxn ops [] [] true true 0 None None 0 0 (TxnId_make true 0 1) 0.

Lemma my_execute_atomic_witness :
  ∃ res arg' w' x', my_execute default_build Demo.ext Demo.nodes (Demo.exec 0) (demo_txn Demo.ops0) (0, 0%nat) = Ok (res, arg', w', x')
    ∧ r_rc res = COMMIT ∧ r_reads res = [0].
Proof.
  destruct (my_execute_atomic default_build Demo.ext 0 2 Demo.nodes (Demo.exec 0) (demo_txn Demo.ops0) (0, 0%nat) (λ _, true))
    as (res & arg' & w' & x' & Heq & Hc & Hr & _).
  - split; [apply Demo.nodes_ok|apply Demo.rows_free| | |by vm_compute| | |].
    + intros [|t] th Ht; simplify_eq/=. apply Demo.static0.
    + intros [|t] th Ht; by simplify_eq/=.
    + intros [|t] th Ht; by simplify_eq/=.
    + intros [|t] th Ht; by simplify_eq/=.
    + intros [|t1] [|t2] th1 th2 H1 H2 _ _; by simplify_eq/=.
  - intros [[|[|i]] [|[|k]]] r Hr; cbn in Hr; simplify_eq; by vm_compute.
  - intros n Hn. vm_compute in Hn. injection Hn as <-. eexists. by vm_compute.
  - assert (r_rc res = COMMIT) as Hcom.
    { apply Hc. clear. intros [|[|j]] op Hop; cbn in Hop; simplify_eq; (split; [done|]); intros [|[|i]] o Hlt Ho; cbn in Ho; simplify_eq; try lia.
      by intros ?%(f_equal fst). }
    exists res, arg', w', x'. split; [exact Heq|]. split; [exact Hcom|]. destruct (Hr Hcom) as [-> _]. by vm_compute.
Defined.

