(* ===== verification/ExecLoops.v ===== *)
(** * The loops that run a batch

    Which transactions a batch commits, defers or drops: [run_txn] and the
    loops of [txn_executor], [run_leftover_txns], and the conversion of hot
    operations back into cold ones. *)
From stdpp Require Import base tactics list numbers gmap relations strings.
From Stdlib Require Import ZArith Lia.
From S2P Require Import Prelude Types Layout Msg Row Table Mempool SendQ SwitchPkt MsgHandler HotCold Sched Undolog Executor RowAccess Serial SerialSteps Serializability.

#[local] Arguments N_OPS : simpl never.

(** ** What executing a transaction leaves of the worker *)

Section frames.
Context (bm : build) (ext : externals).

Lemma lock_loop_frame short w x ops id futs res w' x' :
  lock_loop bm ext short w x ops id futs = Ok (res, w', x') → framed x x'.
Proof.
  revert w x futs. induction ops as [|op ops IH]; intros w x futs H; cbn [lock_loop] in H; [by minv|].
  destruct (op_mode op); minv; [done|..]; destruct r as [[[f|] w1] x1]; minv;
    (eapply framed_trans; [exact (acquire_frame _ _ _ _ _ _ _ _ _ _ E)|]); first [done|by eapply IH].
Qed.

Lemma apply_loop_frame stamp w x ops futs reads res w' x' :
  apply_loop stamp w x ops futs reads = Ok (res, w', x') → framed x x'.
Proof.
  revert w x futs reads. induction ops as [|op ops IH]; intros w x futs reads H; cbn [apply_loop] in H; [by minv|].
  destruct (op_mode op); [by minv|..]; (destruct futs as [|f futs]; [done|]); minv; destruct r as [[[v|] w1] x1]; minv;
    (eapply framed_trans; [exact (apply_frame _ _ _ _ _ _ _ _ E)|]); first [done|by eapply IH].
Qed.

Lemma end_txn_frame rc w x rc' w' x' : end_txn bm rc w x = Ok (rc', w', x') → rc' = rc ∧ framed x x'.
Proof.
  unfold end_txn, log_clear. intros H. minv. destruct r as [w1 x1]. minv. destruct r0 as [[out w2] x2]. minv. split; [done|].
  exact (clear_actions_frame _ _ _ _ _ _ E0).
Qed.

Lemma my_execute_frame w x arg ref res arg' w' x' :
  my_execute bm ext w x arg ref = Ok (res, arg', w', x') →
  framed x x' ∧ arg' = set_id (set_valid true (txn_id arg)) arg ∧ (r_rc res = COMMIT → is_Some (r_fill res)).
Proof.
  unfold my_execute. intros H. minv. destruct r0 as [[locked w1] x1]. apply lock_loop_frame in E0. clear E r.
  destruct locked as [futs|]; minv.
  - destruct r as [[[ok reads] w2] x2]. apply apply_loop_frame in E. destruct ok; cbn [negb] in H; minv.
    + destruct r0 as [buf q']. minv. destruct r0 as [[rc w3] x3]. apply end_txn_frame in E3 as [-> Hf]. minv.
      split_and!; [eauto using framed_trans|done|by eexists].
    + destruct r as [[rc w3] x3]. apply end_txn_frame in E1 as [-> Hf]. minv. split_and!; [eauto using framed_trans|done|done].
  - destruct r as [[rc w3] x3]. apply end_txn_frame in E as [-> Hf]. minv. split_and!; [eauto using framed_trans|done|done].
Qed.

Lemma execute_frame L now w x arg res arg' w' x' :
  execute bm ext L now w x arg = Ok (res, arg', w', x') →
  leftover_txns x' = leftover_txns x ∧ x_built x' = x_built x
  ∧ n_commits x' = (match r_rc res with COMMIT => u64 (n_commits x + 1) | ROLLBACK => n_commits x end).
Proof.
  unfold execute. intros H. minv. destruct r as [[locked w1] x1]. apply lock_loop_frame in E.
  destruct locked as [futs|]; minv.
  - destruct r as [[[ok reads] w2] x2]. apply apply_loop_frame in E0. pose proof (framed_trans _ _ _ E E0) as (H1 & H2 & H3)%framed_account.
    destruct ok; cbn [negb] in H; minv.
    + destruct r0 as [[rc w3] x3]. apply end_txn_frame in E2 as [-> Hf]. apply framed_account in Hf as (F1 & F2 & F3). minv. cbn [r_rc].
      assert (leftover_txns r = leftover_txns x2 ∧ x_built r = x_built x2 ∧ n_commits r = n_commits x2) as (R1 & R2 & R3).
      { destruct (do_accel _); [|by minv]. unfold atomic in E1. minv. by destruct (ext_reply ext). }
      cbn [add_commits set_stats leftover_txns x_built n_commits set_ts] in *. split_and!; congruence.
    + destruct r as [[rc w3] x3]. apply end_txn_frame in E1 as [-> Hf]. apply framed_account in Hf as (F1 & F2 & F3). minv.
      cbn [add_aborts set_stats leftover_txns x_built n_commits set_ts r_rc] in *. split_and!; congruence.
  - apply framed_account in E as (H1 & H2 & H3).
    destruct r as [[rc w3] x3]. apply end_txn_frame in E0 as [-> Hf]. apply framed_account in Hf as (F1 & F2 & F3). minv.
    cbn [add_aborts set_stats leftover_txns x_built n_commits set_ts r_rc] in *. split_and!; congruence.
Qed.
End frames.

(** ** Accounting *)

(** From queue [q] to queue [q'], with the entries [done] committed: every
    entry is still queued, committed (a packet was built for it) or deferred
    to the leftover queue. *)
Record accounted (q q' : list nat) (x x' : TxnExecutor) (done : list nat) : Prop := {
  ac_perm : q ++ leftover_txns x ≡ₚ q' ++ done ++ leftover_txns x';
  ac_built : length (x_built x') = (length (x_built x) + length done)%nat;
  ac_commits : u64 (n_commits x') = u64 (n_commits x + Z.of_nat (length done));
}.

Lemma accounted_refl q x : accounted q q x x [].
Proof. split; [done|cbn; lia|cbn; f_equal; lia]. Qed.

Lemma accounted_trans q1 q2 q3 x1 x2 x3 d1 d2 :
  accounted q1 q2 x1 x2 d1 → accounted q2 q3 x2 x3 d2 → accounted q1 q3 x1 x3 (d1 ++ d2).
Proof.
  intros [P1 B1 C1] [P2 B2 C2]. split.
  - rewrite P1. rewrite (Permutation_app_comm d1), app_assoc, P2. solve_Permutation.
  - rewrite length_app. lia.
  - rewrite C2, length_app. unfold wrap in *. rewrite <-Zplus_mod_idemp_l, C1, Zplus_mod_idemp_l. f_equal. lia.
Qed.

(** Queues that take no part. *)
Lemma accounted_app q q' r x x' done : accounted q q' x x' done → accounted (q ++ r) (q' ++ r) x x' done.
Proof.
  intros [P B C]. split; [|done|done]. rewrite <-!app_assoc, (Permutation_app_comm r), app_assoc, P.
  solve_Permutation.
Qed.

Lemma accounted_perm q q' p p' x x' done : q ≡ₚ p → q' ≡ₚ p' → accounted q q' x x' done → accounted p p' x x' done.
Proof. intros Hq Hq' [P B C]. split; [|done|done]. by rewrite <-Hq, <-Hq'. Qed.

Lemma accounted_x q q' x y x' y' done :
  leftover_txns y = leftover_txns x → x_built y = x_built x → n_commits y = n_commits x →
  leftover_txns y' = leftover_txns x' → x_built y' = x_built x' → n_commits y' = n_commits x' →
  accounted q q' x x' done → accounted q q' y y' done.
Proof. intros H1 H2 H3 H4 H5 H6 [P B C]. split; by rewrite ?H1, ?H2, ?H3, ?H4, ?H5, ?H6. Qed.

Section loops.
Context (bm : build) (ext : externals).

(** ** What a worker runs *)

(** The state a worker's loops pass on. *)
#[local] Abbreviation wstate := (list Txn * world * TxnExecutor)%type.

(** The result of the [my_execute] that [run_txn] calls for entry [e]; none when
    the transaction is not accelerated. *)
Definition run_rc (nid : Z) (e : nat) (c : wstate) : option RC :=
  let '(txns, w, x) := c in
  match entry_to_txn txns e with
  | Ok txn0 =>
      let txn := set_id (TxnId_make true nid (mini_batch_num x)) txn0 in
      if do_accel txn
      then match my_execute bm ext w x txn (x_tid x, e) with Ok (res, _, _, _) => Some (r_rc res) | Fail _ => None end
      else None
  | Fail _ => None
  end.

(** The calls of [run_txn] that lead from one state to another, in order, each
    with its entry and the result of [my_execute]; between two of them the
    mini-batch number may advance. *)
Inductive txn_runs (L : DeclusteredLayout) (nid : Z) : list (nat * option RC) → wstate → wstate → Prop :=
| tr_nil c : txn_runs L nid [] c c
| tr_run ea e q q' txns w x txns' w' x' tr c :
    run_txn bm ext L nid ea (e :: q) txns w x = Ok (q', txns', w', x') →
    txn_runs L nid tr (txns', w', x') c →
    txn_runs L nid ((e, run_rc nid e (txns, w, x)) :: tr) (txns, w, x) c
| tr_next tr txns w x mb c : txn_runs L nid tr (txns, w, set_mb mb x) c → txn_runs L nid tr (txns, w, x) c.

(** The entries whose [my_execute] committed, in the order of the calls. *)
Definition committed (tr : list (nat * option RC)) : list nat :=
  omap (λ er, if bool_decide (er.2 = Some COMMIT) then Some er.1 else None) tr.

Lemma committed_app tr tr' : committed (tr ++ tr') = committed tr ++ committed tr'.
Proof. apply omap_app. Qed.

Lemma txn_runs_app L nid tr1 tr2 c1 c2 c3 :
  txn_runs L nid tr1 c1 c2 → txn_runs L nid tr2 c2 c3 → txn_runs L nid (tr1 ++ tr2) c1 c3.
Proof.
  intros H1 H2. induction H1 as [c|ea e q q' txns w x txns' w' x' tr c Hr _ IH|tr txns w x mb c _ IH]; [done| |].
  - exact (tr_run _ _ _ _ _ _ _ _ _ _ _ _ _ _ Hr (IH H2)).
  - exact (tr_next _ _ _ _ _ _ _ _ (IH H2)).
Qed.

Lemma run_txn_accounts L nid ea e q0 txns w x q' txns' w' x' :
  run_txn bm ext L nid ea (e :: q0) txns w x = Ok (q', txns', w', x') →
  accounted (e :: q0) q' x x' (committed [(e, run_rc nid e (txns, w, x))])
  ∧ (ea = false → q0 = q') ∧ ∀ k, k ∈ q' → k ∈ e :: q0.
Proof.
  unfold run_txn. intros H. unfold run_rc. apply bind_ok in H as (txn0 & Etxn & H). rewrite Etxn. minv.
  destruct (do_accel _) eqn:Eacc; [apply bind_ok in H as ([[[res txn1] w1] x1] & Emy & H); rewrite Emy|]; minv.
  - apply my_execute_frame in Emy as (Hf & -> & Hfill).
    apply framed_account in Hf as (F1 & F2 & F3). destruct (r_rc res); minv; unfold committed; cbn [omap list_omap fst snd].
    + destruct (r_fill res) as [buf|]; minv. rewrite bool_decide_true by done. split; [|split; [done|set_solver]].
      split; cbn [set_built add_commits set_stats leftover_txns x_built n_commits length]; rewrite ?F1, ?F2, ?F3, ?length_app.
      * solve_Permutation.
      * done.
      * apply wrap_wrap.
    + rewrite bool_decide_false by done. destruct (ea && _) eqn:Eq; minv.
      * apply andb_prop in Eq as [-> _]. split; [|split; [done|set_solver]].
        split; cbn [add_aborts set_stats leftover_txns x_built n_commits length]; rewrite ?F1, ?F2, ?F3; [solve_Permutation|lia|f_equal; lia].
      * destruct r2 as [cold cold_p]. minv. split; [|split; [done|set_solver]].
        split; cbn [set_leftover add_fallbacks add_aborts set_stats leftover_txns x_built n_commits length];
          rewrite ?F1, ?F2, ?F3; [solve_Permutation|lia|f_equal; lia].
  - split; [|split; [done|set_solver]]. unfold committed; cbn [omap list_omap fst snd]. rewrite bool_decide_false by done.
    split; cbn [set_leftover add_fallbacks set_stats leftover_txns x_built n_commits length]; [solve_Permutation|lia|f_equal; lia].
Qed.

(** One call in front of a run of calls. *)
Lemma accounted_cons L nid ea e q0 txns w x q1 txns1 w1 x1 tr c q2 x2 :
  run_txn bm ext L nid ea (e :: q0) txns w x = Ok (q1, txns1, w1, x1) → txn_runs L nid tr (txns1, w1, x1) c →
  accounted q1 q2 x1 x2 (committed tr) →
  ∃ tr', txn_runs L nid tr' (txns, w, x) c ∧ accounted (e :: q0) q2 x x2 (committed tr').
Proof.
  intros Hr Ht Ha. exists ((e, run_rc nid e (txns, w, x)) :: tr). split; [by eapply tr_run|].
  apply run_txn_accounts in Hr as [H1 _]. rewrite (committed_app [_] tr : committed (_ :: tr) = _).
  exact (accounted_trans _ _ _ _ _ _ _ _ H1 Ha).
Qed.

Lemma mini_batch_accounts fuel L nid q txns w x q' txns' w' x' :
  mini_batch bm ext fuel L nid q txns w x = Ok (q', txns', w', x') →
  (∃ tr, txn_runs L nid tr (txns, w, x) (txns', w', x') ∧ accounted q q' x x' (committed tr)) ∧ ∀ k, k ∈ q' → k ∈ q.
Proof.
  revert q txns w x. induction fuel as [|fuel IH]; intros q txns w x H; cbn [mini_batch] in H.
  - minv. split; [|done]. exists []. split; [constructor|apply accounted_refl].
  - destruct q as [|e q0]; [minv; split; [|done]; exists []; split; [constructor|apply accounted_refl]|].
    minv. destruct r as [[[q1 txns1] w1] x1]. apply IH in H as [(tr & Ht & Ha) Hsub].
    split; [by eapply accounted_cons|]. intros k Hk. apply run_txn_accounts in E as (_ & _ & Hs). auto.
Qed.

Lemma drain_accounts fuel L nid q txns w x txns' w' x' :
  drain bm ext fuel L nid q txns w x = Ok (txns', w', x') →
  ∃ tr, txn_runs L nid tr (txns, w, x) (txns', w', x') ∧ accounted q [] x x' (committed tr).
Proof.
  revert q txns w x. induction fuel as [|fuel IH]; intros q txns w x H; cbn [drain] in H;
    (destruct q as [|e q0]; [minv; exists []; split; [constructor|apply accounted_refl]|]); [done|].
  minv. destruct r as [[[q1 txns1] w1] x1]. apply IH in H as (tr & Ht & Ha). by eapply accounted_cons.
Qed.

Lemma drain_all_accounts L nid qs txns w x txns' w' x' :
  drain_all bm ext L nid qs txns w x = Ok (txns', w', x') →
  ∃ tr, txn_runs L nid tr (txns, w, x) (txns', w', x') ∧ accounted (concat qs) [] x x' (committed tr).
Proof.
  revert txns w x. induction qs as [|q qs IH]; intros txns w x H; cbn [drain_all] in H;
    [minv; exists []; split; [constructor|apply accounted_refl]|].
  minv. destruct r as [[txns1 w1] x1]. apply drain_accounts in E as (t1 & R1 & H1). apply IH in H as (t2 & R2 & H2).
  exists (t1 ++ t2). split; [by eapply txn_runs_app|]. rewrite committed_app.
  eapply accounted_trans; [|exact H2]. exact (accounted_app _ _ (concat qs) _ _ _ H1).
Qed.

Lemma concat_insert {A} (qs : list (list A)) n q q' :
  qs !! n = Some q → ∃ r, concat qs ≡ₚ q ++ r ∧ concat (<[n := q']> qs) ≡ₚ q' ++ r.
Proof.
  intros Hq. exists (concat (take n qs) ++ concat (drop (S n) qs)).
  assert (n < length qs)%nat as Hlt by by eapply lookup_lt_Some.
  rewrite (insert_take_drop qs n q' Hlt). rewrite <-(take_drop_middle qs n q Hq) at 1.
  rewrite !concat_app. cbn [concat]. split; solve_Permutation.
Qed.

Lemma concat_empty {A} (qs : list (list A)) : Forall (λ q, q = []) qs → concat qs = [].
Proof. induction 1 as [|q qs -> _ IH]; [done|]. exact IH. Qed.

Lemma mini_batches_accounts rounds tgt L sc txns w x sc' txns' w' x' :
  mini_batches bm ext rounds tgt L sc txns w x = Ok (sc', txns', w', x') →
  (∃ tr, txn_runs L (sc_node_id sc) tr (txns, w, x) (txns', w', x')
     ∧ accounted (concat (mb_queues sc)) (concat (mb_queues sc')) x x' (committed tr))
  ∧ length (mb_queues sc') = length (mb_queues sc) ∧ n_queues sc' = n_queues sc ∧ sc_node_id sc' = sc_node_id sc
  ∧ ∀ k, k ∈ concat (mb_queues sc') → k ∈ concat (mb_queues sc).
Proof.
  revert sc txns w x. induction rounds as [|rounds IH]; intros sc txns w x H; cbn [mini_batches] in H.
  { minv. split_and!; try done. exists []. split; [constructor|apply accounted_refl]. }
  minv. destruct r1 as [[[q1 txns1] w1] x1]. minv. apply mini_batch_accounts in E1 as [(t1 & R1 & A1) Hs1].
  apply IH in H as ((t2 & R2 & H2) & Hl & Hn & Hid & Hs2). cbn [set_queues mb_queues n_queues sc_node_id] in *. rewrite length_insert in Hl.
  destruct (concat_insert (mb_queues sc) _ _ q1 E0) as (rest & P1 & P2). split_and!; try done.
  - exists (t1 ++ t2). split; [eapply txn_runs_app; [exact R1|]; by eapply tr_next|]. rewrite committed_app.
    eapply (accounted_trans _ _ _ _ x1); [|eapply accounted_x; [| | | | | |exact H2]; done].
    eapply accounted_perm; [symmetry; exact P1|symmetry; exact P2|]. by apply accounted_app.
  - intros k Hk%Hs2. rewrite P2 in Hk. rewrite P1. apply elem_of_app in Hk as [Hk|Hk]; apply elem_of_app; auto.
Qed.

Lemma sched_batch_queues p sc txns L i j st :
  sched_batch bm p sc txns L i j = Ok st →
  concat (mb_queues (b_sched st)) ≡ₚ concat (mb_queues sc) ++ ((λ k, Z.to_nat (u32 (Z.of_nat k))) <$> seq i (j - i))
  ∧ length (mb_queues (b_sched st)) = length (mb_queues sc) ∧ n_queues (b_sched st) = n_queues sc
  ∧ sc_node_id (b_sched st) = sc_node_id sc
  ∧ Forall (λ q, q = []) (take (Z.to_nat (n_queues sc)) (mb_queues sc)).
Proof.
  unfold sched_batch. intros H. minv. apply Is_true_true_2, forallb_True in E.
  assert (∀ sc0 s k sc1, push_queue sc0 s k = Ok sc1 →
    concat (mb_queues sc1) ≡ₚ concat (mb_queues sc0) ++ [Z.to_nat (u32 (Z.of_nat k))]
    ∧ length (mb_queues sc1) = length (mb_queues sc0) ∧ n_queues sc1 = n_queues sc0 ∧ sc_node_id sc1 = sc_node_id sc0) as Hpush.
  { intros sc0 s k sc1 Hp. unfold push_queue in Hp. minv. cbn [set_queues mb_queues n_queues sc_node_id]. rewrite length_insert. split; [|done].
    destruct (concat_insert (mb_queues sc0) s r0 (r0 ++ [Z.to_nat (u32 (Z.of_nat k))]) E0) as (rest & -> & ->). solve_Permutation. }
  apply (ofold_inv (λ pre st, concat (mb_queues (b_sched st)) ≡ₚ concat (mb_queues sc) ++ ((λ k, Z.to_nat (u32 (Z.of_nat k))) <$> pre)
    ∧ length (mb_queues (b_sched st)) = length (mb_queues sc) ∧ n_queues (b_sched st) = n_queues sc
    ∧ sc_node_id (b_sched st) = sc_node_id sc)) in H as (H1 & H2 & H3 & H4).
  - split_and!; try done. eapply Forall_impl; [exact E|]. intros q Hq. by apply bool_decide_unpack in Hq.
  - cbn [b_sched fmap list_fmap]. by rewrite app_nil_r.
  - intros pre k post st1 st2 _ (P & Hl & Hn & Hid) Hst. unfold sched_txn in Hst.
    apply bind_ok in Hst as (txn & _ & Hst). apply bind_ok in Hst as (? & _ & Hst). apply bind_ok in Hst as ([txn' L1] & _ & Hst).
    apply bind_ok in Hst as (txns1 & _ & Hst). apply bind_ok in Hst as (? & _ & Hst).
    assert (∃ s, push_queue (b_sched st1) s k = Ok (b_sched st2)) as [s Hp].
    { destruct (if DO_SCHED bm then _ else _) as [i1|]; apply bind_ok in Hst as (s & _ & Hst); [destruct s as [s|]; [|done]|]; exists (s : nat) || exists (Z.to_nat s).
      - apply bind_ok in Hst as (? & _ & Hst). apply bind_ok in Hst as (? & _ & Hst). apply bind_ok in Hst as (sc1 & Hp & Hst). by minv.
      - apply bind_ok in Hst as (sc1 & Hp & Hst). by minv. }
    apply Hpush in Hp as (P1 & Hl1 & N1 & Hid1). rewrite fmap_app, app_assoc, P1, P. split_and!; [done|congruence..].
Qed.

(** ** Where a batch can fail *)

(** From state [c], the loops reach a call of [run_txn] on an entry of [q0] that
    fails with [f]. *)
Definition run_fails (L : DeclusteredLayout) (nid : Z) (q0 : list nat) (c : wstate) (f : fault) : Prop :=
  ∃ tr txns1 w1 x1 ea e q, txn_runs L nid tr c (txns1, w1, x1) ∧ e ∈ q0
    ∧ run_txn bm ext L nid ea (e :: q) txns1 w1 x1 = Fail f.

Lemma run_fails_now L nid ea e q q0 txns w x f :
  run_txn bm ext L nid ea (e :: q) txns w x = Fail f → e ∈ q0 → run_fails L nid q0 (txns, w, x) f.
Proof. intros H Hin. do 7 eexists. split; [constructor|]. by split. Qed.

Lemma run_fails_later L nid q0 q1 tr c c' f :
  txn_runs L nid tr c c' → (∀ k, k ∈ q1 → k ∈ q0) → run_fails L nid q1 c' f → run_fails L nid q0 c f.
Proof.
  intros Hr Hs (tr' & txns1 & w1 & x1 & ea & e & q & Hr' & He & Hf). do 7 eexists. split; [by eapply txn_runs_app|]. eauto.
Qed.

Lemma run_one L nid ea e q q' txns w x txns' w' x' :
  run_txn bm ext L nid ea (e :: q) txns w x = Ok (q', txns', w', x') → ∃ tr, txn_runs L nid tr (txns, w, x) (txns', w', x').
Proof. intros H. eexists. eapply tr_run; [exact H|constructor]. Qed.

Lemma mini_batch_fault fuel L nid q txns w x f :
  mini_batch bm ext fuel L nid q txns w x = Fail f → run_fails L nid q (txns, w, x) f.
Proof.
  revert q txns w x. induction fuel as [|fuel IH]; intros q txns w x H; [done|]. cbn [mini_batch] in H. destruct q as [|e q]; [done|].
  destruct (run_txn bm ext L nid true (e :: q) txns w x) as [[[[q1 txns1] w1] x1]|f1] eqn:E.
  - cbn [mbind outcome_bind] in H. apply IH in H. destruct (run_one _ _ _ _ _ _ _ _ _ _ _ _ E) as [tr Htr].
    apply run_txn_accounts in E as (_ & _ & Hs). by eapply run_fails_later.
  - injection H as <-. eapply run_fails_now; [exact E|by left].
Qed.

Lemma drain_fault fuel L nid q txns w x f :
  (length q ≤ fuel)%nat → drain bm ext fuel L nid q txns w x = Fail f → run_fails L nid q (txns, w, x) f.
Proof.
  revert q txns w x. induction fuel as [|fuel IH]; intros q txns w x Hle H; (destruct q as [|e q]; [done|]); cbn [length] in Hle; [lia|]. cbn [drain] in H.
  destruct (run_txn bm ext L nid false (e :: q) txns w x) as [[[[q1 txns1] w1] x1]|f1] eqn:E.
  - cbn [mbind outcome_bind] in H. destruct (run_one _ _ _ _ _ _ _ _ _ _ _ _ E) as [tr Htr].
    apply run_txn_accounts in E as (_ & Hq & Hs). apply IH in H; [by eapply run_fails_later|]. rewrite <-Hq by done. lia.
  - injection H as <-. eapply run_fails_now; [exact E|by left].
Qed.

Lemma drain_all_fault L nid qs txns w x f :
  drain_all bm ext L nid qs txns w x = Fail f → run_fails L nid (concat qs) (txns, w, x) f.
Proof.
  revert txns w x. induction qs as [|q qs IH]; intros txns w x H; [done|]. cbn [drain_all concat] in *.
  destruct (drain bm ext (length q) L nid q txns w x) as [[[txns1 w1] x1]|f1] eqn:E.
  - cbn [mbind outcome_bind] in H. apply drain_accounts in E as (tr & Htr & _). apply IH in H.
    eapply run_fails_later; [exact Htr| |exact H]. intros k Hk. apply elem_of_app. by right.
  - injection H as <-. apply drain_fault in E; [|done]. eapply run_fails_later; [constructor| |exact E].
    intros k Hk. apply elem_of_app. by left.
Qed.

Lemma mini_batches_fault rounds tgt L sc txns w x f :
  0 < n_queues sc → Z.to_nat (n_queues sc) = length (mb_queues sc) → mini_batches bm ext rounds tgt L sc txns w x = Fail f →
  run_fails L (sc_node_id sc) (concat (mb_queues sc)) (txns, w, x) f.
Proof.
  revert sc txns w x. induction rounds as [|rounds IH]; intros sc txns w x Hn Hq H; [done|]. cbn [mini_batches] in H.
  unfold umod in H. rewrite (proj2 (Z.eqb_neq _ _)) in H by lia. cbn [mbind outcome_bind] in H.
  pose proof (Z.mod_pos_bound (u32 (mini_batch_num x - 1)) (n_queues sc) Hn) as Hb.
  destruct (lookup_lt_is_Some_2 (mb_queues sc) (Z.to_nat (u32 (mini_batch_num x - 1) mod n_queues sc))) as [q Hlk]; [lia|].
  rewrite (aget_some _ _ _ Hlk) in H. cbn [mbind outcome_bind] in H.
  destruct (concat_insert (mb_queues sc) _ _ q Hlk) as (rest0 & P0 & _).
  destruct (mini_batch bm ext tgt L (sc_node_id sc) q txns w x) as [[[[q1 txns1] w1] x1]|f1] eqn:E.
  - cbn [mbind outcome_bind] in H. rewrite aset_lt in H by (by eapply lookup_lt_Some). cbn [mbind outcome_bind] in H.
    apply mini_batch_accounts in E as [(tr & Htr & _) Hs].
    destruct (concat_insert (mb_queues sc) _ _ q1 Hlk) as (rest & P1 & P2).
    apply IH in H; [|done|cbn [set_queues n_queues mb_queues]; by rewrite length_insert]. cbn [set_queues mb_queues sc_node_id] in H.
    eapply (run_fails_later _ _ _ _ (tr ++ [])); [eapply txn_runs_app; [exact Htr|]; eapply tr_next; constructor| |exact H].
    intros k Hk. rewrite P2 in Hk. rewrite P1. apply elem_of_app in Hk as [Hk|Hk]; apply elem_of_app; auto.
  - injection H as <-. apply mini_batch_fault in E. eapply run_fails_later; [constructor| |exact E].
    intros k Hk. rewrite P0. apply elem_of_app. by left.
Qed.

(** The entries of a batch that starts at [i]. *)
Definition batch_entries (n_threads : Z) (i : nat) : list nat := seq i (Z.to_nat (BATCH_SIZE_TGT / n_threads)).

Lemma batch_entries_u32 n_threads i : 0 < n_threads → Z.of_nat i + BATCH_SIZE_TGT < 2 ^ 32 →
  ((λ k, Z.to_nat (u32 (Z.of_nat k))) <$> seq i (i + Z.to_nat (BATCH_SIZE_TGT / n_threads) - i)) = batch_entries n_threads i.
Proof.
  intros Hn Hb. unfold batch_entries. rewrite Nat.add_sub_swap, Nat.sub_diag, Nat.add_0_l by lia.
  assert (0 ≤ BATCH_SIZE_TGT / n_threads ≤ BATCH_SIZE_TGT) as Hle by (split; [apply Z.div_pos; unfold BATCH_SIZE_TGT; lia|apply Z.div_le_upper_bound; unfold BATCH_SIZE_TGT; lia]).
  rewrite (list_fmap_ext _ id); [by rewrite list_fmap_id|]. intros j k Hk%lookup_seq. rewrite wrap_small by lia. cbn. lia.
Qed.

End loops.

(** ** Back to cold operations *)

Lemma active_hot_is_prefix l : ∃ r, l = active_hot l ++ r.
Proof.
  induction l as [|pr l [r IH]]; [by exists []|]. cbn [active_hot]. case_bool_decide; [by exists (pr :: l)|].
  exists r. cbn [app]. by rewrite <-IH.
Qed.

(** One of the two loops: [n] operations of [hot_ops_pass1] go to the places
    below [s]. *)
Lemma restore_loop (hot : list (OP * TupleLocation)) n cold s :
  (n ≤ length hot)%nat → (n ≤ s ≤ length cold)%nat → Z.of_nat (length cold) < 2 ^ 64 →
  ofold (λ (st : list OP * Z) p, pr ← aget hot p; c ← zset st.1 st.2 pr.1; Ok (c, u64 (st.2 - 1)))
        (seq 0 n) (cold, u64 (Z.of_nat s - 1))
  = Ok (take (s - n) cold ++ reverse (take n hot.*1) ++ drop s cold, u64 (Z.of_nat (s - n) - 1)).
Proof.
  intros Hn Hs Hl.
  destruct (ofold_total (λ pre st, st = (take (s - length pre) cold ++ reverse (take (length pre) hot.*1) ++ drop s cold,
      u64 (Z.of_nat (s - length pre) - 1)) ∧ (length pre ≤ n)%nat)
    (λ (st : list OP * Z) p, pr ← aget hot p; c ← zset st.1 st.2 pr.1; Ok (c, u64 (st.2 - 1))) (seq 0 n) (cold, u64 (Z.of_nat s - 1)))
    as (st & -> & Hst & _).
  - cbn [length]. rewrite Nat.sub_0_r, take_0, reverse_nil. cbn [app]. rewrite take_drop. split; [done|lia].
  - intros pre p post st Hcut [-> _]. apply seq_cut in Hcut as (_ & -> & Hlt). rewrite Nat.add_0_l.
    destruct (lookup_lt_is_Some_2 hot (length pre)) as [pr Hpr]; [lia|]. rewrite (proj2 (aget_ok _ _ _) Hpr).
    cbn [mbind outcome_bind fst snd]. set (k := (s - length pre)%nat). assert (k = s - length pre)%nat as Hkd by done. clearbody k.
    assert (length (take k cold) = k) as Hk by (rewrite length_take; lia).
    rewrite (wrap_small 64 (Z.of_nat k - 1)) by lia. unfold zset. rewrite decide_True.
    2:{ rewrite !length_app, Hk. lia. }
    rewrite aset_lt by (rewrite !length_app, Hk; lia). cbn [mbind outcome_bind]. eexists. split; [done|].
    rewrite length_app. cbn [length]. split; [|lia]. f_equal.
    + replace (Z.to_nat (Z.of_nat k - 1)) with (k - 1)%nat by lia. rewrite insert_app_l by lia.
      replace (s - (length pre + 1))%nat with (k - 1)%nat by lia. rewrite Nat.add_1_r.
      rewrite (take_S_r hot.*1 _ pr.1) by (by rewrite list_lookup_fmap, Hpr). rewrite reverse_app. cbn [reverse].
      rewrite insert_take_drop by lia. rewrite take_take, Nat.min_l by lia. rewrite drop_ge by lia.
      rewrite reverse_singleton. by rewrite <-!app_assoc.
    + f_equal. lia.
  - rewrite length_seq in Hst. by rewrite Hst.
Qed.

(** The converted transaction: the untouched cold operations, then - for the
    second pass - again operations of the first pass. *)
Lemma restore_hot_eq txn p q :
  length (cold_ops txn) = N_OPS →
  length (active_hot (take N_OPS (hot_ops_pass1 txn))) = p →
  length (active_hot (take MAX_OPS_PASS2_ACCEL (hot_ops_pass2 txn))) = q →
  (q ≤ p)%nat → (p + q ≤ N_OPS)%nat →
  restore_hot txn = Ok (take (N_OPS - p - q) (cold_ops txn)
      ++ reverse (take q (hot_ops_pass1 txn).*1) ++ reverse (take p (hot_ops_pass1 txn).*1),
    u64 (Z.of_nat (N_OPS - p - q) - 1)).
Proof.
  intros Hc Hp Hq Hqp Hpq.
  assert (p ≤ length (hot_ops_pass1 txn))%nat as Hh.
  { destruct (active_hot_is_prefix (take N_OPS (hot_ops_pass1 txn))) as [r Hr]. apply (f_equal length) in Hr.
    rewrite length_app, length_take, Hp in Hr. lia. }
  unfold restore_hot. rewrite Hp, Hq. cbn [N_OPS] in *.
  replace (Z.of_nat N_OPS - 1) with (u64 (Z.of_nat N_OPS - 1)) by done.
  rewrite (restore_loop _ p (cold_ops txn) N_OPS) by (rewrite ?Hc; done || lia || (unfold N_OPS in *; lia)).
  cbn [mbind outcome_bind]. set (c1 := take (N_OPS - p) (cold_ops txn)). set (h1 := reverse (take p _)).
  assert (length c1 = N_OPS - p)%nat as Hc1 by (unfold c1; rewrite length_take; lia).
  assert (length h1 = p) as Hh1 by (unfold h1; rewrite length_reverse, length_take, length_fmap; lia).
  rewrite (drop_ge (cold_ops txn)), app_nil_r by lia.
  rewrite (restore_loop _ q (c1 ++ h1) (N_OPS - p)) by (rewrite ?length_app, ?Hc1, ?Hh1; lia || (unfold N_OPS in *; lia)).
  do 2 f_equal. rewrite take_app_le by lia. unfold c1 at 1. rewrite take_take, Nat.min_l by lia.
  f_equal. f_equal. rewrite drop_app_ge by lia. by rewrite Hc1, Nat.sub_diag, drop_0.
Qed.

Lemma active_cold_is_prefix l : ∃ r, l = active_cold l ++ r.
Proof.
  induction l as [|o l [r IH]]; [by exists []|]. cbn [active_cold]. case_bool_decide; [by exists (o :: l)|].
  exists r. cbn [app]. by rewrite <-IH.
Qed.

(** What [restore_hot] makes of an extracted transaction. *)
Lemma restore_extracted bm p L ops lid t C H1 H2 :
  extracted bm p L ops lid t C H1 H2 → length ops = N_OPS → (length H2 ≤ length H1)%nat →
  restore_hot t = Ok (C ++ reverse (take (length H2) H1.*1) ++ reverse H1.*1, u64 (Z.of_nat (length C) - 1)).
Proof.
  intros Hex Hops Hle. destruct (ex_len _ _ _ _ _ _ _ _ _ Hex) as (Hc & Hh1 & Hh2).
  assert (length C + length H1 + length H2 = N_OPS)%nat as Hsum.
  { pose proof (Permutation_length (ex_perm _ _ _ _ _ _ _ _ _ Hex)) as Hl. rewrite !length_app, !length_fmap in Hl. lia. }
  rewrite (restore_hot_eq t (length H1) (length H2)); try done; try lia.
  2:{ rewrite take_ge by lia. by rewrite (ex_hot1 _ _ _ _ _ _ _ _ _ Hex). }
  2:{ rewrite take_ge by lia. by rewrite (ex_hot2 _ _ _ _ _ _ _ _ _ Hex). }
  destruct (active_cold_is_prefix (cold_ops t)) as [r Hr]. rewrite (ex_cold _ _ _ _ _ _ _ _ _ Hex) in Hr.
  destruct (active_hot_is_prefix (hot_ops_pass1 t)) as [r1 Hr1]. rewrite (ex_hot1 _ _ _ _ _ _ _ _ _ Hex) in Hr1.
  replace (N_OPS - length H1 - length H2)%nat with (length C) by lia. rewrite Hr, Hr1, fmap_app, take_app_length.
  rewrite (take_app_le _ _ (length H2)) by (rewrite length_fmap; lia).
  by rewrite take_app_length' by (by rewrite length_fmap).
Qed.

(** The fallback to cold execution keeps all operations (one-pass builds).
    The conversion of hot operations back into cold ones, applied to a
    transaction as [extract_hot_cold] leaves it, gives a permutation of the
    transaction's original operations, and the place its assertion looks at
    holds a real operation whenever the transaction had a cold one. *)
Theorem fallback_keeps_ops bm p L ops lid :
  ORIG_MODE bm = false → MAX_PASSES_ACCEL bm = 1 → partition_size p ≠ 0 → locs_ok bm L →
  length ops = N_OPS → Forall (λ o, op_mode o ≠ INVALID) ops →
  ∃ t L' cold cold_p, extract_hot_cold bm p (Txn_init ops lid) L = Ok (t, L')
    ∧ restore_hot t = Ok (cold, cold_p) ∧ cold ≡ₚ relocate p <$> ops
    ∧ (active_cold (cold_ops t) ≠ [] → ∃ c, zget cold cold_p = Ok c ∧ op_mode c ≠ INVALID).
Proof.
  intros Ho Hmp Hp HL Hlen Hval.
  destruct (extract_spec bm p L ops lid Ho Hp HL Hlen Hval (or_introl Hmp)) as (t & L' & C & H1 & H2 & Hx & Hex & _).
  assert (H2 = []) as -> by (apply (ex_one _ _ _ _ _ _ _ _ _ Hex); lia).
  pose proof (restore_extracted _ _ _ _ _ _ _ _ _ Hex Hlen ltac:(cbn; lia)) as Hr.
  cbn [length] in Hr. rewrite take_0, reverse_nil in Hr. cbn [app] in Hr.
  pose proof (ex_perm _ _ _ _ _ _ _ _ _ Hex) as Hperm. cbn [fmap list_fmap] in Hperm. rewrite app_nil_r in Hperm.
  do 4 eexists. split; [exact Hx|]. split; [exact Hr|]. split; [by rewrite reverse_Permutation|].
  rewrite (ex_cold _ _ _ _ _ _ _ _ _ Hex). intros HC.
  assert (0 < length C ≤ N_OPS)%nat as Hlc.
  { pose proof (Permutation_length Hperm) as Hl. rewrite length_app, !length_fmap in Hl. destruct C; [done|]. cbn [length] in *. lia. }
  destruct (lookup_lt_is_Some_2 C (length C - 1)) as [c Hc]; [lia|]. exists c. split.
  - unfold N_OPS in *. rewrite wrap_small by lia. unfold zget. rewrite decide_True by (rewrite length_app; lia). apply aget_ok.
    replace (Z.to_nat (Z.of_nat (length C) - 1)) with (length C - 1)%nat by lia. by apply lookup_app_l_Some.
  - assert (c ∈ relocate p <$> ops) as Hin.
    { rewrite <-Hperm. apply elem_of_app. left. by eapply list_elem_of_lookup_2. }
    apply list_elem_of_fmap in Hin as (o & -> & Hin). rewrite Forall_forall in Hval. exact (Hval o Hin).
Qed.

(** The fallback loses second-pass operations (two-pass builds).  The
    second loop of the conversion copies from [hot_ops_pass1] again: an
    operation that [extract_hot_cold] put into the second pass, and that the
    first pass does not also contain, is in no place of the converted
    transaction. *)
Theorem fallback_loses_pass2 bm p L ops lid :
  ORIG_MODE bm = false → MAX_PASSES_ACCEL bm = 2 → partition_size p ≠ 0 → locs_ok bm L →
  length ops = N_OPS → Forall (λ o, op_mode o ≠ INVALID) ops →
  ∃ t L' cold cold_p, extract_hot_cold bm p (Txn_init ops lid) L = Ok (t, L')
    ∧ restore_hot t = Ok (cold, cold_p)
    ∧ (do_accel t = true → ∀ a, a ∈ active_hot (hot_ops_pass2 t) → a.1 ∉ (active_hot (hot_ops_pass1 t)).*1 → a.1 ∉ cold).
Proof.
  intros Ho Hmp Hp HL Hlen Hval.
  destruct (extract_spec bm p L ops lid Ho Hp HL Hlen Hval (or_intror Hmp)) as (t & L' & C & H1 & H2 & Hx & Hex & _).
  assert (length H2 ≤ length H1)%nat as Hle.
  { destruct (do_accel t) eqn:Ha.
    - destruct (ex_accel _ _ _ _ _ _ _ _ _ Hex Ha) as (_ & _ & _ & Hnd & _).
      rewrite <-(length_fmap reg_of H2), <-(length_fmap reg_of H1). apply submseteq_length, NoDup_submseteq; [done|].
      intros r Hr. apply list_elem_of_fmap in Hr as (a & -> & Ha2).
      destruct (ex_pair _ _ _ _ _ _ _ _ _ Hex Ha a Ha2) as (b & Hb & Heq & _). apply list_elem_of_fmap. by exists b.
    - destruct (ex_fallback _ _ _ _ _ _ _ _ _ Hex Ha) as (-> & -> & _). done. }
  pose proof (restore_extracted _ _ _ _ _ _ _ _ _ Hex Hlen Hle) as Hr.
  do 4 eexists. split; [exact Hx|]. split; [exact Hr|].
  rewrite (ex_hot1 _ _ _ _ _ _ _ _ _ Hex), (ex_hot2 _ _ _ _ _ _ _ _ _ Hex). intros Hacc a Ha Hn.
  destruct (ex_accel _ _ _ _ _ _ _ _ _ Hex Hacc) as (HC & HH & _). rewrite Forall_forall in HC. rewrite Forall_forall in HH.
  rewrite !elem_of_app, !elem_of_reverse. intros [Hin|[Hin|Hin]]; [| |done].
  - specialize (HC _ Hin). rewrite (HH a) in HC by (apply elem_of_app; by right). done.
  - apply Hn. apply list_elem_of_lookup in Hin as [j Hj]. apply lookup_take_Some in Hj as [Hj _]. by eapply list_elem_of_lookup_2.
Qed.

(** ** The leftover queue *)

Lemma leftover_loop_accounts bm ext fuel L k keep txns w x txns' w' x' :
  leftover_loop bm ext fuel L k keep txns w x = Ok (txns', w', x') → (keep ≤ length (leftover_txns x))%nat →
  length (leftover_txns x') = keep
  ∧ u64 (n_commits x') = u64 (n_commits x + Z.of_nat (length (leftover_txns x) - keep)).
Proof.
  revert k txns w x. induction fuel as [|fuel IH]; intros k txns w x H Hk; cbn [leftover_loop] in H; case_decide as Hd.
  1: by destruct (leftover_txns x).
  1,3: minv; (split; [lia|]); replace (length (leftover_txns x') - keep)%nat with 0%nat by lia; f_equal; cbn; lia.
  destruct (leftover_txns x) as [|e q] eqn:Eq; [done|]. apply bind_ok in H as (txn & _ & H).
  apply bind_ok in H as ([[[res txn'] w1] x1] & Hx & H). apply bind_ok in H as (txns1 & _ & H).
  apply execute_frame in Hx as (Hl & _ & Hc). rewrite Eq in Hl. cbn [length] in *.
  apply IH in H as [Hlen Hcom]; cbn [set_leftover leftover_txns n_commits] in *.
  - split; [done|]. rewrite Hcom, Hc, Hl. destruct (r_rc res); cbn [app tail length].
    + unfold wrap. rewrite Zplus_mod_idemp_l. f_equal. lia.
    + rewrite length_app. cbn [length]. f_equal. lia.
  - rewrite Hl. destruct (r_rc res); cbn [app tail]; rewrite ?length_app; cbn [length]; lia.
Qed.

(** The leftover phase commits all but one in a hundred.  When
    [run_leftover_txns] returns on a queue of [n] deferred transactions, it has
    committed exactly [n - n / 100] of them and thrown the other [n / 100]
    away: the queue is empty although they were never executed successfully. *)
Theorem leftovers_dropped bm ext fuel L k txns w x txns' w' x' :
  run_leftover_txns bm ext fuel L k txns w x = Ok (txns', w', x') →
  let n := length (leftover_txns x) in
  leftover_txns x' = [] ∧ u64 (n_commits x') = u64 (n_commits x + Z.of_nat (n - n / 100)).
Proof.
  unfold run_leftover_txns. intros H. cbv zeta. apply bind_ok in H as ([[txns1 w1] x1] & Hl & H). minv.
  cbn [set_leftover leftover_txns n_commits]. split; [done|].
  apply leftover_loop_accounts in Hl as [_ Hc]; [done|]. apply Nat.div_le_upper_bound; lia.
Qed.

(** ** Examples *)

Module BatchDemo.
Definition rows : list Row := replicate 20 (Demo.row 0).
Definition node (i : Z) : Node :=
  MkNodeState i 2 (MkRegistry [MkTable 0 EmptyString 20 20 (part_of i) rows] ∅)
    (hot_send_q_make 4) (InitHandler_make 2) 0 [0; 0] 0 ∅.
Definition nodes : world := [node 0; node 1].
Definition ext : externals := MkExt (MkKV 0 0) sample_old_pkt sample_macs true (λ k, Z.of_nat k).
Definition batch := run_batch one_slot ext small_layout (part_of 0) 33333 (scheduler_make 2 0) sample_txns 0 nodes (Demo.exec 0).

(** A transaction that writes one row twice (and reads others). *)
Definition twice (v : bool) : Txn :=
  MkTxn ([Demo.op true 0 3 WRITE 1; Demo.op true 0 3 WRITE 2] ++ ((λ k, Demo.op true 0 k READ 0) <$> seqZ 4 6))
        [] [] true false 0 None None 0 0 (TxnId_make v 0 1) 0.
(** One of eight reads of remote and local rows. *)
Definition reads : Txn :=
  MkTxn ((λ k, Demo.op (bool_decide (k < 10)) (k / 10) k READ 0) <$> seqZ 6 8) [] [] true false 0 None None 0 0 (TxnId_make true 0 1) 0.
(** A worker with a deferred transaction, after some attempts. *)
Definition deferred (ts aborts : Z) : TxnExecutor :=
  MkExec 0 0 0 1 ts [] [] [0%nat] 0 aborts 0 0 [].

End BatchDemo.


Lemma fallback_keeps_ops_witness :
  ∃ t L' cold cold_p, extract_hot_cold one_slot half_part (Txn_init half_hot 4) small_layout = Ok (t, L')
    ∧ restore_hot t = Ok (cold, cold_p) ∧ cold ≡ₚ relocate half_part <$> half_hot.
Proof.
  destruct (fallback_keeps_ops one_slot half_part small_layout half_hot 4) as (t & L' & cold & cp & H1 & H2 & H3 & _);
    [done|done|done|apply small_locs|done|apply half_hot_valid|]. exists t, L', cold, cp. exact (conj H1 (conj H2 H3)).
Defined.

Lemma fallback_loses_pass2_witness :
  ∃ t L' cold cold_p, extract_hot_cold two_slots half_part (Txn_init shared_reg 4) small_layout = Ok (t, L')
    ∧ restore_hot t = Ok (cold, cold_p) ∧ relocate half_part (write_op 0) ∉ cold.
Proof.
  destruct (fallback_loses_pass2 two_slots half_part small_layout shared_reg 4) as (t & L' & cold & cp & H1 & H2 & H3);
    [done|done|done|apply small_locs|done|by repeat constructor|].
  exists t, L', cold, cp. split; [exact H1|]. split; [exact H2|]. clear H2. vm_compute in H1. injection H1 as <- _.
  apply (H3 eq_refl (relocate half_part (write_op 0), MkTupleLoc 0 0 100 NO_LOCK)).
  - vm_compute. left.
  - apply (bool_decide_unpack _). by vm_compute.
Defined.

Lemma leftovers_dropped_witness :
  ∃ txns' w' x', run_leftover_txns default_build BatchDemo.ext 5 small_layout 0 [BatchDemo.reads] BatchDemo.nodes (BatchDemo.deferred 0 0)
    = Ok (txns', w', x') ∧ leftover_txns x' = [] ∧ n_commits x' = 1.
Proof.
  destruct (run_leftover_txns default_build BatchDemo.ext 5 small_layout 0 [BatchDemo.reads] BatchDemo.nodes (BatchDemo.deferred 0 0))
    as [[[txns' w'] x']|] eqn:E; [|by vm_compute in E].
  exists txns', w', x'. split; [exact eq_refl|]. split; [exact (proj1 (leftovers_dropped _ _ _ _ _ _ _ _ _ _ _ E))|].
  vm_compute in E. by injection E as <- <- <-.
Defined.
