(* ===== verification/Leftover.v ===== *)
(** * The deferred transactions of a worker that runs alone

    [execute] and [run_leftover_txns] of [src/src/ee/executor.cpp] while no other
    worker holds a lock: every attempt returns, and a deferred transaction
    commits at its first attempt unless it conflicts with itself - then it never
    does, and the phase never ends. *)
From stdpp Require Import base tactics list numbers gmap relations strings.
From Stdlib Require Import ZArith Lia.
From S2P Require Import Prelude Types Layout Msg Row Table Mempool SendQ SwitchPkt MsgHandler HotCold Sched Undolog Executor RowAccess Serial SerialSteps Serializability ExecSpec ExecLoops.

(** Two operations on one row, not both of them reads. *)
Definition clash (node : nat) (o1 o2 : OP) : bool :=
  bool_decide (op_addr node o1 = op_addr node o2 ∧ ¬ (op_mode o1 = READ ∧ op_mode o2 = READ)).

(** Two operations of the transaction clash. *)
Fixpoint self_conflict (node : nat) (ops : list OP) : bool :=
  match ops with
  | [] => false
  | o :: ops' => existsb (clash node o) ops' || self_conflict node ops'
  end.

Lemma self_conflict_false node ops :
  self_conflict node ops = false ↔
  ∀ i j o1 o2, (i < j)%nat → ops !! i = Some o1 → ops !! j = Some o2 → clash node o1 o2 = false.
Proof.
  induction ops as [|o ops IH]; [by split|]. cbn [self_conflict]. rewrite orb_false_iff, IH. split.
  - intros [He Hr] [|i] [|j] o1 o2 Hij H1 H2; [lia| |lia|]; cbn in H1, H2.
    + injection H1 as <-. destruct (clash node o o2) eqn:Ec; [|done].
      assert (existsb (clash node o) ops = true) as Ht; [|by rewrite He in Ht].
      apply existsb_exists. exists o2. split; [|done]. apply list_elem_of_In. by eapply list_elem_of_lookup_2.
    + eapply (Hr i j); [lia|done..].
  - intros H. split.
    + destruct (existsb (clash node o) ops) eqn:Ee; [|done]. apply existsb_exists in Ee as (o2 & Hin & Hc).
      apply list_elem_of_In, list_elem_of_lookup in Hin as [j Hj]. by rewrite (H 0%nat (S j) o o2) in Hc by (lia || done).
    + intros i j o1 o2 Hij H1 H2. by apply (H (S i) (S j)); [lia|..].
Qed.

Lemma lockable_no_conflict node ops :
  (∀ j, lockable_at ops (λ _, true) node j) ↔ self_conflict node ops = false.
Proof.
  rewrite self_conflict_false. split.
  - intros Hl i j o1 o2 Hij H1 H2. apply bool_decide_eq_false. intros [Ha Hm]. destruct (Hl j o2 H2) as [_ Hall].
    apply Hm. by apply (Hall i).
  - intros Hn j op Hop. split; [done|]. intros i o Hij Ho Ha. specialize (Hn i j o op Hij Ho Hop).
    apply bool_decide_eq_false in Hn. destruct (decide (op_mode o = READ ∧ op_mode op = READ)); [done|]. destruct Hn. done.
Qed.

Lemma real_ops_id ops : Forall (λ op, op_mode op ≠ INVALID) ops → real_ops ops = ops.
Proof. induction 1 as [|op ops Hm _ IH]; [done|]. cbn [real_ops]. rewrite IH. by destruct (op_mode op). Qed.

Lemma lock_loop_real bm ext b w x ops id futs :
  Forall (λ op, op_mode op ≠ INVALID) ops → lock_loop bm ext b w x ops id futs = lock_loop bm ext true w x ops id futs.
Proof.
  intros Hr. revert w x futs. induction Hr as [|op ops Hm _ IH]; intros w x futs; [done|]. cbn [lock_loop].
  destruct (op_mode op); [done|..]; destruct (acquire _ _ _ _ _ _ _) as [[[[f|] w1] x1]|]; cbn [mbind outcome_bind]; done.
Qed.

Section leftover.
Context (bm : build) (ext : externals) (kvs : nat) (workers : Z) (L : DeclusteredLayout).

(** A deferred transaction is not accelerated, and could be started on its
    own. *)
Definition deferred_ok (w : world) (x : TxnExecutor) (txn : Txn) : Prop :=
  do_accel txn = false
  ∧ start kvs workers w [MkThread x (cold_ops txn) (set_valid false (txn_id txn)) None (Locking []) []].

(** The counters of a worker take no part in the invariant. *)
Lemma inv_stats S0 tops id stamp w x c a d f ph order :
  inv kvs workers S0 (one tops id stamp w x ph order) → inv kvs workers S0 (one tops id stamp w (set_stats c a d f x) ph order).
Proof.
  intros Hi. set (th := MkThread x tops id stamp ph []). set (th' := MkThread (set_stats c a d f x) tops id stamp ph []).
  assert (same_txn th th') as Hs by by split.
  apply (inv_still kvs workers S0 (one tops id stamp w x ph order) 0 th w th' Hi eq_refl Hs); try done; [apply Hi| | |].
  - pose proof (in_phase _ _ _ _ Hi 0%nat th eq_refl) as Hp. unfold phase_ok in *. cbn [th th' th_ph th_ops th_x] in *.
    assert (∀ ops acts, acts_ok kvs w th ops acts → acts_ok kvs w th' ops acts) as Hm
      by (intros ops acts Ha; by eapply (acts_move kvs w w th th')).
    destruct ph; [| | |done].
    + destruct Hp as (? & ? & ?). split_and!; auto.
    + destruct Hp as (? & ? & ?). split_and!; auto.
    + destruct Hp as (acts & tl & ? & ? & ?). exists acts, tl. split_and!; auto.
  - apply net_ok_nil; [done|]. pose proof (nt_sub _ _ _ (in_net _ _ _ _ Hi 0%nat th eq_refl)) as Hn. by rewrite app_nil_r in Hn.
  - exact (counts_same w w [th] 0 th th' eq_refl Hs (in_counts _ _ _ _ Hi) eq_refl eq_refl).
Qed.

(** The clock takes no part in the start. *)
Lemma start_ts w x tops id ts :
  start kvs workers w [MkThread x tops id None (Locking []) []] → start kvs workers w [MkThread (set_ts ts x) tops id None (Locking []) []].
Proof.
  intros [H1 H2 H3 H4 H5 H6 H7 H8]. specialize (H3 0%nat _ eq_refl). specialize (H4 0%nat _ eq_refl). specialize (H7 0%nat _ eq_refl).
  split; try done.
  - intros [|t] th Ht; [|done]. injection Ht as <-. by eapply static_frame; [..|exact H3].
  - intros [|t] th Ht; [|done]. by injection Ht as <-.
  - intros [|t] th Ht; [|done]. by injection Ht as <-.
  - intros [|t] th Ht; [|done]. by injection Ht as <-.
  - intros [|t1] [|t2] th1 th2 Ht1 Ht2; done.
Qed.

(** Where a finished transaction leaves the world, any deferred one can start
    again. *)
Lemma deferred_again S0 tops id w x0 w' x' rc reads order l txn :
  inv kvs workers S0 (one tops id None w' x' (Finished rc reads) order) → keeps kvs w w' →
  x_node x' = x_node x0 → x_log x' = [] → mini_batch_num x' = mini_batch_num x0 →
  deferred_ok w x0 txn → deferred_ok w' (set_leftover l x') txn.
Proof.
  intros Hi Hk Hn Hlog Hmb [Ha Hs]. split; [done|]. set (th := MkThread x' tops id None (Finished rc reads) []).
  pose proof (in_static _ _ _ _ Hi 0%nat th eq_refl) as Hst. pose proof (st_exec _ _ _ _ Hst) as [E1 E2 E3 E4]. cbn [th th_x] in *.
  pose proof (in_counts _ _ _ _ Hi 0%nat th eq_refl) as Hc. cbn [th th_x th_net length] in Hc.
  pose proof Hs as [_ _ H3 _ H5 _ _ _]. specialize (H3 0%nat _ eq_refl). destruct H3 as [_ Ho Hid _ Hv]. cbn [th_ops th_id th_x] in *.
  split.
  - apply Hi.
  - intros a r Hr. destruct (finished_rows kvs workers S0 _ a r Hi) as (Hl & Ho' & _); [|done|done].
    intros [|t] th0 Ht; [|done]. injection Ht as <-. by do 2 eexists.
  - intros [|t] th0 Ht; [|done]. injection Ht as <-. split; cbn [th_x th_ops th_id th_stamp]; [by split| |done|done|].
    + eapply Forall_impl; [exact Ho|]. intros op (O1 & O2 & O3 & O4). unfold op_ok, t_addr in *. cbn [th_x set_leftover x_node] in *.
      rewrite Hn. split_and!; auto.
    + cbn [set_leftover mini_batch_num]. by rewrite Hmb.
  - intros [|t] th0 Ht; [|done]. by injection Ht as <-.
  - done.
  - intros [|t] th0 Ht; [|done]. by injection Ht as <-.
  - intros [|t] th0 Ht; [|done]. by injection Ht as <-.
  - intros [|t1] [|t2] th1 th2 Ht1 Ht2; done.
Qed.

Lemma end_txn_log rc w x rc' w' x' : end_txn bm rc w x = Ok (rc', w', x') → x_log x' = [].
Proof.
  unfold end_txn, log_clear. intros H. minv. destruct r as [w1 x1]. minv. destruct r0 as [[out w2] x2]. minv. done.
Qed.

(** From the last lock to the end. *)
Lemma execute_commits S0 id ops w x futs :
  inv kvs workers S0 (one ops id None w x (Locking futs) []) → length futs = length ops → real_ops ops = ops →
  ∃ reads w2 x2 w3 x3, apply_loop None w x ops futs [] = Ok (true, reads, w2, x2)
    ∧ commit bm w2 (add_commits x2) = Ok (COMMIT, w3, x3) ∧ keeps kvs w w3 ∧ x_node x3 = x_node x ∧ x_log x3 = []
    ∧ inv kvs workers S0 (one ops id None w3 x3 (Finished COMMIT reads) [0%nat]).
Proof.
  intros Hi Hlen Hreal. set (th := MkThread x ops id None (Locking futs) []).
  destruct (one_step bm ext kvs workers S0 ops id None w x (Locking futs) w x (Applying 0 futs []) [] [0%nat] Hi)
    as [Hi1 _]; [exact (t_locked bm ext w th futs eq_refl Hlen)|done|].
  destruct (apply_spec bm ext kvs workers _ ops id None ops w x 0 futs [] [0%nat] Hi1)
    as (reads & w2 & x2 & Hap & Hk2 & _ & Hn2 & Hi2); [done|]. rewrite drop_0 in Hap.
  set (th2 := MkThread x2 ops id None (Applying (length ops) futs reads) []).
  destruct (one_step bm ext kvs workers S0 ops id None w2 x2 (Applying (length ops) futs reads) w2 x2
    (Releasing ops (x_log x2) COMMIT reads) [0%nat] [0%nat] Hi2) as [Hi3 _]; [|done|].
  { exact (t_applied bm ext w2 th2 futs reads (0, 0%nat) w2 eq_refl eq_refl). }
  apply (inv_stats _ _ _ _ _ _ (u64 (n_commits x2 + 1)) (x_n_aborts x2) (n_dropped x2) (n_cold_fallbacks x2)) in Hi3.
  fold (add_commits x2) in Hi3.
  destruct (end_spec bm ext kvs workers _ ops id None w2 (add_commits x2) ops COMMIT reads [0%nat] Hi3) as (w3 & x3 & Hend & Hk3 & Hn3 & Hi4).
  exists reads, w2, x2, w3, x3. split_and!; try done; [intros a Ha; by apply Hk3, Hk2|by rewrite Hn3|by eapply end_txn_log].
Qed.

(** One attempt of a deferred transaction, alone. *)
Lemma execute_alone now w x txn :
  deferred_ok w x txn →
  ∃ res w' x', execute bm ext L now w x txn = Ok (res, set_id (set_valid false (txn_id txn)) txn, w', x')
    ∧ (r_rc res = COMMIT ↔ self_conflict (x_node x) (cold_ops txn) = false)
    ∧ ∀ l txn2, deferred_ok w x txn2 → deferred_ok w' (set_leftover l x') txn2.
Proof.
  intros [Hacc Hs0]. pose proof (start_ts _ _ _ _ now Hs0) as Hs. set (id := set_valid false (txn_id txn)) in *.
  assert (Forall (λ op, op_mode op ≠ INVALID) (cold_ops txn)) as Hval.
  { pose proof (st_ops _ _ _ _ (sa_static _ _ _ _ Hs 0%nat _ eq_refl)) as Ho. eapply Forall_impl; [exact Ho|]. by intros op (? & _). }
  pose proof (real_ops_id _ Hval) as Hreal. pose proof (start_inv kvs workers _ _ Hs) as Hi.
  unfold execute. fold id. cbn [set_id cold_ops do_accel]. rewrite Hacc. rewrite lock_loop_real by done.
  destruct (lock_spec bm ext kvs workers (store_of kvs w) (cold_ops txn) id None (λ _, true) (cold_ops txn) w (set_ts now x) [])
    as (res & w1 & x1 & Hlk & Hk1 & _ & Hn1 & Hres); [done|by intros a r Hr|by rewrite drop_0|cbn; lia|cbn; lia|].
  pose proof (lock_loop_frame _ _ _ _ _ _ _ _ _ _ _ Hlk) as Hf1. rewrite Hlk. cbn [mbind outcome_bind].
  cbn [set_ts x_node] in Hn1, Hres.
  destruct res as [futs|].
  - destruct Hres as (Hi1 & Hlen & Hgood%lockable_no_conflict).
    destruct (execute_commits _ id (cold_ops txn) w1 x1 futs Hi1 Hlen Hreal) as (reads & w2 & x2 & w3 & x3 & Hap & Hc & Hk3 & Hn3 & Hl3 & Hi3).
    pose proof (apply_loop_frame _ _ _ _ _ _ _ _ _ Hap) as Hf2. pose proof (end_txn_frame _ _ _ _ _ _ _ Hc) as [_ Hf3].
    rewrite Hap. cbn [mbind outcome_bind negb]. rewrite Hc. cbn [mbind outcome_bind].
    do 3 eexists. split; [done|]. split; [done|]. intros l txn2 Hd. eapply deferred_again; [exact Hi3| | |done| |exact Hd].
    + intros a Ha. by apply Hk3, Hk1.
    + congruence.
    + pose proof (f_equal mini_batch_num Hf1). pose proof (f_equal mini_batch_num Hf2). pose proof (f_equal mini_batch_num Hf3). cbn in *. congruence.
  - destruct Hres as (held & Hi1 & Hbad).
    apply (inv_stats _ _ _ _ _ _ (n_commits x1) (u64 (x_n_aborts x1 + 1)) (n_dropped x1) (n_cold_fallbacks x1)) in Hi1.
    fold (add_aborts x1) in Hi1.
    destruct (end_spec bm ext kvs workers _ (cold_ops txn) id None w1 (add_aborts x1) held ROLLBACK [] [] Hi1) as (w4 & x4 & Hend & Hk4 & Hn4 & Hi4).
    pose proof (end_txn_frame _ _ _ _ _ _ _ Hend) as [_ Hf3]. unfold rollback. rewrite Hend. cbn [mbind outcome_bind].
    do 3 eexists. split; [done|].
    split; [split; [done|]; intros Hn; destruct Hbad; by apply lockable_no_conflict|]. intros l txn2 Hd.
    eapply deferred_again; [exact Hi4| | |by eapply end_txn_log| |exact Hd].
    + intros a Ha. by apply Hk4, Hk1.
    + cbn in Hn4. congruence.
    + pose proof (f_equal mini_batch_num Hf1). pose proof (f_equal mini_batch_num Hf3). cbn in *. congruence.
Qed.

(** ** The loop *)

(** The transactions of a queue, all of them fit to be run. *)
Definition queue_ok (w : world) (x : TxnExecutor) (txns : list Txn) : Prop :=
  Forall (λ e, ∃ txn, entry_to_txn txns e = Ok txn ∧ deferred_ok w x txn) (leftover_txns x).

(** Entry [e] stands for a transaction that conflicts with itself. *)
Definition stuck (node : nat) (txns : list Txn) (e : nat) : Prop :=
  ∃ txn, entry_to_txn txns e = Ok txn ∧ self_conflict node (cold_ops txn) = true.

Lemma entry_ok txns e txn : entry_to_txn txns e = Ok txn ↔ txns !! e = Some txn.
Proof.
  unfold entry_to_txn. split.
  - intros H. by minv.
  - intros H. rewrite bool_decide_true by (by eapply lookup_lt_Some). cbn [assert mbind outcome_bind]. by apply aget_ok.
Qed.

(** One turn of the loop: the front entry is run, put back if it rolled back. *)
Lemma leftover_turn fuel k txns w x e q :
  leftover_txns x = e :: q → queue_ok w x txns →
  ∃ txns' w' x' q', leftover_loop bm ext (S fuel) L k 0 txns w x = leftover_loop bm ext fuel L (S k) 0 txns' w' x'
    ∧ queue_ok w' x' txns' ∧ x_node x' = x_node x ∧ leftover_txns x' = q'
    ∧ (∀ e', stuck (x_node x) txns' e' ↔ stuck (x_node x) txns e')
    ∧ (stuck (x_node x) txns e ∧ q' = q ++ [e] ∨ ¬ stuck (x_node x) txns e ∧ q' = q).
Proof.
  intros Hq Hok. unfold queue_ok in Hok. rewrite Hq in Hok. pose proof Hok as Hall. apply Forall_cons in Hok as [(txn & Htxn & Hd) Hrest].
  destruct (execute_alone (ext_clock ext k) w x txn Hd) as (res & w' & x' & Hex & Hrc & Hagain).
  pose proof (execute_frame _ _ _ _ _ _ _ _ _ _ _ Hex) as (Hl & _ & _).
  assert (x_node x' = x_node x) as Hn.
  { pose proof Hex as Hex'. unfold execute in Hex'. minv. destruct r as [[locked w1] x1]. apply lock_loop_frame in E.
    destruct locked as [futs|]; minv.
    - destruct r as [[[ok reads] w2] x2]. apply apply_loop_frame in E0. destruct ok; cbn [negb] in Hex'; minv.
      + destruct r0 as [[rc w3] x3]. apply end_txn_frame in E2 as [_ Hf]. minv.
        rewrite (proj1 Hd : do_accel (set_id _ txn) = false) in E1. minv.
        rewrite (frame_node _ _ Hf). cbn. rewrite (frame_node _ _ E0), (frame_node _ _ E). done.
      + destruct r as [[rc w3] x3]. apply end_txn_frame in E1 as [_ Hf]. minv. rewrite (frame_node _ _ Hf). cbn.
        rewrite (frame_node _ _ E0), (frame_node _ _ E). done.
    - destruct r as [[rc w3] x3]. apply end_txn_frame in E0 as [_ Hf]. minv. rewrite (frame_node _ _ Hf). cbn.
      by rewrite (frame_node _ _ E). }
  set (txn' := set_id (set_valid false (txn_id txn)) txn) in *. apply entry_ok in Htxn as Hlk.
  set (q' := match r_rc res with ROLLBACK => q ++ [e] | COMMIT => q end).
  assert (∀ e', stuck (x_node x) (<[e := txn']> txns) e' ↔ stuck (x_node x) txns e') as Hst.
  { intros e'. unfold stuck. setoid_rewrite entry_ok. destruct (decide (e' = e)) as [->|Hne].
    - rewrite list_lookup_insert_eq by (by eapply lookup_lt_Some). rewrite Hlk. split; intros (t0 & [= <-] & Hc); eauto.
    - by rewrite list_lookup_insert_ne. }
  exists (<[e := txn']> txns), w', (set_leftover q' x'), q'. split_and!; try done.
  - cbn [leftover_loop]. rewrite decide_True by (rewrite Hq; cbn; lia). rewrite Hq, Htxn. cbn [mbind outcome_bind].
    rewrite Hex. cbn [mbind outcome_bind]. rewrite aset_lt by (by eapply lookup_lt_Some). cbn [mbind outcome_bind].
    rewrite Hl, Hq. unfold q'. by destruct (r_rc res).
  - unfold queue_ok. cbn [set_leftover leftover_txns].
    assert (Forall (λ e0, ∃ t0, entry_to_txn (<[e := txn']> txns) e0 = Ok t0 ∧ deferred_ok w' (set_leftover q' x') t0) (e :: q)) as Hall'.
    { eapply Forall_impl; [exact Hall|]. intros e0 (t0 & Ht0 & Hd0). apply entry_ok in Ht0. destruct (decide (e0 = e)) as [->|Hne].
      - exists txn'. split; [apply entry_ok, list_lookup_insert_eq; by eapply lookup_lt_Some|]. destruct Hd as [Ha Hs]. by apply (Hagain q' txn').
      - exists t0. split; [apply entry_ok; by rewrite list_lookup_insert_ne|]. by apply Hagain. }
    apply Forall_cons in Hall' as [He Hq']. unfold q' at 2. destruct (r_rc res); [done|]. apply Forall_app. by split; [|constructor].
  - assert (stuck (x_node x) txns e ↔ self_conflict (x_node x) (cold_ops txn) = true) as Hs.
    { unfold stuck. rewrite Htxn. split; [by intros (? & [= <-] & ?)|by eexists]. }
    rewrite Hs. unfold q'. destruct (self_conflict (x_node x) (cold_ops txn)); destruct (r_rc res); naive_solver.
Qed.

(** A queue with a stuck entry never empties. *)
Lemma leftover_loop_spins fuel k txns w x e :
  queue_ok w x txns → e ∈ leftover_txns x → stuck (x_node x) txns e → leftover_loop bm ext fuel L k 0 txns w x = Fail Spins.
Proof.
  revert k txns w x. induction fuel as [|fuel IH]; intros k txns w x Hok He Hst;
    (destruct (leftover_txns x) as [|e0 q] eqn:Hq; [by apply not_elem_of_nil in He|]).
  - cbn [leftover_loop]. rewrite Hq. cbn [length]. by rewrite decide_True by lia.
  - destruct (leftover_turn fuel k txns w x e0 q Hq Hok) as (txns' & w' & x' & q' & -> & Hok' & Hn & Hq' & Hst' & Hcase).
    apply IH; [done| |by rewrite Hn; apply Hst']. rewrite Hq'. apply elem_of_cons in He as [->|He].
    + destruct Hcase as [[_ ->]|[Hno _]]; [apply elem_of_app; right; by left|done].
    + destruct Hcase as [[_ ->]|[_ ->]]; [apply elem_of_app; by left|done].
Qed.

(** A queue without one is empty after one attempt per entry. *)
Lemma leftover_loop_ends fuel k txns w x :
  queue_ok w x txns → Forall (λ e, ¬ stuck (x_node x) txns e) (leftover_txns x) → (length (leftover_txns x) ≤ fuel)%nat →
  ∃ txns' w' x', leftover_loop bm ext fuel L k 0 txns w x = Ok (txns', w', x').
Proof.
  revert k txns w x. induction fuel as [|fuel IH]; intros k txns w x Hok Hno Hlen; destruct (leftover_txns x) as [|e q] eqn:Hq;
    try (do 3 eexists; cbn [leftover_loop]; rewrite Hq; cbn [length]; by rewrite decide_False by lia); [cbn in Hlen; lia|].
  apply Forall_cons in Hno as [Hne Hno].
  destruct (leftover_turn fuel k txns w x e q Hq Hok) as (txns' & w' & x' & q' & -> & Hok' & Hn & Hq' & Hst' & Hcase).
  destruct Hcase as [[Hs _]|[_ ->]]; [done|]. apply IH; [done| |rewrite Hq'; cbn in Hlen; lia].
  rewrite Hq', Hn. eapply Forall_impl; [exact Hno|]. intros e'. by rewrite Hst'.
Qed.

(** C38: when the leftover phase ends.  Fewer than a hundred deferred, not accelerated
    transactions of a worker are run while no other worker holds a lock.  If one
    of them names a row twice and does not only read it, every attempt of it
    rolls back on its own lock and it is queued again: [run_leftover_txns] never
    returns, whatever the number of attempts.  Otherwise each of them commits
    at its first attempt: the phase ends after as many executions as there are
    transactions, with all of them counted as commits. *)
Theorem leftovers_end_unless_stuck k txns w x :
  (length (leftover_txns x) < 100)%nat → queue_ok w x txns →
  ((∃ e, e ∈ leftover_txns x ∧ stuck (x_node x) txns e) →
     ∀ fuel, run_leftover_txns bm ext fuel L k txns w x = Fail Spins)
  ∧ (Forall (λ e, ¬ stuck (x_node x) txns e) (leftover_txns x) →
     ∀ fuel, (length (leftover_txns x) ≤ fuel)%nat →
     ∃ txns' w' x', run_leftover_txns bm ext fuel L k txns w x = Ok (txns', w', x') ∧ leftover_txns x' = []
       ∧ u64 (n_commits x') = u64 (n_commits x + Z.of_nat (length (leftover_txns x)))).
Proof.
  intros Hlt Hok. unfold run_leftover_txns. rewrite Nat.div_small by done. split.
  - intros (e & He & Hst) fuel. by rewrite (leftover_loop_spins fuel k txns w x e).
  - intros Hno fuel Hlen. destruct (leftover_loop_ends fuel k txns w x Hok Hno Hlen) as (txns' & w' & x' & Hl). rewrite Hl.
    cbn [mbind outcome_bind]. do 3 eexists. split; [done|]. split; [done|]. cbn [set_leftover n_commits].
    apply leftover_loop_accounts in Hl as [_ ->]; [|lia]. by rewrite Nat.sub_0_r.
Qed.
End leftover.

(** ** Examples *)

Lemma demo_deferred_ok v txn ts aborts :
  txn = BatchDemo.twice v ∨ txn = BatchDemo.reads → deferred_ok 0 2 BatchDemo.nodes (BatchDemo.deferred ts aborts) txn.
Proof.
  intros Htxn. split; [by destruct Htxn as [-> | ->]|].
  assert (∀ i n, BatchDemo.nodes !! i = Some n → n = BatchDemo.node (Z.of_nat i)) as Hnode by (intros [|[|i]] n Hn; by simplify_eq/=).
  assert (Forall (λ r, r = Demo.row 0) BatchDemo.rows) as Hrows by (by apply Forall_replicate).
  split.
  - split; [cbn; lia|]. intros i n Hn. apply lookup_lt_Some in Hn as Hi. rewrite (Hnode i n Hn). split; [done|done|done|].
    eexists. split_and!; [done|done|done|]. eapply Forall_impl; [exact Hrows|]. intros r ->. split; by vm_compute.
  - intros a r (n & t & Hn & Ht & Hr)%row_at_inv. rewrite (Hnode _ _ Hn) in Ht. cbn in Ht. injection Ht as <-. cbn [data] in Hr.
    rewrite (proj1 (Forall_lookup _ _) Hrows _ _ Hr). done.
  - intros [|t] th Ht; [|done]. injection Ht as <-. split; [split; cbn; lia| |destruct Htxn as [-> | ->]; split; by vm_compute|done|by left].
    destruct Htxn as [-> | ->]; repeat constructor; try (by vm_compute); by eexists.
  - intros [|t] th Ht; [|done]. by injection Ht as <-.
  - destruct Htxn as [-> | ->]; by vm_compute.
  - intros [|t] th Ht; [|done]. by injection Ht as <-.
  - intros [|t] th Ht; [|done]. by injection Ht as <-.
  - intros [|t1] [|t2] th1 th2 Ht1 Ht2; done.
Qed.

Lemma leftovers_end_unless_stuck_witness :
  run_leftover_txns default_build BatchDemo.ext 1000 small_layout 0 [BatchDemo.twice true] BatchDemo.nodes (BatchDemo.deferred 0 0) = Fail Spins
  ∧ ∃ txns' w' x', run_leftover_txns default_build BatchDemo.ext 1 small_layout 0 [BatchDemo.reads] BatchDemo.nodes (BatchDemo.deferred 0 0)
      = Ok (txns', w', x') ∧ leftover_txns x' = [].
Proof.
  split.
  - apply (leftovers_end_unless_stuck default_build BatchDemo.ext 0 2 small_layout 0 [BatchDemo.twice true] BatchDemo.nodes (BatchDemo.deferred 0 0)).
    + cbn. lia.
    + constructor; [|constructor]. eexists. split; [reflexivity|]. apply (demo_deferred_ok true). by left.
    + exists 0%nat. split; [by left|]. eexists. split; [reflexivity|by vm_compute].
  - destruct (leftovers_end_unless_stuck default_build BatchDemo.ext 0 2 small_layout 0 [BatchDemo.reads] BatchDemo.nodes (BatchDemo.deferred 0 0)) as [_ Hends].
    + cbn. lia.
    + constructor; [|constructor]. eexists. split; [reflexivity|]. apply (demo_deferred_ok true). by right.
    + destruct (Hends) with (fuel := 1%nat) as (txns' & w' & x' & H1 & H2 & _).
      * constructor; [|constructor]. intros (t & Ht & Hc). apply entry_ok in Ht. change (Some BatchDemo.reads = Some t) in Ht.
        injection Ht as <-. by vm_compute in Hc.
      * cbn. lia.
      * exists txns', w', x'. exact (conj H1 H2).
Defined.
