(* ===== verification/Barrier.v ===== *)
(** * Barriers

    The two barriers between which the batch pipeline runs:
    [reusable_barrier_t] (utils/rbarrier.hpp), the sense-free barrier of the
    worker threads of one node, and [BarrierHandler]
    (comm/handlers/barrier.cpp), the message barrier between nodes.  Both are
    step relations on shared counters: a thread that spins takes no step until
    the counter it reads lets it go. *)
From stdpp Require Import base tactics list numbers relations.
From Stdlib Require Import ZArith Lia.
From S2P Require Import Prelude Types.

#[local] Open Scope nat_scope.

(** ** Counting entries of a list *)

Lemma sum_insert {A} (f : A → nat) l i x y :
  l !! i = Some x → sum_list_with f (<[i:=y]> l) + f x = sum_list_with f l + f y.
Proof.
  revert i. induction l as [|a l IH]; intros [|i] H; simplify_eq/=; [lia|]. specialize (IH i H). lia.
Qed.

Section cnt.
Context {A : Type} (f : A → bool).

Definition cnt (l : list A) : nat := sum_list_with (λ x, Nat.b2n (f x)) l.

Lemma cnt_insert l i x y : l !! i = Some x → cnt (<[i:=y]> l) + Nat.b2n (f x) = cnt l + Nat.b2n (f y).
Proof. apply (sum_insert (λ x, Nat.b2n (f x))). Qed.

Lemma cnt_le l : cnt l ≤ length l.
Proof. induction l as [|a l IH]; unfold cnt in *; simpl; [lia|destruct (f a); simpl; lia]. Qed.

Lemma cnt_all l i x : cnt l = length l → l !! i = Some x → f x = true.
Proof.
  revert i. induction l as [|a l IH]; intros i Hc H; [done|]. pose proof (cnt_le l) as Hl.
  unfold cnt in *. simpl in Hc. destruct (f a) eqn:Ha; simpl in Hc; [|lia].
  destruct i as [|i]; simplify_eq/=; [done|]. eapply IH; [lia|done].
Qed.

Lemma cnt_none l i x : cnt l = 0 → l !! i = Some x → f x = false.
Proof.
  revert i. induction l as [|a l IH]; intros i Hc H; [done|].
  unfold cnt in *. simpl in Hc. destruct (f a) eqn:Ha; simpl in Hc; [lia|].
  destruct i as [|i]; simplify_eq/=; [done|]. eapply IH; [lia|done].
Qed.

Lemma cnt_replicate n x : cnt (replicate n x) = n * Nat.b2n (f x).
Proof. induction n as [|n IH]; unfold cnt in *; simpl; lia. Qed.

Lemma cnt_lt l : cnt l < length l → ∃ i x, l !! i = Some x ∧ f x = false.
Proof.
  induction l as [|a l IH]; unfold cnt in *; simpl; [lia|]. destruct (f a) eqn:Ha; simpl; intros H.
  - destruct IH as (i & x & ? & ?); [lia|]. by exists (S i), x.
  - by exists 0, a.
Qed.
End cnt.

(** ** The barrier of the worker threads *)

Module Local.

(** Where a thread is in [wait]: outside, spinning on [enter_ct], about to
    reset [enter_ct], before the middle function (with the flag
    [my_enter_ct == n_threads]), before the increment of [exit_ct], spinning on
    [exit_ct], about to reset [exit_ct]. *)
Inductive bar_stage := Out | SpinE | ResetE | Mid (last : bool) | AtExit | SpinX | ResetX.

#[global] Instance bar_stage_eq_dec : EqDecision bar_stage.
Proof. solve_decision. Defined.

(** A thread: how many calls of [wait] have returned, and its stage in the
    next one. *)
Notation thread := (nat * bar_stage)%type.

Record reusable_barrier_t := Bar {
  enter_ct : Z;
  exit_ct : Z;
  single : bool;
  threads : list thread;
  (** The calls of the middle function: thread and round. *)
  mf_log : list (nat * nat) }.

Definition n_threads (b : reusable_barrier_t) : nat := length (threads b).

Definition bar_init (n : nat) (sg : bool) : reusable_barrier_t := Bar 0 0 sg (replicate n (0, Out)) [].

Definition goto (b : reusable_barrier_t) (e x : Z) (t : nat) (th : thread) : reusable_barrier_t :=
  Bar e x (single b) (<[t:=th]> (threads b)) (mf_log b).

Definition log_mf (t r : nat) (b : reusable_barrier_t) : reusable_barrier_t :=
  Bar (enter_ct b) (exit_ct b) (single b) (threads b) (mf_log b ++ [(t, r)]).

(** The next atomic action of thread [t] in [wait], if it has one. *)
Definition wait_step (t : nat) (b : reusable_barrier_t) : option reusable_barrier_t :=
  let n := Z.of_nat (n_threads b) in
  let e := enter_ct b in
  let x := exit_ct b in
  '(r, st) ← threads b !! t;
  match st with
  | Out => let my_enter_ct := wrap 32 (e + 1) in
      Some (goto b my_enter_ct x t (r, if (my_enter_ct =? n)%Z then ResetE else SpinE))
  | ResetE => Some (goto b 0 x t (r, Mid true))
  | SpinE => if (e =? 0)%Z then Some (goto b e x t (r, Mid false)) else None
  | Mid last =>
      let b' := goto b e x t (r, AtExit) in
      Some (if negb (single b) || last then log_mf t r b' else b')
  | AtExit => let my_exit_ct := wrap 32 (x + 1) in
      Some (goto b e my_exit_ct t (r, if (my_exit_ct =? n)%Z then ResetX else SpinX))
  | ResetX => Some (goto b e 0 t (S r, Out))
  | SpinX => if (x =? 0)%Z then Some (goto b e x t (S r, Out)) else None
  end.

Definition bar_step (b b' : reusable_barrier_t) : Prop := ∃ t, wait_step t b = Some b'.

(** A schedule: the threads that act, in order. *)
Fixpoint bar_run (sched : list nat) (b : reusable_barrier_t) : option reusable_barrier_t :=
  match sched with [] => Some b | t :: sched => b' ← wait_step t b; bar_run sched b' end.

Lemma barrier_run_rtc sched b b' : bar_run sched b = Some b' → rtc bar_step b b'.
Proof.
  revert b. induction sched as [|t sched IH]; intros b H; simplify_eq/=; [done|].
  destruct (wait_step t b) as [b1|] eqn:E; simplify_eq/=. eapply rtc_l; [by exists t|eauto].
Qed.

(** *** The phases of a round *)

Definition is_st (s : bar_stage) (th : thread) : bool := bool_decide (th.2 = s).

Definition entering (g : nat) (th : thread) : Prop :=
  th = (g, Out) ∨ th = (g, SpinE) ∨ (∃ g', g = S g' ∧ th = (g', SpinX)).

Definition crossing (g : nat) (th : thread) : Prop :=
  th.1 = g ∧ (th.2 = SpinE ∨ (∃ l, th.2 = Mid l) ∨ th.2 = AtExit ∨ th.2 = SpinX).

(** The number of calls of the middle function in rounds before the [g]-th is
    [g] when only one thread makes it. *)
Definition logged (b : reusable_barrier_t) (k : nat) : Prop :=
  single b = true → (mf_log b).*2 = seq 0 k.

Inductive bar_inv (b : reusable_barrier_t) : Prop :=
| InvEnter g : Forall (entering g) (threads b) →
    enter_ct b = Z.of_nat (cnt (is_st SpinE) (threads b)) → exit_ct b = 0%Z →
    cnt (is_st SpinE) (threads b) < n_threads b → logged b g → bar_inv b
| InvEntered g i : i < n_threads b →
    threads b = <[i:=(g, ResetE)]> (replicate (n_threads b) (g, SpinE)) →
    enter_ct b = Z.of_nat (n_threads b) → exit_ct b = 0%Z → logged b g → bar_inv b
| InvCross g : Forall (crossing g) (threads b) →
    enter_ct b = 0%Z → exit_ct b = Z.of_nat (cnt (is_st SpinX) (threads b)) →
    cnt (is_st SpinX) (threads b) < n_threads b →
    (cnt (is_st (Mid true)) (threads b) = 1 ∧ logged b g
     ∨ cnt (is_st (Mid true)) (threads b) = 0 ∧ logged b (S g)) → bar_inv b
| InvCrossed g i : i < n_threads b →
    threads b = <[i:=(g, ResetX)]> (replicate (n_threads b) (g, SpinX)) →
    enter_ct b = 0%Z → exit_ct b = Z.of_nat (n_threads b) → logged b (S g) → bar_inv b.

(** All threads but [i] in one state: the list is that state replicated. *)
Lemma all_but_one (l : list thread) (g : nat) (s : bar_stage) i y :
  i < length l → Forall (λ th, th.2 = s → th.1 = g) l →
  cnt (is_st s) (<[i:=(g, s)]> l) = length l →
  <[i:=y]> l = <[i:=y]> (replicate (length l) (g, s)).
Proof.
  intros Hi Hg Hc. apply list_eq. intros j. destruct (decide (i = j)) as [->|Hn].
  - rewrite !list_lookup_insert_eq; [done|by rewrite length_replicate|done].
  - rewrite !list_lookup_insert_ne by done. destruct (l !! j) as [[r s']|] eqn:E.
    + assert (is_st s (r, s') = true) as Hs.
      { eapply (cnt_all _ (<[i:=(g,s)]> l) j); [by rewrite length_insert|by rewrite list_lookup_insert_ne]. }
      unfold is_st in Hs. apply bool_decide_eq_true in Hs. simpl in Hs. subst s'.
      rewrite Forall_lookup in Hg. specialize (Hg _ _ E eq_refl). simpl in Hg. subst r.
      symmetry. apply lookup_replicate. split; [done|]. by apply lookup_lt_Some in E.
    + symmetry. apply lookup_replicate_None. by apply lookup_ge_None in E.
Qed.

Lemma bar_init_inv n sg : 0 < n → bar_inv (bar_init n sg).
Proof.
  intros Hn. apply (InvEnter _ 0); unfold n_threads, bar_init; cbn [threads enter_ct exit_ct].
  - apply Forall_replicate. by left.
  - rewrite cnt_replicate. simpl. lia.
  - done.
  - rewrite cnt_replicate, length_replicate. simpl. lia.
  - done.
Qed.

(** *** Every step keeps the phases *)

Lemma goto_threads b e x t th : n_threads (goto b e x t th) = n_threads b.
Proof. unfold n_threads. simpl. by rewrite length_insert. Qed.

Lemma logged_goto b e x t th k : logged b k → logged (goto b e x t th) k.
Proof. done. Qed.

Lemma logged_mf b t g : logged b g → logged (log_mf t g b) (S g).
Proof. unfold logged. simpl. intros H Hs. rewrite fmap_app, (H Hs). symmetry. apply (seq_S g 0). Qed.

Lemma run_mf_step b e x t r g l k :
  logged b k → r = g → (single b = true → l = true → k = g) →
  let b' := goto b e x t (r, AtExit) in
  logged (if negb (single b) || l then log_mf t r b' else b') (if l then S g else k).
Proof.
  intros Hl -> Hk b'. destruct l; rewrite ?orb_true_r, ?orb_false_r.
  - intros Hs. specialize (Hk Hs eq_refl) as ->. by apply logged_mf.
  - unfold logged in *. destruct (single b) eqn:E; simpl; rewrite E; [exact Hl|done].
Qed.

Ltac count_at Ht y :=
  pose proof (cnt_insert (is_st SpinE) _ _ _ y Ht);
  pose proof (cnt_insert (is_st SpinX) _ _ _ y Ht);
  pose proof (cnt_insert (is_st (Mid true)) _ _ _ y Ht).

Lemma step_entering b b' t g :
  (Z.of_nat (n_threads b) < 2 ^ 32)%Z →
  Forall (entering g) (threads b) → enter_ct b = Z.of_nat (cnt (is_st SpinE) (threads b)) → exit_ct b = 0%Z →
  cnt (is_st SpinE) (threads b) < n_threads b → logged b g →
  wait_step t b = Some b' → bar_inv b'.
Proof.
  intros Hn Hf He Hx Hc Hl H. unfold wait_step in H. destruct (threads b !! t) as [th|] eqn:Ht; [|done].
  pose proof (Forall_lookup_1 _ _ _ _ Hf Ht) as [->|[->|(g' & -> & ->)]]; cbn -[wrap Z.pow] in H.
  - pose proof (wrap_small 32 (enter_ct b + 1)) as Hw. rewrite Hw in H by lia. clear Hw.
    destruct (enter_ct b + 1 =? _)%Z eqn:E; simplify_eq; [apply Z.eqb_eq in E|apply Z.eqb_neq in E].
    + apply (InvEntered _ g t); rewrite ?goto_threads; [by apply lookup_lt_Some in Ht| |simpl; lia|done|done].
      simpl. apply (all_but_one _ g SpinE); [by apply lookup_lt_Some in Ht| |].
      { eapply Forall_impl; [exact Hf|]. by intros ? [->|[->|(? & _ & ->)]]. }
      unfold n_threads in *. pose proof (cnt_insert (is_st SpinE) _ _ _ (g, SpinE) Ht) as Hi. simpl in Hi. lia.
    + pose proof (cnt_insert (is_st SpinE) _ _ _ (g, SpinE) Ht) as Hi. simpl in Hi.
      apply (InvEnter _ g); rewrite ?goto_threads; simpl; [apply Forall_insert; [done|right; by left]|lia|done|lia|done].
  - pose proof (cnt_insert (is_st SpinE) _ _ _ (g, Out) Ht) as Hi. simpl in Hi.
    destruct (Z.eqb_spec (enter_ct b) 0); [lia|done].
  - rewrite Hx in H. simplify_eq/=. pose proof (cnt_insert (is_st SpinE) _ _ _ (S g', Out) Ht) as Hi. simpl in Hi.
    apply (InvEnter _ (S g')); rewrite ?goto_threads; simpl; [apply Forall_insert; [done|by left]|lia|done|lia|done].
Qed.

Lemma lookup_one_rest (l : list thread) n i t (y z th : thread) :
  l = <[i:=y]> (replicate n z) → l !! t = Some th → t = i ∧ th = y ∨ t ≠ i ∧ th = z.
Proof.
  intros -> H. destruct (decide (t = i)) as [->|Hn].
  - rewrite list_lookup_insert_eq in H by (apply lookup_lt_Some in H; by rewrite length_insert in H). left. by simplify_eq.
  - rewrite list_lookup_insert_ne in H by done. apply lookup_replicate in H as [-> _]. by right.
Qed.

Lemma cnt_one_rest s n i (y z : thread) : i < n →
  cnt (is_st s) (<[i:=y]> (replicate n z)) + Nat.b2n (is_st s z) = n * Nat.b2n (is_st s z) + Nat.b2n (is_st s y).
Proof.
  intros Hi. rewrite <- (cnt_replicate (is_st s) n z). apply cnt_insert. by apply lookup_replicate.
Qed.

Lemma step_entered b b' t g i :
  i < n_threads b → threads b = <[i:=(g, ResetE)]> (replicate (n_threads b) (g, SpinE)) →
  enter_ct b = Z.of_nat (n_threads b) → exit_ct b = 0%Z → logged b g →
  wait_step t b = Some b' → bar_inv b'.
Proof.
  intros Hi Hth He Hx Hl H. unfold wait_step in H. destruct (threads b !! t) as [th|] eqn:Ht; [|done].
  destruct (lookup_one_rest _ _ _ _ _ _ _ Hth Ht) as [[-> ->]|[_ ->]]; cbn -[wrap Z.pow] in H; [|by destruct (Z.eqb_spec (enter_ct b) 0); [lia|]].
  simplify_eq. pose proof (cnt_one_rest SpinX (n_threads b) i (g, Mid true) (g, SpinE) Hi) as C1.
  pose proof (cnt_one_rest (Mid true) (n_threads b) i (g, Mid true) (g, SpinE) Hi) as C2. simpl in C1, C2.
  apply (InvCross _ g); rewrite ?goto_threads; simpl; rewrite ?Hth, ?list_insert_insert_eq.
  - apply Forall_insert; [|by split; [|right; left; eexists]]. apply Forall_replicate. by split; [|left].
  - done.
  - lia.
  - lia.
  - left. split; [lia|done].
Qed.

Lemma step_crossing b b' t g :
  (Z.of_nat (n_threads b) < 2 ^ 32)%Z →
  Forall (crossing g) (threads b) → enter_ct b = 0%Z → exit_ct b = Z.of_nat (cnt (is_st SpinX) (threads b)) →
  cnt (is_st SpinX) (threads b) < n_threads b →
  (cnt (is_st (Mid true)) (threads b) = 1 ∧ logged b g ∨ cnt (is_st (Mid true)) (threads b) = 0 ∧ logged b (S g)) →
  wait_step t b = Some b' → bar_inv b'.
Proof.
  intros Hn Hf He Hx Hc Hl H. unfold wait_step in H. destruct (threads b !! t) as [[r st]|] eqn:Ht; [|done].
  pose proof (Forall_lookup_1 _ _ _ _ Hf Ht) as [Hr Hs]. simpl in Hr. subst r.
  destruct Hs as [Hs|[[l Hs]|[Hs|Hs]]]; simpl in Hs; subst st; cbn -[wrap Z.pow] in H.
  - rewrite He in H. simplify_eq/=. count_at Ht (g, Mid false). apply (InvCross _ g); rewrite ?goto_threads; simpl in *; try lia; try done.
    + apply Forall_insert; [done|by split; [|right; left; eexists]].
    + destruct Hl as [[? ?]|[? ?]]; [left|right]; (split; [lia|done]).
  - assert (threads b' = <[t:=(g, AtExit)]> (threads b) ∧ enter_ct b' = enter_ct b ∧ exit_ct b' = exit_ct b ∧ n_threads b' = n_threads b) as (T1 & T2 & T3 & T4).
    { simplify_eq. unfold n_threads. destruct (_ || _); simpl; by rewrite length_insert. }
    count_at Ht (g, AtExit). apply (InvCross _ g); rewrite ?T1, ?T2, ?T3, ?T4; simpl in *; try lia; try done.
    + apply Forall_insert; [done|by split; [|right; right; left]].
    + destruct l; simpl in *.
      * right. split; [lia|]. injection H as <-. eapply (run_mf_step b _ _ t g g true g); [|done|done]. destruct Hl as [[? ?]|[? ?]]; [done|lia].
      * destruct Hl as [[? ?]|[? ?]]; [left|right]; (split; [lia|]); injection H as <-; by eapply (run_mf_step b _ _ t g g false).
  - pose proof (wrap_small 32 (exit_ct b + 1)) as Hw. rewrite Hw in H by lia. clear Hw.
    destruct (exit_ct b + 1 =? _)%Z eqn:E; simplify_eq; [apply Z.eqb_eq in E|apply Z.eqb_neq in E].
    + assert (<[t:=(g, ResetX)]> (threads b) = <[t:=(g, ResetX)]> (replicate (length (threads b)) (g, SpinX))) as Hall.
      { apply (all_but_one _ g SpinX); [by apply lookup_lt_Some in Ht| |].
        - eapply Forall_impl; [exact Hf|]. by intros ? [? _].
        - pose proof (cnt_insert (is_st SpinX) _ _ _ (g, SpinX) Ht) as Hi. simpl in Hi. unfold n_threads in *. lia. }
      apply (InvCrossed _ g t); rewrite ?goto_threads; simpl; [by apply lookup_lt_Some in Ht|done|done|lia|].
      destruct Hl as [[Hm _]|[_ Hl]]; [exfalso|done].
      apply lookup_lt_Some in Ht as Hlt.
      pose proof (cnt_one_rest (Mid true) (length (threads b)) t (g, ResetX) (g, SpinX) Hlt) as C. rewrite <- Hall in C.
      pose proof (cnt_insert (is_st (Mid true)) _ _ _ (g, ResetX) Ht) as Hi. simpl in *. lia.
    + count_at Ht (g, SpinX). apply (InvCross _ g); rewrite ?goto_threads; simpl in *; try lia; try done.
      * apply Forall_insert; [done|by split; [|right; right; right]].
      * destruct Hl as [[? ?]|[? ?]]; [left|right]; (split; [lia|done]).
  - pose proof (cnt_insert (is_st SpinX) _ _ _ (g, Out) Ht) as Hi. simpl in Hi.
    destruct (Z.eqb_spec (exit_ct b) 0); [lia|done].
Qed.

Lemma step_crossed b b' t g i :
  i < n_threads b → threads b = <[i:=(g, ResetX)]> (replicate (n_threads b) (g, SpinX)) →
  enter_ct b = 0%Z → exit_ct b = Z.of_nat (n_threads b) → logged b (S g) →
  wait_step t b = Some b' → bar_inv b'.
Proof.
  intros Hi Hth He Hx Hl H. unfold wait_step in H. destruct (threads b !! t) as [th|] eqn:Ht; [|done].
  destruct (lookup_one_rest _ _ _ _ _ _ _ Hth Ht) as [[-> ->]|[_ ->]]; cbn -[wrap Z.pow] in H; [|by destruct (Z.eqb_spec (exit_ct b) 0); [lia|]].
  simplify_eq. pose proof (cnt_one_rest SpinE (n_threads b) i (S g, Out) (g, SpinX) Hi) as C1. simpl in C1.
  apply (InvEnter _ (S g)); rewrite ?goto_threads; simpl; rewrite ?Hth, ?list_insert_insert_eq.
  - apply Forall_insert; [|by left]. apply Forall_replicate. right; right. by eexists.
  - lia.
  - done.
  - lia.
  - done.
Qed.

Lemma step_threads b b' : bar_step b b' → n_threads b' = n_threads b ∧ single b' = single b.
Proof.
  intros [t H]. unfold wait_step in H. destruct (threads b !! t) as [[r st]|]; [|done].
  unfold n_threads. destruct st; simpl in H; repeat case_match; simplify_eq/=; by rewrite length_insert.
Qed.

Lemma bar_inv_step b b' : (Z.of_nat (n_threads b) < 2 ^ 32)%Z → bar_inv b → bar_step b b' → bar_inv b'.
Proof.
  intros Hn Hi [t H]; destruct Hi; eauto using step_entering, step_entered, step_crossing, step_crossed.
Qed.

Lemma bar_inv_reach b b' : (Z.of_nat (n_threads b) < 2 ^ 32)%Z → bar_inv b → rtc bar_step b b' → bar_inv b' ∧ n_threads b' = n_threads b ∧ single b' = single b.
Proof.
  intros Hn Hi H. induction H as [|b b1 b2 Hs _ IH]; [done|].
  pose proof (step_threads _ _ Hs) as [Ht Hg]. rewrite <- Ht, <- Hg. apply IH; [by rewrite Ht|by eapply bar_inv_step].
Qed.

Lemma bar_reach_inv n sg b : 0 < n → (Z.of_nat n < 2 ^ 32)%Z → rtc bar_step (bar_init n sg) b →
  bar_inv b ∧ n_threads b = n ∧ single b = sg.
Proof.
  intros Hn Hb H. assert (n_threads (bar_init n sg) = n) as Hi by (unfold n_threads; simpl; apply length_replicate).
  destruct (bar_inv_reach (bar_init n sg) b) as (? & Ht & ?); [by rewrite Hi|by apply bar_init_inv|done|]. by rewrite Ht, Hi.
Qed.

Definition inside (th : thread) : Prop := th.2 ≠ Out.

Lemma inv_rounds b i j ri rj si sj : bar_inv b →
  threads b !! i = Some (ri, si) → threads b !! j = Some (rj, sj) → rj < ri → ri = S rj ∧ sj = SpinX.
Proof.
  intros [g Hf|g k Hk Ht|g Hf|g k Hk Ht] Hi Hj Hlt.
  - pose proof (Forall_lookup_1 _ _ _ _ Hf Hi) as [?|[?|(? & ? & ?)]]; pose proof (Forall_lookup_1 _ _ _ _ Hf Hj) as [?|[?|(? & ? & ?)]]; simplify_eq; try lia; done.
  - destruct (lookup_one_rest _ _ _ _ _ _ _ Ht Hi) as [[? ?]|[? ?]], (lookup_one_rest _ _ _ _ _ _ _ Ht Hj) as [[? ?]|[? ?]]; simplify_eq; lia.
  - pose proof (Forall_lookup_1 _ _ _ _ Hf Hi) as [? _]; pose proof (Forall_lookup_1 _ _ _ _ Hf Hj) as [? _]; simplify_eq/=; lia.
  - destruct (lookup_one_rest _ _ _ _ _ _ _ Ht Hi) as [[? ?]|[? ?]], (lookup_one_rest _ _ _ _ _ _ _ Ht Hj) as [[? ?]|[? ?]]; simplify_eq; lia.
Qed.

Lemma inv_logged b : bar_inv b → ∃ k, logged b k.
Proof. intros [| | ? ? ? ? ? [[_ ?]|[_ ?]]|]; eauto. Qed.

Lemma inv_mid b t r l : bar_inv b → threads b !! t = Some (r, Mid l) →
  Forall (λ th, th.1 = r ∧ inside th) (threads b).
Proof.
  intros Hi H. destruct Hi as [g Hf|g k Hk Ht|g Hf|g k Hk Ht].
  - by pose proof (Forall_lookup_1 _ _ _ _ Hf H) as [?|[?|(? & ? & ?)]].
  - by destruct (lookup_one_rest _ _ _ _ _ _ _ Ht H) as [[? ?]|[? ?]].
  - pose proof (Forall_lookup_1 _ _ _ _ Hf H) as [E _]. simpl in E. subst r. eapply Forall_impl; [exact Hf|].
    intros [r s] [-> Hs]. split; [done|]. unfold inside. naive_solver.
  - by destruct (lookup_one_rest _ _ _ _ _ _ _ Ht H) as [[? ?]|[? ?]].
Qed.

Lemma wait_step_log t b b' : wait_step t b = Some b' → mf_log b' ≠ mf_log b →
  ∃ r l, threads b !! t = Some (r, Mid l) ∧ mf_log b' = mf_log b ++ [(t, r)].
Proof.
  intros H Hl. unfold wait_step in H. destruct (threads b !! t) as [[r st]|]; [|done].
  destruct st; simpl in H; repeat case_match; simplify_eq/=; try done. by eexists _, _.
Qed.

(** A thread that is inside [wait] and cannot go on is spinning. *)
Lemma inv_progress b : bar_inv b → Forall inside (threads b) → ∃ b', bar_step b b'.
Proof.
  intros [g Hf He Hx Hc|g k Hk Ht|g Hf He Hx Hc|g k Hk Ht] Hin.
  - destruct (cnt_lt _ _ Hc) as (t & th & Ht & Hs).
    pose proof (Forall_lookup_1 _ _ _ _ Hin Ht) as Hi.
    pose proof (Forall_lookup_1 _ _ _ _ Hf Ht) as [->|[->|(g' & -> & ->)]]; [done|done|].
    eexists _, t. unfold wait_step. rewrite Ht, Hx. done.
  - eexists _, k. unfold wait_step. rewrite Ht, list_lookup_insert_eq by (by rewrite length_replicate). done.
  - destruct (cnt_lt _ _ Hc) as (t & [r s] & Ht & Hs).
    pose proof (Forall_lookup_1 _ _ _ _ Hf Ht) as [_ Hst]. simpl in Hst.
    destruct Hst as [->|[[l ->]|[->| ->]]]; [..|done]; eexists _, t; unfold wait_step; rewrite Ht, ?He; done.
  - eexists _, k. unfold wait_step. rewrite Ht, list_lookup_insert_eq by (by rewrite length_replicate). done.
Qed.

(** How far a thread is: five actions a round. *)
Definition pts (th : thread) : nat :=
  5 * th.1 + match th.2 with Out => 0 | SpinE | ResetE => 1 | Mid _ => 2 | AtExit => 3 | SpinX | ResetX => 4 end.

Lemma step_pts b b' : bar_step b b' → sum_list_with pts (threads b') = S (sum_list_with pts (threads b)).
Proof.
  intros [t H]. unfold wait_step in H. destruct (threads b !! t) as [[r st]|] eqn:Ht; [|done].
  destruct st; simpl in H; repeat case_match; simplify_eq/=;
    lazymatch goal with |- context [<[?t:=?y]> ?l] => pose proof (sum_insert pts l t _ y Ht) as E end;
    unfold pts at 2 4 in E; simpl in E; lia.
Qed.

Lemma nsteps_pts m b b' : nsteps bar_step m b b' → sum_list_with pts (threads b') = m + sum_list_with pts (threads b).
Proof.
  induction 1 as [|m b b1 b2 Hs _ IH]; [done|]. rewrite IH, (step_pts _ _ Hs). lia.
Qed.

Lemma sum_lt {A} (f : A → nat) l k : l ≠ [] → Forall (λ x, f x < k) l → sum_list_with f l < k * length l.
Proof.
  intros Hne H. induction H as [|x l Hx Hl IH]; [done|]. simpl. destruct l as [|y l]; [simpl; lia|].
  specialize (IH ltac:(done)). simpl in *. lia.
Qed.

(** *** What the barrier promises *)

(** C24: no thread returns from its [r]-th call of [wait] before every thread
    has entered its own [r]-th call, although the barrier is reused without a
    generation number: whenever one thread has returned more often than
    another, it is ahead by exactly one call, and the other has passed the
    middle function of that call and only has to notice that [exit_ct] was
    reset. *)
Theorem barrier_separates_rounds n sg b i j ri rj si sj :
  0 < n → (Z.of_nat n < 2 ^ 32)%Z → rtc bar_step (bar_init n sg) b →
  threads b !! i = Some (ri, si) → threads b !! j = Some (rj, sj) → rj < ri →
  ri = S rj ∧ sj = SpinX.
Proof.
  intros Hn Hb H. apply inv_rounds. by apply (bar_reach_inv n sg).
Qed.

(** The state after the first of two threads has left its first round and the
    other has not. *)
Definition demo : reusable_barrier_t :=
  Bar 0 0 true [(0, SpinX); (1, Out)] [(1, 0)].

Lemma demo_reached : bar_run [0; 1; 1; 0; 1; 0; 0; 1; 1] (bar_init 2 true) = Some demo.
Proof. reflexivity. Qed.

Lemma barrier_separates_rounds_witness :
  rtc bar_step (bar_init 2 true) demo ∧ 1 = 1 ∧ SpinX = SpinX.
Proof.
  pose proof (barrier_run_rtc _ _ _ demo_reached) as H. split; [exact H|].
  refine (barrier_separates_rounds 2 true demo 1 0 1 0 Out SpinX _ _ H _ _ _); [lia|lia|reflexivity|reflexivity|lia].
Defined.

(** The middle function (the exchange with the other nodes) runs in a
    round only while every thread is inside that round's call, none before its
    entry and none after its return; and a barrier made with [single] runs it
    exactly once a round, in the order of the rounds. *)
Theorem barrier_middle_once n sg b :
  0 < n → (Z.of_nat n < 2 ^ 32)%Z → rtc bar_step (bar_init n sg) b →
  (sg = true → ∃ k, (mf_log b).*2 = seq 0 k)
  ∧ (∀ t b', wait_step t b = Some b' → mf_log b' ≠ mf_log b →
       ∃ r, mf_log b' = mf_log b ++ [(t, r)] ∧ Forall (λ th, th.1 = r ∧ inside th) (threads b)).
Proof.
  intros Hn Hb H. destruct (bar_reach_inv n sg b Hn Hb H) as (Hi & _ & Hs). split.
  - intros ->. destruct (inv_logged b Hi) as [k Hk]. exists k. by apply Hk.
  - intros t b' Hw Hl. destruct (wait_step_log _ _ _ Hw Hl) as (r & l & Ht & ->). exists r. eauto using inv_mid.
Qed.

Lemma barrier_middle_once_witness :
  rtc bar_step (bar_init 2 true) demo ∧ ∃ k, (mf_log demo).*2 = seq 0 k.
Proof.
  pose proof (barrier_run_rtc _ _ _ demo_reached) as H. split; [exact H|].
  refine (proj1 (barrier_middle_once 2 true demo _ _ H) eq_refl); lia.
Defined.

(** C25: the barrier is live.  While every thread is inside [wait] some thread
    can act, and the actions cannot be spent without completing rounds: a call
    costs a thread five actions and no thread gets more than a round ahead, so
    after [5 * n * (k + 1)] actions of [n] threads, in whatever order, every
    thread has returned from at least [k] calls.  (After [5 * n * k] actions a
    thread may have returned from fewer.) *)
Theorem barrier_live n sg m k b :
  0 < n → (Z.of_nat n < 2 ^ 32)%Z → nsteps bar_step m (bar_init n sg) b →
  (Forall inside (threads b) → ∃ b', bar_step b b')
  ∧ (5 * n * (k + 1) ≤ m → ∀ t r s, threads b !! t = Some (r, s) → k ≤ r).
Proof.
  intros Hn Hb H. assert (rtc bar_step (bar_init n sg) b) as Hr by (by eapply rtc_nsteps_2).
  destruct (bar_reach_inv n sg b Hn Hb Hr) as (Hi & Hlen & _). split; [by apply inv_progress|].
  intros Hm t r s Ht. destruct (decide (k ≤ r)) as [|Hk]; [done|exfalso].
  apply nsteps_pts in H. simpl in H.
  assert (sum_list_with pts (threads b) < 5 * (k + 1) * length (threads b)) as Hlt.
  { apply sum_lt; [by intros E; rewrite E in Ht|]. apply Forall_lookup. intros j [rj sj] Hj.
    assert (rj ≤ k). { destruct (decide (r < rj)) as [E|]; [|lia]. destruct (inv_rounds b j t rj r sj s Hi Hj Ht E). lia. }
    unfold pts. destruct sj; simpl; lia. }
  unfold n_threads in Hlen. rewrite Hlen in Hlt. nia.
Qed.

(** Two threads in lock step. *)
Fixpoint rounds (k : nat) : list nat :=
  match k with 0 => [] | S k => [0; 1; 1; 0; 1; 0; 0; 1; 1; 0] ++ rounds k end.

Lemma run_nsteps sched b b' : bar_run sched b = Some b' → nsteps bar_step (length sched) b b'.
Proof.
  revert b. induction sched as [|t sched IH]; intros b H; simplify_eq/=; [constructor|].
  destruct (wait_step t b) as [b1|] eqn:E; simplify_eq/=. econstructor; [by exists t|eauto].
Qed.

Lemma rounds_reached : bar_run (rounds 3) (bar_init 2 true) = Some (Bar 0 0 true [(3, Out); (3, Out)] [(1, 0); (1, 1); (1, 2)]).
Proof. vm_compute. reflexivity. Qed.

Lemma barrier_live_witness :
  Forall (λ rs, 2 ≤ rs.1) [(3, Out); (3, Out)].
Proof.
  apply Forall_lookup. intros t [r s].
  refine (proj2 (barrier_live 2 true 30 2 _ _ _ (run_nsteps (rounds 3) _ _ rounds_reached)) _ t r s); lia.
Defined.
End Local.

(** ** The barrier between nodes *)

Module Nodes.

(** Where the thread that runs [critical_wait] is: outside, in the sending
    loop of [my_wait] with the loop index, in its spin on [received], before
    the decrement. *)
Inductive wait_stage := Idle | Sending (i : nat) | Spin | Dec.

#[global] Instance wait_stage_eq_dec : EqDecision wait_stage.
Proof. solve_decision. Defined.

(** A node: its [BarrierHandler]'s counter, the calls of [critical_wait] that
    have returned, the stage of the next one, and the [msg::Barrier] messages
    on their way to it (the handler looks at neither their sender nor their
    number). *)
Record barrier_node := Node { received : Z; returned : nat; at_ : wait_stage; inbox : nat }.

#[global] Instance barrier_node_eq_dec : EqDecision barrier_node.
Proof. solve_decision. Defined.

Definition nodes_init (num_nodes : nat) : list barrier_node := replicate num_nodes (Node 0 0 Idle 0).

(** The network thread runs [BarrierHandler::handle] on a message. *)
Definition barrier_handle (nd : barrier_node) : option barrier_node :=
  match inbox nd with
  | 0 => None
  | S k => Some (Node (wrap 32 (received nd + 1)) (returned nd) (at_ nd) k)
  end.

Definition send (nd : barrier_node) : barrier_node := Node (received nd) (returned nd) (at_ nd) (S (inbox nd)).

Definition goto_stage (st : wait_stage) (nd : barrier_node) : barrier_node := Node (received nd) (returned nd) st (inbox nd).

(** The next action of [critical_wait] (and of [my_wait] in it) on node [id]. *)
Definition critical_wait_step (id : nat) (ns : list barrier_node) : option (list barrier_node) :=
  nd ← ns !! id;
  match at_ nd with
  | Idle => Some (<[id := goto_stage (Sending 0) nd]> ns)
  | Sending i =>
      if decide (i < length ns) then
        let ns' := if decide (i = id) then ns else alter send i ns in
        Some (alter (goto_stage (Sending (S i))) id ns')
      else Some (<[id := goto_stage Spin nd]> ns)
  | Spin =>
      if (received nd =? wrap 32 (Z.of_nat (length ns) - 1))%Z then Some (<[id := goto_stage Dec nd]> ns) else None
  | Dec => Some (<[id := Node (wrap 32 (received nd + -1)) (S (returned nd)) Idle (inbox nd)]> ns)
  end.

Inductive action := Handle (id : nat) | Wait (id : nat).

Definition act (a : action) (ns : list barrier_node) : option (list barrier_node) :=
  match a with
  | Handle id => nd ← ns !! id; nd' ← barrier_handle nd; Some (<[id := nd']> ns)
  | Wait id => critical_wait_step id ns
  end.

Definition nodes_step (ns ns' : list barrier_node) : Prop := ∃ a, act a ns = Some ns'.

Fixpoint run_nodes (sched : list action) (ns : list barrier_node) : option (list barrier_node) :=
  match sched with [] => Some ns | a :: sched => ns' ← act a ns; run_nodes sched ns' end.

Lemma run_nodes_rtc sched ns ns' : run_nodes sched ns = Some ns' → rtc nodes_step ns ns'.
Proof.
  revert ns. induction sched as [|a sched IH]; intros ns H; simplify_eq/=; [done|].
  destruct (act a ns) as [n1|] eqn:E; simplify_eq/=. eapply rtc_l; [by exists a|eauto].
Qed.

(** How many calls of [critical_wait] a node has begun. *)
Definition begun (nd : barrier_node) : nat :=
  returned nd + match at_ nd with Idle => 0 | _ => 1 end.

(** Messages node [id] has sent to node [o]. *)
Definition sent (o : nat) (nd : barrier_node) : nat :=
  returned nd + match at_ nd with Idle => 0 | Sending i => if decide (o < i) then 1 else 0 | Spin | Dec => 1 end.

(** Two nodes: what one has sent is counted, on its way, or was taken off by
    the other's completed calls. *)
Definition link (o : nat) (a b : barrier_node) : Prop :=
  (0 ≤ received b)%Z ∧ Z.of_nat (sent o a) = (received b + Z.of_nat (inbox b) + Z.of_nat (returned b))%Z
  ∧ (at_ b = Dec → (1 ≤ received b)%Z).

Definition inv2 (ns : list barrier_node) : Prop :=
  ∃ a b, ns = [a; b] ∧ link 1 a b ∧ link 0 b a ∧ (∀ i, at_ a = Sending i → i ≤ 2) ∧ (∀ i, at_ b = Sending i → i ≤ 2).

Lemma sent_begun o nd : sent o nd ≤ begun nd.
Proof. unfold sent, begun. destruct (at_ nd); repeat case_decide; lia. Qed.

Lemma link_received o o' a b : link o a b → link o' b a → (received b ≤ 2)%Z ∧ (received a ≤ 2)%Z.
Proof.
  intros (R1 & E1 & _) (R2 & E2 & _).
  pose proof (sent_begun o a). pose proof (sent_begun o' b).
  assert (begun a ≤ S (returned a)) by (unfold begun; destruct (at_ a); lia).
  assert (begun b ≤ S (returned b)) by (unfold begun; destruct (at_ b); lia). lia.
Qed.

Ltac small32 :=
  repeat match goal with
  | H : context [wrap 32 ?z] |- _ => rewrite (wrap_small 32 z) in H by lia
  | |- context [wrap 32 ?z] => rewrite (wrap_small 32 z) by lia
  end.

Lemma barrier_handle_inv a b b' o o' :
  link o a b → link o' b a → barrier_handle b = Some b' →
  link o a b' ∧ link o' b' a ∧ at_ b' = at_ b.
Proof.
  intros L1 L2 H. pose proof (link_received _ _ _ _ L1 L2) as [? ?]. destruct b as [r k st ib], L1 as (? & ? & ?).
  unfold barrier_handle in H. simpl in *. destruct ib as [|ib]; simplify_eq. unfold link in *. simpl in *. small32.
  split_and!; naive_solver lia.
Qed.

(** One action of node [a]'s thread, the other node being [b]: how the two
    change.  [oa] is the index of [a] and [ob] that of [b]. *)
Lemma wait_cases oa ob a b ns ns' :
  ns = [a; b] ∧ oa = 0 ∧ ob = 1 ∨ ns = [b; a] ∧ oa = 1 ∧ ob = 0 →
  critical_wait_step oa ns = Some ns' →
  ∃ a' b', (oa = 0 ∧ ns' = [a'; b'] ∨ oa = 1 ∧ ns' = [b'; a']) ∧
    match at_ a with
    | Idle => a' = goto_stage (Sending 0) a ∧ b' = b
    | Sending i =>
        if decide (i < 2) then a' = goto_stage (Sending (S i)) a ∧ b' = (if decide (i = ob) then send b else b)
        else a' = goto_stage Spin a ∧ b' = b
    | Spin => received a = 1%Z ∧ a' = goto_stage Dec a ∧ b' = b
    | Dec => a' = Node (wrap 32 (received a + -1)) (S (returned a)) Idle (inbox a) ∧ b' = b
    end.
Proof.
  assert (wrap 32 (Z.of_nat 2 - 1) = 1%Z) as W by reflexivity.
  intros [(-> & -> & ->)|(-> & -> & ->)] H; unfold critical_wait_step in H; cbn [lookup list_lookup mbind option_bind length] in H;
    destruct (at_ a) as [|i| |].
  all: try (rewrite W in H; destruct (Z.eqb_spec (received a) 1); simplify_eq/=; by eauto 10).
  all: try (simplify_eq/=; by eauto 10).
  all: destruct i as [|[|i]]; [simplify_eq/=; by eauto 10..|].
  all: rewrite decide_False in H by lia; rewrite decide_False by lia; simplify_eq/=; by eauto 10.
Qed.

Lemma wait_inv oa ob a b a' b' :
  oa = 0 ∧ ob = 1 ∨ oa = 1 ∧ ob = 0 →
  link ob a b → link oa b a → (∀ i, at_ a = Sending i → i ≤ 2) → (∀ i, at_ b = Sending i → i ≤ 2) →
  match at_ a with
  | Idle => a' = goto_stage (Sending 0) a ∧ b' = b
  | Sending i =>
      if decide (i < 2) then a' = goto_stage (Sending (S i)) a ∧ b' = (if decide (i = ob) then send b else b)
      else a' = goto_stage Spin a ∧ b' = b
  | Spin => received a = 1%Z ∧ a' = goto_stage Dec a ∧ b' = b
  | Dec => a' = Node (wrap 32 (received a + -1)) (S (returned a)) Idle (inbox a) ∧ b' = b
  end →
  link ob a' b' ∧ link oa b' a' ∧ (∀ i, at_ a' = Sending i → i ≤ 2) ∧ (∀ i, at_ b' = Sending i → i ≤ 2).
Proof.
  intros Ho L1 L2 Sa Sb H. pose proof (link_received _ _ _ _ L1 L2) as [? ?].
  destruct L1 as (R1 & E1 & D1), L2 as (R2 & E2 & D2). destruct a as [ra ka sa ia], b as [rb kb sb ib].
  unfold link, goto_stage, send in *. cbn [at_ received returned inbox] in *.
  destruct sa as [|i| |].
  - destruct H as [-> ->]. unfold sent in *. simpl in *. repeat case_decide; split_and!; naive_solver lia.
  - pose proof (Sa i eq_refl). destruct (decide (i < 2)); destruct H as [-> ->]; unfold sent in *; simpl in *;
      repeat case_decide; simpl in *; split_and!; naive_solver lia.
  - destruct H as (-> & -> & ->). unfold sent in *. simpl in *. split_and!; naive_solver lia.
  - destruct H as (-> & ->). specialize (D2 eq_refl). unfold sent in *. simpl in *. small32. split_and!; naive_solver lia.
Qed.

Lemma inv2_step ns ns' : inv2 ns → nodes_step ns ns' → inv2 ns'.
Proof.
  intros (a & b & -> & L1 & L2 & Sa & Sb) [[id|id] H]; simpl in H.
  - destruct id as [|[|id]]; simpl in H; [| |done].
    + destruct (barrier_handle a) as [a'|] eqn:E; simplify_eq/=. destruct (barrier_handle_inv b a a' 0 1 L2 L1 E) as (? & ? & S').
      exists a', b. rewrite S'. done.
    + destruct (barrier_handle b) as [b'|] eqn:E; simplify_eq/=. destruct (barrier_handle_inv a b b' 1 0 L1 L2 E) as (? & ? & S').
      exists a, b'. rewrite S'. done.
  - destruct id as [|[|id]]; [..|done].
    + destruct (wait_cases 0 1 a b _ _ ltac:(by left) H) as (a' & b' & [[_ ->]|[? _]] & C); [|done].
      destruct (wait_inv 0 1 a b a' b' ltac:(by left) L1 L2 Sa Sb C) as (? & ? & ? & ?). by exists a', b'.
    + destruct (wait_cases 1 0 b a _ _ ltac:(by right) H) as (b' & a' & [[? _]|[_ ->]] & C); [done|].
      destruct (wait_inv 1 0 b a b' a' ltac:(by right) L2 L1 Sb Sa C) as (? & ? & ? & ?). by exists a', b'.
Qed.

Lemma inv2_reach ns : rtc nodes_step (nodes_init 2) ns → inv2 ns.
Proof.
  assert (inv2 (nodes_init 2)) as Hi. { eexists _, _. split; [done|]. unfold link. simpl. split_and!; done || lia. }
  intros H. revert Hi. generalize (nodes_init 2) H. clear H. intros ns0 H. induction H; eauto using inv2_step.
Qed.

(** C26: with two nodes the message barrier is a barrier: at any moment, and
    however messages are delayed, a node has returned from at most as many
    calls as the other node has begun. *)
Theorem node_barrier_safe ns id o nd no :
  rtc nodes_step (nodes_init 2) ns → ns !! id = Some nd → ns !! o = Some no → id ≠ o →
  returned nd ≤ begun no.
Proof.
  intros H Hi Ho Hne. destruct (inv2_reach ns H) as (a & b & -> & (R1 & E1 & _) & (R2 & E2 & _) & _).
  pose proof (sent_begun 1 a). pose proof (sent_begun 0 b).
  destruct id as [|[|id]], o as [|[|o]]; simplify_eq/=; lia.
Qed.

(** Both nodes reach the barrier; node 1 returns, begins the next call, and
    its second message is handled while node 0 has not yet re-read
    [received]. *)
Definition overrun : list action :=
  [Wait 0; Wait 0; Wait 0; Wait 0; Wait 1; Wait 1; Wait 1; Wait 1; Handle 1; Wait 1; Wait 1;
   Wait 1; Wait 1; Wait 1; Wait 1; Handle 0; Handle 0].

Definition stuck : list barrier_node := [Node 2 0 Spin 0; Node 0 1 Spin 0].

Lemma overrun_stuck : run_nodes overrun (nodes_init 2) = Some stuck.
Proof. vm_compute. reflexivity. Qed.

Lemma node_barrier_safe_witness : rtc nodes_step (nodes_init 2) stuck ∧ 1 ≤ 1.
Proof.
  pose proof (run_nodes_rtc _ _ _ overrun_stuck) as H. split; [exact H|].
  refine (node_barrier_safe stuck 1 0 _ _ H eq_refl eq_refl _). done.
Defined.

(** C39: two nodes can block each other for good.  [my_wait] leaves its spin
    only when it reads exactly [num_nodes - 1], and [handle] counts messages
    at once (they are not queued until the node waits again): a node that
    begins its next call before the other has re-read [received] pushes that
    counter to 2, and then neither node, nor the network, has an action
    left, with one call of the first node still pending. *)
Theorem node_barrier_deadlock :
  ∃ ns, rtc nodes_step (nodes_init 2) ns
    ∧ (∀ a, act a ns = None)
    ∧ (∃ nd, ns !! 0 = Some nd ∧ begun nd = 1 ∧ returned nd = 0).
Proof.
  exists stuck. split; [exact (run_nodes_rtc _ _ _ overrun_stuck)|]. split; [|by eexists].
  intros [id|id]; destruct id as [|[|id]]; reflexivity.
Qed.

Definition three_rounds : list action :=
  flat_map (λ i, [Wait i; Wait i; Wait i; Wait i; Wait i]) [0; 1; 2]
  ++ [Handle 0; Handle 0; Handle 1; Handle 1; Handle 2; Handle 2]
  ++ flat_map (λ i, [Wait i; Wait i]) [0; 1; 2]
  ++ flat_map (λ i, [Wait i; Wait i; Wait i; Wait i; Wait i]) [0; 1]
  ++ [Handle 0; Wait 0; Wait 0].

(** With three nodes it is not: the decrement takes one message off
    although two were counted, so that a node returns from its second call
    when a node has not begun its own second call. *)
Theorem node_barrier_three_nodes :
  ∃ ns nd no, rtc nodes_step (nodes_init 3) ns ∧ ns !! 0 = Some nd ∧ ns !! 2 = Some no ∧ begun no < returned nd.
Proof.
  assert (∃ ns, run_nodes three_rounds (nodes_init 3) = Some ns ∧ ns !! 0 = Some (Node 1 2 Idle 0) ∧ ns !! 2 = Some (Node 1 1 Idle 2))
    as (ns & Hr & H0 & H2) by (eexists; vm_compute; done).
  exists ns, (Node 1 2 Idle 0), (Node 1 1 Idle 2). split; [exact (run_nodes_rtc _ _ _ Hr)|]. repeat split; [done|done|].
  unfold begun. simpl. lia.
Qed.
End Nodes.
