(* ===== verification/OldBarrier.v ===== *)
(** * The node barrier with a mask of nodes

    [comm/handlers/barrier.cxx], a version of the node barrier next to
    [barrier.cpp] that the build does not select.  [received] is a mask with one
    bit for every other node instead of a counter, and messages of a node whose
    bit is set already are queued.  The first barrier works; the decrement at its
    end, left over from the counter, spoils the mask for all later ones. *)
From stdpp Require Import base tactics list numbers relations.
From Stdlib Require Import ZArith Lia.
From S2P Require Import Prelude.

#[local] Open Scope Z_scope.

(** Where the thread that runs [critical_wait] is: outside, in the spin of
    [my_wait], before the decrement. *)
Inductive mask_stage := MIdle | MSpin | MDec.

(** [BarrierHandler] of one node.  [todo] counts the iterations left of the loop
    of [handle], which only the network thread runs. *)
Record mask_node := MkMask { m_received : Z; m_q : list Z; todo : nat; m_returned : nat; m_at : mask_stage }.

Section node.
Context (num_nodes node_id : Z).

Definition all_nodes_mask : Z := Z.land (Z.shiftl 1 num_nodes - 1) (Z.lnot (Z.shiftl 1 node_id)).

(** The constructor. *)
Definition mask_make : mask_node := MkMask 0 [] 0 0 MIdle.

(** [handle]: the new message is queued; *)
Definition mask_arrive (sender : Z) (nd : mask_node) : mask_node :=
  let q := m_q nd ++ [sender] in MkMask (m_received nd) q (length q) (m_returned nd) (m_at nd).

(** then every queued message is looked at once.  The test and the addition of
    one iteration are one step: the decrement of the waiting thread commutes with
    the addition. *)
Definition mask_iter (nd : mask_node) : option mask_node :=
  match todo nd, m_q nd with
  | S k, sender :: q =>
      if negb (Z.land (m_received nd) (Z.shiftl 1 sender) =? 0)
      then Some (MkMask (m_received nd) (q ++ [sender]) k (m_returned nd) (m_at nd))
      else Some (MkMask (wrap 32 (m_received nd + Z.shiftl 1 sender)) q k (m_returned nd) (m_at nd))
  | _, _ => None
  end.

(** The nodes [my_wait] sends to. *)
Definition mask_targets : list Z := filter (λ i, i ≠ node_id) (Z.of_nat <$> seq 0 (Z.to_nat num_nodes)).

(** [critical_wait]: the messages are sent, the spin is left, the decrement. *)
Definition mask_wait (nd : mask_node) : option mask_node :=
  match m_at nd with
  | MIdle => Some (MkMask (m_received nd) (m_q nd) (todo nd) (m_returned nd) MSpin)
  | MSpin => if m_received nd =? all_nodes_mask then Some (MkMask (m_received nd) (m_q nd) (todo nd) (m_returned nd) MDec) else None
  | MDec => Some (MkMask (wrap 32 (m_received nd + -1)) (m_q nd) (todo nd) (S (m_returned nd)) MIdle)
  end.

(** What the node can do next. *)
Inductive mask_step (nd : mask_node) : mask_node → Prop :=
  | ms_arrive s : s ∈ mask_targets → todo nd = 0%nat → mask_step nd (mask_arrive s nd)
  | ms_iter nd' : mask_iter nd = Some nd' → mask_step nd nd'
  | ms_wait nd' : mask_wait nd = Some nd' → mask_step nd nd'.

(** The whole of [handle], run alone. *)
Fixpoint mask_loop (k : nat) (nd : mask_node) : mask_node :=
  match k with O => nd | S k' => match mask_iter nd with Some nd' => mask_loop k' nd' | None => nd end end.
Definition mask_handle (nd : mask_node) (s : Z) : mask_node :=
  let nd' := mask_arrive s nd in mask_loop (todo nd') nd'.
End node.

(** ** Masks *)

Section bits.
Context (num_nodes node_id : Z) (Hn : 0 < num_nodes ≤ 30) (Hid : 0 ≤ node_id < num_nodes).

Lemma mask_bit i : 0 ≤ i → Z.testbit (all_nodes_mask num_nodes node_id) i = bool_decide (i < num_nodes ∧ i ≠ node_id).
Proof.
  intros Hi. unfold all_nodes_mask. rewrite Z.land_spec, Z.lnot_spec, !Z.shiftl_1_l by done.
  replace (2 ^ num_nodes - 1) with (Z.ones num_nodes) by (rewrite Z.ones_equiv; lia).
  rewrite Z.testbit_ones_nonneg, Z.pow2_bits_eqb by lia.
  destruct (Z.ltb_spec i num_nodes), (Z.eqb_spec node_id i); cbn; symmetry; (apply bool_decide_eq_true || apply bool_decide_eq_false); lia.
Qed.

Lemma mask_range : 0 ≤ all_nodes_mask num_nodes node_id < 2 ^ num_nodes.
Proof.
  unfold all_nodes_mask. rewrite !Z.shiftl_1_l. replace (2 ^ num_nodes - 1) with (Z.ones num_nodes) by (rewrite Z.ones_equiv; lia).
  rewrite Z.land_comm, Z.land_ones by lia. apply Z.mod_pos_bound. lia.
Qed.

Lemma targets_spec s : s ∈ mask_targets num_nodes node_id ↔ 0 ≤ s < num_nodes ∧ s ≠ node_id.
Proof.
  unfold mask_targets. rewrite list_elem_of_filter, list_elem_of_fmap. split.
  - intros (Hne & i & -> & Hi). apply elem_of_seq in Hi. lia.
  - intros (Hs & Hne). split; [done|]. exists (Z.to_nat s). rewrite elem_of_seq. lia.
Qed.

(** The test of [handle] looks at one bit. *)
Lemma test_bit r s : 0 ≤ s → (Z.land r (Z.shiftl 1 s) =? 0) = negb (Z.testbit r s).
Proof.
  intros Hs. rewrite Z.shiftl_1_l. destruct (Z.testbit r s) eqn:E; cbn.
  - apply Z.eqb_neq. intros H. apply (f_equal (λ x, Z.testbit x s)) in H.
    rewrite Z.land_spec, E, Z.pow2_bits_true, Z.bits_0 in H by done. done.
  - apply Z.eqb_eq, Z.bits_inj'. intros i Hi. rewrite Z.land_spec, Z.bits_0, Z.pow2_bits_eqb by done.
    destruct (Z.eqb_spec s i) as [<-|]; [by rewrite E|apply andb_false_r].
Qed.

(** Adding a bit that is not set sets it. *)
Lemma add_bit r s : 0 ≤ r → 0 ≤ s → Z.testbit r s = false → r + 2 ^ s = Z.setbit r s.
Proof.
  intros Hr Hs Hb. rewrite Z.setbit_spec', <-Z.lxor_lor, Z.add_nocarry_lxor; [done| |];
    apply Z.bits_inj'; intros i Hi; rewrite Z.land_spec, Z.bits_0, Z.pow2_bits_eqb by done;
    (destruct (Z.eqb_spec s i) as [<-|]; [by rewrite Hb|apply andb_false_r]).
Qed.
End bits.

(** ** The first barrier *)

Section first.
Context (num_nodes node_id : Z) (Hn : 0 < num_nodes ≤ 30) (Hid : 0 ≤ node_id < num_nodes).

(** A message of a node whose bit is not set sets it. *)
Lemma handle_new r returned st s : 0 ≤ r < 2 ^ num_nodes → 0 ≤ s < num_nodes → Z.testbit r s = false →
  mask_handle (MkMask r [] 0 returned st) s = MkMask (Z.setbit r s) [] 0 returned st ∧ 0 ≤ Z.setbit r s < 2 ^ num_nodes.
Proof.
  intros Hr Hs Hb. assert (0 ≤ Z.setbit r s < 2 ^ num_nodes) as Hrange.
  { split; [rewrite Z.setbit_spec'; apply Z.lor_nonneg; lia|]. apply Z.log2_lt_cancel. rewrite Z.log2_pow2 by lia.
    rewrite Z.setbit_spec', Z.log2_lor, Z.log2_pow2 by lia. destruct (decide (r = 0)) as [->|]; [cbn; lia|].
    pose proof (proj1 (Z.log2_lt_pow2 r num_nodes ltac:(lia)) ltac:(lia)). lia. }
  split; [|done]. unfold mask_handle, mask_arrive. cbn [m_q app length m_received todo m_returned m_at mask_loop mask_iter].
  rewrite test_bit, Hb by lia. cbn [negb]. rewrite Z.shiftl_1_l, add_bit by (done || lia). f_equal.
  unfold wrap. apply Z.mod_small. split; [lia|]. eapply Z.lt_le_trans; [apply Hrange|]. apply Z.pow_le_mono_r; lia.
Qed.

(** Messages of different nodes, in any order. *)
Lemma handle_list returned st l r : 0 ≤ r < 2 ^ num_nodes → NoDup l → Forall (λ s, 0 ≤ s < num_nodes ∧ Z.testbit r s = false) l →
  ∃ r', foldl mask_handle (MkMask r [] 0 returned st) l = MkMask r' [] 0 returned st ∧ 0 ≤ r' < 2 ^ num_nodes
    ∧ ∀ i, 0 ≤ i → Z.testbit r' i = Z.testbit r i || bool_decide (i ∈ l).
Proof.
  revert r. induction l as [|s l IH]; intros r Hr Hnd Hl.
  { exists r. split_and!; try done; try lia. intros i _. rewrite bool_decide_eq_false_2 by apply not_elem_of_nil. by rewrite orb_false_r. }
  apply NoDup_cons in Hnd as [Hs Hnd]. apply Forall_cons in Hl as [[Hrange Hb] Hl].
  destruct (handle_new r returned st s Hr Hrange Hb) as [Hh Hr']. destruct (IH (Z.setbit r s) Hr' Hnd) as (r' & Hf & Hr2 & Hbits).
  { rewrite Forall_forall in Hl |- *. intros x Hx. destruct (Hl x Hx) as [Hxr Hxb]. split; [done|]. rewrite Z.setbit_neq; [done|lia|]. intros ->. done. }
  exists r'. cbn [foldl]. rewrite Hh. split_and!; try done; try lia. intros i Hi. rewrite (Hbits i Hi), Z.setbit_eqb by lia.
  destruct (Z.eqb_spec s i) as [->|Hne]; cbn [orb].
  - rewrite (bool_decide_eq_true_2 (i ∈ i :: l)) by left. by rewrite orb_true_r.
  - f_equal. apply bool_decide_ext. rewrite elem_of_cons. naive_solver.
Qed.

(** The mask is reached when every other node has sent its message. *)
Lemma first_full l st returned : NoDup l → (∀ s, s ∈ l ↔ s ∈ mask_targets num_nodes node_id) →
  foldl mask_handle (MkMask 0 [] 0 returned st) l = MkMask (all_nodes_mask num_nodes node_id) [] 0 returned st.
Proof.
  intros Hnd Hl. destruct (handle_list returned st l 0) as (r' & -> & Hr' & Hbits); [lia|done| |].
  { apply Forall_forall. intros s Hs. apply Hl, (targets_spec num_nodes node_id Hn Hid) in Hs. split; [lia|apply Z.bits_0]. }
  f_equal. apply Z.bits_inj'. intros i Hi. rewrite (Hbits i Hi), mask_bit, Z.bits_0 by done. cbn [orb].
  apply bool_decide_ext. rewrite Hl, targets_spec by done. lia.
Qed.
End first.

(** ** The barriers after it *)

(** Node 0 leaves the barrier at most once: the decrement sets bit 0, which no
    message takes away. *)
Definition spoiled (n : Z) (nd : mask_node) : Prop :=
  Forall (λ s, s ∈ mask_targets n 0) (m_q nd) ∧ (todo nd ≤ length (m_q nd))%nat ∧
  match m_returned nd with
  | O => m_at nd = MDec → m_received nd = all_nodes_mask n 0
  | S O => Z.odd (m_received nd) = true ∧ m_at nd ≠ MDec
  | _ => False
  end.

Lemma odd_add_bit r s : 0 < s → Z.odd (wrap 32 (r + Z.shiftl 1 s)) = Z.odd r.
Proof.
  intros Hs. unfold wrap. rewrite Z.shiftl_1_l. rewrite <-!Z.bit0_odd, Z.mod_pow2_bits_low, !Z.bit0_odd by lia. rewrite Z.odd_add.
  replace s with (Z.succ (s - 1)) by lia. rewrite Z.pow_succ_r by lia. rewrite Z.odd_mul. cbn. by rewrite xorb_false_r.
Qed.

Lemma spoiled_step n nd nd' : 1 < n ≤ 30 → spoiled n nd → mask_step n 0 nd nd' → spoiled n nd'.
Proof.
  intros Hn (Hq & Htodo & Hr) Hstep. assert (Z.odd (all_nodes_mask n 0) = false) as Heven.
  { rewrite <-Z.bit0_odd, mask_bit by lia. apply bool_decide_eq_false_2. lia. }
  destruct Hstep as [s Hs H0|nd' Hi|nd' Hw]; unfold spoiled.
  - unfold mask_arrive. cbn [m_q todo m_returned m_received m_at]. split_and!; [|lia|done]. apply Forall_app. split; [done|by constructor].
  - unfold mask_iter in Hi. destruct (todo nd) as [|k]; [done|]. destruct (m_q nd) as [|s q]; [done|]. apply Forall_cons in Hq as [Hs Hq].
    pose proof Hs as Hs'. apply targets_spec in Hs' as [Hrange Hne]; [|lia..]. cbn [length] in Htodo.
    rewrite test_bit, negb_involutive in Hi by lia. destruct (Z.testbit (m_received nd) s) eqn:Hb; simplify_eq; cbn [m_q todo m_returned m_received m_at].
    + split_and!; [apply Forall_app; split; [done|by constructor]|rewrite length_app; cbn; lia|done].
    + split_and!; [done|lia|]. destruct (m_returned nd) as [|[|]]; [|by rewrite odd_add_bit by lia|done].
      intros Hdec. rewrite (Hr Hdec), mask_bit in Hb by lia. apply bool_decide_eq_false in Hb. lia.
  - unfold mask_wait in Hw. destruct (m_at nd); [| |]; [|destruct (Z.eqb_spec (m_received nd) (all_nodes_mask n 0)) as [E|]; [|done]|]; simplify_eq;
      cbn [m_q todo m_returned m_received m_at]; (split; [done|]); (split; [done|]); destruct (m_returned nd) as [|[|]]; try done.
    + split; [by destruct Hr|done].
    + destruct Hr as [Hr _]. rewrite E in Hr. congruence.
    + rewrite (Hr eq_refl). split; [|done]. unfold wrap. rewrite <-Z.bit0_odd, Z.mod_pow2_bits_low, Z.bit0_odd, Z.odd_add, Heven by lia. done.
    + by destruct Hr.
Qed.

(** What the mask barrier does with two to thirty nodes.  The first barrier waits for
    exactly one message of every other node, in whatever order they come.  After
    it, node 0 never leaves a barrier again, whatever messages arrive and when;
    and every other node leaves its second barrier as soon as node 0 has sent its
    message, whether the others have or not. *)
Theorem mask_barrier_once n : 1 < n ≤ 30 →
  (∀ id l, 0 ≤ id < n → NoDup l → (∀ s, s ∈ l ↔ s ∈ mask_targets n id) →
     mask_wait n id (foldl mask_handle (MkMask 0 [] 0 0 MSpin) l) = Some (MkMask (all_nodes_mask n id) [] 0 0 MDec))
  ∧ (∀ nd, rtc (mask_step n 0) mask_make nd → (m_returned nd ≤ 1)%nat)
  ∧ (∀ id, 0 < id < n → ∃ nd, mask_wait n id (MkMask (all_nodes_mask n id) [] 0 0 MDec) = Some nd
       ∧ mask_wait n id (mask_handle (MkMask (m_received nd) (m_q nd) (todo nd) (m_returned nd) MSpin) 0) = Some (MkMask (all_nodes_mask n id) [] 0 1 MDec)).
Proof.
  intros Hn. split_and!.
  - intros id l Hid Hnd Hl. rewrite (first_full n id) by (done || lia). unfold mask_wait. cbn [m_at m_received m_q todo m_returned]. by rewrite Z.eqb_refl.
  - intros nd Hrun. assert (spoiled n nd) as (_ & _ & H).
    { eapply (rtc_ind_r (spoiled n)); [| |exact Hrun]; [by split_and!; [constructor|cbn; lia|]|]. intros a b _ Hab Ha. by eapply spoiled_step. }
    destruct (m_returned nd) as [|[|]]; [lia|lia|done].
  - intros id Hid. eexists. split; [done|]. cbn [m_received m_q todo m_returned]. pose proof (mask_range n id ltac:(lia)) as Hr.
    pose proof (mask_bit n id ltac:(lia) ltac:(lia) 0 ltac:(lia)) as H0. rewrite bool_decide_eq_true_2 in H0 by lia.
    set (m := all_nodes_mask n id) in *. assert (Z.testbit (m + -1) 0 = false) as Hb by (rewrite Z.bit0_odd in H0 |- *; by rewrite Z.odd_add, H0).
    assert (0 < m) as Hpos by (destruct (decide (m = 0)) as [E|]; [by rewrite E in H0|lia]).
    assert (wrap 32 (m + -1) = m + -1) as ->.
    { unfold wrap. apply Z.mod_small. pose proof (Z.pow_le_mono_r 2 n 32 ltac:(lia) ltac:(lia)). lia. }
    destruct (handle_new n ltac:(lia) (m + -1) 1 MSpin 0) as [-> _]; [lia|lia|done|]. rewrite <-add_bit by (done || lia).
    replace (m + -1 + 2 ^ 0) with m by lia. unfold mask_wait. cbn [m_at m_received m_q todo m_returned]. fold m. by rewrite Z.eqb_refl.
Qed.
