(* ===== verification/HotPeriod.v ===== *)
(** * The hot period

    [ee/hot_period.cpp]: at the end of a batch one thread per node loads the
    node's hot keys into the switch, sends the packets of the committed
    transactions mini-batch by mini-batch, with a barrier between mini-batches,
    and reads the hot keys back. *)
From stdpp Require Import base tactics list numbers gmap sorting strings.
From Stdlib Require Import ZArith Lia.
From S2P Require Import Prelude Types Layout Msg Mempool Row Table SendQ SwitchPkt.

#[local] Open Scope Z_scope.
#[local] Arguments N_OPS : simpl never.
#[local] Arguments N_REGS : simpl never.
#[local] Arguments HOT_TXN_PKT_BYTES : simpl never.

Notation PKT_BYTES := (HOT_TXN_PKT_BYTES USE_1PASS_PKTS).

(** ** The packets that load and read back the hot keys *)

(** A packet: the transaction it was built from, where its buffer is in the
    pool, and its contents. *)
Record fill := MkFill { f_txn : Txn; f_off : Z; f_pkt : pass1_pkt }.

(** [MAX_STACKPOOL_SIZE]. *)
Definition MAX_STACKPOOL_SIZE (bm : build) : Z :=
  2 * PKT_BYTES * ((N_ACCEL_KEYS bm + Z.of_nat N_OPS - 1) / Z.of_nat N_OPS).

(** The local variables of [gen_start_end_packets], the size of the pool and
    the layout. *)
Record gen := MkGen {
  txn_start : Txn;
  txn_end : Txn;
  ops_added : nat;
  pool : Z;
  start_fill : list fill;
  end_fill : list fill;
  g_layout : DeclusteredLayout;
}.

Section gen.
(** The build, the MAC addresses, the table, what the buffers of the pool held
    and what the uninitialised members of a [Txn] hold. *)
Context (bm : build) (c : macs) (kvs : StructTable) (held : Z → pass1_pkt) (junk : list OP) (lid : Z).

(** [fill_op]: the operation keeps its [loc_info]. *)
Definition fill_op (op : OP * TupleLocation) (is_init : bool) (k : Z) (L : DeclusteredLayout)
  : outcome ((OP * TupleLocation) * DeclusteredLayout) :=
  kv ← lockless_access kvs k;
  let '((_, tl), L') := get_location bm L k in
  Ok ((MkOP k (loc_info op.1) (if is_init then WRITE else READ) (kv_value kv), tl), L').

(** A fresh [Txn] after [init_and_get_arr]. *)
Definition init_and_get_arr : Txn :=
  let t := Txn_init junk lid in
  MkTxn (cold_ops t) (hot_ops_pass1 t) (hot_ops_pass2 t) true true (n_aborts t) (hottest_cold_i1 t)
        (hottest_cold_i2 t) (locks_check t) (locks_acquire t) (txn_id t) (loader_id t).

Definition set_pass1 (l : list (OP * TupleLocation)) (t : Txn) : Txn :=
  MkTxn (cold_ops t) l (hot_ops_pass2 t) (init_done t) (do_accel t) (n_aborts t) (hottest_cold_i1 t)
        (hottest_cold_i2 t) (locks_check t) (locks_acquire t) (txn_id t) (loader_id t).

(** One of the two packets of [make_txn(false)]. *)
Definition emit (L : DeclusteredLayout) (size : Z) (t : Txn) : outcome (fill * Z) :=
  '(off, size') ← StackPool_allocate (MAX_STACKPOOL_SIZE bm) size PKT_BYTES;
  pkt ← make_txn_1pass bm c L t (held off);
  Ok (MkFill t off pkt, size').

(** [make_txn(true)]. *)
Definition make_txn_first (size : Z) (L : DeclusteredLayout) : gen :=
  MkGen init_and_get_arr init_and_get_arr 0 size [] [] L.

(** [make_txn(false)]. *)
Definition make_txn (g : gen) : outcome gen :=
  '(f1, s1) ← emit (g_layout g) (pool g) (txn_start g);
  '(f2, s2) ← emit (g_layout g) s1 (txn_end g);
  Ok (MkGen init_and_get_arr init_and_get_arr 0 s2 (start_fill g ++ [f1]) (end_fill g ++ [f2]) (g_layout g)).

(** [fill_op] on the entry [i] of a transaction. *)
Definition fill_at (t : Txn) (i : nat) (is_init : bool) (k : Z) (L : DeclusteredLayout)
  : outcome (Txn * DeclusteredLayout) :=
  op ← aget (hot_ops_pass1 t) i;
  '(op', L') ← fill_op op is_init k L;
  l ← aset (hot_ops_pass1 t) i op';
  Ok (set_pass1 l t, L').

(** The entry [i] gets the mode [INVALID]. *)
Definition close_at (t : Txn) (i : nat) : outcome Txn :=
  op ← aget (hot_ops_pass1 t) i;
  l ← aset (hot_ops_pass1 t) i (set_mode INVALID op.1, op.2);
  Ok (set_pass1 l t).

(** The body of the inner loop. *)
Definition gen_key (s : nat) (g : gen) (r : nat) : outcome gen :=
  let L := g_layout g in
  ok ← rev_lookup bm L r (u64 (Z.of_nat s + block_base bm L));
  match ok with
  | None => Ok g
  | Some k =>
      loc ← location (part_info kvs) k;
      if is_local loc then
        '(t1, L1) ← fill_at (txn_start g) (ops_added g) true k L;
        '(t2, L2) ← fill_at (txn_end g) (ops_added g) false k L1;
        let g' := MkGen t1 t2 (S (ops_added g)) (pool g) (start_fill g) (end_fill g) L2 in
        if bool_decide (ops_added g' = N_OPS) then make_txn g' else Ok g'
      else Ok g
  end.

(** The body of the outer loop. *)
Definition gen_slot (g : gen) (s : nat) : outcome gen :=
  g1 ← ofold (gen_key s) (seq 0 N_REGS) g;
  assert (bool_decide (ops_added g1 < N_OPS)%nat);;
  if bool_decide (0 < ops_added g1)%nat then
    t1 ← close_at (txn_start g1) (ops_added g1);
    t2 ← close_at (txn_end g1) (ops_added g1);
    make_txn (MkGen t1 t2 (ops_added g1) (pool g1) (start_fill g1) (end_fill g1) (g_layout g1))
  else Ok g1.

Definition gen_start_end_packets (size : Z) (L : DeclusteredLayout) : outcome gen :=
  ofold gen_slot (seq 0 (Z.to_nat (SLOTS_PER_SCHED_BLOCK bm))) (make_txn_first size L).
End gen.

(** ** The sends and waits of [run_hot_period] *)

(** What the thread does on the network: send a packet that loads or reads
    keys, send a window of queued packets, wait for the other nodes. *)
Inductive event :=
  | SendStart (f : fill)
  | SendWindow (es : list hot_txn_entry)
  | WaitNodes
  | SendEnd (f : fill).

Definition MAX_IN_FLIGHT : nat := 200.

(** [for (i = a; i < b; ++i) wait_nodes()]; the counters are [uint32_t]s
    extended to [size_t]. *)
Definition waits (a b : Z) : list event := replicate (Z.to_nat (b - a)) WaitNodes.

(** The inner loop that collects a window: how many entries from [q_p] on have
    the mini-batch number [mb]. *)
Fixpoint window (q : list hot_txn_entry) (q_size q_p : nat) (mb : Z) (room : nat) : outcome nat :=
  match room with
  | O => Ok O
  | S room' =>
      if bool_decide (q_p < q_size)%nat then
        e ← aget q q_p;
        if e_mb_num e =? mb then n ← window q q_size (S q_p) mb room'; Ok (S n) else Ok O
      else Ok O
  end.

(** One iteration of the sending loop from [window_start].  The test after the
    send reads [q[q_p]] also when [q_p] is [q_size], an entry of an earlier
    batch or an uninitialised one. *)
Definition send_window (mini_batch_num : Z) (q : list hot_txn_entry) (q_size window_start : nat)
  : outcome (nat * list event) :=
  e0 ← aget q window_start;
  n ← window q q_size window_start (e_mb_num e0) MAX_IN_FLIGHT;
  let q_p := (window_start + n)%nat in
  next ← aget q q_p;
  assert (bool_decide (q_p = q_size) || (e_mb_num e0 <=? e_mb_num next));;
  let sent := SendWindow (take n (drop window_start q)) in
  if (e_mb_num e0 <? e_mb_num next) || bool_decide (q_p = q_size) then
    let end_mb := if bool_decide (q_p = q_size) then mini_batch_num else e_mb_num next in
    Ok (q_p, sent :: waits (e_mb_num e0) end_mb)
  else Ok (q_p, [sent]).

(** The sending loop; every iteration sends at least one entry. *)
Fixpoint send_loop (fuel : nat) (mini_batch_num : Z) (q : list hot_txn_entry) (q_size q_p : nat)
  : outcome (list event) :=
  if bool_decide (q_p < q_size)%nat then
    match fuel with
    | O => Fail Spins
    | S fuel' =>
        '(q_p', evs) ← send_window mini_batch_num q q_size q_p;
        rest ← send_loop fuel' mini_batch_num q q_size q_p';
        Ok (evs ++ rest)
    end
  else Ok [].

(** The part of [run_hot_period] between the start and the end packets: the
    first [wait_nodes], the waits for mini-batches without entries, and the
    loop. *)
Definition send_queue (past_mb_num mini_batch_num : Z) (sq : hot_send_q) : outcome (list event) :=
  let q := send_q sq in
  let q_size := Z.to_nat (send_q_tail sq) in
  q0 ← aget q 0;
  let lead := if bool_decide (0 < q_size)%nat || (past_mb_num <? e_mb_num q0)
              then waits past_mb_num (e_mb_num q0) else [] in
  mid ← send_loop q_size mini_batch_num q q_size 0;
  Ok (WaitNodes :: lead ++ mid).

(** What [run_hot_period] leaves: its events in order, [past_mb_num], the size
    of the pool and the layout. *)
Record period := MkPeriod { p_events : list event; past_mb_num : Z; p_pool : Z; p_layout : DeclusteredLayout }.

Definition run_hot_period (bm : build) (c : macs) (kvs : StructTable) (held : Z → pass1_pkt) (junk : list OP)
    (lid : Z) (mini_batch_num : Z) (sq : hot_send_q) (p : period) : outcome period :=
  g ← gen_start_end_packets bm c kvs held junk lid (p_pool p) (p_layout p);
  mid ← send_queue (past_mb_num p) mini_batch_num sq;
  Ok (MkPeriod (p_events p ++ (SendStart <$> start_fill g) ++ mid ++ (SendEnd <$> end_fill g) ++ [WaitNodes])
               mini_batch_num StackPool_clear (g_layout g)).

(** ** When the queue is sent *)

Definition sent_entries (ev : event) : list hot_txn_entry :=
  match ev with SendWindow es => es | _ => [] end.

Fixpoint n_waits (evs : list event) : Z :=
  match evs with
  | [] => 0
  | WaitNodes :: evs => 1 + n_waits evs
  | _ :: evs => n_waits evs
  end.

(** From barrier [w] on, every window is of the mini-batch of the barrier it is
    sent behind; [w'] is the barrier reached. *)
Fixpoint timed (w : Z) (evs : list event) (w' : Z) : Prop :=
  match evs with
  | [] => w' = w
  | WaitNodes :: evs => timed (w + 1) evs w'
  | SendWindow es :: evs =>
      Forall (λ e, e_mb_num e = w) es ∧ (length es ≤ MAX_IN_FLIGHT)%nat ∧ timed w evs w'
  | _ => False
  end.

Lemma timed_app w evs1 w1 evs2 w2 : timed w evs1 w1 → timed w1 evs2 w2 → timed w (evs1 ++ evs2) w2.
Proof.
  revert w. induction evs1 as [|[] evs1 IH]; intros w H1 H2; simpl in *; [by subst|done|naive_solver|by eauto|done].
Qed.

Lemma waits_send_nothing a b : concat (sent_entries <$> waits a b) = [].
Proof. unfold waits. by induction (Z.to_nat (b - a)). Qed.

Lemma timed_waits a b : a ≤ b → timed a (waits a b) b.
Proof.
  intros H. unfold waits. remember (Z.to_nat (b - a)) as n eqn:E. revert a H E.
  induction n as [|n IH]; intros a H E; simpl; [lia|]. apply IH; lia.
Qed.

Lemma timed_count w evs w' : timed w evs w' → n_waits evs = w' - w.
Proof.
  revert w. induction evs as [|[] evs IH]; intros w H; simpl in *; [lia|done|..|done].
  - apply IH. naive_solver.
  - specialize (IH _ H). lia.
Qed.

Lemma timed_window w pre es post w' : timed w (pre ++ SendWindow es :: post) w' →
  Forall (λ e, e_mb_num e = w + n_waits pre) es ∧ (length es ≤ MAX_IN_FLIGHT)%nat.
Proof.
  revert w. induction pre as [|[] pre IH]; intros w H; simpl in *; [|done|..|done].
  - rewrite Z.add_0_r. naive_solver.
  - apply IH. naive_solver.
  - rewrite Z.add_assoc. by apply IH.
Qed.

Lemma n_waits_app evs1 evs2 : n_waits (evs1 ++ evs2) = n_waits evs1 + n_waits evs2.
Proof. induction evs1 as [|[] evs1 IH]; cbn [app n_waits]; lia. Qed.

Lemma n_waits_none {A} (f : A → event) l : (∀ x, f x ≠ WaitNodes) → n_waits (f <$> l) = 0.
Proof. intros Hf. induction l as [|x l IH]; [done|]. cbn [fmap list_fmap n_waits]. specialize (Hf x). destruct (f x); done. Qed.

Section queue.
Context (q : list hot_txn_entry) (q_size : nat).
Hypothesis Hroom : (q_size < length q)%nat.

Lemma window_spec mb room i : ∃ n, window q q_size i mb room = Ok n
  ∧ (n ≤ room)%nat ∧ ((i ≤ q_size)%nat → (i + n ≤ q_size)%nat)
  ∧ Forall (λ e, e_mb_num e = mb) (take n (drop i q))
  ∧ length (take n (drop i q)) = n
  ∧ ((room = 0)%nat ∨ (q_size ≤ i)%nat ∨ (∃ e, q !! i = Some e ∧ e_mb_num e ≠ mb) ∨ (0 < n)%nat).
Proof.
  revert i. induction room as [|room IH]; intros i; cbn [window].
  { exists 0%nat. split_and!; try done; try lia. }
  case_bool_decide as Hi; [|exists 0%nat; split_and!; try done; lia].
  destruct (lookup_lt_is_Some_2 q i) as [e He]; [lia|]. unfold aget. rewrite He. cbn [mbind outcome_bind].
  destruct (Z.eqb_spec (e_mb_num e) mb) as [Heq|Hne].
  - destruct (IH (S i)) as (n & -> & Hn & Hle & Hall & Hlen & _). cbn [mbind outcome_bind]. exists (S n).
    rewrite (drop_S q e i He). cbn [take length]. split_and!; [done|lia|lia|by constructor|lia|lia].
  - exists 0%nat. split_and!; try done; try lia. right; right; left. by exists e.
Qed.

Hypothesis Hsorted : ∀ i j e e', (i ≤ j < q_size)%nat → q !! i = Some e → q !! j = Some e' → e_mb_num e ≤ e_mb_num e'.
Context (mb : Z).
Hypothesis Hlast : ∀ i e, (i < q_size)%nat → q !! i = Some e → e_mb_num e ≤ mb.

Lemma send_window_spec i e : (i < q_size)%nat → q !! i = Some e →
  ∃ n evs w, send_window mb q q_size i = Ok ((i + n)%nat, evs)
    ∧ (0 < n)%nat ∧ (i + n ≤ q_size)%nat
    ∧ timed (e_mb_num e) evs w ∧ concat (sent_entries <$> evs) = take n (drop i q)
    ∧ (if decide (i + n = q_size)%nat then w = mb else ∃ e', q !! (i + n)%nat = Some e' ∧ e_mb_num e' = w).
Proof.
  intros Hi He. unfold send_window, aget. rewrite He. cbn [mbind outcome_bind].
  destruct (window_spec (e_mb_num e) MAX_IN_FLIGHT i) as (n & -> & Hn & Hle & Hall & Hlen & Hpos). cbn [mbind outcome_bind].
  assert (0 < n)%nat as Hn0.
  { destruct Hpos as [?|[?|[(e' & He' & ?)|?]]]; [done|lia|simplify_eq|done]. }
  destruct (lookup_lt_is_Some_2 q (i + n)) as [e' He']; [lia|]. rewrite He'. cbn [mbind outcome_bind].
  specialize (Hle ltac:(lia)). set (sent := take n (drop i q)) in *.
  case_bool_decide as Hend.
  - simpl assert. cbn [orb mbind outcome_bind]. rewrite orb_true_r.
    exists n, (SendWindow sent :: waits (e_mb_num e) mb), mb. split_and!; try done.
    + cbn [timed]. rewrite Hlen. split_and!; [done..|]. apply timed_waits. by eapply Hlast.
    + cbn [fmap list_fmap concat sent_entries]. rewrite waits_send_nothing. apply app_nil_r.
    + by rewrite decide_True.
  - assert (e_mb_num e ≤ e_mb_num e') as Hm. { eapply (Hsorted i (i + n)%nat); [lia|done..]. }
    rewrite (proj2 (Z.leb_le _ _) Hm). simpl assert. cbn [orb mbind outcome_bind]. rewrite orb_false_r.
    destruct (Z.ltb_spec (e_mb_num e) (e_mb_num e')).
    + exists n, (SendWindow sent :: waits (e_mb_num e) (e_mb_num e')), (e_mb_num e'). split_and!; try done.
      * cbn [timed]. rewrite Hlen. split_and!; [done..|]. by apply timed_waits.
      * cbn [fmap list_fmap concat sent_entries]. rewrite waits_send_nothing. apply app_nil_r.
      * rewrite decide_False by done. by exists e'.
    + exists n, [SendWindow sent], (e_mb_num e). split_and!; try done.
      * cbn [timed]. rewrite Hlen. by split_and!.
      * cbn [fmap list_fmap concat sent_entries]. apply app_nil_r.
      * rewrite decide_False by done. exists e'. split; [done|lia].
Qed.

Lemma send_loop_spec fuel i e : (i < q_size)%nat → (q_size ≤ i + fuel)%nat → q !! i = Some e →
  ∃ evs, send_loop fuel mb q q_size i = Ok evs
    ∧ timed (e_mb_num e) evs mb ∧ concat (sent_entries <$> evs) = take (q_size - i) (drop i q).
Proof.
  revert i e. induction fuel as [|fuel IH]; intros i e Hi Hf He; [lia|]. cbn [send_loop].
  rewrite bool_decide_eq_true_2 by done.
  destruct (send_window_spec i e Hi He) as (n & evs & w & -> & Hn & Hle & Ht & Hs & Hw). cbn [mbind outcome_bind].
  destruct (decide (i + n = q_size)%nat) as [Hend|Hend].
  - subst w. assert (send_loop fuel mb q q_size (i + n) = Ok []) as ->.
    { destruct fuel; cbn [send_loop]; rewrite bool_decide_eq_false_2 by lia; done. }
    exists evs. cbn [mbind outcome_bind]. rewrite app_nil_r. split_and!; [done|done|]. rewrite Hs. f_equal. lia.
  - destruct Hw as (e' & He' & <-). destruct (IH (i + n)%nat e') as (rest & -> & Ht' & Hs'); [lia|lia|done|].
    exists (evs ++ rest). cbn [mbind outcome_bind]. split_and!; [done|by eapply timed_app|].
    rewrite fmap_app, concat_app, Hs, Hs'.
    replace (q_size - i)%nat with (n + (q_size - (i + n)))%nat by lia. rewrite <-take_take_drop, drop_drop. done.
Qed.
End queue.

(** The sends and barriers of a queue that holds [l]. *)
Lemma send_queue_in_step sq l past mb :
  send_q_ok sq l → StronglySorted Z.le l.*1 → l ≠ [] →
  Forall (λ p, past ≤ p.1 ≤ mb) l →
  ∃ evs, send_queue past mb sq = Ok evs
    ∧ e_txn <$> concat (sent_entries <$> evs) = l.*2
    ∧ n_waits evs = 1 + (mb - past)
    ∧ (∀ pre es post, evs = pre ++ SendWindow es :: post →
         (length es ≤ MAX_IN_FLIGHT)%nat ∧ Forall (λ e, n_waits pre = 1 + (e_mb_num e - past)) es).
Proof.
  intros Hq Hs Hne Hmb. destruct l as [|[m0 r0] l0] eqn:El; [done|]. rewrite <-El in *.
  pose proof (sq_entries _ _ Hq) as He. pose proof (sq_tail _ _ Hq) as Ht. pose proof (sq_len _ _ Hq) as Hlen. pose proof (sq_cap _ _ Hq).
  assert (Z.to_nat (send_q_tail sq) = length l) as HT by lia.
  assert (length l < length (send_q sq))%nat as Hroom by (destruct (sq_room _ _ Hq); [lia|done]).
  assert (∀ i e, (i < length l)%nat → send_q sq !! i = Some e → l !! i = Some (e_mb_num e, e_txn e)) as Hl.
  { intros i e Hi Hie. destruct (lookup_lt_is_Some_2 l i Hi) as [[m r] Hlr]. pose proof (He i m r Hlr). by simplify_eq/=. }
  rewrite Forall_lookup in Hmb. assert (l !! 0%nat = Some (m0, r0)) as H0 by (by rewrite El).
  pose proof (He 0%nat m0 r0 H0) as Hq0. pose proof (Hmb _ _ H0) as Hm0. simpl in Hm0.
  assert (0 < length l)%nat as Hpos by (rewrite El; simpl; lia).
  unshelve epose proof (send_loop_spec (send_q sq) (length l) Hroom _ mb _ (length l) 0%nat _ Hpos _ Hq0) as (evs & Hrun & Htm & Hsent); [..|lia|].
  { intros i j e e' Hij Hi Hj. apply Hl in Hi; [|lia]. apply Hl in Hj; [|lia]. destruct (decide (i = j)) as [->|]; [simplify_eq; lia|].
    apply (StronglySorted_lookup _ _ i j _ _ Hs); [by rewrite list_lookup_fmap, Hi|by rewrite list_lookup_fmap, Hj|lia]. }
  { intros i e Hi Hie. apply Hl in Hie; [|done]. apply Hmb in Hie. simpl in Hie. lia. }
  cbn [e_mb_num] in Htm. exists (WaitNodes :: waits past m0 ++ evs).
  assert (timed (past - 1) (WaitNodes :: waits past m0 ++ evs) mb) as Htimed.
  { cbn [timed]. replace (past - 1 + 1) with past by lia. eapply timed_app; [|done]. apply timed_waits. lia. }
  split_and!.
  - unfold send_queue, aget. rewrite Hq0, HT. cbn [mbind outcome_bind]. rewrite bool_decide_eq_true_2 by done. cbn [orb].
    by rewrite Hrun.
  - cbn [fmap list_fmap concat sent_entries app]. rewrite fmap_app, concat_app, Hsent.
    rewrite waits_send_nothing, Nat.sub_0_r, drop_0. simpl. apply list_eq. intros i. rewrite !list_lookup_fmap.
    destruct (decide (i < length l)%nat) as [Hi|Hi].
    + rewrite lookup_take_lt by done. destruct (lookup_lt_is_Some_2 l i Hi) as [[m r] Hlr]. by rewrite (He i m r Hlr), Hlr.
    + rewrite lookup_take_ge, (lookup_ge_None_2 l) by lia. done.
  - rewrite (timed_count _ _ _ Htimed). lia.
  - intros pre es post E. rewrite E in Htimed. apply timed_window in Htimed as [Hall ?]. split; [done|].
    eapply Forall_impl; [exact Hall|]. simpl. lia.
Qed.

(** C17: a node with committed transactions sends them in step with the others.
    The queued packets are sent once each, in queue order, in windows of at
    most 200 packets of one mini-batch; the packets of mini-batch [m] leave
    after exactly [1 + (m - past)] barriers, so that packets of one mini-batch
    are between the same two barriers on every such node; and the barriers
    passed on the way are [1 + (mb - past)] in all, whatever the queue holds. *)
Theorem hot_sends_in_step sq l past mb :
  send_q_ok sq l → StronglySorted Z.le l.*1 → l ≠ [] →
  Forall (λ p, past ≤ p.1 ≤ mb) l →
  ∃ evs, send_queue past mb sq = Ok evs
    ∧ e_txn <$> concat (sent_entries <$> evs) = l.*2
    ∧ n_waits evs = 1 + (mb - past)
    ∧ (∀ pre es post, evs = pre ++ SendWindow es :: post →
         (length es ≤ MAX_IN_FLIGHT)%nat ∧ Forall (λ e, n_waits pre = 1 + (e_mb_num e - past)) es).
Proof. exact (send_queue_in_step sq l past mb). Qed.

(** Two transactions of mini-batches 2 and 4. *)
Definition sample_queue : hot_send_q :=
  MkSendQ 2 4 [MkEntry (0, 0%nat) 2 0 PKT_BYTES; MkEntry (0, 1%nat) 4 PKT_BYTES PKT_BYTES; inhabitant; inhabitant]
          (MkLSP (4 * PKT_BYTES) (2 * PKT_BYTES)).

Lemma sample_queue_ok : send_q_ok sample_queue [(2, (0, 0%nat)); (4, (0, 1%nat))].
Proof.
  split; try done; [|left; simpl; lia]. intros [|[|i]] mb r H; simplify_eq/=; done.
Qed.

Lemma hot_sends_in_step_witness :
  ∃ evs, send_queue 1 5 sample_queue = Ok evs ∧ n_waits evs = 5.
Proof.
  destruct (hot_sends_in_step sample_queue [(2, (0, 0%nat)); (4, (0, 1%nat))] 1 5) as (evs & H & _ & Hw & _).
  - exact sample_queue_ok.
  - cbn [fmap list_fmap fst]. apply SSorted_cons; [apply SSorted_cons; [apply SSorted_nil|]|]; repeat constructor; lia.
  - discriminate.
  - repeat constructor; simpl; lia.
  - exists evs. split; [exact H|exact Hw].
Defined.

(** ** What the start and end packets hold *)

Section packets.
Context (bm : build) (c : macs) (kvs : StructTable) (held : Z → pass1_pkt) (junk : list OP) (lid : Z).
Context (ids : list (Z * Z)) (b : Z).
Hypothesis Hids : freqs_ok ids.
Hypothesis Hheld : ∀ off, pkt_ok (held off).
Hypothesis HS : 0 < SLOTS_PER_SCHED_BLOCK bm.
Hypothesis Hdiv : 2 ^ N_OFFSET_BITS mod SLOTS_PER_SCHED_BLOCK bm = 0.
Hypothesis Hb : 0 ≤ b.
Hypothesis Hfit : SLOTS_PER_SCHED_BLOCK bm * (b + 1) ≤ 2 ^ 16.
Hypothesis Htop : SLOTS_PER_SCHED_BLOCK bm * b < 2 ^ 16 - 1.
(** The rows of the node's own keys exist. *)
Hypothesis Hpart : partition_size (part_info kvs) ≠ 0.
Hypothesis Hrows : ∀ k loc, k ∈ ids.*1 → location (part_info kvs) k = Ok loc → is_local loc = true →
  ∃ kv, lockless_access kvs k = Ok kv ∧ 0 ≤ kv_value kv < 2 ^ 32.

Notation L := (set_block_num b (layout_of ids)).
Notation slots := (Z.to_nat (SLOTS_PER_SCHED_BLOCK bm)).

(** A hot key of the node: its slot in the block, its register, and itself. *)
Definition item : Type := nat * nat * Z.

Definition is_mine (k : Z) : bool :=
  match location (part_info kvs) k with Ok loc => is_local loc | Fail _ => false end.

(** The key the layout has at slot [s] of register [r], if the node owns it. *)
Definition slot_item (s r : nat) : option item :=
  m ← rev_by_reg (layout_of ids) !! r;
  k ← (m : gmap Z Z) !! Z.of_nat s;
  if is_mine k then Some (s, r, k) else None.

Definition slot_items (s r : nat) : list item := omap (slot_item s) (seq 0 r).

(** The node's hot keys, slot by slot. *)
Definition hot_items : list item := concat ((λ s, slot_items s N_REGS) <$> seq 0 slots).

Definition key_value (k : Z) : Z :=
  match lockless_access kvs k with Ok kv => kv_value kv | Fail _ => 0 end.

(** A packet gives the switch exactly the accesses of a list of items: in
    the register of each item a write of its value ([w]) or a read at the
    item's slot of the block; in every other register a read. *)
Definition accesses (w : bool) (its : list item) (f : fill) : Prop :=
  (∀ s r k, (s, r, k) ∈ its →
     decode_instr (base_offset (f_pkt f)) <$> instr_slot (f_pkt f) r
     = Some (MkSw w (SLOTS_PER_SCHED_BLOCK bm * b + Z.of_nat s) (key_value k)))
  ∧ (∀ r, (r < N_REGS)%nat → r ∉ (λ it : item, it.1.2) <$> its →
       idx_perm_mask <$> instr_slot (f_pkt f) r = Some 0).

(** *** One key *)

Definition op_for (w : bool) (it : item) : OP * TupleLocation :=
  (MkOP it.2 inhabitant (if w then WRITE else READ) (key_value it.2), (get_location bm L it.2).1.2).

Lemma base_L : block_base bm L = SLOTS_PER_SCHED_BLOCK bm * b.
Proof. apply (wrap_small 64 (SLOTS_PER_SCHED_BLOCK bm * b)). nia. Qed.

Lemma slot_item_facts s r it : (s < slots)%nat → slot_item s r = Some it →
  it = (s, r, it.2) ∧ (r < N_REGS)%nat
  ∧ get_location bm L it.2 = ((true, (op_for true it).2), L)
  ∧ reg_array_id (op_for true it).2 = Z.of_nat r
  ∧ reg_array_idx (op_for true it).2 = SLOTS_PER_SCHED_BLOCK bm * b + Z.of_nat s
  ∧ (∃ kv, lockless_access kvs it.2 = Ok kv ∧ key_value it.2 = kv_value kv)
  ∧ 0 ≤ key_value it.2 < 2 ^ 32.
Proof.
  intros Hs H. unfold slot_item in H. simpl in H.
  pose proof (layout_ok ids Hids) as HA.
  destruct (_ !! r) as [m|] eqn:Hm; [|done]. simpl in H.
  destruct (m !! Z.of_nat s) as [k|] eqn:Hk; [|done]. simpl in H. destruct (is_mine k) eqn:Hmine; [|done].
  injection H as <-. simpl.
  destruct (ao_back _ _ HA r m _ k Hm Hk) as (tl & Htl & Hreg & Hidx).
  assert (r < N_REGS)%nat as Hr by (rewrite <-(ao_rev_len _ _ HA); by eapply lookup_lt_Some).
  assert (get_location bm L k = ((true, MkTupleLoc (reg_array_id tl) (u16 (SLOTS_PER_SCHED_BLOCK bm * b + reg_array_idx tl)) (dist_freq tl) (lock_pos tl)), L)) as Hg.
  { unfold get_location. rewrite base_L. unfold virt_get. simpl. rewrite Htl.
    by rewrite (proj2 (Z.ltb_lt (reg_array_idx tl) _)) by lia. }
  unfold is_mine in Hmine. destruct (location _ k) as [loc|] eqn:Hloc; [|done].
  destruct (ao_virt _ _ HA k tl Htl) as [Hin _]. rewrite (std_sort_perm id_freq_less) in Hin.
  destruct (Hrows k loc) as (kv & Hkv & Hval); [apply list_elem_of_fmap; by eexists (_, _)|done|done|].
  unfold op_for. cbn [snd fst]. rewrite Hg. cbn [fst snd reg_array_id reg_array_idx].
  unfold key_value. rewrite Hkv. split_and!; try done; try lia; [|by exists kv].
  rewrite Hidx. apply wrap_small. nia.
Qed.

Lemma slot_rev s r : (s < slots)%nat → (r < N_REGS)%nat →
  ∃ o, rev_lookup bm L r (u64 (Z.of_nat s + block_base bm L)) = Ok o
    ∧ slot_item s r = (k ← o; if is_mine k then Some (s, r, k) else None).
Proof.
  intros Hs Hr. pose proof (layout_ok ids Hids) as HA. rewrite base_L.
  destruct (lookup_lt_is_Some_2 (a_rev (assign_all (std_sort id_freq_less ids))) r) as [m Hm]; [by rewrite (ao_rev_len _ _ HA)|].
  unfold rev_lookup, aget, slot_item. rewrite base_L. simpl rev_by_reg. rewrite Hm. cbn [mbind outcome_bind option_bind].
  eexists. split; [done|]. f_equal. f_equal. rewrite (wrap_small 64 (Z.of_nat s + _)) by nia.
  rewrite wrap_small by nia. lia.
Qed.

(** *** One packet *)

Notation blank := (init_and_get_arr junk lid).
Notation no_op := (inhabitant : OP * TupleLocation).

(** A transaction whose first operations are those of the items. *)
Definition with_ops (w : bool) (its : list item) : Txn :=
  set_pass1 ((op_for w <$> its) ++ replicate (N_OPS - length its) no_op) blank.

Lemma with_ops_nil w : with_ops w [] = blank.
Proof. reflexivity. Qed.

Lemma with_ops_len w its : (length its ≤ N_OPS)%nat → length (hot_ops_pass1 (with_ops w its)) = N_OPS.
Proof. intros H. simpl. rewrite length_app, length_fmap, length_replicate. lia. Qed.

Lemma active_ops w its tl : active_hot ((op_for w <$> its) ++ tl) = (op_for w <$> its) ++ active_hot tl.
Proof. induction its as [|it its IH]; [done|]. cbn [fmap list_fmap app active_hot]. rewrite bool_decide_eq_false_2 by (by destruct w). by f_equal. Qed.

Lemma active_with_ops w its : (length its ≤ N_OPS)%nat →
  active_hot (take N_OPS (hot_ops_pass1 (with_ops w its))) = op_for w <$> its.
Proof.
  intros H. rewrite take_ge by (by rewrite with_ops_len). simpl hot_ops_pass1. rewrite active_ops.
  assert (∀ n, active_hot (replicate n no_op) = []) as -> by (by intros []). by rewrite app_nil_r.
Qed.

Definition item_ok (it : item) : Prop := (it.1.1 < slots)%nat ∧ slot_item it.1.1 it.1.2 = Some it.

Lemma emit_spec w its size :
  (length its ≤ N_OPS)%nat → Forall item_ok its → NoDup ((λ it : item, it.1.2) <$> its) →
  0 ≤ size → size + PKT_BYTES ≤ MAX_STACKPOOL_SIZE bm → size + PKT_BYTES < 2 ^ 64 →
  ∃ f, emit bm c held L size (with_ops w its) = Ok (f, size + PKT_BYTES) ∧ f_off f = size ∧ accesses w its f.
Proof.
  intros Hlen Hok Hnd Hsz Hmax Hwrap. unfold emit, StackPool_allocate. pose proof (pkt_bytes_pos USE_1PASS_PKTS).
  rewrite (wrap_small 64 (size + _)) by lia. rewrite (proj2 (Z.ltb_ge _ _)) by lia. cbn [mbind outcome_bind].
  rewrite Forall_forall in Hok.
  assert (∀ it, it ∈ its → reg_array_id (op_for w it).2 = Z.of_nat it.1.2 ∧ (it.1.2 < N_REGS)%nat
    ∧ reg_array_idx (op_for w it).2 = SLOTS_PER_SCHED_BLOCK bm * b + Z.of_nat it.1.1 ∧ (it.1.1 < slots)%nat
    ∧ 0 ≤ key_value it.2 < 2 ^ 32) as Hit.
  { intros it Hin. destruct (Hok it Hin) as [Hs Hi]. destruct (slot_item_facts _ _ _ Hs Hi) as (_ & ? & _ & ? & ? & _ & ?). done. }
  destruct (make_txn_spec bm c L (with_ops w its) (held size)) as (pkt & Hmk & _ & _ & Hin & Hout); try done.
  - rewrite active_with_ops by done. rewrite <-list_fmap_compose.
    erewrite list_fmap_ext; [|intros i it Hi; apply list_elem_of_lookup_2, Hit in Hi as [E _]; simpl; exact E].
    rewrite (list_fmap_compose (λ it : item, it.1.2) Z.of_nat). apply NoDup_fmap_2; [apply _|done].
  - rewrite active_with_ops by done. apply Forall_fmap, Forall_forall. intros it Hi.
    destruct (Hit it Hi) as (E1 & ? & E2 & ? & ?). cbn [compose]. rewrite base_L, E1, E2. simpl op_value. lia.
  - rewrite active_with_ops in Hin, Hout by done. rewrite Hmk. cbn [mbind outcome_bind]. eexists. split; [done|]. split; [done|]. split; simpl f_pkt.
    + intros s r k Hi. destruct (Hit _ Hi) as (E1 & _ & E2 & _ & _). specialize (Hin (op_for w (s, r, k))).
      rewrite E1, Nat2Z.id in Hin. cbn [fst snd] in Hin. rewrite Hin by (apply list_elem_of_fmap; by eexists). unfold encoded. rewrite E2. simpl.
      by destruct w.
    + intros r Hr Hn. apply Hout; [done|]. intros (pr & Er & (it & -> & Hi)%list_elem_of_fmap)%list_elem_of_fmap.
      destruct (Hit it Hi) as (E1 & _). rewrite E1 in Er. apply Nat2Z.inj in Er. apply Hn. apply list_elem_of_fmap. by exists it.
Qed.

Lemma fill_at_spec w its it : (length its < N_OPS)%nat → item_ok it →
  fill_at bm kvs (with_ops w its) (length its) w it.2 L = Ok (with_ops w (its ++ [it]), L).
Proof.
  intros Hlen [Hs Hi]. destruct (slot_item_facts _ _ _ Hs Hi) as (_ & _ & Hg & _ & _ & (kv & Hkv & Hv) & _).
  unfold fill_at, aget. cbn [with_ops set_pass1 hot_ops_pass1].
  replace (N_OPS - length its)%nat with (S (N_OPS - length (its ++ [it]))) by (rewrite length_app; simpl; lia).
  rewrite lookup_app_r by (by rewrite length_fmap). rewrite length_fmap, Nat.sub_diag. cbn [replicate lookup list_lookup mbind outcome_bind].
  unfold fill_op. rewrite Hkv, Hg. cbn [mbind outcome_bind]. rewrite <-Hv. rewrite aset_lt.
  2:{ rewrite length_app, length_fmap. simpl. lia. }
  cbn [mbind outcome_bind]. unfold with_ops. f_equal. f_equal. unfold set_pass1. simpl. f_equal.
  rewrite insert_app_r_alt by (by rewrite length_fmap). rewrite length_fmap, Nat.sub_diag, fmap_app, <-app_assoc. reflexivity.
Qed.

Lemma close_at_spec w its : (length its < N_OPS)%nat → close_at (with_ops w its) (length its) = Ok (with_ops w its).
Proof.
  intros Hlen. unfold close_at, aget. cbn [with_ops set_pass1 hot_ops_pass1].
  assert (((op_for w <$> its) ++ replicate (N_OPS - length its) no_op) !! length its = Some no_op) as Hl.
  { rewrite lookup_app_r by (by rewrite length_fmap). rewrite length_fmap, Nat.sub_diag. apply lookup_replicate. split; [done|lia]. }
  rewrite Hl. cbn [mbind outcome_bind]. rewrite aset_lt by (by eapply lookup_lt_Some). cbn [mbind outcome_bind].
  by rewrite list_insert_id.
Qed.
(** *** The loops *)

Notation PER_SLOT := (N_REGS / N_OPS)%nat.

Lemma max_pool : MAX_STACKPOOL_SIZE bm = 2 * PKT_BYTES * (9 * SLOTS_PER_SCHED_BLOCK bm).
Proof.
  unfold MAX_STACKPOOL_SIZE, N_ACCEL_KEYS. f_equal. change (Z.of_nat N_REGS) with 72. change (Z.of_nat N_OPS) with 8.
  symmetry. apply (Z.div_unique_pos _ _ _ 7); lia.
Qed.

(** After the slots before [s] and the registers before [r] of slot [s]: the
    packets hold the items [chunks], the open transactions the items [cur]. *)
Record gen_ok (s r : nat) (its : list item) (g : gen) (chunks : list (list item)) (cur : list item) (n : nat) : Prop := {
  go_layout : g_layout g = L;
  go_start : txn_start g = with_ops true cur;
  go_end : txn_end g = with_ops false cur;
  go_ops : ops_added g = length cur;
  go_few : (length cur < N_OPS)%nat;
  go_items : its = concat chunks ++ cur;
  go_starts : Forall2 (accesses true) chunks (start_fill g);
  go_ends : Forall2 (accesses false) chunks (end_fill g);
  go_soff : f_off <$> start_fill g = (λ i, 2 * PKT_BYTES * Z.of_nat i) <$> seq 0 (length chunks);
  go_eoff : f_off <$> end_fill g = (λ i, 2 * PKT_BYTES * Z.of_nat i + PKT_BYTES) <$> seq 0 (length chunks);
  go_pool : pool g = 2 * PKT_BYTES * Z.of_nat (length chunks);
  go_count : (length chunks ≤ PER_SLOT * s + n)%nat ∧ (N_OPS * n + length cur ≤ r)%nat;
  go_ok : Forall item_ok cur;
  go_regs : Forall (λ it : item, it.1.2 < r)%nat cur;
  go_nodup : NoDup ((λ it : item, it.1.2) <$> cur);
}.

(** [make_txn(false)] on open transactions with items: one more packet of
    each kind. *)
Lemma make_txn_step s r its g chunks cur n :
  (s < slots)%nat → (r ≤ N_REGS)%nat → (0 < length cur ≤ N_OPS)%nat →
  g_layout g = L → txn_start g = with_ops true cur → txn_end g = with_ops false cur →
  its = concat chunks ++ cur →
  Forall2 (accesses true) chunks (start_fill g) → Forall2 (accesses false) chunks (end_fill g) →
  f_off <$> start_fill g = (λ i, 2 * PKT_BYTES * Z.of_nat i) <$> seq 0 (length chunks) →
  f_off <$> end_fill g = (λ i, 2 * PKT_BYTES * Z.of_nat i + PKT_BYTES) <$> seq 0 (length chunks) →
  pool g = 2 * PKT_BYTES * Z.of_nat (length chunks) →
  (length chunks ≤ PER_SLOT * s + n)%nat → (N_OPS * n + length cur ≤ r)%nat →
  Forall item_ok cur → NoDup ((λ it : item, it.1.2) <$> cur) →
  ∃ g', make_txn bm c held junk lid g = Ok g'
    ∧ g_layout g' = L ∧ txn_start g' = with_ops true [] ∧ txn_end g' = with_ops false [] ∧ ops_added g' = 0%nat
    ∧ Forall2 (accesses true) (chunks ++ [cur]) (start_fill g') ∧ Forall2 (accesses false) (chunks ++ [cur]) (end_fill g')
    ∧ f_off <$> start_fill g' = (λ i, 2 * PKT_BYTES * Z.of_nat i) <$> seq 0 (length (chunks ++ [cur]))
    ∧ f_off <$> end_fill g' = (λ i, 2 * PKT_BYTES * Z.of_nat i + PKT_BYTES) <$> seq 0 (length (chunks ++ [cur]))
    ∧ pool g' = 2 * PKT_BYTES * Z.of_nat (length (chunks ++ [cur])).
Proof.
  intros Hs Hr Hcur HL Ht1 Ht2 Hits Hf1 Hf2 Ho1 Ho2 Hp Hc1 Hc2 Hok Hnd.
  pose proof (pkt_bytes_pos USE_1PASS_PKTS) as Hpb. pose proof max_pool as Hmax.
  change PER_SLOT with 9%nat in *. change N_OPS with 8%nat in *. change N_REGS with 72%nat in *.
  assert (length chunks < 9 * slots)%nat as Hroom by lia.
  assert (SLOTS_PER_SCHED_BLOCK bm ≤ 2 ^ 16) as HSb by nia.
  unfold make_txn. rewrite HL, Ht1, Ht2, Hp.
  destruct (emit_spec true cur (2 * PKT_BYTES * Z.of_nat (length chunks))) as (f1 & -> & F1 & A1); [exact (proj2 Hcur)|done|done|nia|nia|nia|].
  cbn [mbind outcome_bind].
  destruct (emit_spec false cur (2 * PKT_BYTES * Z.of_nat (length chunks) + PKT_BYTES)) as (f2 & -> & F2 & A2); [exact (proj2 Hcur)|done|done|nia|nia|nia|].
  cbn [mbind outcome_bind]. eexists. split; [done|]. cbn [g_layout txn_start txn_end ops_added start_fill end_fill pool].
  rewrite !fmap_app, Ho1, Ho2, length_app. cbn [length]. rewrite Nat.add_1_r, !seq_S, !fmap_app. cbn [fmap list_fmap Nat.add].
  rewrite F1, F2. split_and!; try done; [by apply Forall2_app; [|constructor]..|lia].
Qed.

Lemma slot_items_S s r : slot_items s (S r) = slot_items s r ++ option_list (slot_item s r).
Proof.
  unfold slot_items. rewrite seq_S, omap_app. by f_equal.
Qed.

Lemma gen_key_step s r its g chunks cur n :
  (s < slots)%nat → (r < N_REGS)%nat → gen_ok s r its g chunks cur n →
  ∃ g' chunks' cur' n', gen_key bm c kvs held junk lid s g r = Ok g'
    ∧ gen_ok s (S r) (its ++ option_list (slot_item s r)) g' chunks' cur' n'.
Proof.
  intros Hs Hr [HL Ht1 Ht2 Hops Hfew Hits Hf1 Hf2 Ho1 Ho2 Hp [Hc1 Hc2] Hok Hregs Hnd].
  destruct (slot_rev s r Hs Hr) as (o & Hrev & Hsi). unfold gen_key. rewrite HL, Hrev. cbn [mbind outcome_bind].
  assert (gen_ok s (S r) its g chunks cur n) as Hsame.
  { split; try done; [lia|]. eapply Forall_impl; [exact Hregs|]. simpl. lia. }
  destruct o as [k|]; simpl in Hsi; [|rewrite Hsi, app_nil_r; by eauto 10].
  unfold is_mine in Hsi. unfold location in *. rewrite udiv_nz in * by done. cbn [mbind outcome_bind] in *.
  destruct (is_local _) eqn:Hloc in Hsi; rewrite Hloc; [|rewrite Hsi, app_nil_r; by eauto 10].
  assert (item_ok (s, r, k)) as Hit by (by split).
  pose proof (fill_at_spec true cur _ Hfew Hit) as E1. pose proof (fill_at_spec false cur _ Hfew Hit) as E2. cbn [snd] in E1, E2.
  rewrite Ht1, Ht2, Hops, E1. cbn [mbind outcome_bind]. rewrite E2. cbn [mbind outcome_bind].
  assert (length (cur ++ [(s, r, k)]) = S (length cur)) as Hl by (rewrite length_app; simpl; lia).
  assert (Forall item_ok (cur ++ [(s, r, k)])) as Hok' by (apply Forall_app; by repeat constructor).
  assert (NoDup ((λ it : item, it.1.2) <$> cur ++ [(s, r, k)])) as Hnd'.
  { rewrite fmap_app. apply NoDup_app. split_and!; [done| |apply NoDup_singleton].
    intros x (it & -> & Hin)%list_elem_of_fmap Hx%list_elem_of_singleton. rewrite Forall_forall in Hregs.
    specialize (Hregs it Hin). simpl in *. lia. }
  rewrite Hsi. cbn [option_list ops_added]. case_bool_decide as HN.
  - edestruct (make_txn_step s (S r) (its ++ [(s, r, k)])
      (MkGen (with_ops true (cur ++ [(s, r, k)])) (with_ops false (cur ++ [(s, r, k)])) (S (length cur)) (pool g) (start_fill g) (end_fill g) L)
      chunks (cur ++ [(s, r, k)]) n) as (g' & Hg' & G1 & G2 & G3 & G4 & G5 & G6 & G7 & G8 & G9); try done; try lia.
    { rewrite Hits. by rewrite app_assoc. }
    exists g', (chunks ++ [cur ++ [(s, r, k)]]), [], (S n). split; [exact Hg'|]. split; try done.
    + change N_OPS with 8%nat. simpl. lia.
    + rewrite Hits, concat_app. simpl. by rewrite !app_nil_r, app_assoc.
    + rewrite length_app. change PER_SLOT with 9%nat in *. change N_OPS with 8%nat in *. simpl in *. lia.
    + constructor.
  - eexists _, chunks, (cur ++ [(s, r, k)]), n. split; [done|]. split; try done; cbn [ops_added g_layout]; try lia.
    + rewrite Hits. by rewrite app_assoc.
    + apply Forall_app. split; [eapply Forall_impl; [exact Hregs|]; simpl; lia|]. repeat constructor.
Qed.
Lemma gen_slot_step s its g chunks :
  (s < slots)%nat → gen_ok s 0 its g chunks [] 0 →
  ∃ g' chunks', gen_slot bm c kvs held junk lid g s = Ok g'
    ∧ gen_ok (S s) 0 (its ++ slot_items s N_REGS) g' chunks' [] 0.
Proof.
  intros Hs Hg. unfold gen_slot.
  destruct (ofold_total (λ pre g, ∃ chunks cur n, gen_ok s (length pre) (its ++ slot_items s (length pre)) g chunks cur n)
    (gen_key bm c kvs held junk lid s) (seq 0 N_REGS) g) as (g1 & -> & chunks1 & cur & n & Hg1).
  { exists chunks, [], 0%nat. by rewrite app_nil_r. }
  { intros pre r post g1 Hcut (chunks1 & cur & n & Hg1). destruct (seq_cut _ _ _ _ _ Hcut) as (_ & Hr & Hlt). simpl in Hr. subst r.
    destruct (gen_key_step s (length pre) _ g1 chunks1 cur n Hs ltac:(done) Hg1) as (g2 & chunks2 & cur2 & n2 & Hk & Hg2).
    exists g2. split; [done|]. exists chunks2, cur2, n2. rewrite length_app, Nat.add_1_r, slot_items_S, app_assoc. done. }
  cbn [mbind outcome_bind]. rewrite length_seq in Hg1.
  destruct Hg1 as [HL Ht1 Ht2 Hops Hfew Hits Hf1 Hf2 Ho1 Ho2 Hp [Hc1 Hc2] Hok Hregs Hnd].
  rewrite Hops, (bool_decide_eq_true_2 (length cur < N_OPS)%nat) by done. cbn [assert mbind outcome_bind].
  case_bool_decide as Hcur.
  - rewrite Ht1, Ht2, !close_at_spec by done. cbn [mbind outcome_bind].
    edestruct (make_txn_step s N_REGS (its ++ slot_items s N_REGS)
      (MkGen (with_ops true cur) (with_ops false cur) (length cur) (pool g1) (start_fill g1) (end_fill g1) (g_layout g1))
      chunks1 cur n) as (g' & Hg' & G1 & G2 & G3 & G4 & G5 & G6 & G7 & G8 & G9); try done; try lia.
    exists g', (chunks1 ++ [cur]). split; [exact Hg'|]. split; try done; simpl.
    + change N_OPS with 8%nat. lia.
    + rewrite Hits, concat_app. simpl. by rewrite !app_nil_r.
    + rewrite length_app. change PER_SLOT with 9%nat in *. change N_OPS with 8%nat in *. change N_REGS with 72%nat in *. simpl in *. lia.
    + constructor.
  - destruct cur as [|it cur]; [|simpl in Hcur; lia]. exists g1, chunks1. split; [done|]. split; try done.
    change PER_SLOT with 9%nat in *. change N_OPS with 8%nat in *. change N_REGS with 72%nat in *. simpl in *. lia.
Qed.

Lemma gen_start_end_spec : ∃ g chunks,
  gen_start_end_packets bm c kvs held junk lid 0 L = Ok g ∧ gen_ok slots 0 hot_items g chunks [] 0.
Proof.
  unfold gen_start_end_packets.
  destruct (ofold_total (λ pre g, ∃ chunks, gen_ok (length pre) 0 (concat ((λ s, slot_items s N_REGS) <$> seq 0 (length pre))) g chunks [] 0)
    (gen_slot bm c kvs held junk lid) (seq 0 slots) (make_txn_first junk lid 0 L)) as (g & -> & chunks & Hg).
  - exists []. split; try done; [change N_OPS with 8%nat; simpl; lia|constructor].
  - intros pre s post g Hcut (chunks & Hg). destruct (seq_cut _ _ _ _ _ Hcut) as (_ & Hr & Hlt). simpl in Hr. subst s.
    destruct (gen_slot_step (length pre) _ g chunks ltac:(done) Hg) as (g' & chunks' & Hs & Hg').
    exists g'. split; [done|]. exists chunks'. rewrite length_app, Nat.add_1_r, seq_S, fmap_app, concat_app. cbn [fmap list_fmap concat Nat.add].
    by rewrite app_nil_r.
  - rewrite length_seq in Hg. by exists g, chunks.
Qed.
(** C18: [gen_start_end_packets] meets its assertions and never exhausts its
    pool.  The node's hot keys, slot by slot, are cut into packets so that the
    start packets make the switch write each of them exactly once with its
    value in the table, and nothing else, and the end packets make it read each
    of them exactly once; and every packet has its own buffer. *)
Theorem start_end_packets :
  ∃ g chunks, gen_start_end_packets bm c kvs held junk lid 0 L = Ok g
    ∧ g_layout g = L
    ∧ concat chunks = hot_items
    ∧ Forall2 (accesses true) chunks (start_fill g)
    ∧ Forall2 (accesses false) chunks (end_fill g)
    ∧ NoDup (f_off <$> start_fill g ++ end_fill g)
    ∧ pool g ≤ MAX_STACKPOOL_SIZE bm.
Proof.
  destruct gen_start_end_spec as (g & chunks & Hrun & Hg). pose proof (pkt_bytes_pos USE_1PASS_PKTS).
  destruct Hg as [HL _ _ _ _ Hits Hf1 Hf2 Ho1 Ho2 Hp [Hc1 Hc2] _ _ _].
  exists g, chunks. split_and!; try done.
  - by rewrite Hits, app_nil_r.
  - rewrite fmap_app, Ho1, Ho2. apply NoDup_app. split_and!.
    + apply NoDup_fmap_2; [|apply NoDup_seq]. intros i j Hij. nia.
    + intros x (i & -> & _)%list_elem_of_fmap (j & Hj & _)%list_elem_of_fmap.
      assert (PKT_BYTES * (2 * Z.of_nat i - 2 * Z.of_nat j - 1) = 0) as [?|?]%Z.mul_eq_0 by lia; lia.
    + apply NoDup_fmap_2; [|apply NoDup_seq]. intros i j Hij. nia.
  - rewrite Hp, max_pool. change PER_SLOT with 9%nat in *. change N_OPS with 8%nat in *. simpl in *. nia.
Qed.

(** The barriers that a hot period passes: those of its queue and the last one. *)
Lemma hot_period_waits mb sq past evs mid : send_queue past mb sq = Ok mid →
  ∃ p', run_hot_period bm c kvs held junk lid mb sq (MkPeriod evs past 0 L) = Ok p'
    ∧ n_waits (p_events p') = n_waits evs + n_waits mid + 1 ∧ past_mb_num p' = mb.
Proof.
  intros Hmid. destruct gen_start_end_spec as (g & chunks & Hg & _). unfold run_hot_period. cbn [p_pool p_layout past_mb_num p_events].
  rewrite Hg. cbn [mbind outcome_bind]. rewrite Hmid. cbn [mbind outcome_bind]. eexists. split; [done|]. cbn [p_events past_mb_num]. split; [|done].
  rewrite !n_waits_app, !n_waits_none by done. cbn [n_waits]. lia.
Qed.

(** C40: a node that queued nothing in the batch falls out of step with the
    others.  Take two nodes in the same state at the same mini-batch number [mb],
    with the number [past] of the last period, and let one have an empty queue
    whose first entry, which [run_hot_period] still looks at, was left there by an
    earlier batch (its number is at most [past]), the other a queue of entries
    of this batch.  [run_hot_period] succeeds on both and sets [past_mb_num] to
    [mb], but the first passes 2 barriers and the second [2 + (mb - past)]. *)
Theorem empty_queue_skips_barriers past mb evs sq0 e0 sq l :
  send_q_tail sq0 = 0 → send_q sq0 !! 0%nat = Some e0 → e_mb_num e0 ≤ past →
  send_q_ok sq l → StronglySorted Z.le l.*1 → l ≠ [] → Forall (λ p, past ≤ p.1 ≤ mb) l →
  let p := MkPeriod evs past 0 L in
  ∃ p0 p1, run_hot_period bm c kvs held junk lid mb sq0 p = Ok p0 ∧ run_hot_period bm c kvs held junk lid mb sq p = Ok p1
    ∧ past_mb_num p0 = mb ∧ past_mb_num p1 = mb
    ∧ n_waits (p_events p0) = n_waits evs + 2
    ∧ n_waits (p_events p1) = n_waits evs + 2 + (mb - past).
Proof.
  intros Ht He Hle Hok Hs Hne Hmb p.
  assert (send_queue past mb sq0 = Ok [WaitNodes]) as H0.
  { unfold send_queue, aget. rewrite Ht, He. cbn [mbind outcome_bind].
    rewrite bool_decide_eq_false_2 by (simpl; lia). by rewrite (proj2 (Z.ltb_ge _ _)) by lia. }
  destruct (send_queue_in_step sq l past mb Hok Hs Hne Hmb) as (mid & H1 & _ & Hw & _).
  destruct (hot_period_waits mb sq0 past evs _ H0) as (p0 & Hp0 & Hn0 & E0). destruct (hot_period_waits mb sq past evs _ H1) as (p1 & Hp1 & Hn1 & E1).
  exists p0, p1. split_and!; try done; [rewrite Hn0; cbn; lia|rewrite Hn1, Hw; lia].
Qed.
End packets.

(** Three rows on the only node, of which the keys 1 and 2 are hot. *)
Definition sample_kvs : StructTable :=
  MkTable 0 EmptyString 3 3 (MkPart 3 3 0 (node_of 0) (node_of 7))
    [set_tuple (MkKV 0 40) Row_init; set_tuple (MkKV 1 41) Row_init; set_tuple (MkKV 2 42) Row_init].

Lemma start_end_packets_witness :
  hot_items default_build sample_kvs shared_freqs = [(0%nat, 0%nat, 2); (1%nat, 0%nat, 1)]
  ∧ ∃ g, gen_start_end_packets default_build sample_macs sample_kvs (λ _, sample_old_pkt) [] 0 0
           (set_block_num 6 (layout_of shared_freqs)) = Ok g.
Proof.
  split; [vm_compute; reflexivity|].
  destruct (start_end_packets default_build sample_macs sample_kvs (λ _, sample_old_pkt) [] 0 shared_freqs 6) as (g & ? & H & _).
  - exact shared_freqs_ok.
  - intros off. split; reflexivity.
  - simpl. lia.
  - reflexivity.
  - lia.
  - simpl. lia.
  - simpl. lia.
  - discriminate.
  - intros k loc Hk _ _. cbn in Hk.
    apply elem_of_cons in Hk as [->|Hk]; [exists (MkKV 1 41); split; [reflexivity|simpl; lia]|].
    apply elem_of_cons in Hk as [->|Hk]; [exists (MkKV 2 42); split; [reflexivity|simpl; lia]|].
    by apply not_elem_of_nil in Hk.
  - exists g. exact H.
Defined.

(** After a period that ended at 5: with nothing queued the node passes 2 barriers
    up to 9, with entries of 6 and 8 it passes 6. *)
Definition next_queue : hot_send_q :=
  MkSendQ 2 4 [MkEntry (0, 0%nat) 6 0 PKT_BYTES; MkEntry (0, 1%nat) 8 PKT_BYTES PKT_BYTES; inhabitant; inhabitant]
          (MkLSP (4 * PKT_BYTES) (2 * PKT_BYTES)).

Lemma empty_queue_skips_barriers_witness :
  let p := MkPeriod [] 5 0 (set_block_num 6 (layout_of shared_freqs)) in
  let run sq := run_hot_period default_build sample_macs sample_kvs (λ _, sample_old_pkt) [] 0 9 sq p in
  ∃ p0 p1, run (done_sending sample_queue) = Ok p0 ∧ run next_queue = Ok p1 ∧ n_waits (p_events p0) = 2 ∧ n_waits (p_events p1) = 6.
Proof.
  destruct (empty_queue_skips_barriers default_build sample_macs sample_kvs (λ _, sample_old_pkt) [] 0 shared_freqs 6 shared_freqs_ok) with
    (past := 5) (mb := 9) (evs := @nil event) (sq0 := done_sending sample_queue) (e0 := MkEntry (0, 0%nat) 2 0 PKT_BYTES)
    (sq := next_queue) (l := [(6, (0, 0%nat)); (8, (0, 1%nat))]) as (p0 & p1 & H0 & H1 & _ & _ & W0 & W1).
  - intros off. split; reflexivity.
  - simpl. lia.
  - reflexivity.
  - lia.
  - simpl. lia.
  - simpl. lia.
  - discriminate.
  - intros k loc Hk _ _. cbn in Hk.
    apply elem_of_cons in Hk as [->|Hk]; [exists (MkKV 1 41); split; [reflexivity|simpl; lia]|].
    apply elem_of_cons in Hk as [->|Hk]; [exists (MkKV 2 42); split; [reflexivity|simpl; lia]|].
    by apply not_elem_of_nil in Hk.
  - reflexivity.
  - reflexivity.
  - simpl. lia.
  - split; try done; [|left; simpl; lia]. intros [|[|i]] m r H; simplify_eq/=; done.
  - cbn [fmap list_fmap fst]. apply SSorted_cons; [apply SSorted_cons; [apply SSorted_nil|]|]; repeat constructor; lia.
  - discriminate.
  - repeat constructor; simpl; lia.
  - exists p0, p1. split; [exact H0|]. split; [exact H1|]. split; [exact W0|exact W1].
Defined.
