(* ===== verification/OldHotPeriod.v ===== *)
(** * The earlier hot period

    [ee/old_hot_period.cpp], kept beside [hot_period.cpp] and not built: it makes the
    packets that load and read back the hot keys in the same way, waits for the
    replies to every window of queued packets, passes a barrier only where the number of
    the next mini-batch is the one after, and reads the end packets back into
    the table. *)
From stdpp Require Import base tactics list numbers gmap sorting.
From Stdlib Require Import ZArith Lia.
From S2P Require Import Prelude Types Layout Msg Mempool Row Table SendQ SwitchPkt HotPeriod.

#[local] Open Scope Z_scope.

(** [gen_start_end_packets] and its helpers are word for word those of
    [hot_period.cpp]. *)
Definition old_gen_start_end_packets := gen_start_end_packets.

(** ** The windows *)

Section network.
(** [recvmmsg c n]: what the [c]-th call returns when [n] replies are asked for,
    -1 or a number of messages. *)
Context (recvmmsg : nat → nat → Z).

(** [if (received < q_p-window_start) exec.n_dropped += ...]: [received] is a
    [ssize_t] and is converted to [size_t]. *)
Definition count_dropped (n : nat) (received n_dropped : Z) : Z :=
  if u64 received <? Z.of_nat n then u64 (n_dropped + Z.of_nat n - u64 received) else n_dropped.

(** One iteration of the sending loop from [window_start], the [c]-th. *)
Definition old_window (q : list hot_txn_entry) (q_size : nat) (c window_start : nat) (n_dropped : Z) : outcome (nat * list event * Z) :=
  e0 ← aget q window_start;
  n ← window q q_size window_start (e_mb_num e0) MAX_IN_FLIGHT;
  let q_p := (window_start + n)%nat in
  let received := recvmmsg c n in
  _ ← (if bool_decide (q_p = q_size) then Ok tt else next ← aget q q_p; assert (e_mb_num e0 <=? e_mb_num next));
  let n_dropped' := count_dropped n received n_dropped in
  next ← aget q q_p;
  let sent := SendWindow (take n (drop window_start q)) in
  Ok (q_p, sent :: (if (u32 (e_mb_num e0 + 1) =? e_mb_num next) || bool_decide (q_p = q_size) then [WaitNodes] else []), n_dropped').

Fixpoint old_windows (fuel : nat) (q : list hot_txn_entry) (q_size : nat) (c q_p : nat) (n_dropped : Z) : outcome (list event * Z) :=
  if bool_decide (q_p < q_size)%nat then
    match fuel with
    | O => Fail Spins
    | S fuel' =>
        '(q_p', evs, d) ← old_window q q_size c q_p n_dropped;
        '(rest, d') ← old_windows fuel' q q_size (S c) q_p' d;
        Ok (evs ++ rest, d')
    end
  else Ok ([], n_dropped).

(** ** The end packets *)

(** A call of [recvmsg]: the bytes returned and the packet, or [errno]. *)
Inductive recv_result := Got (rc : Z) (pkt : pass1_pkt) | Err (errno : Z).
Definition EAGAIN : Z := 11.
Definition EWOULDBLOCK : Z := EAGAIN.

Context (recvmsg : nat → recv_result).

Definition recv_end (st : StructTable * Z) (x : nat * fill) : outcome (StructTable * Z) :=
  match recvmsg x.1 with
  | Err errno => assert ((errno =? EAGAIN) || (errno =? EWOULDBLOCK));; Ok (st.1, u64 (st.2 + 1))
  | Got rc pkt => assert (rc =? PKT_BYTES);; t ← process_reply_1pass st.1 (f_txn x.2) pkt true; Ok (t, st.2)
  end.

(** [run_hot_period]: its events, the table and [n_dropped]. *)
Definition old_run_hot_period (bm : build) (c : macs) (kvs : StructTable) (held : Z → pass1_pkt) (junk : list OP)
    (lid : Z) (sq : hot_send_q) (L : DeclusteredLayout) (pool n_dropped : Z) : outcome (list event * StructTable * Z) :=
  g ← old_gen_start_end_packets bm c kvs held junk lid pool L;
  let q_size := Z.to_nat (send_q_tail sq) in
  '(mid, d) ← old_windows q_size (send_q sq) q_size 0 0 n_dropped;
  '(t, d') ← ofold recv_end (zip (seq 0 (length (end_fill g))) (end_fill g)) (kvs, d);
  Ok ((SendStart <$> start_fill g) ++ WaitNodes :: mid ++ (SendEnd <$> end_fill g) ++ [WaitNodes], t, d').
End network.

(** ** Which barriers are passed *)

(** One after every mini-batch that is followed by the next number, and one at
    the end. *)
Fixpoint barriers (ms : list Z) : Z :=
  match ms with
  | [] => 0
  | m :: ms' => match ms' with [] => 1 | m' :: _ => if m + 1 =? m' then 1 else 0 end + barriers ms'
  end.

Lemma barriers_run n m ms : (0 < n)%nat →
  barriers (replicate n m ++ ms) = match ms with [] => 1 | m' :: _ => if m + 1 =? m' then 1 else 0 end + barriers ms.
Proof.
  induction n as [|[|n] IH]; intros Hn; [lia|done|]. specialize (IH ltac:(lia)).
  change (barriers (replicate (S (S n)) m ++ ms)) with ((if m + 1 =? m then 1 else 0) + barriers (replicate (S n) m ++ ms)).
  rewrite IH, (proj2 (Z.eqb_neq _ _)) by lia. lia.
Qed.

Lemma barriers_cons m m' ms : barriers (m :: m' :: ms) = (if m + 1 =? m' then 1 else 0) + barriers (m' :: ms).
Proof. reflexivity. Qed.

(** A node passes all the barriers between its first and its last mini-batch
    exactly if it has packets for each of them. *)
Lemma barriers_gaps ms a b : StronglySorted Z.le ms → head ms = Some a → last ms = Some b →
  barriers ms ≤ b - a + 1 ∧ (barriers ms = b - a + 1 ↔ ∀ m, a ≤ m ≤ b → m ∈ ms).
Proof.
  revert a. induction ms as [|m ms IH]; intros a Hs Ha Hb; [done|]. injection Ha as ->. apply StronglySorted_inv in Hs as [Hs Hle].
  destruct ms as [|m' ms].
  { injection Hb as ->. cbn. split; [lia|]. split; [|lia]. intros _ m Hm. apply list_elem_of_singleton. lia. }
  rewrite last_cons_cons in Hb. destruct (IH m' Hs eq_refl Hb) as [IH1 IH2]. rewrite barriers_cons.
  pose proof (proj1 (Forall_cons _ _ _) Hle) as [Ham _].
  assert (∀ x, x ∈ m' :: ms → m' ≤ x ≤ b) as Hrange.
  { intros x Hx. split.
    - apply elem_of_cons in Hx as [->|Hx]; [lia|]. apply StronglySorted_inv in Hs as [_ Hf]. rewrite Forall_forall in Hf. by apply Hf.
    - apply list_elem_of_lookup in Hx as [i Hi]. rewrite last_lookup in Hb. pose proof (lookup_lt_Some _ _ _ Hi) as Hlt.
      destruct (decide (i = pred (length (m' :: ms)))) as [->|Hne]; [rewrite Hi in Hb; injection Hb as ->; lia|].
      eapply (StronglySorted_lookup Z.le _ i _ x b Hs Hi Hb). lia. }
  assert (m' ≤ b) as Hmb by (destruct (Hrange m'); [by left|lia]).
  destruct (Z.eqb_spec (a + 1) m') as [E|E].
  - split; [lia|]. split.
    + intros Hall m Hm. destruct (decide (m = a)) as [->|]; [by left|]. right. apply IH2; lia.
    + intros Hall. assert (barriers (m' :: ms) = b - m' + 1) as ->; [|lia]. apply IH2. intros m Hm.
      destruct (proj1 (elem_of_cons _ _ _) (Hall m ltac:(lia))) as [->|?]; [lia|done].
  - split; [lia|]. split.
    + intros Hsum. assert (a = m') as -> by lia. intros m Hm. right. apply IH2; lia.
    + intros Hall. destruct (decide (a = m')) as [->|Hne].
      * assert (barriers (m' :: ms) = b - m' + 1) as ->; [|lia]. apply IH2. intros m Hm.
        destruct (proj1 (elem_of_cons _ _ _) (Hall m Hm)) as [->|?]; [by left|done].
      * exfalso. specialize (Hall (a + 1) ltac:(lia)). apply elem_of_cons in Hall as [?|Hin]; [lia|]. destruct (Hrange _ Hin). lia.
Qed.

Section old_queue.
Context (recvmmsg : nat → nat → Z) (q : list hot_txn_entry) (q_size : nat).
Hypothesis Hroom : (q_size < length q)%nat.
Hypothesis Hsorted : ∀ i j e e', (i ≤ j < q_size)%nat → q !! i = Some e → q !! j = Some e' → e_mb_num e ≤ e_mb_num e'.
Hypothesis Hrange : ∀ i e, (i < q_size)%nat → q !! i = Some e → 0 ≤ e_mb_num e < 2 ^ 32 - 1.
(** Nothing is lost, or no call succeeds. *)
Hypothesis Hrecv : (∀ c n, recvmmsg c n = Z.of_nat n) ∨ (∀ c n, recvmmsg c n = -1).
Hypothesis Hsize : Z.of_nat q_size < 2 ^ 64.

Notation mbs := (e_mb_num <$> take q_size q).

Lemma count_dropped_none c n d : (n ≤ q_size)%nat → count_dropped n (recvmmsg c n) d = d.
Proof.
  intros Hn. unfold count_dropped. destruct Hrecv as [-> | ->].
  - rewrite (wrap_small 64 (Z.of_nat n)) by lia. by rewrite (proj2 (Z.ltb_ge _ _)) by lia.
  - rewrite (proj2 (Z.ltb_ge _ _)); [done|]. change (u64 (-1)) with (2 ^ 64 - 1). lia.
Qed.

Lemma mbs_run i n m : (i + n ≤ q_size)%nat → Forall (λ e, e_mb_num e = m) (take n (drop i q)) →
  drop i mbs = replicate n m ++ drop (i + n) mbs.
Proof.
  intros Hle Hall. rewrite <-drop_drop. rewrite <-(take_drop n (drop i mbs)) at 1. f_equal.
  assert (take n (drop i mbs) = e_mb_num <$> take n (drop i q)) as ->.
  { rewrite <-fmap_drop, <-fmap_take. rewrite (take_drop_commute (take q_size q)), take_take, Nat.min_l by lia. by rewrite <-take_drop_commute. }
  apply list_eq. intros j. rewrite list_lookup_fmap. destruct (take n (drop i q) !! j) as [e|] eqn:E; cbn [fmap option_fmap option_map].
  - rewrite Forall_lookup in Hall. rewrite (Hall j e E). symmetry. apply lookup_replicate. split; [done|]. apply lookup_lt_Some in E.
    rewrite length_take in E. lia.
  - symmetry. apply lookup_ge_None_2. apply lookup_ge_None_1 in E. rewrite length_take, length_drop in E. rewrite length_replicate. lia.
Qed.

Lemma old_window_spec c i d : (i < q_size)%nat →
  ∃ n evs, old_window recvmmsg q q_size c i d = Ok ((i + n)%nat, evs, d) ∧ (0 < n)%nat ∧ (i + n ≤ q_size)%nat
    ∧ concat (sent_entries <$> evs) = take n (drop i q)
    ∧ n_waits evs + barriers (drop (i + n) mbs) = barriers (drop i mbs)
    ∧ Forall (λ ev, match ev with SendWindow es => (length es ≤ MAX_IN_FLIGHT)%nat ∧ ∃ m, Forall (λ e, e_mb_num e = m) es | _ => True end) evs.
Proof.
  intros Hi. destruct (lookup_lt_is_Some_2 q i) as [e He]; [lia|]. unfold old_window. rewrite (aget_some _ _ _ He). cbn [mbind outcome_bind].
  destruct (window_spec q q_size Hroom (e_mb_num e) MAX_IN_FLIGHT i) as (n & -> & Hn & Hle & Hall & Hlen & Hpos). cbn [mbind outcome_bind].
  assert (0 < n)%nat as Hn0. { destruct Hpos as [?|[?|[(e' & He' & ?)|?]]]; [done|lia|simplify_eq|done]. }
  specialize (Hle ltac:(lia)). destruct (lookup_lt_is_Some_2 q (i + n)) as [e' He']; [lia|]. rewrite (aget_some _ _ _ He'). cbn [mbind outcome_bind].
  rewrite (count_dropped_none c n d) by lia. rewrite (mbs_run i n _ Hle Hall), barriers_run by done.
  set (sent := take n (drop i q)) in *.
  assert (∀ b : bool, Forall (λ ev, match ev with SendWindow es => (length es ≤ MAX_IN_FLIGHT)%nat ∧ ∃ m, Forall (λ e, e_mb_num e = m) es | _ => True end)
    (SendWindow sent :: (if b then [WaitNodes] else []))) as Hw.
  { intros b. constructor; [rewrite Hlen; split; [done|by exists (e_mb_num e)]|]. destruct b; by repeat constructor. }
  assert (∀ b : bool, concat (sent_entries <$> SendWindow sent :: (if b then [WaitNodes] else [])) = sent) as Hc.
  { intros []; cbn; by rewrite app_nil_r. }
  case_bool_decide as Hend.
  - cbn [mbind outcome_bind]. rewrite orb_true_r. eexists n, _. split; [done|]. split_and!; [done|done|exact (Hc true)| |exact (Hw true)].
    rewrite drop_ge by (rewrite length_fmap, length_take; lia). cbn. lia.
  - assert (e_mb_num e ≤ e_mb_num e') as Hm by (eapply (Hsorted i (i + n)%nat); [lia|done..]).
    rewrite (proj2 (Z.leb_le _ _) Hm). cbn [assert mbind outcome_bind]. rewrite orb_false_r. eexists n, _. split; [done|].
    split_and!; [done|done|apply Hc| |apply Hw].
    rewrite (drop_S mbs (e_mb_num e') (i + n)) by (rewrite list_lookup_fmap, lookup_take_lt by lia; by rewrite He').
    destruct (Hrange i e Hi He). rewrite (wrap_small 32 (e_mb_num e + 1)) by lia. destruct (e_mb_num e + 1 =? e_mb_num e'); cbn [n_waits]; lia.
Qed.

Lemma old_windows_spec fuel c i d : (i ≤ q_size)%nat → (q_size ≤ i + fuel)%nat →
  ∃ evs, old_windows recvmmsg fuel q q_size c i d = Ok (evs, d)
    ∧ concat (sent_entries <$> evs) = take (q_size - i) (drop i q) ∧ n_waits evs = barriers (drop i mbs)
    ∧ Forall (λ ev, match ev with SendWindow es => (length es ≤ MAX_IN_FLIGHT)%nat ∧ ∃ m, Forall (λ e, e_mb_num e = m) es | _ => True end) evs.
Proof.
  revert c i. induction fuel as [|fuel IH]; intros c i Hi Hf; cbn [old_windows].
  - rewrite bool_decide_eq_false_2 by lia. exists []. replace (q_size - i)%nat with 0%nat by lia.
    rewrite (drop_ge mbs) by (rewrite length_fmap, length_take; lia). by split_and!.
  - case_bool_decide as Hlt.
    2:{ exists []. replace (q_size - i)%nat with 0%nat by lia. rewrite (drop_ge mbs) by (rewrite length_fmap, length_take; lia). by split_and!. }
    destruct (old_window_spec c i d Hlt) as (n & evs & -> & Hn & Hle & Hs & Hw & Hf1). cbn [mbind outcome_bind].
    destruct (IH (S c) (i + n)%nat ltac:(lia) ltac:(lia)) as (rest & -> & Hs' & Hw' & Hf2). cbn [mbind outcome_bind]. eexists. split; [done|]. split_and!.
    + rewrite fmap_app, concat_app, Hs, Hs'. replace (q_size - i)%nat with (n + (q_size - (i + n)))%nat by lia. by rewrite <-take_take_drop, drop_drop.
    + rewrite n_waits_app. lia.
    + by apply Forall_app_2.
Qed.
End old_queue.

(** A node with the transactions [l] sends each of them once, in order; between the
    first and the last mini-batch it has, it passes as many barriers as there
    are mini-batches exactly if it has transactions in all of them, and fewer
    otherwise, so that it is out of step with nodes that have them; and
    [n_dropped] is the same whether every reply arrives or every [recvmmsg]
    fails, because -1 is compared as an unsigned number. *)
Theorem old_period_misses_barriers recvmmsg sq l a b d :
  send_q_ok sq l → StronglySorted Z.le l.*1 → Forall (λ p, 0 ≤ p.1 < 2 ^ 32 - 1) l →
  head l.*1 = Some a → last l.*1 = Some b →
  (∀ c n, recvmmsg c n = Z.of_nat n) ∨ (∀ c n, recvmmsg c n = -1) →
  let q_size := Z.to_nat (send_q_tail sq) in
  ∃ evs, old_windows recvmmsg q_size (send_q sq) q_size 0 0 d = Ok (evs, d)
    ∧ e_txn <$> concat (sent_entries <$> evs) = l.*2
    ∧ n_waits evs ≤ b - a + 1 ∧ (n_waits evs = b - a + 1 ↔ ∀ m, a ≤ m ≤ b → m ∈ l.*1).
Proof.
  intros Hq Hs Hrange Ha Hb Hrecv q_size. pose proof (sq_tail _ _ Hq) as Ht. pose proof (sq_len _ _ Hq) as Hlen. pose proof (sq_cap _ _ Hq) as Hcap.
  assert (q_size = length l) as HT by (unfold q_size; lia). assert (l ≠ []) as Hne by (by intros ->).
  assert (q_size < length (send_q sq))%nat as Hroom by (destruct (sq_room _ _ Hq); [lia|done]).
  assert (take q_size (send_q sq) = (λ i, default inhabitant (send_q sq !! i)) <$> seq 0 q_size) as Htake.
  { apply list_eq. intros i. rewrite list_lookup_fmap. destruct (decide (i < q_size)%nat) as [Hi|Hi].
    - rewrite lookup_take_lt, lookup_seq_lt by done. cbn [fmap option_fmap option_map Nat.add]. destruct (lookup_lt_is_Some_2 (send_q sq) i) as [e ->]; [lia|done].
    - rewrite lookup_take_ge, (lookup_ge_None_2 (seq 0 q_size)) by (rewrite ?length_seq; lia). done. }
  assert (∀ i e, (i < q_size)%nat → send_q sq !! i = Some e → l !! i = Some (e_mb_num e, e_txn e)) as Hl.
  { intros i e Hi Hie. destruct (lookup_lt_is_Some_2 l i) as [[m r] Hlr]; [lia|]. pose proof (sq_entries _ _ Hq i m r Hlr). by simplify_eq/=. }
  assert (∀ {X} (f : hot_txn_entry → X) (g : Z * txn_ref → X), (∀ e, f e = g (e_mb_num e, e_txn e)) → f <$> take q_size (send_q sq) = g <$> l) as Hmap.
  { intros X f g Hfg. apply list_eq. intros i. rewrite !list_lookup_fmap. destruct (decide (i < q_size)%nat) as [Hi|Hi].
    - rewrite lookup_take_lt by done. destruct (lookup_lt_is_Some_2 (send_q sq) i) as [e He]; [lia|]. rewrite He, (Hl i e Hi He). cbn. by rewrite Hfg.
    - rewrite lookup_take_ge, (lookup_ge_None_2 l) by lia. done. }
  destruct (old_windows_spec recvmmsg (send_q sq) q_size Hroom) with (fuel := q_size) (c := 0%nat) (i := 0%nat) (d := d) as (evs & Hrun & Hsent & Hw & _); try done; try lia.
  - intros i j e e' Hij Hi%Hl Hj%Hl; [|lia|lia]. destruct (decide (i = j)) as [->|]; [simplify_eq; lia|].
    apply (StronglySorted_lookup _ _ i j _ _ Hs); [by rewrite list_lookup_fmap, Hi|by rewrite list_lookup_fmap, Hj|lia].
  - intros i e Hi He%Hl; [|done]. rewrite Forall_lookup in Hrange. apply (Hrange _ _ He).
  - exists evs. split; [done|]. rewrite Nat.sub_0_r, !drop_0 in Hsent. rewrite drop_0 in Hw.
    rewrite (Hmap _ e_mb_num fst) in Hw by done. split; [by rewrite Hsent, (Hmap _ e_txn snd)|]. rewrite Hw. by apply barriers_gaps.
Qed.

(** Mini-batches 2 and 4: one barrier where three are expected. *)
Lemma old_period_misses_barriers_witness :
  ∃ evs, old_windows (λ _ _, -1) 2 (send_q sample_queue) 2 0 0 7 = Ok (evs, 7) ∧ n_waits evs < 3.
Proof.
  destruct (old_period_misses_barriers (λ _ _, -1) sample_queue [(2, (0, 0%nat)); (4, (0, 1%nat))] 2 4 7) as (evs & H & _ & Hle & Hw).
  - exact sample_queue_ok.
  - cbn [fmap list_fmap fst]. apply SSorted_cons; [apply SSorted_cons; [apply SSorted_nil|]|]; repeat constructor; lia.
  - repeat constructor; simpl; lia.
  - reflexivity.
  - reflexivity.
  - right. reflexivity.
  - exists evs. split; [exact H|]. assert (n_waits evs ≠ 3) as Hne; [|lia]. intros E.
    pose proof (proj1 Hw E 3 ltac:(lia)) as Hin. cbn [fmap list_fmap fst] in Hin. rewrite !elem_of_cons, elem_of_nil in Hin. lia.
Defined.

(** ** The replies to the end packets *)

Definition no_reply (r : recv_result) : bool := match r with Err _ => true | Got _ _ => false end.

(** Each of them is counted as dropped or written to the table. *)
Lemma recv_end_counts recvmsg l t d t' d' : 0 ≤ d → d + Z.of_nat (length l) < 2 ^ 64 → ofold (recv_end recvmsg) l (t, d) = Ok (t', d') →
  d' = d + Z.of_nat (length (filter (λ x, no_reply (recvmsg x.1) = true) l)).
Proof.
  intros H0 Hd H. set (P := λ (pre : list (nat * fill)) (st : StructTable * Z), (length pre ≤ length l)%nat →
    st.2 = d + Z.of_nat (length (filter (λ x, no_reply (recvmsg x.1) = true) pre))).
  cut (P l (t', d')); [intros HP; by apply HP|]. refine (ofold_inv P _ l (t, d) (t', d') _ _ H); unfold P.
  - intros _. cbn. lia.
  - intros pre x post [t1 d1] [t2 d2] Hcut IH Hstep Hlen. rewrite length_app in Hlen. cbn in Hlen. specialize (IH ltac:(lia)). cbn [snd] in IH |- *.
    rewrite filter_app, length_app, filter_cons, filter_nil. unfold recv_end in Hstep.
    pose proof (length_filter (λ x, no_reply (recvmsg x.1) = true) pre).
    destruct (recvmsg x.1) eqn:E; cbn [fst snd] in Hstep; minv.
    + rewrite decide_False by done. cbn. lia.
    + rewrite decide_True by done. cbn [length]. rewrite wrap_small by lia. lia.
Qed.
