(* ===== verification/SwIntf.v ===== *)
(** * The switch interface

    [comm/switch_intf.cpp]: the raw socket to the switch, and the thread that
    takes the frames from the ring of buffers which the kernel fills
    ([PACKET_RX_RING]).  The system calls are arguments; the kernel's side of
    the ring is the step that its documentation describes: it fills the next
    buffer if the program has given it back and drops the frame otherwise. *)
From stdpp Require Import base tactics list numbers relations.
From Stdlib Require Import ZArith Lia.
From S2P Require Import Prelude SwitchPkt.

#[local] Open Scope Z_scope.

(** ** Setting up the socket *)

Definition MAC_ADDR_BYTES : nat := 6.

(** [sockaddr_ll] and [tpacket_req]. *)
Record sockaddr_ll := MkAddr { sll_family : Z; sll_protocol : Z; sll_ifindex : Z; sll_halen : Z; sll_addr : list Z }.
Record tpacket_req := MkReq { tp_block_size : Z; tp_block_nr : Z; tp_frame_size : Z; tp_frame_nr : Z }.

Definition AF_PACKET : Z := 17.

Definition setup_sockaddr_ll (iface_id : Z) : sockaddr_ll :=
  MkAddr AF_PACKET (htons P4DB_ETHER_TYPE) iface_id (Z.of_nat MAC_ADDR_BYTES) (replicate MAC_ADDR_BYTES 0).

(** [TPACKET_ALIGN] of [linux/if_packet.h]: up to a multiple of 16. *)
Definition TPACKET_ALIGN (x : Z) : Z := Z.land (x + 15) (Z.lnot 15).

(** The request for the ring; [hdrlen] is [TPACKET_HDRLEN]. *)
Definition ring_req (hdrlen : Z) : tpacket_req := MkReq 4096 5000 (TPACKET_ALIGN (hdrlen + 14) + TPACKET_ALIGN 944) 20000.

(** What the system calls return. *)
Record calls := MkCalls {
  c_euid : Z;
  c_socket : Z;
  c_ioctl : Z;                      (* SIOCGIFINDEX *)
  c_ifindex : Z;
  c_promisc : Z;                    (* PACKET_ADD_MEMBERSHIP *)
  c_bind : Z;
  c_ring : Z;                       (* PACKET_RX_RING *)
}.

(** [get_iface_id]. *)
Definition get_iface_id (c : calls) : outcome Z := assert (c_ioctl c =? 0);; Ok (c_ifindex c).
Definition set_rx_promisc (c : calls) : outcome unit := assert (c_promisc c =? 0).

(** [switch_intf_t::setup]: the socket, its address and the ring that the
    receiving thread reads. *)
Definition setup (raw_packets orig_mode : bool) (hdrlen : Z) (c : calls) : outcome (Z * sockaddr_ll * option tpacket_req) :=
  if raw_packets then
    assert (c_euid c =? 0);;
    assert (0 <=? c_socket c);;
    iface_id ← get_iface_id c;
    let addr := setup_sockaddr_ll iface_id in
    set_rx_promisc c;;
    assert (c_bind c =? 0);;
    if orig_mode then Ok (c_socket c, addr, None)
    else
      let treq := ring_req hdrlen in
      assert (c_ring c =? 0);;
      Ok (c_socket c, addr, Some treq)
  else
    assert (0 <=? c_socket c);;
    Fail AssertFailed.

(** [msghdr] as [prepare_msghdr] fills it; [addr] is the address of a socket
    that is not bound to the switch. *)
Record msghdr (I A : Type) := MkMsg { msg_name : option A; msg_namelen : Z; msg_iov : I; msg_iovlen : Z; msg_controllen : Z; msg_flags : Z }.
Arguments MkMsg {I A} _ _ _ _ _ _.
Definition prepare_msghdr {I A} (raw_packets : bool) (addr : A) (addr_bytes : Z) (ivec : I) : msghdr I A :=
  if raw_packets then MkMsg None 0 ivec 1 0 0 else MkMsg (Some addr) addr_bytes ivec 1 0 0.

(** ** The receiving thread *)

(** Where the thread is: in its waiting loop, before it gives the buffer back,
    before it moves on, before it counts. *)
Inductive rx_pc := Polling | Clearing | Advancing | Counting.

(** The ring: a buffer that the kernel has filled ([TP_STATUS_USER]) holds a
    frame, here its number.  [seen] are the frames the thread has taken,
    [accepted] and [dropped] count what the kernel did, ghosts all three. *)
Record ring := MkRing {
  slots : list (option nat);
  k_next : nat;
  rx_ring_idx : nat;
  rx_total : Z;
  rx_at : rx_pc;
  seen : list nat;
  accepted : nat;
  dropped : nat;
}.

(** The next access of the thread. *)
Definition rx_step (r : ring) : outcome ring :=
  let nr := length (slots r) in
  match rx_at r with
  | Polling =>
      s ← aget (slots r) (rx_ring_idx r);
      Ok (MkRing (slots r) (k_next r) (rx_ring_idx r) (rx_total r) (match s with Some _ => Clearing | None => Polling end) (seen r) (accepted r) (dropped r))
  | Clearing =>
      s ← aget (slots r) (rx_ring_idx r);
      l ← aset (slots r) (rx_ring_idx r) None;
      Ok (MkRing l (k_next r) (rx_ring_idx r) (rx_total r) Advancing (seen r ++ match s with Some i => [i] | None => [] end) (accepted r) (dropped r))
  | Advancing =>
      Ok (MkRing (slots r) (k_next r) ((rx_ring_idx r + 1) mod nr) (rx_total r) Counting (seen r) (accepted r) (dropped r))
  | Counting =>
      Ok (MkRing (slots r) (k_next r) (rx_ring_idx r) (u64 (rx_total r + 1)) Polling (seen r) (accepted r) (dropped r))
  end.

(** A frame arrives. *)
Definition frame_arrives (r : ring) : outcome ring :=
  let nr := length (slots r) in
  s ← aget (slots r) (k_next r);
  match s with
  | None =>
      l ← aset (slots r) (k_next r) (Some (accepted r));
      Ok (MkRing l ((k_next r + 1) mod nr) (rx_ring_idx r) (rx_total r) (rx_at r) (seen r) (S (accepted r)) (dropped r))
  | Some _ => Ok (MkRing (slots r) (k_next r) (rx_ring_idx r) (rx_total r) (rx_at r) (seen r) (accepted r) (S (dropped r)))
  end.

Definition ring_step (r r' : ring) : Prop := rx_step r = Ok r' ∨ frame_arrives r = Ok r'.
Definition ring_start (nr : nat) : ring := MkRing (replicate nr None) 0 0 0 Polling [] 0 0.

(** ** Frames are taken in order *)

Lemma mod_window n h i j : (h ≤ i < h + n)%nat → (h ≤ j < h + n)%nat → (i `mod` n = j `mod` n)%nat → i = j.
Proof.
  intros Hi Hj E. pose proof (Nat.div_mod_eq i n). pose proof (Nat.div_mod_eq j n). rewrite E in *. assert (i / n = j / n)%nat; [nia|lia].
Qed.

Lemma mod_succ n i : ((i `mod` n + 1) `mod` n = S i `mod` n)%nat.
Proof. rewrite Nat.Div0.add_mod_idemp_l. f_equal. lia. Qed.

(** The frames between the ones taken and the ones accepted are in the ring, each in
    the buffer of its number. *)
Definition behind (pc : rx_pc) : nat := match pc with Advancing | Counting => 1 | _ => 0 end.
Definition lagging (pc : rx_pc) : nat := match pc with Advancing => 1 | _ => 0 end.

Record ring_ok (nr : nat) (r : ring) : Prop := {
  rg_len : length (slots r) = nr;
  rg_seen : seen r = seq 0 (length (seen r));
  rg_room : (length (seen r) ≤ accepted r ≤ length (seen r) + nr)%nat;
  rg_next : k_next r = (accepted r `mod` nr)%nat;
  rg_slot : ∀ j i, slots r !! j = Some (Some i) ↔ (length (seen r) ≤ i < accepted r)%nat ∧ j = (i `mod` nr)%nat;
  rg_behind : (behind (rx_at r) ≤ length (seen r))%nat;
  rg_idx : rx_ring_idx r = ((length (seen r) - lagging (rx_at r)) `mod` nr)%nat;
  rg_total : rx_total r = u64 (Z.of_nat (length (seen r) - behind (rx_at r)));
  rg_full : rx_at r = Clearing → (length (seen r) < accepted r)%nat;
}.

Section ring.
Context (nr : nat).
Hypothesis Hnr : (0 < nr)%nat.

Lemma ring_start_ok : ring_ok nr (ring_start nr).
Proof.
  split; cbn; try done; try lia.
  - by rewrite length_replicate.
  - by rewrite Nat.Div0.mod_0_l.
  - intros j i. split; [by intros [? _]%lookup_replicate|lia].
  - by rewrite Nat.Div0.mod_0_l.
Qed.

Lemma slot_at r i : ring_ok nr r → ∃ s, slots r !! (i `mod` nr)%nat = Some s.
Proof. intros Hr. apply lookup_lt_is_Some_2. rewrite (rg_len _ _ Hr). apply Nat.mod_upper_bound. lia. Qed.

(** The thread's current buffer is filled exactly if a frame is waiting. *)
Lemma slot_filled r s : ring_ok nr r → slots r !! (length (seen r) `mod` nr)%nat = Some s →
  s = if decide (length (seen r) < accepted r)%nat then Some (length (seen r)) else None.
Proof.
  intros [Hlen Hseen Hroom Hnext Hslot _ _ _ _] Hs. case_decide as H.
  - pose proof (proj2 (Hslot (length (seen r) `mod` nr)%nat (length (seen r))) ltac:(split; [lia|done])) as H'. congruence.
  - destruct s as [i|]; [|done]. apply Hslot in Hs. lia.
Qed.

Lemma frame_arrives_ok r : ring_ok nr r → ∃ r', frame_arrives r = Ok r' ∧ ring_ok nr r'
  ∧ seen r' = seen r ∧ (dropped r' = dropped r ∨ accepted r = (length (seen r) + nr)%nat).
Proof.
  intros Hr. pose proof Hr as [Hlen Hseen Hroom Hnext Hslot Hb Hidx Htot Hfull]. unfold frame_arrives. rewrite Hnext.
  destruct (slot_at r (accepted r) Hr) as [s Hs]. rewrite (aget_some _ _ _ Hs). cbn [mbind outcome_bind]. destruct s as [i|].
  - eexists. split; [done|]. cbn. split_and!; [by split|done|]. right. apply Hslot in Hs as [Hi E].
    destruct (decide (accepted r = length (seen r) + nr)%nat) as [|Hne]; [done|]. pose proof (mod_window nr (length (seen r)) (accepted r) i ltac:(lia) ltac:(lia) E). lia.
  - rewrite aset_lt by (by eapply lookup_lt_Some). cbn [mbind outcome_bind]. eexists. split; [done|]. cbn. split_and!; [|done|by left].
    assert (accepted r < length (seen r) + nr)%nat as Hlt.
    { destruct (decide (accepted r < length (seen r) + nr)%nat) as [|Hge]; [done|]. exfalso. assert (accepted r = length (seen r) + nr)%nat as E by lia.
      assert (slots r !! (accepted r `mod` nr)%nat = Some (Some (length (seen r)))) as H'; [|congruence]. apply Hslot. split; [lia|].
      rewrite E. replace (length (seen r) + nr)%nat with (length (seen r) + 1 * nr)%nat by lia. by rewrite Nat.Div0.mod_add. }
    split; cbn; try done; try lia.
    + by rewrite length_insert.
    + rewrite <-mod_succ. by rewrite Hlen.
    + intros j i. destruct (decide (j = (accepted r `mod` nr)%nat)) as [->|Hne].
      * rewrite list_lookup_insert_eq by (by eapply lookup_lt_Some). split; [intros [= <-]; split; [lia|done]|].
        intros [Hi E]. f_equal. f_equal. apply (mod_window nr (length (seen r))); [lia|lia|done].
      * rewrite list_lookup_insert_ne, Hslot by done. split; [intros [? ?]; split; [lia|done]|]. intros [Hi E]. split; [|done].
        destruct (decide (i = accepted r)) as [->|]; [done|lia].
Qed.

Lemma rx_step_ok r : ring_ok nr r → ∃ r', rx_step r = Ok r' ∧ ring_ok nr r' ∧ accepted r' = accepted r ∧ dropped r' = dropped r.
Proof.
  intros Hr. pose proof Hr as [Hlen Hseen Hroom Hnext Hslot Hb Hidx Htot Hfull]. unfold rx_step. destruct (rx_at r) eqn:Epc; cbn [behind lagging] in *.
  - rewrite Nat.sub_0_r in Hidx. rewrite Hidx. destruct (slot_at r (length (seen r)) Hr) as [s Hs]. rewrite (aget_some _ _ _ Hs). cbn [mbind outcome_bind].
    eexists. split; [done|]. split; [|done]. pose proof (slot_filled r s Hr Hs) as ->. destruct (decide (length (seen r) < accepted r)%nat);
      split; cbn; try done; try lia; by rewrite ?Nat.sub_0_r.
  - rewrite Nat.sub_0_r in Hidx. rewrite Hidx. destruct (slot_at r (length (seen r)) Hr) as [s Hs]. rewrite (aget_some _ _ _ Hs). cbn [mbind outcome_bind].
    rewrite aset_lt by (by eapply lookup_lt_Some). cbn [mbind outcome_bind]. pose proof (slot_filled r s Hr Hs) as ->. specialize (Hfull eq_refl). rewrite decide_True by done.
    eexists. split; [done|]. split; [|done]. split; cbn; rewrite ?length_insert, ?length_app; cbn [length]; try done; try lia.
    + rewrite Nat.add_1_r, seq_S. by rewrite <-Hseen.
    + intros j i. destruct (decide (j = (length (seen r) `mod` nr)%nat)) as [->|Hne].
      * rewrite list_lookup_insert_eq by (by eapply lookup_lt_Some). split; [done|]. intros [Hi E]. exfalso.
        pose proof (mod_window nr (length (seen r)) (length (seen r)) i ltac:(lia) ltac:(lia) E). lia.
      * rewrite list_lookup_insert_ne, Hslot by done. split; [|intros [? ?]; split; [lia|done]]. intros [Hi E]. split; [|done].
        destruct (decide (i = length (seen r))) as [->|]; [done|lia].
    + f_equal. lia.
    + rewrite Htot. f_equal. lia.
  - eexists. split; [done|]. split; [|done]. split; cbn; try done; try lia. rewrite Hlen, Hidx, mod_succ. f_equal. lia.
  - eexists. split; [done|]. split; [|done]. split; cbn; try done; try lia. rewrite Htot. unfold wrap. rewrite Zplus_mod_idemp_l. f_equal. lia.
Qed.
End ring.

Lemma ring_reachable_ok nr r : (0 < nr)%nat → rtc ring_step (ring_start nr) r → ring_ok nr r.
Proof.
  intros Hnr. cut (∀ r0, ring_ok nr r0 → rtc ring_step r0 r → ring_ok nr r); [intros H; by apply H, ring_start_ok|].
  intros r0 H0 Hr. induction Hr as [|r1 r2 r3 Hs _ IH]; [done|]. apply IH. destruct Hs as [Hs|Hs].
  - destruct (rx_step_ok nr Hnr r1 H0) as (r' & E & Hok & _). congruence.
  - destruct (frame_arrives_ok nr Hnr r1 H0) as (r' & E & Hok & _). congruence.
Qed.

(** [n] accesses of the thread. *)
Fixpoint rx_steps (n : nat) (r : ring) : outcome ring :=
  match n with O => Ok r | S n' => r' ← rx_step r; rx_steps n' r' end.

(** C29: the thread that empties the receive ring takes every frame the kernel
    accepts exactly once and in order, however its accesses and the kernel's
    interleave: the frames taken are the first ones, [rx_total] is their number
    whenever the thread waits, the two never fault on an index, a waiting frame
    is taken and counted by the thread's next four accesses, and a frame is dropped only
    when all buffers hold frames that were not taken. *)
Theorem rx_ring_in_order nr r :
  (0 < nr)%nat → rtc ring_step (ring_start nr) r →
  let n := length (seen r) in
  seen r = seq 0 n ∧ (n ≤ accepted r ≤ n + nr)%nat
  ∧ (rx_at r = Polling → rx_total r = u64 (Z.of_nat n)
       ∧ ((n < accepted r)%nat → ∃ r', rx_steps 4 r = Ok r' ∧ rx_at r' = Polling ∧ seen r' = seen r ++ [n] ∧ rx_total r' = u64 (Z.of_nat (S n))))
  ∧ (∃ r', rx_step r = Ok r')
  ∧ ∃ r', frame_arrives r = Ok r' ∧ (dropped r' ≠ dropped r → accepted r = (n + nr)%nat).
Proof.
  intros Hnr Hreach n. pose proof (ring_reachable_ok nr r Hnr Hreach) as Hr. split_and!.
  - apply Hr.
  - apply Hr.
  - apply Hr.
  - intros Hp. split; [rewrite (rg_total _ _ Hr), Hp; cbn; by rewrite Nat.sub_0_r|]. intros Hlt.
    destruct (slot_at nr Hnr r n Hr) as [s Hs]. pose proof (slot_filled nr Hnr r s Hr Hs) as ->. fold n in Hs. rewrite decide_True in Hs by done.
    assert (rx_ring_idx r = (n `mod` nr)%nat) as Hidx by (rewrite (rg_idx _ _ Hr), Hp; cbn; by rewrite Nat.sub_0_r).
    rewrite <-Hidx in Hs. pose proof (lookup_lt_Some _ _ _ Hs) as Hil.
    assert (rx_step r = Ok (MkRing (slots r) (k_next r) (rx_ring_idx r) (rx_total r) Clearing (seen r) (accepted r) (dropped r))) as E1
      by (unfold rx_step; by rewrite Hp, (aget_some _ _ _ Hs)).
    assert (rx_step (MkRing (slots r) (k_next r) (rx_ring_idx r) (rx_total r) Clearing (seen r) (accepted r) (dropped r))
      = Ok (MkRing (<[rx_ring_idx r := None]> (slots r)) (k_next r) (rx_ring_idx r) (rx_total r) Advancing (seen r ++ [n]) (accepted r) (dropped r))) as E2
      by (unfold rx_step; cbn [rx_at slots rx_ring_idx]; by rewrite (aget_some _ _ _ Hs), aset_lt by done).
    eexists. split; [|split; [|split]].
    + cbn [rx_steps]. rewrite E1. cbn [mbind outcome_bind]. rewrite E2. cbn [mbind outcome_bind]. reflexivity.
    + reflexivity.
    + reflexivity.
    + cbn. rewrite (rg_total _ _ Hr), Hp. cbn [behind]. rewrite Nat.sub_0_r. unfold wrap. rewrite Zplus_mod_idemp_l. f_equal. fold n. lia.
  - destruct (rx_step_ok nr Hnr r Hr) as (r' & ? & _). by exists r'.
  - destruct (frame_arrives_ok nr Hnr r Hr) as (r' & H1 & _ & _ & Hd). exists r'. split; [done|]. intros Hne. by destruct Hd.
Qed.

(** Two frames arrive in a ring of two buffers, the first is taken. *)
Lemma rx_ring_in_order_witness :
  ∃ r, rtc ring_step (ring_start 2) r ∧ seen r = [0%nat] ∧ accepted r = 2%nat ∧ ∃ r', rx_step r = Ok r'.
Proof.
  pose (r := MkRing [None; Some 1%nat] 0 0 0 Advancing [0%nat] 2 0). assert (rtc ring_step (ring_start 2) r) as H.
  { eapply rtc_l; [right; reflexivity|]. eapply rtc_l; [right; reflexivity|]. eapply rtc_l; [left; reflexivity|]. eapply rtc_l; [left; reflexivity|]. apply rtc_refl. }
  exists r. split; [exact H|]. destruct (rx_ring_in_order 2 r) as (_ & _ & _ & Hs & _); [lia|exact H|]. split; [reflexivity|]. split; [reflexivity|exact Hs].
Defined.

(** ** The ring that is asked for *)

(** With the header of Linux the frames tile the blocks, so that the thread
    finds frame [i] at [i] times the frame size. *)
Lemma ring_tiled :
  let q := ring_req 52 in
  tp_block_size q mod tp_frame_size q = 0 ∧ tp_frame_nr q = tp_block_nr q * (tp_block_size q / tp_frame_size q)
  ∧ ∀ i, 0 ≤ i < tp_frame_nr q → tp_frame_size q * i + tp_frame_size q ≤ tp_block_nr q * tp_block_size q.
Proof. cbn zeta. change (ring_req 52) with (MkReq 4096 5000 1024 20000). cbn. split; [done|]. split; [done|]. lia. Qed.

(** [setup] succeeds for root when every call does, and never for a build
    without [RAW_PACKETS]. *)
Lemma setup_ok raw orig hdrlen c : (∃ x, setup raw orig hdrlen c = Ok x) ↔
  raw = true ∧ c_euid c = 0 ∧ 0 ≤ c_socket c ∧ c_ioctl c = 0 ∧ c_promisc c = 0 ∧ c_bind c = 0 ∧ (orig = false → c_ring c = 0).
Proof.
  unfold setup, get_iface_id, set_rx_promisc, assert. destruct raw; [|destruct (0 <=? c_socket c); cbn; split; [by intros [? ?]|naive_solver|by intros [? ?]|naive_solver]].
  destruct (Z.eqb_spec (c_euid c) 0), (Z.leb_spec 0 (c_socket c)), (Z.eqb_spec (c_ioctl c) 0), (Z.eqb_spec (c_promisc c) 0), (Z.eqb_spec (c_bind c) 0), orig,
    (Z.eqb_spec (c_ring c) 0); cbn; split; try (by intros [? ?]); try (intros; by eexists); try (intros; split_and!; congruence || lia); intros; exfalso; destruct_and!; try lia; auto.
Qed.
