(* ===== verification/ControlPlane.v ===== *)
(** * The block scheduler on the switch's control plane

    [switch_src/01_control_plane/handle.cpp] gives the blocks of the switch's
    register memory to tenants: [handle_alloc] queues a tenant on a block,
    [handle_free] hands the block to the next one.  [sched.cpp] serves the
    requests of the nodes: every node of a tenant asks for every batch, the
    first request frees and allocates, the others get the cached answer, and
    the nodes are told when the tenant's turn has come.  The client's side is
    [Database::update_alloc] and [wait_sched_ready] ([ee/sched_intf.cpp]). *)
From stdpp Require Import base tactics list numbers gmap sorting.
From Stdlib Require Import ZArith Lia.
From S2P Require Import Prelude Types Layout.

#[local] Open Scope Z_scope.

(** ** handle.cpp *)

Definition N_UNIFIED_SLOTS : Z := 2048.
Definition SLOTS_PER_BLOCK : Z := 64.
Definition N_BLOCKS : nat := Z.to_nat (N_UNIFIED_SLOTS / SLOTS_PER_BLOCK).
Definition N_MAX_TENANTS : nat := 150.
Definition NO_TENANT : Z := 0.
Definition INIT_TS : Z := 0.

Record blk_meta_t := MkBlk { blk_id : Z; est_finish_ts : Z }.
#[global] Instance blk_meta_t_eq_dec : EqDecision blk_meta_t.
Proof. solve_decision. Defined.

(** [blk_meta_cmp_t]. *)
Definition blk_lt (lhs rhs : blk_meta_t) : bool :=
  if est_finish_ts lhs =? est_finish_ts rhs then blk_id lhs <? blk_id rhs
  else est_finish_ts lhs <? est_finish_ts rhs.

Record tenant_reqs_t := MkReqs { started : bool; n_waiting : Z }.

(** The static variables: [std::set] in its order, a FIFO per block, the
    tenants' records, the tenants to notify. *)
Record plane := MkPlane {
  blocks_sorted : list blk_meta_t;
  block_queue : list (list Z);
  tenant_req : list tenant_reqs_t;
  to_notify : gset Z;
}.

(** [std::set::insert]. *)
Fixpoint set_insert (x : blk_meta_t) (l : list blk_meta_t) : list blk_meta_t :=
  match l with
  | [] => [x]
  | y :: l' => if blk_lt x y then x :: y :: l' else if blk_lt y x then y :: set_insert x l' else l
  end.

(** [std::set::upper_bound], as a position. *)
Fixpoint upper_bound (query : blk_meta_t) (l : list blk_meta_t) : nat :=
  match l with
  | [] => O
  | y :: l' => if blk_lt query y then O else S (upper_bound query l')
  end.

Definition set_erase (i : nat) (l : list blk_meta_t) : list blk_meta_t := take i l ++ drop (S i) l.

(** The state before [main], and [handle_init]. *)
Definition plane_static : plane :=
  MkPlane [] (replicate N_BLOCKS []) (replicate N_MAX_TENANTS (MkReqs false 0)) ∅.

Definition handle_init (p : plane) : plane :=
  MkPlane (foldl (λ l i, set_insert (MkBlk (Z.of_nat i) INIT_TS) l) (blocks_sorted p) (seq 0 N_BLOCKS))
          (block_queue p) (tenant_req p) (to_notify p).

(** [handle_alloc] at time [now] (of [get_real_ts]). *)
Definition handle_alloc (now tenant_id start_delay duration : Z) (p : plane) : outcome (Z * plane) :=
  assert (negb (tenant_id =? NO_TENANT));;
  assert (bool_decide (length (blocks_sorted p) = N_BLOCKS));;
  r0 ← zget (tenant_req p) tenant_id;
  reqs ← zset (tenant_req p) tenant_id (MkReqs true (n_waiting r0));
  let my_start_ts := u64 (now + start_delay) in
  let my_finish_ts := u64 (now + start_delay + duration) in
  let ub := upper_bound (MkBlk 0 my_start_ts) (blocks_sorted p) in
  let it := if bool_decide (ub ≠ 0%nat) then (ub - 1)%nat else ub in
  found ← aget (blocks_sorted p) it;
  let rest := set_erase it (blocks_sorted p) in
  let late := if my_start_ts <=? est_finish_ts found then u64 (est_finish_ts found - my_start_ts) else 0 in
  let found' := MkBlk (blk_id found) (u64 (my_finish_ts + late)) in
  r ← zget reqs tenant_id;
  assert (n_waiting r =? 0);;
  q ← zget (block_queue p) (blk_id found');
  '(reqs', notify) ←
    match q with
    | [] => Ok (reqs, {[tenant_id]} ∪ to_notify p)
    | _ :: _ => l ← zset reqs tenant_id (MkReqs (started r) 1); Ok (l, to_notify p)
    end;
  queues ← zset (block_queue p) (blk_id found') (q ++ [tenant_id]);
  Ok (blk_id found', MkPlane (set_insert found' rest) queues reqs' notify).

(** [handle_free]; [front] of an empty queue is undefined behaviour. *)
Definition handle_free (tenant_id block : Z) (p : plane) : outcome plane :=
  assert (negb (tenant_id =? NO_TENANT));;
  q ← zget (block_queue p) block;
  match q with
  | [] => Fail OutOfBounds
  | front :: q' =>
      assert (front =? tenant_id);;
      queues ← zset (block_queue p) block q';
      match q' with
      | [] => Ok (MkPlane (blocks_sorted p) queues (tenant_req p) (to_notify p))
      | next :: _ =>
          r ← zget (tenant_req p) next;
          let n := u64 (n_waiting r - 1) in
          reqs ← zset (tenant_req p) next (MkReqs (started r) n);
          Ok (MkPlane (blocks_sorted p) queues reqs
                      (if n =? 0 then {[next]} ∪ to_notify p else to_notify p))
      end
  end.

(** ** sched.cpp *)

Record alloc_req_t := MkReq {
  start_delay_ns : Z; duration_ns : Z; blk_to_free : Z; req_tenant : Z; tenant_num_nodes : Z; req_batch : Z }.

Record alloc_resp_t := MkResp { resp_batch : Z; alloced_blk_id : Z }.

Record tenant_info_t := MkInfo {
  cached : alloc_resp_t;
  n_cached_uses : Z;
  expected_n_fds : Z;
  sock_fds : gset Z;
}.

(** A value-initialised entry of the map. *)
Definition info_zero : tenant_info_t := MkInfo (MkResp 0 0) 0 0 ∅.

Record server := MkServer { srv_plane : plane; tenant_info : gmap Z tenant_info_t }.

(** What the server sends on a socket. *)
Inductive srv_msg := Resp (fd : Z) (r : alloc_resp_t) | Ready (fd : Z).

(** [tenant_info[t]]. *)
Definition info_of (m : gmap Z tenant_info_t) (t : Z) : tenant_info_t := default info_zero (m !! t).

Definition all_connected (i : tenant_info_t) : bool :=
  expected_n_fds i =? Z.of_nat (size (sock_fds i)).

(** One iteration of the loop over the ready tenants. *)
Definition notify_one (st : gset Z * gmap Z tenant_info_t * list srv_msg) (t : Z)
  : gset Z * gmap Z tenant_info_t * list srv_msg :=
  let '(ready, infos, out) := st in
  let i := info_of infos t in
  let infos' := <[t := i]> infos in
  if all_connected i && (n_cached_uses i =? expected_n_fds i)
  then (ready ∖ {[t]}, infos', out ++ (Ready <$> elements (sock_fds i)))
  else (ready, infos', out).

(** The lookup of the tenant's entry (the first test and insertion only make
    sure that it exists), and the answer of a new batch. *)
Definition answer (now ready_fd : Z) (req : alloc_req_t) (s : server) : outcome (tenant_info_t * plane) :=
  let t := req_tenant req in
  let i0 := info_of (tenant_info s) t in
  let i1 := MkInfo (cached i0) (n_cached_uses i0) (tenant_num_nodes req) ({[ready_fd]} ∪ sock_fds i0) in
  if negb (resp_batch (cached i1) =? req_batch req) then
    p0 ← (if negb (blk_to_free req =? NO_BLOCK) then handle_free t (blk_to_free req) (srv_plane s) else Ok (srv_plane s));
    '(blk, p1) ← handle_alloc now t (start_delay_ns req) (duration_ns req) p0;
    Ok (MkInfo (MkResp (req_batch req) (u32 blk)) 0 (expected_n_fds i1) (sock_fds i1), p1)
  else Ok (i1, srv_plane s).

(** The body of the server's loop for a request on [ready_fd]. *)
Definition serve (now ready_fd : Z) (req : alloc_req_t) (s : server) : outcome (list srv_msg * server) :=
  let t := req_tenant req in
  '(i2, p) ← answer now ready_fd req s;
  let i3 := MkInfo (cached i2) (u64 (n_cached_uses i2 + 1)) (expected_n_fds i2) (sock_fds i2) in
  let infos := <[t := i3]> (tenant_info s) in
  let out := [Resp ready_fd (cached i3)] in
  if all_connected i3 then
    let '(ready, infos', out') := foldl notify_one (to_notify p, infos, out) (elements (to_notify p)) in
    Ok (out', MkServer (MkPlane (blocks_sorted p) (block_queue p) (tenant_req p) ready) infos')
  else Ok (out, MkServer p infos).

(** ** The client: ee/sched_intf.cpp *)

(** The request of [update_alloc]. *)
Definition alloc_request (tenant num_nodes batch_num : Z) (L : DeclusteredLayout) : alloc_req_t :=
  MkReq COLD_BATCH_DUR_EST_NS HOT_BATCH_DUR_EST_NS (u32 (block_num L)) (u32 (1 + tenant)) (u32 num_nodes) (u32 (1 + batch_num)).

(** [update_alloc] once the answer [fill] has come. *)
Definition update_alloc (tenant num_nodes batch_num : Z) (fill : alloc_resp_t) (L : DeclusteredLayout)
  : outcome DeclusteredLayout :=
  assert (resp_batch fill =? req_batch (alloc_request tenant num_nodes batch_num L));;
  Ok (set_block_num (alloced_blk_id fill) L).

(** ** The set of blocks *)

Notation blk_order := (λ x y, blk_lt x y = true).

Lemma blk_lt_spec x y : blk_lt x y = true ↔
  est_finish_ts x < est_finish_ts y ∨ est_finish_ts x = est_finish_ts y ∧ blk_id x < blk_id y.
Proof. unfold blk_lt. destruct (Z.eqb_spec (est_finish_ts x) (est_finish_ts y)); rewrite Z.ltb_lt; lia. Qed.

Lemma blk_lt_false x y : blk_lt x y = false ↔
  est_finish_ts y < est_finish_ts x ∨ est_finish_ts x = est_finish_ts y ∧ blk_id y ≤ blk_id x.
Proof. unfold blk_lt. destruct (Z.eqb_spec (est_finish_ts x) (est_finish_ts y)); rewrite Z.ltb_ge; lia. Qed.

#[local] Instance blk_trans : Transitive blk_order.
Proof. intros x y z. rewrite !blk_lt_spec. lia. Qed.

Lemma set_insert_perm x l : blk_id x ∉ blk_id <$> l → set_insert x l ≡ₚ x :: l.
Proof.
  induction l as [|y l IH]; intros Hx; simpl; [done|]. destruct (blk_lt x y) eqn:E1; [done|].
  destruct (blk_lt y x) eqn:E2.
  - rewrite IH; [apply Permutation_swap|]. intros Hin. apply Hx. by right.
  - rewrite blk_lt_false in E1, E2. destruct Hx. apply elem_of_cons. left. lia.
Qed.

Lemma set_insert_sorted x l : StronglySorted blk_order l → StronglySorted blk_order (set_insert x l).
Proof.
  induction l as [|y l IH]; intros Hs; simpl; [by repeat constructor|].
  apply StronglySorted_inv in Hs as [Hs Hy]. destruct (blk_lt x y) eqn:E1.
  - constructor; [by constructor|]. constructor; [done|]. eapply Forall_impl; [exact Hy|]. simpl. intros z. by apply (blk_trans x y z).
  - destruct (blk_lt y x) eqn:E2; [|by constructor]. constructor; [by apply IH|].
    assert (∀ l', Forall (λ z, blk_lt y z = true) l' → Forall (λ z, blk_lt y z = true) (set_insert x l')) as H; [|by apply H].
    intros l'. induction 1 as [|z l' Hz Hl IHl]; simpl; [by repeat constructor|]. repeat case_match; by repeat constructor.
Qed.

Lemma set_erase_perm i l x : l !! i = Some x → l ≡ₚ x :: set_erase i l.
Proof.
  intros H. unfold set_erase. rewrite <-(take_drop_middle l i x H) at 1. by rewrite Permutation_middle.
Qed.

Lemma set_erase_sorted i l : StronglySorted blk_order l → StronglySorted blk_order (set_erase i l).
Proof.
  unfold set_erase. revert i. induction l as [|y l IH]; intros i Hs; [by rewrite take_nil, drop_nil|].
  apply StronglySorted_inv in Hs as [Hs Hy]. destruct i as [|i]; simpl; [by rewrite drop_0|].
  constructor; [by apply IH|]. apply Forall_app. split; [by apply Forall_take|by apply Forall_drop].
Qed.

(** What [upper_bound] gives on a sorted set: the elements before it are not
    greater than the query, those from it on are. *)
Lemma upper_bound_spec query l : StronglySorted blk_order l →
  (upper_bound query l ≤ length l)%nat
  ∧ ∀ i x, l !! i = Some x → (blk_lt query x = true ↔ (upper_bound query l ≤ i)%nat).
Proof.
  induction 1 as [|y l Hs [Hle IH] Hy]; simpl; [by split|]. destruct (blk_lt query y) eqn:E.
  - split; [lia|]. intros [|i] x Hx; simpl in Hx; simplify_eq; [split; [lia|done]|].
    split; [lia|]. intros _. apply (blk_trans query y x); [done|]. rewrite Forall_lookup in Hy. by eapply Hy.
  - split; [lia|]. intros [|i] x Hx; simpl in Hx; simplify_eq; [rewrite E; split; [done|lia]|].
    rewrite (IH i x Hx). lia.
Qed.

(** ** The invariant of the scheduler *)

(** The tenant's slot of [tenant_req]. *)
Definition req_of (p : plane) (t : Z) : option tenant_reqs_t := tenant_req p !! Z.to_nat t.

Definition queued (p : plane) (t : Z) : Prop := t ∈ concat (block_queue p).

(** The tenant whose turn it is on block [b]. *)
Definition holds (p : plane) (t : Z) (b : nat) : Prop := ∃ q, block_queue p !! b = Some (t :: q).

Definition tenant_ok (t : Z) : Prop := 0 < t < Z.of_nat N_MAX_TENANTS.

Record plane_ok (p : plane) : Prop := {
  po_sorted : StronglySorted blk_order (blocks_sorted p);
  po_blocks : blk_id <$> blocks_sorted p ≡ₚ Z.of_nat <$> seq 0 N_BLOCKS;
  po_queues : length (block_queue p) = N_BLOCKS;
  po_reqs : length (tenant_req p) = N_MAX_TENANTS;
  po_once : NoDup (concat (block_queue p));
  po_range : ∀ t, queued p t → tenant_ok t;
  po_wait : ∀ b q i t, block_queue p !! b = Some q → q !! i = Some t →
    n_waiting <$> req_of p t = Some (if decide (i = 0%nat) then 0 else 1);
  po_idle : ∀ t, tenant_ok t → ¬ queued p t → n_waiting <$> req_of p t = Some 0;
  po_notify : ∀ t, t ∈ to_notify p → ∃ b, holds p t b;
}.

Lemma init_ok : plane_ok (handle_init plane_static).
Proof.
  assert (∀ b q, replicate N_BLOCKS ([] : list Z) !! b = Some q → q = []) as Hr by (by intros b q [-> _]%lookup_replicate).
  split.
  - assert (∀ l l', StronglySorted blk_order l' → StronglySorted blk_order (foldl (λ l i, set_insert (MkBlk (Z.of_nat i) INIT_TS) l) l' l)) as H.
    { induction l as [|i l IH]; intros l' Hl; simpl; [done|]. apply IH, set_insert_sorted, Hl. }
    apply H. constructor.
  - by apply (bool_decide_unpack _); vm_compute.
  - reflexivity.
  - reflexivity.
  - by apply (bool_decide_unpack _); vm_compute.
  - intros t H. vm_compute in H. by apply not_elem_of_nil in H.
  - intros b q i t Hb Hq. apply Hr in Hb as ->. done.
  - intros t Ht _. unfold req_of, tenant_ok in *. cbn [handle_init plane_static tenant_req].
    rewrite lookup_replicate_2 by lia. done.
  - intros t H. by apply not_elem_of_empty in H.
Qed.

(** A queue of the list of queues replaced. *)
Lemma concat_replace {A} (l : list (list A)) b q q' :
  l !! b = Some q → concat (<[b := q']> l) ++ q ≡ₚ concat l ++ q'.
Proof.
  intros H. rewrite <-(take_drop_middle l b q H) at 2. rewrite insert_take_drop by (by eapply lookup_lt_Some).
  rewrite !concat_app. simpl. solve_Permutation.
Qed.

Lemma concat_push {A} (l : list (list A)) b q x :
  l !! b = Some q → concat (<[b := q ++ [x]]> l) ≡ₚ concat l ++ [x].
Proof.
  intros Hb. pose proof (concat_replace _ _ _ (q ++ [x]) Hb) as Hc. rewrite app_assoc in Hc.
  apply (Permutation_app_inv_r q). rewrite Hc. solve_Permutation.
Qed.

Lemma queued_lookup p t : queued p t ↔ ∃ b q i, block_queue p !! b = Some q ∧ q !! i = Some t.
Proof.
  unfold queued. rewrite list_elem_of_In, in_concat. split.
  - intros (q & Hq & Ht). apply list_elem_of_In, list_elem_of_lookup in Hq as [b Hb].
    apply list_elem_of_In, list_elem_of_lookup in Ht as [i Hi]. by exists b, q, i.
  - intros (b & q & i & Hb & Hi). exists q. split; apply list_elem_of_In; by eapply list_elem_of_lookup_2.
Qed.

Lemma zget_ok {A} (l : list A) i x : 0 ≤ i → l !! Z.to_nat i = Some x → zget l i = Ok x.
Proof.
  intros Hi Hx. unfold zget. pose proof (lookup_lt_Some _ _ _ Hx). rewrite decide_True by lia. by apply aget_ok.
Qed.

Lemma zset_ok {A} (l : list A) i (y : A) : 0 ≤ i < Z.of_nat (length l) → zset l i y = Ok (<[Z.to_nat i := y]> l).
Proof. intros Hi. unfold zset. rewrite decide_True by done. apply aset_lt. lia. Qed.

(** The block that a request starting at [s] should get: among those expected
    to be free before [s] one that is free last, and otherwise the one
    expected to be free first. *)
Definition best_fit (s : Z) (l : list blk_meta_t) (x : blk_meta_t) : Prop :=
  x ∈ l
  ∧ (est_finish_ts x ≤ s → ∀ y, y ∈ l → est_finish_ts y < s → est_finish_ts y ≤ est_finish_ts x)
  ∧ (s < est_finish_ts x → ∀ y, y ∈ l → est_finish_ts x ≤ est_finish_ts y).

Lemma pick_best_fit s l : StronglySorted blk_order l → l ≠ [] → Forall (λ x, 0 ≤ blk_id x) l →
  let ub := upper_bound (MkBlk 0 s) l in
  ∃ x, l !! (if bool_decide (ub ≠ 0%nat) then (ub - 1)%nat else ub) = Some x ∧ best_fit s l x.
Proof.
  intros Hs Hne Hpos ub. destruct (upper_bound_spec (MkBlk 0 s) l Hs) as [Hle Hub]. fold ub in Hle, Hub.
  assert (0 < length l)%nat by (destruct l; [done|simpl; lia]).
  set (i := if bool_decide (ub ≠ 0%nat) then (ub - 1)%nat else ub).
  assert (i < length l)%nat as Hi by (unfold i; case_bool_decide; lia).
  destruct (lookup_lt_is_Some_2 l i Hi) as [x Hx]. exists x. split; [done|].
  assert (∀ j y, l !! j = Some y → (i < j)%nat → est_finish_ts x ≤ est_finish_ts y) as Hafter.
  { intros j y Hy Hij. pose proof (StronglySorted_lookup _ _ _ _ _ _ Hs Hx Hy Hij) as E. apply blk_lt_spec in E. lia. }
  assert (∀ j y, l !! j = Some y → (j < i)%nat → est_finish_ts y ≤ est_finish_ts x) as Hbefore.
  { intros j y Hy Hij. pose proof (StronglySorted_lookup _ _ _ _ _ _ Hs Hy Hx Hij) as E. apply blk_lt_spec in E. lia. }
  split_and!; [by eapply list_elem_of_lookup_2| |].
  - intros Hxs y [j Hy]%list_elem_of_lookup Hlt. destruct (decide (i < j)%nat) as [Hij|Hij].
    + assert (blk_lt (MkBlk 0 s) y = true) as Hq by (apply (Hub j y Hy); unfold i in Hij; case_bool_decide; lia).
      apply blk_lt_spec in Hq. simpl in Hq. lia.
    + destruct (decide (j = i)) as [->|]; [simplify_eq; lia|]. apply (Hbefore j); [done|lia].
  - intros Hxs y [j Hy]%list_elem_of_lookup. destruct (decide (i < j)%nat); [by eapply Hafter|].
    destruct (decide (j = i)) as [->|]; [simplify_eq; lia|]. exfalso.
    assert (blk_lt (MkBlk 0 s) x = true) as Hq by (apply blk_lt_spec; simpl; lia). apply (Hub i x Hx) in Hq.
    unfold i in *. case_bool_decide; lia.
Qed.

(** A tenant's record as a function of the tenant, after an update. *)
Lemma req_insert l t r t' : 0 ≤ t < Z.of_nat (length l) → 0 ≤ t' →
  <[Z.to_nat t := r]> l !! Z.to_nat t' = if decide (t = t') then Some r else l !! Z.to_nat t' :> option tenant_reqs_t.
Proof.
  intros Ht Ht'. case_decide as E.
  - subst. apply list_lookup_insert_eq. lia.
  - apply list_lookup_insert_ne. intros F. apply Z2Nat.inj in F; lia.
Qed.

(** A tenant that is not queued joins a queue at its end. *)
Lemma enqueue_ok p b q t bs :
  plane_ok p → tenant_ok t → ¬ queued p t → block_queue p !! b = Some q →
  StronglySorted blk_order bs → blk_id <$> bs ≡ₚ blk_id <$> blocks_sorted p →
  plane_ok (MkPlane bs (<[b := q ++ [t]]> (block_queue p))
    (<[Z.to_nat t := MkReqs true (match q with [] => 0 | _ => 1 end)]> (tenant_req p))
    (match q with [] => {[t]} ∪ to_notify p | _ => to_notify p end)).
Proof.
  intros [Hsort Hblk Hql Hrl Honce Hrange Hwait Hidle Hnot] Ht Hnq Hb Hbs Hperm. unfold tenant_ok in Ht.
  pose proof (concat_push _ _ _ t Hb) as Hcc.
  assert (b < length (block_queue p))%nat as Hbl by (by eapply lookup_lt_Some).
  split; cbn [blocks_sorted block_queue tenant_req to_notify]; rewrite ?length_insert; try done.
  - by rewrite Hperm.
  - rewrite Hcc. apply NoDup_app. split_and!; [done| |apply NoDup_singleton].
    intros x Hx ->%list_elem_of_singleton. by apply Hnq.
  - intros t' Hq. unfold queued in Hq. cbn [block_queue] in Hq. rewrite Hcc in Hq.
    apply elem_of_app in Hq as [Hq| ->%list_elem_of_singleton]; [by apply Hrange|done].
  - intros b' q' i t' Hb' Hi. unfold req_of. cbn [tenant_req].
    assert (queued p t' ∧ t' ≠ t ∨ t' = t ∧ b' = b ∧ i = length q) as [[Hq' Hne]|(-> & -> & ->)].
    { destruct (decide (b' = b)) as [->|Hn].
      - rewrite list_lookup_insert_eq in Hb' by done. simplify_eq. apply lookup_app_Some in Hi as [Hi|[Hle Hi]].
        + left. assert (queued p t') by (apply queued_lookup; eauto). split; [done|]. by intros ->.
        + right. apply list_lookup_singleton_Some in Hi as [? <-]. split_and!; [done..|lia].
      - rewrite list_lookup_insert_ne in Hb' by done. left. assert (queued p t') by (apply queued_lookup; eauto).
        split; [done|]. by intros ->. }
    + pose proof (Hrange t' Hq') as Ht'. unfold tenant_ok in Ht'. rewrite req_insert, decide_False by (done || lia).
      destruct (decide (b' = b)) as [->|Hn].
      * rewrite list_lookup_insert_eq in Hb' by done. simplify_eq. apply lookup_app_Some in Hi as [Hi|[Hle Hi]]; [by eapply Hwait|].
        apply list_lookup_singleton_Some in Hi as [_ <-]. done.
      * rewrite list_lookup_insert_ne in Hb' by done. by eapply Hwait.
    + rewrite req_insert, decide_True by (done || lia). simpl. destruct q; [done|]. rewrite decide_False by done. done.
  - intros t' Ht' Hn. unfold queued in Hn. cbn [block_queue] in Hn. rewrite Hcc in Hn. apply not_elem_of_app in Hn as [Hn1 Hn2].
    unfold req_of, tenant_ok in *. cbn [tenant_req]. rewrite req_insert by lia.
    rewrite decide_False; [by apply Hidle|]. intros ->. apply Hn2. by apply list_elem_of_singleton.
  - assert (∀ t', t' ∈ to_notify p → ∃ b', holds (MkPlane bs (<[b := q ++ [t]]> (block_queue p)) [] ∅) t' b') as Hold.
    { intros t' (b' & q' & Hq')%Hnot. exists b'. unfold holds. cbn [block_queue]. destruct (decide (b' = b)) as [->|Hn].
      - simplify_eq. rewrite list_lookup_insert_eq by done. by eexists.
      - rewrite list_lookup_insert_ne by done. by exists q'. }
    intros t' Hin. destruct q as [|h q]; [|by apply Hold]. apply elem_of_union in Hin as [->%elem_of_singleton|Hin]; [|by apply Hold].
    exists b. unfold holds. cbn [block_queue app]. rewrite list_lookup_insert_eq by done. by eexists.
Qed.

Lemma alloc_run now t d dur p : plane_ok p → tenant_ok t → ¬ queued p t →
  ∃ x q p', best_fit (u64 (now + d)) (blocks_sorted p) x
    ∧ 0 ≤ blk_id x < Z.of_nat N_BLOCKS ∧ block_queue p !! Z.to_nat (blk_id x) = Some q
    ∧ handle_alloc now t d dur p = Ok (blk_id x, p') ∧ plane_ok p'
    ∧ block_queue p' = <[Z.to_nat (blk_id x) := q ++ [t]]> (block_queue p)
    ∧ to_notify p' = (match q with [] => {[t]} ∪ to_notify p | _ => to_notify p end).
Proof.
  intros Hp Ht Hnq. pose proof Hp as [Hsort Hblk Hql Hrl Honce Hrange Hwait Hidle Hnot].
  assert (length (blocks_sorted p) = N_BLOCKS) as Hlen by (apply Permutation_length in Hblk; by rewrite !length_fmap, length_seq in Hblk).
  assert (∀ x, x ∈ blocks_sorted p → 0 ≤ blk_id x < Z.of_nat N_BLOCKS) as Hids.
  { intros x Hx. apply (list_elem_of_fmap_2 blk_id) in Hx. rewrite Hblk in Hx.
    apply list_elem_of_fmap in Hx as (i & -> & Hi). apply elem_of_seq in Hi. lia. }
  destruct (pick_best_fit (u64 (now + d)) (blocks_sorted p) Hsort) as (x & Hx & Hbest).
  { intros E. by rewrite E in Hlen. }
  { apply Forall_forall. intros y Hy. apply (Hids y Hy). }
  pose proof (Hids x (proj1 Hbest)) as Hxid.
  destruct (lookup_lt_is_Some_2 (block_queue p) (Z.to_nat (blk_id x))) as [q Hq]; [lia|].
  pose proof (Hidle t Ht Hnq) as Hw. unfold tenant_ok in Ht. apply fmap_Some in Hw as (r & Hr & Hr0). unfold req_of in Hr.
  unfold handle_alloc. rewrite (proj2 (Z.eqb_neq t NO_TENANT)) by (unfold NO_TENANT; lia). cbn [negb assert mbind outcome_bind].
  rewrite (bool_decide_eq_true_2 _ Hlen). cbn [assert mbind outcome_bind].
  rewrite (zget_ok _ t _ ltac:(lia) Hr). cbn [mbind outcome_bind]. rewrite zset_ok by lia. cbn [mbind outcome_bind].
  unfold aget at 1. rewrite Hx. cbn [mbind outcome_bind].
  rewrite (zget_ok _ t (MkReqs true (n_waiting r))) by (lia || (rewrite req_insert by lia; by rewrite decide_True)). cbn [mbind outcome_bind n_waiting].
  rewrite <-Hr0. cbn [Z.eqb assert mbind outcome_bind blk_id].
  rewrite (zget_ok _ (blk_id x) _ ltac:(lia) Hq). cbn [mbind outcome_bind].
  set (found := MkBlk (blk_id x) _). set (bs := set_insert found _).
  assert (blk_id <$> bs ≡ₚ blk_id <$> blocks_sorted p) as Hbs.
  { pose proof (set_erase_perm _ _ _ Hx) as He. set (rest := set_erase _ _) in *.
    assert (NoDup (blk_id <$> blocks_sorted p)) as Hnd by (rewrite Hblk; apply NoDup_fmap_2; [apply _|apply NoDup_seq]).
    rewrite He in Hnd. cbn [fmap list_fmap] in Hnd. apply NoDup_cons in Hnd as [Hni _].
    unfold bs. rewrite (set_insert_perm found rest) by done. rewrite He. reflexivity. }
  pose proof (enqueue_ok p _ q t bs Hp Ht Hnq Hq (set_insert_sorted _ _ (set_erase_sorted _ _ Hsort)) Hbs) as Hnew.
  exists x, q. destruct q as [|h q]; cbn [mbind outcome_bind].
  - rewrite zset_ok by lia. cbn [mbind outcome_bind]. eexists. split_and!; done || lia.
  - rewrite zset_ok by (rewrite ?length_insert; lia). cbn [mbind outcome_bind]. rewrite zset_ok by (rewrite ?length_insert; lia). cbn [mbind outcome_bind].
    eexists. split_and!; try (done || lia). cbn [started]. by rewrite list_insert_insert_eq.
Qed.

(** A tenant is in one place of one queue. *)
Lemma NoDup_concat_pos {A} (l : list (list A)) b q i b' q' i' x :
  NoDup (concat l) → l !! b = Some q → q !! i = Some x → l !! b' = Some q' → q' !! i' = Some x → b = b' ∧ i = i'.
Proof.
  revert b b'. induction l as [|q0 l IH]; intros b b' Hnd Hb Hi Hb' Hi'; [done|]. simpl in Hnd. apply NoDup_app in Hnd as (H0 & Hd & Hl).
  assert (∀ b q i, l !! b = Some q → q !! i = Some x → x ∈ concat l) as Hin.
  { intros c qc j Hc Hj. rewrite list_elem_of_In, in_concat. exists qc. split; apply list_elem_of_In; by eapply list_elem_of_lookup_2. }
  destruct b as [|b], b' as [|b']; simplify_eq/=.
  - split; [done|]. exact (NoDup_lookup _ _ _ _ H0 Hi Hi').
  - destruct (Hd x); [by eapply list_elem_of_lookup_2|by eapply Hin].
  - destruct (Hd x); [by eapply list_elem_of_lookup_2|by eapply Hin].
  - destruct (IH b b' Hl Hb Hi Hb' Hi') as [-> ->]. done.
Qed.

(** Where the tenants are once [t] has left the front of queue [b]. *)
Lemma popped p b t q b' q' i t' :
  plane_ok p → block_queue p !! b = Some (t :: q) →
  <[b := q]> (block_queue p) !! b' = Some q' → q' !! i = Some t' →
  t' ≠ t ∧ ∃ q0, block_queue p !! b' = Some q0 ∧ q0 !! (if decide (b' = b) then S i else i) = Some t'.
Proof.
  intros Hp Hb Hb' Hi. assert (∃ q0, block_queue p !! b' = Some q0 ∧ q0 !! (if decide (b' = b) then S i else i) = Some t') as (q0 & Hq0 & Hi0).
  { case_decide as E; [subst b'; exists (t :: q)|exists q'].
    - rewrite list_lookup_insert_eq in Hb' by (by eapply lookup_lt_Some). by simplify_eq.
    - by rewrite list_lookup_insert_ne in Hb'. }
  split; [|by eauto]. intros ->.
  destruct (NoDup_concat_pos _ _ _ _ _ _ 0%nat _ (po_once _ Hp) Hq0 Hi0 Hb eq_refl) as [-> E]. by rewrite decide_True in E.
Qed.

Lemma popped_perm p b t q : block_queue p !! b = Some (t :: q) →
  concat (block_queue p) ≡ₚ t :: concat (<[b := q]> (block_queue p)).
Proof. intros Hb. pose proof (concat_replace _ _ _ q Hb) as Hc. apply (Permutation_app_inv_r q). rewrite <-Hc. solve_Permutation. Qed.

Lemma dequeue_ok p b t q st : plane_ok p → block_queue p !! b = Some (t :: q) → t ∉ to_notify p →
  plane_ok (MkPlane (blocks_sorted p) (<[b := q]> (block_queue p))
    (match q with [] => tenant_req p | next :: _ => <[Z.to_nat next := MkReqs st 0]> (tenant_req p) end)
    (match q with [] => to_notify p | next :: _ => {[next]} ∪ to_notify p end)).
Proof.
  intros Hp Hb Hnt. pose proof Hp as [Hsort Hblk Hql Hrl Honce Hrange Hwait Hidle Hnot].
  assert (b < length (block_queue p))%nat as Hbl by (by eapply lookup_lt_Some).
  assert (∀ next q0, q = next :: q0 → tenant_ok next) as Hnext.
  { intros next q0 ->. apply Hrange, queued_lookup. by exists b, (t :: next :: q0), 1%nat. }
  assert (∀ r t', tenant_ok t' → req_of (MkPlane [] [] (match q with [] => tenant_req p | next :: _ => <[Z.to_nat next := r]> (tenant_req p) end) ∅) t'
    = if decide (head q = Some t') then Some r else req_of p t') as Hreq.
  { intros r t' Ht'. unfold req_of, tenant_ok in *. cbn [tenant_req]. destruct q as [|next q0]; [done|]. specialize (Hnext _ _ eq_refl).
    rewrite req_insert by lia. simpl. repeat case_decide; naive_solver. }
  unfold req_of in Hreq. cbn [tenant_req] in Hreq.
  split; cbn [blocks_sorted block_queue tenant_req to_notify]; rewrite ?length_insert; try done.
  - destruct q; [done|]. by rewrite length_insert.
  - rewrite (popped_perm _ _ _ _ Hb) in Honce. by apply NoDup_cons in Honce as [_ ?].
  - intros t' Hq. apply Hrange. unfold queued in *. cbn [block_queue] in Hq. rewrite (popped_perm _ _ _ _ Hb). by right.
  - intros b' q' i t' Hb' Hi. destruct (popped p b t q b' q' i t' Hp Hb Hb' Hi) as (Hne & q0 & Hq0 & Hi0).
    unfold req_of. cbn [tenant_req]. rewrite Hreq by (apply Hrange, queued_lookup; eauto). destruct (decide (head q = Some t')) as [E|E].
    + destruct q as [|next q1]; [done|]. injection E as ->.
      destruct (NoDup_concat_pos _ _ _ _ _ _ _ _ Honce Hq0 Hi0 Hb (eq_refl : (t :: t' :: q1) !! 1%nat = Some t')) as [-> Hpos].
      rewrite decide_True in Hpos by done. by replace i with 0%nat by lia.
    + fold (req_of p t'). rewrite (Hwait b' q0 _ t' Hq0 Hi0). f_equal. destruct (decide (b' = b)) as [->|]; [|done].
      rewrite list_lookup_insert_eq in Hb' by done. simplify_eq. destruct i as [|i]; [|done]. destruct q' as [|h q']; simplify_eq/=.
  - intros t' Ht' Hn. unfold req_of. cbn [tenant_req]. rewrite Hreq by done. case_decide; [done|].
    destruct (decide (t' = t)) as [->|Hne]; [by apply (Hwait b (t :: q) 0%nat t Hb)|].
    apply Hidle; [done|]. unfold queued in *. rewrite (popped_perm _ _ _ _ Hb). intros [->|?]%elem_of_cons; done.
  - assert (∀ t', t' ∈ to_notify p → ∃ b', ∃ q', <[b := q]> (block_queue p) !! b' = Some (t' :: q')) as Hhold.
    { intros t' Hin. destruct (Hnot t' Hin) as (b' & q' & Hq'). exists b', q'.
      rewrite list_lookup_insert_ne; [done|]. intros <-. by simplify_eq. }
    intros t' Hin. destruct q as [|next q0]; [by apply Hhold|]. apply elem_of_union in Hin as [->%elem_of_singleton|Hin]; [|by apply Hhold].
    exists b, q0. cbn [block_queue]. by rewrite list_lookup_insert_eq.
Qed.

(** [handle_free] by the tenant at the front: the next one in the queue gets
    the block and is to be notified. *)
Lemma free_run p b t q : plane_ok p → block_queue p !! b = Some (t :: q) → t ∉ to_notify p →
  ∃ p', handle_free t (Z.of_nat b) p = Ok p' ∧ plane_ok p'
    ∧ block_queue p' = <[b := q]> (block_queue p)
    ∧ to_notify p' = (match q with [] => to_notify p | next :: _ => {[next]} ∪ to_notify p end).
Proof.
  intros Hp Hb Hnt. assert (b < length (block_queue p))%nat as Hbl by (by eapply lookup_lt_Some).
  assert (tenant_ok t) as Ht by (apply (po_range _ Hp), queued_lookup; by exists b, (t :: q), 0%nat).
  unfold handle_free. unfold tenant_ok in Ht. rewrite (proj2 (Z.eqb_neq t NO_TENANT)) by (unfold NO_TENANT; lia).
  cbn [negb assert mbind outcome_bind]. rewrite (zget_ok _ (Z.of_nat b) (t :: q)) by (lia || by rewrite Nat2Z.id).
  cbn [mbind outcome_bind]. rewrite Z.eqb_refl. cbn [assert mbind outcome_bind]. rewrite zset_ok, Nat2Z.id by lia. cbn [mbind outcome_bind].
  pose proof (λ st, dequeue_ok p b t q st Hp Hb Hnt) as Hok. destruct q as [|next q0].
  { eexists. split; [done|]. split; [by apply (Hok true)|done]. }
  pose proof (po_wait _ Hp b (t :: next :: q0) 1%nat next Hb eq_refl) as Hwn. apply fmap_Some in Hwn as (r & Hr & Hr1). unfold req_of in Hr.
  assert (tenant_ok next) as Hnext by (apply (po_range _ Hp), queued_lookup; by exists b, (t :: next :: q0), 1%nat). unfold tenant_ok in Hnext.
  rewrite (zget_ok _ next _ ltac:(lia) Hr). cbn [mbind outcome_bind]. rewrite zset_ok by (rewrite (po_reqs _ Hp); lia). cbn [mbind outcome_bind].
  rewrite <-Hr1. simpl decide. cbn iota. change (u64 (1 - 1)) with 0. cbn [Z.eqb]. eexists. split; [done|]. split; [by apply Hok|done].
Qed.

(** ** The server *)

Definition at_block (p : plane) (t : Z) (b : nat) : Prop := ∃ q, block_queue p !! b = Some q ∧ t ∈ q.

Lemma at_block_queued p t : queued p t ↔ ∃ b, at_block p t b.
Proof.
  rewrite queued_lookup. split.
  - intros (b & q & i & Hb & Hi). exists b, q. split; [done|by eapply list_elem_of_lookup_2].
  - intros (b & q & Hb & [i Hi]%list_elem_of_lookup). by exists b, q, i.
Qed.

Lemma holds_at p t b : holds p t b → at_block p t b.
Proof. intros [q Hq]. exists (t :: q). split; [done|by left]. Qed.

(** Every node of the tenant is connected and has the answer of the batch. *)
Definition told (infos : gmap Z tenant_info_t) (t : Z) : bool :=
  all_connected (info_of infos t) && (n_cached_uses (info_of infos t) =? expected_n_fds (info_of infos t)).

Record srv_ok (s : server) : Prop := {
  so_plane : plane_ok (srv_plane s);
  so_cached : ∀ t i, tenant_info s !! t = Some i → resp_batch (cached i) ≠ 0 →
    ∃ b, alloced_blk_id (cached i) = Z.of_nat b ∧ at_block (srv_plane s) t b;
  so_known : ∀ t, queued (srv_plane s) t → ∃ i, tenant_info s !! t = Some i ∧ resp_batch (cached i) ≠ 0;
  so_quiet : ∀ t, t ∈ to_notify (srv_plane s) → told (tenant_info s) t = false;
}.

(** A request of a node that follows the protocol: it asks for the batch its
    tenant was last answered for; or for a new batch, when the tenant has no
    block, or when the tenant's turn has come, all its nodes have been told,
    and it gives that block back. *)
Definition req_ok (s : server) (fd : Z) (req : alloc_req_t) : Prop :=
  let t := req_tenant req in
  let i := info_of (tenant_info s) t in
  tenant_ok t ∧ req_batch req ≠ 0
  ∧ (resp_batch (cached i) = req_batch req
     ∨ resp_batch (cached i) ≠ req_batch req ∧ ¬ queued (srv_plane s) t ∧ blk_to_free req = NO_BLOCK
     ∨ resp_batch (cached i) ≠ req_batch req
       ∧ (∃ b, alloced_blk_id (cached i) = Z.of_nat b ∧ blk_to_free req = Z.of_nat b ∧ holds (srv_plane s) t b)
       ∧ t ∉ to_notify (srv_plane s) ∧ all_connected i = true ∧ fd ∈ sock_fds i ∧ tenant_num_nodes req = expected_n_fds i).

(** The loop over the ready tenants tells those whose nodes all have the
    answer, and takes them off the list. *)
Lemma notify_all infos R out l :
  (∀ t, t ∈ l → is_Some (infos !! t)) →
  foldl notify_one (R, infos, out) l
  = (R ∖ list_to_set (filter (λ t, told infos t = true) l), infos,
     out ++ concat ((λ t, Ready <$> elements (sock_fds (info_of infos t))) <$> filter (λ t, told infos t = true) l)).
Proof.
  revert R out. induction l as [|t l IH]; intros R out Hl; cbn [foldl].
  { rewrite filter_nil. simpl. rewrite app_nil_r. f_equal. f_equal. set_solver. }
  destruct (Hl t) as [i Hi]; [by left|].
  assert (<[t := info_of infos t]> infos = infos) as Hid.
  { unfold info_of. rewrite Hi. simpl. by apply insert_id. }
  unfold notify_one at 2. fold (told infos t). rewrite Hid. destruct (told infos t) eqn:E.
  - rewrite filter_cons_True by done. rewrite IH by (intros t' ?; apply Hl; by right).
    cbn [fmap list_fmap concat list_to_set]. rewrite app_assoc. f_equal. f_equal. set_solver.
  - rewrite filter_cons_False by (by rewrite E). apply IH. intros t' ?. apply Hl. by right.
Qed.

(** A tenant's place survives the moves of others. *)
Lemma at_block_insert p b q q' bs rs nt t b' :
  block_queue p !! b = Some q → (t ∈ q → t ∈ q') → at_block p t b' → at_block (MkPlane bs (<[b := q']> (block_queue p)) rs nt) t b'.
Proof.
  intros Hb Hq (q0 & Hq0 & Ht). unfold at_block. cbn [block_queue]. destruct (decide (b = b')) as [->|Hn].
  - simplify_eq. exists q'. rewrite list_lookup_insert_eq by (by eapply lookup_lt_Some). auto.
  - exists q0. by rewrite list_lookup_insert_ne.
Qed.

(** What an [answer] leaves, seen from the tenants. *)
Record answered (p p' : plane) (t : Z) (b : nat) : Prop := {
  an_ok : plane_ok p';
  an_at : at_block p' t b;
  an_range : (b < N_BLOCKS)%nat;
  an_keep : ∀ t' b', t' ≠ t → at_block p t' b' → at_block p' t' b';
  an_new : ∀ t', queued p' t' → t' = t ∨ queued p t';
}.

Lemma alloc_answered now t d dur p : plane_ok p → tenant_ok t → ¬ queued p t →
  ∃ b p', handle_alloc now t d dur p = Ok (Z.of_nat b, p') ∧ answered p p' t b
    ∧ (∀ t', t' ∈ to_notify p' → t' = t ∨ t' ∈ to_notify p).
Proof.
  intros Hp Ht Hnq. destruct (alloc_run now t d dur p Hp Ht Hnq) as (x & q & p' & _ & Hx & Hq & Hrun & Hp' & Hbq & Hnt).
  exists (Z.to_nat (blk_id x)), p'. rewrite Z2Nat.id by lia. split; [done|].
  assert (Z.to_nat (blk_id x) < length (block_queue p))%nat as Hlt by (by eapply lookup_lt_Some).
  split; [split|].
  - done.
  - exists (q ++ [t]). rewrite Hbq, list_lookup_insert_eq by done. split; [done|]. apply elem_of_app. right. by apply list_elem_of_singleton.
  - lia.
  - intros t' b' _ Hat. eapply (at_block_insert _ _ q (q ++ [t]) [] [] ∅) in Hat; [|done|intros; apply elem_of_app; by left].
    unfold at_block in *. by rewrite Hbq.
  - intros t' Hq'. unfold queued in *. rewrite Hbq in Hq'.
    rewrite (concat_push _ _ _ t Hq) in Hq'. apply elem_of_app in Hq' as [?| ->%list_elem_of_singleton]; auto.
  - intros t'. rewrite Hnt. destruct q; [|by auto]. rewrite elem_of_union, elem_of_singleton. done.
Qed.

Lemma free_keeps p p' b t q t' b' :
  plane_ok p → block_queue p !! b = Some (t :: q) → block_queue p' = <[b := q]> (block_queue p) →
  (t' ≠ t → at_block p t' b' → at_block p' t' b') ∧ (queued p' t' → t' ≠ t ∧ queued p t').
Proof.
  intros Hp Hb Hbq. split.
  - intros Hne Hat. eapply (at_block_insert _ _ (t :: q) q [] [] ∅) in Hat; [|done|intros [->|?]%elem_of_cons; done].
    unfold at_block in *. by rewrite Hbq.
  - unfold queued. rewrite Hbq. intros Hq. pose proof (po_once _ Hp) as Hnd. rewrite (popped_perm _ _ _ _ Hb) in Hnd |- *.
    apply NoDup_cons in Hnd as [Hn _]. split; [by intros ->|by right].
Qed.

Lemma answer_run now fd req s : srv_ok s → req_ok s fd req →
  ∃ i p b, answer now fd req s = Ok (i, p)
    ∧ answered (srv_plane s) p (req_tenant req) b
    ∧ cached i = MkResp (req_batch req) (Z.of_nat b)
    ∧ expected_n_fds i = tenant_num_nodes req
    ∧ sock_fds i = {[fd]} ∪ sock_fds (info_of (tenant_info s) (req_tenant req))
    ∧ (all_connected i = false → ∀ t', t' ∈ to_notify p → t' = req_tenant req ∨ t' ∈ to_notify (srv_plane s)).
Proof.
  intros Hs (Ht & Hbatch & Hreq). unfold answer. cbn [cached resp_batch expected_n_fds sock_fds].
  set (t := req_tenant req) in *. set (i0 := info_of _ t) in *. pose proof (so_plane _ Hs) as Hp.
  destruct Hreq as [Heq|[(Hne & Hnq & Hfree)|(Hne & (b & Hb & Hfree & [q Hq]) & Hnt & Hall & Hfd & Hnum)]].
  - rewrite (proj2 (Z.eqb_eq _ _) Heq). cbn [negb].
    assert (tenant_info s !! t = Some i0 ∧ resp_batch (cached i0) ≠ 0) as [Hi Hnz].
    { unfold i0, info_of in *. destruct (tenant_info s !! t); simpl in *; [by split; [|congruence]|congruence]. }
    destruct (so_cached _ Hs t i0 Hi Hnz) as (b & Hb & Hat). exists (MkInfo (cached i0) (n_cached_uses i0) (tenant_num_nodes req) ({[fd]} ∪ sock_fds i0)), (srv_plane s), b.
    split_and!; try done; [|by destruct (cached i0); simpl in *; subst|by auto].
    split; try done; [|by auto]. destruct Hat as (q & Hq & _). rewrite <-(po_queues _ Hp). by eapply lookup_lt_Some.
  - rewrite (proj2 (Z.eqb_neq _ _) Hne). cbn [negb]. rewrite Hfree, Z.eqb_refl. cbn [negb mbind outcome_bind].
    destruct (alloc_answered now t (start_delay_ns req) (duration_ns req) _ Hp Ht Hnq) as (b & p' & -> & Han & Hnot).
    cbn [mbind outcome_bind]. pose proof (an_range _ _ _ _ Han) as Hr. change N_BLOCKS with 32%nat in Hr. rewrite wrap_small by lia.
    eexists _, p', b. split_and!; done.
  - rewrite (proj2 (Z.eqb_neq _ _) Hne). cbn [negb].
    assert (b < N_BLOCKS)%nat as Hb32 by (rewrite <-(po_queues _ Hp); by eapply lookup_lt_Some). change N_BLOCKS with 32%nat in Hb32.
    rewrite Hfree, (proj2 (Z.eqb_neq (Z.of_nat b) NO_BLOCK)) by (unfold NO_BLOCK; lia). cbn [negb].
    destruct (free_run _ b t q Hp Hq Hnt) as (p0 & -> & Hp0 & Hbq & _). cbn [mbind outcome_bind].
    assert (∀ t', queued p0 t' → t' ≠ t ∧ queued (srv_plane s) t') as Hfq by (intros t'; by apply (free_keeps _ p0 b t q t' 0 Hp Hq Hbq)).
    destruct (alloc_answered now t (start_delay_ns req) (duration_ns req) p0 Hp0 Ht) as (b1 & p' & -> & [A1 A2 A3 A4 A5] & _).
    { by intros [? _]%Hfq. }
    cbn [mbind outcome_bind]. change N_BLOCKS with 32%nat in A3. rewrite wrap_small by lia.
    eexists _, p', b1. split_and!; try done.
    + split; try done.
      * intros t' b' Hn Hat. apply A4; [done|]. by apply (free_keeps _ p0 b t q t' b' Hp Hq Hbq).
      * intros t' [->|Hq']%A5; [by left|]. right. by apply Hfq.
    + unfold all_connected in *. cbn [expected_n_fds sock_fds]. intros Hc. rewrite Hnum in Hc.
      replace ({[fd]} ∪ sock_fds i0) with (sock_fds i0) in Hc by set_solver. congruence.
Qed.

Lemma notify_less p R : plane_ok p → R ⊆ to_notify p → plane_ok (MkPlane (blocks_sorted p) (block_queue p) (tenant_req p) R).
Proof. intros [] HR. split; try done. intros t Ht. by apply po_notify0, HR. Qed.

(** The bookkeeping after an answer. *)
Lemma answered_infos s p t b i : srv_ok s → answered (srv_plane s) p t b →
  resp_batch (cached i) ≠ 0 → alloced_blk_id (cached i) = Z.of_nat b →
  (∀ t' i', <[t := i]> (tenant_info s) !! t' = Some i' → resp_batch (cached i') ≠ 0 →
     ∃ b', alloced_blk_id (cached i') = Z.of_nat b' ∧ at_block p t' b')
  ∧ (∀ t', queued p t' → ∃ i', <[t := i]> (tenant_info s) !! t' = Some i' ∧ resp_batch (cached i') ≠ 0).
Proof.
  intros Hs [A1 A2 A3 A4 A5] Hb Ha. split.
  - intros t' i' [[<- <-]|[Hn Hi]]%lookup_insert_Some Hnz; [by exists b|].
    destruct (so_cached _ Hs t' i' Hi Hnz) as (b' & ? & ?). exists b'. split; [done|]. by apply A4.
  - intros t' Hq. destruct (decide (t' = t)) as [->|Hn]; [exists i; by rewrite lookup_insert_eq|].
    destruct (A5 t' Hq) as [|Hq']; [done|]. destruct (so_known _ Hs t' Hq') as (i' & ? & ?). exists i'.
    by rewrite lookup_insert_ne.
Qed.

Lemma told_insert infos t i t' :
  told (<[t := i]> infos) t' = if decide (t' = t) then all_connected i && (n_cached_uses i =? expected_n_fds i) else told infos t'.
Proof.
  unfold told, info_of. case_decide as E; [subst; by rewrite lookup_insert_eq|by rewrite lookup_insert_ne].
Qed.

(** A tenant that is ready holds the block it was told of. *)
Lemma ready_holds p t b i : plane_ok p → t ∈ to_notify p → at_block p t b → alloced_blk_id (cached i) = Z.of_nat b → holds p t b.
Proof.
  intros Hp Ht (q & Hq & Hin) _. destruct (po_notify _ Hp t Ht) as (b' & q' & Hq').
  apply list_elem_of_lookup in Hin as [j Hj].
  destruct (NoDup_concat_pos _ _ _ _ _ _ 0%nat _ (po_once _ Hp) Hq Hj Hq' eq_refl) as [-> ->]. by exists q'.
Qed.

(** A request that follows the protocol is served. *)
Lemma serve_run now fd req s :
  srv_ok s → req_ok s fd req →
  ∃ out s' b, serve now fd req s = Ok (Resp fd (MkResp (req_batch req) (Z.of_nat b)) :: out, s')
    ∧ srv_ok s' ∧ at_block (srv_plane s') (req_tenant req) b
    ∧ (∀ fd', Ready fd' ∈ out → ∃ t i b', tenant_info s' !! t = Some i ∧ fd' ∈ sock_fds i
         ∧ holds (srv_plane s') t b' ∧ alloced_blk_id (cached i) = Z.of_nat b'
         ∧ n_cached_uses i = Z.of_nat (size (sock_fds i)))
    ∧ (∀ m, m ∈ out → ∃ fd', m = Ready fd').
Proof.
  intros Hs Hreq. destruct (answer_run now fd req s Hs Hreq) as (i & p & b & Hrun & Han & Hc & He & Hf & Hnot).
  destruct Hreq as (_ & Hnz & _). unfold serve. rewrite Hrun. cbn [mbind outcome_bind]. set (t := req_tenant req) in *.
  rewrite Hc. set (i3 := MkInfo _ _ _ _). pose proof (an_ok _ _ _ _ Han) as Hp.
  destruct (answered_infos s p t b i3 Hs Han) as [Hca Hkn]; [done|done|]. set (infos := <[t := i3]> (tenant_info s)) in *.
  destruct (all_connected i3) eqn:Hall.
  - rewrite notify_all.
    2:{ intros t' [b' Hh]%elem_of_elements%(po_notify _ Hp). destruct (Hkn t') as (i' & -> & _); [|done].
        apply at_block_queued. exists b'. by apply holds_at. }
    set (gone := filter _ _). eexists _, _, b. split; [cbn [app]; done|]. cbn [srv_plane tenant_info]. split_and!.
    + split; cbn [srv_plane tenant_info]; try done; [apply notify_less; [done|set_solver]|].
      intros t' [Hin Hg]%elem_of_difference. apply not_true_iff_false. intros Ht. apply Hg.
      apply elem_of_list_to_set, list_elem_of_filter. split; [done|]. by apply elem_of_elements.
    + exact (an_at _ _ _ _ Han).
    + intros fd' Hin. apply list_elem_of_In, in_concat in Hin as (msgs & Hm & Hin). apply list_elem_of_In in Hm, Hin.
      apply list_elem_of_fmap in Hm as (t' & -> & [Ht' Hin']%list_elem_of_filter). apply elem_of_elements in Hin'.
      destruct (po_notify _ Hp t' Hin') as (b' & Hh). destruct (Hkn t') as (i' & Hi' & Hnz'); [apply at_block_queued; exists b'; by apply holds_at|].
      destruct (Hca t' i' Hi' Hnz') as (b1 & Hb1 & Hat). exists t', i', b1.
      unfold told, info_of, all_connected in Ht', Hin. rewrite Hi' in Ht', Hin. simpl in Ht', Hin.
      apply andb_prop in Ht' as [T1%Z.eqb_eq T2%Z.eqb_eq].
      apply list_elem_of_fmap in Hin as (fd1 & [= ->] & Hin%elem_of_elements). split_and!; try done; [|congruence].
      by apply (ready_holds p t' b1 i').
    + intros m Hin. apply list_elem_of_In, in_concat in Hin as (msgs & Hm & Hin). apply list_elem_of_In in Hm, Hin.
      apply list_elem_of_fmap in Hm as (t' & -> & _). apply list_elem_of_fmap in Hin as (fd1 & -> & _). by eexists.
  - eexists [], _, b. split; [done|]. cbn [srv_plane tenant_info]. split_and!.
    + split; cbn [srv_plane tenant_info]; try done. intros t' Hin. unfold infos. rewrite told_insert. case_decide as E; [by rewrite Hall|].
      destruct (Hnot Hall t' Hin) as [|Hin']; [done|]. by apply (so_quiet _ Hs).
    + exact (an_at _ _ _ _ Han).
    + by intros fd' ?%not_elem_of_nil.
    + by intros m ?%not_elem_of_nil.
Qed.

(** C12: a server that is asked according to the protocol serves without a
    failed assertion, and keeps its bookkeeping.  The asking node gets the
    block of its batch, the same for every node of the tenant, on which the
    tenant is then queued; a node is told to go only when its tenant is at the
    front of the queue of exactly that block and every node of the tenant has
    had the answer; and no tenant that could be told is left waiting. *)
Theorem serve_schedules now fd req s :
  srv_ok s → req_ok s fd req →
  ∃ out s' b, serve now fd req s = Ok (Resp fd (MkResp (req_batch req) (Z.of_nat b)) :: out, s')
    ∧ srv_ok s' ∧ at_block (srv_plane s') (req_tenant req) b
    ∧ (∀ fd', Ready fd' ∈ out → ∃ t i b', tenant_info s' !! t = Some i ∧ fd' ∈ sock_fds i
         ∧ holds (srv_plane s') t b' ∧ alloced_blk_id (cached i) = Z.of_nat b'
         ∧ n_cached_uses i = Z.of_nat (size (sock_fds i)))
    ∧ (∀ m, m ∈ out → ∃ fd', m = Ready fd').
Proof. apply serve_run. Qed.

(** C11: the scheduler of the blocks is sound.  Whatever its tenants have done,
    as long as a tenant asks for a block only when it is on no queue and gives
    back only the block it holds: [handle_alloc] meets its assertions, puts
    the tenant on the queue of a best-fitting block, and announces it exactly
    when the queue was empty; [handle_free] hands the block to the next tenant
    of its queue, in order of arrival, and announces it; and every announced
    tenant holds a block. *)
Theorem scheduler_sound p :
  plane_ok p →
  (∀ now t d dur, tenant_ok t → ¬ queued p t →
     ∃ x q p', best_fit (u64 (now + d)) (blocks_sorted p) x
       ∧ handle_alloc now t d dur p = Ok (blk_id x, p') ∧ plane_ok p'
       ∧ block_queue p !! Z.to_nat (blk_id x) = Some q
       ∧ block_queue p' = <[Z.to_nat (blk_id x) := q ++ [t]]> (block_queue p)
       ∧ to_notify p' = (match q with [] => {[t]} ∪ to_notify p | _ => to_notify p end))
  ∧ (∀ t b q, block_queue p !! b = Some (t :: q) → t ∉ to_notify p →
     ∃ p', handle_free t (Z.of_nat b) p = Ok p' ∧ plane_ok p'
       ∧ block_queue p' = <[b := q]> (block_queue p)
       ∧ to_notify p' = (match q with [] => to_notify p | next :: _ => {[next]} ∪ to_notify p end))
  ∧ (∀ t, t ∈ to_notify p → ∃ b, holds p t b).
Proof.
  intros Hp. split_and!.
  - intros now t d dur Ht Hn. destruct (alloc_run now t d dur p Hp Ht Hn) as (x & q & p' & ? & _ & ? & ? & ? & ? & ?). by exists x, q, p'.
  - intros t b q Hb Hn. by apply free_run.
  - by apply po_notify.
Qed.

(** Tenant 3 is given a block of an idle switch. *)
Lemma scheduler_sound_witness :
  plane_ok (handle_init plane_static)
  ∧ ∃ x p', handle_alloc 1000 3 10 20 (handle_init plane_static) = Ok (blk_id x, p') ∧ plane_ok p'.
Proof.
  split; [exact init_ok|].
  destruct (proj1 (scheduler_sound _ init_ok) 1000 3 10 20) as (x & q & p' & _ & H & Hp & _).
  - split; reflexivity.
  - intros H. vm_compute in H. by apply not_elem_of_nil in H.
  - exists x, p'. split; [exact H|exact Hp].
Defined.

Lemma idle_server_ok : srv_ok (MkServer (handle_init plane_static) ∅).
Proof.
  split; cbn [srv_plane tenant_info]; [exact init_ok|done| |].
  - intros t H. vm_compute in H. by apply not_elem_of_nil in H.
  - intros t H. by apply not_elem_of_empty in H.
Qed.

(** The first node of a tenant with two nodes asks for its first batch. *)
Lemma serve_schedules_witness :
  ∃ out s' b, serve 1000 5 (MkReq 10 20 NO_BLOCK 3 2 1) (MkServer (handle_init plane_static) ∅)
    = Ok (Resp 5 (MkResp 1 (Z.of_nat b)) :: out, s') ∧ srv_ok s'.
Proof.
  destruct (serve_schedules 1000 5 (MkReq 10 20 NO_BLOCK 3 2 1) (MkServer (handle_init plane_static) ∅)) as (out & s' & b & H & Hs & _).
  - exact idle_server_ok.
  - unfold req_ok. cbn [req_tenant req_batch blk_to_free srv_plane]. split; [split; reflexivity|]. split; [discriminate|].
    right; left. split_and!; [discriminate| |reflexivity]. intros Hq. vm_compute in Hq. by apply not_elem_of_nil in Hq.
  - exists out, s', b. split; [exact H|exact Hs].
Defined.
