(* ===== verification/SchedServer.v ===== *)
(** * The scheduler's server and the bytes of its protocol

    The main loop of [switch_src/01_control_plane/sched.cpp] around the handling
    of a request (ControlPlane), with the packed structures that the server and
    [ee/sched_intf.cpp] declare alike.  What [epoll_wait] and [recv] return is an
    argument. *)
From stdpp Require Import base tactics list numbers gmap.
From Stdlib Require Import ZArith Lia.
From S2P Require Import Prelude Types Layout ControlPlane.

#[local] Open Scope Z_scope.

(** ** Structures in memory *)

(** An unsigned integer of [n] bytes on a little-endian machine. *)
Fixpoint le_bytes (n : nat) (v : Z) : list Z := match n with O => [] | S n' => v mod 256 :: le_bytes n' (v / 256) end.
Fixpoint le_value (l : list Z) : Z := match l with [] => 0 | b :: l' => b + 256 * le_value l' end.

(** [alloc_req_t], [alloc_resp_t] and [alloc_ready_msg_t], packed. *)
Definition req_image (r : alloc_req_t) : list Z :=
  le_bytes 8 (start_delay_ns r) ++ le_bytes 8 (duration_ns r) ++ le_bytes 4 (blk_to_free r) ++ le_bytes 4 (req_tenant r)
  ++ le_bytes 4 (tenant_num_nodes r) ++ le_bytes 4 (req_batch r).
Definition req_read (l : list Z) : alloc_req_t :=
  let at_ off n := le_value (take n (drop off l)) in
  MkReq (at_ 0 8)%nat (at_ 8 8)%nat (at_ 16 4)%nat (at_ 20 4)%nat (at_ 24 4)%nat (at_ 28 4)%nat.
Definition resp_image (r : alloc_resp_t) : list Z := le_bytes 4 (resp_batch r) ++ le_bytes 4 (alloced_blk_id r).
Definition resp_read (l : list Z) : alloc_resp_t := MkResp (le_value (take 4 l)) (le_value (take 4 (drop 4 l))).

Definition REQ_BYTES : Z := 32.
Definition RESP_BYTES : Z := 8.
Definition READY_BYTES : Z := 4.

(** ** The loop *)

Definition EPOLLIN : Z := 1.
Definition EPOLLERR : Z := 8.
Definition EPOLLHUP : Z := 16.

(** What a turn of the loop gets: the result of [epoll_wait] with the event, that
    of [epoll_ctl], the bytes of [recv] and the time. *)
Record ep_event := MkEv { ev_nfds : Z; ev_events : Z; ev_fd : Z; ev_ctl : Z; ev_recv : list Z; ev_now : Z }.

Definition server_turn (ev : ep_event) (s : server) : outcome (list srv_msg * server) :=
  assert (ev_nfds ev =? 1);;
  if negb (Z.land (ev_events ev) (Z.lor EPOLLHUP EPOLLERR) =? 0) then assert (ev_ctl ev =? 0);; Ok ([], s)
  else
    assert (ev_events ev =? EPOLLIN);;
    assert (Z.of_nat (length (ev_recv ev)) =? REQ_BYTES);;
    serve (ev_now ev) (ev_fd ev) (req_read (ev_recv ev)) s.

Definition server_next (st : list srv_msg * server) (ev : ep_event) : outcome (list srv_msg * server) :=
  '(out, s) ← server_turn ev st.2; Ok (st.1 ++ out, s).

(** [main] after its sockets are set up, for a sequence of events. *)
Definition server_main (events : list ep_event) : outcome (list srv_msg * server) :=
  ofold server_next events ([], MkServer (handle_init plane_static) ∅).

(** The client's [recv] of an answer and [wait_sched_ready], on the bytes that
    [recv] returns. *)
Definition recv_resp (bytes : list Z) : outcome alloc_resp_t :=
  assert (Z.of_nat (length bytes) =? RESP_BYTES);; Ok (resp_read bytes).
Definition wait_sched_ready (bytes : list Z) : outcome unit := assert (Z.of_nat (length bytes) =? READY_BYTES).

(** ** Round trips *)

Lemma le_length n v : length (le_bytes n v) = n.
Proof. revert v. induction n; intros v; cbn; auto. Qed.

Lemma le_roundtrip n v : 0 ≤ v < 256 ^ Z.of_nat n → le_value (le_bytes n v) = v.
Proof.
  revert v. induction n as [|n IH]; intros v Hv; cbn [le_bytes le_value]; [cbn in Hv; lia|].
  rewrite IH; [pose proof (Z.div_mod v 256); lia|]. rewrite Nat2Z.inj_succ, Z.pow_succ_r in Hv by lia.
  split; [apply Z.div_pos; lia|apply Z.div_lt_upper_bound; lia].
Qed.

(** A request whose fields fit their types. *)
Definition req_typed (r : alloc_req_t) : Prop :=
  0 ≤ start_delay_ns r < 2 ^ 64 ∧ 0 ≤ duration_ns r < 2 ^ 64 ∧ 0 ≤ blk_to_free r < 2 ^ 32 ∧ 0 ≤ req_tenant r < 2 ^ 32
  ∧ 0 ≤ tenant_num_nodes r < 2 ^ 32 ∧ 0 ≤ req_batch r < 2 ^ 32.

Lemma take_image n v l : take n (le_bytes n v ++ l) = le_bytes n v.
Proof. apply take_app_length'. symmetry. apply le_length. Qed.
Lemma drop_image n m v l : drop (n + m) (le_bytes n v ++ l) = drop m l.
Proof. rewrite drop_app_ge by (rewrite le_length; lia). rewrite le_length. f_equal. lia. Qed.

Lemma req_roundtrip r : req_typed r → req_read (req_image r) = r ∧ Z.of_nat (length (req_image r)) = REQ_BYTES.
Proof.
  intros (H1 & H2 & H3 & H4 & H5 & H6). split; [|unfold req_image; rewrite !length_app, !le_length; done].
  destruct r as [a b c d e f]. unfold req_read, req_image. cbn [start_delay_ns duration_ns blk_to_free req_tenant tenant_num_nodes req_batch] in *.
  rewrite drop_0, take_image. change 28%nat with (8 + (8 + (4 + (4 + (4 + 0)))))%nat. change 24%nat with (8 + (8 + (4 + (4 + 0))))%nat.
  change 20%nat with (8 + (8 + (4 + 0)))%nat. change 16%nat with (8 + (8 + 0))%nat. change (drop 8) with (drop (A := Z) (8 + 0)).
  rewrite !drop_image, !drop_0, !take_image. rewrite (take_ge (le_bytes 4 f)) by (by rewrite le_length).
  by rewrite !le_roundtrip.
Qed.

Lemma resp_roundtrip r : 0 ≤ resp_batch r < 2 ^ 32 → 0 ≤ alloced_blk_id r < 2 ^ 32 → recv_resp (resp_image r) = Ok r.
Proof.
  intros H1 H2. unfold recv_resp. assert (Z.of_nat (length (resp_image r)) = RESP_BYTES) as -> by (unfold resp_image; by rewrite length_app, !le_length).
  cbn [assert mbind outcome_bind Z.eqb RESP_BYTES Pos.eqb]. destruct r as [a b]. unfold resp_read, resp_image. cbn [resp_batch alloced_blk_id] in *.
  rewrite take_image. change (drop 4) with (drop (A := Z) (4 + 0)). rewrite drop_image, drop_0, (take_ge (le_bytes 4 b)) by (by rewrite le_length).
  by rewrite !le_roundtrip.
Qed.

(** The requests of [update_alloc] fit. *)
Lemma alloc_request_typed tenant num_nodes batch_num L : req_typed (alloc_request tenant num_nodes batch_num L).
Proof.
  unfold req_typed, alloc_request. cbn [start_delay_ns duration_ns blk_to_free req_tenant tenant_num_nodes req_batch].
  pose proof (λ z, Z.mod_pos_bound z (2 ^ 32) ltac:(lia)) as H. unfold wrap in *. split_and!; try apply H; done.
Qed.

(** ** The loop serves *)

(** The event of a request on [fd]. *)
Definition request_event (now fd : Z) (r : alloc_req_t) : ep_event := MkEv 1 EPOLLIN fd 0 (req_image r) now.

Lemma turn_request now fd r s : req_typed r → server_turn (request_event now fd r) s = serve now fd r s.
Proof.
  intros Hr. unfold server_turn, request_event. cbn [ev_nfds ev_events ev_recv ev_fd ev_now]. destruct (req_roundtrip r Hr) as [-> ->]. done.
Qed.

(** Sequences of hang-ups and of requests that follow the protocol in the state
    in which they come. *)
Inductive well_asked : server → list ep_event → Prop :=
  | wa_nil s : well_asked s []
  | wa_hup s fd es : well_asked s es → well_asked s (MkEv 1 EPOLLHUP fd 0 [] 0 :: es)
  | wa_req s now fd r es : req_typed r → req_ok s fd r → (∀ out s', serve now fd r s = Ok (out, s') → well_asked s' es) →
      well_asked s (request_event now fd r :: es).

(** Whom the server answered, and for which batch; who asked for one. *)
Definition answers (out : list srv_msg) : list (Z * Z) :=
  omap (λ m, match m with Resp fd r => Some (fd, resp_batch r) | Ready _ => None end) out.
Definition asked (events : list ep_event) : list (Z * Z) :=
  omap (λ ev, if ev_events ev =? EPOLLIN then Some (ev_fd ev, req_batch (req_read (ev_recv ev))) else None) events.

Lemma answers_ready out : (∀ m, m ∈ out → ∃ fd, m = Ready fd) → answers out = [].
Proof.
  induction out as [|m out IH]; intros H; [done|]. destruct (H m) as [fd ->]; [left|]. cbn. apply IH. intros m' ?. apply H. by right.
Qed.

Lemma answers_app o1 o2 : answers (o1 ++ o2) = answers o1 ++ answers o2.
Proof. apply omap_app. Qed.

Lemma server_runs_from events s out0 : srv_ok s → well_asked s events →
  ∃ out s', ofold server_next events (out0, s) = Ok (out0 ++ out, s') ∧ srv_ok s' ∧ answers out = asked events.
Proof.
  intros Hs Hw. revert out0. induction Hw as [s|s fd es Hw IH|s now fd r es Ht Hr Hw IH]; intros out0; cbn [ofold].
  - exists [], s. by rewrite app_nil_r.
  - destruct (IH Hs out0) as (out & s' & E & Hs' & Ha). exists out, s'. change (server_next (out0, s) (MkEv 1 EPOLLHUP fd 0 [] 0)) with (@Ok (list srv_msg * server) (out0 ++ [], s)).
    rewrite app_nil_r. by cbn [mbind outcome_bind].
  - destruct (serve_run now fd r s Hs Hr) as (o & s1 & b & E & Hs1 & _ & _ & Ho).
    assert (server_next (out0, s) (request_event now fd r) = Ok (out0 ++ Resp fd (MkResp (req_batch r) (Z.of_nat b)) :: o, s1)) as ->.
    { unfold server_next. cbn [fst snd]. by rewrite turn_request, E. }
    cbn [mbind outcome_bind]. destruct (IH _ _ E Hs1 (out0 ++ Resp fd (MkResp (req_batch r) (Z.of_nat b)) :: o)) as (out & s' & -> & Hs' & Ha).
    exists (Resp fd (MkResp (req_batch r) (Z.of_nat b)) :: o ++ out), s'. rewrite <-app_assoc. split; [done|]. split; [done|].
    change (answers (Resp fd (MkResp (req_batch r) (Z.of_nat b)) :: o ++ out)) with ((fd, req_batch r) :: answers (o ++ out)). rewrite answers_app, (answers_ready o Ho), Ha. cbn [app].
    change (asked (request_event now fd r :: es)) with ((fd, req_batch (req_read (req_image r))) :: asked es). by destruct (req_roundtrip r Ht) as [-> _].
Qed.

(** The server runs through every such sequence, from its start, without a failed
    assertion, and answers exactly the requests, each for its batch, in the order
    in which they come.  A connection that the peer has closed is reported as
    readable with nothing to read, which ends the server. *)
Theorem server_runs events :
  well_asked (MkServer (handle_init plane_static) ∅) events →
  (∃ out s, server_main events = Ok (out, s) ∧ srv_ok s ∧ answers out = asked events)
  ∧ ∀ fd s, server_turn (MkEv 1 EPOLLIN fd 0 [] 0) s = Fail AssertFailed.
Proof.
  intros Hw. split; [|done]. destruct (server_runs_from events _ [] idle_server_ok Hw) as (out & s & H & Hs & Ha). by exists out, s.
Qed.
