(* ===== verification/Tenants.v ===== *)
(** * Tenants that share the switch

    The scheduler's server (ControlPlane, SchedServer) together with the nodes of
    all tenants, each of which runs the cycle of [main] and [txn_executor]:
    [update_alloc], a cold batch, [wait_sched_ready], the hot period and the
    barrier of the tenant's nodes at its end.  Every interleaving is a sequence of
    [sys_act].  The messages of the server wait in the order in which it sent them;
    the barrier is what Barrier shows it to be: nobody leaves before all have come. *)
From stdpp Require Import base tactics list numbers gmap functions relations.
From Stdlib Require Import ZArith Lia.
From S2P Require Import Prelude Types Layout ControlPlane SchedServer.

#[local] Open Scope Z_scope.

(** Where the leader thread of a node is: in [update_alloc] before and after the
    server has taken the request, in the cold batch or in [wait_sched_ready], in
    [run_hot_period], and in its last [wait_nodes]. *)
Inductive stage := Asking | Asked | Cold | Hot | AtBar.
#[global] Instance stage_eq_dec : EqDecision stage.
Proof. solve_decision. Defined.

(** A node: the argument of its [update_alloc], its stage and layout, and what the
    server has sent it. *)
Record tnode := MkTN { c_batch : Z; c_stage : stage; c_layout : DeclusteredLayout; c_inbox : list srv_msg }.

Record sys := MkSys { y_server : server; y_nodes : Z → tnode }.

Inductive sys_action := Serve (now fd : Z) | TakeAnswer (fd : Z) | TakeReady (fd : Z) | EndHot (fd : Z) | LeaveBar (fd : Z).

Definition msg_fd (m : srv_msg) : Z := match m with Resp fd _ => fd | Ready fd => fd end.
Definition push_msg (m : srv_msg) (c : tnode) : tnode := MkTN (c_batch c) (c_stage c) (c_layout c) (c_inbox c ++ [m]).
Definition send_msg (cl : Z → tnode) (m : srv_msg) : Z → tnode := alter (push_msg m) (msg_fd m) cl.
Definition set_stage (st : stage) (c : tnode) : tnode := MkTN (c_batch c) st (c_layout c) (c_inbox c).

Section system.
(** The connections, and the [tenant_id] of the node behind each. *)
Context (fds : gset Z) (tenant : Z → Z).

Definition server_tenant (fd : Z) : Z := u32 (1 + tenant fd).
Definition members (t : Z) : gset Z := filter (λ fd, server_tenant fd = t) fds.
Definition num_nodes (fd : Z) : Z := Z.of_nat (size (members (server_tenant fd))).

(** The request a node sends. *)
Definition request (fd : Z) (c : tnode) : alloc_req_t := alloc_request (tenant fd) (num_nodes fd) (c_batch c) (c_layout c).

(** All nodes of the tenant have come to the barrier of batch [r]. *)
Definition bar_open (t r : Z) (cl : Z → tnode) : bool :=
  bool_decide (set_Forall (λ fd, r < c_batch (cl fd) ∨ (c_batch (cl fd) = r ∧ c_stage (cl fd) = AtBar)) (members t)).

(** An action of the system: not enabled, or its outcome.  A node that waits for a
    message and finds one of the other kind does not read what it expects. *)
Definition sys_act (a : sys_action) (y : sys) : option (outcome sys) :=
  let cl := y_nodes y in
  match a with
  | Serve now fd =>
      if bool_decide (fd ∈ fds ∧ c_stage (cl fd) = Asking) then
        Some ('(out, s) ← server_turn (request_event now fd (request fd (cl fd))) (y_server y);
              Ok (MkSys s (foldl send_msg (<[fd := set_stage Asked (cl fd)]> cl) out)))
      else None
  | TakeAnswer fd =>
      if bool_decide (fd ∈ fds ∧ c_stage (cl fd) = Asked) then
        match c_inbox (cl fd) with
        | [] => None
        | Resp _ r :: rest =>
            Some (L ← update_alloc (tenant fd) (num_nodes fd) (c_batch (cl fd)) r (c_layout (cl fd));
                  Ok (MkSys (y_server y) (<[fd := MkTN (c_batch (cl fd)) Cold L rest]> cl)))
        | Ready _ :: _ => Some (Fail AssertFailed)
        end
      else None
  | TakeReady fd =>
      if bool_decide (fd ∈ fds ∧ c_stage (cl fd) = Cold) then
        match c_inbox (cl fd) with
        | [] => None
        | Ready _ :: rest => Some (Ok (MkSys (y_server y) (<[fd := MkTN (c_batch (cl fd)) Hot (c_layout (cl fd)) rest]> cl)))
        | Resp _ _ :: _ => Some (Fail OutOfBounds)
        end
      else None
  | EndHot fd =>
      if bool_decide (fd ∈ fds ∧ c_stage (cl fd) = Hot) then Some (Ok (MkSys (y_server y) (<[fd := set_stage AtBar (cl fd)]> cl))) else None
  | LeaveBar fd =>
      if bool_decide (fd ∈ fds ∧ c_stage (cl fd) = AtBar ∧ c_batch (cl fd) + 2 < 2 ^ 32) && bar_open (server_tenant fd) (c_batch (cl fd)) cl then
        Some (Ok (MkSys (y_server y) (<[fd := MkTN (c_batch (cl fd) + 1) Asking (c_layout (cl fd)) (c_inbox (cl fd))]> cl)))
      else None
  end.

Definition sys_step (y y' : sys) : Prop := ∃ a, sys_act a y = Some (Ok y').

(** All nodes start with [update_alloc(0)] and the layout as it was built. *)
Definition node_init (L : DeclusteredLayout) : tnode := MkTN 0 Asking L [].
Definition sys_init (lays : Z → DeclusteredLayout) : sys := MkSys (MkServer (handle_init plane_static) ∅) (λ fd, node_init (lays fd)).
End system.

(** ** Who has been told to go *)

(** The tenant is at the front of a queue and no longer to be notified. *)
Definition notified (p : plane) (t : Z) : Prop := (∃ b, holds p t b) ∧ t ∉ to_notify p.

(** A tenant that asks for a block is not told yet, and the others are where they
    were. *)
Lemma alloc_notified now t d dur p : plane_ok p → tenant_ok t → ¬ queued p t →
  ∃ b p', handle_alloc now t d dur p = Ok (Z.of_nat b, p') ∧ plane_ok p' ∧ (b < N_BLOCKS)%nat
    ∧ ¬ notified p' t ∧ ∀ t', t' ≠ t → (notified p' t' ↔ notified p t').
Proof.
  intros Hp Ht Hnq. destruct (alloc_run now t d dur p Hp Ht Hnq) as (x & q & p' & _ & Hx & Hq & Hrun & Hp' & Hbq & Hnt).
  exists (Z.to_nat (blk_id x)), p'. rewrite Z2Nat.id by lia. split; [done|]. split; [done|]. split; [lia|].
  pose proof (lookup_lt_Some _ _ _ Hq) as Hlt. split.
  - intros [[b [q' Hb]] Hn]. destruct q as [|h q]; [apply Hn; rewrite Hnt; set_solver|].
    assert (block_queue p' !! Z.to_nat (blk_id x) = Some ((h :: q) ++ [t])) as Hat by (by rewrite Hbq, list_lookup_insert_eq).
    destruct (NoDup_concat_pos _ _ _ _ _ _ (S (length q)) t (po_once _ Hp') Hb (eq_refl : (t :: q') !! 0%nat = Some t) Hat) as [_ E]; [|done].
    by apply (list_lookup_middle (h :: q) [] t).
  - intros t' Hne. unfold notified. assert (t' ∈ to_notify p' ↔ t' ∈ to_notify p) as -> by (rewrite Hnt; destruct q; set_solver).
    apply and_iff_compat_r. split; intros (b & q' & Hb); exists b; unfold holds in *.
    + rewrite Hbq in Hb. apply list_lookup_insert_Some in Hb as [(<- & E & _)|[_ Hb]]; [|by exists q'].
      destruct q as [|h q]; [by injection E as ->|]. injection E as <- _. by exists q.
    + rewrite Hbq. destruct (decide (b = Z.to_nat (blk_id x))) as [->|]; [|exists q'; by rewrite list_lookup_insert_ne].
      simplify_eq. rewrite list_lookup_insert_eq by done. by eexists.
Qed.

Lemma free_notified p b t q : plane_ok p → block_queue p !! b = Some (t :: q) → t ∉ to_notify p →
  ∃ p', handle_free t (Z.of_nat b) p = Ok p' ∧ plane_ok p' ∧ ¬ queued p' t ∧ ∀ t', t' ≠ t → (notified p' t' ↔ notified p t').
Proof.
  intros Hp Hb Hn. destruct (free_run p b t q Hp Hb Hn) as (p' & Hrun & Hp' & Hbq & Hnt). exists p'. split; [done|]. split; [done|].
  pose proof (lookup_lt_Some _ _ _ Hb) as Hlt. split.
  { intros Hq. destruct (free_keeps p p' b t q t 0 Hp Hb Hbq) as [_ H]. by destruct (H Hq). }
  intros t' Hne. unfold notified. split.
  - intros [(b' & q' & Hb') Hn']. rewrite Hbq in Hb'. apply list_lookup_insert_Some in Hb' as [(<- & -> & _)|[Hnb Hb']].
    + rewrite Hnt in Hn'. set_solver.
    + split; [by exists b', q'|]. rewrite Hnt in Hn'. destruct q; set_solver.
  - intros [(b' & q' & Hb') Hn']. assert (b' ≠ b) as Hnb by (intros ->; naive_solver). split.
    + exists b', q'. by rewrite Hbq, list_lookup_insert_ne.
    + rewrite Hnt. destruct q as [|next q]; [done|]. apply not_elem_of_union. split; [|done]. intros ->%elem_of_singleton.
      by destruct (NoDup_concat_pos _ _ _ _ _ _ 0%nat _ (po_once _ Hp) Hb (eq_refl : (t :: next :: q) !! 1%nat = Some next) Hb' eq_refl) as [? _].
Qed.

(** ** What a request does *)

Lemma answer_effect now fd req s : srv_ok s → req_ok s fd req →
  let t := req_tenant req in let i0 := info_of (tenant_info s) t in let same := resp_batch (cached i0) =? req_batch req in
  ∃ b p, answer now fd req s = Ok (MkInfo (MkResp (req_batch req) (Z.of_nat b)) (if same then n_cached_uses i0 else 0) (tenant_num_nodes req) ({[fd]} ∪ sock_fds i0), p)
    ∧ plane_ok p ∧ (same = true → cached i0 = MkResp (req_batch req) (Z.of_nat b))
    ∧ ∀ t', notified p t' ↔ notified (srv_plane s) t' ∧ (t' = t → same = true).
Proof.
  intros Hs (Ht & Hbatch & Hreq). unfold answer. cbn [cached resp_batch expected_n_fds sock_fds n_cached_uses].
  set (t := req_tenant req) in *. set (i0 := info_of _ t) in *. pose proof (so_plane _ Hs) as Hp. cbv zeta.
  destruct Hreq as [Heq|[(Hne & Hnq & Hfree)|(Hne & (b & Hb & Hfree & [q Hq]) & Hnt & Hall & Hfd & Hnum)]].
  - rewrite (proj2 (Z.eqb_eq _ _) Heq). cbn [negb].
    assert (tenant_info s !! t = Some i0 ∧ resp_batch (cached i0) ≠ 0) as [Hi Hnz].
    { unfold i0, info_of in *. destruct (tenant_info s !! t); simpl in *; [by split; [|congruence]|congruence]. }
    destruct (so_cached _ Hs t i0 Hi Hnz) as (b & Hb & Hat). exists b, (srv_plane s).
    assert (cached i0 = MkResp (req_batch req) (Z.of_nat b)) as Hc by (destruct (cached i0); simpl in *; congruence).
    rewrite Hc. split_and!; try done. intros t'. naive_solver.
  - rewrite (proj2 (Z.eqb_neq _ _) Hne). cbn [negb]. rewrite Hfree, Z.eqb_refl. cbn [negb mbind outcome_bind].
    destruct (alloc_notified now t (start_delay_ns req) (duration_ns req) _ Hp Ht Hnq) as (b & p' & -> & Hp' & Hr & Hn1 & Hn2).
    cbn [mbind outcome_bind]. change N_BLOCKS with 32%nat in Hr. rewrite wrap_small by lia.
    exists b, p'. split_and!; try done. intros t'. destruct (decide (t' = t)) as [->|]; [naive_solver|]. rewrite Hn2 by done. naive_solver.
  - rewrite (proj2 (Z.eqb_neq _ _) Hne). cbn [negb].
    assert (b < N_BLOCKS)%nat as Hb32 by (rewrite <-(po_queues _ Hp); by eapply lookup_lt_Some). change N_BLOCKS with 32%nat in Hb32.
    rewrite Hfree, (proj2 (Z.eqb_neq (Z.of_nat b) NO_BLOCK)) by (unfold NO_BLOCK; lia). cbn [negb].
    destruct (free_notified _ b t q Hp Hq Hnt) as (p0 & -> & Hp0 & Hnq & Hn0). cbn [mbind outcome_bind].
    destruct (alloc_notified now t (start_delay_ns req) (duration_ns req) p0 Hp0 Ht Hnq) as (b1 & p' & -> & Hp' & Hr & Hn1 & Hn2).
    cbn [mbind outcome_bind]. change N_BLOCKS with 32%nat in Hr. rewrite wrap_small by lia.
    exists b1, p'. split_and!; try done. intros t'. destruct (decide (t' = t)) as [->|]; [naive_solver|]. rewrite Hn2, Hn0 by done. naive_solver.
Qed.

(** The messages that tell the tenants of [l] to go. *)
Definition go_messages (s : server) (l : list Z) : list srv_msg :=
  concat ((λ t, Ready <$> elements (sock_fds (info_of (tenant_info s) t))) <$> l).

(** The effect of a served request, as the nodes see it: the answer, the new entry
    of the tenant, and the tenants [l] that are told now. *)
Record served (s : server) (fd : Z) (req : alloc_req_t) (b : nat) (l : list Z) (s' : server) : Prop := {
  sv_ok : srv_ok s';
  sv_same : resp_batch (cached (info_of (tenant_info s) (req_tenant req))) = req_batch req →
    cached (info_of (tenant_info s) (req_tenant req)) = MkResp (req_batch req) (Z.of_nat b);
  sv_info : ∀ t, info_of (tenant_info s') t =
    if decide (t = req_tenant req) then
      let i0 := info_of (tenant_info s) t in
      MkInfo (MkResp (req_batch req) (Z.of_nat b)) (u64 ((if resp_batch (cached i0) =? req_batch req then n_cached_uses i0 else 0) + 1))
             (tenant_num_nodes req) ({[fd]} ∪ sock_fds i0)
    else info_of (tenant_info s) t;
  sv_nodup : NoDup l;
  sv_told : ∀ t, t ∈ l → told (tenant_info s') t = true ∧ (t ≠ req_tenant req → ¬ notified (srv_plane s) t);
  sv_notified : ∀ t, notified (srv_plane s') t ↔
    t ∈ l ∨ notified (srv_plane s) t ∧ (t = req_tenant req → resp_batch (cached (info_of (tenant_info s) t)) = req_batch req);
}.

Lemma serve_effect now fd req s : srv_ok s → req_ok s fd req →
  ∃ b l s', serve now fd req s = Ok (Resp fd (MkResp (req_batch req) (Z.of_nat b)) :: go_messages s' l, s') ∧ served s fd req b l s'.
Proof.
  intros Hs Hr. destruct (serve_run now fd req s Hs Hr) as (out & s1 & b1 & Hserve & Hs1 & _).
  destruct (answer_effect now fd req s Hs Hr) as (b & p & Ha & Hp & Hsame & Hn). pose proof Hserve as Hserve'.
  unfold serve in Hserve'. rewrite Ha in Hserve'. cbn [mbind outcome_bind cached n_cached_uses expected_n_fds sock_fds] in Hserve'.
  set (t := req_tenant req) in *. set (i0 := info_of (tenant_info s) t) in *. set (same := resp_batch (cached i0) =? req_batch req) in *.
  set (i3 := MkInfo _ (u64 _) _ _) in Hserve'. set (infos := <[t := i3]> (tenant_info s)) in *.
  assert (∀ t', info_of infos t' = if decide (t' = t) then i3 else info_of (tenant_info s) t') as Hinfo.
  { intros t'. unfold infos, info_of. case_decide as E; [subst; by rewrite lookup_insert_eq|by rewrite lookup_insert_ne]. }
  assert (∀ t', t' ∈ to_notify p → is_Some (infos !! t')) as Hkn.
  { intros t' Hin. destruct (decide (t' = t)) as [->|Hne]; [unfold infos; rewrite lookup_insert_eq; by eexists|].
    destruct (answer_run now fd req s Hs Hr) as (i' & p' & b' & Ha' & Han & _). rewrite Ha in Ha'. simplify_eq.
    destruct (po_notify _ Hp t' Hin) as (b'' & Hh). destruct (an_new _ _ _ _ Han t') as [|Hq]; [apply at_block_queued; exists b''; by apply holds_at|done|].
    destruct (so_known _ Hs t' Hq) as (i' & Hi' & _). unfold infos. rewrite lookup_insert_ne by done. by eexists. }
  set (l := if all_connected i3 then filter (λ t, told infos t = true) (elements (to_notify p)) else []).
  assert (s1 = MkServer (MkPlane (blocks_sorted p) (block_queue p) (tenant_req p) (to_notify p ∖ list_to_set l)) infos
          ∧ Resp fd (MkResp (req_batch req) (Z.of_nat b1)) :: out = Resp fd (MkResp (req_batch req) (Z.of_nat b)) :: go_messages s1 l) as [Es Eo].
  { subst l. destruct (all_connected i3).
    - rewrite notify_all in Hserve' by (intros t' ?%elem_of_elements; by apply Hkn). injection Hserve' as Eb <- <-. split; [done|]. by rewrite Eb.
    - injection Hserve' as Eb <- <-. split; [|by rewrite Eb]. cbn [list_to_set foldr]. destruct p. cbn. by rewrite difference_empty_L. }
  exists b, l, s1. split; [by rewrite <-Eo|]. rewrite Es. split; cbn [tenant_info srv_plane].
  - by rewrite <-Es.
  - intros E. apply Hsame. by apply Z.eqb_eq.
  - intros t'. rewrite Hinfo. destruct (decide (t' = t)) as [->|Hne]; [rewrite !decide_True by done; reflexivity|by rewrite !decide_False].
  - subst l. destruct (all_connected i3); [|constructor]. apply NoDup_filter, NoDup_elements.
  - intros t' Hl. subst l. destruct (all_connected i3); [|by apply not_elem_of_nil in Hl]. apply list_elem_of_filter in Hl as [Ht' Hin%elem_of_elements].
    split; [done|]. intros Hne [Hh Hnin]. destruct (proj2 (Hn t')) as [_ H]; [split; [by split|done]|done].
  - intros t'. assert (t' ∈ l → t' ∈ to_notify p) as Hl.
    { subst l. destruct (all_connected i3); [|by intros ?%not_elem_of_nil]. by intros [_ ?%elem_of_elements]%list_elem_of_filter. }
    transitivity (t' ∈ l ∨ notified p t').
    + unfold notified, holds. cbn [block_queue to_notify]. rewrite not_elem_of_difference, elem_of_list_to_set. split; [tauto|].
      intros [Hin|[? ?]]; [|by auto]. split; [apply (po_notify _ Hp); auto|by auto].
    + rewrite Hn. unfold same. destruct (Z.eqb_spec (resp_batch (cached i0)) (req_batch req)) as [E|E].
      * assert (t' = t → resp_batch (cached (info_of (tenant_info s) t')) = req_batch req) by (by intros ->). tauto.
      * split; (intros [?|[? H]]; [by left|right; split; [done|]]); intros ->; [by specialize (H eq_refl)|exfalso; by apply E, H].
Qed.

(** ** The invariant *)

(** A node with respect to the last batch [B] its tenant has an answer for: it has
    been answered for it; it is behind the barrier of that batch. *)
Definition answered_for (B : Z) (c : tnode) : Prop := (c_batch c + 1 = B ∧ c_stage c ≠ Asking) ∨ (c_batch c = B ∧ B ≠ 0).
Definition passed (B : Z) (c : tnode) : Prop := c_batch c = B ∨ (c_batch c + 1 = B ∧ c_stage c = AtBar).
#[global] Instance answered_for_dec B c : Decision (answered_for B c).
Proof. unfold answered_for. apply _. Defined.

(** What the node has not read yet; [g] says whether its tenant has been told. *)
Definition inbox_of (g : bool) (i : tenant_info_t) (fd : Z) (st : stage) : list srv_msg :=
  match st with
  | Asked => Resp fd (cached i) :: (if g then [Ready fd] else [])
  | Cold => if g then [Ready fd] else []
  | _ => []
  end.

Record node_inv (g : bool) (i : tenant_info_t) (fd : Z) (c : tnode) : Prop := {
  ni_range : 0 ≤ c_batch c ∧ c_batch c + 1 < 2 ^ 32;
  ni_pos : c_batch c + 1 = resp_batch (cached i) ∨ (c_batch c = resp_batch (cached i) ∧ c_stage c = Asking)
           ∨ (c_batch c + 2 = resp_batch (cached i) ∧ c_stage c = AtBar);
  ni_block : answered_for (resp_batch (cached i)) c → c_stage c ≠ Asked → block_num (c_layout c) = alloced_blk_id (cached i);
  ni_first : c_batch c = 0 → c_stage c = Asking → block_num (c_layout c) = NO_BLOCK;
  ni_inbox : c_inbox c = inbox_of g i fd (c_stage c);
  ni_go : (c_batch c + 1 = resp_batch (cached i) ∧ (c_stage c = Hot ∨ c_stage c = AtBar)) ∨ (c_batch c = resp_batch (cached i) ∧ resp_batch (cached i) ≠ 0) →
    g = true;
}.

Section invariant.
Context (fds : gset Z) (tenant : Z → Z).
Notation members := (members fds tenant).

Definition answered_set (B : Z) (cl : Z → tnode) (t : Z) : gset Z := filter (λ fd, answered_for B (cl fd)) (members t).

Record tenant_inv (g : bool) (i : tenant_info_t) (cl : Z → tnode) (t : Z) : Prop := {
  ti_nodes : ∀ fd, fd ∈ members t → node_inv g i fd (cl fd);
  ti_uses : n_cached_uses i = Z.of_nat (size (answered_set (resp_batch (cached i)) cl t));
  ti_fds : sock_fds i = if decide (resp_batch (cached i) ≤ 1) then answered_set (resp_batch (cached i)) cl t else members t;
  ti_exp : resp_batch (cached i) ≠ 0 → expected_n_fds i = Z.of_nat (size (members t));
  ti_some : resp_batch (cached i) ≠ 0 → members t ≠ ∅;
  ti_all : g = true → ∀ fd, fd ∈ members t → answered_for (resp_batch (cached i)) (cl fd);
  ti_bar : ∀ fd fd', fd ∈ members t → fd' ∈ members t → c_batch (cl fd) = resp_batch (cached i) → resp_batch (cached i) ≠ 0 → passed (resp_batch (cached i)) (cl fd');
}.

Definition sys_inv (y : sys) : Prop :=
  srv_ok (y_server y)
  ∧ ∀ t, ∃ g, (g = true ↔ notified (srv_plane (y_server y)) t) ∧ tenant_inv g (info_of (tenant_info (y_server y)) t) (y_nodes y) t.

Lemma elem_members fd t : fd ∈ members t ↔ server_tenant tenant fd = t ∧ fd ∈ fds.
Proof. unfold Tenants.members. by rewrite elem_of_filter. Qed.

(** Only the tenant's own nodes matter. *)
Lemma answered_set_ext B cl cl' t : (∀ fd, fd ∈ members t → cl fd = cl' fd) → answered_set B cl t = answered_set B cl' t.
Proof.
  intros H. apply set_eq. intros fd. unfold answered_set. rewrite !elem_of_filter. split; intros [Ha Hin]; (split; [|done]); [rewrite <-H|rewrite H]; done.
Qed.

Lemma tenant_inv_ext g i cl cl' t : (∀ fd, fd ∈ members t → cl fd = cl' fd) → tenant_inv g i cl t → tenant_inv g i cl' t.
Proof.
  intros H [H1 H2 H3 H4 H4' H5 H6]. split; try done.
  - intros fd Hin. rewrite <-H by done. by apply H1.
  - by rewrite <-(answered_set_ext _ cl cl').
  - by rewrite <-(answered_set_ext _ cl cl').
  - intros Hg fd Hin. rewrite <-H by done. by apply H5.
  - intros fd fd' Hin Hin'. rewrite <-!H by done. by apply H6.
Qed.

(** A move of one node that the server does not take part in. *)
Lemma tenant_inv_local g i cl t fd c' : let B := resp_batch (cached i) in
  tenant_inv g i cl t → fd ∈ members t → node_inv g i fd c' →
  (answered_for B c' ↔ answered_for B (cl fd)) →
  (passed B (cl fd) → passed B c') →
  (c_batch c' = B → B ≠ 0 → ∀ fd', fd' ∈ members t → passed B (if decide (fd' = fd) then c' else cl fd')) →
  tenant_inv g i (<[fd := c']> cl) t.
Proof.
  intros B [H1 H2 H3 H4 H4' H5 H6] Hfd Hni Hans Hpass Hbar.
  assert (∀ fd', (<[fd := c']> cl : Z → tnode) fd' = if decide (fd' = fd) then c' else cl fd') as Hup.
  { intros fd'. destruct (decide (fd' = fd)) as [->|]; [apply fn_lookup_insert|by apply fn_lookup_insert_ne]. }
  assert (answered_set B (<[fd := c']> cl) t = answered_set B cl t) as Has.
  { apply set_eq. intros fd'. unfold answered_set. rewrite !elem_of_filter, Hup. destruct (decide (fd' = fd)) as [->|]; [by rewrite Hans|done]. }
  split; fold B; rewrite ?Has; try done.
  - intros fd' Hin. rewrite Hup. destruct (decide (fd' = fd)) as [->|]; [done|by apply H1].
  - intros Hg fd' Hin. rewrite Hup. destruct (decide (fd' = fd)) as [->|]; [apply Hans|]; by apply H5.
  - intros f1 f2 Hf1 Hf2. rewrite !Hup. destruct (decide (f1 = fd)) as [->|Hn1]; [intros; by apply Hbar|].
    intros Hb Hz. pose proof (H6 f1 f2 Hf1 Hf2 Hb Hz) as Hp. destruct (decide (f2 = fd)) as [->|]; [by apply Hpass|done].
Qed.

(** ** Answers and notifications *)

Lemma node_inv_cached g i i' fd c : cached i = cached i' → node_inv g i fd c → node_inv g i' fd c.
Proof. intros E [H1 H2 H3 H4 H5 H6]. split; rewrite <-?E; try done. rewrite H5. unfold inbox_of. by rewrite E. Qed.

Lemma set_lookup cl fd (c : tnode) fd' : (<[fd := c]> cl : Z → tnode) fd' = if decide (fd' = fd) then c else cl fd'.
Proof. destruct (decide (fd' = fd)) as [->|]; [apply fn_lookup_insert|by apply fn_lookup_insert_ne]. Qed.

(** The node after its request has been taken. *)
Definition told_answer (fd : Z) (r : alloc_resp_t) (c : tnode) : tnode := MkTN (c_batch c) Asked (c_layout c) (c_inbox c ++ [Resp fd r]).

Lemma elem_answered B cl t fd : fd ∈ answered_set B cl t ↔ answered_for B (cl fd) ∧ fd ∈ members t.
Proof. unfold answered_set. by rewrite elem_of_filter. Qed.

(** The other nodes ask for the batch their tenant has an answer for. *)
Lemma answer_same g i cl t fd : let B := resp_batch (cached i) in
  tenant_inv g i cl t → fd ∈ members t → c_stage (cl fd) = Asking → B = c_batch (cl fd) + 1 →
  tenant_inv false (MkInfo (cached i) (n_cached_uses i + 1) (Z.of_nat (size (members t))) ({[fd]} ∪ sock_fds i)) (<[fd := told_answer fd (cached i) (cl fd)]> cl) t
  ∧ g = false.
Proof.
  intros B Hti Hfd Hst HB. pose proof Hti as [H1 H2 H3 H4 H4' H5 H6]. set (cl' := <[fd := _]> cl).
  assert (fd ∉ answered_set B cl t) as Hnot by (rewrite elem_answered; unfold answered_for; lia || (intros [[[? ?]|[? ?]] _]; [done|lia])).
  assert (g = false) as ->.
  { destruct g; [|done]. destruct Hnot. apply elem_answered. split; [by apply H5|done]. }
  assert (answered_set B cl' t = {[fd]} ∪ answered_set B cl t) as Has.
  { apply set_eq. intros fd'. rewrite elem_of_union, elem_of_singleton, !elem_answered. subst cl'. rewrite set_lookup.
    destruct (decide (fd' = fd)) as [->|]; [|tauto]. unfold answered_for. cbn [told_answer c_batch c_stage]. split; [by left|]. intros _. split; [left; by split|done]. }
  split; [|done]. split; cbn [cached n_cached_uses expected_n_fds sock_fds]; fold B; rewrite ?Has.
  - intros fd' Hin. subst cl'. rewrite set_lookup. destruct (decide (fd' = fd)) as [->|]; [|eapply node_inv_cached; [|by apply H1]; done].
    destruct (H1 fd Hfd) as [N1 N2 N3 N4 N5 N6]. rewrite Hst in N5. split; cbn [told_answer c_batch c_stage c_layout c_inbox cached]; fold B; try done.
    + by left.
    + by rewrite N5.
    + intros [[_ [?|?]]|[? _]]; [done..|lia].
  - rewrite size_union by set_solver. rewrite size_singleton, H2. fold B. lia.
  - rewrite H3. fold B. destruct (decide (B ≤ 1)); [done|set_solver].
  - done.
  - intros _. set_solver.
  - done.
  - intros f1 f2 Hf1 Hf2. subst cl'. rewrite !set_lookup. intros Hb Hz. exfalso. destruct (decide (f1 = fd)) as [->|]; [cbn [told_answer c_batch] in Hb; lia|].
    destruct (H6 f1 fd Hf1 Hfd Hb Hz) as [?|[_ ?]]; [subst B; lia|congruence].
Qed.

(** The first node asks for the next batch. *)
Lemma answer_next g i cl t fd r : let B := resp_batch (cached i) in
  0 ≤ B → tenant_inv g i cl t → fd ∈ members t → c_stage (cl fd) = Asking → c_batch (cl fd) = B → resp_batch r = B + 1 →
  tenant_inv false (MkInfo r 1 (Z.of_nat (size (members t))) ({[fd]} ∪ sock_fds i)) (<[fd := told_answer fd r (cl fd)]> cl) t
  ∧ (B ≠ 0 → g = true ∧ sock_fds i = members t).
Proof.
  intros B HB0 Hti Hfd Hst HB Hr. pose proof Hti as [H1 H2 H3 H4 H4' H5 H6]. set (cl' := <[fd := _]> cl).
  assert (B ≠ 0 → g = true ∧ sock_fds i = members t) as Hg.
  { intros Hz. assert (g = true) as Hg by (apply (ni_go _ _ _ _ (H1 fd Hfd)); right; split; [exact HB|exact Hz]). split; [done|]. rewrite H3. fold B. destruct (decide (B ≤ 1)); [|done].
    apply set_eq. intros fd'. rewrite elem_answered. split; [tauto|]. intros Hin. split; [by apply H5|done]. }
  assert (∀ fd', fd' ∈ members t → c_batch (cl fd') = B ∧ c_stage (cl fd') = Asking ∨ c_batch (cl fd') + 1 = B ∧ c_stage (cl fd') = AtBar) as Hoth.
  { intros fd' Hin. pose proof (ni_pos _ _ _ _ (H1 fd' Hin)) as Hpos. pose proof (ni_range _ _ _ _ (H1 fd' Hin)) as Hrg. fold B in Hpos. destruct (decide (B = 0)) as [Hz|Hz].
    - destruct Hpos as [?|[?|[? _]]]; [lia|by left|lia].
    - destruct (H6 fd fd' Hfd Hin HB Hz) as [Hp|Hp]; [|by right]. left. split; [done|]. destruct Hpos as [?|[[_ ?]|[? _]]]; [fold B in Hp; lia|done|fold B in Hp; lia]. }
  assert (answered_set (B + 1) cl' t = {[fd]}) as Has.
  { apply set_eq. intros fd'. rewrite elem_of_singleton, elem_answered. subst cl'. rewrite set_lookup. destruct (decide (fd' = fd)) as [->|Hne].
    - split; [done|]. intros _. split; [|done]. left. cbn [told_answer c_batch c_stage]. by rewrite HB.
    - split; [|done]. intros [Ha Hin]. exfalso. unfold answered_for in Ha. destruct (Hoth fd' Hin) as [[E1 E2]|[E1 E2]]; rewrite E2 in Ha; destruct Ha as [[? ?]|[? ?]]; (done || lia). }
  split; [|done]. split; cbn [cached n_cached_uses expected_n_fds sock_fds]; rewrite ?Hr, ?Has.
  - intros fd' Hin. subst cl'. rewrite set_lookup. pose proof (ni_range _ _ _ _ (H1 fd' Hin)) as Hrg. pose proof (ni_inbox _ _ _ _ (H1 fd' Hin)) as Hib.
    pose proof (ni_first _ _ _ _ (H1 fd' Hin)) as Hfi. destruct (decide (fd' = fd)) as [->|Hne].
    + rewrite Hst in Hib. split; cbn [told_answer c_batch c_stage c_layout c_inbox cached]; rewrite ?Hr; try done.
      * left. by rewrite HB.
      * by rewrite Hib.
      * intros [[_ [?|?]]|[? _]]; [done..|lia].
    + destruct (Hoth fd' Hin) as [[E1 E2]|[E1 E2]]; rewrite E2 in Hib; (split; cbn [cached]; rewrite ?Hr, ?E2; unfold answered_for; rewrite ?E2; try done; try lia).
      * intros [[_ ?]|[? _]]; [done|lia].
      * intros Hb0 _. by apply Hfi.
      * intros [[_ [?|?]]|[? _]]; [done..|lia].
      * right; right. split; [lia|done].
  - by rewrite size_singleton.
  - destruct (decide (B + 1 ≤ 1)) as [Hle|Hle].
    + rewrite H3. fold B. rewrite decide_True by lia. assert (B = 0) as Hz by lia. cut (answered_set B cl t = ∅); [set_solver|].
      apply set_eq. intros fd'. rewrite elem_answered. split; [|set_solver]. intros [[[? _]|[_ ?]] Hin]; [|lia]. pose proof (ni_range _ _ _ _ (H1 fd' Hin)). lia.
    + destruct Hg as [_ ->]; [lia|]. set_solver.
  - done.
  - intros _. set_solver.
  - done.
  - intros f1 f2 Hf1 Hf2. subst cl'. rewrite !set_lookup. intros Hb Hz. exfalso. destruct (decide (f1 = fd)) as [->|]; [cbn [told_answer c_batch] in Hb; lia|].
    destruct (Hoth f1 Hf1) as [[? _]|[? _]]; lia.
Qed.

(** The tenant is told to go. *)
Lemma told_all i cl t g : tenant_inv g i cl t → resp_batch (cached i) ≠ 0 → all_connected i && (n_cached_uses i =? expected_n_fds i) = true →
  sock_fds i = members t ∧ ∀ fd, fd ∈ members t → answered_for (resp_batch (cached i)) (cl fd).
Proof.
  intros [H1 H2 H3 H4 H4' H5 H6] Hz [_ Hu%Z.eqb_eq]%andb_prop. set (B := resp_batch (cached i)) in *.
  assert (answered_set B cl t = members t) as Has.
  { apply set_subseteq_size_eq; [intros fd; rewrite elem_answered; tauto|]. rewrite H2, (H4 Hz) in Hu. lia. }
  split; [rewrite H3, Has; by destruct (decide (B ≤ 1))|]. intros fd Hfd. rewrite <-Has in Hfd. by apply elem_answered in Hfd as [? _].
Qed.

Lemma notify_inv i cl cl' t : tenant_inv false i cl t → (∀ fd, fd ∈ members t → answered_for (resp_batch (cached i)) (cl fd)) →
  (∀ fd, fd ∈ members t → cl' fd = push_msg (Ready fd) (cl fd)) → tenant_inv true i cl' t.
Proof.
  intros Hti Hall Hcl. pose proof Hti as [H1 H2 H3 H4 H4' H5 H6]. set (B := resp_batch (cached i)) in *.
  assert (∀ fd, fd ∈ members t → c_batch (cl fd) + 1 = B ∧ (c_stage (cl fd) = Asked ∨ c_stage (cl fd) = Cold)) as Hst.
  { intros fd Hfd. pose proof (ni_go _ _ _ _ (H1 fd Hfd)) as Hgo. fold B in Hgo. destruct (Hall fd Hfd) as [[Hb Hs]|Hb]; [|by specialize (Hgo (or_intror Hb))].
    split; [done|]. destruct (c_stage (cl fd)); [done|by left|by right| |]; exfalso; (assert (false = true) by (apply Hgo; left; split; [done|]; auto)); done. }
  assert (answered_set B cl' t = answered_set B cl t) as Has.
  { apply set_eq. intros fd. rewrite !elem_answered. split; intros [Ha Hin]; (split; [|done]); [by apply Hall|]. rewrite Hcl by done. exact Ha. }
  split; fold B; rewrite ?Has; try done.
  - intros fd Hfd. destruct (H1 fd Hfd) as [N1 N2 N3 N4 N5 N6]. rewrite (Hcl fd Hfd). destruct (Hst fd Hfd) as [Hb Hs].
    split; cbn [push_msg c_batch c_stage c_layout c_inbox]; try done. rewrite N5. by destruct Hs as [-> | ->].
  - intros _ fd Hfd. rewrite Hcl by done. exact (Hall fd Hfd).
  - intros f1 f2 Hf1 Hf2 Hb Hz. rewrite (Hcl f1 Hf1) in Hb. cbn [push_msg c_batch] in Hb. destruct (Hst f1 Hf1). lia.
Qed.
End invariant.

(** ** Deliveries *)

Lemma deliver_at out cl fd : foldl send_msg cl out fd = foldl (λ c m, push_msg m c) (cl fd) (filter (λ m, msg_fd m = fd) out).
Proof.
  revert cl. induction out as [|m out IH]; intros cl; cbn [foldl]; [done|]. rewrite IH. unfold send_msg. destruct (decide (msg_fd m = fd)) as [E|E].
  - rewrite filter_cons_True by done. cbn [foldl]. rewrite <-E at 1. by rewrite fn_lookup_alter, E.
  - rewrite filter_cons_False by done. by rewrite fn_lookup_alter_ne.
Qed.

Lemma filter_ready fd l : NoDup l → filter (λ m, msg_fd m = fd) (Ready <$> l) = if decide (fd ∈ l) then [Ready fd] else [].
Proof.
  induction 1 as [|x l Hx Hl IH]; [done|]. rewrite fmap_cons. destruct (decide (x = fd)) as [->|Hne].
  - rewrite filter_cons_True, IH, decide_False, decide_True by (done || left). done.
  - rewrite filter_cons_False, IH by done. by apply decide_ext; rewrite elem_of_cons; naive_solver.
Qed.

Section run.
Context (fds : gset Z) (tenant : Z → Z).
Context (Htenant : ∀ fd, fd ∈ fds → 0 ≤ tenant fd < Z.of_nat N_MAX_TENANTS - 1) (Hfds : Z.of_nat (size fds) < 2 ^ 32).
Notation members := (members fds tenant).
Notation server_tenant := (server_tenant tenant).

(** A node gets one message when its tenant is told, and none otherwise. *)
Lemma go_filter s l fd : NoDup l → fd ∈ fds → (∀ t, t ∈ l → sock_fds (info_of (tenant_info s) t) = members t) →
  filter (λ m, msg_fd m = fd) (go_messages s l) = if decide (server_tenant fd ∈ l) then [Ready fd] else [].
Proof.
  intros Hnd Hfd. unfold go_messages. induction Hnd as [|t l Ht Hnd IH]; intros Hs; [done|]. cbn [fmap list_fmap concat].
  rewrite filter_app, filter_ready by apply NoDup_elements. rewrite (Hs t) by left. rewrite IH by (intros t' ?; apply Hs; by right).
  destruct (decide (server_tenant fd = t)) as [E|E].
  - rewrite decide_True by (by apply elem_of_elements, elem_members). rewrite decide_False by (by rewrite E). rewrite decide_True by (rewrite E; left). done.
  - rewrite decide_False by (rewrite elem_of_elements, elem_members; tauto). cbn [app]. apply decide_ext. rewrite elem_of_cons. naive_solver.
Qed.

Lemma tenant_range fd : fd ∈ fds → server_tenant fd = 1 + tenant fd ∧ tenant_ok (server_tenant fd).
Proof.
  intros Hfd. pose proof (Htenant fd Hfd) as H. unfold tenant_ok, Tenants.server_tenant. change (Z.of_nat N_MAX_TENANTS) with 150 in *.
  rewrite wrap_small by lia. lia.
Qed.

Lemma members_size t : Z.of_nat (size (members t)) < 2 ^ 32.
Proof. assert (size (members t) ≤ size fds)%nat by (apply subseteq_size; intros fd; rewrite elem_members; tauto). lia. Qed.

Lemma fd_member fd : fd ∈ fds → fd ∈ members (server_tenant fd).
Proof. intros H. by apply elem_members. Qed.

(** Requests follow the protocol. *)
Lemma request_ok s cl fd g : srv_ok s → fd ∈ fds → c_stage (cl fd) = Asking →
  (g = true ↔ notified (srv_plane s) (server_tenant fd)) → tenant_inv fds tenant g (info_of (tenant_info s) (server_tenant fd)) cl (server_tenant fd) →
  req_ok s fd (request fds tenant fd (cl fd)) ∧ req_batch (request fds tenant fd (cl fd)) = c_batch (cl fd) + 1
  ∧ req_tenant (request fds tenant fd (cl fd)) = server_tenant fd ∧ tenant_num_nodes (request fds tenant fd (cl fd)) = Z.of_nat (size (members (server_tenant fd))).
Proof.
  intros Hs Hfd Hst Hg Hti. pose proof (fd_member fd Hfd) as Hin. pose proof (ti_nodes _ _ _ _ _ _ Hti fd Hin) as [N1 N2 N3 N4 N5 N6].
  destruct (tenant_range fd Hfd) as [_ Htok]. assert (req_batch (request fds tenant fd (cl fd)) = c_batch (cl fd) + 1) as Hb.
  { unfold request, alloc_request. cbn [req_batch]. rewrite wrap_small; lia. }
  assert (tenant_num_nodes (request fds tenant fd (cl fd)) = Z.of_nat (size (members (server_tenant fd)))) as Hnn.
  { unfold request, alloc_request, num_nodes. cbn [tenant_num_nodes]. apply wrap_small. pose proof (members_size (server_tenant fd)). lia. }
  split; [|done]. unfold req_ok. change (req_tenant (request fds tenant fd (cl fd))) with (server_tenant fd). rewrite Hb, Hnn.
  set (t := server_tenant fd) in *. set (i := info_of (tenant_info s) t) in *. split; [done|]. split; [lia|].
  destruct N2 as [N2|[[N2 _]|[_ N2]]]; [by left| |congruence]. right. destruct (decide (resp_batch (cached i) = 0)) as [Hz|Hz].
  - left. split; [lia|]. split.
    + intros Hq. destruct (so_known _ Hs t Hq) as (i' & Hi' & Hnz). unfold i, info_of in Hz. by rewrite Hi' in Hz.
    + unfold request, alloc_request. cbn [blk_to_free]. rewrite N4 by (done || lia). done.
  - right. split; [lia|]. assert (g = true) as Hg1 by (apply N6; by right). pose proof (proj1 Hg Hg1) as [[b' Hh] Hnt].
    assert (tenant_info s !! t = Some i) as Hi.
    { unfold i, info_of in *. destruct (tenant_info s !! t); [done|]. by destruct Hz. }
    destruct (so_cached _ Hs t i Hi Hz) as (b & Hba & q & Hq & [j Hj]%list_elem_of_lookup). destruct Hh as [q' Hq'].
    destruct (NoDup_concat_pos _ _ _ _ _ _ 0%nat _ (po_once _ (so_plane _ Hs)) Hq Hj Hq' eq_refl) as [-> ->].
    assert (b' < N_BLOCKS)%nat as Hb32 by (rewrite <-(po_queues _ (so_plane _ Hs)); by eapply lookup_lt_Some). change N_BLOCKS with 32%nat in Hb32.
    assert (sock_fds i = members t) as Hsf.
    { rewrite (ti_fds _ _ _ _ _ _ Hti). destruct (decide (resp_batch (cached i) ≤ 1)); [|done]. apply set_eq. intros x. rewrite elem_answered.
      split; [tauto|]. intros Hx. split; [|done]. by apply (ti_all _ _ _ _ _ _ Hti). }
    split_and!.
    + exists b'. split; [done|]. split; [|by exists q']. unfold request, alloc_request. cbn [blk_to_free]. rewrite N3; [rewrite Hba; apply wrap_small; lia|by right|congruence].
    + done.
    + unfold all_connected. rewrite (ti_exp _ _ _ _ _ _ Hti Hz), Hsf. apply Z.eqb_refl.
    + by rewrite Hsf.
    + by rewrite (ti_exp _ _ _ _ _ _ Hti Hz).
Qed.

Notation tenant_inv := (tenant_inv fds tenant).

(** The server takes a request: its own tenant, before anybody is told. *)
Lemma served_asker s s' cl fd b l g : let t := server_tenant fd in let r := MkResp (c_batch (cl fd) + 1) (Z.of_nat b) in
  fd ∈ fds → c_stage (cl fd) = Asking → 0 ≤ resp_batch (cached (info_of (tenant_info s) t)) →
  (g = true ↔ notified (srv_plane s) t) → tenant_inv g (info_of (tenant_info s) t) cl t →
  req_batch (request fds tenant fd (cl fd)) = c_batch (cl fd) + 1 → tenant_num_nodes (request fds tenant fd (cl fd)) = Z.of_nat (size (members t)) →
  served s fd (request fds tenant fd (cl fd)) b l s' →
  tenant_inv false (info_of (tenant_info s') t) (<[fd := told_answer fd r (cl fd)]> cl) t ∧ (t ∉ l → ¬ notified (srv_plane s') t).
Proof.
  intros t r Hfd Hst HB0 Hg Hti Hb Hn Hsv. pose proof (fd_member fd Hfd) as Hin. fold t in Hin. set (i := info_of (tenant_info s) t) in *.
  pose proof (sv_info _ _ _ _ _ _ Hsv t) as Hi. change (req_tenant (request fds tenant fd (cl fd))) with t in Hi. rewrite decide_True in Hi by done.
  cbv zeta in Hi. fold i in Hi. rewrite Hb, Hn in Hi. fold r in Hi. pose proof (sv_notified _ _ _ _ _ _ Hsv t) as Hnot.
  change (req_tenant (request fds tenant fd (cl fd))) with t in Hnot. rewrite Hb in Hnot. fold i in Hnot.
  pose proof (sv_same _ _ _ _ _ _ Hsv) as Hsame. change (req_tenant (request fds tenant fd (cl fd))) with t in Hsame. rewrite Hb in Hsame. fold i r in Hsame.
  assert (n_cached_uses i + 1 < 2 ^ 64) as Hsmall.
  { rewrite (ti_uses _ _ _ _ _ _ Hti). assert (size (answered_set fds tenant (resp_batch (cached i)) cl t) ≤ size (members t))%nat by (apply subseteq_size; intros x; rewrite elem_answered; tauto).
    pose proof (members_size t). lia. }
  pose proof (ni_pos _ _ _ _ (ti_nodes _ _ _ _ _ _ Hti fd Hin)) as Hpos. rewrite Hst in Hpos. destruct (Z.eqb_spec (resp_batch (cached i)) (c_batch (cl fd) + 1)) as [E|E].
  - destruct (answer_same fds tenant g i cl t fd Hti Hin Hst E) as [H1 ->]. rewrite <-(Hsame E), Hi, wrap_small, (Hsame E); [split; [by rewrite <-(Hsame E)|]|].
    + intros Hl. rewrite Hnot. intros [?|[Hx _]]; [done|]. by apply Hg in Hx.
    + rewrite (ti_uses _ _ _ _ _ _ Hti) in Hsmall |- *. lia.
  - destruct Hpos as [?|[[Hpos _]|[_ ?]]]; [lia| |done]. destruct (answer_next fds tenant g i cl t fd r HB0 Hti Hin Hst Hpos) as [H1 _]; [cbn; lia|].
    rewrite Hi. split; [exact H1|]. intros Hl. rewrite Hnot. intros [?|[_ Hx]]; [done|]. by specialize (Hx eq_refl).
Qed.

Lemma batch_nonneg s cl g t : srv_ok s → tenant_inv g (info_of (tenant_info s) t) cl t → members t ≠ ∅ → 0 ≤ resp_batch (cached (info_of (tenant_info s) t)).
Proof.
  intros _ Hti [fd Hfd]%set_choose_L. pose proof (ti_nodes _ _ _ _ _ _ Hti fd Hfd) as [N1 N2 _ _ _ _]. lia.
Qed.

Lemma serve_inv now fd y : sys_inv fds tenant y → fd ∈ fds → c_stage (y_nodes y fd) = Asking →
  ∃ y', sys_act fds tenant (Serve now fd) y = Some (Ok y') ∧ sys_inv fds tenant y'.
Proof.
  destruct y as [s cl]. cbn [y_nodes]. intros [Hs Hinv] Hfd Hst. cbn [y_server y_nodes] in *. set (t := server_tenant fd).
  destruct (Hinv t) as (g & Hg & Hti). pose proof (fd_member fd Hfd) as Hin. fold t in Hin.
  destruct (request_ok s cl fd g Hs Hfd Hst Hg Hti) as (Hreq & Hb & _ & Hn). fold t in Hn.
  destruct (serve_effect now fd _ s Hs Hreq) as (b & l & s' & E & Hsv). set (r := MkResp (c_batch (cl fd) + 1) (Z.of_nat b)).
  unfold sys_act. cbn [y_server y_nodes]. rewrite bool_decide_eq_true_2 by done. rewrite turn_request by apply alloc_request_typed. rewrite E. cbn [mbind outcome_bind].
  eexists. split; [done|]. rewrite Hb. fold r. set (cl1 := <[fd := told_answer fd r (cl fd)]> cl). set (cl2 := foldl send_msg _ _).
  assert (∀ fd', cl2 fd' = foldl (λ c m, push_msg m c) (cl1 fd') (filter (λ m, msg_fd m = fd') (go_messages s' l))) as Hcl2.
  { intros fd'. subst cl2. cbn [foldl]. rewrite deliver_at. f_equal. unfold send_msg. cbn [msg_fd]. subst cl1. rewrite (set_lookup _ _ _ fd').
    destruct (decide (fd' = fd)) as [->|]; [rewrite fn_lookup_alter, fn_lookup_insert|rewrite fn_lookup_alter_ne, fn_lookup_insert_ne by done]; done. }
  destruct (served_asker s s' cl fd b l g Hfd Hst) as [Hask Hask2]; try done.
  { apply (batch_nonneg s cl g t Hs Hti). set_solver. }
  assert (∀ t', ∃ g1, tenant_inv g1 (info_of (tenant_info s') t') cl1 t' ∧ (t' ∈ l → g1 = false) ∧ (t' ∉ l → (g1 = true ↔ notified (srv_plane s') t'))) as Hmid.
  { intros t'. destruct (decide (t' = t)) as [->|Hne]; [exists false; split; [exact Hask|]; split; [done|]; intros Hl; split; [done|]; intros Hx; by destruct (Hask2 Hl)|].
    destruct (Hinv t') as (g1 & Hg1 & Hti1). exists g1. pose proof (sv_info _ _ _ _ _ _ Hsv t') as Hi. change (req_tenant (request fds tenant fd (cl fd))) with t in Hi. rewrite decide_False in Hi by done.
    split; [|split].
    - rewrite Hi. eapply tenant_inv_ext; [|exact Hti1]. intros fd' Hin'. subst cl1. rewrite set_lookup, decide_False; [done|]. intros ->.
      apply elem_members in Hin' as [E' _]. by apply Hne.
    - intros Hl. destruct (sv_told _ _ _ _ _ _ Hsv t' Hl) as [_ Hx]. destruct g1; [|done]. exfalso. apply Hx; [done|]. by apply Hg1.
    - intros Hl. rewrite (sv_notified _ _ _ _ _ _ Hsv t'), Hg1. change (req_tenant (request fds tenant fd (cl fd))) with t. naive_solver. }
  assert (∀ t', t' ∈ l → sock_fds (info_of (tenant_info s') t') = members t' ∧ ∀ fd', fd' ∈ members t' → answered_for (resp_batch (cached (info_of (tenant_info s') t'))) (cl1 fd')) as Hl.
  { intros t' Hl. destruct (Hmid t') as (g1 & Hti1 & _ & _). apply (told_all fds tenant _ cl1 t' g1 Hti1); [|by apply (sv_told _ _ _ _ _ _ Hsv t' Hl)].
    pose proof (sv_ok _ _ _ _ _ _ Hsv) as Hs'. destruct (proj2 (sv_notified _ _ _ _ _ _ Hsv t') (or_introl Hl)) as [[b' Hh] _].
    destruct (so_known _ Hs' t') as (i' & Hi' & Hnz); [apply at_block_queued; exists b'; by apply holds_at|]. unfold info_of. by rewrite Hi'. }
  split; [exact (sv_ok _ _ _ _ _ _ Hsv)|]. intros t'. cbn [y_server y_nodes]. destruct (Hmid t') as (g1 & Hti1 & Hg1 & Hg2).
  assert (∀ fd', fd' ∈ members t' → filter (λ m, msg_fd m = fd') (go_messages s' l) = if decide (t' ∈ l) then [Ready fd'] else []) as Hgo.
  { intros fd' [<- Hf]%elem_members. apply go_filter; [apply (sv_nodup _ _ _ _ _ _ Hsv)|done|]. intros t'' Hl''. by apply Hl. }
  destruct (decide (t' ∈ l)) as [Hin'|Hin'].
  - exists true. split; [split; [|done]; intros _; apply (sv_notified _ _ _ _ _ _ Hsv); by left|]. rewrite (Hg1 Hin') in Hti1.
    apply (notify_inv fds tenant _ cl1 cl2 t' Hti1); [by apply Hl|]. intros fd' Hf. rewrite Hcl2, (Hgo fd' Hf). done.
  - exists g1. split; [by apply Hg2|]. eapply tenant_inv_ext; [|exact Hti1]. intros fd' Hf. rewrite Hcl2, (Hgo fd' Hf). done.
Qed.

(** ** The nodes' own moves *)

Lemma local_inv s cl fd c' : let t := server_tenant fd in let B := resp_batch (cached (info_of (tenant_info s) t)) in
  sys_inv fds tenant (MkSys s cl) → fd ∈ fds →
  (∀ g, tenant_inv g (info_of (tenant_info s) t) cl t → node_inv g (info_of (tenant_info s) t) fd c'
     ∧ (answered_for B c' ↔ answered_for B (cl fd)) ∧ (passed B (cl fd) → passed B c')
     ∧ (c_batch c' = B → B ≠ 0 → ∀ fd', fd' ∈ members t → passed B (if decide (fd' = fd) then c' else cl fd'))) →
  sys_inv fds tenant (MkSys s (<[fd := c']> cl)).
Proof.
  intros t B [Hs Hinv] Hfd H. cbn [y_server y_nodes] in *. split; [done|]. cbn [y_server y_nodes]. intros t'. destruct (Hinv t') as (g & Hg & Hti).
  exists g. split; [done|]. destruct (decide (t' = t)) as [->|Hne].
  - destruct (H g Hti) as (H1 & H2 & H3 & H4). apply tenant_inv_local; try done. by apply fd_member.
  - eapply tenant_inv_ext; [|exact Hti]. intros fd' Hf. rewrite set_lookup, decide_False; [done|]. intros ->. by apply elem_members in Hf as [? _].
Qed.

(** A node that does not leave the barrier stays on its side of it. *)
Lemma same_batch_bar g i cl t fd c' : let B := resp_batch (cached i) in tenant_inv g i cl t → fd ∈ members t → c_batch c' = c_batch (cl fd) →
  (passed B (cl fd) → passed B c') → c_batch c' = B → B ≠ 0 → ∀ fd', fd' ∈ members t → passed B (if decide (fd' = fd) then c' else cl fd').
Proof.
  intros B Hti Hfd Hb Hp HB Hz fd' Hf. rewrite Hb in HB. pose proof (ti_bar _ _ _ _ _ _ Hti fd) as H.
  destruct (decide (fd' = fd)) as [->|]; [apply Hp|]; by apply H.
Qed.

Lemma take_answer_inv fd y : sys_inv fds tenant y → fd ∈ fds → c_stage (y_nodes y fd) = Asked →
  ∃ y', sys_act fds tenant (TakeAnswer fd) y = Some (Ok y') ∧ sys_inv fds tenant y'.
Proof.
  destruct y as [s cl]. cbn [y_nodes]. intros Hinv Hfd Hst. pose proof Hinv as [_ Hall]. cbn [y_server y_nodes] in Hall. set (t := server_tenant fd) in *.
  destruct (Hall t) as (g & _ & Hti). pose proof (fd_member fd Hfd) as Hin. pose proof (ti_nodes _ _ _ _ _ _ Hti fd Hin) as [N1 N2 N3 N4 N5 N6].
  rewrite Hst in N2, N5. cbn [inbox_of] in N5. destruct N2 as [N2|[[_ ?]|[_ ?]]]; [|done..]. unfold sys_act. cbn [y_nodes y_server]. rewrite bool_decide_eq_true_2, N5 by done.
  unfold update_alloc, alloc_request. cbn [req_batch]. rewrite wrap_small by lia. replace (1 + c_batch (cl fd)) with (resp_batch (cached (info_of (tenant_info s) t))) by lia.
  rewrite Z.eqb_refl. cbn [assert mbind outcome_bind]. eexists. split; [done|]. apply local_inv; [done|done|]. fold t. intros g' Hti'.
  pose proof (ti_nodes _ _ _ _ _ _ Hti' fd Hin) as [M1 M2 M3 M4 M5 M6]. rewrite Hst in M5. cbn [inbox_of] in M5. rewrite N5 in M5. injection M5 as M5.
  assert (∀ B, passed B (cl fd) → c_batch (cl fd) = B) as Hp by (intros B [?|[_ ?]]; [done|congruence]). split_and!.
  - split; cbn [c_batch c_stage c_layout c_inbox]; try done.
    + by left.
    + intros [[_ [?|?]]|?]; [done..|]. apply M6. by right.
  - unfold answered_for. cbn [c_batch c_stage]. rewrite Hst. naive_solver.
  - intros H. left. by apply Hp.
  - apply (same_batch_bar g' _ _ t); try done. intros H. left. by apply Hp.
Qed.

Lemma take_ready_inv fd y : sys_inv fds tenant y → fd ∈ fds → c_stage (y_nodes y fd) = Cold →
  (c_inbox (y_nodes y fd) = [] ∧ sys_act fds tenant (TakeReady fd) y = None)
  ∨ ∃ y', sys_act fds tenant (TakeReady fd) y = Some (Ok y') ∧ sys_inv fds tenant y'.
Proof.
  destruct y as [s cl]. cbn [y_nodes]. intros Hinv Hfd Hst. pose proof Hinv as [_ Hall]. cbn [y_server y_nodes] in Hall. set (t := server_tenant fd) in *.
  destruct (Hall t) as (g & _ & Hti). pose proof (fd_member fd Hfd) as Hin. pose proof (ti_nodes _ _ _ _ _ _ Hti fd Hin) as [N1 N2 N3 N4 N5 N6].
  rewrite Hst in N2, N5. cbn [inbox_of] in N5. unfold sys_act. cbn [y_nodes y_server]. rewrite bool_decide_eq_true_2, N5 by done.
  destruct g; [right|by left]. eexists. split; [done|]. apply local_inv; [done|done|]. fold t. intros g' Hti'.
  pose proof (ti_nodes _ _ _ _ _ _ Hti' fd Hin) as [M1 M2 M3 M4 M5 M6]. rewrite Hst in M2, M5. cbn [inbox_of] in M5. rewrite N5 in M5. destruct g'; [|done].
  destruct M2 as [M2|[[_ ?]|[_ ?]]]; [|done..]. assert (∀ B, passed B (cl fd) → c_batch (cl fd) = B) as Hp by (intros B [?|[_ ?]]; [done|congruence]). split_and!.
  - split; cbn [c_batch c_stage c_layout c_inbox]; try done; [by left|]. intros _ _. apply M3; [left; by rewrite Hst|congruence].
  - unfold answered_for. cbn [c_batch c_stage]. rewrite Hst. naive_solver.
  - intros H. left. by apply Hp.
  - apply (same_batch_bar true _ _ t); try done. intros H. left. by apply Hp.
Qed.

Lemma end_hot_inv fd y : sys_inv fds tenant y → fd ∈ fds → c_stage (y_nodes y fd) = Hot →
  ∃ y', sys_act fds tenant (EndHot fd) y = Some (Ok y') ∧ sys_inv fds tenant y'.
Proof.
  destruct y as [s cl]. cbn [y_nodes]. intros Hinv Hfd Hst. set (t := server_tenant fd) in *. pose proof (fd_member fd Hfd) as Hin.
  unfold sys_act. cbn [y_nodes y_server]. rewrite bool_decide_eq_true_2 by done. eexists. split; [done|]. apply local_inv; [done|done|]. fold t. intros g' Hti'.
  pose proof (ti_nodes _ _ _ _ _ _ Hti' fd Hin) as [M1 M2 M3 M4 M5 M6]. rewrite Hst in M2, M5. destruct M2 as [M2|[[_ ?]|[_ ?]]]; [|done..].
  assert (∀ B, passed B (cl fd) → c_batch (cl fd) = B) as Hp by (intros B [?|[_ ?]]; [done|congruence]). split_and!.
  - split; cbn [set_stage c_batch c_stage c_layout c_inbox]; try done.
    + by left.
    + intros _ _. apply M3; [left; by rewrite Hst|congruence].
    + intros _. apply M6. left. by rewrite Hst; auto.
  - unfold answered_for. cbn [set_stage c_batch c_stage]. rewrite Hst. naive_solver.
  - intros H. left. by apply Hp.
  - apply (same_batch_bar g' _ _ t); try done. intros H. left. by apply Hp.
Qed.

Lemma leave_bar_inv fd y : sys_inv fds tenant y → fd ∈ fds → c_stage (y_nodes y fd) = AtBar → c_batch (y_nodes y fd) + 2 < 2 ^ 32 →
  bar_open fds tenant (server_tenant fd) (c_batch (y_nodes y fd)) (y_nodes y) = true →
  ∃ y', sys_act fds tenant (LeaveBar fd) y = Some (Ok y') ∧ sys_inv fds tenant y'.
Proof.
  destruct y as [s cl]. cbn [y_nodes]. intros Hinv Hfd Hst Hlt Hbar. set (t := server_tenant fd) in *. pose proof (fd_member fd Hfd) as Hin.
  unfold sys_act. cbn [y_nodes y_server]. rewrite bool_decide_eq_true_2 by done. fold t. rewrite Hbar. cbn [andb]. eexists. split; [done|]. apply local_inv; [done|done|]. fold t. intros g' Hti'.
  pose proof (ti_nodes _ _ _ _ _ _ Hti' fd Hin) as [M1 M2 M3 M4 M5 M6]. rewrite Hst in M2, M5. set (B := resp_batch (cached (info_of (tenant_info s) t))) in *.
  assert (c_batch (cl fd) + 1 = B ∨ c_batch (cl fd) + 2 = B) as Hpos by (destruct M2 as [?|[[_ ?]|[? _]]]; [by left|done|by right]). clear M2.
  assert (c_batch (cl fd) + 1 = B → g' = true) as Hgo by (intros; apply M6; left; split; [done|by right]). split_and!.
  - split; fold B; unfold answered_for; cbn [c_batch c_stage c_layout c_inbox]; try done; try lia.
    + destruct Hpos; [right; left; split; [lia|done]|left; lia].
    + intros [[_ ?]|[? _]] _; [done|]. apply M3; [left; split; [lia|by rewrite Hst]|congruence].
    + intros [[_ [?|?]]|[? _]]; [done..|]. apply Hgo. lia.
  - unfold answered_for. cbn [c_batch c_stage]. rewrite Hst. split; intros [[? ?]|[? ?]]; try done; try lia; left; split; [lia|done].
  - unfold passed. cbn [c_batch c_stage]. rewrite Hst. intros [?|[? _]]; left; lia.
  - cbn [c_batch]. intros HB _ fd' Hf. destruct (decide (fd' = fd)) as [->|Hne]; [by left|]. apply bool_decide_eq_true in Hbar. destruct (Hbar fd' Hf) as [Hb|[Hb Hs]].
    + left. destruct (ni_pos _ _ _ _ (ti_nodes _ _ _ _ _ _ Hti' fd' Hf)) as [?|[[? _]|[? _]]]; subst B; lia.
    + right. split; [lia|done].
Qed.

(** Every action keeps the invariant, and none fails. *)
Lemma act_inv a y : sys_inv fds tenant y → sys_act fds tenant a y = None ∨ ∃ y', sys_act fds tenant a y = Some (Ok y') ∧ sys_inv fds tenant y'.
Proof.
  intros Hinv. destruct a as [now fd|fd|fd|fd|fd].
  - destruct (decide (fd ∈ fds ∧ c_stage (y_nodes y fd) = Asking)) as [[Hfd Hst]|Hn]; [right; by apply serve_inv|].
    left. unfold sys_act. by rewrite bool_decide_eq_false_2.
  - destruct (decide (fd ∈ fds ∧ c_stage (y_nodes y fd) = Asked)) as [[Hfd Hst]|Hn]; [right; by apply take_answer_inv|].
    left. unfold sys_act. by rewrite bool_decide_eq_false_2.
  - destruct (decide (fd ∈ fds ∧ c_stage (y_nodes y fd) = Cold)) as [[Hfd Hst]|Hn].
    + destruct (take_ready_inv fd y Hinv Hfd Hst) as [[_ ?]|?]; auto.
    + left. unfold sys_act. by rewrite bool_decide_eq_false_2.
  - destruct (decide (fd ∈ fds ∧ c_stage (y_nodes y fd) = Hot)) as [[Hfd Hst]|Hn]; [right; by apply end_hot_inv|].
    left. unfold sys_act. by rewrite bool_decide_eq_false_2.
  - destruct (decide (fd ∈ fds ∧ c_stage (y_nodes y fd) = AtBar ∧ c_batch (y_nodes y fd) + 2 < 2 ^ 32)) as [(Hfd & Hst & Hlt)|Hn].
    + destruct (bar_open fds tenant (server_tenant fd) (c_batch (y_nodes y fd)) (y_nodes y)) eqn:E; [right; by apply leave_bar_inv|].
      left. unfold sys_act. rewrite E. by rewrite andb_false_r.
    + left. unfold sys_act. by rewrite bool_decide_eq_false_2.
Qed.

Lemma init_inv lays : (∀ fd, fd ∈ fds → block_num (lays fd) = NO_BLOCK) → sys_inv fds tenant (sys_init lays).
Proof.
  intros Hl. split; [exact idle_server_ok|]. intros t. exists false. cbn [sys_init y_server y_nodes srv_plane tenant_info]. split.
  { split; [done|]. intros [[b [q Hb]] _]. exfalso. cbn [handle_init block_queue plane_static] in Hb. apply lookup_replicate in Hb as [? _]. done. }
  assert (∀ fd, ¬ answered_for 0 (node_init (lays fd))) as Hna by (intros fd [[? _]|[_ ?]]; done).
  assert (answered_set fds tenant 0 (λ fd, node_init (lays fd)) t = ∅) as Hae by (apply set_eq; intros fd; rewrite elem_answered; set_solver).
  change (info_of ∅ t) with info_zero. split; cbn [info_zero cached resp_batch n_cached_uses sock_fds]; rewrite ?Hae; try done.
  intros fd Hin. split; cbn [node_init info_zero cached resp_batch c_batch c_stage c_layout c_inbox]; try done.
  - by right; left.
  - intros H. by destruct (Hna fd).
  - intros _ _. apply Hl. by apply elem_members in Hin as [_ ?].
  - intros [[_ [?|?]]|[_ ?]]; done.
Qed.

Lemma reach_inv lays y : (∀ fd, fd ∈ fds → block_num (lays fd) = NO_BLOCK) → rtc (sys_step fds tenant) (sys_init lays) y → sys_inv fds tenant y.
Proof.
  intros Hl. apply (rtc_ind_r (sys_inv fds tenant)); [by apply init_inv|]. intros y1 y2 _ [a Ha] Hinv.
  destruct (act_inv a y1 Hinv) as [Hn|(y' & Hy & Hinv')]; congruence.
Qed.

(** A node in the hot period uses the block at whose queue its tenant is first. *)
Lemma hot_holds y fd : sys_inv fds tenant y → fd ∈ fds → c_stage (y_nodes y fd) = Hot →
  ∃ b, block_num (c_layout (y_nodes y fd)) = Z.of_nat b ∧ holds (srv_plane (y_server y)) (server_tenant fd) b.
Proof.
  intros [Hs Hall] Hfd Hst. destruct (Hall (server_tenant fd)) as (g & Hg & Hti). pose proof (fd_member fd Hfd) as Hin.
  pose proof (ti_nodes _ _ _ _ _ _ Hti fd Hin) as [N1 N2 N3 N4 N5 N6]. rewrite Hst in *. set (i := info_of _ _) in *.
  destruct N2 as [N2|[[_ ?]|[_ ?]]]; [|done..]. assert (resp_batch (cached i) ≠ 0) as Hz by lia.
  assert (g = true) as ->; [apply N6; left; auto|]. pose proof (proj1 Hg eq_refl) as [[b' [q' Hq']] _].
  assert (tenant_info (y_server y) !! server_tenant fd = Some i) as Hi.
  { unfold i, info_of in *. destruct (tenant_info (y_server y) !! server_tenant fd); [done|]. by destruct Hz. }
  destruct (so_cached _ Hs _ i Hi Hz) as (b & Hb & q & Hq & [j Hj]%list_elem_of_lookup).
  destruct (NoDup_concat_pos _ _ _ _ _ _ 0%nat _ (po_once _ (so_plane _ Hs)) Hq Hj Hq' eq_refl) as [-> ->].
  exists b'. split; [|by exists q']. rewrite <-Hb. apply N3; [left; by rewrite Hst|done].
Qed.
End run.

(** ** Isolation and progress *)

(** The tenants' connections: ids within the server's table, fewer than 2^32
    nodes, and layouts without a block. *)
Definition deployment (fds : gset Z) (tenant : Z → Z) (lays : Z → DeclusteredLayout) : Prop :=
  (∀ fd, fd ∈ fds → 0 ≤ tenant fd < Z.of_nat N_MAX_TENANTS - 1) ∧ Z.of_nat (size fds) < 2 ^ 32
  ∧ ∀ fd, fd ∈ fds → block_num (lays fd) = NO_BLOCK.

Section progress.
Context (fds : gset Z) (tenant : Z → Z).
Context (Htenant : ∀ fd, fd ∈ fds → 0 ≤ tenant fd < Z.of_nat N_MAX_TENANTS - 1) (Hfds : Z.of_nat (size fds) < 2 ^ 32).

(** The actions of a node, and whether one of them is possible. *)
Definition actions (fd : Z) : list sys_action := [Serve 0 fd; TakeAnswer fd; TakeReady fd; EndHot fd; LeaveBar fd].
Definition possible (y : sys) (a : sys_action) : bool := match sys_act fds tenant a y with Some (Ok _) => true | _ => false end.
Definition enabled (y : sys) : Prop := set_Exists (λ fd, existsb (possible y) (actions fd) = true) fds.

Lemma enabled_by y fd a y' : fd ∈ fds → a ∈ actions fd → sys_act fds tenant a y = Some (Ok y') → enabled y.
Proof.
  intros Hfd Ha Hy. exists fd. split; [done|]. apply existsb_exists. exists a. split; [by apply list_elem_of_In|]. unfold possible. by rewrite Hy.
Qed.

Lemma enabled_act y : enabled y → ∃ a y', sys_act fds tenant a y = Some (Ok y').
Proof.
  intros (fd & _ & H). apply existsb_exists in H as (a & _ & H). unfold possible in H. destruct (sys_act fds tenant a y) as [[y'|]|] eqn:E; try done. by exists a, y'.
Qed.

Lemma barrier_enabled y fd : sys_inv fds tenant y → ¬ enabled y → fd ∈ fds → c_stage (y_nodes y fd) = AtBar → c_batch (y_nodes y fd) + 2 < 2 ^ 32 →
  (∀ fd', fd' ∈ fds → c_stage (y_nodes y fd') = Cold ∨ c_stage (y_nodes y fd') = AtBar) →
  (∀ fd', fd' ∈ fds → c_stage (y_nodes y fd') = Cold → c_inbox (y_nodes y fd') = []) → False.
Proof.
  intros Hinv Hen Hfd Hst Hlt Hall Hcold. pose proof (fd_member fds tenant fd Hfd) as Hin. pose proof Hinv as [Hs Ht]. destruct (Ht (server_tenant tenant fd)) as (g & Hg & Hti).
  set (i := info_of _ _) in *. pose proof (ti_nodes _ _ _ _ _ _ Hti fd Hin) as [N1 N2 N3 N4 N5 N6]. rewrite Hst in N2, N6.
  destruct (leave_bar_inv fds tenant fd y Hinv Hfd Hst Hlt) as (y' & Hy & _); [|apply Hen; eapply (enabled_by y fd); [done| |exact Hy]; unfold actions; set_solver].
  apply bool_decide_eq_true_2. intros fd' Hin'. pose proof (ti_nodes _ _ _ _ _ _ Hti fd' Hin') as [M1 M2 M3 M4 M5 M6]. pose proof Hin' as Hin2. apply elem_members in Hin2 as [_ Hfd'].
  destruct (Hall fd' Hfd') as [Hc|Hc]; rewrite Hc in *.
  - destruct M2 as [M2|[[_ ?]|[_ ?]]]; [|done..]. destruct N2 as [N2|[[_ ?]|[N2 _]]]; [|done|left; lia].
    assert (g = true) as ->; [apply N6; left; auto|]. rewrite (Hcold fd' Hfd' Hc) in M5. done.
  - destruct N2 as [N2|[[_ ?]|[N2 _]]]; [|done|]; (destruct M2 as [M2|[[_ ?]|[M2 _]]]; [|done|]); [right; split; [lia|done]| |left; lia|right; split; [lia|done]].
    assert (g = true) as ->; [apply N6; left; auto|]. destruct (ti_all _ _ _ _ _ _ Hti eq_refl fd' Hin') as [[? _]|[? _]]; lia.
Qed.

(** Somebody can go on: if every node waits, all tenants have all their answers,
    and the first of each queue has been told. *)
Lemma not_stuck y : sys_inv fds tenant y → fds ≠ ∅ → (∀ fd, fd ∈ fds → c_batch (y_nodes y fd) + 2 < 2 ^ 32) → enabled y.
Proof.
  intros Hinv [fd0 Hfd0]%set_choose_L Hlt. apply dec_stable. intros Hen. pose proof Hinv as [Hs Ht].
  assert (∀ fd, fd ∈ fds → c_stage (y_nodes y fd) = Cold ∨ c_stage (y_nodes y fd) = AtBar) as Hall.
  { intros fd Hfd. destruct (c_stage (y_nodes y fd)) eqn:E; auto; exfalso.
    - destruct (serve_inv fds tenant Htenant Hfds 0 fd y Hinv Hfd E) as (y' & Hy & _). apply Hen. eapply (enabled_by y fd); [done| |exact Hy]. unfold actions. set_solver.
    - destruct (take_answer_inv fds tenant Htenant fd y Hinv Hfd E) as (y' & Hy & _). apply Hen. eapply (enabled_by y fd); [done| |exact Hy]. unfold actions. set_solver.
    - destruct (end_hot_inv fds tenant Htenant fd y Hinv Hfd E) as (y' & Hy & _). apply Hen. eapply (enabled_by y fd); [done| |exact Hy]. unfold actions. set_solver. }
  assert (∀ fd, fd ∈ fds → c_stage (y_nodes y fd) = Cold → c_inbox (y_nodes y fd) = []) as Hcold.
  { intros fd Hfd E. destruct (take_ready_inv fds tenant Htenant fd y Hinv Hfd E) as [[? _]|(y' & Hy & _)]; [done|]. destruct Hen. eapply (enabled_by y fd); [done| |exact Hy]. unfold actions. set_solver. }
  assert (∀ fd, fd ∈ fds → c_stage (y_nodes y fd) = Cold) as Hc.
  { intros fd Hfd. destruct (Hall fd Hfd) as [?|E]; [done|]. exfalso. apply (barrier_enabled y fd); auto. }
  assert (∀ t, resp_batch (cached (info_of (tenant_info (y_server y)) t)) ≠ 0 → told (tenant_info (y_server y)) t = true) as Htold.
  { intros t Hz. destruct (Ht t) as (g & _ & Hti). set (i := info_of _ _) in *. assert (answered_set fds tenant (resp_batch (cached i)) (y_nodes y) t = members fds tenant t) as Has.
    { apply set_eq. intros fd. rewrite elem_answered. split; [tauto|]. intros Hin. split; [|done]. left. pose proof Hin as [_ Hfd]%elem_members. rewrite (Hc fd Hfd). split; [|done].
      destruct (ni_pos _ _ _ _ (ti_nodes _ _ _ _ _ _ Hti fd Hin)) as [?|[[_ Hx]|[_ Hx]]]; [done|rewrite (Hc fd Hfd) in Hx; done..]. }
    unfold told, all_connected. fold i. rewrite (ti_exp _ _ _ _ _ _ Hti Hz), (ti_uses _ _ _ _ _ _ Hti), (ti_fds _ _ _ _ _ _ Hti), Has.
    destruct (decide (resp_batch (cached i) ≤ 1)); by rewrite Z.eqb_refl. }
  set (t0 := server_tenant tenant fd0). destruct (Ht t0) as (g & Hg & Hti). pose proof (fd_member fds tenant fd0 Hfd0) as Hin. set (i := info_of _ _) in *.
  pose proof (ti_nodes _ _ _ _ _ _ Hti fd0 Hin) as [N1 N2 _ _ _ _]. rewrite (Hc fd0 Hfd0) in N2. destruct N2 as [N2|[[_ ?]|[_ ?]]]; [|done..]. assert (resp_batch (cached i) ≠ 0) as Hz by lia.
  assert (tenant_info (y_server y) !! t0 = Some i) as Hi by (unfold i, info_of in *; destruct (tenant_info (y_server y) !! t0); [done|by destruct Hz]).
  destruct (so_cached _ Hs t0 i Hi Hz) as (b & _ & q & Hq & Hinq). destruct q as [|h q]; [by apply not_elem_of_nil in Hinq|].
  assert (queued (srv_plane (y_server y)) h) as Hqh by (apply queued_lookup; by exists b, (h :: q), 0%nat).
  destruct (so_known _ Hs h Hqh) as (ih & Hih & Hzh). assert (info_of (tenant_info (y_server y)) h = ih) as Eh by (unfold info_of; by rewrite Hih).
  pose proof (Htold h ltac:(by rewrite Eh)) as Hth. destruct (decide (h ∈ to_notify (srv_plane (y_server y)))) as [Hn|Hn].
  - by rewrite (so_quiet _ Hs h Hn) in Hth.
  - destruct (Ht h) as (gh & Hgh & Htih). assert (gh = true) as -> by (apply Hgh; split; [by exists b, q|done]).
    destruct (set_choose_L (members fds tenant h)) as [fdh Hfh]; [apply (ti_some _ _ _ _ _ _ Htih); by rewrite Eh|].
    pose proof Hfh as [_ Hfh']%elem_members. pose proof (ni_inbox _ _ _ _ (ti_nodes _ _ _ _ _ _ Htih fdh Hfh)) as Hib. rewrite (Hc fdh Hfh') in Hib.
    cbn [inbox_of] in Hib. by rewrite (Hcold fdh Hfh' (Hc fdh Hfh')) in Hib.
Qed.
End progress.

(** The tenants do not block each other for ever.  In every state that the nodes
    and the scheduler can get into, some action is possible, as long as no node has
    used up its 2^32 batches: if all nodes waited, every tenant would have all its
    answers, and the first tenant of every queue would have been told to go. *)
Theorem tenants_progress fds tenant lays y :
  deployment fds tenant lays → fds ≠ ∅ → rtc (sys_step fds tenant) (sys_init lays) y →
  (∀ fd, fd ∈ fds → c_batch (y_nodes y fd) + 2 < 2 ^ 32) →
  ∃ a y', sys_act fds tenant a y = Some (Ok y').
Proof.
  intros (Ht & Hn & Hl) Hne Hrun Hlt. eapply enabled_act, (not_stuck fds tenant Ht Hn); try done. by apply (reach_inv fds tenant Ht Hn lays).
Qed.


(** Runs given by their actions. *)
Fixpoint run_sys (fds : gset Z) (tenant : Z → Z) (acts : list sys_action) (y : sys) : option sys :=
  match acts with
  | [] => Some y
  | a :: acts' => match sys_act fds tenant a y with Some (Ok y') => run_sys fds tenant acts' y' | _ => None end
  end.

Lemma run_sys_rtc fds tenant acts y y' : run_sys fds tenant acts y = Some y' → rtc (sys_step fds tenant) y y'.
Proof.
  revert y. induction acts as [|a acts IH]; intros y H; cbn [run_sys] in H; [injection H as ->; done|].
  destruct (sys_act fds tenant a y) as [[y1|]|] eqn:E; try done. eapply rtc_l; [by exists a|by apply IH].
Qed.

(** Two tenants with two nodes and one, all in their hot periods. *)
Definition three_fds : gset Z := {[5; 6; 7]}.
Definition two_tenants (fd : Z) : Z := if fd =? 7 then 1 else 0.
Definition empty_layout : DeclusteredLayout := MkLayout NO_BLOCK ∅ [] [].
Definition to_hot (fd : Z) : list sys_action := [TakeAnswer fd; TakeReady fd].
Definition three_run : list sys_action := [Serve 10 5; Serve 20 7; Serve 30 6] ++ to_hot 5 ++ to_hot 6 ++ to_hot 7.

Lemma three_hot : ∃ y, run_sys three_fds two_tenants three_run (sys_init (λ _, empty_layout)) = Some y
  ∧ c_stage (y_nodes y 5) = Hot ∧ c_stage (y_nodes y 6) = Hot ∧ c_stage (y_nodes y 7) = Hot ∧ ∀ fd, fd ∈ three_fds → c_batch (y_nodes y fd) = 0.
Proof.
  cut (match run_sys three_fds two_tenants three_run (sys_init (λ _, empty_layout)) with
       | Some y => bool_decide (c_stage (y_nodes y 5) = Hot ∧ c_stage (y_nodes y 6) = Hot ∧ c_stage (y_nodes y 7) = Hot
                    ∧ c_batch (y_nodes y 5) = 0 ∧ c_batch (y_nodes y 6) = 0 ∧ c_batch (y_nodes y 7) = 0)
       | None => false end = true); [|vm_compute; reflexivity].
  intros H. destruct (run_sys _ _ _ _) as [y|]; [|done]. apply bool_decide_eq_true in H as (H1 & H2 & H3 & B1 & B2 & B3). exists y. split_and!; try done.
  intros fd. unfold three_fds. rewrite !elem_of_union, !elem_of_singleton. intros [[->| ->]| ->]; done.
Qed.

Lemma three_in : 5 ∈ three_fds ∧ 6 ∈ three_fds ∧ 7 ∈ three_fds.
Proof. unfold three_fds. rewrite !elem_of_union, !elem_of_singleton. tauto. Qed.

Lemma three_deployed : deployment three_fds two_tenants (λ _, empty_layout).
Proof.
  split_and!; [|done|done]. intros fd _. unfold two_tenants. change (Z.of_nat N_MAX_TENANTS) with 150. destruct (fd =? 7); lia.
Qed.


Lemma tenants_progress_witness : ∃ y a y', run_sys three_fds two_tenants three_run (sys_init (λ _, empty_layout)) = Some y
  ∧ sys_act three_fds two_tenants a y = Some (Ok y').
Proof.
  destruct three_hot as (y & Hrun & _ & _ & _ & Hb). exists y.
  destruct (tenants_progress three_fds two_tenants (λ _, empty_layout) y three_deployed) as (a & y' & Ha).
  - intros E. pose proof (proj1 three_in) as Hin. rewrite E in Hin. by apply not_elem_of_empty in Hin.
  - exact (run_sys_rtc _ _ _ _ _ Hrun).
  - intros fd Hfd. rewrite (Hb fd Hfd). done.
  - exists a, y'. split; [exact Hrun|exact Ha].
Defined.
