(* ===== verification/SimLayout.v ===== *)
(** * The layout simulator

    [mine/fast_layout/src/layout.cpp] and the counting part of [batch.cpp]:
    how the simulator places the keys of a workload on the stages and register
    arrays of a switch ([layout_t]), and how it turns a transaction into passes
    through the pipeline and gives it locks ([sw_txn_t], [prepare_txns_sw]).

    A register array is a cell: cell [c] is array [c mod REGS_PER_STAGE] of
    stage [c / REGS_PER_STAGE], so that the doubly indexed arrays of the code
    are lists of [N_CELLS] entries in row-major order, the order in which its
    nested loops visit them. *)
From stdpp Require Import base tactics list numbers gmap sorting.
From Stdlib Require Import ZArith Lia.
From S2P Require Import Prelude.

#[local] Open Scope Z_scope.

Definition N_STAGES : nat := 18.
Definition REGS_PER_STAGE : nat := 2.
Definition N_CELLS : nat := N_STAGES * REGS_PER_STAGE.
Definition SLOTS_PER_REG : Z := 14000000 / Z.of_nat N_CELLS.
Definition N_LOCKS : nat := 32.
Definition PASS2_ACCEL_THR : nat := 2.

(** [txn_t]: the keys of its operations. *)
Definition txn_t : Type := list Z.

Record tuple_loc_t := MkTL { stage : nat; reg : nat; idx : Z }.
#[global] Instance tuple_loc_t_eq_dec : EqDecision tuple_loc_t.
Proof. solve_decision. Defined.
#[global] Instance tuple_loc_t_inhabited : Inhabited tuple_loc_t := populate (MkTL 0 0 0).

(** [operator==]: the same register array. *)
Definition tl_eqb (a b : tuple_loc_t) : bool :=
  bool_decide (stage a = stage b) && bool_decide (reg a = reg b).

Definition cell (tl : tuple_loc_t) : nat := stage tl * REGS_PER_STAGE + reg tl.
Definition at_cell (c : nat) (i : Z) : tuple_loc_t := MkTL (c / REGS_PER_STAGE) (c `mod` REGS_PER_STAGE) i.

(** ** Counting keys *)

(** The [std::map] of [get_key_cts]. *)
Definition count_op (m : gmap Z Z) (op : Z) : gmap Z Z := <[op := default 0 (m !! op) + 1]> m.

Definition key_counts (txns : list txn_t) : gmap Z Z := foldl (foldl count_op) ∅ txns.

(** [get_key_cts]; the order of keys with equal counts is not specified by
    [std::sort], and no result below depends on it. *)
Definition get_key_cts (txns : list txn_t) : list (Z * Z) :=
  std_sort (λ p1 p2, p2.2 <? p1.2) (std_sort (λ p1 p2, p1.1 <? p2.1) (map_to_list (key_counts txns))).

(** ** Layouts *)

Record layout_t := MkLay {
  forward_ : gmap Z tuple_loc_t;
  backward_per_reg_ : list (gmap Z Z);
  keys_sorted_ : list (Z * Z);
  key_cts_ : gmap Z Z;
}.

Definition lay_init (txns : list txn_t) : layout_t :=
  let ks := get_key_cts txns in
  MkLay ∅ (replicate N_CELLS ∅) ks (list_to_map ks).

(** [std::unordered_map::insert]. *)
Definition map_insert {V} (k : Z) (v : V) (m : gmap Z V) : gmap Z V :=
  match m !! k with Some _ => m | None => <[k := v]> m end.

(** [forward_[k] = loc; backward_per_reg_[loc.stage][loc.reg].insert(...)]. *)
Definition set_loc_of (k : Z) (loc : tuple_loc_t) (L : layout_t) : layout_t :=
  MkLay (<[k := loc]> (forward_ L)) (alter (map_insert (idx loc) k) (cell loc) (backward_per_reg_ L))
        (keys_sorted_ L) (key_cts_ L).

(** A cell gets the key: [loc = {s, r, idx_to_alloc[s][r]++}]. *)
Definition place (alloc : list Z) (L : layout_t) (k : Z) (c : nat) : list Z * layout_t :=
  (<[c := alloc !!! c + 1]> alloc, set_loc_of k (at_cell c (alloc !!! c)) L).

Definition zeros : list Z := replicate N_CELLS 0.

(** [better_random_impl]: the cell with the fewest keys. *)
Definition better_random_key (st : list Z * layout_t) (pr : Z * Z) : list Z * layout_t :=
  place st.1 st.2 pr.1 (argmin st.1).
Definition better_random_impl (L : layout_t) : layout_t :=
  (foldl better_random_key (zeros, L) (keys_sorted_ L)).2.

(** [even_better_random_impl]: the cell with the least total frequency. *)
Definition even_better_random_key (st : list Z * (list Z * layout_t)) (pr : Z * Z) : list Z * (list Z * layout_t) :=
  let weight := st.1 in
  let c := argmin weight in
  (<[c := weight !!! c + pr.2]> weight, place st.2.1 st.2.2 pr.1 c).
Definition even_better_random_impl (L : layout_t) : layout_t :=
  (foldl even_better_random_key (zeros, (zeros, L)) (keys_sorted_ L)).2.2.

(** [random_spray_impl], with the results of [rand()]. *)
Definition random_spray_key (st : list Z * layout_t) (pr : (Z * Z) * Z) : list Z * layout_t :=
  let '((k, _), rnd) := pr in
  let c := Z.to_nat (rnd mod Z.of_nat N_CELLS) in
  let tl := at_cell c (st.1 !!! c) in
  let L := st.2 in
  (<[c := st.1 !!! c + 1]> st.1,
   MkLay (map_insert k tl (forward_ L)) (alter (map_insert (idx tl) k) c (backward_per_reg_ L)) (keys_sorted_ L) (key_cts_ L)).
Definition random_spray_impl (rands : list Z) (L : layout_t) : layout_t :=
  (foldl random_spray_key (zeros, L) (zip (keys_sorted_ L) rands)).2.

(** [freq_heuristic_impl]: the keys that share a transaction with a key. *)
Definition adj_add (op : Z) (adj : gmap Z (gmap Z Z)) (op2 : Z) : gmap Z (gmap Z Z) :=
  if bool_decide (op ≠ op2)
  then let row := default ∅ (adj !! op) in <[op := <[op2 := default 0 (row !! op2) + 1]> row]> adj
  else adj.
Definition adj_op (ops : txn_t) (adj : gmap Z (gmap Z Z)) (op : Z) : gmap Z (gmap Z Z) :=
  foldl (adj_add op) (match adj !! op with None => <[op := ∅]> adj | Some _ => adj end) ops.
Definition adj_mat (txns : list txn_t) : gmap Z (gmap Z Z) := foldl (λ adj ops, foldl (adj_op ops) adj ops) ∅ txns.

(** How many of the key's neighbours each cell already holds. *)
Definition reg_freqs (L : layout_t) (neighbours : list Z) : list Z :=
  foldl (λ w k, match forward_ L !! k with Some tl => <[cell tl := w !!! cell tl + 1]> w | None => w end) zeros neighbours.

Definition freq_heuristic_key (adj : gmap Z (gmap Z Z)) (st : list Z * layout_t) (pr : Z * Z) : list Z * layout_t :=
  let w := reg_freqs st.2 (map_to_list (default ∅ (adj !! pr.1))).*1 in
  place st.1 st.2 pr.1 (argmin w).
Definition freq_heuristic_impl (txns : list txn_t) (L : layout_t) : layout_t :=
  (foldl (freq_heuristic_key (adj_mat txns)) (zeros, L) (keys_sorted_ L)).2.

(** [layout_t(txns)]. *)
Definition layout_make (txns : list txn_t) : layout_t := even_better_random_impl (lay_init txns).

(** [get_key_ct]; an unknown key dereferences [end()]. *)
Definition get_key_ct (L : layout_t) (key : Z) : outcome Z :=
  match key_cts_ L !! key with Some c => Ok c | None => Fail OutOfBounds end.

Definition lookup_key (L : layout_t) (key : Z) : option tuple_loc_t := forward_ L !! key.

Definition rev_lookup (L : layout_t) (c : nat) (i : Z) : outcome Z :=
  m ← aget (backward_per_reg_ L) c;
  match (m : gmap Z Z) !! i with Some k => Ok k | None => Fail AssertFailed end.

(** ** Every layout is a bijection *)

Lemma cell_at c i : cell (at_cell c i) = c.
Proof. unfold cell, at_cell. cbn [stage reg]. pose proof (Nat.div_mod_eq c REGS_PER_STAGE). lia. Qed.

Lemma at_cell_range c i : (c < N_CELLS)%nat → (stage (at_cell c i) < N_STAGES)%nat ∧ (reg (at_cell c i) < REGS_PER_STAGE)%nat.
Proof.
  intros Hc. unfold at_cell. cbn [stage reg]. split.
  - apply Nat.Div0.div_lt_upper_bound. unfold N_CELLS in Hc. lia.
  - by apply Nat.mod_upper_bound.
Qed.

(** After placing the keys [ks]: each has a location in range, of its own, and
    the reverse maps hold exactly these locations. *)
Record placed (ks : list Z) (alloc : list Z) (fwd : gmap Z tuple_loc_t) (bwd : list (gmap Z Z)) : Prop := {
  pl_alloc : length alloc = N_CELLS;
  pl_bwd : length bwd = N_CELLS;
  pl_nonneg : ∀ c, (c < N_CELLS)%nat → 0 ≤ alloc !!! c;
  pl_dom : ∀ k, k ∈ ks → is_Some (fwd !! k);
  pl_fwd : ∀ k tl, fwd !! k = Some tl →
    k ∈ ks ∧ tl = at_cell (cell tl) (idx tl) ∧ (cell tl < N_CELLS)%nat ∧ 0 ≤ idx tl < alloc !!! cell tl
    ∧ ∃ m, bwd !! cell tl = Some m ∧ m !! idx tl = Some k;
  pl_back : ∀ c m i k, bwd !! c = Some m → m !! i = Some k → fwd !! k = Some (at_cell c i);
}.

Lemma placed_init : placed [] zeros ∅ (replicate N_CELLS ∅).
Proof.
  split; unfold zeros; rewrite ?length_replicate; try done.
  - intros c Hc. by rewrite lookup_total_replicate_2.
  - by intros k ?%not_elem_of_nil.
  - intros c m i k [-> _]%lookup_replicate. done.
Qed.

Lemma placed_step ks alloc fwd bwd k c :
  placed ks alloc fwd bwd → k ∉ ks → (c < N_CELLS)%nat →
  placed (ks ++ [k]) (<[c := alloc !!! c + 1]> alloc) (<[k := at_cell c (alloc !!! c)]> fwd)
         (alter (map_insert (alloc !!! c) k) c bwd).
Proof.
  intros [Ha Hb Hn Hd Hf Hk] Hfresh Hc.
  assert (fwd !! k = None) as Hnone. { destruct (fwd !! k) eqn:E; [|done]. by destruct (Hf _ _ E). }
  destruct (lookup_lt_is_Some_2 bwd c) as [m0 Hm0]; [lia|].
  assert (m0 !! (alloc !!! c) = None) as Hslot.
  { destruct (m0 !! _) as [k'|] eqn:E; [|done]. pose proof (Hk _ _ _ _ Hm0 E) as Hk'. destruct (Hf _ _ Hk') as (_ & _ & _ & Hi & _).
    rewrite cell_at in Hi. simpl in Hi. lia. }
  assert (map_insert (alloc !!! c) k m0 = <[alloc !!! c := k]> m0) as Hmi by (unfold map_insert; by rewrite Hslot).
  assert (alter (map_insert (alloc !!! c) k) c bwd !! c = Some (<[alloc !!! c := k]> m0)) as Hat.
  { by rewrite list_lookup_alter_eq, Hm0, <-Hmi. }
  assert (∀ c', alloc !!! c' ≤ <[c := alloc !!! c + 1]> alloc !!! c') as Hmono.
  { intros c'. destruct (decide (c' = c)) as [->|]; [rewrite list_lookup_total_insert_eq by lia; lia|].
    by rewrite list_lookup_total_insert_ne. }
  split; rewrite ?length_insert, ?length_alter; try done.
  - intros c' Hc'. specialize (Hmono c'). specialize (Hn c' Hc'). lia.
  - intros k' [Hin| ->%list_elem_of_singleton]%elem_of_app; [|by rewrite lookup_insert_eq].
    rewrite lookup_insert_ne; [by apply Hd|]. by intros ->.
  - intros k' tl [[<- <-]|[Hne Htl]]%lookup_insert_Some.
    + rewrite cell_at. simpl. rewrite list_lookup_total_insert_eq by lia. pose proof (Hn c Hc).
      split_and!; [apply elem_of_app; right; by apply list_elem_of_singleton|done|done|lia|lia|].
      eexists. split; [done|]. by rewrite lookup_insert_eq.
    + destruct (Hf k' tl Htl) as (Hin & Heq & Hr & Hi & m & Hm & Hmk). specialize (Hmono (cell tl)).
      split_and!; [apply elem_of_app; by left|done|done|lia|lia|].
      destruct (decide (cell tl = c)) as [<-|Hc']; [|exists m; by rewrite list_lookup_alter_ne].
      simplify_eq. eexists. split; [done|]. rewrite lookup_insert_ne; [done|]. lia.
  - intros c' m i k' Hm Hmk. destruct (decide (c' = c)) as [->|Hne].
    + rewrite Hat in Hm. simplify_eq. apply lookup_insert_Some in Hmk as [[<- <-]|[Hi Hmk]]; [by rewrite lookup_insert_eq|].
      pose proof (Hk _ _ _ _ Hm0 Hmk) as Hk'. rewrite lookup_insert_ne; [done|]. intros ->. by rewrite Hnone in Hk'.
    + rewrite list_lookup_alter_ne in Hm by done. pose proof (Hk _ _ _ _ Hm Hmk) as Hk'.
      rewrite lookup_insert_ne; [done|]. intros ->. by rewrite Hnone in Hk'.
Qed.

(** The promise of a layout: its keys have pairwise different places and the
    two directions agree. *)
Record lay_ok (ks : list Z) (L : layout_t) : Prop := {
  lo_dom : ∀ k, k ∈ ks → ∃ tl, lookup_key L k = Some tl;
  lo_back : ∀ k tl, lookup_key L k = Some tl →
    k ∈ ks ∧ (stage tl < N_STAGES)%nat ∧ (reg tl < REGS_PER_STAGE)%nat ∧ 0 ≤ idx tl ∧ rev_lookup L (cell tl) (idx tl) = Ok k;
  lo_inj : ∀ k1 k2 tl, lookup_key L k1 = Some tl → lookup_key L k2 = Some tl → k1 = k2;
}.

Lemma placed_lay_ok ks alloc L : placed ks alloc (forward_ L) (backward_per_reg_ L) → lay_ok ks L.
Proof.
  intros [Ha Hb Hn Hd Hf Hk].
  assert (∀ k tl, lookup_key L k = Some tl → rev_lookup L (cell tl) (idx tl) = Ok k) as Hrev.
  { intros k tl Htl. destruct (Hf k tl Htl) as (_ & _ & _ & _ & m & Hm & Hmk). unfold rev_lookup, aget. rewrite Hm. simpl. by rewrite Hmk. }
  split.
  - intros k Hin. by apply Hd.
  - intros k tl Htl. destruct (Hf k tl Htl) as (Hin & Heq & Hr & Hi & _). rewrite Heq at 1 2.
    destruct (at_cell_range (cell tl) (idx tl) Hr). split_and!; try done; [lia|by apply Hrev].
  - intros k1 k2 tl H1 H2. pose proof (Hrev _ _ H1). pose proof (Hrev _ _ H2). congruence.
Qed.


Lemma sim_place_ok ks alloc L k c :
  placed ks alloc (forward_ L) (backward_per_reg_ L) → k ∉ ks → (c < N_CELLS)%nat →
  placed (ks ++ [k]) (place alloc L k c).1 (forward_ (place alloc L k c).2) (backward_per_reg_ (place alloc L k c).2).
Proof.
  intros H Hk Hc. unfold place, set_loc_of. cbn [fst snd forward_ backward_per_reg_]. rewrite cell_at. by apply placed_step.
Qed.

(** The invariant of the placement loops. *)
Definition st_ok (ks : list Z) (st : list Z * layout_t) : Prop :=
  placed ks st.1 (forward_ st.2) (backward_per_reg_ st.2).

Lemma argmin_cells w : length w = N_CELLS → (argmin w < N_CELLS)%nat.
Proof. intros H. rewrite <-H. apply argmin_lt. by intros ->. Qed.

(** A loop that gives fresh keys to cells, whatever else its state holds. *)
Lemma fold_placed {A S} (key : A → Z) (out : S → list Z * layout_t) (J : list A → S → Prop) (f : S → A → S) l s0 :
  NoDup (key <$> l) → J [] s0 → st_ok [] (out s0) →
  (∀ pre x post s, l = pre ++ x :: post → J pre s → st_ok (key <$> pre) (out s) → key x ∉ key <$> pre →
     J (pre ++ [x]) (f s x) ∧ st_ok ((key <$> pre) ++ [key x]) (out (f s x))) →
  J l (foldl f s0 l) ∧ st_ok (key <$> l) (out (foldl f s0 l)).
Proof.
  intros Hnd HJ0 H0 Hstep.
  apply (foldl_inv (λ pre s, J pre s ∧ st_ok (key <$> pre) (out s))); [done|].
  intros pre x post s Hcut [HJ Hs]. rewrite fmap_app. apply (Hstep pre x post s Hcut HJ Hs).
  rewrite Hcut, fmap_app in Hnd. apply NoDup_app in Hnd as (_ & Hd & _). intros Hin. apply (Hd _ Hin). by left.
Qed.

Lemma zeros_len : length zeros = N_CELLS.
Proof. apply length_replicate. Qed.

Section impls.
Context (L : layout_t).
Hypothesis Hkeys : NoDup (keys_sorted_ L).*1.
Hypothesis Hempty : st_ok [] (zeros, L).

Lemma better_random_ok : lay_ok (keys_sorted_ L).*1 (better_random_impl L).
Proof.
  eapply placed_lay_ok. apply (fold_placed fst (λ s, s) (λ _ _, True)); try done.
  intros pre x post s _ _ Hs Hx. split; [done|]. apply sim_place_ok; try done. apply argmin_cells, Hs.
Qed.

Lemma even_better_random_ok : lay_ok (keys_sorted_ L).*1 (even_better_random_impl L).
Proof.
  eapply placed_lay_ok. apply (fold_placed fst snd (λ _ s, length s.1 = N_CELLS)); try done.
  intros pre x post s _ Hl Hs Hx. split; [simpl; by rewrite length_insert|]. apply sim_place_ok; try done. by apply argmin_cells.
Qed.

Lemma reg_freqs_len M l : length (reg_freqs M l) = N_CELLS.
Proof.
  unfold reg_freqs. generalize zeros_len. generalize zeros. induction l as [|k l IH]; intros w Hw; simpl; [done|].
  apply IH. destruct (forward_ M !! k); [|done]. by rewrite length_insert.
Qed.

Lemma freq_heuristic_ok txns : lay_ok (keys_sorted_ L).*1 (freq_heuristic_impl txns L).
Proof.
  eapply placed_lay_ok. apply (fold_placed fst (λ s, s) (λ _ _, True)); try done.
  intros pre x post s _ _ Hs Hx. split; [done|]. apply sim_place_ok; try done. apply argmin_cells, reg_freqs_len.
Qed.

Lemma random_spray_ok rands : length (keys_sorted_ L) = length rands →
  lay_ok (keys_sorted_ L).*1 (random_spray_impl rands L).
Proof.
  intros Hr. assert ((λ pr : (Z * Z) * Z, pr.1.1) <$> zip (keys_sorted_ L) rands = (keys_sorted_ L).*1) as Hk.
  { trans (zip (keys_sorted_ L) rands).*1.*1; [by rewrite <-list_fmap_compose|]. by rewrite fst_zip by lia. }
  rewrite <-Hk. eapply placed_lay_ok. apply (fold_placed (λ pr : (Z * Z) * Z, pr.1.1) (λ s, s) (λ _ _, True)); try done; [by rewrite Hk|].
  intros pre [[k f] rnd] post s _ _ Hs Hx. split; [done|]. cbn [fst snd] in *.
  assert (Z.to_nat (rnd mod Z.of_nat N_CELLS) < N_CELLS)%nat as Hc.
  { pose proof (Z.mod_pos_bound rnd (Z.of_nat N_CELLS)) as Hb. unfold N_CELLS, N_STAGES, REGS_PER_STAGE in *. simpl in *. lia. }
  set (c := Z.to_nat _) in *. pose proof (placed_step _ _ _ _ k c Hs Hx Hc) as Hn.
  unfold st_ok, random_spray_key. fold c. cbn [fst snd forward_ backward_per_reg_].
  replace (map_insert k (at_cell c (s.1 !!! c)) (forward_ s.2)) with (<[k := at_cell c (s.1 !!! c)]> (forward_ s.2)); [done|].
  unfold map_insert. destruct (forward_ s.2 !! k) as [tl|] eqn:E; [|done]. by destruct (pl_fwd _ _ _ _ Hs _ _ E).
Qed.
End impls.

Definition occurrences (k : Z) (l : list Z) : nat := length (filter (λ x, x = k) l).

Lemma count_fold l m k :
  foldl count_op m l !! k = if decide (occurrences k l = 0%nat) then m !! k else Some (default 0 (m !! k) + Z.of_nat (occurrences k l)).
Proof.
  unfold occurrences. revert m. induction l as [|x l IH]; intros m; simpl; [done|]. rewrite IH, filter_cons. unfold count_op.
  destruct (decide (x = k)) as [->|Hne]; cbn [length].
  - rewrite lookup_insert_eq. rewrite (decide_False (P := S _ = 0%nat)) by lia. case_decide as E; f_equal; simpl; lia.
  - by rewrite lookup_insert_ne.
Qed.

Lemma key_counts_flat txns : key_counts txns = foldl count_op ∅ (concat txns).
Proof.
  unfold key_counts. generalize (∅ : gmap Z Z). induction txns as [|t txns IH]; intros m; simpl; [done|]. by rewrite IH, foldl_app.
Qed.

(** [get_key_cts] counts every key once. *)
Lemma get_key_cts_perm txns : get_key_cts txns ≡ₚ map_to_list (key_counts txns).
Proof. unfold get_key_cts. by rewrite !std_sort_perm. Qed.

Lemma get_key_cts_spec txns k c :
  (k, c) ∈ get_key_cts txns ↔ c = Z.of_nat (occurrences k (concat txns)) ∧ k ∈ concat txns.
Proof.
  rewrite get_key_cts_perm, elem_of_map_to_list, key_counts_flat, count_fold, lookup_empty. cbn [default].
  assert (occurrences k (concat txns) = 0%nat ↔ k ∉ concat txns) as Hocc.
  { unfold occurrences. rewrite length_zero_iff_nil. split.
    - intros E Hin. assert (k ∈ filter (λ x, x = k) (concat txns)) as H by (by apply list_elem_of_filter). rewrite E in H. by apply not_elem_of_nil in H.
    - intros Hn. apply elem_of_nil_inv. intros x [-> Hx]%list_elem_of_filter. done. }
  case_decide as E.
  - apply Hocc in E. split; [done|]. by intros [_ ?].
  - split; [intros [= <-]|by intros [-> _]]. split; [lia|]. destruct (decide (k ∈ concat txns)); [done|]. by apply Hocc in n.
Qed.

Lemma get_key_cts_NoDup txns : NoDup (get_key_cts txns).*1.
Proof. rewrite get_key_cts_perm. apply NoDup_fst_map_to_list. Qed.

Lemma get_key_cts_keys txns k : k ∈ (get_key_cts txns).*1 ↔ k ∈ concat txns.
Proof.
  rewrite list_elem_of_fmap. split.
  - by intros ([k' c] & -> & [_ ?]%get_key_cts_spec).
  - intros Hin. eexists (k, _). split; [done|]. by apply get_key_cts_spec.
Qed.

(** Whichever heuristic places them, the keys of a workload get pairwise
    different slots of existing register arrays, every key gets one, and the
    reverse maps lead back to it; a key is counted once, with the number of
    operations on it. *)
Theorem sim_layouts_bijective txns :
  let ks := (get_key_cts txns).*1 in
  let L := lay_init txns in
  (∀ k c, (k, c) ∈ get_key_cts txns ↔ c = Z.of_nat (occurrences k (concat txns)) ∧ k ∈ concat txns)
  ∧ NoDup ks
  ∧ lay_ok ks (layout_make txns) ∧ lay_ok ks (better_random_impl L) ∧ lay_ok ks (freq_heuristic_impl txns L)
  ∧ (∀ rands, length rands = length ks → lay_ok ks (random_spray_impl rands L)).
Proof.
  intros ks L. assert (st_ok [] (zeros, L)) as H0 by apply placed_init.
  pose proof (get_key_cts_NoDup txns) as Hnd. split_and!.
  - intros. apply get_key_cts_spec.
  - done.
  - by apply (even_better_random_ok L).
  - by apply (better_random_ok L).
  - by apply (freq_heuristic_ok L).
  - intros rands Hr. apply (random_spray_ok L); [done|done|]. unfold ks in Hr. by rewrite length_fmap in Hr.
Qed.

(** ** Transactions as passes *)

(** [sw_txn_t]; the bitsets are words of [N_LOCKS] bits, a pass is a grid of
    cells. *)
Record sw_txn_t := MkSwTxn {
  port : Z;
  txn_id : Z;
  pass_ct : nat;
  fail_ct : Z;
  orig_txn : txn_t;
  valid : bool;
  locks_check : Z;
  locks_wanted : Z;
  locks_undo : Z;
  locs : list tuple_loc_t;
  passes : list (list (option Z));
  one_lock : option tuple_loc_t;
}.

(** The count of the key at a location. *)
Definition loc_freq (L : layout_t) (tl : tuple_loc_t) : Z :=
  match rev_lookup L (cell tl) (idx tl) with Ok k => default 0 (key_cts_ L !! k) | Fail _ => 0 end.

(** The comparator of the constructor's [std::sort]. *)
Definition loc_less (L : layout_t) (p1 p2 : tuple_loc_t) : bool :=
  if bool_decide (stage p1 ≠ stage p2) then bool_decide (stage p1 < stage p2)%nat
  else if bool_decide (reg p1 ≠ reg p2) then bool_decide (reg p1 < reg p2)%nat
  else if loc_freq L p1 =? loc_freq L p2 then idx p1 <? idx p2
  else loc_freq L p2 <? loc_freq L p1.

(** The inner loop [while (i < num_ops && tmp[i] == tl)]: the locations of the
    same register array that follow. *)
Fixpoint span (tl : tuple_loc_t) (l : list tuple_loc_t) : list tuple_loc_t * list tuple_loc_t :=
  match l with
  | [] => ([], [])
  | x :: l' => if tl_eqb x tl then let '(same, rest) := span tl l' in (x :: same, rest) else ([], l)
  end.

(** The outer loops cut the sorted locations into runs. *)
Fixpoint runs (fuel : nat) (l : list tuple_loc_t) : list (list tuple_loc_t) :=
  match fuel, l with
  | S fuel', tl :: l' => let '(same, rest) := span tl l' in (tl :: same) :: runs fuel' rest
  | _, _ => []
  end.

Definition n_passes (rs : list (list tuple_loc_t)) : nat := foldl (λ n r, Nat.max n (length r)) 0%nat rs.

(** [passes[p].grid[stage][reg] = idx]. *)
Definition set_grid (ps : list (list (option Z))) (x : nat * tuple_loc_t) : outcome (list (list (option Z))) :=
  let '(p, tl) := x in
  g ← aget ps p;
  g' ← aset g (cell tl) (Some (idx tl));
  aset ps p g'.

(** The second loop over the runs: the [i]-th of a run goes to pass [i]. *)
Definition numbered (r : list tuple_loc_t) : list (nat * tuple_loc_t) := zip (seq 0 (length r)) r.

Definition assign_passes (rs : list (list tuple_loc_t)) : outcome (list (list (option Z))) :=
  ofold set_grid (concat (numbered <$> rs)) (replicate (n_passes rs) (replicate N_CELLS None)).

(** [one_lock]: the second location of the first run that has one. *)
Definition first_second (rs : list (list tuple_loc_t)) : option tuple_loc_t :=
  head (omap (λ r : list tuple_loc_t, r !! 1%nat) rs).

(** [sw_txn_t(port, layout, txn)]. *)
Definition sw_txn_make (prt : Z) (L : layout_t) (txn : txn_t) : outcome sw_txn_t :=
  assert (bool_decide (length txn ≤ 100)%nat);;
  tmp ← ofold (λ acc k, match lookup_key L k with Some tl => Ok (acc ++ [tl]) | None => Fail (Thrown BadOptionalAccess) end) txn [];
  let sorted := std_sort (loc_less L) tmp in
  let rs := runs (length sorted) sorted in
  ps ← assign_passes rs;
  Ok (MkSwTxn prt 0 0 0 txn true 0 0 0 sorted ps (first_second rs)).

(** *** The passes of a transaction *)

Definition in_range (tl : tuple_loc_t) : Prop := (stage tl < N_STAGES)%nat ∧ (reg tl < REGS_PER_STAGE)%nat.

Lemma cell_lt tl : in_range tl → (cell tl < N_CELLS)%nat.
Proof. unfold in_range, cell, N_CELLS, N_STAGES, REGS_PER_STAGE. lia. Qed.

Lemma tl_eqb_cell a b : in_range a → in_range b → tl_eqb a b = true ↔ cell a = cell b.
Proof.
  unfold in_range, tl_eqb, cell, REGS_PER_STAGE. intros Ha Hb. rewrite andb_true_iff, !bool_decide_eq_true. lia.
Qed.

Lemma loc_may_precede L a b : may_precede (loc_less L) a b ↔
  (stage a < stage b)%nat ∨ stage a = stage b ∧ ((reg a < reg b)%nat ∨ reg a = reg b
    ∧ (loc_freq L b < loc_freq L a ∨ loc_freq L a = loc_freq L b ∧ idx a ≤ idx b)).
Proof.
  unfold may_precede, loc_less. repeat case_bool_decide; repeat case_match; simpl; rewrite ?Z.eqb_eq, ?Z.eqb_neq in *;
    repeat match goal with |- context [?x <? ?y] => destruct (Z.ltb_spec x y) end; simpl; lia.
Qed.

#[local] Instance loc_trans L : Transitive (may_precede (loc_less L)).
Proof. intros a b c. rewrite !loc_may_precede. lia. Qed.

Lemma loc_sorted_cells L l : Forall in_range l → StronglySorted (λ a b, cell a ≤ cell b)%nat (std_sort (loc_less L) l).
Proof.
  intros Hr. pose proof (std_sort_sorted (loc_less L) l _) as Hs.
  assert (Forall in_range (std_sort (loc_less L) l)) as Hr' by (by rewrite std_sort_perm).
  induction Hs as [|a l' Hs IH Ha]; [constructor|]. apply Forall_cons in Hr' as [Hra Hr']. constructor; [by apply IH|].
  rewrite Forall_forall in Ha, Hr' |- *. intros b Hb. specialize (Ha b Hb). specialize (Hr' b Hb). apply loc_may_precede in Ha.
  unfold in_range, cell, REGS_PER_STAGE in *. lia.
Qed.

(** The number of locations of a cell. *)
Definition cell_count (c : nat) (l : list tuple_loc_t) : nat := length (filter (λ tl, cell tl = c) l).

Lemma cell_count_app c l1 l2 : cell_count c (l1 ++ l2) = (cell_count c l1 + cell_count c l2)%nat.
Proof. unfold cell_count. by rewrite filter_app, length_app. Qed.

Lemma cell_count_all c l : Forall (λ tl, cell tl = c) l → cell_count c l = length l.
Proof.
  unfold cell_count. induction 1 as [|x l Hx Hl IH]; [done|]. rewrite filter_cons_True by done. simpl. by f_equal.
Qed.

Lemma cell_count_none c l : Forall (λ tl, cell tl ≠ c) l → cell_count c l = 0%nat.
Proof. unfold cell_count. induction 1 as [|x l Hx Hl IH]; [done|]. by rewrite filter_cons_False. Qed.

(** Each location with the number of earlier ones of its cell. *)
Fixpoint annot (pre l : list tuple_loc_t) : list (nat * tuple_loc_t) :=
  match l with
  | [] => []
  | x :: l' => (cell_count (cell x) pre, x) :: annot (pre ++ [x]) l'
  end.

Lemma annot_app pre l1 l2 : annot pre (l1 ++ l2) = annot pre l1 ++ annot (pre ++ l1) l2.
Proof.
  revert pre. induction l1 as [|x l1 IH]; intros pre; simpl; [by rewrite app_nil_r|]. rewrite IH. by rewrite <-app_assoc.
Qed.

Lemma annot_run c r pre : Forall (λ tl, cell tl = c) r → annot pre r = zip (seq (cell_count c pre) (length r)) r.
Proof.
  intros Hr. revert pre. induction Hr as [|x r Hx Hr IH]; intros pre; [done|]. simpl. rewrite Hx. f_equal.
  rewrite IH, cell_count_app. f_equal. f_equal. rewrite (cell_count_all c [x]) by (by constructor). simpl. lia.
Qed.

Lemma span_spec tl l same rest : span tl l = (same, rest) → in_range tl → Forall in_range l →
  StronglySorted (λ a b, cell a ≤ cell b)%nat (tl :: l) →
  l = same ++ rest ∧ Forall (λ x, cell x = cell tl) same ∧ Forall (λ x, cell tl < cell x)%nat rest.
Proof.
  revert same rest. induction l as [|x l IH]; intros same rest Hsp Ht Hl Hs; simpl in Hsp; [by simplify_eq|].
  apply Forall_cons in Hl as [Hx Hl]. apply StronglySorted_inv in Hs as [Hs Htl]. apply Forall_cons in Htl as [Htx Htl].
  apply StronglySorted_inv in Hs as [Hs Hxl].
  destruct (tl_eqb x tl) eqn:E.
  - destruct (span tl l) as [same' rest'] eqn:Es. simplify_eq. apply tl_eqb_cell in E; [|done..].
    destruct (IH _ _ eq_refl Ht Hl) as (-> & ? & ?); [by constructor|]. split_and!; [done|by constructor|done].
  - simplify_eq. assert (cell x ≠ cell tl) as Hne by (intros H; apply tl_eqb_cell in H; congruence).
    split_and!; [done|done|]. constructor; [lia|]. eapply Forall_impl; [exact Hxl|]. simpl. lia.
Qed.

(** Writing [i] for the [i]-th of a run numbers a sorted list by cells. *)
Lemma runs_annot fuel l pre : (length l ≤ fuel)%nat → Forall in_range l → StronglySorted (λ a b, cell a ≤ cell b)%nat l →
  (∀ x y, x ∈ pre → y ∈ l → cell x ≠ cell y) →
  concat (numbered <$> runs fuel l) = annot pre l ∧ concat (runs fuel l) = l
  ∧ Forall (λ r, r ≠ [] ∧ ∃ c, Forall (λ tl, cell tl = c) r) (runs fuel l).
Proof.
  revert l pre. induction fuel as [|fuel IH]; intros l pre Hlen Hr Hs Hd; destruct l as [|tl l]; simpl in Hlen; try lia; try by (split_and!; done || constructor).
  pose proof Hr as [Htl Hrl]%Forall_cons. cbn [runs]. destruct (span tl l) as [same rest] eqn:Es.
  destruct (span_spec tl l same rest Es Htl Hrl Hs) as (-> & Hsame & Hrest).
  assert (Forall (λ x, cell x = cell tl) (tl :: same)) as Hrun by (by constructor).
  rewrite Forall_forall in Hrest, Hsame.
  destruct (IH rest (pre ++ tl :: same)) as (E1 & E2 & E3).
  - rewrite length_app in Hlen. lia.
  - by apply Forall_app in Hrl as [_ ?].
  - apply StronglySorted_inv in Hs as [Hs _]. by apply StronglySorted_app_1_r in Hs.
  - intros x y [Hx|Hx]%elem_of_app Hy; [apply Hd; [done|right; apply elem_of_app; by right]|].
    specialize (Hrest y Hy). apply elem_of_cons in Hx as [->|Hx]; [lia|]. specialize (Hsame x Hx). lia.
  - cbn [fmap list_fmap concat]. rewrite E1, E2. split_and!; [|done|by constructor; [split; [done|by eexists]|]].
    change (tl :: same ++ rest) with ((tl :: same) ++ rest). rewrite annot_app. f_equal.
    rewrite (annot_run (cell tl)) by done. unfold numbered. rewrite cell_count_none; [done|].
    apply Forall_forall. intros x Hx. apply Hd; [done|by left].
Qed.

(** The grids after the locations [pre]: pass [j] has, in cell [c], the [j]-th
    of the cell's locations. *)
Definition grids_ok (n : nat) (pre : list tuple_loc_t) (ps : list (list (option Z))) : Prop :=
  length ps = n ∧ ∀ j g, ps !! j = Some g → length g = N_CELLS
    ∧ ∀ c, (c < N_CELLS)%nat → g !! c = Some (idx <$> filter (λ tl, cell tl = c) pre !! j).

Lemma set_grid_step n pre ps x : grids_ok n pre ps → (cell x < N_CELLS)%nat → (cell_count (cell x) pre < n)%nat →
  ∃ ps', set_grid ps (cell_count (cell x) pre, x) = Ok ps' ∧ grids_ok n (pre ++ [x]) ps'.
Proof.
  intros [Hn Hg] Hc Hlt. unfold set_grid. destruct (lookup_lt_is_Some_2 ps (cell_count (cell x) pre)) as [g Hps]; [lia|].
  destruct (Hg _ _ Hps) as [Hgl Hgc]. unfold aget. rewrite Hps. cbn [mbind outcome_bind]. rewrite aset_lt by lia. cbn [mbind outcome_bind].
  rewrite aset_lt by lia. eexists. split; [done|]. split; [by rewrite length_insert|].
  intros j g' Hj. destruct (decide (j = cell_count (cell x) pre)) as [->|Hne].
  - rewrite list_lookup_insert_eq in Hj by lia. simplify_eq. rewrite length_insert. split; [done|]. intros c Hcl.
    rewrite filter_app. destruct (decide (c = cell x)) as [->|Hcx].
    + rewrite list_lookup_insert_eq by lia. rewrite filter_cons_True by done. rewrite lookup_app_r by done.
      unfold cell_count. by rewrite Nat.sub_diag.
    + rewrite list_lookup_insert_ne, filter_cons_False, filter_nil, app_nil_r by done. by apply Hgc.
  - rewrite list_lookup_insert_ne in Hj by done. destruct (Hg j g' Hj) as [? Hgj]. split; [done|]. intros c Hcl.
    rewrite (Hgj c Hcl), filter_app. do 2 f_equal. destruct (decide (cell x = c)) as [<-|Hcx].
    + rewrite filter_cons_True, filter_nil by done. unfold cell_count in Hne.
      destruct (decide (j < length (filter (λ tl, cell tl = cell x) pre))%nat) as [Hj'|Hj'].
      * by rewrite lookup_app_l.
      * rewrite (lookup_ge_None_2 (filter _ pre)) by lia. symmetry. apply lookup_ge_None_2. rewrite length_app. simpl. lia.
    + by rewrite filter_cons_False, filter_nil, app_nil_r by done.
Qed.

Lemma fill_grids n l pre ps : grids_ok n pre ps → Forall in_range l → (∀ p x, (p, x) ∈ annot pre l → (p < n)%nat) →
  ∃ ps', ofold set_grid (annot pre l) ps = Ok ps' ∧ grids_ok n (pre ++ l) ps'.
Proof.
  revert pre ps. induction l as [|x l IH]; intros pre ps Hg Hr Hp; cbn [annot ofold]; [exists ps; by rewrite app_nil_r|].
  apply Forall_cons in Hr as [Hx Hr]. destruct (set_grid_step n pre ps x Hg) as (ps1 & -> & Hg1); [by apply cell_lt|apply (Hp _ x); by left|].
  cbn [mbind outcome_bind]. destruct (IH (pre ++ [x]) ps1 Hg1 Hr) as (ps2 & H2 & Hg2); [intros p y Hy; apply (Hp p y); by right|].
  exists ps2. rewrite <-app_assoc in Hg2. done.
Qed.

Lemma annot_bound n l : (∀ p x, (p, x) ∈ annot [] l → (p < n)%nat) → ∀ c, (cell_count c l ≤ n)%nat.
Proof.
  induction l as [|x l IH] using rev_ind; intros Hp c; [unfold cell_count; simpl; lia|]. rewrite annot_app in Hp. cbn [annot app] in Hp.
  assert (cell_count c l ≤ n)%nat by (apply IH; intros p y Hy; apply (Hp p y), elem_of_app; by left).
  rewrite cell_count_app. destruct (decide (cell x = c)) as [<-|Hne].
  - rewrite (cell_count_all _ [x]) by (by constructor). specialize (Hp (cell_count (cell x) l) x). simpl.
    assert (cell_count (cell x) l < n)%nat; [|lia]. apply Hp, elem_of_app. right. by left.
  - rewrite (cell_count_none c [x]) by (by constructor). lia.
Qed.

Lemma n_passes_spec rs : (∀ r, r ∈ rs → (length r ≤ n_passes rs)%nat) ∧ (rs ≠ [] → ∃ r, r ∈ rs ∧ length r = n_passes rs).
Proof.
  unfold n_passes. induction rs as [|r rs [IH1 IH2]] using rev_ind; [split; [by intros r ?%not_elem_of_nil|done]|].
  rewrite foldl_app. simpl. split.
  - intros r' [Hr| ->%list_elem_of_singleton]%elem_of_app; [specialize (IH1 r' Hr)|]; lia.
  - intros _. destruct (decide (foldl (λ n r, n `max` length r) 0 rs ≤ length r)%nat) as [Hle|Hgt].
    + exists r. split; [apply elem_of_app; right; by left|lia].
    + destruct IH2 as (r' & Hr' & Hl); [by intros ->; simpl in Hgt; lia|]. exists r'. split; [apply elem_of_app; by left|lia].
Qed.

Lemma numbered_lt rs p x : (p, x) ∈ concat (numbered <$> rs) → (p < n_passes rs)%nat.
Proof.
  rewrite list_elem_of_In, in_concat. intros (nr & Hn & Hp). apply list_elem_of_In in Hn, Hp.
  apply list_elem_of_fmap in Hn as (r & -> & Hr). apply elem_of_zip_l, elem_of_seq in Hp.
  pose proof (proj1 (n_passes_spec rs) r Hr). lia.
Qed.

(** What [assign_passes] computes from locations in order. *)
Lemma assign_passes_spec l :
  Forall in_range l → StronglySorted (λ a b, cell a ≤ cell b)%nat l →
  let rs := runs (length l) l in
  ∃ ps, assign_passes rs = Ok ps ∧ grids_ok (n_passes rs) l ps
    ∧ (∀ c, (cell_count c l ≤ n_passes rs)%nat) ∧ (l ≠ [] → ∃ c, cell_count c l = n_passes rs).
Proof.
  intros Hr Hs rs. destruct (runs_annot (length l) l [] ltac:(done) Hr Hs) as (E1 & E2 & E3); [by intros x y ?%not_elem_of_nil|].
  fold rs in E1, E2, E3.
  assert (∀ p x, (p, x) ∈ annot [] l → (p < n_passes rs)%nat) as Hp by (intros p x; rewrite <-E1; apply numbered_lt).
  destruct (fill_grids (n_passes rs) l [] (replicate (n_passes rs) (replicate N_CELLS None))) as (ps & Hps & Hg); [|done|done|].
  { split; [by rewrite length_replicate|]. intros j g [-> _]%lookup_replicate. rewrite length_replicate. split; [done|].
    intros c Hc. rewrite filter_nil, lookup_nil. by apply lookup_replicate. }
  exists ps. unfold assign_passes. rewrite E1. split_and!; [done|done|by apply annot_bound|].
  intros Hne. destruct (proj2 (n_passes_spec rs)) as (r & Hin & Hlen); [by intros E; rewrite E in E2|].
  rewrite Forall_forall in E3. destruct (E3 r Hin) as (_ & c & Hc). exists c. apply Nat.le_antisymm; [by apply annot_bound|].
  apply list_elem_of_split in Hin as (rs1 & rs2 & Hrs). rewrite Hrs, concat_app in E2. cbn [concat] in E2.
  assert (cell_count c l = cell_count c (concat rs1 ++ r ++ concat rs2)) as -> by (by rewrite E2).
  rewrite !cell_count_app, (cell_count_all c r Hc), <-Hlen. lia.
Qed.

(** The passes of a transaction. *)
Lemma sw_txn_spec ks L prt txn :
  lay_ok ks L → (∀ k, k ∈ txn → k ∈ ks) → (length txn ≤ 100)%nat →
  ∃ t tls, sw_txn_make prt L txn = Ok t
    ∧ Forall2 (λ k tl, lookup_key L k = Some tl) txn tls ∧ locs t ≡ₚ tls
    ∧ StronglySorted (may_precede (loc_less L)) (locs t)
    ∧ grids_ok (length (passes t)) (locs t) (passes t)
    ∧ (∀ c, (cell_count c (locs t) ≤ length (passes t))%nat)
    ∧ (txn ≠ [] → ∃ c, cell_count c (locs t) = length (passes t)).
Proof.
  intros HL Hks Hlen. unfold sw_txn_make. rewrite bool_decide_eq_true_2 by done. cbn [assert mbind outcome_bind].
  destruct (ofold_total (λ pre acc, Forall2 (λ k tl, lookup_key L k = Some tl) pre acc)
    (λ acc k, match lookup_key L k with Some tl => Ok (acc ++ [tl]) | None => Fail (Thrown BadOptionalAccess) end) txn [])
    as (tls & -> & Htls); [constructor| |].
  { intros pre k post acc Hcut Hacc. destruct (lo_dom _ _ HL k) as [tl Htl].
    { apply Hks. rewrite Hcut. apply elem_of_app. right. by left. }
    rewrite Htl. eexists. split; [done|]. apply Forall2_app; [done|]. by repeat constructor. }
  cbn [mbind outcome_bind].
  assert (Forall in_range tls) as Hr.
  { apply Forall_lookup. intros i tl Hi. destruct (Forall2_lookup_r _ _ _ _ _ Htls Hi) as (k & _ & Hk).
    destruct (lo_back _ _ HL k tl Hk) as (_ & ? & ? & _). by split. }
  pose proof (std_sort_perm (loc_less L) tls) as Hperm.
  destruct (assign_passes_spec (std_sort (loc_less L) tls)) as (ps & -> & Hg & Hle & Hex); [by rewrite Hperm|by apply loc_sorted_cells|].
  cbn [mbind outcome_bind]. eexists _, tls. split; [done|]. cbn [locs passes]. pose proof (proj1 Hg) as Hn. rewrite Hn.
  split_and!; try done; [by apply std_sort_sorted, _|].
  intros Hne. apply Hex. intros E. rewrite E in Hperm. apply Permutation_nil_l in Hperm. subst tls. by inversion Htls.
Qed.

(** A transaction on keys of the layout becomes passes that hold exactly
    its locations: the [j]-th pass accesses, in each register array, the
    [j]-th of the transaction's slots of that array, hottest key first, so that
    every location is accessed in one pass and no pass uses an array twice; and
    there are as few passes as the most used array allows. *)
Theorem sw_txn_passes ks L prt txn :
  lay_ok ks L → (∀ k, k ∈ txn → k ∈ ks) → (length txn ≤ 100)%nat →
  ∃ t tls, sw_txn_make prt L txn = Ok t
    ∧ Forall2 (λ k tl, lookup_key L k = Some tl) txn tls ∧ locs t ≡ₚ tls
    ∧ StronglySorted (may_precede (loc_less L)) (locs t)
    ∧ grids_ok (length (passes t)) (locs t) (passes t)
    ∧ (∀ c, (cell_count c (locs t) ≤ length (passes t))%nat)
    ∧ (txn ≠ [] → ∃ c, cell_count c (locs t) = length (passes t)).
Proof. apply sw_txn_spec. Qed.

Lemma layout_make_ok txns : lay_ok (get_key_cts txns).*1 (layout_make txns).
Proof. apply (even_better_random_ok (lay_init txns)); [apply get_key_cts_NoDup|apply placed_init]. Qed.

Definition sim_txns : list txn_t := [[1; 2]; [2; 3]].

Lemma sw_txn_passes_witness :
  ∃ t, sw_txn_make 7 (layout_make sim_txns) [2; 1] = Ok t ∧ grids_ok (length (passes t)) (locs t) (passes t).
Proof.
  destruct (sw_txn_passes (get_key_cts sim_txns).*1 (layout_make sim_txns) 7 [2; 1]) as (t & tls & H & _ & _ & _ & Hg & _).
  - exact (layout_make_ok sim_txns).
  - intros k Hk. apply get_key_cts_keys. apply elem_of_cons in Hk as [->|Hk]; [right; left|].
    apply elem_of_cons in Hk as [->|Hk]; [left|]. by apply not_elem_of_nil in Hk.
  - simpl. lia.
  - exists t. split; [exact H|exact Hg].
Defined.

(** ** Locks *)

(** The transactions that go to the switch: one pass, or two with at most
    [PASS2_ACCEL_THR] operations in the second. *)
Definition pass2_ops (t : sw_txn_t) : nat := length (omap id (default [] (passes t !! 1%nat))).
Definition accelerated (t : sw_txn_t) : bool :=
  if bool_decide (2 < length (passes t))%nat then false
  else if bool_decide (length (passes t) = 2%nat) then bool_decide (pass2_ops t ≤ PASS2_ACCEL_THR)%nat
  else true.

(** The variables of the first loop of [prepare_txns_sw]. *)
Record prep := MkPrep {
  sw_txns : list sw_txn_t;
  to_lock : list (list tuple_loc_t);
  lock2_by_freq : gmap Z Z;
  total_freq : Z;
}.

(** The loop over the locations of a transaction: the array [pass2m_freqs],
    the locations to lock, the counts. *)
Record scan := MkScan { pass2m_freqs : list Z; s_lock : list tuple_loc_t; s_freq : gmap Z Z; s_total : Z }.

Definition scan_loc (L : layout_t) (s : scan) (tl : tuple_loc_t) : outcome scan :=
  k ← rev_lookup L (cell tl) (idx tl);
  freq ← get_key_ct L k;
  let '(m, n) := if bool_decide (idx tl ≠ 0) then (count_op (s_freq s) k, s_total s + 1) else (s_freq s, s_total s) in
  prev ← aget (pass2m_freqs s) (cell tl);
  lk ← (if 0 <? prev then assert (bool_decide (idx tl ≠ 0));; Ok (s_lock s ++ [tl]) else Ok (s_lock s));
  freqs ← aset (pass2m_freqs s) (cell tl) freq;
  Ok (MkScan freqs lk m n).

Definition prepare_one (prt : Z) (L : layout_t) (p : prep) (txn : txn_t) : outcome prep :=
  t ← sw_txn_make prt L txn;
  if accelerated t then
    assert (bool_decide (length (locs t) = length (orig_txn t)));;
    s ← ofold (scan_loc L) (locs t) (MkScan zeros [] (lock2_by_freq p) (total_freq p));
    Ok (MkPrep (sw_txns p ++ [t]) (to_lock p ++ [s_lock s]) (s_freq s) (s_total s))
  else Ok p.

(** The inner loop that fills a lock: the keys it takes and the rest. *)
Fixpoint fill_lock (quantum fsum : Z) (l : list (Z * Z)) : list Z * list (Z * Z) :=
  match l with
  | [] => ([], [])
  | (k, f) :: l' => if fsum <? quantum then let '(ks, rest) := fill_lock quantum (fsum + f) l' in (k :: ks, rest) else ([], l)
  end.

(** The loop that gives locks to keys, in order of frequency. *)
Fixpoint assign_locks (fuel : nat) (quantum : Z) (lock_num : nat) (l : list (Z * Z)) : list (Z * nat) :=
  match fuel, l with
  | S fuel', (k, f) :: l' =>
      let '(ks, rest) := fill_lock quantum f l' in
      ((λ k, (k, lock_num)) <$> k :: ks) ++ assign_locks fuel' quantum (S lock_num) rest
  | _, _ => []
  end.

(** [std::bitset<N_LOCKS>::set]. *)
Definition set_lock (b : Z) (i : nat) : outcome Z :=
  if bool_decide (i < N_LOCKS)%nat then Ok (Z.lor b (Z.shiftl 1 (Z.of_nat i))) else Fail (Thrown OutOfRangeError).

(** [locks.set(lock_idxs[rev_lookup(tl)])]; an absent key gets lock 0. *)
Definition set_lock_of (L : layout_t) (lock_idxs : gmap Z nat) (b : Z) (tl : tuple_loc_t) : outcome Z :=
  k ← rev_lookup L (cell tl) (idx tl);
  set_lock b (default 0%nat (lock_idxs !! k)).

Definition fill_locks (L : layout_t) (lock_idxs : gmap Z nat) (x : sw_txn_t * list tuple_loc_t) : outcome sw_txn_t :=
  let '(t, tls) := x in
  check ← ofold (set_lock_of L lock_idxs) (locs t) (locks_check t);
  wanted ← ofold (set_lock_of L lock_idxs) tls (locks_wanted t);
  assert (Z.land wanted check =? wanted);;
  Ok (MkSwTxn (port t) (txn_id t) (pass_ct t) (fail_ct t) (orig_txn t) (valid t) check wanted (locks_undo t) (locs t) (passes t) (one_lock t)).

Definition lock_table (p : prep) : list (Z * nat) :=
  let lock2_v := std_sort (λ p1 p2, p2.2 <? p1.2) (map_to_list (lock2_by_freq p)) in
  let lock_quantum := (total_freq p + Z.of_nat N_LOCKS - 1) / Z.of_nat N_LOCKS in
  assign_locks (length lock2_v) lock_quantum 0 lock2_v.

(** [prepare_txns_sw]. *)
Definition prepare_txns_sw (prt : Z) (txns : list txn_t) (L : layout_t) : outcome (list sw_txn_t) :=
  p ← ofold (prepare_one prt L) txns (MkPrep [] [] ∅ 0);
  let lock_idxs : gmap Z nat := list_to_map (lock_table p) in
  assert (bool_decide (size lock_idxs = size (lock2_by_freq p)));;
  ofold (λ acc x, t ← fill_locks L lock_idxs x; Ok (acc ++ [t])) (zip (sw_txns p) (to_lock p)) [].

(** *** There are enough locks *)

Definition sum_snd (l : list (Z * Z)) : Z := foldr (λ p s, p.2 + s) 0 l.

Lemma sum_snd_app l1 l2 : sum_snd (l1 ++ l2) = sum_snd l1 + sum_snd l2.
Proof. induction l1 as [|p l1 IH]; simpl; [done|]. rewrite IH. lia. Qed.

Lemma sum_snd_perm l1 l2 : l1 ≡ₚ l2 → sum_snd l1 = sum_snd l2.
Proof. induction 1; simpl; lia. Qed.

Lemma sum_snd_nonneg l : Forall (λ p : Z * Z, 1 ≤ p.2) l → 0 ≤ sum_snd l.
Proof. induction 1; simpl in *; lia. Qed.

Lemma fill_lock_spec q s l ks rest : fill_lock q s l = (ks, rest) →
  ∃ taken, l = taken ++ rest ∧ ks = taken.*1 ∧ (rest = [] ∨ q ≤ s + sum_snd taken).
Proof.
  revert s ks rest. induction l as [|[k f] l IH]; intros s ks rest H; simpl in H; [simplify_eq; exists []; auto|].
  destruct (Z.ltb_spec s q) as [Hlt|Hge].
  - destruct (fill_lock q (s + f) l) as [ks' rest'] eqn:E. simplify_eq. destruct (IH _ _ _ E) as (taken & -> & -> & Hor).
    exists ((k, f) :: taken). split_and!; [done|done|]. destruct Hor; [by left|right]. simpl. lia.
  - simplify_eq. exists []. split_and!; [done|done|]. right. simpl. lia.
Qed.

Lemma assign_locks_spec fuel q n l : (length l ≤ fuel)%nat → Forall (λ p, 1 ≤ p.2) l →
  (assign_locks fuel q n l).*1 = l.*1
  ∧ ∀ k i, (k, i) ∈ assign_locks fuel q n l → (n ≤ i)%nat ∧ (Z.of_nat i - Z.of_nat n) * q < sum_snd l.
Proof.
  revert n l. induction fuel as [|fuel IH]; intros n l Hlen Hpos; destruct l as [|[k f] l]; simpl in Hlen; try lia;
    try (split; [done|]; by intros k i ?%not_elem_of_nil).
  cbn [assign_locks]. destruct (fill_lock q f l) as [ks rest] eqn:E. destruct (fill_lock_spec _ _ _ _ _ E) as (taken & -> & -> & Hor).
  apply Forall_cons in Hpos as [Hf Hpos]. apply Forall_app in Hpos as [Hpt Hpr]. simpl in Hf.
  destruct (IH (S n) rest) as [IH1 IH2]; [rewrite length_app in Hlen; lia|done|].
  rewrite fmap_app, IH1. split.
  - cbn [fmap list_fmap app fst]. f_equal. rewrite fmap_app. f_equal. rewrite <-!list_fmap_compose. by apply list_fmap_ext.
  - intros k' i [(k0 & [= -> ->] & _)%list_elem_of_fmap|Hin]%elem_of_app;
      change (sum_snd ((k, f) :: taken ++ rest)) with (f + sum_snd (taken ++ rest)); rewrite sum_snd_app.
    + pose proof (sum_snd_nonneg _ Hpt). pose proof (sum_snd_nonneg _ Hpr). lia.
    + destruct (IH2 k' i Hin) as [Hle Hlt]. split; [lia|].
      destruct Hor as [->|Hge]; [destruct fuel; by apply not_elem_of_nil in Hin|]. nia.
Qed.

(** The number of a lock fits the bitset: [lock_quantum] is a share of the
    total that [N_LOCKS] locks exhaust. *)
Lemma lock_numbers p : Forall (λ kf, 1 ≤ kf.2) (map_to_list (lock2_by_freq p)) → total_freq p = sum_snd (map_to_list (lock2_by_freq p)) →
  (lock_table p).*1 ≡ₚ (map_to_list (lock2_by_freq p)).*1 ∧ ∀ k i, (k, i) ∈ lock_table p → (i < N_LOCKS)%nat.
Proof.
  intros Hpos Htot. unfold lock_table. set (l := std_sort _ _). pose proof (std_sort_perm (λ p1 p2 : Z * Z, p2.2 <? p1.2) (map_to_list (lock2_by_freq p))) as Hp.
  fold l in Hp. set (q := (_ / _)). destruct (assign_locks_spec (length l) q 0 l) as [H1 H2]; [done|by rewrite Hp|].
  rewrite H1, Hp. split; [done|]. intros k i Hin. destruct (H2 k i Hin) as [_ Hlt]. rewrite (sum_snd_perm _ _ Hp), <-Htot in Hlt.
  assert (total_freq p ≤ Z.of_nat N_LOCKS * q) as Hq.
  { unfold q. change (Z.of_nat N_LOCKS) with 32. pose proof (Z.div_mod (total_freq p + 32 - 1) 32 ltac:(lia)).
    pose proof (Z.mod_pos_bound (total_freq p + 32 - 1) 32 ltac:(lia)). lia. }
  pose proof (sum_snd_nonneg _ Hpos) as Hnn. rewrite <-Htot in Hnn.
  change (Z.of_nat N_LOCKS) with 32 in Hq. change N_LOCKS with 32%nat. nia.
Qed.
