(* ===== verification/NaiveSpray.v ===== *)
(** * Spraying keys in order

    [uniq_op_iter_t] and [naive_spray_impl] of [mine/fast_layout/src/layout.cpp]:
    the iterator over the different keys of a batch, in the order of their first
    use, and the layout that gives them the slots of all register arrays in turn.
    The constructor of [layout_t] has the call commented out. *)
From stdpp Require Import base tactics list numbers gmap.
From Stdlib Require Import ZArith Lia.
From S2P Require Import Prelude SimLayout.

#[local] Open Scope Z_scope.

(** ** The iterator *)

Record uniq_op_iter_t := MkIter { txn_it_ : nat; op_it_ : nat; visited_ : gset Z }.

Section iter.
Context (txns : list txn_t).

Definition in_bounds (it : uniq_op_iter_t) : bool :=
  match (txns !! txn_it_ it : option txn_t) with Some t => bool_decide (op_it_ it < length t)%nat | None => false end.
Definition op_at (i : nat) (t : txn_t) : outcome Z := aget t i.
Definition iter_get (it : uniq_op_iter_t) : outcome Z := aget txns (txn_it_ it) ≫= op_at (op_it_ it).
Definition iter_valid (it : uniq_op_iter_t) : outcome bool :=
  if in_bounds it then k ← iter_get it; Ok (bool_decide (k ∉ visited_ it)) else Ok false.

(** [while (txn_it_ < txns_.size() && txns_[txn_it_].ops.size() == 0)]: how many
    transactions it passes over. *)
Fixpoint empties (l : list txn_t) : nat :=
  match l with t :: l' => if bool_decide (length t = 0%nat) then S (empties l') else 0%nat | [] => 0%nat end.

(** The constructor. *)
Definition iter_make : outcome uniq_op_iter_t :=
  let it := MkIter (empties txns) 0 ∅ in
  v ← iter_valid it;
  assert (bool_decide (length txns = 0%nat) || v);;
  Ok it.

(** The body of the loop of [advance]. *)
Definition iter_move (it : uniq_op_iter_t) : outcome uniq_op_iter_t :=
  aget txns (txn_it_ it) ≫= λ t : txn_t,
  if bool_decide (op_it_ it = length t - 1)%nat then Ok (MkIter (S (txn_it_ it) + empties (drop (S (txn_it_ it)) txns)) 0 (visited_ it))
  else Ok (MkIter (txn_it_ it) (S (op_it_ it)) (visited_ it)).

Fixpoint iter_skip (fuel : nat) (it : uniq_op_iter_t) : outcome uniq_op_iter_t :=
  v ← iter_valid it;
  if in_bounds it && negb v then
    match fuel with O => Fail Spins | S fuel' => it' ← iter_move it; iter_skip fuel' it' end
  else Ok it.

Definition advance (it : uniq_op_iter_t) : outcome uniq_op_iter_t :=
  v ← iter_valid it;
  assert v;;
  k ← iter_get it;
  iter_skip (length (concat txns)) (MkIter (txn_it_ it) (op_it_ it) ({[k]} ∪ visited_ it)).

(** ** The layout *)

(** The three loops, from location number [n] on: [{s, r, i}] in the order of
    [i], [s], [r]. *)
Definition nth_loc (n : nat) : tuple_loc_t := at_cell (n `mod` N_CELLS) (Z.of_nat (n / N_CELLS)).
Fixpoint spray_loop (todo n : nat) (it : uniq_op_iter_t) (L : layout_t) : outcome layout_t :=
  match todo with
  | O => Ok L
  | S todo' =>
      v ← iter_valid it;
      if (v : bool) then
        key ← iter_get it;
        it' ← advance it;
        spray_loop todo' (S n) it' (set_loc_of key (nth_loc n) L)
      else Ok L
  end.

Definition naive_spray_impl (L : layout_t) : outcome layout_t :=
  it ← iter_make; spray_loop (Z.to_nat (SLOTS_PER_REG * Z.of_nat N_CELLS)) 0 it L.
End iter.

(** ** What is left to visit *)

Section left.
Context (txns : list txn_t).

Definition rest (it : uniq_op_iter_t) : list Z :=
  match (txns !! txn_it_ it : option txn_t) with Some t => drop (op_it_ it) t ++ concat (drop (S (txn_it_ it)) txns) | None => [] end.

(** The iterator is at an operation or behind the last one. *)
Definition iter_ok (it : uniq_op_iter_t) : Prop := in_bounds txns it = true ∨ (length txns ≤ txn_it_ it)%nat.

Lemma empties_spec (l : list txn_t) : concat (drop (empties l) l) = concat l ∧
  ((length l ≤ empties l)%nat ∨ ∃ t : txn_t, l !! empties l = Some t ∧ (0 < length t)%nat).
Proof.
  induction l as [|t l [IH1 IH2]]; cbn [empties]; [split; [done|left; done]|]. case_bool_decide as E.
  - apply nil_length_inv in E as ->. cbn [drop concat lookup list_lookup length]. split; [exact IH1|]. destruct IH2; [left; lia|by right].
  - split; [done|]. right. exists t. split; [done|lia].
Qed.

Lemma rest_bounds it : in_bounds txns it = true → ∃ (t : txn_t) k, txns !! txn_it_ it = Some t ∧ (t : list Z) !! op_it_ it = Some k ∧ iter_get txns it = Ok k
  ∧ rest it = k :: drop (S (op_it_ it)) t ++ concat (drop (S (txn_it_ it)) txns).
Proof.
  unfold in_bounds, rest, iter_get. intros H. destruct (txns !! txn_it_ it : option txn_t) as [t|] eqn:E; [|done]. apply bool_decide_eq_true in H.
  destruct (lookup_lt_is_Some_2 (t : list Z) _ H) as [k Hk]. exists t, k. split_and!; try done.
  - rewrite (aget_some _ _ _ E). cbn [mbind outcome_bind]. by apply aget_some.
  - by rewrite (drop_S t k).
Qed.

Lemma rest_end it : iter_ok it → in_bounds txns it = false → rest it = [].
Proof. intros [H|H] Hb; [congruence|]. unfold rest. by rewrite lookup_ge_None_2. Qed.

Lemma valid_rest it : iter_ok it → iter_valid txns it = Ok match rest it with k :: _ => bool_decide (k ∉ visited_ it) | [] => false end.
Proof.
  intros Hok. unfold iter_valid. destruct (in_bounds txns it) eqn:Hb; [|by rewrite rest_end].
  destruct (rest_bounds it Hb) as (t & k & _ & _ & -> & ->). done.
Qed.

(** A move takes the first of them. *)
Lemma move_rest it k l : in_bounds txns it = true → rest it = k :: l →
  ∃ it', iter_move txns it = Ok it' ∧ iter_ok it' ∧ rest it' = l ∧ visited_ it' = visited_ it.
Proof.
  intros Hb Hr. destruct (rest_bounds it Hb) as (t & k' & Ht & Hk & _ & Hr'). rewrite Hr' in Hr. injection Hr as -> Hl. unfold iter_move.
  rewrite (aget_some _ _ _ Ht). cbn [mbind outcome_bind]. pose proof (lookup_lt_Some _ _ _ Hk) as Hlt. case_bool_decide as Hend.
  - eexists. split; [done|]. rewrite drop_ge in Hl by (cbn; lia). cbn [app] in Hl.
    destruct (empties_spec (drop (S (txn_it_ it)) txns)) as [H1 H2]. rewrite length_drop, lookup_drop in H2. rewrite drop_drop in H1.
    split; [|split; [|done]].
    + unfold iter_ok, in_bounds. cbn [txn_it_ op_it_]. destruct H2 as [H2|(t' & H2 & Hpos)]; [right; lia|]. left. rewrite H2. by apply bool_decide_eq_true.
    + unfold rest. cbn [txn_it_ op_it_]. destruct (txns !! (S (txn_it_ it) + empties (drop (S (txn_it_ it)) txns))%nat : option txn_t) as [t'|] eqn:E'.
      * rewrite <-Hl, <-H1. rewrite (drop_S txns t' _ E'). done.
      * rewrite <-Hl, <-H1. rewrite drop_ge; [done|]. by apply lookup_ge_None_1.
  - eexists. split; [done|]. split; [|split; [|done]].
    + left. unfold in_bounds. cbn [txn_it_ op_it_]. rewrite Ht. apply bool_decide_eq_true. lia.
    + unfold rest. cbn [txn_it_ op_it_]. by rewrite Ht.
Qed.

(** The operations that are not on visited keys: what [advance] stops at, and the
    different keys among them. *)
Fixpoint unseen (v : gset Z) (l : list Z) : list Z :=
  match l with [] => [] | k :: l' => if bool_decide (k ∈ v) then unseen v l' else l end.
Fixpoint uniq (v : gset Z) (l : list Z) : list Z :=
  match l with [] => [] | k :: l' => if bool_decide (k ∈ v) then uniq v l' else k :: uniq ({[k]} ∪ v) l' end.

Lemma uniq_unseen v l : uniq v (unseen v l) = uniq v l.
Proof. induction l as [|k l IH]; cbn [unseen uniq]; [done|]. case_bool_decide as E; [exact IH|]. cbn [uniq]. by rewrite bool_decide_eq_false_2. Qed.

Lemma unseen_head v l k l' : unseen v l = k :: l' → k ∉ v.
Proof. induction l as [|x l IH]; cbn [unseen]; [done|]. case_bool_decide; [exact IH|]. intros [= <- <-]. done. Qed.

Lemma skip_rest fuel it : iter_ok it → (length (rest it) ≤ fuel)%nat →
  ∃ it', iter_skip txns fuel it = Ok it' ∧ iter_ok it' ∧ rest it' = unseen (visited_ it) (rest it) ∧ visited_ it' = visited_ it.
Proof.
  revert it. induction fuel as [|fuel IH]; intros it Hok Hlen; cbn [iter_skip]; rewrite (valid_rest it Hok); cbn [mbind outcome_bind];
    (destruct (in_bounds txns it) eqn:Hb; [|rewrite (rest_end it Hok Hb); exists it; by rewrite (rest_end it Hok Hb)]);
    destruct (rest_bounds it Hb) as (t & k & _ & _ & _ & Hr); [rewrite Hr in Hlen; cbn in Hlen; lia|].
  destruct (rest it) as [|k' l] eqn:El; [done|]. cbn [unseen andb]. destruct (decide (k' ∈ visited_ it)) as [Hin|Hin].
  - rewrite bool_decide_eq_false_2 by (intros H; by apply H). cbn [negb]. destruct (move_rest it k' l Hb El) as (it1 & -> & Hok1 & Hr1 & Hv1). cbn [mbind outcome_bind].
    destruct (IH it1 Hok1) as (it2 & H2 & Hok2 & Hr2 & Hv2); [cbn in Hlen; rewrite Hr1; lia|]. exists it2. rewrite bool_decide_eq_true_2 by done.
    rewrite Hr1, Hv1 in Hr2. split_and!; try done. congruence.
  - rewrite bool_decide_eq_true_2 by done. exists it. rewrite bool_decide_eq_false_2 by done. done.
Qed.

Lemma rest_length it : (length (rest it) ≤ length (concat txns))%nat.
Proof.
  unfold rest. destruct (txns !! txn_it_ it : option txn_t) as [t|] eqn:E; [|cbn; lia]. rewrite <-(take_drop_middle txns _ t E) at 2.
  rewrite concat_app, !length_app. cbn [concat]. rewrite length_app, length_drop. lia.
Qed.

(** The iterator is not at a visited key. *)
Definition settled (it : uniq_op_iter_t) : Prop := iter_ok it ∧ unseen (visited_ it) (rest it) = rest it.

Lemma advance_rest it k l : settled it → rest it = k :: l →
  iter_valid txns it = Ok true ∧ iter_get txns it = Ok k
  ∧ ∃ it', advance txns it = Ok it' ∧ settled it' ∧ uniq (visited_ it) (rest it) = k :: uniq (visited_ it') (rest it').
Proof.
  intros [Hok Hs] Hr. assert (k ∉ visited_ it) as Hk by (eapply unseen_head; rewrite Hs; exact Hr).
  assert (in_bounds txns it = true) as Hb by (destruct (in_bounds txns it) eqn:E; [done|]; rewrite (rest_end it Hok E) in Hr; done).
  assert (iter_valid txns it = Ok true) as Hv by (rewrite (valid_rest it Hok), Hr; by rewrite bool_decide_eq_true_2).
  destruct (rest_bounds it Hb) as (t & k' & _ & _ & Hg & Hr'). rewrite Hr in Hr'. injection Hr' as <- _. split; [done|]. split; [done|].
  unfold advance. rewrite Hv. cbn [mbind outcome_bind assert]. rewrite Hg. cbn [mbind outcome_bind]. set (it1 := MkIter _ _ _).
  assert (rest it1 = k :: l) as Hr1 by exact Hr. destruct (skip_rest (length (concat txns)) it1) as (it2 & H2 & Hok2 & Hr2 & Hv2); [exact Hok|apply rest_length|].
  exists it2. split; [exact H2|]. rewrite Hr1 in Hr2. cbn [unseen] in Hr2. rewrite bool_decide_eq_true_2 in Hr2 by (cbn; set_solver).
  rewrite Hv2, Hr2. split; [split; [done|]|].
  - rewrite Hv2, Hr2. clear. induction l as [|x l IH]; [done|]. cbn [unseen]. case_bool_decide as E; [exact IH|]. cbn [unseen]. by rewrite bool_decide_eq_false_2.
  - rewrite Hr, uniq_unseen. cbn [uniq]. by rewrite bool_decide_eq_false_2.
Qed.

(** ** The layout that is made *)

Definition spray (n : nat) (ks : list Z) (L : layout_t) : layout_t :=
  foldl (λ L x, set_loc_of x.2 (nth_loc x.1) L) L (zip (seq n (length ks)) ks).

Lemma spray_rest todo n it L : settled it → spray_loop txns todo n it L = Ok (spray n (take todo (uniq (visited_ it) (rest it))) L).
Proof.
  revert n it L. induction todo as [|todo IH]; intros n it L Hs; cbn [spray_loop]; [done|]. destruct (rest it) as [|k l] eqn:Hr.
  - rewrite (valid_rest it (proj1 Hs)), Hr. done.
  - destruct (advance_rest it k l Hs Hr) as (-> & -> & it' & -> & Hs' & Hu). cbn [mbind outcome_bind]. rewrite (IH (S n) it' _ Hs'). rewrite <-Hr, Hu. done.
Qed.

Lemma make_rest : concat txns ≠ [] → ∃ it, iter_make txns = Ok it ∧ settled it ∧ visited_ it = ∅ ∧ rest it = concat txns.
Proof.
  intros Hne. destruct (empties_spec txns) as [H1 H2]. unfold iter_make. set (it := MkIter _ _ _).
  destruct H2 as [H2|(t & Ht & Hpos)]; [by rewrite drop_ge in H1 by done|].
  assert (in_bounds txns it = true) as Hb by (unfold in_bounds; cbn [it txn_it_ op_it_]; rewrite Ht; by apply bool_decide_eq_true).
  assert (rest it = concat txns) as Hr by (unfold rest; cbn [it txn_it_ op_it_]; rewrite Ht, drop_0, <-H1, (drop_S txns t _ Ht); done).
  assert (unseen ∅ (concat txns) = concat txns) as Hun by (destruct (concat txns); [done|]; cbn [unseen]; by rewrite bool_decide_eq_false_2 by set_solver).
  exists it. rewrite (valid_rest it (or_introl Hb)), Hr. cbn [mbind outcome_bind]. destruct (concat txns) as [|k l] eqn:E; [done|].
  rewrite (bool_decide_eq_true_2 (k ∉ _)) by set_solver. rewrite orb_true_r. cbn [assert mbind outcome_bind]. split_and!; try done. split; [by left|]. by rewrite Hr.
Qed.
End left.

(** ** The layout is a bijection *)

Lemma uniq_spec v l : NoDup (uniq v l) ∧ ∀ k, k ∈ uniq v l ↔ k ∈ l ∧ k ∉ v.
Proof.
  revert v. induction l as [|x l IH]; intros v; cbn [uniq]; [split; [constructor|set_solver]|]. case_bool_decide as E.
  - destruct (IH v) as [Hn Hk]. split; [done|]. intros k. rewrite Hk. set_solver.
  - destruct (IH ({[x]} ∪ v)) as [Hn Hk]. split; [constructor; [rewrite Hk; set_solver|done]|].
    intros k. rewrite !elem_of_cons, Hk, not_elem_of_union, not_elem_of_singleton. destruct (decide (k = x)) as [->|]; naive_solver.
Qed.

Lemma spray_snoc n ks k L : spray n (ks ++ [k]) L = set_loc_of k (nth_loc (n + length ks)) (spray n ks L).
Proof.
  unfold spray. rewrite length_app. cbn [length]. rewrite seq_app. cbn [seq]. rewrite zip_with_app by (by rewrite length_seq).
  by rewrite foldl_app.
Qed.

(** How many of the first [n] locations are in cell [c]. *)
Definition filled (n c : nat) : Z := Z.of_nat ((n + N_CELLS - 1 - c) / N_CELLS).

Lemma filled_step n c : (c < N_CELLS)%nat → filled (S n) c = filled n c + (if decide (c = n `mod` N_CELLS)%nat then 1 else 0).
Proof.
  unfold filled. change N_CELLS with 36%nat. intros Hc. pose proof (Nat.div_mod_eq n 36). pose proof (Nat.mod_upper_bound n 36).
  pose proof (Nat.div_mod_eq (n + 36 - 1 - c) 36). pose proof (Nat.mod_upper_bound (n + 36 - 1 - c) 36).
  pose proof (Nat.div_mod_eq (S n + 36 - 1 - c) 36). pose proof (Nat.mod_upper_bound (S n + 36 - 1 - c) 36). case_decide; lia.
Qed.

Lemma filled_here n : filled n (n `mod` N_CELLS) = Z.of_nat (n / N_CELLS).
Proof.
  unfold filled. change N_CELLS with 36%nat. pose proof (Nat.div_mod_eq n 36). pose proof (Nat.mod_upper_bound n 36).
  f_equal. symmetry. apply (Nat.div_unique _ _ _ 35); lia.
Qed.

Lemma cell_of_lt n : (n `mod` N_CELLS < N_CELLS)%nat.
Proof. by apply Nat.mod_upper_bound. Qed.

Lemma spray_placed ks L : NoDup ks → placed [] zeros (forward_ L) (backward_per_reg_ L) →
  (∃ alloc, placed ks alloc (forward_ (spray 0 ks L)) (backward_per_reg_ (spray 0 ks L)) ∧ ∀ c, (c < N_CELLS)%nat → alloc !!! c = filled (length ks) c)
  ∧ ∀ i k, ks !! i = Some k → lookup_key (spray 0 ks L) k = Some (nth_loc i).
Proof.
  intros Hnd H0. induction ks as [|k ks IH] using rev_ind.
  { split; [|done]. exists zeros. split; [exact H0|]. intros c Hc. unfold zeros, filled. rewrite lookup_total_replicate_2 by done.
    rewrite Nat.div_small; [done|]. cbn [length]. lia. }
  apply NoDup_app in Hnd as (Hnd & Hk & _). destruct (IH Hnd) as ((alloc & Hp & Ha) & Hl).
  assert (k ∉ ks) as Hfresh by (intros Hin; by apply (Hk k Hin), list_elem_of_singleton).
  rewrite spray_snoc. cbn [Nat.add]. set (n := length ks) in *. set (c := (n `mod` N_CELLS)%nat). pose proof (cell_of_lt n) as Hc. fold c in Hc.
  assert (alloc !!! c = Z.of_nat (n / N_CELLS)) as Hac by (rewrite (Ha c Hc); apply filled_here). split.
  - eexists. split.
    + unfold set_loc_of, nth_loc. cbn [forward_ backward_per_reg_ idx at_cell]. fold c. rewrite cell_at, <-Hac. apply placed_step; [exact Hp|exact Hfresh|exact Hc].
    + intros c' Hc'. rewrite length_app. cbn [length]. replace (length ks + 1)%nat with (S n) by (subst n; lia). rewrite (filled_step n c' Hc'). fold c.
      destruct (decide (c' = c)) as [->|Hne].
      * rewrite list_lookup_total_insert_eq by (rewrite (pl_alloc _ _ _ _ Hp); exact Hc). by rewrite (Ha c Hc).
      * rewrite list_lookup_total_insert_ne by done. rewrite (Ha c' Hc'). lia.
  - intros i k' Hi. unfold lookup_key, set_loc_of. cbn [forward_]. apply lookup_app_Some in Hi as [Hi|[Hle Hi]].
    + rewrite lookup_insert_ne; [by apply Hl|]. intros ->. by apply Hfresh, (list_elem_of_lookup_2 _ i).
    + apply list_lookup_singleton_Some in Hi as [Hi <-]. rewrite lookup_insert_eq. do 2 f_equal. subst n. lia.
Qed.

Definition CAPACITY : nat := Z.to_nat (SLOTS_PER_REG * Z.of_nat N_CELLS).

(** [naive_spray_impl] gives the different keys of a batch, in the order of their
    first use, the slots of the register arrays in turn, row after row, as far as
    there are slots; the places are pairwise different and both directions of the
    layout agree. A batch that has transactions but no operation fails the
    assertion of the iterator's constructor, one without transactions does not. *)
Theorem naive_spray_bijective (txns L0 : list txn_t) :
  match concat txns with
  | [] => naive_spray_impl txns (lay_init L0) = match txns with [] => Ok (lay_init L0) | _ => Fail AssertFailed end
  | _ =>
      let ks := take CAPACITY (uniq ∅ (concat txns)) in
      ∃ L, naive_spray_impl txns (lay_init L0) = Ok L ∧ lay_ok ks L ∧ (∀ i k, ks !! i = Some k → lookup_key L k = Some (nth_loc i))
        ∧ ∀ k, k ∈ uniq ∅ (concat txns) ↔ k ∈ concat txns
  end.
Proof.
  destruct (concat txns) as [|x xs] eqn:E.
  - destruct (empties_spec txns) as [H1 H2]. rewrite E in H1. unfold naive_spray_impl, iter_make, iter_valid, in_bounds. cbn [txn_it_ op_it_].
    assert (txns !! empties txns = None) as ->.
    { apply lookup_ge_None_2. destruct H2 as [H2|(t & Ht & Hpos)]; [done|]. rewrite (drop_S txns t _ Ht) in H1. cbn [concat] in H1.
      apply app_eq_nil in H1 as [-> _]. cbn in Hpos. lia. }
    cbn [mbind outcome_bind]. destruct txns as [|t txns]; cbn [length]; [|done]. cbn [assert orb mbind outcome_bind]. fold CAPACITY. by destruct CAPACITY.
  - cbv zeta. rewrite <-E. destruct (make_rest txns) as (it & Hm & Hs & Hv & Hr); [by rewrite E|]. unfold naive_spray_impl. rewrite Hm. cbn [mbind outcome_bind].
    rewrite (spray_rest txns _ 0 it _ Hs), Hv, Hr. fold CAPACITY. eexists. split; [done|]. destruct (uniq_spec ∅ (concat txns)) as [Hnd Hin].
    destruct (spray_placed (take CAPACITY (uniq ∅ (concat txns))) (lay_init L0)) as [(alloc & Hp & _) Hl]; [eapply sublist_NoDup; [apply Hnd|apply sublist_take]|apply placed_init|].
    split_and!; [by eapply placed_lay_ok|exact Hl|]. intros k. rewrite Hin. split; [by intros [? _]|]. intros ?. split; [done|apply not_elem_of_empty].
Qed.
