(* ===== verification/SimLocks.v ===== *)
(** * The locks of the simulator's transactions

    [prepare_txns_sw] (layout.cpp): which transactions go to the switch, and
    that the locks it gives them detect every conflict with a second pass. *)
From stdpp Require Import base tactics list numbers gmap sorting.
From Stdlib Require Import ZArith Lia.
From S2P Require Import Prelude SimLayout.

#[local] Open Scope Z_scope.

(** ** Hotter keys have lower slots *)

Lemma cts_may_precede (p q : Z * Z) : may_precede (λ p1 p2 : Z * Z, p2.2 <? p1.2) p q ↔ q.2 ≤ p.2.
Proof. unfold may_precede. destruct (Z.ltb_spec q.2 p.2), (Z.ltb_spec p.2 q.2); simpl; lia. Qed.

#[local] Instance cts_trans : Transitive (may_precede (λ p1 p2 : Z * Z, p2.2 <? p1.2)).
Proof. intros p q r. rewrite !cts_may_precede. lia. Qed.

Lemma get_key_cts_sorted txns i j p q : get_key_cts txns !! i = Some p → get_key_cts txns !! j = Some q → (i < j)%nat → q.2 ≤ p.2.
Proof.
  intros Hi Hj Hij. apply cts_may_precede. unfold get_key_cts in *. eapply StronglySorted_lookup; [apply std_sort_sorted, _|done..].
Qed.

(** Within a cell, the counts of the keys do not grow with the slots. *)
Definition hot_first (pre : list (Z * Z)) (L : layout_t) : Prop :=
  ∀ k1 k2 tl1 tl2, lookup_key L k1 = Some tl1 → lookup_key L k2 = Some tl2 → cell tl1 = cell tl2 → idx tl1 < idx tl2 →
    ∃ f1 f2, (k1, f1) ∈ pre ∧ (k2, f2) ∈ pre ∧ f2 ≤ f1.

Lemma hot_first_step pre alloc L k f c :
  placed pre.*1 alloc (forward_ L) (backward_per_reg_ L) → k ∉ pre.*1 → (c < N_CELLS)%nat →
  (∀ k1 f1, (k1, f1) ∈ pre → f ≤ f1) → hot_first pre L → hot_first (pre ++ [(k, f)]) (place alloc L k c).2.
Proof.
  intros Hp Hk Hc Hf Hh k1 k2 tl1 tl2. unfold lookup_key, place. cbn [snd set_loc_of forward_].
  intros [[<- <-]|[Hn1 H1]]%lookup_insert_Some [[<- <-]|[Hn2 H2]]%lookup_insert_Some; rewrite ?cell_at; cbn [at_cell idx]; intros Hcell Hidx.
  - lia.
  - destruct (pl_fwd _ _ _ _ Hp _ _ H2) as (_ & _ & _ & Hi & _). rewrite <-Hcell in Hi. lia.
  - destruct (pl_fwd _ _ _ _ Hp _ _ H1) as (Hin & _). apply list_elem_of_fmap in Hin as ([k1' f1] & -> & Hin).
    exists f1, f. split_and!; [apply elem_of_app; by left|apply elem_of_app; right; by left|by eapply Hf].
  - destruct (Hh k1 k2 tl1 tl2 H1 H2 Hcell Hidx) as (f1 & f2 & ? & ? & ?). exists f1, f2.
    split_and!; [apply elem_of_app; by left|apply elem_of_app; by left|done].
Qed.

Lemma layout_hot_first txns : hot_first (get_key_cts txns) (layout_make txns).
Proof.
  unfold layout_make, even_better_random_impl. set (L0 := lay_init txns). change (keys_sorted_ L0) with (get_key_cts txns).
  set (ks := get_key_cts txns).
  destruct (fold_placed fst snd (λ pre s, length s.1 = N_CELLS ∧ hot_first pre s.2.2) even_better_random_key ks (zeros, (zeros, L0)))
    as [[_ H] _]; [apply get_key_cts_NoDup|split; [done|]|apply placed_init| |done].
  { intros k1 k2 tl1 tl2 H1. unfold lookup_key in H1. cbn [snd L0 lay_init forward_] in H1. by rewrite lookup_empty in H1. }
  intros pre [k f] post s Hcut [Hl Hh] Hs Hx. assert (argmin s.1 < N_CELLS)%nat as Hc by (by apply argmin_cells). split; [split|].
  - simpl. by rewrite length_insert.
  - apply hot_first_step; try done. intros k1 f1 [i Hi]%list_elem_of_lookup.
    apply (get_key_cts_sorted txns i (length pre) (k1, f1) (k, f)); fold ks; rewrite ?Hcut.
    + rewrite lookup_app_l; [done|by eapply lookup_lt_Some].
    + by apply list_lookup_middle.
    + by eapply lookup_lt_Some.
  - by apply sim_place_ok.
Qed.

Lemma layout_cts txns : key_cts_ (layout_make txns) = list_to_map (get_key_cts txns).
Proof.
  assert (∀ ks s, key_cts_ (foldl even_better_random_key s ks).2.2 = key_cts_ s.2.2) as H.
  { induction ks as [|p ks IH]; intros s; cbn [foldl]; [done|]. by rewrite IH. }
  unfold layout_make, even_better_random_impl. by rewrite H.
Qed.

(** No register array holds more keys than there are. *)
Lemma layout_idx_lt txns k tl : lookup_key (layout_make txns) k = Some tl → idx tl < Z.of_nat (length (get_key_cts txns)).
Proof.
  unfold layout_make, even_better_random_impl. set (L0 := lay_init txns). change (keys_sorted_ L0) with (get_key_cts txns).
  set (ks := get_key_cts txns).
  destruct (fold_placed fst snd (λ pre s, length s.1 = N_CELLS ∧ ∀ c, (c < N_CELLS)%nat → s.2.1 !!! c ≤ Z.of_nat (length pre)) even_better_random_key ks (zeros, (zeros, L0)))
    as [[_ H] Hp]; [apply get_key_cts_NoDup|split; [done|]|apply placed_init| |].
  - intros c Hc. cbn [snd fst length]. unfold zeros. rewrite lookup_total_replicate_2 by done. lia.
  - intros pre [k' f] post s Hcut [Hl Hh] Hs Hx. assert (argmin s.1 < N_CELLS)%nat as Hc by (by apply argmin_cells). split; [split|by apply sim_place_ok].
    + simpl. by rewrite length_insert.
    + intros c Hcc. rewrite length_app. cbn [length]. pose proof (Hh c Hcc). pose proof (pl_alloc _ _ _ _ Hs). cbn [even_better_random_key place fst snd].
      destruct (decide (c = argmin s.1)) as [->|Hne]; [rewrite list_lookup_total_insert_eq by lia; lia|]. rewrite list_lookup_total_insert_ne by done. lia.
  - intros Hk. destruct (pl_fwd _ _ _ _ Hp _ _ Hk) as (_ & _ & Hc & Hi & _). pose proof (H (cell tl) Hc). lia.
Qed.

(** ** The locations of a transaction *)

Section layout.
Context (wl : list txn_t).
Notation L := (layout_make wl).
Notation ks := (get_key_cts wl).*1.

(** A location the layout gives to a key. *)
Definition loc_of (k : Z) (tl : tuple_loc_t) : Prop := lookup_key L k = Some tl.

Lemma loc_of_facts k tl : loc_of k tl →
  in_range tl ∧ 0 ≤ idx tl ∧ rev_lookup L (cell tl) (idx tl) = Ok k
  ∧ ∃ f, get_key_ct L k = Ok f ∧ loc_freq L tl = f ∧ 1 ≤ f.
Proof.
  intros H. destruct (lo_back _ _ (layout_make_ok wl) k tl H) as (Hin & Hs & Hr & Hi & Hrev). split_and!; try done.
  apply list_elem_of_fmap in Hin as ([k' f] & -> & Hkf). cbn [fst] in *.
  assert (key_cts_ L !! k' = Some f) as Hct.
  { rewrite layout_cts. apply elem_of_list_to_map_1; [apply get_key_cts_NoDup|done]. }
  exists f. unfold get_key_ct, loc_freq. rewrite Hct, Hrev. cbn [default]. rewrite Hct. split_and!; try done.
  apply get_key_cts_spec in Hkf as [-> Hin]. unfold occurrences.
  assert (filter (λ x, x = k') (concat wl) ≠ []) as Hne.
  { intros E. assert (k' ∈ filter (λ x, x = k') (concat wl)) as H' by (by apply list_elem_of_filter). rewrite E in H'. by apply not_elem_of_nil in H'. }
  destruct (filter _ _); [done|]. simpl. lia.
Qed.

(** Two keys of one cell: the one sorted first is not in a higher slot, so the
    later one is not in slot 0. *)
Lemma later_not_zero k1 k2 tl1 tl2 : loc_of k1 tl1 → loc_of k2 tl2 → k1 ≠ k2 → cell tl1 = cell tl2 →
  may_precede (loc_less L) tl1 tl2 → idx tl2 ≠ 0.
Proof.
  intros H1 H2 Hne Hcell Hle Hz. destruct (loc_of_facts k1 tl1 H1) as (R1 & I1 & V1 & f1 & _ & F1 & _).
  destruct (loc_of_facts k2 tl2 H2) as (R2 & I2 & V2 & f2 & _ & F2 & _).
  assert (idx tl1 ≠ 0) as Hnz. { intros E. rewrite E, Hcell, <-Hz in V1. congruence. }
  destruct (layout_hot_first wl k2 k1 tl2 tl1 H2 H1) as (g2 & g1 & G2 & G1 & Hg); [done|lia|].
  assert (∀ k g tl, (k, g) ∈ get_key_cts wl → loc_of k tl → loc_freq L tl = g) as Hfreq.
  { intros k g tl Hin Hk. destruct (loc_of_facts k tl Hk) as (_ & _ & V & f & C & <- & _). unfold loc_freq. rewrite V, layout_cts.
    by rewrite (elem_of_list_to_map_1 _ k g (get_key_cts_NoDup wl) Hin). }
  rewrite <-(Hfreq _ _ _ G1 H1), <-(Hfreq _ _ _ G2 H2) in Hg.
  apply loc_may_precede in Hle. unfold in_range, cell, REGS_PER_STAGE in *. lia.
Qed.

(** *** The scan of a transaction's locations *)

(** The locations of second and later passes. *)
Definition seconds (l : list tuple_loc_t) : list tuple_loc_t := (filter (λ px, px.1 ≠ 0%nat) (annot [] l)).*2.

Lemma seconds_snoc l x : seconds (l ++ [x]) = seconds l ++ (if decide (cell_count (cell x) l ≠ 0%nat) then [x] else []).
Proof.
  unfold seconds. rewrite annot_app, filter_app, fmap_app. f_equal. cbn [annot app].
  destruct (decide (cell_count (cell x) l ≠ 0%nat)); [by rewrite filter_cons_True|by rewrite filter_cons_False].
Qed.

(** The counts of the keys that may need a lock add up to the total. *)
Definition freqs_sum (m : gmap Z Z) (n : Z) : Prop :=
  Forall (λ kf : Z * Z, 1 ≤ kf.2) (map_to_list m) ∧ n = sum_snd (map_to_list m).

Lemma count_op_sum m n k : freqs_sum m n → freqs_sum (count_op m k) (n + 1) ∧ is_Some (count_op m k !! k)
  ∧ ∀ k', is_Some (m !! k') → is_Some (count_op m k !! k').
Proof.
  intros [Hpos ->]. unfold count_op. split_and!.
  - assert (map_to_list (<[k := default 0 (m !! k) + 1]> m) ≡ₚ (k, default 0 (m !! k) + 1) :: map_to_list (delete k m)) as Hp.
    { rewrite <-insert_delete_eq. apply map_to_list_insert, lookup_delete_eq. }
    destruct (m !! k) as [f|] eqn:E; cbn [default] in *.
    + pose proof (map_to_list_delete m k f E) as Hd. rewrite <-Hd in Hpos. apply Forall_cons in Hpos as [Hf Hpos].
      split; [rewrite Hp; constructor; [simpl in *; lia|done]|]. rewrite (sum_snd_perm _ _ Hp), <-(sum_snd_perm _ _ Hd). simpl. lia.
    + rewrite (delete_id m k E) in Hp. split; [rewrite Hp; by constructor|]. rewrite (sum_snd_perm _ _ Hp). simpl. lia.
  - rewrite lookup_insert_eq. by eexists.
  - intros k' Hk'. destruct (decide (k = k')) as [<-|]; [rewrite lookup_insert_eq; by eexists|by rewrite lookup_insert_ne].
Qed.

(** What the scan has gathered after the locations [pre]. *)
Record scanned (m0 : gmap Z Z) (pre : list tuple_loc_t) (s : scan) : Prop := {
  sc_len : length (pass2m_freqs s) = N_CELLS;
  sc_seen : ∀ c, (c < N_CELLS)%nat → (0 < pass2m_freqs s !!! c ↔ cell_count c pre ≠ 0%nat);
  sc_lock : s_lock s = seconds pre;
  sc_sum : freqs_sum (s_freq s) (s_total s);
  sc_old : ∀ k, is_Some (m0 !! k) → is_Some (s_freq s !! k);
  sc_new : ∀ k tl, tl ∈ pre → loc_of k tl → idx tl ≠ 0 → is_Some (s_freq s !! k);
}.

Lemma scan_step m0 pre s tl k :
  scanned m0 pre s → loc_of k tl → (cell_count (cell tl) pre ≠ 0%nat → idx tl ≠ 0) →
  ∃ s', scan_loc L s tl = Ok s' ∧ scanned m0 (pre ++ [tl]) s'.
Proof.
  intros [Hlen Hseen Hlock Hsum Hold Hnew] Hk Hz. destruct (loc_of_facts k tl Hk) as (Hr & Hi & Hrev & f & Hct & _ & Hf).
  pose proof (cell_lt tl Hr) as Hc. unfold scan_loc. rewrite Hrev. cbn [mbind outcome_bind]. rewrite Hct. cbn [mbind outcome_bind].
  set (mn := if bool_decide (idx tl ≠ 0) then _ else _).
  assert (freqs_sum mn.1 mn.2 ∧ (∀ k', is_Some (s_freq s !! k') → is_Some (mn.1 !! k')) ∧ (idx tl ≠ 0 → is_Some (mn.1 !! k))) as (M1 & M2 & M3).
  { unfold mn. destruct (count_op_sum (s_freq s) (s_total s) k Hsum) as (C1 & C2 & C3). case_bool_decide; [done|by split_and!]. }
  destruct mn as [m n]. cbn [fst snd] in *.
  destruct (lookup_lt_is_Some_2 (pass2m_freqs s) (cell tl)) as [prev Hprev]; [lia|].
  unfold aget. rewrite Hprev. cbn [mbind outcome_bind].
  assert (0 < prev ↔ cell_count (cell tl) pre ≠ 0%nat) as Hpv.
  { rewrite <-(Hseen _ Hc). by rewrite (list_lookup_total_correct _ _ _ Hprev). }
  assert ((if 0 <? prev then assert (bool_decide (idx tl ≠ 0));; Ok (s_lock s ++ [tl]) else Ok (s_lock s)) = Ok (seconds (pre ++ [tl]))) as ->.
  { rewrite seconds_snoc, Hlock. destruct (Z.ltb_spec 0 prev) as [Hp|Hp].
    - rewrite decide_True by (by apply Hpv). rewrite bool_decide_eq_true_2; [done|]. by apply Hz, Hpv.
    - rewrite decide_False; [by rewrite app_nil_r|]. rewrite <-Hpv. lia. }
  cbn [mbind outcome_bind]. rewrite aset_lt by lia. cbn [mbind outcome_bind]. eexists. split; [done|].
  split; cbn [pass2m_freqs s_lock s_freq s_total]; rewrite ?length_insert; try done.
  - intros c Hcl. rewrite cell_count_app. destruct (decide (c = cell tl)) as [->|Hne].
    + rewrite list_lookup_total_insert_eq by lia. rewrite (cell_count_all _ [tl]) by (by constructor). simpl. lia.
    + rewrite list_lookup_total_insert_ne by done. rewrite (cell_count_none c [tl]) by (by constructor). rewrite Nat.add_0_r. by apply Hseen.
  - intros k' H. by apply M2, Hold.
  - intros k' tl' [Hin| ->%list_elem_of_singleton]%elem_of_app Hk' Hnz; [by eapply M2, Hnew|].
    unfold loc_of in *. destruct (loc_of_facts k' tl Hk') as (_ & _ & V & _). assert (k' = k) as -> by congruence. by apply M3.
Qed.

Lemma scan_locs m0 n0 l :
  freqs_sum m0 n0 → Forall (λ tl, ∃ k, loc_of k tl) l → NoDup l → StronglySorted (may_precede (loc_less L)) l →
  ∃ s, ofold (scan_loc L) l (MkScan zeros [] m0 n0) = Ok s ∧ scanned m0 l s.
Proof.
  intros H0 Hl Hnd Hs. apply (ofold_total (scanned m0)).
  - split; try done; [|by intros k tl ?%not_elem_of_nil]. intros c Hc. cbn [pass2m_freqs]. unfold zeros.
    rewrite lookup_total_replicate_2 by done. unfold cell_count. simpl. lia.
  - intros pre tl post s Hcut Hpre. rewrite Hcut, Forall_app, Forall_cons in Hl. destruct Hl as (Hlp & (k & Hk) & _).
    apply (scan_step m0 pre s tl k Hpre Hk). intros Hcnt.
    assert (∃ y, y ∈ pre ∧ cell y = cell tl) as (y & Hy & Hcy).
    { unfold cell_count in Hcnt. destruct (filter (λ tl0, cell tl0 = cell tl) pre) as [|y ys] eqn:E; [done|].
      assert (y ∈ filter (λ tl0, cell tl0 = cell tl) pre) as Hy by (rewrite E; by left). apply list_elem_of_filter in Hy as [? ?]. by exists y. }
    rewrite Forall_forall in Hlp. destruct (Hlp y Hy) as [ky Hky]. apply (later_not_zero ky k y tl); try done.
    + intros ->. assert (y = tl) as -> by (unfold loc_of in *; congruence).
      rewrite Hcut, NoDup_app in Hnd. destruct Hnd as (_ & Hd & _). apply (Hd tl Hy). by left.
    + apply list_elem_of_lookup in Hy as [i Hi]. rewrite Hcut in Hs.
      apply (StronglySorted_lookup _ _ i (length pre) _ _ Hs); [by rewrite lookup_app_l by (by eapply lookup_lt_Some)|by apply list_lookup_middle|by eapply lookup_lt_Some].
Qed.

(** *** The transactions that are prepared *)

Definition txn_ok (txn : txn_t) : Prop := NoDup txn ∧ (length txn ≤ 100)%nat ∧ ∀ k, k ∈ txn → k ∈ concat wl.

Definition goes_to_switch (prt : Z) (txn : txn_t) : bool :=
  match sw_txn_make prt L txn with Ok t => accelerated t | Fail _ => false end.

Definition locs_ok (l : list tuple_loc_t) : Prop :=
  Forall (λ tl, ∃ k, loc_of k tl) l ∧ NoDup l ∧ StronglySorted (may_precede (loc_less L)) l.

Lemma made prt txn : txn_ok txn → ∃ t, sw_txn_make prt L txn = Ok t ∧ locs_ok (locs t)
  ∧ orig_txn t = txn ∧ length (locs t) = length txn ∧ locks_check t = 0 ∧ locks_wanted t = 0.
Proof.
  intros (Hnd & Hlen & Hin). destruct (sw_txn_spec ks L prt txn (layout_make_ok wl)) as (t & tls & Ht & Htls & Hp & Hs & _); [|done|].
  { intros k Hk. by apply get_key_cts_keys, Hin. }
  exists t. split; [done|]. split.
  { split_and!; [rewrite Hp|rewrite Hp|done].
    - apply Forall_lookup. intros i tl Hi. destruct (Forall2_lookup_r _ _ _ _ _ Htls Hi) as (k & _ & Hk). by exists k.
    - apply NoDup_alt. intros i j tl Hi Hj. destruct (Forall2_lookup_r _ _ _ _ _ Htls Hi) as (k & Ki & Hk).
      destruct (Forall2_lookup_r _ _ _ _ _ Htls Hj) as (k' & Kj & Hk'). pose proof (lo_inj _ _ (layout_make_ok wl) _ _ _ Hk Hk') as ->.
      by eapply NoDup_lookup. }
  rewrite (Permutation_length Hp), <-(Forall2_length _ _ _ Htls). unfold sw_txn_make in Ht. minv. by split_and!.
Qed.

Record prepared (prt : Z) (pre : list txn_t) (p : prep) : Prop := {
  pp_sum : freqs_sum (lock2_by_freq p) (total_freq p);
  pp_txns : Forall (λ t, locs_ok (locs t) ∧ locks_check t = 0 ∧ locks_wanted t = 0) (sw_txns p);
  pp_lock : to_lock p = (λ t, seconds (locs t)) <$> sw_txns p;
  pp_known : ∀ t tl k, t ∈ sw_txns p → tl ∈ locs t → loc_of k tl → idx tl ≠ 0 → is_Some (lock2_by_freq p !! k);
  pp_orig : orig_txn <$> sw_txns p = filter (λ txn, goes_to_switch prt txn = true) pre;
  pp_made : Forall (λ t, sw_txn_make prt L (orig_txn t) = Ok t ∧ accelerated t = true) (sw_txns p);
}.

Lemma prepare_step prt pre p txn : prepared prt pre p → txn_ok txn →
  ∃ p', prepare_one prt L p txn = Ok p' ∧ prepared prt (pre ++ [txn]) p'.
Proof.
  intros [Hsum Htx Hlk Hkn Horig Hmk] Hok. destruct (made prt txn Hok) as (t & Ht & Hl & Ho & Hlen & Hc & Hw).
  unfold prepare_one. rewrite Ht. cbn [mbind outcome_bind]. assert (goes_to_switch prt txn = accelerated t) as Hg by (unfold goes_to_switch; by rewrite Ht).
  destruct (accelerated t) eqn:Ha.
  - rewrite Ho, Hlen, bool_decide_eq_true_2 by done. cbn [assert mbind outcome_bind]. pose proof Hl as (H1 & H2 & H3).
    destruct (scan_locs (lock2_by_freq p) (total_freq p) (locs t) Hsum H1 H2 H3) as (s & -> & [_ _ Sl Ss So Sn]).
    cbn [mbind outcome_bind]. eexists. split; [done|].
    split; cbn [sw_txns to_lock lock2_by_freq total_freq]; rewrite ?fmap_app, ?filter_app; try done.
    + apply Forall_app. split; [done|]. by constructor.
    + rewrite Hlk, Sl. done.
    + intros t' tl k [Hin| ->%list_elem_of_singleton]%elem_of_app Htl Hk Hnz; [by eapply So, Hkn|by eapply Sn].
    + rewrite Horig. f_equal. rewrite filter_cons_True by (by rewrite Hg). simpl. by rewrite Ho.
    + apply Forall_app. split; [done|]. constructor; [|constructor]. by rewrite Ho.
  - exists p. split; [done|]. split; try done. rewrite filter_app, filter_cons_False, filter_nil, app_nil_r by (by rewrite Hg). done.
Qed.

(** *** The bits *)

Section bits.
Context (lock_idxs : gmap Z nat).
Hypothesis Hidx : ∀ k i, lock_idxs !! k = Some i → (i < N_LOCKS)%nat.

Definition lock_bit (k : Z) : Z := Z.of_nat (default 0%nat (lock_idxs !! k)).

Lemma lock_bit_lt k : (default 0%nat (lock_idxs !! k) < N_LOCKS)%nat.
Proof. destruct (lock_idxs !! k) eqn:E; simpl; [by eapply Hidx|]. unfold N_LOCKS. lia. Qed.

(** Setting the bits of some locations. *)
Lemma set_locks l b : Forall (λ tl, ∃ k, loc_of k tl) l →
  ∃ b', ofold (set_lock_of L lock_idxs) l b = Ok b'
    ∧ ∀ i, 0 ≤ i → Z.testbit b' i = true ↔ Z.testbit b i = true ∨ ∃ tl k, tl ∈ l ∧ loc_of k tl ∧ lock_bit k = i.
Proof.
  intros Hl. revert b. induction Hl as [|tl l [k Hk] Hl IH]; intros b; cbn [ofold].
  { exists b. split; [done|]. intros i _. split; [by left|]. by intros [|(? & ? & ?%not_elem_of_nil & _)]. }
  destruct (loc_of_facts k tl Hk) as (_ & _ & Hrev & _). 
  assert (set_lock_of L lock_idxs b tl = Ok (Z.lor b (Z.shiftl 1 (lock_bit k)))) as ->.
  { unfold set_lock_of, set_lock. rewrite Hrev. cbn [mbind outcome_bind]. by rewrite bool_decide_eq_true_2 by apply lock_bit_lt. }
  cbn [mbind outcome_bind].
  destruct (IH (Z.lor b (Z.shiftl 1 (lock_bit k)))) as (b' & Hb' & Hbits). exists b'. split; [done|]. intros i Hi.
  rewrite (Hbits i Hi), Z.lor_spec, orb_true_iff.
  assert (Z.testbit (Z.shiftl 1 (lock_bit k)) i = true ↔ lock_bit k = i) as Hone.
  { rewrite Z.shiftl_1_l. rewrite Z.pow2_bits_eqb by (unfold lock_bit; lia). apply Z.eqb_eq. }
  rewrite Hone. split.
  - intros [[H|H]|(tl' & k' & Hin & Hk' & H)]; [by left| |].
    + right. exists tl, k. split_and!; [by left|done|done].
    + right. exists tl', k'. split_and!; [by right|done|done].
  - intros [H|(tl' & k' & [->|Hin]%elem_of_cons & Hk' & H)]; [by left; left| |by right; exists tl', k'].
    left; right. destruct (loc_of_facts k' tl Hk') as (_ & _ & V & _). assert (k' = k) as -> by congruence. done.
Qed.

Lemma seconds_sub l tl : tl ∈ seconds l → tl ∈ l.
Proof.
  induction l as [|x l IH] using rev_ind; [done|]. rewrite seconds_snoc. intros [H|H]%elem_of_app; apply elem_of_app; [left; by apply IH|].
  case_decide; [by right|by apply not_elem_of_nil in H].
Qed.

Lemma lor_range n a b : 0 ≤ n → 0 ≤ a < 2 ^ n → 0 ≤ b < 2 ^ n → 0 ≤ Z.lor a b < 2 ^ n.
Proof.
  intros Hn Ha Hb. rewrite <-(wrap_small n a Ha), <-(wrap_small n b Hb), <-!land_ones_wrap, <-Z.land_lor_distr_l, land_ones_wrap by done. by apply wrap_range.
Qed.

Lemma set_locks_range l b b' : ofold (set_lock_of L lock_idxs) l b = Ok b' → 0 ≤ b < 2 ^ Z.of_nat N_LOCKS → 0 ≤ b' < 2 ^ Z.of_nat N_LOCKS.
Proof.
  intros H Hb. apply (ofold_inv (λ _ b, 0 ≤ b < 2 ^ Z.of_nat N_LOCKS) (set_lock_of L lock_idxs) l b b' Hb); [|done].
  clear. intros pre tl post b b' _ Hb H.
  unfold set_lock_of, set_lock in H. minv. case_bool_decide as Hi; [|done]. injection H as <-. apply lor_range; [lia|done|]. rewrite Z.shiftl_1_l.
  split; [apply Z.pow_nonneg; lia|]. apply Z.pow_lt_mono_r; lia.
Qed.

(** A transaction with its locks filled in. *)
Definition locked (t t' : sw_txn_t) : Prop :=
  orig_txn t' = orig_txn t ∧ locs t' = locs t ∧ passes t' = passes t
  ∧ Z.land (locks_wanted t') (locks_check t') = locks_wanted t'
  ∧ (∀ tl k, tl ∈ locs t → loc_of k tl → Z.testbit (locks_check t') (lock_bit k) = true)
  ∧ (∀ tl k, tl ∈ seconds (locs t) → loc_of k tl → Z.testbit (locks_wanted t') (lock_bit k) = true)
  ∧ (port t', pass_ct t', fail_ct t') = (port t, pass_ct t, fail_ct t)
  ∧ 0 ≤ locks_check t' < 2 ^ Z.of_nat N_LOCKS ∧ 0 ≤ locks_wanted t' < 2 ^ Z.of_nat N_LOCKS.

Lemma fill_locks_ok t : locs_ok (locs t) → locks_check t = 0 → locks_wanted t = 0 →
  ∃ t', fill_locks L lock_idxs (t, seconds (locs t)) = Ok t' ∧ locked t t'.
Proof.
  intros (Hl & _ & _) Hc Hw. unfold fill_locks. rewrite Hc, Hw.
  destruct (set_locks (locs t) 0 Hl) as (check & Ec & Bc). rewrite Ec. cbn [mbind outcome_bind].
  destruct (set_locks (seconds (locs t)) 0) as (wanted & Ew & Bw).
  { rewrite Forall_forall in Hl |- *. intros tl Htl. by apply Hl, seconds_sub. }
  rewrite Ew. cbn [mbind outcome_bind]. assert (Z.land wanted check = wanted) as Hsub.
  { apply Z.bits_inj'. intros i Hi. rewrite Z.land_spec. destruct (Z.testbit wanted i) eqn:E; [|done]. simpl.
    apply (Bc i Hi). apply (Bw i Hi) in E as [E|(tl & k & Hin & Hk & E)]; [by rewrite Z.bits_0 in E|].
    right. exists tl, k. split_and!; [by apply seconds_sub|done|done]. }
  rewrite Hsub, Z.eqb_refl. cbn [assert mbind outcome_bind]. eexists. split; [done|].
  unfold locked. cbn [orig_txn locs passes locks_wanted locks_check]. do 4 (split; [done|]). split; [|split; [|split; [done|split]]].
  - intros tl k Hin Hk. apply Bc; [unfold lock_bit; lia|]. right. by exists tl, k.
  - intros tl k Hin Hk. apply Bw; [unfold lock_bit; lia|]. right. by exists tl, k.
  - by apply (set_locks_range _ _ _ Ec).
  - by apply (set_locks_range _ _ _ Ew).
Qed.
End bits.

(** A prepared transaction is what the constructor makes of its keys, with locks. *)
Definition from_txn (prt : Z) (t' : sw_txn_t) : Prop :=
  ∃ t, sw_txn_make prt L (orig_txn t') = Ok t ∧ accelerated t = true ∧ locs t' = locs t ∧ passes t' = passes t
    ∧ (port t', pass_ct t', fail_ct t') = (port t, pass_ct t, fail_ct t)
    ∧ 0 ≤ locks_check t' < 2 ^ Z.of_nat N_LOCKS ∧ 0 ≤ locks_wanted t' < 2 ^ Z.of_nat N_LOCKS.

Lemma prepare_spec prt txns :
  Forall txn_ok txns →
  ∃ out, prepare_txns_sw prt txns L = Ok out
    ∧ orig_txn <$> out = filter (λ txn, goes_to_switch prt txn = true) txns
    ∧ Forall (λ t, Z.land (locks_wanted t) (locks_check t) = locks_wanted t) out
    ∧ (∀ t1 t2 tl, t1 ∈ out → t2 ∈ out → tl ∈ seconds (locs t1) → tl ∈ locs t2 →
         Z.land (locks_wanted t1) (locks_check t2) ≠ 0)
    ∧ Forall (from_txn prt) out.
Proof.
  intros Hok. unfold prepare_txns_sw.
  destruct (ofold_total (prepared prt) (prepare_one prt L) txns (MkPrep [] [] ∅ 0)) as (p & -> & [[Hpos Htot] Htx Hlk _ Horig Hmade]).
  { split; try done; by intros ? ? ? ?%not_elem_of_nil. }
  { intros pre txn post p Hcut Hp. apply prepare_step; [done|]. rewrite Hcut, Forall_app, Forall_cons in Hok. by destruct Hok as (_ & ? & _). }
  cbn [mbind outcome_bind]. destruct (lock_numbers p Hpos Htot) as [Hkeys Hnum].
  assert (NoDup (lock_table p).*1) as Hnd by (rewrite Hkeys; apply NoDup_fst_map_to_list).
  set (lock_idxs := list_to_map (lock_table p)).
  assert (∀ k i, lock_idxs !! k = Some i → (i < N_LOCKS)%nat) as Hidx by (intros k i H; by eapply Hnum, elem_of_list_to_map_2).
  rewrite bool_decide_eq_true_2.
  2:{ unfold lock_idxs. rewrite map_size_list_to_map by done. rewrite <-length_map_to_list, <-(length_fmap fst (lock_table p)), (Permutation_length Hkeys).
      by rewrite length_fmap. }
  cbn [assert mbind outcome_bind].
  destruct (ofold_total (λ pre acc, Forall2 (λ x t', locked lock_idxs x.1 t') pre acc)
    (λ acc x, t ← fill_locks L lock_idxs x; Ok (acc ++ [t])) (zip (sw_txns p) (to_lock p)) []) as (out & -> & Hout); [constructor| |].
  { intros pre [t tls] post acc Hcut Hacc.
    assert ((t, tls) ∈ zip (sw_txns p) (to_lock p)) as Hin by (rewrite Hcut; apply elem_of_app; right; by left).
    rewrite Hlk in Hin. apply list_elem_of_lookup in Hin as [i Hi]. apply lookup_zip_Some in Hi as [H1 H2]. rewrite list_lookup_fmap, H1 in H2. injection H2 as <-.
    rewrite Forall_lookup in Htx. destruct (Htx i t H1) as (Hl & Hc & Hw).
    destruct (fill_locks_ok lock_idxs Hidx t Hl Hc Hw) as (t' & Hf & Ht'). exists (acc ++ [t']). split; [by rewrite Hf|]. apply Forall2_app; [done|]. by constructor. }
  assert (Forall2 (locked lock_idxs) (sw_txns p) out) as Hlocked.
  { rewrite <-(fst_zip (sw_txns p) (to_lock p)) by (rewrite Hlk, length_fmap; done). by apply Forall2_fmap_l. }
  assert (∀ t', t' ∈ out → ∃ t, t ∈ sw_txns p ∧ locked lock_idxs t t') as Hback.
  { intros t' [i Hi]%list_elem_of_lookup. destruct (Forall2_lookup_r _ _ _ _ _ Hlocked Hi) as (t & Ht & ?). exists t. split; [by eapply list_elem_of_lookup_2|done]. }
  exists out. split_and!; [done| | | |].
  - rewrite <-Horig. clear -Hlocked. induction Hlocked as [|t t' l l' (Ho & _) _ IH]; [done|]. cbn [fmap list_fmap]. by f_equal.
  - apply Forall_forall. intros t' (t & _ & (_ & _ & _ & ? & _))%Hback. done.
  - intros t1 t2 tl (s1 & Hs1 & (_ & E1 & _ & _ & _ & W1 & _))%Hback (s2 & Hs2 & (_ & E2 & _ & _ & C2 & _))%Hback Hin1 Hin2 Hz.
    rewrite E1 in Hin1. rewrite E2 in Hin2. rewrite Forall_forall in Htx. destruct (Htx s2 Hs2) as ((Hl & _) & _).
    rewrite Forall_forall in Hl. destruct (Hl tl Hin2) as [k Hk]. specialize (W1 tl k Hin1 Hk). specialize (C2 tl k Hin2 Hk).
    assert (Z.testbit (Z.land (locks_wanted t1) (locks_check t2)) (lock_bit lock_idxs k) = true) as Hb by (rewrite Z.land_spec; by rewrite W1, C2).
    by rewrite Hz, Z.bits_0 in Hb.
  - apply Forall_forall. intros t' (t & Ht & (Ho & El & Ep & _ & _ & _ & Es & Hc & Hw))%Hback. rewrite Forall_forall in Hmade. destruct (Hmade t Ht) as [Hm Ha].
    exists t. rewrite Ho. repeat (split; [done|]). done.
Qed.

(** C20: [prepare_txns_sw] on transactions without repeated keys, of at most 100
    keys of the workload each, meets all its assertions and never needs more
    than [N_LOCKS] locks.  It returns, in order, the transactions that take one
    pass, or two with at most two operations in the second; a transaction checks
    every lock it wants; and a slot that one transaction accesses in its second
    pass is detected by every transaction that accesses it: a lock the first
    wants is among those the other checks.  Two transactions that share only
    slots of their first passes need not share a lock. *)
Theorem prepare_covers_conflicts prt txns :
  Forall txn_ok txns →
  ∃ out, prepare_txns_sw prt txns L = Ok out
    ∧ orig_txn <$> out = filter (λ txn, goes_to_switch prt txn = true) txns
    ∧ Forall (λ t, Z.land (locks_wanted t) (locks_check t) = locks_wanted t) out
    ∧ (∀ t1 t2 tl, t1 ∈ out → t2 ∈ out → tl ∈ seconds (locs t1) → tl ∈ locs t2 →
         Z.land (locks_wanted t1) (locks_check t2) ≠ 0).
Proof. intros H. destruct (prepare_spec prt txns H) as (out & ? & ? & ? & ? & _). by exists out. Qed.
End layout.

(** The first transaction accesses key 30 in a second pass, because key 36 is
    in the same register array; the second one, which uses key 30, checks the
    lock it wants. *)
Definition locked_txns : list txn_t := [[36; 30]; [30; 2]].

Lemma prepare_covers_conflicts_witness :
  ∃ t1 t2, prepare_txns_sw 7 locked_txns (layout_make [seqZ 0 38]) = Ok [t1; t2]
    ∧ length (passes t1) = 2%nat ∧ Z.land (locks_wanted t1) (locks_check t2) ≠ 0.
Proof.
  destruct (prepare_covers_conflicts [seqZ 0 38] 7 locked_txns) as (out & H & _ & _ & Hc).
  - assert (Forall (λ l, NoDup l ∧ (length l ≤ 100)%nat ∧ Forall (λ k, 0 ≤ k < 38) l) locked_txns) as Hl by (by apply (bool_decide_unpack _); vm_compute).
    eapply Forall_impl; [exact Hl|]. intros l (? & ? & Hk). split_and!; [done..|]. intros k Hin. cbn [concat]. rewrite app_nil_r. apply elem_of_seqZ.
    rewrite Forall_forall in Hk. specialize (Hk k Hin). lia.
  - destruct out as [|t1 [|t2 [|? ?]]]; [by vm_compute in H..| |by vm_compute in H]. exists t1, t2. split; [exact H|].
    assert (length (passes t1) = 2%nat ∧ seconds (locs t1) = [MkTL 0 0 1] ∧ head (locs t2) = Some (MkTL 0 0 1))
      as (Hp & Hs & Hh) by (vm_compute in H; injection H as <- <-; repeat split; vm_compute; reflexivity).
    split; [exact Hp|]. apply (Hc t1 t2 (MkTL 0 0 1)); [by left|by right; left|rewrite Hs; by left|].
    destruct (locs t2) as [|x l]; [discriminate Hh|]. injection Hh as ->. by left.
Defined.

(** The workload [get_syn_adversarial_txns] names the key 0 twice in every
    transaction to force a second pass. *)
Definition adversarial (rest : list Z) : txn_t := 0 :: 0 :: rest.

(** A transaction of that workload, alone or with others, cannot be
    prepared: key 0, the most frequent one, is in slot 0 of its register
    array, and the assertion that a second access of an array is not to its
    slot 0 fails. *)
Theorem adversarial_not_prepared prt :
  prepare_txns_sw prt [adversarial [11; 12; 13; 14; 15; 16]] (layout_make [adversarial [11; 12; 13; 14; 15; 16]]) = Fail AssertFailed.
Proof. vm_compute. reflexivity. Qed.
