(* ===== verification/SimSwitch.v ===== *)
(** * The switch simulator

    [mine/fast_layout/src/switch.cpp]: packets of transactions wait in input
    buffers, pass a parser and run through the stages of one pipeline, which
    they enter again for every further pass; [run_cycle] moves everything by
    one cycle.  A static lock lets one multi-pass transaction at a time own the
    pipeline.  Every register remembers the transaction that last accessed it,
    and the accesses are recorded as dependencies for a checker that decides
    whether the history is serializable. *)
From stdpp Require Import base tactics list numbers gmap sorting.
From Stdlib Require Import ZArith Lia.
From S2P Require Import Prelude SimLayout.

#[local] Open Scope Z_scope.

Definition N_PORTS : nat := 32.
Definition N_PORT_GROUPS : nat := 8.
Definition RECIRC_PORT : nat := 8.
Definition IPB_SIZE : nat := 500.
Definition MAX_FAIL_CT : Z := 24.
Definition MOCK_BATCH_GRAN : Z := 250.
Definition POOL_SIZE : nat := 4096.
Definition START_TXN_ID : Z := 0.

(** [sw_txn_t()]. *)
Definition sw_txn_default : sw_txn_t := MkSwTxn 0 0 0 0 [] true 0 0 0 [] [] None.

Definition set_txn_id (i : Z) (t : sw_txn_t) : sw_txn_t :=
  MkSwTxn (port t) i (pass_ct t) (fail_ct t) (orig_txn t) (valid t) (locks_check t) (locks_wanted t) (locks_undo t) (locs t) (passes t) (one_lock t).
Definition set_pass_ct (n : nat) (t : sw_txn_t) : sw_txn_t :=
  MkSwTxn (port t) (txn_id t) n (fail_ct t) (orig_txn t) (valid t) (locks_check t) (locks_wanted t) (locks_undo t) (locs t) (passes t) (one_lock t).
Definition set_valid (b : bool) (t : sw_txn_t) : sw_txn_t :=
  MkSwTxn (port t) (txn_id t) (pass_ct t) (fail_ct t) (orig_txn t) b (locks_check t) (locks_wanted t) (locks_undo t) (locs t) (passes t) (one_lock t).
Definition set_undo (fails undo : Z) (t : sw_txn_t) : sw_txn_t :=
  MkSwTxn (port t) (txn_id t) (pass_ct t) fails (orig_txn t) (valid t) (locks_check t) (locks_wanted t) undo (locs t) (passes t) (one_lock t).

(** ** The state *)

(** [sw_mempool_t]: its slots and its free list. *)
Record mempool := MkPool { pool_ : list sw_txn_t; free_list_ : list nat }.

Definition mempool_make : mempool := MkPool (replicate POOL_SIZE sw_txn_default) (seq 0 POOL_SIZE).

Definition pool_alloc (p : mempool) : outcome (nat * mempool) :=
  match free_list_ p with
  | [] => Fail AssertFailed
  | slot :: l => Ok (slot, MkPool (pool_ p) l)
  end.

Definition pool_free (slot : nat) (p : mempool) : mempool := MkPool (pool_ p) (slot :: free_list_ p).

Definition pool_at (p : mempool) (slot : nat) : outcome sw_txn_t := aget (pool_ p) slot.
Definition pool_set (slot : nat) (t : sw_txn_t) (p : mempool) : outcome mempool :=
  l ← aset (pool_ p) slot t; Ok (MkPool l (free_list_ p)).

Record stats := MkStats { num_cycles : Z; num_txns : Z; num_passes : Z; num_ops : Z }.

(** [switch_t], with the static variables of its functions: the next id, the
    holder of the pipeline, the statistics and the recorded dependencies. *)
Record switch_t := MkSwitch {
  txn_pool_ : mempool;
  ipb_ : list (list nat);
  parser_ : list (option nat);
  ingr_pipe_ : list (option nat);
  mock_egress_ : list (list (bool * nat));
  regs_ : gmap (nat * Z) Z;
  incr_id : Z;
  holder : option Z;
  deps : list (Z * Z);
  stat : stats;
}.

Definition switch_make : switch_t :=
  MkSwitch mempool_make (replicate (S N_PORT_GROUPS) []) (replicate (S N_PORT_GROUPS) None) (replicate N_STAGES None)
           (replicate N_PORTS []) ∅ 1 None [] (MkStats 0 0 0 0).

Definition upd_pool (p : mempool) (s : switch_t) : switch_t :=
  MkSwitch p (ipb_ s) (parser_ s) (ingr_pipe_ s) (mock_egress_ s) (regs_ s) (incr_id s) (holder s) (deps s) (stat s).
Definition upd_ipb (q : list (list nat)) (s : switch_t) : switch_t :=
  MkSwitch (txn_pool_ s) q (parser_ s) (ingr_pipe_ s) (mock_egress_ s) (regs_ s) (incr_id s) (holder s) (deps s) (stat s).
Definition upd_parser (q : list (option nat)) (s : switch_t) : switch_t :=
  MkSwitch (txn_pool_ s) (ipb_ s) q (ingr_pipe_ s) (mock_egress_ s) (regs_ s) (incr_id s) (holder s) (deps s) (stat s).
Definition upd_pipe (q : list (option nat)) (s : switch_t) : switch_t :=
  MkSwitch (txn_pool_ s) (ipb_ s) (parser_ s) q (mock_egress_ s) (regs_ s) (incr_id s) (holder s) (deps s) (stat s).
Definition upd_egress (q : list (list (bool * nat))) (s : switch_t) : switch_t :=
  MkSwitch (txn_pool_ s) (ipb_ s) (parser_ s) (ingr_pipe_ s) q (regs_ s) (incr_id s) (holder s) (deps s) (stat s).
Definition upd_id (i : Z) (s : switch_t) : switch_t :=
  MkSwitch (txn_pool_ s) (ipb_ s) (parser_ s) (ingr_pipe_ s) (mock_egress_ s) (regs_ s) i (holder s) (deps s) (stat s).
Definition upd_holder (h : option Z) (s : switch_t) : switch_t :=
  MkSwitch (txn_pool_ s) (ipb_ s) (parser_ s) (ingr_pipe_ s) (mock_egress_ s) (regs_ s) (incr_id s) h (deps s) (stat s).
Definition upd_stat (st : stats) (s : switch_t) : switch_t :=
  MkSwitch (txn_pool_ s) (ipb_ s) (parser_ s) (ingr_pipe_ s) (mock_egress_ s) (regs_ s) (incr_id s) (holder s) (deps s) st.
Definition upd_regs (r : gmap (nat * Z) Z) (d : list (Z * Z)) (s : switch_t) : switch_t :=
  MkSwitch (txn_pool_ s) (ipb_ s) (parser_ s) (ingr_pipe_ s) (mock_egress_ s) r (incr_id s) (holder s) d (stat s).

(** ** Operations *)

(** [std::queue::push] on the buffer of a port group. *)
Definition ipb_push (g slot : nat) (s : switch_t) : outcome switch_t :=
  q ← aget (ipb_ s) g;
  l ← aset (ipb_ s) g (q ++ [slot]);
  Ok (upd_ipb l s).

Definition egress_push (prt : Z) (x : bool * nat) (s : switch_t) : outcome switch_t :=
  q ← zget (mock_egress_ s) prt;
  l ← zset (mock_egress_ s) prt (q ++ [x]);
  Ok (upd_egress l s).

Definition port_to_group (prt : Z) : Z := prt / (Z.of_nat N_PORTS / Z.of_nat N_PORT_GROUPS).

(** [switch_t::send]. *)
Definition send (txn : sw_txn_t) (s : switch_t) : outcome (bool * switch_t) :=
  assert (bool_decide (0 < length (passes txn))%nat);;
  q ← zget (ipb_ s) (port_to_group (port txn));
  if bool_decide (length q < IPB_SIZE)%nat then
    '(slot, p) ← pool_alloc (txn_pool_ s);
    p' ← pool_set slot (set_txn_id (incr_id s) txn) p;
    s' ← ipb_push (Z.to_nat (port_to_group (port txn))) slot (upd_id (u64 (incr_id s + 1)) (upd_pool p' s));
    Ok (true, s')
  else Ok (false, s).

(** One register array of the loop in [run_reg_ops]. *)
Definition reg_op (t : sw_txn_t) (s : switch_t) (c : nat) : outcome switch_t :=
  g ← aget (passes t) (pass_ct t);
  o ← aget g c;
  match o with
  | None => Ok s
  | Some i =>
      let last := default START_TXN_ID (regs_ s !! (c, i)) in
      let st := stat s in
      if bool_decide (0 ≤ i < SLOTS_PER_REG) then
        Ok (upd_stat (MkStats (num_cycles st) (num_txns st) (num_passes st) (num_ops st + 1))
             (upd_regs (<[(c, i) := txn_id t]> (regs_ s)) (deps s ++ [(txn_id t, last)]) s))
      else Fail OutOfBounds
  end.

(** [switch_t::run_reg_ops]. *)
Definition run_reg_ops (i : nat) (s : switch_t) : outcome switch_t :=
  o ← aget (ingr_pipe_ s) i;
  match o with
  | None => Ok s
  | Some slot =>
      t ← pool_at (txn_pool_ s) slot;
      if valid t then ofold (reg_op t) (seq (i * REGS_PER_STAGE) REGS_PER_STAGE) s else Ok s
  end.

(** [switch_t::ipb_to_parser]. *)
Definition ipb_to_parser (i : nat) (s : switch_t) : outcome switch_t :=
  q ← aget (ipb_ s) i;
  match q with
  | [] => Ok s
  | slot :: q' =>
      ps ← aset (parser_ s) i (Some slot);
      l ← aset (ipb_ s) i q';
      Ok (upd_ipb l (upd_parser ps s))
  end.

(** [whole_pipe_lock], with its static variable. *)
Definition whole_pipe_lock (t : sw_txn_t) (h : option Z) : bool * option Z :=
  match h with
  | None => (true, if bool_decide (2 ≤ length (passes t))%nat then Some (txn_id t) else None)
  | Some id =>
      if id =? txn_id t
      then (true, if bool_decide (length (passes t) = pass_ct t + 1)%nat then None else h)
      else (false, h)
  end.

(** [manage_locks]. *)
Definition manage_locks (t : sw_txn_t) (s : switch_t) : bool * switch_t :=
  let '(b, h) := whole_pipe_lock t (holder s) in (b, upd_holder h s).

(** The end of the pipeline: a finished transaction leaves, another comes
    around. *)
Definition leave_pipe (s : switch_t) : outcome switch_t :=
  o ← aget (ingr_pipe_ s) (N_STAGES - 1);
  match o with
  | None => Ok s
  | Some slot =>
      t0 ← pool_at (txn_pool_ s) slot;
      let t := if valid t0 then set_pass_ct (S (pass_ct t0)) t0 else t0 in
      p ← pool_set slot t (txn_pool_ s);
      let st := stat s in
      let s1 := upd_stat (MkStats (num_cycles st) (num_txns st) (num_passes st + 1) (num_ops st)) (upd_pool p s) in
      if bool_decide (length (passes t) = pass_ct t) then
        let st1 := stat s1 in
        egress_push (port t) (true, slot)
          (upd_stat (MkStats (num_cycles st1) (num_txns st1 + 1) (num_passes st1) (num_ops st1)) s1)
      else if bool_decide (pass_ct t = 0%nat) && (MAX_FAIL_CT <=? fail_ct t) && (locks_undo t =? 0) then
        egress_push (port t) (false, slot) s1
      else
        p' ← pool_set slot (set_valid true t) (txn_pool_ s1);
        ipb_push RECIRC_PORT slot (upd_pool p' s1)
  end.

(** [for (i = N_STAGES-1; i >= 1; --i)]: the register operations of stage
    [i - 1], then the shift. *)
Definition shift_stage (s : switch_t) (i : nat) : outcome switch_t :=
  s1 ← run_reg_ops (i - 1) s;
  o ← aget (ingr_pipe_ s1) (i - 1);
  l ← aset (ingr_pipe_ s1) i o;
  Ok (upd_pipe l s1).

(** The choice among the parsers: the recirculation port first, otherwise the
    one whose buffer is fullest. *)
Definition pick_parser (s : switch_t) : option nat :=
  match parser_ s !! RECIRC_PORT with
  | Some (Some _) => Some RECIRC_PORT
  | _ =>
      (foldl (λ '(best, size) i,
         match parser_ s !! i with
         | Some (Some _) => let n := Z.of_nat (length (default [] (ipb_ s !! i))) in
             if size <? n then (Some i, n) else (best, size)
         | _ => (best, size)
         end) (None, -1) (seq 0 N_PORT_GROUPS)).1
  end.

(** A packet enters the pipeline, if a parser has one. *)
Definition enter_pipe (s : switch_t) : outcome switch_t :=
  match pick_parser s with
  | None => l ← aset (ingr_pipe_ s) 0 None; Ok (upd_pipe l s)
  | Some i =>
      o ← aget (parser_ s) i;
      match o with
      | None => Fail (Thrown BadOptionalAccess)
      | Some slot =>
          t ← pool_at (txn_pool_ s) slot;
          let '(b, s1) := manage_locks t s in
          p ← pool_set slot (set_valid b t) (txn_pool_ s1);
          l ← aset (ingr_pipe_ s1) 0 (Some slot);
          ps ← aset (parser_ s1) i None;
          ipb_to_parser i (upd_parser ps (upd_pipe l (upd_pool p s1)))
      end
  end.

(** The parsers that are free take a packet from their buffer. *)
Definition fill_parser (s : switch_t) (i : nat) : outcome switch_t :=
  o ← aget (parser_ s) i;
  match o with Some _ => Ok s | None => ipb_to_parser i s end.

(** [switch_t::run_cycle]. *)
Definition run_cycle (s : switch_t) : outcome switch_t :=
  let st := stat s in
  s1 ← run_reg_ops (N_STAGES - 1) (upd_stat (MkStats (num_cycles st + 1) (num_txns st) (num_passes st) (num_ops st)) s);
  s2 ← leave_pipe s1;
  s3 ← ofold shift_stage (rev (seq 1 (N_STAGES - 1))) s2;
  s4 ← enter_pipe s3;
  ofold fill_parser (seq 0 (S N_PORT_GROUPS)) s4.

(** [switch_t::recv]. *)
Definition recv (prt : Z) (s : switch_t) : outcome (option (bool * Z) * switch_t) :=
  q ← zget (mock_egress_ s) prt;
  match q with
  | [] => Ok (None, s)
  | (b, slot) :: q' =>
      t ← pool_at (txn_pool_ s) slot;
      l ← zset (mock_egress_ s) prt q';
      Ok (Some (b, txn_id t), upd_pool (pool_free slot (txn_pool_ s)) (upd_egress l s))
  end.

(** ** The lock tables that [manage_locks] can use instead *)

(** [granular_lock_OPT], with its static bitset. *)
Definition granular_lock_OPT (t : sw_txn_t) (locks : Z) : outcome (bool * Z) :=
  if bool_decide (pass_ct t = 0%nat) then
    if Z.land locks (locks_check t) =? 0 then
      assert (Z.land locks (locks_wanted t) =? 0);;
      Ok (true, Z.lor locks (locks_wanted t))
    else Ok (false, locks)
  else if bool_decide (pass_ct t = length (passes t) - 1)%nat then
    assert (Z.land locks (locks_wanted t) =? locks_wanted t);;
    Ok (true, Z.lxor locks (locks_wanted t))
  else Ok (true, locks).

(** The static variables of [granular_lock_real]. *)
Record lock_state := MkLocks { g_locks : Z; mini_batch_num : Z; mini_so_far : Z }.

(** The tests after a failed attempt: the transaction gives up. *)
Definition count_giving_up (t : sw_txn_t) (n : Z) : Z :=
  if bool_decide (pass_ct t = 0%nat) && (MAX_FAIL_CT <=? fail_ct t) && (locks_undo t =? 0) then n + 1 else n.

(** [granular_lock_real]: a transaction takes the locks it wants even when the
    check fails, and undoes what it took at its next turn. *)
Definition granular_lock_real (t : sw_txn_t) (g : lock_state) : outcome (bool * sw_txn_t * lock_state) :=
  if bool_decide (pass_ct t = 0%nat) then
    if locks_undo t =? 0 then
      let before := g_locks g in
      let locks := Z.lor before (locks_wanted t) in
      if Z.land before (locks_check t) =? 0 then
        assert (Z.land before (locks_wanted t) =? 0);;
        let so_far := mini_so_far g + 1 in
        if so_far =? MOCK_BATCH_GRAN then Ok (true, t, MkLocks locks (mini_batch_num g + 1) 0)
        else Ok (true, t, MkLocks locks (mini_batch_num g) so_far)
      else
        let t' := set_undo (fail_ct t + 1) (Z.ldiff (locks_wanted t) before) t in
        Ok (false, t', MkLocks locks (mini_batch_num g) (count_giving_up t' (mini_so_far g)))
    else
      let t' := set_undo (fail_ct t) 0 t in
      Ok (false, t', MkLocks (Z.lxor (g_locks g) (locks_undo t)) (mini_batch_num g) (count_giving_up t' (mini_so_far g)))
  else if bool_decide (pass_ct t = length (passes t) - 1)%nat then
    assert (Z.land (g_locks g) (locks_wanted t) =? locks_wanted t);;
    Ok (true, t, MkLocks (Z.lxor (g_locks g) (locks_wanted t)) (mini_batch_num g) (mini_so_far g))
  else Fail AssertFailed.

(** ** The checker of histories *)

Inductive color_e := UNVISITED | VISITING | VISITED.

#[global] Instance color_e_eq_dec : EqDecision color_e.
Proof. solve_decision. Defined.

(** [serial_checker_t]: the dependencies of each transaction, in the order of
    [add_dep], and the greatest id. *)
Record checker := MkChecker { deps_ : gmap Z (list Z); max_tid_ : Z }.

Definition add_dep (c : checker) (d : Z * Z) : checker :=
  MkChecker (<[d.1 := default [] (deps_ c !! d.1) ++ [d.2]]> (deps_ c)) (Z.max (max_tid_ c) d.1).

Definition checker_of (ds : list (Z * Z)) : checker := foldl add_dep (MkChecker ∅ 0) ds.

(** [colors_[v]]. *)
Definition color (cs : gmap Z color_e) (v : Z) : color_e := default UNVISITED (cs !! v).

(** The loop over the dependencies of a node, with [walk_graph] itself as
    [walk]. *)
Fixpoint walk_all (walk : gmap Z color_e → Z → outcome (bool * gmap Z color_e)) (cs : gmap Z color_e) (next : list Z)
  : outcome (bool * gmap Z color_e) :=
  match next with
  | [] => Ok (true, cs)
  | v :: next' =>
      match color cs v with
      | UNVISITED => '(ok, cs') ← walk cs v; if (ok : bool) then walk_all walk cs' next' else Ok (false, cs')
      | VISITING => Ok (false, cs)
      | VISITED => walk_all walk cs next'
      end
  end.

(** [walk_graph]; the fuel bounds the depth of the recursion. *)
Fixpoint walk_graph (fuel : nat) (ds : gmap Z (list Z)) (cs : gmap Z color_e) (u : Z) : outcome (bool * gmap Z color_e) :=
  match fuel with
  | O => Fail Spins
  | S fuel' =>
      '(ok, cs') ← walk_all (walk_graph fuel' ds) (<[u := VISITING]> cs) (default [] (ds !! u));
      if (ok : bool) then Ok (true, <[u := VISITED]> cs') else Ok (false, cs')
  end.

(** The loop of the destructor over the ids. *)
Fixpoint check_from (fuel : nat) (ds : gmap Z (list Z)) (cs : gmap Z color_e) (ids : list Z) : outcome bool :=
  match ids with
  | [] => Ok true
  | i :: ids' =>
      match color cs i with
      | UNVISITED => '(ok, cs') ← walk_graph fuel ds cs i; if (ok : bool) then check_from fuel ds cs' ids' else Ok false
      | VISITED => check_from fuel ds cs ids'
      | VISITING => Fail AssertFailed
      end
  end.

Definition tids (c : checker) : list Z := Z.of_nat <$> seq 1 (Z.to_nat (max_tid_ c)).

(** [~serial_checker_t]: whether it prints [Serializable history].  The depth
    of the walk is bounded by the number of nodes: the ids and the other ends
    of the dependencies. *)
Definition check_history (c : checker) : outcome bool :=
  let fuel := S (length (tids c) + length (concat (map_to_list (deps_ c)).*2)) in
  check_from fuel (deps_ c) (list_to_map ((λ i, (i, UNVISITED)) <$> tids c)) (tids c).
