(* ===== verification/SimChecker.v ===== *)
(** * The history checker is right

    [serial_checker_t] (switch.cpp) walks the graph of dependencies depth first
    and reports a cycle when it meets a node it is still visiting.  It always
    returns, and it accepts exactly the acyclic histories. *)
From stdpp Require Import base tactics list numbers gmap relations.
From Stdlib Require Import ZArith Lia.
From S2P Require Import Prelude SimLayout SimSwitch.

#[local] Open Scope Z_scope.

Section walk.
Context (ds : gmap Z (list Z)) (U : gset Z).

Definition edge (u v : Z) : Prop := v ∈ default [] (ds !! u).

(** [U] holds the nodes. *)
Hypothesis Hclosed : ∀ u v, edge u v → v ∈ U.

(** The nodes that have not been visited. *)
Definition white (cs : gmap Z color_e) : gset Z := filter (λ v, color cs v = UNVISITED) U.

Lemma color_insert cs u c v : color (<[u := c]> cs) v = if decide (u = v) then c else color cs v.
Proof.
  unfold color. case_decide as E; [subst; by rewrite lookup_insert_eq|by rewrite lookup_insert_ne].
Qed.

(** A topological order of the visited nodes. *)
Definition topo (order : list Z) (cs : gmap Z color_e) : Prop :=
  (∀ v, v ∈ order ↔ color cs v = VISITED) ∧ ∀ pre u post v, order = pre ++ u :: post → edge u v → v ∈ pre.

Definition sorted_so_far (cs : gmap Z color_e) : Prop := ∃ order, topo order cs.

(** How colours may change in a walk that finds no cycle. *)
Definition grows (cs cs' : gmap Z color_e) : Prop :=
  (∀ v, color cs v = VISITED → color cs' v = VISITED) ∧ (∀ v, color cs' v = VISITING ↔ color cs v = VISITING).

Definition cyclic : Prop := ∃ v, tc edge v v.

Definition result (cs : gmap Z color_e) (goal : list Z) (r : outcome (bool * gmap Z color_e)) : Prop :=
  ∃ b cs', r = Ok (b, cs') ∧
    if (b : bool) then grows cs cs' ∧ sorted_so_far cs' ∧ (∀ v, v ∈ goal → color cs' v = VISITED) else cyclic.

Lemma grows_refl cs : grows cs cs.
Proof. by split. Qed.

Lemma grows_trans cs1 cs2 cs3 : grows cs1 cs2 → grows cs2 cs3 → grows cs1 cs3.
Proof. intros [A1 A2] [B1 B2]. split; [by auto|]. intros v. by rewrite B2. Qed.

Lemma grows_white cs cs' : grows cs cs' → white cs' ⊆ white cs.
Proof.
  intros [H1 H2] v. unfold white. rewrite !elem_of_filter. intros [Hv HU]. split; [|done].
  destruct (color cs v) eqn:E; [done|by apply H2 in E; congruence|by apply H1 in E; congruence].
Qed.

Lemma grows_size n cs cs' : grows cs cs' → (size (white cs) ≤ n)%nat → (size (white cs') ≤ n)%nat.
Proof. intros H%grows_white Hn. apply subseteq_size in H. lia. Qed.

(** The loop over the dependencies of [u], given what a walk does. *)
Lemma walk_all_spec walk n u next cs :
  (∀ cs v, color cs v = UNVISITED → v ∈ U → (size (white cs) ≤ n)%nat → sorted_so_far cs →
     (∀ g, color cs g = VISITING → rtc edge g v) → result cs [v] (walk cs v)) →
  (∀ v, v ∈ next → edge u v) → (size (white cs) ≤ n)%nat → sorted_so_far cs →
  (∀ g, color cs g = VISITING → rtc edge g u) → result cs next (walk_all walk cs next).
Proof.
  intros Hwalk. revert cs. induction next as [|v next IH]; intros cs Hnext Hn Hs Hg; cbn [walk_all].
  { exists true, cs. split; [done|]. split_and!; [apply grows_refl|done|by intros v ?%not_elem_of_nil]. }
  assert (edge u v) as Hv by (apply Hnext; by left).
  assert (∀ cs', grows cs cs' → sorted_so_far cs' → color cs' v = VISITED → result cs (v :: next) (walk_all walk cs' next)) as Hrest.
  { intros cs' Hgr Hs' Hvis. destruct (IH cs') as (b & cs2 & -> & Hb); [intros; apply Hnext; by right|by eapply grows_size|done|intros g E; apply Hg; by apply Hgr|].
    exists b, cs2. split; [done|]. destruct b; [|done]. destruct Hb as (G2 & S2 & V2). split_and!; [by eapply grows_trans|done|].
    intros x [->|Hx]%elem_of_cons; [by apply G2|by apply V2]. }
  destruct (color cs v) eqn:E.
  - destruct (Hwalk cs v) as (b & cs' & -> & Hb); [done|by eapply Hclosed|done|done| |].
    { intros g Hgr. eapply rtc_r; [by apply Hg|done]. }
    cbn [mbind outcome_bind]. destruct b; [|by exists false, cs']. destruct Hb as (G & S & V). apply Hrest; [done|done|apply V; by left].
  - exists false, cs. split; [done|]. exists v. eapply tc_rtc_l; [by apply Hg|by constructor].
  - by apply Hrest.
Qed.

Lemma walk_graph_spec fuel cs u :
  color cs u = UNVISITED → u ∈ U → (size (white cs) ≤ fuel)%nat → sorted_so_far cs →
  (∀ g, color cs g = VISITING → rtc edge g u) → result cs [u] (walk_graph fuel ds cs u).
Proof.
  revert cs u. induction fuel as [|fuel IH]; intros cs u Hu HU Hn Hs Hg.
  { assert (u ∈ white cs) as Hin by (by apply elem_of_filter). assert (size (white cs) = 0)%nat as H0 by lia. apply size_empty_inv in H0. set_solver. }
  cbn [walk_graph]. set (cs1 := <[u := VISITING]> cs).
  assert (white cs1 = white cs ∖ {[u]}) as Hw1.
  { apply set_eq. intros v. unfold white, cs1. rewrite elem_of_difference, !elem_of_filter, color_insert, elem_of_singleton. case_decide; naive_solver. }
  destruct (walk_all_spec (walk_graph fuel ds) fuel u (default [] (ds !! u)) cs1) as (b & cs2 & -> & Hb).
  - intros. by apply IH.
  - done.
  - assert (u ∈ white cs) as Hin by (by apply elem_of_filter). rewrite Hw1, size_difference by set_solver. rewrite size_singleton. lia.
  - destruct Hs as (order & Ho1 & Ho2). exists order. split; [|done]. intros v. rewrite Ho1. unfold cs1. rewrite color_insert.
    case_decide as E; [subst; by rewrite Hu|done].
  - intros g. unfold cs1. rewrite color_insert. case_decide as E; [by subst|]. apply Hg.
  - cbn [mbind outcome_bind]. destruct b; [|by exists false, cs2]. exists true, (<[u := VISITED]> cs2). split; [done|].
    destruct Hb as ([G1 G2] & (order & Ho1 & Ho2) & V).
    assert (color cs2 u = VISITING) as Hu2 by (apply G2; unfold cs1; rewrite color_insert; by rewrite decide_True).
    assert (∀ v, u ≠ v → color cs1 v = color cs v) as H1 by (intros v Hne; unfold cs1; by rewrite color_insert, decide_False).
    split_and!.
    + split; intros v; rewrite color_insert; case_decide as E; try subst v.
      * done.
      * intros Hv. apply G1. by rewrite H1.
      * rewrite Hu. naive_solver.
      * rewrite G2. by rewrite H1.
    + exists (order ++ [u]). split.
      * intros v. rewrite elem_of_app, list_elem_of_singleton, Ho1, color_insert. case_decide; naive_solver.
      * intros pre x post v Hcut Hxv. destruct post as [|p post' _] using rev_ind.
        -- apply app_inj_tail in Hcut as [-> <-]. apply Ho1. by apply V.
        -- rewrite app_comm_cons, app_assoc in Hcut. apply app_inj_tail in Hcut as [-> _]. by eapply Ho2.
    + intros v ->%list_elem_of_singleton. by rewrite color_insert, decide_True.
Qed.

(** No cycle among sorted nodes. *)
Lemma topo_acyclic order cs v : topo order cs → (∀ u w, edge u w → u ∈ order) → ¬ tc edge v v.
Proof.
  intros [Ho1 Ho2] Hall Hcyc.
  assert (∀ u w, tc edge u w → ∀ pre post, order = pre ++ u :: post → u ∉ pre → w ∈ pre) as H.
  { intros u w Huw. induction Huw as [u w E|u x w E Hxw IH]; intros pre post Hcut Hfresh; [by eapply Ho2|].
    assert (x ∈ pre) as Hx by (by eapply Ho2). apply list_elem_of_split_l in Hx as (pre1 & pre2 & -> & Hn).
    rewrite <-app_assoc in Hcut. cbn in Hcut. specialize (IH pre1 _ Hcut Hn). apply elem_of_app. by left. }
  assert (v ∈ order) as Hv.
  { assert (∃ w, edge v w) as [w Hw] by (inversion Hcyc; eauto). by eapply Hall. }
  apply list_elem_of_split_l in Hv as (pre & post & Hcut & Hn). apply Hn. by eapply H.
Qed.
End walk.

(** ** The whole check *)

Lemma check_from_spec ds U fuel cs ids :
  (∀ u v, edge ds u v → v ∈ U) → (∀ i, i ∈ ids → i ∈ U) → (size (white U cs) ≤ fuel)%nat →
  sorted_so_far ds cs → (∀ v, color cs v ≠ VISITING) →
  ∃ b, check_from fuel ds cs ids = Ok b ∧
    if (b : bool) then ∃ order cs', topo ds order cs' ∧ (∀ v, v ∈ ids → v ∈ order) ∧ (∀ v, color cs v = VISITED → v ∈ order) else cyclic ds.
Proof.
  intros HU. revert cs. induction ids as [|i ids IH]; intros cs Hin Hn Hs Hg; cbn [check_from].
  { exists true. split; [done|]. destruct Hs as (order & Ho). exists order, cs. split_and!; [done|by intros v ?%not_elem_of_nil|by intros v; apply Ho]. }
  assert (∀ cs', grows cs cs' → sorted_so_far ds cs' → color cs' i = VISITED →
    ∃ b, check_from fuel ds cs' ids = Ok b ∧ if (b : bool)
      then ∃ order cs2, topo ds order cs2 ∧ (∀ v, v ∈ i :: ids → v ∈ order) ∧ (∀ v, color cs v = VISITED → v ∈ order) else cyclic ds) as Hrest.
  { intros cs' Hgr Hs' Hi. destruct (IH cs') as (b & -> & Hb); [intros; apply Hin; by right|by eapply grows_size|done| |].
    { intros v Hv. by apply (Hg v), Hgr. }
    exists b. split; [done|]. destruct b; [|done]. destruct Hb as (order & cs2 & Ho & H1 & H2). exists order, cs2.
    split_and!; [done|intros v [->|Hv]%elem_of_cons; [by apply H2|by apply H1]|intros v Hv; by apply H2, Hgr]. }
  destruct (color cs i) eqn:E.
  - destruct (walk_graph_spec ds U HU fuel cs i) as (b & cs' & -> & Hb); [done|apply Hin; by left|done|done|by intros g ?%Hg|].
    cbn [mbind outcome_bind]. destruct b; [|by exists false]. destruct Hb as (G & S & V). apply Hrest; [done|done|apply V; by left].
  - by apply Hg in E.
  - apply Hrest; [apply grows_refl|done|done].
Qed.

(** The checker's tables after the recorded dependencies. *)
Lemma checker_of_edges l : ∀ t o, edge (deps_ (checker_of l)) t o ↔ (t, o) ∈ l.
Proof.
  unfold checker_of. induction l as [|d l IH] using rev_ind; intros t o.
  { unfold edge. simpl. rewrite lookup_empty. simpl. by rewrite !elem_of_nil. }
  rewrite foldl_app, elem_of_app, list_elem_of_singleton. cbn [foldl]. specialize (IH t o). unfold edge, add_dep in *. cbn [deps_].
  destruct (decide (d.1 = t)) as [<-|Hne].
  - rewrite lookup_insert_eq. cbn [from_option id]. rewrite elem_of_app, IH, list_elem_of_singleton. destruct d; naive_solver.
  - rewrite lookup_insert_ne by done. rewrite IH. destruct d; naive_solver.
Qed.

Lemma checker_of_max l t o : (t, o) ∈ l → t ≤ max_tid_ (checker_of l).
Proof.
  unfold checker_of. induction l as [|d l IH] using rev_ind; [by intros ?%not_elem_of_nil|].
  rewrite foldl_app, elem_of_app, list_elem_of_singleton. cbn [foldl add_dep max_tid_]. intros [H%IH|<-]; simpl; lia.
Qed.

Lemma size_to_set_le (l : list Z) : (size (list_to_set l : gset Z) ≤ length l)%nat.
Proof.
  induction l as [|x l IH]; [done|]. cbn [list_to_set length]. rewrite size_union_alt, size_singleton.
  assert (size ((list_to_set l : gset Z) ∖ {[x]}) ≤ size (list_to_set l : gset Z))%nat by (apply subseteq_size; set_solver). lia.
Qed.

Definition node_list (c : checker) : list Z := tids c ++ concat (map_to_list (deps_ c)).*2.

Lemma edge_node c u v : edge (deps_ c) u v → v ∈ node_list c.
Proof.
  unfold edge, node_list. intros H. apply elem_of_app. right. destruct (deps_ c !! u) as [l|] eqn:E; simpl in H; [|by apply not_elem_of_nil in H].
  rewrite list_elem_of_In, in_concat. exists l. split; [|by apply list_elem_of_In]. apply list_elem_of_In, list_elem_of_fmap.
  exists (u, l). split; [done|]. by apply elem_of_map_to_list.
Qed.

Lemma check_history_spec l :
  Forall (λ d, 1 ≤ d.1) l →
  ∃ b, check_history (checker_of l) = Ok b ∧ (b = true ↔ ∀ v, ¬ tc (λ t o, (t, o) ∈ l) v v).
Proof.
  intros Hpos. set (c := checker_of l). set (cs0 := list_to_map ((λ i, (i, UNVISITED)) <$> tids c) : gmap Z color_e).
  assert (∀ v, color cs0 v = UNVISITED) as Hwhite.
  { intros v. unfold color, cs0. destruct (list_to_map _ !! v) as [x|] eqn:E; [|done]. apply elem_of_list_to_map_2, list_elem_of_fmap in E as (i & [= -> ->] & _). done. }
  assert (∀ v w, tc (λ t o, (t, o) ∈ l) v w ↔ tc (edge (deps_ c)) v w) as Htc.
  { intros v w. split; (induction 1; [apply tc_once|eapply tc_l; [|done]]); by apply (checker_of_edges l). }
  unfold check_history. fold cs0. set (fuel := S _).
  destruct (check_from_spec (deps_ c) (list_to_set (node_list c)) fuel cs0 (tids c)) as (b & -> & Hb).
  - intros u v H. apply elem_of_list_to_set. by eapply edge_node.
  - intros i Hi. apply elem_of_list_to_set, elem_of_app. by left.
  - assert (white (list_to_set (node_list c)) cs0 ⊆ list_to_set (node_list c)) as Hsub by (intros v; unfold white; rewrite elem_of_filter; by intros [_ ?]).
    apply subseteq_size in Hsub. pose proof (size_to_set_le (node_list c)) as Hle. unfold node_list in *. rewrite length_app in Hle. lia.
  - exists []. split; [|by intros []]. intros v. rewrite Hwhite. split; [by intros ?%not_elem_of_nil|done].
  - intros v. by rewrite Hwhite.
  - exists b. split; [done|]. destruct b.
    + destruct Hb as (order & cs' & Ho & Hids & _). split; [|done]. intros _ v Hv%Htc. revert Hv. apply (topo_acyclic _ order cs'); [done|].
      intros u w Huw. apply Hids. apply (checker_of_edges l) in Huw. rewrite Forall_forall in Hpos. pose proof (Hpos _ Huw) as H1. simpl in H1.
      pose proof (checker_of_max _ _ _ Huw) as H2. fold c in H2. apply list_elem_of_fmap. exists (Z.to_nat u). split; [lia|]. apply elem_of_seq. lia.
    + split; [done|]. intros H. destruct Hb as [v Hv]. exfalso. apply (H v). by apply Htc.
Qed.

(** C23: the history checker always returns, and it accepts a history exactly
    when its dependencies have no cycle. *)
Theorem checker_correct l :
  Forall (λ d, 1 ≤ d.1) l →
  ∃ b, check_history (checker_of l) = Ok b ∧ (b = true ↔ ∀ v, ¬ tc (λ t o, (t, o) ∈ l) v v).
Proof. apply check_history_spec. Qed.

(** Transaction 2 after 1, and 1 after 2: not serializable. *)
Lemma checker_correct_witness :
  check_history (checker_of [(1, 2); (2, 1)]) = Ok false ∧ ¬ (∀ v, ¬ tc (λ t o, (t, o) ∈ [(1, 2); (2, 1)]) v v).
Proof.
  assert (check_history (checker_of [(1, 2); (2, 1)]) = Ok false) as E by (vm_compute; reflexivity).
  destruct (checker_correct [(1, 2); (2, 1)]) as (b & H & Hb); [repeat constructor; simpl; lia|].
  split; [exact E|]. rewrite E in H. injection H as <-. intros Hc. apply Hb in Hc. discriminate.
Defined.
