(* ===== verification/SimSerial.v ===== *)
(** * The order of admission in the simulated switch

    The ids of the valid packets in the order in which they enter the pipeline,
    a ghost of the proofs; the part of it that has passed each stage; and what
    the register operations and the shift of the pipeline do with respect to it:
    the dependencies they record follow the order. *)
From stdpp Require Import base tactics list numbers gmap relations.
From Stdlib Require Import ZArith Lia.
From S2P Require Import Prelude SimLayout SimSwitch SimChecker.

#[local] Open Scope Z_scope.

(** ** The order of admission *)

(** The passes of a transaction are admitted next to each other. *)
Inductive contig : list Z → Prop :=
| contig_nil : contig []
| contig_snoc l x : contig l → x ∉ l ∨ last l = Some x → contig (l ++ [x]).

(** [o] is admitted before the first pass of [t]. *)
Definition before (adm : list Z) (o t : Z) : Prop := ∃ l1 l2, adm = l1 ++ t :: l2 ∧ t ∉ l1 ∧ o ∈ l1.

Lemma before_app adm l o t : before adm o t → before (adm ++ l) o t.
Proof. intros (l1 & l2 & -> & ? & ?). exists l1, (l2 ++ l). by rewrite <-app_assoc. Qed.

Lemma before_irrefl adm t : ¬ before adm t t.
Proof. by intros (l1 & l2 & _ & ? & ?). Qed.

Lemma split_first_unique (l1 l2 m1 m2 : list Z) x : l1 ++ x :: l2 = m1 ++ x :: m2 → x ∉ l1 → x ∉ m1 → l1 = m1.
Proof.
  revert m1. induction l1 as [|a l1 IH]; intros [|b m1] H H1 H2; simplify_eq/=; [done| | |].
  - destruct H2. by left.
  - destruct H1. by left.
  - f_equal. apply IH; [done|set_solver..].
Qed.

Lemma before_trans adm a b c : before adm a b → before adm b c → before adm a c.
Proof.
  intros (l1 & l2 & Hl & Hb & Ha) (m1 & m2 & Hm & Hc & Hbm). exists m1, m2. split_and!; [done|done|].
  apply list_elem_of_split_l in Hbm as (n1 & n2 & Hn & Hbn). rewrite Hn in Hm. rewrite Hl, <-app_assoc in Hm. cbn in Hm.
  apply split_first_unique in Hm; [|done..]. subst n1. rewrite Hn. apply elem_of_app. by left.
Qed.

(** Between two passes of a transaction only its own passes are admitted. *)
Lemma contig_between adm a t b c : contig adm → adm = a ++ t :: b ++ t :: c → Forall (λ x, x = t) b.
Proof.
  intros H. revert a b c. induction H as [|l x Hl IH Hx]; intros a b c Heq; [by destruct a|].
  destruct c as [|y c _] using rev_ind.
  - assert (a ++ t :: b ++ [t] = (a ++ t :: b) ++ [t]) as E by (by rewrite <-app_assoc). rewrite E in Heq. apply app_inj_tail in Heq as [-> ->].
    destruct Hx as [Hx|Hx]; [destruct Hx; apply elem_of_app; right; by left|].
    destruct b as [|z b _] using rev_ind; [done|]. rewrite app_comm_cons, app_assoc, last_snoc in Hx. simplify_eq.
    apply Forall_app. split; [|by constructor]. by apply (IH a b []).
  - apply (IH a b c). apply (app_inj_tail _ _ x y). rewrite Heq. rewrite <-!app_assoc. cbn. by rewrite <-!app_assoc.
Qed.

Lemma contig_before adm l1 t l2 o : contig adm → adm = l1 ++ t :: l2 → o ∈ l1 → o ≠ t → before adm o t.
Proof.
  intros Hc Hadm Ho Hne. destruct (decide (t ∈ l1)) as [Ht|Ht]; [|by exists l1, l2].
  apply list_elem_of_split_l in Ht as (m1 & m2 & -> & Hm). exists m1, (m2 ++ t :: l2). rewrite Hadm, <-app_assoc. split_and!; [done|done|].
  apply elem_of_app in Ho as [Ho|[->|Ho]%elem_of_cons]; [done|done|]. exfalso.
  assert (Forall (λ x, x = t) m2) as Hall. { apply (contig_between adm m1 t m2 l2 Hc). by rewrite Hadm, <-app_assoc. }
  rewrite Forall_forall in Hall. by apply Hne, Hall.
Qed.

(** ** The pipeline and what its stages have executed *)

(** [vp] has, per stage, the id of the valid packet there; [done_at] is what
    has passed a stage when the pipeline holds the newest packets of [adm]. *)
Definition newest (vp : list (option Z)) : list Z := omap id (rev vp).

Definition done_at (adm : list Z) (vp : list (option Z)) (i : nat) : list Z :=
  take (length adm - length (newest (take (S i) vp))) adm.

Definition holds_newest (adm : list Z) (vp : list (option Z)) : Prop := ∃ old, adm = old ++ newest vp.

Lemma newest_app vp1 vp2 : newest (vp1 ++ vp2) = newest vp2 ++ newest vp1.
Proof. unfold newest. by rewrite rev_app_distr, omap_app. Qed.

Lemma newest_one o : newest [o] = option_list o.
Proof. by destruct o. Qed.

Lemma done_at_spec adm vp i : holds_newest adm vp → adm = done_at adm vp i ++ newest (take (S i) vp).
Proof.
  intros [old Hold]. unfold done_at. rewrite <-(take_drop (S i) vp), newest_app, app_assoc in Hold.
  rewrite Hold at 2 3. rewrite length_app.
  replace (length (old ++ newest (drop (S i) vp)) + length (newest (take (S i) vp)) - length (newest (take (S i) vp)))%nat
    with (length (old ++ newest (drop (S i) vp))) by lia.
  rewrite take_app_length. done.
Qed.

Lemma done_at_next adm vp i o : holds_newest adm vp → vp !! i = Some o →
  adm = done_at adm vp i ++ option_list o ++ newest (take i vp).
Proof.
  intros H Ho. rewrite (done_at_spec adm vp i H) at 1. f_equal. rewrite (take_S_r _ _ _ Ho), newest_app, newest_one. done.
Qed.

(** After a cycle everything has moved on by one stage, and [e] has entered. *)
Lemma done_at_shift adm vp e i o : holds_newest adm vp → length vp = N_STAGES → vp !! i = Some o →
  holds_newest (adm ++ option_list e) (e :: take (N_STAGES - 1) vp)
  ∧ done_at (adm ++ option_list e) (e :: take (N_STAGES - 1) vp) i = done_at adm vp i ++ option_list o.
Proof.
  intros H Hlen Ho. set (vp' := e :: take (N_STAGES - 1) vp).
  assert (newest vp' = newest (take (N_STAGES - 1) vp) ++ option_list e) as Hn.
  { unfold vp'. change (e :: ?l) with ([e] ++ l). by rewrite newest_app, newest_one. }
  assert (holds_newest (adm ++ option_list e) vp') as H'.
  { destruct H as [old ->]. rewrite <-(take_drop (N_STAGES - 1) vp) at 1. rewrite newest_app. exists (old ++ newest (drop (N_STAGES - 1) vp)).
    rewrite Hn. by rewrite !app_assoc. }
  split; [done|]. pose proof (done_at_spec _ _ i H') as E.
  assert (newest (take (S i) vp') = newest (take i vp) ++ option_list e) as Hi.
  { unfold vp'. cbn [take]. change (e :: ?l) with ([e] ++ l). rewrite newest_app, newest_one, take_take.
    apply lookup_lt_Some in Ho. by replace (i `min` (N_STAGES - 1))%nat with i by lia. }
  rewrite Hi in E. rewrite (done_at_next adm vp i o H Ho) in E at 1. rewrite !app_assoc in E.
  apply app_inv_tail, app_inv_tail in E. by rewrite E.
Qed.

(** A packet enters the empty first stage. *)
Lemma done_at_enter adm vp e i : holds_newest adm (None :: vp) →
  holds_newest (adm ++ option_list e) (e :: vp)
  ∧ done_at (adm ++ option_list e) (e :: vp) i = done_at adm (None :: vp) i.
Proof.
  intros H. assert (∀ o l, newest (o :: l) = newest l ++ option_list o) as Hn.
  { intros o l. change (o :: l) with ([o] ++ l). by rewrite newest_app, newest_one. }
  assert (holds_newest (adm ++ option_list e) (e :: vp)) as H'.
  { destruct H as [old ->]. exists old. rewrite !Hn. cbn [option_list]. by rewrite app_nil_r, app_assoc. }
  split; [done|]. pose proof (done_at_spec _ _ i H') as E. rewrite (done_at_spec _ _ i H) in E at 1. cbn [take] in E. rewrite !Hn in E.
  cbn [option_list] in E. rewrite app_nil_r, app_assoc in E. apply app_inv_tail, app_inv_tail in E. by symmetry.
Qed.

(** ** Register operations *)

Definition txn_wf (t : sw_txn_t) : Prop :=
  0 ≤ port t < Z.of_nat N_PORTS
  ∧ Forall (λ g, length g = N_CELLS ∧ Forall (λ o, ∀ i, o = Some i → 0 ≤ i < SLOTS_PER_REG) g) (passes t).

Definition deps_ok (adm : list Z) (d : list (Z * Z)) : Prop :=
  Forall (λ x, 1 ≤ x.1 ∧ (x.2 = START_TXN_ID ∨ x.2 = x.1 ∨ before adm x.2 x.1)) d.

(** The registers of stage [i] were last accessed by transactions of [D i]. *)
Definition accessed (D : nat → list Z) (adm : list Z) (r : gmap (nat * Z) Z) (d : list (Z * Z)) : Prop :=
  (∀ c x v, (c < N_CELLS)%nat → r !! (c, x) = Some v → v ∈ D (c / REGS_PER_STAGE)%nat) ∧ deps_ok adm d.

Definition with_regs (r : gmap (nat * Z) Z) (d : list (Z * Z)) (st : stats) (s : switch_t) : switch_t :=
  upd_stat st (upd_regs r d s).

Lemma reg_op_spec D adm s t i c rest r d st :
  accessed D adm r d → contig adm → 1 ≤ txn_id t → txn_wf t → (pass_ct t < length (passes t))%nat →
  (c / REGS_PER_STAGE)%nat = i → (c < N_CELLS)%nat → (∃ D0, D i = D0 ++ [txn_id t] ∧ adm = D0 ++ txn_id t :: rest) →
  ∃ r' d' st', reg_op t (with_regs r d st s) c = Ok (with_regs r' d' st' s) ∧ accessed D adm r' d'.
Proof.
  intros [Hr Hd] Hcon Hid [_ Hwf] Hpc Hci Hc (D0 & HD & Hadm). unfold reg_op.
  destruct (lookup_lt_is_Some_2 (passes t) (pass_ct t) Hpc) as [g Hg]. unfold aget. rewrite Hg. cbn [mbind outcome_bind].
  rewrite Forall_lookup in Hwf. destruct (Hwf _ _ Hg) as [Hgl Hgr].
  destruct (lookup_lt_is_Some_2 g c) as [o Ho]; [lia|]. rewrite Ho. cbn [mbind outcome_bind].
  destruct o as [x|]; [|by exists r, d, st]. rewrite Forall_lookup in Hgr. specialize (Hgr _ _ Ho x eq_refl).
  rewrite bool_decide_eq_true_2 by done. cbn [with_regs upd_stat upd_regs regs_ deps].
  exists (<[(c, x) := txn_id t]> r), (d ++ [(txn_id t, default START_TXN_ID (r !! (c, x)))]). eexists. split; [reflexivity|]. split.
  - intros c' x' v Hc' [[Heq <-]|[_ Hv]]%lookup_insert_Some; [|by eapply Hr]. injection Heq as <- <-. rewrite Hci, HD. apply elem_of_app. right. by left.
  - apply Forall_app. split; [done|]. constructor; [|constructor]. cbn [fst snd]. split; [done|].
    destruct (r !! (c, x)) as [v|] eqn:E; [|by left]. cbn [from_option id]. right. apply Hr in E; [|done]. rewrite Hci, HD in E.
    apply elem_of_app in E as [E|E%list_elem_of_singleton]; [|by left].
    destruct (decide (v = txn_id t)) as [->|Hne]; [by left|]. right. by apply (contig_before adm D0 (txn_id t) rest).
Qed.

(** What a stage does when its packet is [o]. *)
Definition vid (pool : list sw_txn_t) (o : option nat) : option Z :=
  slot ← o; t ← pool !! slot; if valid t then Some (txn_id t) else None.

Definition step_at (D : nat → list Z) (i : nat) (o : option Z) : nat → list Z :=
  λ j, if decide (j = i) then D i ++ option_list o else D j.

Lemma run_reg_ops_spec D adm s i o r d st :
  accessed D adm r d → contig adm → (i < N_STAGES)%nat → ingr_pipe_ s !! i = Some o →
  (∀ slot, o = Some slot → ∃ t, pool_ (txn_pool_ s) !! slot = Some t ∧ txn_wf t ∧ (pass_ct t < length (passes t))%nat ∧ 1 ≤ txn_id t) →
  (∀ v, vid (pool_ (txn_pool_ s)) o = Some v → ∃ rest, adm = D i ++ v :: rest) →
  ∃ r' d' st', run_reg_ops i (with_regs r d st s) = Ok (with_regs r' d' st' s)
    ∧ accessed (step_at D i (vid (pool_ (txn_pool_ s)) o)) adm r' d'.
Proof.
  intros Hacc Hcon Hi Ho Hslot Hv. unfold run_reg_ops, aget. cbn [with_regs upd_stat upd_regs ingr_pipe_ txn_pool_]. rewrite Ho. cbn [mbind outcome_bind].
  assert (∀ o', vid (pool_ (txn_pool_ s)) o = o' → o' = None → accessed (step_at D i o') adm r d) as Hnone.
  { intros o' _ ->. split; [|by apply Hacc]. intros c x w Hc H. unfold step_at. cbn [option_list]. rewrite app_nil_r.
    apply Hacc in H; [|done]. case_decide as E; [by rewrite <-E|done]. }
  destruct o as [slot|]; [|exists r, d, st; split; [done|by apply Hnone]].
  destruct (Hslot slot eq_refl) as (t & Ht & Hwf & Hpc & Hid). unfold pool_at, aget. cbn [with_regs upd_stat upd_regs txn_pool_]. rewrite Ht. cbn [mbind outcome_bind].
  destruct (valid t) eqn:Hval.
  2:{ exists r, d, st. split; [done|]. apply Hnone; [done|]. unfold vid. cbn. rewrite Ht. cbn. by rewrite Hval. }
  assert (vid (pool_ (txn_pool_ s)) (Some slot) = Some (txn_id t)) as Hvid by (unfold vid; cbn; rewrite Ht; cbn; by rewrite Hval).
  destruct (Hv _ Hvid) as [rest Hadm]. rewrite Hvid. cbn [option_list].
  set (D' := step_at D i (Some (txn_id t))).
  assert (accessed D' adm r d) as Hacc'.
  { split; [|by apply Hacc]. intros c x w Hc H. apply Hacc in H; [|done]. unfold D', step_at. case_decide as E; [rewrite <-E; apply elem_of_app; by left|done]. }
  assert (∃ D0, D' i = D0 ++ [txn_id t] ∧ adm = D0 ++ txn_id t :: rest) as HD.
  { exists (D i). split; [|done]. unfold D', step_at. by rewrite decide_True. }
  change (seq (i * REGS_PER_STAGE) REGS_PER_STAGE) with [(i * REGS_PER_STAGE)%nat; S (i * REGS_PER_STAGE)]. cbn [ofold].
  unfold N_STAGES in Hi. destruct (reg_op_spec D' adm s t i (i * REGS_PER_STAGE) rest r d st) as (r1 & d1 & st1 & H1 & A1); try done.
  { by apply Nat.div_mul. } { unfold N_CELLS, N_STAGES, REGS_PER_STAGE. lia. }
  destruct (reg_op_spec D' adm s t i (S (i * REGS_PER_STAGE)) rest r1 d1 st1) as (r2 & d2 & st2 & H2 & A2); try done.
  { symmetry. apply (Nat.div_unique _ _ _ 1); unfold REGS_PER_STAGE; lia. } { unfold N_CELLS, N_STAGES, REGS_PER_STAGE. lia. }
  unfold with_regs in *. rewrite H1. cbn [mbind outcome_bind]. rewrite H2. cbn [mbind outcome_bind]. by eexists _, _, _.
Qed.

Lemma accessed_mono D D' adm r d : accessed D adm r d → (∀ j, (j < N_STAGES)%nat → D j = D' j) → accessed D' adm r d.
Proof.
  intros [H1 H2] HD. split; [|done]. intros c x v Hc H. rewrite <-HD; [by eapply H1|].
  apply Nat.Div0.div_lt_upper_bound. unfold N_CELLS in Hc. lia.
Qed.

(** ** The shift of the pipeline *)

(** A stage holds nothing or a sound transaction. *)
Definition stage_ok (pool : list sw_txn_t) (o : option nat) : Prop :=
  ∀ slot, o = Some slot → ∃ t, pool !! slot = Some t ∧ txn_wf t ∧ (pass_ct t < length (passes t))%nat ∧ 1 ≤ txn_id t.

Section shift.
Context (s : switch_t) (adm : list Z) (vp : list (option Z)).
Notation pl := (ingr_pipe_ s).
Hypothesis Hlen : length pl = N_STAGES.
Hypothesis Hvlen : length vp = N_STAGES.
Hypothesis Hcon : contig adm.
Hypothesis Hnew : holds_newest adm vp.
Hypothesis Hstage : ∀ j o, (j < N_STAGES - 1)%nat → pl !! j = Some o →
  stage_ok (pool_ (txn_pool_ s)) o ∧ vp !! j = Some (vid (pool_ (txn_pool_ s)) o).

(** The pipeline and the stages executed when stages above [k] are done. *)
Definition pipe_at (k : nat) : list (option nat) := take (S k) pl ++ take (N_STAGES - 1 - k) (drop k pl).
Definition exec_at (k : nat) (j : nat) : list Z :=
  if decide (k ≤ j)%nat then done_at adm vp j ++ option_list (vp !!! j) else done_at adm vp j.

Lemma pipe_at_len k : (k < N_STAGES)%nat → length (pipe_at k) = N_STAGES.
Proof. intros Hk. unfold pipe_at. rewrite length_app, !length_take, length_drop. lia. Qed.

Lemma pipe_at_step k o : (S k < N_STAGES)%nat → pl !! k = Some o → <[S k := o]> (pipe_at (S k)) = pipe_at k ∧ pipe_at (S k) !! k = Some o.
Proof.
  intros Hk Ho. destruct (lookup_lt_is_Some_2 pl (S k)) as [o' Ho']; [lia|]. unfold pipe_at. split.
  - rewrite (take_S_r _ _ _ Ho'), <-app_assoc. rewrite insert_app_r_alt; rewrite length_take; [|lia].
    replace (S k - S k `min` length pl)%nat with 0%nat by lia. cbn [app insert list_insert]. f_equal.
    rewrite (drop_S _ _ _ Ho). replace (N_STAGES - 1 - k)%nat with (S (N_STAGES - 1 - S k)) by lia. done.
  - rewrite lookup_app_l by (rewrite length_take; lia). by rewrite lookup_take_lt by lia.
Qed.

Lemma shift_from k r d st : (k < N_STAGES)%nat → accessed (exec_at k) adm r d →
  ∃ r' d' st', ofold shift_stage (rev (seq 1 k)) (with_regs r d st (upd_pipe (pipe_at k) s))
    = Ok (with_regs r' d' st' (upd_pipe (pipe_at 0) s)) ∧ accessed (exec_at 0) adm r' d'.
Proof.
  revert r d st. induction k as [|k IH]; intros r d st Hk Hacc; [by exists r, d, st|].
  rewrite seq_S, rev_app_distr. cbn [rev app ofold]. replace (1 + k)%nat with (S k) by lia.
  destruct (lookup_lt_is_Some_2 pl k) as [o Ho]; [lia|]. destruct (Hstage k o) as [Hok Hvp]; [lia|done|].
  destruct (pipe_at_step k o Hk Ho) as [Hins Hat].
  destruct (run_reg_ops_spec (exec_at (S k)) adm (upd_pipe (pipe_at (S k)) s) k o r d st) as (r1 & d1 & st1 & H1 & A1); try done; [lia| |].
  { cbn [upd_pipe txn_pool_]. intros v Hv. rewrite Hv in Hvp. exists (newest (take k vp)). unfold exec_at. rewrite decide_False by lia.
    by apply (done_at_next adm vp k (Some v)). }
  assert (shift_stage (with_regs r d st (upd_pipe (pipe_at (S k)) s)) (S k) = Ok (with_regs r1 d1 st1 (upd_pipe (pipe_at k) s))) as ->.
  { unfold shift_stage. replace (S k - 1)%nat with k by lia. rewrite H1. cbn [mbind outcome_bind]. unfold aget.
    change (ingr_pipe_ (with_regs _ _ _ _)) with (pipe_at (S k)). rewrite Hat. cbn [mbind outcome_bind].
    rewrite aset_lt by (rewrite pipe_at_len; done). cbn [mbind outcome_bind]. by rewrite Hins. }
  apply (IH r1 d1 st1); [lia|]. eapply accessed_mono; [exact A1|]. intros j _. cbn [upd_pipe txn_pool_]. unfold step_at, exec_at.
  destruct (decide (j = k)) as [->|Hne]; [rewrite decide_False, decide_True by lia; by rewrite (list_lookup_total_correct _ _ _ Hvp)|].
  repeat case_decide; lia || done.
Qed.
End shift.
