(* ===== verification/SimRun.v ===== *)
(** * Runs of the simulated switch

    An invariant of the switch that every operation preserves: each slot of the
    pool is in one place, a transaction between two passes holds the pipeline,
    and the registers were last accessed in the order of admission.  With it,
    every cycle runs to its end and every recorded dependency follows the order
    of admission, so the checker accepts every history in which no transaction
    depends on itself. *)
From stdpp Require Import base tactics list numbers gmap relations.
From Stdlib Require Import ZArith Lia.
From S2P Require Import Prelude SimLayout SimSwitch SimChecker SimSerial.

#[local] Open Scope Z_scope.

(** ** The slots of the pool *)

(** A transaction that waits for a pass: its first, or it holds the pipeline. *)
Definition awaits (adm : list Z) (h : option Z) (t : sw_txn_t) : Prop :=
  if decide (pass_ct t = 0%nat) then txn_id t ∉ adm else h = Some (txn_id t).

(** A live transaction, waiting ([w]) or in the pipeline. *)
Definition good (adm : list Z) (h : option Z) (n : Z) (w : bool) (t : sw_txn_t) : Prop :=
  txn_wf t ∧ (pass_ct t < length (passes t))%nat ∧ 1 ≤ txn_id t < n
  ∧ if w || negb (valid t) then awaits adm h t else (pass_ct t + 1 < length (passes t))%nat → h = Some (txn_id t).

Record Slots (adm : list Z) (h : option Z) (n : Z) (pool : list sw_txn_t) (L : list (nat * bool)) (O : list nat) : Prop := {
  sl_nodup : NoDup (L.*1 ++ O);
  sl_out : ∀ slot, slot ∈ O → (slot < length pool)%nat;
  sl_live : ∀ slot w, (slot, w) ∈ L → ∃ t, pool !! slot = Some t ∧ good adm h n w t;
  sl_ids : ∀ s1 s2 t1 t2, s1 ∈ L.*1 → s2 ∈ L.*1 → pool !! s1 = Some t1 → pool !! s2 = Some t2 → txn_id t1 = txn_id t2 → s1 = s2;
  sl_adm : ∀ x, x ∈ adm → 1 ≤ x < n;
  sl_last : ∀ x, h = Some x → last adm = Some x;
  sl_contig : contig adm;
}.

Lemma slots_perm adm h n pool L L' O O' : L ≡ₚ L' → O ≡ₚ O' → Slots adm h n pool L O → Slots adm h n pool L' O'.
Proof.
  intros HL HO []. constructor; [by rewrite <-HL, <-HO|by setoid_rewrite <-HO|by setoid_rewrite <-HL|by setoid_rewrite <-HL|done..].
Qed.

#[global] Instance slots_proper adm h n pool : Proper ((≡ₚ) ==> (≡ₚ) ==> iff) (Slots adm h n pool).
Proof. intros L L' HL O O' HO. split; apply slots_perm; done. Qed.

(** The transaction of one slot changes, and the others are as good as before. *)
Lemma slots_move adm h n pool slot w L O adm' h' w' t t' :
  Slots adm h n pool ((slot, w) :: L) O → pool !! slot = Some t → txn_id t' = txn_id t → good adm' h' n w' t' →
  (∀ u v, txn_id u ≠ txn_id t → good adm h n v u → good adm' h' n v u) →
  (∀ x, x ∈ adm' → 1 ≤ x < n) → (∀ x, h' = Some x → last adm' = Some x) → contig adm' →
  Slots adm' h' n (<[slot := t']> pool) ((slot, w') :: L) O.
Proof.
  intros [Hnd Hout Hlive Hids Hadm Hlast Hcon] Ht Hid Hgood Hrest Hadm' Hlast' Hcon'. cbn [fst fmap list_fmap] in *.
  pose proof (lookup_lt_Some _ _ _ Ht) as Hlt. apply NoDup_cons in Hnd as [Hni Hnd].
  assert (∀ s u, s ∈ L.*1 → <[slot := t']> pool !! s = Some u → pool !! s = Some u ∧ s ≠ slot) as Hsame.
  { intros s u Hs. assert (s ≠ slot) by (intros ->; set_solver). by rewrite list_lookup_insert_ne. }
  constructor; cbn [fst fmap list_fmap]; try done.
  - by constructor.
  - intros s Hs. rewrite length_insert. by apply Hout.
  - intros s v [Heq|Hin]%elem_of_cons.
    + injection Heq as -> ->. exists t'. by rewrite list_lookup_insert_eq.
    + destruct (Hlive s v) as (u & Hu & Hg); [by right|]. assert (s ∈ L.*1) as Hs by (apply list_elem_of_fmap; by exists (s, v)).
      assert (s ≠ slot) as Hne by (intros ->; set_solver). exists u. rewrite list_lookup_insert_ne by done. split; [done|].
      apply Hrest; [|done]. intros Heq. apply Hne. eapply Hids; [by right|by left|done..].
  - intros s1 s2 t1 t2 [->|H1]%elem_of_cons [->|H2]%elem_of_cons E1 E2 Heq; [done| | |].
    + apply Hsame in E2 as [E2 _]; [|done]. rewrite list_lookup_insert_eq in E1 by done. simplify_eq.
      eapply Hids; [by left|by right|done..|congruence].
    + apply Hsame in E1 as [E1 _]; [|done]. rewrite list_lookup_insert_eq in E2 by done. simplify_eq.
      eapply Hids; [by right|by left|done..|congruence].
    + apply Hsame in E1 as [E1 _]; [|done]. apply Hsame in E2 as [E2 _]; [|done]. eapply Hids; [by right|by right|done..].
Qed.

(** A transaction leaves the switch. *)
Lemma slots_out adm h n pool slot w L O t' :
  Slots adm h n pool ((slot, w) :: L) O → Slots adm h n (<[slot := t']> pool) L (slot :: O).
Proof.
  intros [Hnd Hout Hlive Hids Hadm Hlast Hcon]. cbn [fst fmap list_fmap] in *. apply NoDup_cons in Hnd as [Hni Hnd].
  destruct (Hlive slot w) as (t & Ht & _); [by left|].
  assert (∀ s, s ∈ L.*1 → <[slot := t']> pool !! s = pool !! s) as Hsame.
  { intros s Hs. rewrite list_lookup_insert_ne; [done|]. intros ->. set_solver. }
  constructor; try done.
  - apply NoDup_app in Hnd as (H1 & H2 & H3). apply NoDup_app. split_and!; [done| |constructor; [set_solver|done]].
    intros s Hs [->|?]%elem_of_cons; [set_solver|by eapply H2].
  - intros s [->|Hs]%elem_of_cons; rewrite length_insert; [by eapply lookup_lt_Some|by apply Hout].
  - intros s v Hin. destruct (Hlive s v) as (u & Hu & Hg); [by right|]. exists u. rewrite Hsame; [done|]. apply list_elem_of_fmap. by exists (s, v).
  - intros s1 s2 t1 t2 H1 H2. rewrite !Hsame by done. apply Hids; by right.
Qed.

Lemma awaits_fresh adm h n t : (∀ x, x ∈ adm → 1 ≤ x < n) → pass_ct t = 0%nat → awaits adm h (set_txn_id n t).
Proof. intros Hadm Hp. unfold awaits. cbn. rewrite decide_True by done. intros H%Hadm. lia. Qed.

(** A transaction is sent. *)
Lemma slots_in adm h n pool slot L O t :
  Slots adm h n pool L (slot :: O) → txn_wf t → pass_ct t = 0%nat → (0 < length (passes t))%nat → 1 ≤ n →
  Slots adm h (n + 1) (<[slot := set_txn_id n t]> pool) ((slot, true) :: L) O.
Proof.
  intros [Hnd Hout Hlive Hids Hadm Hlast Hcon] Hwf Hp Hlen Hn.
  assert (NoDup (slot :: L.*1 ++ O)) as Hnd' by (eapply NoDup_Permutation_proper; [|exact Hnd]; solve_Permutation).
  apply NoDup_cons in Hnd' as [Hni Hnd']. pose proof (Hout slot) as Hlt. specialize (Hlt ltac:(by left)).
  assert (∀ s, s ∈ L.*1 → <[slot := set_txn_id n t]> pool !! s = pool !! s) as Hsame.
  { intros s Hs. rewrite list_lookup_insert_ne; [done|]. intros ->. set_solver. }
  assert (∀ s u, s ∈ L.*1 → pool !! s = Some u → txn_id u < n) as Hltn.
  { intros s u ((s' & v) & -> & Hin)%list_elem_of_fmap Hu. cbn in Hu. destruct (Hlive s' v Hin) as (u' & Hu' & Hg). simplify_eq. by apply Hg. }
  constructor; cbn [fst fmap list_fmap]; try done.
  - by constructor.
  - intros s Hs. rewrite length_insert. apply Hout. by right.
  - intros s v [Heq|Hin]%elem_of_cons.
    + injection Heq as -> ->. exists (set_txn_id n t). rewrite list_lookup_insert_eq by done. split; [done|]. split_and!; [done|cbn; lia|cbn; lia..|].
      cbn [orb]. by apply awaits_fresh with (n := n).
    + destruct (Hlive s v Hin) as (u & Hu & Hw & Hpu & Hi & Hg). exists u. rewrite Hsame; [|apply list_elem_of_fmap; by exists (s, v)].
      split; [done|]. split_and!; [done|done|lia|lia|done].
  - intros s1 s2 t1 t2 [->|H1]%elem_of_cons [->|H2]%elem_of_cons E1 E2 Heq; [done| | |].
    + rewrite list_lookup_insert_eq in E1 by done. rewrite Hsame in E2 by done. simplify_eq. cbn in Heq. apply Hltn in E2; [lia|done].
    + rewrite list_lookup_insert_eq in E2 by done. rewrite Hsame in E1 by done. simplify_eq. cbn in Heq. apply Hltn in E1; [lia|done].
    + rewrite Hsame in E1, E2 by done. by eapply Hids.
  - intros x Hx%Hadm. lia.
Qed.

(** A transaction enters the pipeline, with or without the lock. *)
Lemma slots_enter adm h n pool slot L O t b h' :
  Slots adm h n pool ((slot, true) :: L) O → pool !! slot = Some t → whole_pipe_lock t h = (b, h') →
  Slots (adm ++ (if b then [txn_id t] else [])) h' n (<[slot := set_valid b t]> pool) ((slot, false) :: L) O.
Proof.
  intros HS Ht Hlock. destruct (sl_live _ _ _ _ _ _ HS slot true) as (t0 & Ht0 & Hwf & Hp & Hid & Hw); [by left|]. simplify_eq. cbn [orb] in Hw.
  assert (b = false ∧ h' = h ∨ b = true ∧ (h = None ∨ h = Some (txn_id t))
    ∧ (h' = if decide (pass_ct t + 1 = length (passes t))%nat then None else Some (txn_id t))) as Hcase.
  { unfold whole_pipe_lock in Hlock. unfold awaits in Hw. destruct h as [x|].
    - destruct (Z.eqb_spec x (txn_id t)) as [->|]; simplify_eq; [|by left]. right. split_and!; [done|by right|].
      clear Hw. case_bool_decide; case_decide; lia || done.
    - simplify_eq. right. split_and!; [done|by left|]. destruct (decide (pass_ct t = 0%nat)) as [E|]; [|done]. rewrite E in *.
      case_bool_decide; case_decide; lia || done. }
  destruct Hcase as [[-> ->]|(-> & Hh & Hh')].
  - rewrite app_nil_r. eapply slots_move; [exact HS|done..| |by auto|apply HS|apply HS|apply HS].
    split; [done|]. split; [done|]. by split.
  - eapply slots_move; [exact HS|done..| | | | |].
    + split; [done|]. split; [done|]. split; [done|]. cbn. intros Hlt. rewrite Hh', decide_False by lia. done.
    + intros u v Hne (Hwu & Hpu & Hiu & Hu). split; [done|]. split; [done|]. split; [done|]. unfold awaits in *. destruct (v || negb (valid u)).
      * case_decide; [|destruct Hh as [-> | ->]; congruence]. intros [?|?%list_elem_of_singleton]%elem_of_app; congruence.
      * intros Hlt. destruct Hh as [-> | ->]; [by apply Hu in Hlt|]. apply Hu in Hlt. congruence.
    + intros x [Hx|Hx%list_elem_of_singleton]%elem_of_app; [by apply HS|by subst].
    + intros x ->. rewrite last_snoc. by destruct (decide (pass_ct t + 1 = length (passes t))%nat).
    + constructor; [apply HS|]. destruct Hh as [-> | ->]; [|right; by apply HS]. left. unfold awaits in Hw. by destruct (decide (pass_ct t = 0%nat)).
Qed.

(** ** The invariant of the switch *)

Definition waits (s : switch_t) : list nat := concat (ipb_ s) ++ omap id (parser_ s).
Definition outs (s : switch_t) : list nat := (concat (mock_egress_ s)).*2 ++ free_list_ (txn_pool_ s).
Definition lives (W : list nat) (pl : list (option nat)) : list (nat * bool) :=
  ((λ x, (x, true)) <$> W) ++ ((λ x, (x, false)) <$> omap id pl).

Definition slots_of (adm : list Z) (pl : list (option nat)) (s : switch_t) : Prop :=
  Slots adm (holder s) (incr_id s) (pool_ (txn_pool_ s)) (lives (waits s) pl) (outs s).

Record shape (s : switch_t) : Prop := {
  sh_ipb : length (ipb_ s) = S N_PORT_GROUPS;
  sh_parser : length (parser_ s) = S N_PORT_GROUPS;
  sh_pipe : length (ingr_pipe_ s) = N_STAGES;
  sh_egress : length (mock_egress_ s) = N_PORTS;
  sh_id : 1 ≤ incr_id s;
}.

Definition ordered (adm : list Z) (pl : list (option nat)) (s : switch_t) : Prop :=
  let vp := vid (pool_ (txn_pool_ s)) <$> pl in
  holds_newest adm vp ∧ accessed (done_at adm vp) adm (regs_ s) (deps s).

Definition Inv (adm : list Z) (s : switch_t) : Prop :=
  shape s ∧ slots_of adm (ingr_pipe_ s) s ∧ ordered adm (ingr_pipe_ s) s.

Lemma lives_perm W W' pl : W ≡ₚ W' → lives W pl ≡ₚ lives W' pl.
Proof. intros H. unfold lives. by rewrite H. Qed.

Lemma lives_wait x W pl : lives (x :: W) pl = (x, true) :: lives W pl.
Proof. done. Qed.

Lemma lives_head x W pl : lives W (Some x :: pl) ≡ₚ (x, false) :: lives W (None :: pl).
Proof. unfold lives. cbn. solve_Permutation. Qed.

Lemma lives_last o W pl : lives W (pl ++ [o]) ≡ₚ ((λ x, (x, false)) <$> option_list o) ++ lives W (None :: pl).
Proof. unfold lives. rewrite omap_app, fmap_app. destruct o; cbn; rewrite ?app_nil_r; solve_Permutation. Qed.

Lemma slots_elem adm pl s o j : slots_of adm pl s → pl !! j = Some o → stage_ok (pool_ (txn_pool_ s)) o.
Proof.
  intros HS Ho slot ->. destruct (sl_live _ _ _ _ _ _ HS slot false) as (t & Ht & Hwf & Hp & Hid & _).
  { apply elem_of_app. right. apply list_elem_of_fmap. exists slot. split; [done|]. apply list_elem_of_omap. exists (Some slot).
    split; [by eapply list_elem_of_lookup_2|done]. }
  exists t. split_and!; try done. lia.
Qed.

(** Where a change in one slot does not matter. *)
Lemma vid_insert pool slot t o : o ≠ Some slot → vid (<[slot := t]> pool) o = vid pool o.
Proof. intros Hne. destruct o as [x|]; [|done]. unfold vid. cbn. rewrite list_lookup_insert_ne; [done|congruence]. Qed.

Lemma vids_insert pool slot t (pl : list (option nat)) : slot ∉ omap id pl → vid (<[slot := t]> pool) <$> pl = vid pool <$> pl.
Proof.
  intros Hni. apply list_fmap_ext. intros i o Ho. apply vid_insert. intros ->. apply Hni. apply list_elem_of_omap. exists (Some slot).
  split; [by eapply list_elem_of_lookup_2|done].
Qed.

Lemma ipb_push_spec g slot q s : ipb_ s !! g = Some q →
  ∃ s', ipb_push g slot s = Ok s' ∧ s' = upd_ipb (<[g := q ++ [slot]]> (ipb_ s)) s ∧ waits s' ≡ₚ slot :: waits s.
Proof.
  intros Hq. unfold ipb_push, aget. rewrite Hq. cbn [mbind outcome_bind]. rewrite aset_lt by (by eapply lookup_lt_Some). cbn [mbind outcome_bind].
  eexists. split_and!; [reflexivity|reflexivity|]. unfold waits. cbn [upd_ipb ipb_ parser_].
  apply (Permutation_app_inv_l q). pose proof (concat_insert_perm (ipb_ s) g q (q ++ [slot]) Hq) as HP.
  transitivity ((concat (<[g := q ++ [slot]]> (ipb_ s)) ++ q) ++ omap id (parser_ s)); [solve_Permutation|]. rewrite HP. solve_Permutation.
Qed.

Lemma egress_push_spec prt x q s : 0 ≤ prt → mock_egress_ s !! Z.to_nat prt = Some q →
  ∃ s', egress_push prt x s = Ok s' ∧ s' = upd_egress (<[Z.to_nat prt := q ++ [x]]> (mock_egress_ s)) s ∧ outs s' ≡ₚ x.2 :: outs s.
Proof.
  intros H0 Hq. unfold egress_push, zget, zset. pose proof (lookup_lt_Some _ _ _ Hq). rewrite decide_True by lia. unfold aget. rewrite Hq. cbn [mbind outcome_bind].
  rewrite decide_True by lia. rewrite aset_lt by (by eapply lookup_lt_Some). cbn [mbind outcome_bind].
  eexists. split_and!; [reflexivity|reflexivity|]. unfold outs. cbn [upd_egress mock_egress_ txn_pool_].
  apply (Permutation_app_inv_l (q.*2)). pose proof (concat_insert_perm (mock_egress_ s) (Z.to_nat prt) q (q ++ [x]) Hq) as HP.
  apply (fmap_Permutation snd) in HP. rewrite !fmap_app in HP. 
  transitivity (((concat (<[Z.to_nat prt := q ++ [x]]> (mock_egress_ s))).*2 ++ q.*2) ++ free_list_ (txn_pool_ s)); [solve_Permutation|].
  rewrite HP. cbn. solve_Permutation.
Qed.

(** ** The end of the pipeline *)

(** A transaction that has left stage [N_STAGES - 1] without being finished is
    a good waiting one. *)
Lemma good_again adm h n t : good adm h n false t → (length (passes t) ≠ if valid t then S (pass_ct t) else pass_ct t) →
  good adm h n true (set_valid true (if valid t then set_pass_ct (S (pass_ct t)) t else t)).
Proof.
  intros (Hwf & Hp & Hid & Hw) Hne. cbn [orb] in Hw. destruct (valid t) eqn:Hv; cbn [negb] in Hw.
  - split; [done|]. split; [cbn; lia|]. split; [done|]. cbn. apply Hw. lia.
  - split; [done|]. split; [done|]. by split.
Qed.

Lemma head_not_pipe adm h n pool x b W pl O : Slots adm h n pool ((x, b) :: lives W pl) O → x ∉ omap id pl.
Proof.
  intros HS Hin. pose proof (sl_nodup _ _ _ _ _ _ HS) as Hnd. rewrite fmap_cons in Hnd. apply NoDup_cons in Hnd as [Hni _]. apply Hni.
  apply elem_of_app. left. unfold lives. rewrite fmap_app. apply elem_of_app. right. by rewrite <-list_fmap_compose, list_fmap_id.
Qed.

(** What the end of the pipeline leaves of [s], when [pl] are the other stages. *)
Definition left_pipe (adm : list Z) (pl : list (option nat)) (s s' : switch_t) : Prop :=
  shape s' ∧ ingr_pipe_ s' = ingr_pipe_ s ∧ regs_ s' = regs_ s ∧ deps s' = deps s ∧ slots_of adm (None :: pl) s'
  ∧ vid (pool_ (txn_pool_ s')) <$> pl = vid (pool_ (txn_pool_ s)) <$> pl.

Lemma leave_egress adm pl s slot w t st b :
  shape s → Slots adm (holder s) (incr_id s) (pool_ (txn_pool_ s)) ((slot, w) :: lives (waits s) (None :: pl)) (outs s) →
  0 ≤ port t < Z.of_nat N_PORTS →
  ∃ s', egress_push (port t) (b, slot)
          (upd_stat st (upd_pool (MkPool (<[slot := t]> (pool_ (txn_pool_ s))) (free_list_ (txn_pool_ s))) s)) = Ok s'
    ∧ left_pipe adm pl s s'.
Proof.
  intros Hsh HS Hport. destruct (lookup_lt_is_Some_2 (mock_egress_ s) (Z.to_nat (port t))) as [q Hq]; [rewrite (sh_egress _ Hsh); lia|].
  match goal with |- ∃ _, egress_push _ _ ?x = _ ∧ _ => destruct (egress_push_spec (port t) (b, slot) q x) as (s' & HP & -> & Ho); [lia|done|] end.
  eexists. split; [exact HP|]. split_and!; try done.
  - destruct Hsh. constructor; cbn; rewrite ?length_insert; done.
  - unfold slots_of. rewrite Ho. apply (slots_out _ _ _ _ _ _ _ _ t HS).
  - apply vids_insert. by eapply (head_not_pipe _ _ _ _ _ _ _ (None :: pl)).
Qed.

Lemma leave_spec adm pl o s : shape s → ingr_pipe_ s = pl ++ [o] → slots_of adm (ingr_pipe_ s) s →
  ∃ s', leave_pipe s = Ok s' ∧ left_pipe adm pl s s'.
Proof.
  intros Hsh Hpl HS. unfold slots_of in HS. rewrite Hpl, lives_last in HS. pose proof (sh_pipe _ Hsh) as Hlen. rewrite Hpl, length_app in Hlen. cbn in Hlen.
  assert (ingr_pipe_ s !! (N_STAGES - 1)%nat = Some o) as Ho by (rewrite Hpl; apply list_lookup_middle; lia).
  unfold leave_pipe, aget at 1. rewrite Ho. cbn [mbind outcome_bind]. destruct o as [slot|]; [|by exists s].
  cbn [option_list fmap list_fmap app] in HS. destruct (sl_live _ _ _ _ _ _ HS slot false) as (t & Ht & Hg); [by left|].
  unfold pool_at, aget at 1. rewrite Ht. cbn [mbind outcome_bind]. unfold pool_set. rewrite aset_lt by (by eapply lookup_lt_Some). cbn [mbind outcome_bind].
  set (t1 := if valid t then set_pass_ct (S (pass_ct t)) t else t).
  assert (txn_id t1 = txn_id t ∧ port t1 = port t ∧ passes t1 = passes t ∧ pass_ct t1 = (if valid t then S (pass_ct t) else pass_ct t)) as (Hid1 & Hport1 & Hps1 & Hpc1).
  { unfold t1. by destruct (valid t). }
  assert (0 ≤ port t1 < Z.of_nat N_PORTS) as Hport by (rewrite Hport1; apply Hg).
  case_bool_decide as Hfin; [exact (leave_egress adm pl s slot false t1 _ true Hsh HS Hport)|].
  destruct (bool_decide (pass_ct t1 = 0%nat) && (MAX_FAIL_CT <=? fail_ct t1) && (locks_undo t1 =? 0)); [exact (leave_egress adm pl s slot false t1 _ false Hsh HS Hport)|].
  cbn [upd_stat upd_pool txn_pool_ pool_ free_list_]. rewrite aset_lt by (rewrite length_insert; by eapply lookup_lt_Some). cbn [mbind outcome_bind pool_ free_list_].
  rewrite list_insert_insert_eq.
  destruct (lookup_lt_is_Some_2 (ipb_ s) RECIRC_PORT) as [qr Hqr]; [rewrite (sh_ipb _ Hsh); unfold RECIRC_PORT, N_PORT_GROUPS; lia|].
  match goal with |- ∃ _, ipb_push _ _ ?x = _ ∧ _ => destruct (ipb_push_spec RECIRC_PORT slot qr x) as (s' & HP & -> & Hw); [done|] end.
  eexists. split; [exact HP|]. split_and!; try done.
  - destruct Hsh. constructor; cbn; rewrite ?length_insert; done.
  - unfold slots_of. rewrite (lives_perm _ _ _ Hw), lives_wait.
    eapply slots_move; [exact HS|exact Ht|done| |by auto|apply HS|apply HS|apply HS]. unfold t1. apply good_again; [done|]. by rewrite <-Hpc1, <-Hps1.
  - apply vids_insert. exact (head_not_pipe _ _ _ _ _ _ _ (None :: pl) _ HS).
Qed.

(** ** The parsers *)

Lemma pick_parser_some s i : pick_parser s = Some i → ∃ slot, parser_ s !! i = Some (Some slot).
Proof.
  unfold pick_parser. set (f := λ '(best, size) i, _).
  assert (∀ l i, (foldl f (None, -1) l).1 = Some i → ∃ slot, parser_ s !! i = Some (Some slot)) as Hf.
  { intros l. apply (foldl_inv (λ _ (b : option nat * Z), ∀ i, b.1 = Some i → ∃ slot, parser_ s !! i = Some (Some slot))); [done|].
    intros _ x _ [best size] _ IH j. unfold f. destruct (parser_ s !! x) as [[slot|]|] eqn:Ex; [|by apply IH..].
    destruct (_ <? _); [|by apply IH]. cbn. intros [= <-]. by exists slot. }
  destruct (parser_ s !! RECIRC_PORT) as [[slot|]|] eqn:E; [|by apply Hf..]. intros [= <-]. by exists slot.
Qed.

(** [s'] is [s] with the waiting packets in other places. *)
Definition rewait (s s' : switch_t) : Prop :=
  ∃ l ps, s' = upd_ipb l (upd_parser ps s) ∧ length l = length (ipb_ s) ∧ length ps = length (parser_ s) ∧ waits s' ≡ₚ waits s.

(** The transaction whose pass the last cycle admitted: the valid packet in the
    first stage. *)
Definition admitted (s : switch_t) : list Z := option_list (o ← head (ingr_pipe_ s); vid (pool_ (txn_pool_ s)) o).

Lemma admitted_rewait s s' : rewait s s' → admitted s' = admitted s.
Proof. by intros (l & ps & -> & _). Qed.

Lemma Inv_rewait adm s s' : Inv adm s → rewait s s' → Inv adm s'.
Proof.
  intros (Hsh & HS & Hord) (l & ps & -> & Hl & Hps & Hw). split_and!; [|unfold slots_of; by rewrite (lives_perm _ _ _ Hw)|done].
  destruct Hsh. constructor; cbn; congruence.
Qed.

Lemma ipb_to_parser_spec i s : (i < length (ipb_ s))%nat → parser_ s !! i = Some None →
  ∃ s', ipb_to_parser i s = Ok s' ∧ rewait s s'.
Proof.
  intros Hi Hp. destruct (lookup_lt_is_Some_2 (ipb_ s) i Hi) as [q Hq]. unfold ipb_to_parser, aget. rewrite Hq. cbn [mbind outcome_bind].
  destruct q as [|slot q]; [exists s; split; [done|]; by exists (ipb_ s), (parser_ s); destruct s|].
  rewrite !aset_lt by (done || by eapply lookup_lt_Some). cbn [mbind outcome_bind].
  eexists. split; [reflexivity|]. eexists _, _. split_and!; [reflexivity|by rewrite length_insert..|]. unfold waits. cbn.
  pose proof (concat_insert_perm (ipb_ s) i _ q Hq) as H1. pose proof (omap_insert_perm (parser_ s) i _ (Some slot) Hp) as H2. cbn in H2. rewrite app_nil_r in H2.
  rewrite H2. apply (Permutation_app_inv_l (slot :: q)).
  transitivity ((concat (<[i := q]> (ipb_ s)) ++ slot :: q) ++ slot :: omap id (parser_ s)); [solve_Permutation|]. rewrite H1. solve_Permutation.
Qed.

Lemma fill_parser_spec adm s i : (i < S N_PORT_GROUPS)%nat → Inv adm s → ∃ s', fill_parser s i = Ok s' ∧ Inv adm s' ∧ admitted s' = admitted s.
Proof.
  intros Hi HI. pose proof (proj1 HI) as Hsh. destruct (lookup_lt_is_Some_2 (parser_ s) i) as [o Ho]; [by rewrite (sh_parser _ Hsh)|].
  unfold fill_parser, aget. rewrite Ho. cbn [mbind outcome_bind]. destruct o; [by exists s|].
  destruct (ipb_to_parser_spec i s) as (s' & HP & Hre); [by rewrite (sh_ipb _ Hsh)|done|]. exists s'. split; [done|]. split; [by eapply Inv_rewait|by apply admitted_rewait].
Qed.

Lemma deps_ok_app adm e d : deps_ok adm d → deps_ok (adm ++ e) d.
Proof. intros H. eapply Forall_impl; [exact H|]. cbn. intros [t o] [? [?|[?|?]]]; split; auto using before_app. Qed.

(** A packet enters the pipeline, whose other stages hold [pl]. *)
Lemma enter_spec adm s x pl : shape s → ingr_pipe_ s = x :: pl → slots_of adm (None :: pl) s → ordered adm (None :: pl) s →
  ∃ s', enter_pipe s = Ok s' ∧ Inv (adm ++ admitted s') s'.
Proof.
  intros Hsh Hpl HS Hord. unfold enter_pipe. destruct (pick_parser s) as [i|] eqn:Hpick.
  2:{ rewrite Hpl. cbn. eexists. split; [reflexivity|]. change (admitted _) with ([] : list Z). rewrite app_nil_r. split_and!; [|done|done].
      destruct Hsh. constructor; cbn; try done. by rewrite Hpl in *. }
  apply pick_parser_some in Hpick as [slot Hslot]. unfold aget at 1. rewrite Hslot. cbn [mbind outcome_bind].
  pose proof (lookup_lt_Some _ _ _ Hslot) as Hi. pose proof (omap_insert_perm (parser_ s) i _ None Hslot) as HW. cbn in HW.
  set (W := concat (ipb_ s) ++ omap id (<[i := None]> (parser_ s))).
  assert (waits s ≡ₚ slot :: W) as HWs by (unfold waits, W; rewrite <-HW; solve_Permutation).
  unfold slots_of in HS. rewrite (lives_perm _ _ _ HWs), lives_wait in HS. destruct (sl_live _ _ _ _ _ _ HS slot true) as (t & Ht & Hg); [by left|].
  unfold pool_at, aget. rewrite Ht. cbn [mbind outcome_bind]. unfold manage_locks. destruct (whole_pipe_lock t (holder s)) as [b h'] eqn:Hlock.
  unfold pool_set. cbn [upd_holder txn_pool_ parser_ ingr_pipe_].
  rewrite Hpl. rewrite !aset_lt by (by eapply lookup_lt_Some || (cbn; done || lia)). cbn [mbind outcome_bind].
  match goal with |- ∃ s', ipb_to_parser _ ?x = _ ∧ _ => set (s2 := x) end.
  destruct (ipb_to_parser_spec i s2) as (s' & HP & Hre).
  { cbn. by rewrite (sh_ipb _ Hsh), <-(sh_parser _ Hsh). } { cbn. by apply list_lookup_insert_eq. }
  pose proof (slots_enter _ _ _ _ _ _ _ _ _ _ HS Ht Hlock) as HS2. exists s'. split; [done|].
  rewrite (admitted_rewait _ _ Hre).
  assert (vid (<[slot := set_valid b t]> (pool_ (txn_pool_ s))) (Some slot) = if b then Some (txn_id t) else None) as Hvid.
  { unfold vid. cbn. rewrite list_lookup_insert_eq by (by eapply lookup_lt_Some). by destruct b. }
  assert (admitted s2 = if b then [txn_id t] else []) as ->.
  { transitivity (option_list (vid (<[slot := set_valid b t]> (pool_ (txn_pool_ s))) (Some slot))); [done|]. rewrite Hvid. by destruct b. }
  apply (Inv_rewait _ s2); [|done]. split_and!.
  - destruct Hsh. constructor; cbn; rewrite ?length_insert; try done. by rewrite Hpl in *.
  - unfold slots_of. cbn [s2 upd_parser upd_pipe upd_pool upd_holder ingr_pipe_ insert list_insert]. by rewrite lives_head.
  - unfold ordered in *. cbn [s2 upd_parser upd_pipe upd_pool upd_holder ingr_pipe_ insert list_insert txn_pool_ pool_ regs_ deps fmap list_fmap] in *.
    rewrite (vids_insert _ slot _ pl) by exact (head_not_pipe _ _ _ _ _ _ _ (None :: pl) _ HS).
    rewrite Hvid.
    destruct Hord as [Hn Ha]. replace (if b then [txn_id t] else []) with (option_list (if b then Some (txn_id t) else None)) by (by destruct b).
    split; [by apply (done_at_enter _ _ _ 0)|]. apply (accessed_mono (done_at adm (None :: (vid (pool_ (txn_pool_ s)) <$> pl)))).
    + split; [apply Ha|by apply deps_ok_app, Ha].
    + intros j _. symmetry. by apply done_at_enter.
Qed.


(** ** A cycle *)

Lemma shape_with r d st s : shape s → shape (with_regs r d st s).
Proof. by intros []. Qed.

Lemma pipe_split {A} (l : list A) n : length l = S n → ∃ pl o, l = pl ++ [o] ∧ length pl = n.
Proof.
  intros H. destruct l as [|o pl _] using rev_ind; [done|]. exists pl, o. split; [done|]. rewrite length_app in H. cbn in H. lia.
Qed.

(** The shift, after the end of the pipeline. *)
Lemma shift_spec adm s pl o pool r d st :
  ingr_pipe_ s = pl ++ [o] → length pl = (N_STAGES - 1)%nat → contig adm → slots_of adm (None :: pl) s →
  vid (pool_ (txn_pool_ s)) <$> pl = vid pool <$> pl → holds_newest adm (vid pool <$> pl ++ [o]) →
  accessed (step_at (done_at adm (vid pool <$> pl ++ [o])) (N_STAGES - 1) (vid pool o)) adm r d →
  ∃ x r' d' st', ofold shift_stage (rev (seq 1 (N_STAGES - 1))) (with_regs r d st s) = Ok (with_regs r' d' st' (upd_pipe (x :: pl) s))
    ∧ holds_newest adm (None :: (vid pool <$> pl)) ∧ accessed (done_at adm (None :: (vid pool <$> pl))) adm r' d'.
Proof.
  intros Hpl Hlen Hcon HS Hvid Hnew Hacc. set (vp := vid pool <$> pl ++ [o]) in *.
  assert (length vp = N_STAGES) as Hvlen by (unfold vp; rewrite length_fmap, length_app, Hlen; done).
  assert (length (ingr_pipe_ s) = N_STAGES) as Hlen' by (rewrite Hpl, length_app, Hlen; done).
  assert (take (N_STAGES - 1) vp = vid pool <$> pl) as Htake.
  { unfold vp. rewrite fmap_app. apply take_app_length'. by rewrite length_fmap. }
  destruct (shift_from s adm vp Hlen' Hvlen Hcon Hnew) with (k := (N_STAGES - 1)%nat) (r := r) (d := d) (st := st) as (r' & d' & st' & HP & HA).
  - intros j o' Hj Ho'. rewrite Hpl, lookup_app_l in Ho' by lia. split; [apply (slots_elem adm (None :: pl) s o' (S j) HS Ho')|].
    rewrite <-(lookup_take_lt vp (N_STAGES - 1) j), Htake, <-Hvid by done. by rewrite list_lookup_fmap, Ho'.
  - unfold N_STAGES. lia.
  - eapply accessed_mono; [exact Hacc|]. intros j Hj. unfold step_at, exec_at. destruct (decide (j = N_STAGES - 1)%nat) as [->|Hne].
    + rewrite decide_True by done. f_equal. f_equal. symmetry. apply list_lookup_total_correct. unfold vp. rewrite list_lookup_fmap.
      rewrite (list_lookup_middle pl [] o) by done. done.
    + rewrite decide_False by lia. done.
  - assert (pipe_at s (N_STAGES - 1) = ingr_pipe_ s) as E1 by (unfold pipe_at; rewrite Nat.sub_diag, app_nil_r; apply take_ge; rewrite Hlen'; unfold N_STAGES; lia).
    assert (∃ x, pipe_at s 0 = x :: pl) as [x E2].
    { unfold pipe_at. rewrite Hpl. exists (hd None (pl ++ [o])). change (drop 0 ?l) with l. rewrite Nat.sub_0_r, (take_app_length' pl [o] (N_STAGES - 1)) by done.
      by destruct pl. }
    rewrite E1, E2 in HP. exists x, r', d', st'. split; [rewrite <-HP; by destruct s|].
    destruct (lookup_lt_is_Some_2 vp 0) as [o0 Ho0]; [rewrite Hvlen; unfold N_STAGES; lia|].
    destruct (done_at_shift adm vp None 0 o0 Hnew Hvlen Ho0) as [Hh _]. cbn [option_list] in Hh. rewrite app_nil_r, Htake in Hh. split; [done|].
    eapply accessed_mono; [exact HA|]. intros j Hj. destruct (lookup_lt_is_Some_2 vp j) as [oj Hoj]; [lia|].
    destruct (done_at_shift adm vp None j oj Hnew Hvlen Hoj) as [_ Hd]. cbn [option_list] in Hd. rewrite app_nil_r, Htake in Hd. rewrite Hd.
    unfold exec_at. rewrite decide_True by lia. by rewrite (list_lookup_total_correct _ _ _ Hoj).
Qed.

Lemma run_cycle_spec adm s : Inv adm s → ∃ s', run_cycle s = Ok s' ∧ Inv (adm ++ admitted s') s'.
Proof.
  intros (Hsh & HS & Hnew & Hacc). unfold run_cycle. destruct (pipe_split (ingr_pipe_ s) (N_STAGES - 1)) as (pl & o & Hpl & Hlen); [by rewrite (sh_pipe _ Hsh)|].
  assert (ingr_pipe_ s !! (N_STAGES - 1)%nat = Some o) as Ho by (rewrite Hpl; apply list_lookup_middle; lia).
  pose proof (sl_contig _ _ _ _ _ _ HS) as Hcon.
  match goal with |- context [upd_stat ?x s] => set (st := x) end.
  destruct (run_reg_ops_spec (done_at adm (vid (pool_ (txn_pool_ s)) <$> ingr_pipe_ s)) adm s (N_STAGES - 1) o (regs_ s) (deps s) st)
    as (r1 & d1 & st1 & H1 & A1); [done|done|unfold N_STAGES; lia|done|by eapply slots_elem| |].
  { intros v Hv. eexists. apply (done_at_next adm _ (N_STAGES - 1) (Some v)); [done|]. by rewrite list_lookup_fmap, Ho, <-Hv. }
  change (upd_stat st s) with (with_regs (regs_ s) (deps s) st s). rewrite H1. cbn [mbind outcome_bind].
  destruct (leave_spec adm pl o (with_regs r1 d1 st1 s)) as (s2 & H2 & Hsh2 & Hpl2 & Hr2 & Hd2 & HS2 & Hv2); [by apply shape_with|done|done|].
  rewrite H2. cbn [mbind outcome_bind]. change (ingr_pipe_ (with_regs r1 d1 st1 s)) with (ingr_pipe_ s) in Hpl2. rewrite Hpl in *.
  destruct (shift_spec adm s2 pl o (pool_ (txn_pool_ s)) (regs_ s2) (deps s2) (stat s2)) as (x & r3 & d3 & st3 & H3 & Hn3 & A3); try done.
  { by rewrite Hr2, Hd2. }
  replace (with_regs (regs_ s2) (deps s2) (stat s2) s2) with s2 in H3 by (by destruct s2). rewrite H3. cbn [mbind outcome_bind].
  destruct (enter_spec adm (with_regs r3 d3 st3 (upd_pipe (x :: pl) s2)) x pl) as (s4 & H4 & HI); [|done|done| |].
  { destruct Hsh2. constructor; cbn; try done. by rewrite Hlen. }
  { split; cbn; by rewrite Hv2. }
  rewrite H4. cbn [mbind outcome_bind].
  destruct (ofold_total (λ _ s', Inv (adm ++ admitted s') s') fill_parser (seq 0 (S N_PORT_GROUPS)) s4) as (s6 & H6 & HI6); [done| |by exists s6].
  intros pre i post s5 Hseq HI5. destruct (fill_parser_spec (adm ++ admitted s5) s5 i) as (s6 & H6 & HI6 & E6); [|done|].
  - assert (i ∈ seq 0 (S N_PORT_GROUPS)) as Hin by (rewrite Hseq; set_solver). apply elem_of_seq in Hin. lia.
  - exists s6. by rewrite E6.
Qed.

(** ** Runs *)

Lemma send_spec adm txn s b s' : Inv adm s → txn_wf txn → pass_ct txn = 0%nat → incr_id s < 2 ^ 64 - 1 →
  send txn s = Ok (b, s') → Inv adm s'.
Proof.
  intros (Hsh & HS & Hord) Hwf Hp Hid. unfold send. intros H. minv. case_bool_decide as Hsz; [|by simplify_eq].
  unfold pool_alloc in H. destruct (free_list_ (txn_pool_ s)) as [|slot l] eqn:Hfree; [done|]. cbn [mbind outcome_bind] in H. unfold pool_set in H.
  assert (outs s ≡ₚ slot :: (concat (mock_egress_ s)).*2 ++ l) as Ho by (unfold outs; rewrite Hfree; solve_Permutation).
  unfold slots_of in HS. rewrite Ho in HS. pose proof (sl_out _ _ _ _ _ _ HS slot ltac:(by left)) as Hlt.
  cbn [pool_] in H. rewrite aset_lt in H by done. cbn [mbind outcome_bind free_list_] in H.
  match type of H with context [ipb_push ?g _ ?x] => destruct (ipb_push g slot x) as [s1|] eqn:HP; [|done] end. cbn in H. injection H as _ <-.
  match type of HP with ipb_push ?g _ ?x = _ => destruct (ipb_ s !! g) as [q'|] eqn:Hq; [|unfold ipb_push, aget in HP; cbn in HP; by rewrite Hq in HP];
    destruct (ipb_push_spec g slot q' x Hq) as (s2 & HP2 & -> & Hw) end.
  rewrite HP in HP2. injection HP2 as ->. pose proof (sh_id _ Hsh) as Hpos.
  assert (u64 (incr_id s + 1) = incr_id s + 1) as Hu by (apply wrap_small; lia).
  apply bool_decide_eq_true in E. pose proof (slots_in _ _ _ _ _ _ _ _ HS Hwf Hp ltac:(lia) Hpos) as HS'. split_and!.
  - destruct Hsh. constructor; cbn; rewrite ?length_insert; try done. rewrite Hu. lia.
  - unfold slots_of. rewrite (lives_perm _ _ _ Hw), lives_wait. cbn [upd_ipb upd_id upd_pool holder incr_id txn_pool_ pool_]. by rewrite Hu.
  - unfold ordered in *. cbn [upd_ipb upd_id upd_pool ingr_pipe_ txn_pool_ pool_ regs_ deps] in *. rewrite vids_insert; [done|].
    exact (head_not_pipe _ _ _ _ _ _ _ _ _ HS').
Qed.

Lemma recv_spec adm prt s x s' : Inv adm s → recv prt s = Ok (x, s') → Inv adm s'.
Proof.
  intros (Hsh & HS & Hord) H. unfold recv, zget, zset in H. destruct (decide _) as [Hr|] in H; [|done]. cbn in H. minv.
  destruct r as [|[b slot] q]; [by simplify_eq|]. minv.
  split_and!.
  - destruct Hsh. constructor; cbn; rewrite ?length_insert; done.
  - unfold slots_of in *. refine (slots_perm _ _ _ _ _ _ _ _ _ _ HS); [done|]. unfold outs. cbn.
    pose proof (concat_insert_perm (mock_egress_ s) (Z.to_nat prt) _ q E) as HP. apply (fmap_Permutation snd) in HP. rewrite !fmap_app in HP.
    apply (Permutation_app_inv_l q.*2). cbn in HP. rewrite (app_assoc q.*2), <-HP. solve_Permutation.
  - done.
Qed.

Lemma Inv_make : Inv [] switch_make.
Proof.
  split_and!.
  - by constructor.
  - unfold slots_of. change (lives _ _) with ([] : list (nat * bool)). change (outs _) with (seq 0 POOL_SIZE). constructor.
    + cbn [fmap list_fmap app]. apply NoDup_seq.
    + intros slot Hs%elem_of_seq. unfold switch_make, mempool_make. cbn [txn_pool_ pool_]. rewrite length_replicate. lia.
    + by intros ?? ?%not_elem_of_nil.
    + by intros ???? ?%not_elem_of_nil.
    + by intros ? ?%not_elem_of_nil.
    + done.
    + constructor.
  - split; [by exists []|]. split; [done|constructor].
Qed.

(** The operations of the simulator's driver: send a new transaction, run a
    cycle, take a result.  The ids do not wrap around. *)
Inductive sim_step (s : switch_t) : switch_t → Prop :=
| sim_send txn b s' : txn_wf txn → pass_ct txn = 0%nat → incr_id s < 2 ^ 64 - 1 → send txn s = Ok (b, s') → sim_step s s'
| sim_cycle s' : run_cycle s = Ok s' → sim_step s s'
| sim_recv prt x s' : recv prt s = Ok (x, s') → sim_step s s'.

(** A run of the driver, with the passes its cycles admitted. *)
Inductive sim_run : list Z → switch_t → Prop :=
| run_make : sim_run [] switch_make
| run_send adm s txn b s' : sim_run adm s → txn_wf txn → pass_ct txn = 0%nat → incr_id s < 2 ^ 64 - 1 → send txn s = Ok (b, s') → sim_run adm s'
| run_cycled adm s s' : sim_run adm s → run_cycle s = Ok s' → sim_run (adm ++ admitted s') s'
| run_recv adm s prt x s' : sim_run adm s → recv prt s = Ok (x, s') → sim_run adm s'.

Lemma sim_run_Inv adm s : sim_run adm s → Inv adm s.
Proof.
  induction 1 as [|adm s txn b s' _ HI Hwf Hp Hid H|adm s s' _ HI H|adm s prt x s' _ HI H]; [apply Inv_make|by eapply send_spec| |by eapply recv_spec].
  destruct (run_cycle_spec adm s HI) as (s'' & H' & HI'). rewrite H in H'. by injection H' as ->.
Qed.

Lemma sim_run_reaches s : rtc sim_step switch_make s → ∃ adm, sim_run adm s.
Proof.
  revert s. apply (rtc_ind_r (λ s, ∃ adm, sim_run adm s) switch_make); [exists []; constructor|].
  intros s1 s2 _ Hst [adm IH]. destruct Hst as [txn b s' Hwf Hp Hid H|s' H|prt x s' H]; eexists; [by eapply run_send|by eapply run_cycled|by eapply run_recv].
Qed.

Lemma reachable_Inv s : rtc sim_step switch_make s → ∃ adm, Inv adm s.
Proof. intros [adm H]%sim_run_reaches. exists adm. by apply sim_run_Inv. Qed.

(** A cycle of dependencies that follow an order is a dependency on oneself. *)
Lemma ordered_deps_acyclic adm d v : deps_ok adm d → (∀ t, (t, t) ∉ d) → ¬ tc (λ t o, (t, o) ∈ d) v v.
Proof.
  unfold deps_ok. rewrite Forall_forall. intros Hd Hself.
  assert (∀ o, ¬ tc (λ t o, (t, o) ∈ d) START_TXN_ID o) as Hz.
  { intros o H. inversion H as [? ? H'|? ? ? H' _]; subst; apply Hd in H'; cbn in H'; unfold START_TXN_ID in *; lia. }
  assert (∀ t o, tc (λ t o, (t, o) ∈ d) t o → o = START_TXN_ID ∨ before adm o t) as Hb.
  { intros t o. induction 1 as [t o H|t m o H Htc IH]; destruct (Hd _ H) as [_ [Hm|[Hm|Hm]]]; cbn in Hm.
    - by left.
    - rewrite Hm in H. by apply Hself in H.
    - by right.
    - rewrite Hm in Htc. by apply Hz in Htc.
    - rewrite Hm in H. by apply Hself in H.
    - destruct IH as [?|IH]; [by left|]. right. by eapply before_trans. }
  intros Hv. destruct (Hb _ _ Hv) as [->|H]; [by eapply Hz|by eapply before_irrefl].
Qed.

(** C4: the simulated switch is serializable in the order in which its pipeline
    admits transactions.  In every run of sends, cycles and receives, with
    [order] the transactions of the valid packets that the cycles put into the
    first stage, one entry for each pass: only further passes of a transaction
    are admitted between two of its passes; every recorded dependency of a
    transaction is on the initial state, on itself or on one that was admitted
    before its first pass; the next cycle runs without a fault; and the checker
    accepts the history exactly when no transaction depends on itself. *)
Theorem switch_serializable order s : sim_run order s →
  (∃ s', run_cycle s = Ok s')
  ∧ (∀ t before_t between after_t, order = before_t ++ t :: between ++ t :: after_t → Forall (λ x, x = t) between)
  ∧ (∀ t o, (t, o) ∈ deps s → o = START_TXN_ID ∨ o = t ∨ before order o t)
  ∧ (check_history (checker_of (deps s)) = Ok true ↔ ∀ t, (t, t) ∉ deps s).
Proof.
  intros Hs. pose proof (sim_run_Inv _ _ Hs) as HI. pose proof (proj2 (proj2 HI)) as [_ [_ Hd]]. split; [|split; [|split]].
  - destruct (run_cycle_spec order s HI) as (s' & H & _). by exists s'.
  - intros t a b c. apply contig_between. exact (sl_contig _ _ _ _ _ _ (proj1 (proj2 HI))).
  - unfold deps_ok in Hd. rewrite Forall_forall in Hd. intros t o H. apply (Hd _ H).
  - destruct (check_history_spec (deps s)) as (b & -> & Hb); [eapply Forall_impl; [exact Hd|by intros ? []]|]. split.
    + intros [= ->] t Ht. apply (proj1 Hb eq_refl t). by apply tc_once.
    + intros Hself. f_equal. apply Hb. intros v. by eapply ordered_deps_acyclic.
Qed.

(** [n] cycles, with what they admit. *)
Definition cycles (n : nat) (x : list Z * switch_t) : outcome (list Z * switch_t) :=
  ofold (λ '(adm, s) _, s' ← run_cycle s; Ok (adm ++ admitted s', s')) (seq 0 n) x.

Lemma cycles_run n adm s adm' s' : cycles n (adm, s) = Ok (adm', s') → sim_run adm s → sim_run adm' s'.
Proof.
  unfold cycles. generalize 0%nat. revert adm s. induction n as [|n IH]; intros adm s k H Hr; cbn in H; minv; [done|].
  eapply IH; [done|by eapply run_cycled].
Qed.

(** Two transactions: the first has two passes, the second one. *)
Definition one_op (c : nat) (x : Z) : list (option Z) := <[c := Some x]> (replicate N_CELLS None).
Definition demo_txn (prt : Z) (ps : list (list (option Z))) : sw_txn_t := MkSwTxn prt 0 0 0 [] true 0 0 0 [] ps None.
Definition demo (a b : sw_txn_t) : outcome (list Z * switch_t) :=
  '(_, s1) ← send a switch_make; '(_, s2) ← send b s1; cycles 60 ([], s2).
Definition demo_deps (a b : sw_txn_t) : option (list Z * list (Z * Z)) := match demo a b with Ok (adm, s) => Some (adm, deps s) | Fail _ => None end.

Lemma one_op_wf prt ps : 0 ≤ prt < 32 → Forall (λ cx, 0 ≤ cx.2 < 1000) ps → txn_wf (demo_txn prt ((λ '(c, x), one_op c x) <$> ps)).
Proof.
  intros Hp Hps. split; [done|]. apply Forall_fmap. eapply Forall_impl; [exact Hps|]. intros [c x] Hx. cbn in *. split; [by unfold one_op; rewrite length_insert, length_replicate|].
  apply Forall_insert; [by apply Forall_replicate; intros|]. intros i [= <-]. unfold SLOTS_PER_REG. change (14000000 / Z.of_nat N_CELLS) with 388888. lia.
Qed.

Lemma demo_sim_run a b adm s : txn_wf a → txn_wf b → pass_ct a = 0%nat → pass_ct b = 0%nat → demo a b = Ok (adm, s) → sim_run adm s.
Proof.
  intros Ha Hb Hpa Hpb H. unfold demo in H. minv. destruct r as [b1 s1]. minv. destruct r as [b2 s2].
  assert (incr_id s1 ≤ 2) as Hid.
  { clear -E. unfold send in E. minv. case_bool_decide; minv; [|done]. destruct r1. minv. unfold ipb_push in *. minv. done. }
  assert (incr_id switch_make < 2 ^ 64 - 1) as H0 by reflexivity. assert (incr_id s1 < 2 ^ 64 - 1) as H1 by lia.
  eapply cycles_run; [exact H|]. eapply run_send; [eapply run_send; [apply run_make|exact Ha|exact Hpa|exact H0|exact E]|exact Hb|exact Hpb|exact H1|exact E0].
Qed.

Definition demo_a : sw_txn_t := demo_txn 0 ((λ '(c, x), one_op c x) <$> [(5%nat, 3); (0%nat, 7)]).
Definition demo_b : sw_txn_t := demo_txn 4 ((λ '(c, x), one_op c x) <$> [(0%nat, 7)]).

Lemma demo_deps_ok a b adm d : demo_deps a b = Some (adm, d) → ∃ s, demo a b = Ok (adm, s) ∧ deps s = d.
Proof. unfold demo_deps. destruct (demo a b) as [[? s]|]; [|done]. intros [= <- <-]. by exists s. Qed.

Lemma demo_runs : demo_deps demo_a demo_b = Some ([1; 1; 2], [(1, 0); (1, 0); (2, 1)]).
Proof. vm_compute. reflexivity. Qed.

Lemma sim_demo_reached : ∃ s, sim_run [1; 1; 2] s ∧ deps s = [(1, 0); (1, 0); (2, 1)].
Proof.
  destruct (demo_deps_ok _ _ _ _ demo_runs) as (s & E & Hd).
  exists s. split; [|exact Hd]. assert (txn_wf demo_a ∧ txn_wf demo_b) as [Ha Hb] by (split; apply one_op_wf; repeat constructor; cbn; lia).
  exact (demo_sim_run demo_a demo_b _ s Ha Hb eq_refl eq_refl E).
Qed.

(** Both passes of the first transaction are admitted before the second one,
    which waits although its port's parser is ready, and depends on it. *)
Lemma switch_serializable_witness :
  ∃ s, sim_run [1; 1; 2] s ∧ deps s = [(1, 0); (1, 0); (2, 1)] ∧ before [1; 1; 2] 1 2 ∧ check_history (checker_of (deps s)) = Ok true.
Proof.
  destruct sim_demo_reached as (s & Hr & Hd). exists s. destruct (switch_serializable _ s Hr) as (_ & _ & Hord & Hchk).
  split; [exact Hr|]. split; [exact Hd|]. split.
  - destruct (Hord 2 1) as [H|[H|H]]; [rewrite Hd; right; right; left|discriminate H|discriminate H|exact H].
  - apply Hchk. rewrite Hd. intros t Ht. rewrite !elem_of_cons in Ht. destruct Ht as [?|[?|[?|Ht]]]; [congruence..|]. by apply not_elem_of_nil in Ht.
Defined.

(** A transaction that accesses one register in two passes depends on itself,
    and the checker then reports that the history is not serializable although
    the transaction ran alone. *)
Theorem self_access_rejected :
  let a := demo_txn 0 [one_op 0 7; one_op 0 7] in
  demo_deps a (demo_txn 4 [one_op 1 9]) = Some ([1; 1; 2], [(1, 0); (1, 1); (2, 0)])
  ∧ check_history (checker_of [(1, 0); (1, 1); (2, 0)]) = Ok false.
Proof. split; vm_compute; reflexivity. Qed.
