(* ===== verification/Batching.v ===== *)
(** * Batches without conflicts

    The simulator's preparation of workloads ([mine/fast_layout/src/batch.cpp]:
    [batch_iter_t], which splits transactions into hot and cold parts) and the
    greedy batching with lookahead of [mine/fast_layout/lookahead.cpp] and
    [lookahead_batching_old.cpp]: [gen_batch] collects transactions whose cold
    keys are disjoint, looking a few transactions ahead, and the program of
    [lookahead.cpp] cuts a whole workload into such batches, deals it out to
    threads and counts the conflicts that remain. *)
From stdpp Require Import base tactics list numbers gmap sorting.
From Stdlib Require Import ZArith Lia SpecFloat.
From S2P Require Import Prelude SimLayout SimLocks.

#[local] Open Scope Z_scope.

(** ** [batch_iter_t] *)

(** Doubles: the nearest one to an integer, and the conversion to [size_t],
    which drops the fraction. *)
Definition dbl (z : Z) : spec_float := binary_normalize 53 1024 z 0 false.
Definition dbl_mul (x y : spec_float) : spec_float := SFmul 53 1024 x y.
Definition dbl_trunc (x : spec_float) : Z :=
  match x with S754_finite false m e => Z.shiftl (Z.pos m) e | _ => 0 end.

(** The double nearest to [0.001]. *)
Definition FRAC_HOT : spec_float := SFdiv 53 1024 (dbl 1) (dbl 1000).
Definition N_MAX_HOT_OPS : nat := 8.

(** [std::vector::resize]. *)
Definition vec_resize {A} (d : A) (n : nat) (l : list A) : list A := take n l ++ replicate (n - length l) d.

(** The hot and the cold part of a transaction. *)
Definition split_op (is_hot : gset Z) (hc : txn_t * txn_t) (k : Z) : txn_t * txn_t :=
  if decide (k ∈ is_hot) then (hc.1 ++ [k], hc.2) else (hc.1, hc.2 ++ [k]).
Definition split_txn (is_hot : gset Z) (raw : txn_t) : txn_t * txn_t := foldl (split_op is_hot) ([], []) raw.

(** How many keys are hot. *)
Definition hot_keys (n : nat) : nat := Z.to_nat (dbl_trunc (dbl_mul (dbl (Z.of_nat n)) FRAC_HOT)).

(** [batch_iter_t(all_txns)]: the list [txn_comps_].  The cut-off that is
    printed is [back()] of the vector of hot keys, undefined when it is empty. *)
Definition batch_iter_make (all_txns : list txn_t) : outcome (list (txn_t * txn_t)) :=
  let key_cts_v := get_key_cts all_txns in
  let hot := vec_resize (0, 0) (hot_keys (length key_cts_v)) key_cts_v in
  match last hot with
  | None => Fail OutOfBounds
  | Some _ => Ok (split_txn (list_to_set hot.*1) <$> all_txns)
  end.

(** [next_batch]: the hot parts that are small enough, and the empty list of
    what is left; the conflicts it counts on the way are not used. *)
Definition next_batch (txn_comps : list (txn_t * txn_t)) : list txn_t * list (txn_t * txn_t) :=
  (filter (λ hot, 0 < length hot ∧ length hot < N_MAX_HOT_OPS)%nat txn_comps.*1, []).

(** ** [gen_batch] *)

Definition MAX_BATCH : nat := Z.to_nat 10000.

(** [n_conflicts]. *)
Definition conflicts (locks : gset Z) (ops : txn_t) : nat := length (filter (λ k, k ∈ locks) ops).

(** The loop over the next [la] transactions: the first that is free, and the
    list without it. *)
Fixpoint scan_ahead (la : nat) (free : txn_t → bool) (txns : list (txn_t * txn_t)) : option (txn_t * list (txn_t * txn_t)) :=
  match la, txns with
  | S la', pr :: l => if free pr.2 then Some (pr.2, l) else '(c, l') ← scan_ahead la' free l; Some (c, pr :: l')
  | _, _ => None
  end.

(** The loop [while (ret.size() < MAX_BATCH && txns.size() > 0)], which takes a
    transaction off [txns] every time. *)
Fixpoint fill_batch (fuel : nat) (free : gset Z → txn_t → bool) (la : nat) (locks : gset Z)
    (txns : list (txn_t * txn_t)) (ret : list txn_t) : list (txn_t * txn_t) * list txn_t :=
  match fuel with
  | O => (txns, ret)
  | S fuel' =>
      if bool_decide (length ret < MAX_BATCH)%nat && bool_decide (0 < length txns)%nat then
        match scan_ahead la (free locks) txns with
        | Some (c, txns') => fill_batch fuel' free la (list_to_set c ∪ locks) txns' (ret ++ [c])
        | None => (txns, ret)
        end
      else (txns, ret)
  end.

(** [gen_batch]; it calls itself when it has found nothing, [depth] times at
    most. *)
Fixpoint gen_batch (depth : nat) (free : gset Z → txn_t → bool) (la : nat)
    (txns : list (txn_t * txn_t)) (ret : list txn_t) : outcome (list (txn_t * txn_t) * list txn_t) :=
  match depth with
  | O => Fail Spins
  | S depth' =>
      let '(txns', ret') := fill_batch (length txns) free la ∅ txns ret in
      if bool_decide (length ret' = 0%nat) && bool_decide (0 < length txns')%nat
      then gen_batch depth' free la txns' ret' else Ok (txns', ret')
  end.

(** lookahead.cpp: a transaction is free when none of its keys is locked. *)
Definition free_plain (locks : gset Z) (ops : txn_t) : bool := bool_decide (conflicts locks ops = 0%nat).
Definition lookahead_gen_batch (depth : nat) := gen_batch depth free_plain 40.

(** lookahead_batching_old.cpp: the two hottest keys are tested first. *)
Definition free_quick (locks : gset Z) (ops : txn_t) : bool :=
  if match ops !! 0%nat with Some k => bool_decide (k ∈ locks) | None => false end
     || match ops !! 1%nat with Some k => bool_decide (k ∈ locks) | None => false end
  then false else bool_decide (conflicts locks ops = 0%nat).
Definition old_gen_batch (depth : nat) := gen_batch depth free_quick 4.

(** ** The program of lookahead.cpp *)

Definition N_THREADS : nat := 20.

(** The loop that collects batches: the history and where each batch starts. *)
Fixpoint history (fuel : nat) (txns : list (txn_t * txn_t)) (hist : list txn_t) (starts : list nat)
  : outcome (list txn_t * list nat) :=
  match fuel with
  | O => Fail Spins
  | S fuel' =>
      '(txns', ret) ← lookahead_gen_batch 2 txns [];
      match ret with
      | [] => assert (bool_decide (length txns' = 0%nat));; Ok (hist, starts)
      | _ => history fuel' txns' (hist ++ ret) (starts ++ [length hist])
      end
  end.

(** [std::upper_bound] on [starts]. *)
Fixpoint first_above (i : nat) (starts : list nat) : nat :=
  match starts with [] => 0 | s :: l => if bool_decide (i < s)%nat then 0 else S (first_above i l) end%nat.

(** The transactions of each thread with the number of their batch. *)
Definition deal_one (hist : list txn_t) (starts : list nat) (cores : list (list (nat * txn_t))) (i : nat)
  : outcome (list (list (nat * txn_t))) :=
  assert (bool_decide (first_above i starts ≠ 0%nat));;
  c ← aget hist i;
  q ← aget cores (i `mod` N_THREADS)%nat;
  aset cores (i `mod` N_THREADS)%nat (q ++ [(first_above i starts - 1, c)%nat]).

Definition deal (hist : list txn_t) (starts : list nat) : outcome (list (list (nat * txn_t))) :=
  ofold (deal_one hist starts) (seq 0 (length hist)) (replicate N_THREADS []).

(** The conflicts of a transaction with the batches that last used its keys,
    and the update of [past_ref]. *)
Definition past_conflicts (past_ref : gmap Z nat) (b : nat) (ops : txn_t) : nat :=
  length (filter (λ k, match past_ref !! k with Some b' => bool_decide (b ≤ b')%nat | None => false end = true) ops).
Definition note_op (b : nat) (past_ref : gmap Z nat) (k : Z) : outcome (gmap Z nat) :=
  let past' := match past_ref !! k with None => map_insert k b past_ref | Some _ => <[k := b]> past_ref end in
  assert (bool_decide (past' !! k = Some b));; Ok past'.

(** The state of the counting loops: [past_ref] and the printed counts. *)
Definition count_one (cores : list (list (nat * txn_t))) (j : nat) (st : gmap Z nat * list nat) (t : nat)
  : outcome (gmap Z nat * list nat) :=
  core ← aget cores t;
  '(b, ops) ← aget core j;
  past ← ofold (note_op b) ops st.1;
  Ok (past, st.2 ++ [past_conflicts st.1 b ops]).

Definition lookahead_main (txns : list (txn_t * txn_t)) : outcome (list txn_t * list nat) :=
  '(hist, starts) ← history (S (length txns)) txns [] [];
  cores ← deal hist starts;
  st ← ofold (λ st j, ofold (count_one cores j) (seq 0 N_THREADS) st) (seq 0 (length hist / N_THREADS)) (∅, []);
  Ok (hist, st.2).

(** ** The split into hot and cold *)

Lemma split_txn_filter hot raw : split_txn hot raw = (filter (λ k, k ∈ hot) raw, filter (λ k, k ∉ hot) raw).
Proof.
  unfold split_txn. apply (foldl_inv (λ pre hc, hc = (filter (λ k, k ∈ hot) pre, filter (λ k, k ∉ hot) pre))); [done|].
  intros pre k post hc _ ->. unfold split_op. rewrite !filter_app, !filter_cons, !filter_nil.
  destruct (decide (k ∈ hot)) as [Hk|Hk]; cbn [fst snd].
  - rewrite (decide_False (P := k ∉ hot)) by (by intros ?). by rewrite app_nil_r.
  - rewrite (decide_True (P := k ∉ hot)) by done. by rewrite app_nil_r.
Qed.

(** A workload with less than a thousand keys has no hot key. *)
Lemma hot_keys_few n : (n < 1000)%nat → hot_keys n = 0%nat.
Proof.
  intros Hn. assert (forallb (λ n, Nat.eqb (hot_keys n) 0) (seq 0 1000) = true) as H by (vm_compute; reflexivity).
  rewrite forallb_forall in H. apply Nat.eqb_eq, H, in_seq. lia.
Qed.

(** [batch_iter_t] splits every transaction into its operations on hot keys
    and the others, in order; the hot keys are the wanted number of most frequent
    ones.  A workload of fewer than a thousand keys has none, and the
    constructor then reads past an empty vector. *)
Theorem batch_iter_splits all_txns :
  let n := length (get_key_cts all_txns) in
  ((n < 1000)%nat → batch_iter_make all_txns = Fail OutOfBounds)
  ∧ ((0 < hot_keys n ≤ n)%nat → ∃ hot : gset Z, size hot = hot_keys n
      ∧ batch_iter_make all_txns = Ok ((λ raw, (filter (λ k, k ∈ hot) raw, filter (λ k, k ∉ hot) raw)) <$> all_txns)
      ∧ ∀ k k', k ∈ hot → k' ∈ concat all_txns → k' ∉ hot →
          (occurrences k' (concat all_txns) ≤ occurrences k (concat all_txns))%nat).
Proof.
  set (cts := get_key_cts all_txns). intros n. unfold batch_iter_make. fold cts. fold n. split.
  - intros Hn. by rewrite hot_keys_few.
  - intros [H0 Hle]. set (h := hot_keys n) in *. assert (vec_resize (0, 0) h cts = take h cts) as ->.
    { unfold vec_resize. replace (h - length cts)%nat with 0%nat by (unfold n in Hle; lia). by rewrite app_nil_r. }
    destruct (last (take h cts)) as [x|] eqn:El. 2:{ apply last_None in El. apply (f_equal length) in El. rewrite length_take in El. unfold n in *. cbn in El. lia. }
    exists (list_to_set (take h cts).*1). pose proof (get_key_cts_NoDup all_txns) as Hnd. fold cts in Hnd. split_and!.
    + rewrite size_list_to_set, length_fmap, length_take; [unfold n in *; lia|]. rewrite fmap_take. by eapply sublist_NoDup; [|apply sublist_take].
    + f_equal. apply list_fmap_ext. intros i raw _. apply split_txn_filter.
    + intros k k' Hk Hin Hk'. apply elem_of_list_to_set, list_elem_of_fmap in Hk as ([k0 c] & E & Hkc). cbn in E. subst k0.
      apply get_key_cts_keys, list_elem_of_fmap in Hin as ([k0 c'] & E & Hkc'). cbn in E. subst k0. fold cts in Hkc'.
      apply list_elem_of_lookup in Hkc as [i Hi]. apply lookup_take_Some in Hi as [Hi Hlt]. apply list_elem_of_lookup in Hkc' as [j Hj].
      assert (i < j)%nat as Hij.
      { destruct (decide (j < h)%nat) as [Hjh|]; [|lia]. exfalso. apply Hk', elem_of_list_to_set, list_elem_of_fmap. exists (k', c'). split; [done|].
        apply list_elem_of_lookup. exists j. by apply lookup_take_Some. }
      pose proof (get_key_cts_sorted all_txns i j _ _ Hi Hj Hij) as Hc. cbn in Hc.
      apply list_elem_of_lookup_2, get_key_cts_spec in Hi as [-> _]. apply list_elem_of_lookup_2, get_key_cts_spec in Hj as [-> _]. lia.
Qed.

(** ** What a batch is *)

(** Two transactions without a common key. *)
Definition no_common (a b : txn_t) : Prop := ∀ k, k ∈ a → k ∉ b.

Lemma conflicts_zero locks ops : conflicts locks ops = 0%nat ↔ ∀ k, k ∈ ops → k ∉ locks.
Proof.
  unfold conflicts. rewrite length_zero_iff_nil. split.
  - intros H k Hk Hl. assert (k ∈ filter (λ k, k ∈ locks) ops) as Hf by (by apply list_elem_of_filter). rewrite H in Hf. by apply not_elem_of_nil in Hf.
  - intros H. destruct (filter _ ops) as [|k l] eqn:E; [done|]. assert (k ∈ filter (λ k, k ∈ locks) ops) as Hf by (rewrite E; by left).
    apply list_elem_of_filter in Hf as [Hl Hk]. by apply H in Hk.
Qed.

(** The quick test only rejects what the full one rejects. *)
Lemma free_quick_plain locks ops : free_quick locks ops = free_plain locks ops.
Proof.
  unfold free_quick, free_plain.
  assert (∀ i k, ops !! i = Some k → k ∈ locks → bool_decide (conflicts locks ops = 0%nat) = false) as Hrej.
  { intros i k Hk Hl. apply bool_decide_eq_false. intros H. rewrite conflicts_zero in H. by apply (H k); [eapply list_elem_of_lookup_2|]. }
  destruct (ops !! 0%nat) as [k0|] eqn:E0; [destruct (bool_decide (k0 ∈ locks)) eqn:B0|]; cbn [orb].
  1: symmetry; by eapply Hrej, bool_decide_eq_true.
  all: destruct (ops !! 1%nat) as [k1|] eqn:E1; [destruct (bool_decide (k1 ∈ locks)) eqn:B1|]; try done.
  all: symmetry; by eapply Hrej, bool_decide_eq_true.
Qed.

Lemma scan_ahead_ext la f g txns : (∀ c, f c = g c) → scan_ahead la f txns = scan_ahead la g txns.
Proof. intros H. revert txns. induction la as [|la IH]; intros [|pr l]; cbn; [done..|]. by rewrite H, IH. Qed.

Lemma fill_batch_ext fuel f g la locks txns ret : (∀ s c, f s c = g s c) →
  fill_batch fuel f la locks txns ret = fill_batch fuel g la locks txns ret.
Proof.
  intros H. revert locks txns ret. induction fuel as [|fuel IH]; intros locks txns ret; cbn; [done|].
  rewrite (scan_ahead_ext la (f locks) (g locks)) by done. destruct (scan_ahead _ _ _) as [[c l]|]; [|done]. by rewrite IH.
Qed.

(** The first two keys make no difference. *)
Lemma gen_batch_quick depth la txns ret : gen_batch depth free_quick la txns ret = gen_batch depth free_plain la txns ret.
Proof.
  revert txns ret. induction depth as [|d IH]; intros txns ret; cbn; [done|].
  rewrite (fill_batch_ext _ free_quick free_plain) by apply free_quick_plain. destruct (fill_batch _ _ _ _ _ _). by rewrite IH.
Qed.

Lemma scan_ahead_spec la free txns c l : scan_ahead la free txns = Some (c, l) →
  free c = true ∧ txns.*2 ≡ₚ c :: l.*2 ∧ (length txns = S (length l))%nat.
Proof.
  revert txns l. induction la as [|la IH]; intros [|pr txns] l H; cbn in H; try done.
  destruct (free pr.2) eqn:Hf; [injection H as <- <-; by split_and!|]. destruct (scan_ahead la free txns) as [[c' l']|] eqn:E; [|done]. cbn in H. simplify_eq.
  apply IH in E as (Hc & HP & Hl). split_and!; [done| |cbn; lia]. cbn. rewrite HP. constructor.
Qed.

(** Batches are sorted by "has no key in common with". *)
Lemma fill_batch_spec fuel la locks txns ret :
  (length txns ≤ fuel)%nat → StronglySorted no_common ret → (∀ c k, c ∈ ret → k ∈ c → k ∈ locks) →
  let '(txns', ret') := fill_batch fuel free_plain la locks txns ret in
  StronglySorted no_common ret' ∧ ret ++ txns.*2 ≡ₚ ret' ++ txns'.*2 ∧ (length ret ≤ length ret')%nat
  ∧ (length ret ≤ MAX_BATCH → length ret' ≤ MAX_BATCH)%nat.
Proof.
  revert locks txns ret. induction fuel as [|fuel IH]; intros locks txns ret Hf Hs Hl; cbn [fill_batch]; [by split_and!|].
  destruct (bool_decide (length ret < MAX_BATCH)%nat) eqn:Hb; [|by split_and!]. apply bool_decide_eq_true in Hb.
  destruct (bool_decide (0 < length txns)%nat); [|by split_and!]. cbn [andb].
  destruct (scan_ahead la (free_plain locks) txns) as [[c l]|] eqn:E; [|by split_and!]. apply scan_ahead_spec in E as (Hc & HP & Hlen).
  apply bool_decide_eq_true in Hc. rewrite conflicts_zero in Hc. specialize (IH (list_to_set c ∪ locks) l (ret ++ [c])).
  destruct (fill_batch fuel free_plain la (list_to_set c ∪ locks) l (ret ++ [c])) as [txns' ret']. rewrite length_app in IH. cbn [length] in IH.
  destruct IH as (A & B & C & D); [lia| | |].
  - apply StronglySorted_app_2; [|done|repeat constructor]. intros a b Ha Hb'%list_elem_of_singleton k Hk Hkc. subst b. by apply (Hc k Hkc), (Hl a).
  - intros a k [Ha|Ha%list_elem_of_singleton]%elem_of_app Hk; [apply elem_of_union; right; by eapply Hl|]. subst a. apply elem_of_union. left. by apply elem_of_list_to_set.
  - split_and!; [done| |lia|intros _; apply D; lia]. rewrite <-B, HP. by rewrite <-app_assoc.
Qed.

Lemma gen_batch_spec depth la txns : (0 < depth)%nat → (0 < la)%nat →
  ∃ txns' ret, gen_batch depth free_plain la txns [] = Ok (txns', ret)
    ∧ StronglySorted no_common ret ∧ txns.*2 ≡ₚ ret ++ txns'.*2 ∧ (length ret ≤ MAX_BATCH)%nat ∧ (ret = [] ↔ txns = []).
Proof.
  intros Hd Hla. destruct depth as [|d]; [lia|]. cbn [gen_batch].
  pose proof (fill_batch_spec (length txns) la ∅ txns []) as H. 
  destruct txns as [|pr txns].
  { exists [], []. split; [done|]. split; [apply SSorted_nil|]. split; [done|]. split; [unfold MAX_BATCH; cbn; lia|done]. }
  assert (∃ x, fill_batch (length (pr :: txns)) free_plain la ∅ (pr :: txns) [] = fill_batch (length txns) free_plain la x txns [pr.2]) as [x Hx].
  { exists (list_to_set pr.2 ∪ ∅). cbn [length fill_batch]. rewrite (bool_decide_eq_true_2 (0 < MAX_BATCH)%nat) by (unfold MAX_BATCH; lia). rewrite (bool_decide_eq_true_2 (0 < S _)%nat) by lia. cbn [andb].
    destruct la as [|la]; [lia|]. cbn [scan_ahead]. assert (free_plain ∅ pr.2 = true) as -> by (apply bool_decide_eq_true, conflicts_zero; set_solver). done. }
  destruct (fill_batch (length (pr :: txns)) free_plain la ∅ (pr :: txns) []) as [txns' ret'] eqn:E.
  destruct H as (A & B & _ & D); [done|apply SSorted_nil|set_solver|]. cbn [app] in B. 
  assert (ret' ≠ []) as Hne.
  { intros ->. assert (∀ fuel la x l r t' r', r ≠ [] → fill_batch fuel free_plain la x l r = (t', r') → r' ≠ []) as Hk.
    { clear. induction fuel as [|fuel IH]; intros la x l r t' r' Hr; cbn; [by intros [= <- <-]|].
      destruct (_ && _); [|by intros [= <- <-]]. destruct (scan_ahead _ _ _) as [[c l']|]; [|by intros [= <- <-]]. apply IH. by destruct r. }
    refine (Hk _ _ _ _ [pr.2] _ _ _ (eq_sym Hx) eq_refl). done. }
  exists txns', ret'. rewrite bool_decide_eq_false_2; [|by destruct ret']. cbn [andb]. split_and!; try done; [apply D; unfold MAX_BATCH; cbn; lia].
Qed.

(** ** The whole history *)

(** Where the batches start, when the first one starts at [n]. *)
Fixpoint starts_of (n : nat) (bs : list (list txn_t)) : list nat :=
  match bs with [] => [] | b :: bs' => n :: starts_of (n + length b) bs' end.

Definition batch_ok (b : list txn_t) : Prop := b ≠ [] ∧ StronglySorted no_common b.

Lemma history_spec fuel txns hist starts : (length txns < fuel)%nat →
  ∃ bs, history fuel txns hist starts = Ok (hist ++ concat bs, starts ++ starts_of (length hist) bs)
    ∧ Forall batch_ok bs ∧ concat bs ≡ₚ txns.*2.
Proof.
  revert txns hist starts. induction fuel as [|fuel IH]; intros txns hist starts Hf; [lia|]. cbn [history].
  destruct (gen_batch_spec 2 40 txns) as (txns' & ret & H & Hs & HP & _ & Hne); [lia..|]. unfold lookahead_gen_batch. rewrite H. cbn [mbind outcome_bind].
  destruct ret as [|c ret].
  - exists []. destruct Hne as [Hne _]. rewrite (Hne eq_refl) in *. destruct txns'; [|by apply Permutation_length in HP].
    cbn. rewrite !app_nil_r. split_and!; [done|constructor|done].
  - destruct (IH txns' (hist ++ c :: ret) (starts ++ [length hist])) as (bs & Hh & Hok & HPb).
    { apply Permutation_length in HP. rewrite length_app, !length_fmap in HP. cbn in HP. lia. }
    exists ((c :: ret) :: bs). rewrite Hh. split_and!.
    + cbn [concat starts_of]. rewrite <-!app_assoc, length_app. done.
    + by constructor.
    + cbn [concat]. by rewrite HPb, HP.
Qed.

(** [upper_bound] finds the batch of a position. *)
Lemma first_above_spec bs n i c : Forall (λ b, b ≠ []) bs → (n ≤ i)%nat → concat bs !! (i - n)%nat = Some c →
  ∃ m b p, first_above i (starts_of n bs) = S m ∧ bs !! m = Some b ∧ b !! p = Some c ∧ (i = n + length (concat (take m bs)) + p)%nat.
Proof.
  revert n i. induction bs as [|b bs IH]; intros n i Hne Hi Hc; [done|]. apply Forall_cons in Hne as [Hb Hne]. cbn [concat starts_of first_above] in *.
  rewrite bool_decide_eq_false_2 by lia. destruct (decide (i - n < length b)%nat) as [Hlt|Hge].
  - rewrite lookup_app_l in Hc by done. exists 0%nat, b, (i - n)%nat. split_and!; try done; [|cbn; lia].
    f_equal. destruct bs as [|b' bs]; [done|]. cbn. by rewrite bool_decide_eq_true_2 by lia.
  - rewrite lookup_app_r in Hc by lia. destruct (IH (n + length b)%nat i) as (m & b' & p & Hf & Hm & Hp & Heq); [done|lia| |].
    { rewrite <-Hc. f_equal. lia. }
    exists (S m), b', p. rewrite Hf. split_and!; try done. cbn [take concat]. rewrite length_app. lia.
Qed.

(** Of two positions of one batch the transactions have no common key, and
    batch numbers grow with the position. *)
Definition batch_no (starts : list nat) (i : nat) : nat := (first_above i starts - 1)%nat.

Lemma first_above_mono starts i j : (i ≤ j)%nat → (first_above i starts ≤ first_above j starts)%nat.
Proof. intros H. induction starts as [|s l IH]; cbn; [done|]. repeat case_bool_decide; lia. Qed.

Lemma same_batch_no_common bs i j ci cj : Forall batch_ok bs → (i < j)%nat → concat bs !! i = Some ci → concat bs !! j = Some cj →
  batch_no (starts_of 0 bs) i = batch_no (starts_of 0 bs) j → no_common ci cj.
Proof.
  intros Hok Hij Hi Hj. assert (Forall (λ b : list txn_t, b ≠ []) bs) as Hne by (eapply Forall_impl; [exact Hok|by intros ? []]).
  destruct (first_above_spec bs 0 i ci) as (m & b & p & Hf & Hm & Hp & Heq); [done|lia|by rewrite Nat.sub_0_r|].
  destruct (first_above_spec bs 0 j cj) as (m' & b' & p' & Hf' & Hm' & Hp' & Heq'); [done|lia|by rewrite Nat.sub_0_r|].
  unfold batch_no. rewrite Hf, Hf'. cbn. rewrite !Nat.sub_0_r. intros <-. simplify_eq.
  rewrite Forall_lookup in Hok. destruct (Hok _ _ Hm) as [_ Hs]. apply (StronglySorted_lookup _ b p p' _ _ Hs Hp Hp'). lia.
Qed.

Lemma deal_spec hist starts : (∀ i, (i < length hist)%nat → first_above i starts ≠ 0%nat) →
  ∃ cores, deal hist starts = Ok cores ∧ ∀ t, (t < N_THREADS)%nat →
    ∃ core, cores !! t = Some core ∧ ∀ j, core !! j = (λ c, (batch_no starts (j * N_THREADS + t), c)) <$> hist !! (j * N_THREADS + t)%nat.
Proof.
  intros Hpos. unfold deal.
  destruct (ofold_total (λ pre cores, length cores = N_THREADS ∧ ∀ t, (t < N_THREADS)%nat → ∃ core, cores !! t = Some core
    ∧ ∀ j, core !! j = if decide (j * N_THREADS + t < length pre)%nat then (λ c, (batch_no starts (j * N_THREADS + t), c)) <$> hist !! (j * N_THREADS + t)%nat else None)
    (deal_one hist starts) (seq 0 (length hist)) (replicate N_THREADS [])) as (cores & Hc & Hl & Hcores).
  - split; [done|]. intros t Ht. exists []. split; [by apply lookup_replicate_2|]. intros j. by rewrite decide_False by (cbn; lia).
  - intros pre i post cores Hseq [Hlen Hcs]. destruct (seq_cut _ _ _ _ _ Hseq) as (Hpre & Hi & Hlt). clear Hseq. rewrite Nat.add_0_l in Hi. subst i.
    set (i := length pre) in *. unfold deal_one. rewrite bool_decide_eq_true_2 by (by apply Hpos). cbn [assert mbind outcome_bind].
    destruct (lookup_lt_is_Some_2 hist i Hlt) as [c Hc]. rewrite (proj2 (aget_ok hist i c) Hc). cbn [mbind outcome_bind].
    assert (i `mod` N_THREADS < N_THREADS)%nat as Ht by (apply Nat.mod_upper_bound; done). pose proof (Nat.div_mod_eq i N_THREADS) as Hdm.
    destruct (Hcs _ Ht) as (core & Hcore & Hj). rewrite (proj2 (aget_ok cores _ core) Hcore). cbn [mbind outcome_bind]. rewrite aset_lt by lia.
    eexists. split; [reflexivity|]. split; [by rewrite length_insert|]. rewrite length_app. cbn [length]. fold i. intros t Htlt.
    destruct (decide (t = i `mod` N_THREADS)%nat) as [->|Hne].
    + rewrite list_lookup_insert_eq by lia. eexists. split; [reflexivity|]. set (t := (i `mod` N_THREADS)%nat) in *.
      assert (length core = i / N_THREADS)%nat as Hlc.
      { apply dec_stable. intros Hd. destruct (decide (length core < i / N_THREADS)%nat) as [Hlt'|Hge].
        - pose proof (Hj (length core)) as H. rewrite lookup_ge_None_2 in H by done. rewrite decide_True in H by (unfold N_THREADS in *; lia).
          destruct (lookup_lt_is_Some_2 hist (length core * N_THREADS + t)) as [? E]; [unfold N_THREADS in *; lia|]. by rewrite E in H.
        - pose proof (Hj (i / N_THREADS)%nat) as H. rewrite decide_False in H by (unfold N_THREADS in *; lia). apply lookup_ge_None in H. lia. }
      intros j. destruct (decide (j < length core)%nat) as [Hjl|Hjl].
      * rewrite lookup_app_l by done. rewrite Hj. rewrite !decide_True by (unfold N_THREADS in *; lia). done.
      * rewrite lookup_app_r by lia. destruct (decide (j = length core)) as [->|Hjn].
        -- rewrite Nat.sub_diag. change ([?x] !! 0%nat) with (Some x). replace (length core * N_THREADS + t)%nat with i by (rewrite Hlc; unfold N_THREADS in *; lia).
           rewrite decide_True by lia. by rewrite Hc.
        -- rewrite decide_False by (unfold N_THREADS in *; lia). apply lookup_ge_None. cbn. lia.
    + rewrite list_lookup_insert_ne by done. destruct (Hcs t Htlt) as (core' & Hcore' & Hj'). exists core'. split; [done|]. intros j. rewrite Hj'.
      assert (j * N_THREADS + t ≠ i)%nat as Hne'. { intros E. apply Hne. rewrite <-E, Nat.add_comm, Nat.Div0.mod_add. symmetry. by apply Nat.mod_small. }
      destruct (decide (j * N_THREADS + t < i)%nat); [by rewrite decide_True by lia|by rewrite decide_False by lia].
  - exists cores. split; [done|]. intros t Ht. destruct (Hcores t Ht) as (core & Hcore & Hj). exists core. split; [done|]. intros j. rewrite Hj, length_seq.
    case_decide; [done|]. by rewrite lookup_ge_None_2 by lia.
Qed.

(** ** The count of conflicts *)

Lemma note_ops_spec b ops past :
  ∃ past', ofold (note_op b) ops past = Ok past' ∧ ∀ k v, past' !! k = Some v → (v = b ∧ k ∈ ops) ∨ past !! k = Some v.
Proof.
  destruct (ofold_total (λ pre past', ∀ k v, past' !! k = Some v → (v = b ∧ k ∈ pre) ∨ past !! k = Some v) (note_op b) ops past) as (past' & H & HI).
  - by right.
  - intros pre k post p _ HI. unfold note_op. set (p' := match p !! k with None => map_insert k b p | Some _ => <[k := b]> p end).
    assert (p' = <[k := b]> p) as -> by (unfold p', map_insert; by destruct (p !! k) eqn:E).
    rewrite bool_decide_eq_true_2 by (by rewrite lookup_insert_eq). cbn [assert mbind outcome_bind]. eexists. split; [reflexivity|].
    intros k' v [[<- <-]|[_ Hv]]%lookup_insert_Some; [left; split; [done|]; apply elem_of_app; right; by left|].
    destruct (HI _ _ Hv) as [[-> Hin]|Hp]; [left; split; [done|]; apply elem_of_app; by left|by right].
  - by exists past'.
Qed.

Section count.
Context (bs : list (list txn_t)).
Hypothesis Hok : Forall batch_ok bs.
Notation hist := (concat bs).
Notation starts := (starts_of 0 bs).

(** After [n] transactions: nothing but zeros was printed. *)
Definition counted (n : nat) (st : gmap Z nat * list nat) : Prop :=
  st.2 = replicate n 0%nat ∧ ∀ k b, st.1 !! k = Some b → ∃ i c, (i < n)%nat ∧ hist !! i = Some c ∧ batch_no starts i = b ∧ k ∈ c.

Lemma count_step cores j t st c :
  (∃ core, cores !! t = Some core ∧ core !! j = Some (batch_no starts (j * N_THREADS + t), c)) → hist !! (j * N_THREADS + t)%nat = Some c →
  counted (j * N_THREADS + t) st → ∃ st', count_one cores j st t = Ok st' ∧ counted (S (j * N_THREADS + t)) st'.
Proof.
  intros (core & Hcore & Hj) Hc [Hout Hpast]. set (n := (j * N_THREADS + t)%nat) in *. unfold count_one.
  rewrite (proj2 (aget_ok cores t core) Hcore). cbn [mbind outcome_bind]. rewrite (proj2 (aget_ok core j _) Hj). cbn [mbind outcome_bind].
  destruct (note_ops_spec (batch_no starts n) c st.1) as (past' & -> & Hp). cbn [mbind outcome_bind]. eexists. split; [reflexivity|]. split; cbn [fst snd].
  - rewrite Hout, replicate_S_end. do 2 f_equal. unfold past_conflicts. apply length_zero_iff_nil. destruct (filter _ c) as [|k l] eqn:E; [done|]. exfalso.
    match type of E with filter ?P c = _ => assert (k ∈ filter P c) as Hk by (rewrite E; by left) end. apply list_elem_of_filter in Hk as [Hb Hk].
    destruct (st.1 !! k) as [b'|] eqn:Ek; [|done]. apply bool_decide_eq_true in Hb. destruct (Hpast _ _ Ek) as (i & ci & Hi & Hci & <- & Hki).
    pose proof (first_above_mono starts i n ltac:(lia)) as Hm. refine (same_batch_no_common bs i n ci c Hok Hi Hci Hc _ k Hki Hk). unfold batch_no in *. lia.
  - intros k b [[-> Hk]|Hk]%Hp; [exists n, c; split_and!; [lia|done..]|]. destruct (Hpast _ _ Hk) as (i & ci & Hi & ?). exists i, ci. split; [lia|done].
Qed.

Lemma count_rows cores :
  (∀ t, (t < N_THREADS)%nat → ∃ core, cores !! t = Some core ∧ ∀ j, core !! j = (λ c, (batch_no starts (j * N_THREADS + t), c)) <$> hist !! (j * N_THREADS + t)%nat) →
  ∃ st, ofold (λ st j, ofold (count_one cores j) (seq 0 N_THREADS) st) (seq 0 (length hist / N_THREADS)) (∅, []) = Ok st
    ∧ counted (length hist / N_THREADS * N_THREADS) st.
Proof.
  intros Hcores. set (rows := (length hist / N_THREADS)%nat).
  assert (rows * N_THREADS ≤ length hist)%nat as Hrows by (unfold rows; rewrite Nat.mul_comm; by apply Nat.Div0.mul_div_le).
  destruct (ofold_total (λ pre st, counted (length pre * N_THREADS) st) (λ st j, ofold (count_one cores j) (seq 0 N_THREADS) st) (seq 0 rows) (∅, [])) as (st & Hst & Hc).
  - split; [done|]. intros k b Hk. cbn [fst] in Hk. by rewrite lookup_empty in Hk.
  - intros pre j post st Hseq Hcount. destruct (seq_cut _ _ _ _ _ Hseq) as (_ & Hj & Hlt). rewrite Nat.add_0_l in Hj. rewrite <-Hj in *. clear Hseq.
    destruct (ofold_total (λ pre' st', counted (j * N_THREADS + length pre') st') (count_one cores j) (seq 0 N_THREADS) st) as (st' & Hst' & Hc').
    + by rewrite Nat.add_0_r.
    + intros pre' t post' st1 Hseq Hc1. destruct (seq_cut _ _ _ _ _ Hseq) as (_ & Ht & Htlt). rewrite Nat.add_0_l in Ht. rewrite <-Ht in *.
      rewrite length_app. cbn [length]. rewrite <-Ht, Nat.add_1_r, Nat.add_succ_r. destruct (Hcores t Htlt) as (core & Hcore & Hlook).
      destruct (lookup_lt_is_Some_2 hist (j * N_THREADS + t)) as [c Hc]; [unfold N_THREADS in *; nia|].
      apply (count_step _ _ _ _ c); [|done|done]. exists core. split; [done|]. by rewrite Hlook, Hc.
    + exists st'. split; [done|]. rewrite length_app. cbn [length]. rewrite <-Hj, Nat.mul_add_distr_r. rewrite length_seq in Hc'. by rewrite Nat.mul_1_l.
  - exists st. split; [done|]. by rewrite length_seq in Hc.
Qed.
End count.

(** The batching program of lookahead.cpp terminates, meets its assertions,
    puts every transaction into its history exactly once, cut into batches of
    transactions without common cold keys, and so reports no conflict for any
    transaction that it deals out. *)
Theorem lookahead_conflict_free txns :
  ∃ bs, lookahead_main txns = Ok (concat bs, replicate (length (concat bs) / N_THREADS * N_THREADS) 0%nat)
    ∧ concat bs ≡ₚ txns.*2 ∧ Forall (StronglySorted no_common) bs.
Proof.
  unfold lookahead_main. destruct (history_spec (S (length txns)) txns [] []) as (bs & -> & Hok & HP); [lia|]. cbn [mbind outcome_bind app length].
  destruct (deal_spec (concat bs) (starts_of 0 bs)) as (cores & -> & Hcores).
  { intros i Hi. destruct (lookup_lt_is_Some_2 _ _ Hi) as [c Hc]. destruct (first_above_spec bs 0 i c) as (m & b & p & -> & _); [|lia|by rewrite Nat.sub_0_r|done].
    eapply Forall_impl; [exact Hok|by intros ? []]. }
  cbn [mbind outcome_bind]. destruct (count_rows bs Hok cores Hcores) as (st & -> & [Hout _]). cbn [mbind outcome_bind]. exists bs. rewrite Hout.
  split_and!; [done|done|]. eapply Forall_impl; [exact Hok|by intros ? []].
Qed.

(** Testing the two hottest keys first changes no batch: the [gen_batch] of
    lookahead_batching_old.cpp takes the transactions that the plain test of all
    keys would take.  It returns after one call, with at most [MAX_BATCH]
    transactions without common keys, at least one if there is any, and it
    neither loses nor repeats a transaction. *)
Theorem old_gen_batch_correct txns depth : (0 < depth)%nat →
  old_gen_batch depth txns [] = gen_batch depth free_plain 4 txns []
  ∧ ∃ txns' ret, old_gen_batch depth txns [] = Ok (txns', ret)
      ∧ StronglySorted no_common ret ∧ txns.*2 ≡ₚ ret ++ txns'.*2 ∧ (length ret ≤ MAX_BATCH)%nat ∧ (ret = [] ↔ txns = []).
Proof. intros Hd. unfold old_gen_batch. rewrite gen_batch_quick. split; [done|]. by apply gen_batch_spec; [|lia]. Qed.

Lemma old_gen_batch_correct_witness :
  old_gen_batch 1 [([], [1; 2]); ([7], [2; 3]); ([], [4]); ([], [])] [] = Ok ([([7], [2; 3])], [[1; 2]; [4]; []])
  ∧ StronglySorted no_common [[1; 2]; [4]; []].
Proof.
  assert (old_gen_batch 1 [([], [1; 2]); ([7], [2; 3]); ([], [4]); ([], [])] [] = Ok ([([7], [2; 3])], [[1; 2]; [4]; []])) as E by (vm_compute; reflexivity).
  split; [exact E|]. destruct (old_gen_batch_correct [([], [1; 2]); ([7], [2; 3]); ([], [4]); ([], [])] 1) as [_ (t & r & H & Hs & _)]; [lia|].
  rewrite E in H. injection H as <- <-. exact Hs.
Defined.
