(* ===== verification/Buckets.v ===== *)
(** * Batching by buckets

    [mine/fast_layout/my_batching.cpp] and [lookahead_batching.cpp]: the cold
    transactions are put into a bucket for their most frequent key, the buckets
    are emptied round by round, the fullest first, and the resulting queues are
    executed in batches of transactions without a common key.

    The heap of buckets is used through an interface: [pq_top] removes a key
    of the largest priority, and nothing depends on which one it takes among
    equals. *)
From stdpp Require Import base tactics list numbers gmap sorting.
From Stdlib Require Import ZArith Lia.
From S2P Require Import Prelude SimLayout Batching.

#[local] Open Scope Z_scope.

(** ** The heap *)

(** [std::priority_queue] with a comparator by priority: [pq_top size l] is the
    top of the heap with items [l], and the items left after [pop]. *)
Class MaxHeap := pq_top : (Z → nat) → list Z → option (Z * list Z).

Class MaxHeapOk `{MaxHeap} : Prop := {
  pq_top_nil size : pq_top size [] = None;
  pq_top_some size l : l ≠ [] → ∃ k l', pq_top size l = Some (k, l') ∧ l ≡ₚ k :: l' ∧ ∀ k', k' ∈ l → (size k' ≤ size k)%nat;
}.

(** ** Preparation *)

Definition BATCH_TGT : nat := 500.
Definition N_HASH_SLOTS : Z := 8192.
Definition hash_key (x : Z) : Z := x.

Definition pair_t : Type := txn_t * txn_t.

(** [key_cts]: how often a key occurs in the cold parts. *)
Definition cold_counts (txns : list pair_t) : gmap Z Z := foldl (λ m pr, foldl count_op m pr.2) ∅ txns.
Definition cold_count (cts : gmap Z Z) (k : Z) : Z := default 0 (cts !! k).

(** The loop that looks for the most frequent key, after the sort. *)
Definition max_idx (cts : gmap Z Z) (ops : txn_t) : nat :=
  foldl (λ m i, if cold_count cts (ops !!! m) <? cold_count cts (ops !!! i) then i else m) 0%nat (seq 0 (length ops)).

Definition sort_cold (cts : gmap Z Z) (acc : list pair_t) (pr : pair_t) : outcome (list pair_t) :=
  let ops := std_sort (λ k1 k2, cold_count cts k2 <? cold_count cts k1) pr.2 in
  assert (bool_decide (max_idx cts ops = 0%nat));;
  Ok (acc ++ [(pr.1, ops)]).

Definition prepare (txns : list pair_t) : outcome (list pair_t) := ofold (sort_cold (cold_counts txns)) txns [].

(** ** my_batching.cpp: the order of the transactions *)

(** [buckets]: a stack of transactions per key. *)
Definition bucket (bs : gmap Z (list pair_t)) (k : Z) : list pair_t := default [] (bs !! k).
Definition bucket_key (pr : pair_t) : Z := match pr.2 with [] => 0 | k :: _ => k end.
Definition push_bucket (bs : gmap Z (list pair_t)) (pr : pair_t) : gmap Z (list pair_t) :=
  <[bucket_key pr := pr :: bucket bs (bucket_key pr)]> bs.
Definition fill_buckets (txns : list pair_t) : gmap Z (list pair_t) := foldl push_bucket ∅ txns.

(** The keys of the buckets of thread [t]: what is pushed on [pqs[t]]. *)
Definition thread_of (k : Z) : nat := Z.to_nat (hash_key k mod Z.of_nat N_THREADS).
Definition thread_keys (bs : gmap Z (list pair_t)) (t : nat) : list Z :=
  filter (λ k, thread_of k = t) (map_to_list bs).*1.

Section my_batching.
Context `{MaxHeap}.

(** The loop [while (pqs[t].size() > 0 && added < BATCH_TGT/N_THREADS)]: it takes
    a key off the heap every time. *)
Fixpoint take_round (fuel added : nat) (bs : gmap Z (list pair_t)) (pq : list Z) (out : list txn_t) (add_back : list Z)
  : gmap Z (list pair_t) * list Z * list txn_t * list Z :=
  match fuel with
  | O => (bs, pq, out, add_back)
  | S fuel' =>
      if bool_decide (added < BATCH_TGT / N_THREADS)%nat then
        match pq_top (λ k, length (bucket bs k)) pq with
        | None => (bs, pq, out, add_back)
        | Some (k, pq') =>
            match bucket bs k with
            | [] => take_round fuel' added bs pq' out add_back
            | pr :: q => take_round fuel' (S added) (<[k := q]> bs) pq' (out ++ [pr.2]) (k :: add_back)
            end
        end
      else (bs, pq, out, add_back)
  end.

(** The loop [while (pqs[t].size() > 0)]; [add_back] is emptied into the heap. *)
Fixpoint order_thread (fuel : nat) (bs : gmap Z (list pair_t)) (pq : list Z) (out : list txn_t)
  : outcome (gmap Z (list pair_t) * list txn_t) :=
  match pq with
  | [] => Ok (bs, out)
  | _ :: _ =>
      match fuel with
      | O => Fail Spins
      | S fuel' =>
          let '(bs', pq', out', add_back) := take_round (length pq) 0 bs pq out [] in
          order_thread fuel' bs' (rev add_back ++ pq') out'
      end
  end.

(** The loop over the threads: the queue of each. *)
Definition order_one (fuel : nat) (keys : nat → list Z) (st : gmap Z (list pair_t) * list (list txn_t)) (t : nat)
  : outcome (gmap Z (list pair_t) * list (list txn_t)) :=
  '(bs, out) ← order_thread fuel st.1 (keys t) [];
  Ok (bs, st.2 ++ [out]).

Definition order_all (txns : list pair_t) : outcome (list (list txn_t)) :=
  let bs := fill_buckets txns in
  st ← ofold (order_one (S (length txns + size bs)) (thread_keys bs)) (seq 0 N_THREADS) (bs, []);
  Ok st.2.
End my_batching.

(** ** my_batching.cpp: execution *)

(** The variables of a mini-batch: the locks, the hash bits, the counters and
    flags of each thread, the queues; [executed] are the transactions that the
    mini-batch has executed, a ghost. *)
Record phase := MkPhase {
  ph_locks : gset Z;
  ph_bits : gset Z;
  quick_considered : list nat;
  considered : list nat;
  batch_size : list nat;
  ph_done : list bool;
  done_ct : nat;
  ph_queues : list (list txn_t);
  executed : list txn_t;
}.

Definition phase_make (queues : list (list txn_t)) : phase :=
  MkPhase ∅ ∅ (replicate N_THREADS 0%nat) (replicate N_THREADS 0%nat) (replicate N_THREADS 0%nat)
          (replicate N_THREADS false) 0 queues [].

(** [if (!done[t]) { done[t] = true; done_ct += 1; }]. *)
Definition set_done (t : nat) (p : phase) : outcome phase :=
  d ← aget (ph_done p) t;
  if (d : bool) then Ok p
  else
    l ← aset (ph_done p) t true;
    Ok (MkPhase (ph_locks p) (ph_bits p) (quick_considered p) (considered p) (batch_size p) l (S (done_ct p)) (ph_queues p) (executed p)).

Definition set_quick (l : list nat) (p : phase) : phase :=
  MkPhase (ph_locks p) (ph_bits p) l (considered p) (batch_size p) (ph_done p) (done_ct p) (ph_queues p) (executed p).
Definition set_queue (l : list (list txn_t)) (p : phase) : phase :=
  MkPhase (ph_locks p) (ph_bits p) (quick_considered p) (considered p) (batch_size p) (ph_done p) (done_ct p) l (executed p).
Definition set_considered (l : list nat) (p : phase) : phase :=
  MkPhase (ph_locks p) (ph_bits p) (quick_considered p) l (batch_size p) (ph_done p) (done_ct p) (ph_queues p) (executed p).

Definition slot_of (k : Z) : Z := hash_key k mod N_HASH_SLOTS.

(** The transaction gets its locks and is executed. *)
Definition run_front (t : nat) (txn : txn_t) (p : phase) : outcome phase :=
  b ← aget (batch_size p) t;
  bl ← aset (batch_size p) t (S b);
  Ok (MkPhase (list_to_set txn ∪ ph_locks p) (list_to_set (slot_of <$> txn) ∪ ph_bits p) (quick_considered p) (considered p)
              bl (ph_done p) (done_ct p) (ph_queues p) (executed p ++ [txn])).

(** The body of the loop over the threads. *)
Definition visit (p : phase) (t : nat) : outcome phase :=
  q ← aget (ph_queues p) t;
  b ← aget (batch_size p) t;
  match q with
  | [] => set_done t p
  | txn :: q' =>
      if bool_decide (BATCH_TGT / N_THREADS ≤ b)%nat then set_done t p
      else
        qc ← aget (quick_considered p) t;
        ql ← aset (quick_considered p) t (S qc);
        let p1 := set_quick ql p in
        if bool_decide (2 * BATCH_TGT / N_THREADS ≤ S qc)%nat then set_done t p1
        else if match txn with k :: _ => bool_decide (slot_of k ∈ ph_bits p1) | [] => false end then
          l ← aset (ph_queues p1) t (q' ++ [txn]);
          Ok (set_queue l p1)
        else
          p2 ← (if bool_decide (0 < conflicts (ph_locks p1) txn)%nat
                then l ← aset (ph_queues p1) t (q' ++ [txn]); Ok (set_queue l p1)
                else l ← aset (ph_queues p1) t q'; run_front t txn (set_queue l p1));
          c ← aget (considered p2) t;
          cl ← aset (considered p2) t (S c);
          let p3 := set_considered cl p2 in
          if bool_decide (2 * BATCH_TGT / N_THREADS ≤ S c)%nat then set_done t p3 else Ok p3
  end.

(** [while (done_ct < N_THREADS)]. *)
Fixpoint run_phase (fuel : nat) (p : phase) : outcome phase :=
  if bool_decide (done_ct p < N_THREADS)%nat then
    match fuel with
    | O => Fail Spins
    | S fuel' => p' ← ofold visit (seq 0 N_THREADS) p; run_phase fuel' p'
    end
  else Ok p.

(** [while (total_executed < n_txns)]: the mini-batches. *)
Fixpoint run_phases (fuel total n_txns : nat) (queues : list (list txn_t)) : outcome (list (list txn_t)) :=
  if bool_decide (total < n_txns)%nat then
    match fuel with
    | O => Fail Spins
    | S fuel' =>
        p ← run_phase (S (2 * BATCH_TGT / N_THREADS)) (phase_make queues);
        rest ← run_phases fuel' (total + length (executed p)) n_txns (ph_queues p);
        Ok (executed p :: rest)
    end
  else Ok [].

(** The program of my_batching.cpp: the mini-batches it executes. *)
Definition my_batching_main `{MaxHeap} (txns : list pair_t) : outcome (list (list txn_t)) :=
  txns' ← prepare txns;
  queues ← order_all txns';
  run_phases (length txns) 0 (length txns) queues.

(** ** The sort *)

Lemma count_may_precede cts k1 k2 :
  may_precede (λ k1 k2 : Z, cold_count cts k2 <? cold_count cts k1) k1 k2 ↔ cold_count cts k2 ≤ cold_count cts k1.
Proof. unfold may_precede. destruct (Z.ltb_spec (cold_count cts k2) (cold_count cts k1)), (Z.ltb_spec (cold_count cts k1) (cold_count cts k2)); simpl; lia. Qed.

#[local] Instance count_trans cts : Transitive (may_precede (λ k1 k2 : Z, cold_count cts k2 <? cold_count cts k1)).
Proof. intros x y z. rewrite !count_may_precede. lia. Qed.

Lemma max_idx_zero cts ops : (∀ i, (i < length ops)%nat → cold_count cts (ops !!! i) ≤ cold_count cts (ops !!! 0%nat)) → max_idx cts ops = 0%nat.
Proof.
  intros Hmax. unfold max_idx. apply (foldl_inv (λ _ m, m = 0%nat)); [done|]. intros pre i post m Hseq ->.
  destruct (seq_cut _ _ _ _ _ Hseq) as (_ & Hi & Hlt). rewrite (proj2 (Z.ltb_ge _ _)); [done|]. apply Hmax. lia.
Qed.

Lemma prepare_cold_spec txns : ∃ txns', prepare txns = Ok txns' ∧ Forall2 (λ a b, b.1 = a.1 ∧ b.2 ≡ₚ a.2) txns txns'.
Proof.
  unfold prepare. set (cts := cold_counts txns).
  apply (ofold_total (λ pre acc, Forall2 (λ a b : pair_t, b.1 = a.1 ∧ b.2 ≡ₚ a.2) pre acc)); [done|].
  intros pre pr post acc _ IH. unfold sort_cold. set (ops := std_sort _ pr.2). rewrite bool_decide_eq_true_2.
  - cbn [assert mbind outcome_bind]. eexists. split; [reflexivity|]. apply Forall2_app; [done|]. repeat constructor. apply std_sort_perm.
  - apply max_idx_zero. intros i Hi. destruct (decide (i = 0%nat)) as [->|Hne]; [done|]. apply count_may_precede.
    apply (StronglySorted_lookup _ ops 0 i); [apply std_sort_sorted, _|apply list_lookup_lookup_total_lt; lia..|lia].
Qed.

(** ** The buckets *)

(** The cold transactions in the buckets of the keys [ks]. *)
Definition contents (bs : gmap Z (list pair_t)) (ks : list Z) : list txn_t := concat ((λ k, (bucket bs k).*2) <$> ks).

Lemma contents_cons bs k ks : contents bs (k :: ks) = (bucket bs k).*2 ++ contents bs ks.
Proof. done. Qed.

Lemma contents_app bs ks1 ks2 : contents bs (ks1 ++ ks2) = contents bs ks1 ++ contents bs ks2.
Proof. unfold contents. by rewrite fmap_app, concat_app. Qed.

#[global] Instance contents_perm bs : Proper ((≡ₚ) ==> (≡ₚ)) (contents bs).
Proof. intros l l' H. unfold contents. by rewrite H. Qed.

Lemma contents_ext bs bs' ks : (∀ k, k ∈ ks → bucket bs' k = bucket bs k) → contents bs' ks = contents bs ks.
Proof. intros H. unfold contents. f_equal. apply list_fmap_ext. intros i k Hk. by rewrite H by (by eapply list_elem_of_lookup_2). Qed.

Lemma bucket_insert bs k q k' : bucket (<[k := q]> bs) k' = if decide (k = k') then q else bucket bs k'.
Proof. unfold bucket. case_decide as E; [subst; by rewrite lookup_insert_eq|by rewrite lookup_insert_ne]. Qed.

Lemma fill_buckets_keys txns k : k ∈ dom (fill_buckets txns) ↔ k ∈ bucket_key <$> txns.
Proof.
  unfold fill_buckets. induction txns as [|pr txns IH] using rev_ind; [set_solver|].
  rewrite foldl_app, fmap_app, elem_of_app. cbn [foldl fmap list_fmap]. unfold push_bucket at 1. rewrite dom_insert. set_solver.
Qed.

(** The buckets hold the transactions. *)
Lemma fill_buckets_contents txns ks : NoDup ks → (∀ pr, pr ∈ txns → bucket_key pr ∈ ks) → contents (fill_buckets txns) ks ≡ₚ txns.*2.
Proof.
  intros Hnd. unfold fill_buckets. induction txns as [|pr txns IH] using rev_ind; intros Hks.
  { cbn. unfold contents. clear. induction ks as [|k ks IH]; [done|]. cbn. unfold bucket at 1. by rewrite lookup_empty. }
  rewrite foldl_app, fmap_app. cbn [foldl fmap list_fmap]. set (bs := foldl push_bucket ∅ txns) in *.
  destruct (list_elem_of_split ks (bucket_key pr)) as (l1 & l2 & ->); [apply Hks, elem_of_app; right; by left|].
  rewrite <-IH by (intros pr' H; apply Hks, elem_of_app; by left). apply NoDup_app in Hnd as (_ & H12 & [H2 _]%NoDup_cons).
  rewrite !contents_app, !contents_cons. unfold push_bucket. set (k := bucket_key pr) in *.
  rewrite (contents_ext bs _ l1), (contents_ext bs _ l2).
  - rewrite bucket_insert, decide_True by done. cbn. solve_Permutation.
  - intros k' Hk'. rewrite bucket_insert, decide_False; [done|]. intros <-. done.
  - intros k' Hk'. rewrite bucket_insert, decide_False; [done|]. intros <-. apply (H12 _ Hk'). by left.
Qed.

Section order.
Context `{HeapOk : MaxHeapOk}.

Definition weight (bs : gmap Z (list pair_t)) (ks : list Z) : nat := length (contents bs ks) + length ks.

(** What the loops keep: the transactions of the keys they work on, and the
    other buckets. *)
Definition moved (bs : gmap Z (list pair_t)) (ks : list Z) (out : list txn_t)
    (bs' : gmap Z (list pair_t)) (ks' : list Z) (out' : list txn_t) : Prop :=
  NoDup ks' ∧ (∀ k, k ∈ ks' → k ∈ ks) ∧ out ++ contents bs ks ≡ₚ out' ++ contents bs' ks'
  ∧ (∀ k, k ∉ ks → bucket bs' k = bucket bs k) ∧ (weight bs' ks' ≤ weight bs ks)%nat.

Lemma moved_refl bs ks ks' out : NoDup ks → ks' ≡ₚ ks → moved bs ks out bs ks' out.
Proof.
  intros Hnd HP. unfold moved, weight. split_and!; [by rewrite HP|intros k; by rewrite HP|by rewrite HP|done|by rewrite HP].
Qed.

Lemma moved_trans bs ks out bs1 ks1 out1 bs2 ks2 out2 :
  moved bs ks out bs1 ks1 out1 → moved bs1 ks1 out1 bs2 ks2 out2 → moved bs ks out bs2 ks2 out2.
Proof.
  intros (A1 & A2 & A3 & A4 & A5) (B1 & B2 & B3 & B4 & B5). split_and!; [done|by auto|by rewrite A3| |lia].
  intros k Hk. rewrite B4, A4; [done|done|by auto].
Qed.

(** One key off the heap. *)
Lemma moved_drop bs k ks ks' out : NoDup ks → ks ≡ₚ k :: ks' → bucket bs k = [] → moved bs ks out bs ks' out ∧ (weight bs ks' < weight bs ks)%nat.
Proof.
  intros Hnd HP Hk. unfold moved, weight. rewrite HP in *. rewrite contents_cons, Hk. cbn. apply NoDup_cons in Hnd as [_ Hnd].
  split_and!; try done; try lia. intros k' Hk'. rewrite HP. by right.
Qed.

Lemma moved_out bs k ks out pr q : NoDup ks → k ∈ ks → bucket bs k = pr :: q →
  moved bs ks out (<[k := q]> bs) ks (out ++ [pr.2]) ∧ (weight (<[k := q]> bs) ks < weight bs ks)%nat.
Proof.
  intros Hnd Hin Hk. apply elem_of_Permutation in Hin as [ks' HP]. unfold moved, weight. rewrite HP in Hnd. apply NoDup_cons in Hnd as [Hni Hnd].
  assert (contents (<[k := q]> bs) ks' = contents bs ks') as Hext.
  { apply contents_ext. intros k' Hk'. rewrite bucket_insert, decide_False; [done|]. by intros <-. }
  rewrite HP, !contents_cons, Hext, bucket_insert, decide_True, Hk by done. split_and!; try done.
  - by constructor.
  - cbn. solve_Permutation.
  - intros k' Hk'. rewrite bucket_insert, decide_False; [done|]. intros <-. apply Hk'. rewrite HP. by left.
  - cbn. rewrite !length_app. lia.
  - cbn. rewrite !length_app. lia.
Qed.

Lemma take_round_spec fuel added bs pq out ab : NoDup (pq ++ ab) →
  let '(bs', pq', out', ab') := take_round fuel added bs pq out ab in
  moved bs (pq ++ ab) out bs' (pq' ++ ab') out'
  ∧ (fuel ≠ 0%nat → pq ≠ [] → (added < BATCH_TGT / N_THREADS)%nat → (weight bs' (pq' ++ ab') < weight bs (pq ++ ab))%nat).
Proof.
  revert added bs pq out ab. induction fuel as [|fuel IH]; intros added bs pq out ab Hnd; cbn [take_round]; [split; [by apply moved_refl|done]|].
  destruct (bool_decide (added < BATCH_TGT / N_THREADS)%nat) eqn:Hadd; [|apply bool_decide_eq_false in Hadd; split; [by apply moved_refl|done]].
  destruct pq as [|k0 pq0]; [rewrite pq_top_nil; split; [by apply moved_refl|done]|]. set (pq := k0 :: pq0) in *.
  destruct (pq_top_some (λ k, length (bucket bs k)) pq) as (k & pq' & -> & HP & _); [done|]. cbn [negb].
  assert (pq ++ ab ≡ₚ k :: pq' ++ ab) as HPa by (by rewrite HP).
  destruct (bucket bs k) as [|pr q] eqn:Hk.
  - destruct (moved_drop bs k (pq ++ ab) (pq' ++ ab) out Hnd HPa Hk) as [HM HW]. specialize (IH added bs pq' out ab).
    destruct (take_round fuel added bs pq' out ab) as [[[bs2 pq2] out2] ab2]. destruct IH as [HM2 _]; [by apply HM|].
    split; [by eapply moved_trans|]. intros _ _ _. destruct HM2 as (_ & _ & _ & _ & HW2). lia.
  - assert (k ∈ pq ++ ab) as Hin by (rewrite HPa; by left). destruct (moved_out bs k (pq ++ ab) out pr q Hnd Hin Hk) as [HM HW].
    assert (pq' ++ k :: ab ≡ₚ pq ++ ab) as HPb by (rewrite HPa; solve_Permutation).
    specialize (IH (S added) (<[k := q]> bs) pq' (out ++ [pr.2]) (k :: ab)).
    destruct (take_round fuel (S added) (<[k := q]> bs) pq' (out ++ [pr.2]) (k :: ab)) as [[[bs2 pq2] out2] ab2].
    destruct IH as [HM2 _]; [by rewrite HPb|]. pose proof (moved_refl (<[k := q]> bs) (pq ++ ab) (pq' ++ k :: ab) (out ++ [pr.2]) Hnd HPb) as HM1.
    split; [eapply moved_trans; [exact HM|]; by eapply moved_trans|]. intros _ _ _. destruct HM1 as (_ & _ & _ & _ & HW1). destruct HM2 as (_ & _ & _ & _ & HW2). lia.
Qed.

Lemma order_thread_spec fuel bs pq out : NoDup pq → (weight bs pq ≤ fuel)%nat →
  ∃ bs' out', order_thread fuel bs pq out = Ok (bs', out') ∧ out ++ contents bs pq ≡ₚ out' ∧ ∀ k, k ∉ pq → bucket bs' k = bucket bs k.
Proof.
  revert bs pq out. induction fuel as [|fuel IH]; intros bs [|k0 pq0] out Hnd Hw; try (exists bs, out; split_and!; [done|by rewrite app_nil_r|done]).
  { unfold weight in Hw. cbn in Hw. lia. }
  cbn [order_thread]. set (pq := k0 :: pq0) in *. pose proof (take_round_spec (length pq) 0 bs pq out []) as HT.
  destruct (take_round (length pq) 0 bs pq out []) as [[[bs1 pq1] out1] ab1]. rewrite app_nil_r in HT. destruct HT as [(H1 & H2 & H3 & H4 & _) HW]; [done|].
  assert (rev ab1 ++ pq1 ≡ₚ pq1 ++ ab1) as HP by (rewrite <-(Permutation_rev ab1); solve_Permutation).
  destruct (IH bs1 (rev ab1 ++ pq1) out1) as (bs' & out' & -> & HP' & Hk').
  - by rewrite HP.
  - specialize (HW ltac:(done) ltac:(done) ltac:(vm_compute; lia)). unfold weight in *. rewrite HP. lia.
  - exists bs', out'. split_and!; [done| |]. { by rewrite H3, <-HP, HP'. }
    intros k Hk. rewrite Hk', H4; [done|done|]. rewrite HP. intros Hin. by apply Hk, H2.
Qed.
End order.

(** A list cut by the value of [f]. *)
Lemma partition_by {A} (f : A → nat) n l : (∀ x, x ∈ l → (f x < n)%nat) →
  concat ((λ t, filter (λ x, f x = t) l) <$> seq 0 n) ≡ₚ l.
Proof.
  intros Hf. assert (∀ m, concat ((λ t, filter (λ x, f x = t) l) <$> seq 0 m) ≡ₚ filter (λ x, f x < m)%nat l) as H.
  { induction m as [|m IH].
    - cbn. clear. induction l as [|x l IH]; [done|]. rewrite filter_cons, decide_False by lia. done.
    - rewrite seq_S, fmap_app, concat_app, IH. cbn. rewrite app_nil_r. clear. induction l as [|x l IH]; [done|]. rewrite !filter_cons.
      destruct (decide (f x = m)) as [E|E], (decide (f x < m)%nat), (decide (f x < S m)%nat); try lia; [rewrite <-IH; solve_Permutation|cbn; by rewrite IH|done]. }
  rewrite H. clear H. induction l as [|x l IH]; [done|]. rewrite filter_cons, decide_True by (apply Hf; by left). constructor. apply IH. intros y Hy. apply Hf. by right.
Qed.

Lemma thread_of_lt k : (thread_of k < N_THREADS)%nat.
Proof. unfold thread_of. pose proof (Z.mod_pos_bound (hash_key k) (Z.of_nat N_THREADS)). unfold N_THREADS in *. lia. Qed.

Lemma order_all_spec `{HeapOk : MaxHeapOk} txns :
  ∃ queues, order_all txns = Ok queues ∧ length queues = N_THREADS ∧ concat queues ≡ₚ txns.*2.
Proof.
  unfold order_all. set (bs := fill_buckets txns). set (fuel := S (length txns + size bs)). set (ks := (map_to_list bs).*1).
  assert (NoDup ks) as Hnd by apply NoDup_fst_map_to_list.
  assert (contents bs ks ≡ₚ txns.*2) as Hall.
  { apply fill_buckets_contents; [done|]. intros pr Hpr. unfold ks. rewrite list_elem_of_fmap. assert (bucket_key pr ∈ dom bs) as Hd.
    { apply fill_buckets_keys, list_elem_of_fmap. by exists pr. }
    apply elem_of_dom in Hd as [q Hq]. exists (bucket_key pr, q). split; [done|]. by apply elem_of_map_to_list. }
  assert (∀ t, NoDup (thread_keys bs t)) as Hkeys by (intros t; by apply NoDup_filter).
  assert (∀ t k, k ∈ thread_keys bs t → thread_of k = t) as Hthread by (intros t k; unfold thread_keys; rewrite list_elem_of_filter; by intros []).
  destruct (ofold_total (λ pre st, length st.2 = length pre ∧ concat st.2 ≡ₚ contents bs (concat (thread_keys bs <$> pre))
    ∧ ∀ k, thread_of k ∉ pre → bucket st.1 k = bucket bs k) (order_one fuel (thread_keys bs)) (seq 0 N_THREADS) (bs, [])) as (st & Hst & Hlen & HP & _).
  - done.
  - intros pre t post st Hseq (Hlen & HP & Hk). unfold order_one.
    assert (t ∉ pre) as Ht. { pose proof (NoDup_seq 0 N_THREADS) as Hn. rewrite Hseq in Hn. apply NoDup_app in Hn as (_ & Hn & _). intros Hin. apply (Hn t Hin). by left. }
    assert (contents st.1 (thread_keys bs t) = contents bs (thread_keys bs t)) as Hc.
    { apply contents_ext. intros k Hin. apply Hk. by rewrite (Hthread _ _ Hin). }
    destruct (order_thread_spec fuel st.1 (thread_keys bs t) []) as (bs' & out & HO & HPo & Hko); [done| |].
    { unfold weight, fuel. rewrite Hc. assert (thread_keys bs t ++ filter (λ k, thread_of k ≠ t) ks ≡ₚ ks) as Hpart by apply filter_app_complement.
      pose proof (Permutation_length Hall) as Hl. rewrite length_fmap, <-Hpart, contents_app, length_app in Hl.
      pose proof (Permutation_length Hpart) as Hl2. rewrite length_app in Hl2. assert (length ks = size bs) as Hks by (unfold ks; by rewrite length_fmap, length_map_to_list). unfold pair_t, txn_t in *. lia. }
    rewrite HO. cbn [mbind outcome_bind]. eexists. split; [reflexivity|]. cbn [fst snd]. split_and!.
    + rewrite !length_app. cbn. lia.
    + rewrite concat_app, fmap_app, concat_app, contents_app, HP. cbn. rewrite !app_nil_r, <-HPo, Hc. done.
    + intros k Hni. rewrite Hko, Hk; [done|set_solver|]. intros Hin%Hthread. subst t. set_solver.
  - rewrite Hst. cbn [mbind outcome_bind]. exists st.2. split_and!; [done|by rewrite Hlen, length_seq|]. rewrite HP, <-Hall. apply contents_perm. unfold thread_keys. fold ks.
    apply (partition_by thread_of). intros k _. apply thread_of_lt.
Qed.

(** ** A mini-batch *)

Definition trues (l : list bool) : nat := length (filter (λ b, b = true) l).

Lemma trues_all l : (∀ t, (t < length l)%nat → l !! t = Some true) → trues l = length l.
Proof.
  intros H. assert (l = replicate (length l) true) as E.
  { apply list_eq. intros i. destruct (decide (i < length l)%nat) as [Hi|Hi]; [rewrite H by done; by rewrite lookup_replicate_2|].
    rewrite !lookup_ge_None_2; [done|rewrite length_replicate; lia|lia]. }
  rewrite E at 1. clear. unfold trues. induction (length l) as [|n IH]; [done|]. cbn [replicate]. rewrite filter_cons, decide_True by done. cbn. by rewrite IH.
Qed.

Lemma trues_set l t : l !! t = Some false → trues (<[t := true]> l) = S (trues l).
Proof.
  intros H. rewrite <-(take_drop_middle l t false H) at 2. rewrite insert_take_drop by (by eapply lookup_lt_Some). unfold trues.
  rewrite !filter_app, !filter_cons, decide_True, decide_False by done. rewrite !length_app. cbn. lia.
Qed.

Record ph_ok (p : phase) : Prop := {
  ok_quick : length (quick_considered p) = N_THREADS;
  ok_considered : length (considered p) = N_THREADS;
  ok_batch : length (batch_size p) = N_THREADS;
  ok_done : length (ph_done p) = N_THREADS;
  ok_queues : length (ph_queues p) = N_THREADS;
  ok_ct : done_ct p = trues (ph_done p);
  ok_sorted : StronglySorted no_common (executed p);
  ok_locks : ∀ c k, c ∈ executed p → k ∈ c → k ∈ ph_locks p;
}.

(** Everything but the flags is the same. *)
Definition with_done (l : list bool) (n : nat) (p : phase) : phase :=
  MkPhase (ph_locks p) (ph_bits p) (quick_considered p) (considered p) (batch_size p) l n (ph_queues p) (executed p).

Lemma set_done_spec t p : ph_ok p → (t < N_THREADS)%nat →
  ∃ l n, set_done t p = Ok (with_done l n p) ∧ ph_ok (with_done l n p) ∧ l !! t = Some true
    ∧ ∀ u, ph_done p !! u = Some true → l !! u = Some true.
Proof.
  intros Hok Ht. unfold set_done. destruct (lookup_lt_is_Some_2 (ph_done p) t) as [d Hd]; [by rewrite (ok_done _ Hok)|].
  unfold aget. rewrite Hd. cbn [mbind outcome_bind]. destruct d.
  - exists (ph_done p), (done_ct p). split_and!; [by destruct p|by destruct p|done|done].
  - rewrite aset_lt by (by rewrite (ok_done _ Hok)). cbn [mbind outcome_bind]. exists (<[t := true]> (ph_done p)), (S (done_ct p)). split_and!; [done| | |].
    + destruct Hok. constructor; try done; [cbn [with_done ph_done]; by rewrite length_insert|]. cbn [with_done done_ct ph_done]. rewrite trues_set by done. congruence.
    + apply list_lookup_insert_eq. by rewrite (ok_done _ Hok).
    + intros u Hu. destruct (decide (u = t)) as [->|Hne]; [by rewrite Hd in Hu|]. by rewrite list_lookup_insert_ne.
Qed.

(** The body of the loop, for thread [t]. *)
Record visited (t : nat) (p p' : phase) : Prop := {
  v_ok : ph_ok p';
  v_perm : concat (ph_queues p') ++ executed p' ≡ₚ concat (ph_queues p) ++ executed p;
  v_exec : executed p `prefix_of` executed p';
  v_done : ∀ u, ph_done p !! u = Some true → ph_done p' !! u = Some true;
  v_quick : ∀ u, u ≠ t → quick_considered p' !! u = quick_considered p !! u;
  v_turn : ph_done p' !! t = Some true
    ∨ ∃ x, quick_considered p !! t = Some x ∧ quick_considered p' !! t = Some (S x) ∧ (S x < 2 * BATCH_TGT / N_THREADS)%nat;
}.

(** A thread that is done after its turn. *)
Lemma visited_done t p p' : (t < N_THREADS)%nat → ph_ok p' →
  concat (ph_queues p') ++ executed p' ≡ₚ concat (ph_queues p) ++ executed p → executed p `prefix_of` executed p' → ph_done p' = ph_done p →
  (∀ u, u ≠ t → quick_considered p' !! u = quick_considered p !! u) →
  ∃ p'', set_done t p' = Ok p'' ∧ visited t p p''.
Proof.
  intros Ht Hok HP He Hd Hq. destruct (set_done_spec t p' Hok Ht) as (l & n & -> & Hok' & Hl & Hmono). eexists. split; [reflexivity|].
  rewrite Hd in Hmono. constructor; try done. by left.
Qed.

(** A thread whose turn counts. *)
Lemma visited_turn t p p' x : ph_ok p' → concat (ph_queues p') ++ executed p' ≡ₚ concat (ph_queues p) ++ executed p → executed p `prefix_of` executed p' →
  ph_done p' = ph_done p → quick_considered p !! t = Some x → quick_considered p' = <[t := S x]> (quick_considered p) →
  (S x < 2 * BATCH_TGT / N_THREADS)%nat → visited t p p'.
Proof.
  intros Hok HP He Hd Hx Hq Hlt. pose proof (lookup_lt_Some _ _ _ Hx). constructor; try done; rewrite ?Hd, ?Hq; try done.
  - intros u Hu. by rewrite list_lookup_insert_ne.
  - right. exists x. rewrite list_lookup_insert_eq by done. done.
Qed.

Lemma finish_turn t p p2 x : (t < N_THREADS)%nat → ph_ok p2 →
  concat (ph_queues p2) ++ executed p2 ≡ₚ concat (ph_queues p) ++ executed p → executed p `prefix_of` executed p2 → ph_done p2 = ph_done p →
  quick_considered p !! t = Some x → quick_considered p2 = <[t := S x]> (quick_considered p) → (S x < 2 * BATCH_TGT / N_THREADS)%nat →
  ∃ p', (c ← aget (considered p2) t; cl ← aset (considered p2) t (S c);
         if bool_decide (2 * BATCH_TGT / N_THREADS ≤ S c)%nat then set_done t (set_considered cl p2) else Ok (set_considered cl p2)) = Ok p'
    ∧ visited t p p'.
Proof.
  intros Ht Hok HP He Hd Hx Hq Hlt. destruct (lookup_lt_is_Some_2 (considered p2) t) as [c Hc]; [by rewrite (ok_considered _ Hok)|].
  unfold aget. rewrite Hc. cbn [mbind outcome_bind]. rewrite aset_lt by (by eapply lookup_lt_Some). cbn [mbind outcome_bind].
  assert (ph_ok (set_considered (<[t := S c]> (considered p2)) p2)) as Hok'.
  { destruct Hok. constructor; try done. cbn [set_considered considered]. by rewrite length_insert. }
  case_bool_decide.
  - apply visited_done; try done. intros u Hu. cbn [set_considered quick_considered]. by rewrite Hq, list_lookup_insert_ne.
  - eexists. split; [reflexivity|]. by eapply visited_turn.
Qed.

Lemma ok_rotate t p q txn : ph_ok p → ph_queues p !! t = Some (txn :: q) →
  ph_ok (set_queue (<[t := q ++ [txn]]> (ph_queues p)) p) ∧ concat (<[t := q ++ [txn]]> (ph_queues p)) ≡ₚ concat (ph_queues p).
Proof.
  intros Hok Hq. split; [destruct Hok; constructor; try done; cbn [set_queue ph_queues]; by rewrite length_insert|].
  apply (Permutation_app_inv_l (txn :: q)). rewrite (Permutation_app_comm (txn :: q)), (concat_insert_perm _ _ _ _ Hq). solve_Permutation.
Qed.

Lemma run_front_spec t p q txn : ph_ok p → (t < N_THREADS)%nat → ph_queues p !! t = Some (txn :: q) → conflicts (ph_locks p) txn = 0%nat →
  ∃ p', run_front t txn (set_queue (<[t := q]> (ph_queues p)) p) = Ok p' ∧ ph_ok p'
    ∧ concat (ph_queues p') ++ executed p' ≡ₚ concat (ph_queues p) ++ executed p
    ∧ executed p' = executed p ++ [txn] ∧ ph_done p' = ph_done p ∧ quick_considered p' = quick_considered p.
Proof.
  intros Hok Ht Hq Hc. unfold run_front. cbn [set_queue batch_size]. destruct (lookup_lt_is_Some_2 (batch_size p) t) as [b Hb]; [by rewrite (ok_batch _ Hok)|].
  unfold aget. rewrite Hb. cbn [mbind outcome_bind]. rewrite aset_lt by (by eapply lookup_lt_Some). cbn [mbind outcome_bind].
  eexists. split; [reflexivity|]. rewrite conflicts_zero in Hc. split; [|split; [|done]].
  - destruct Hok. constructor; cbn [quick_considered considered batch_size ph_done ph_queues done_ct executed ph_locks set_queue]; rewrite ?length_insert; try done.
    + apply StronglySorted_app_2; [|done|repeat constructor]. intros a b' Ha Hb'%list_elem_of_singleton k Hk Hkc. subst b'. by apply (Hc k Hkc), (ok_locks0 a).
    + intros a k [Ha|Ha%list_elem_of_singleton]%elem_of_app Hk; [apply elem_of_union; right; by eapply ok_locks0|]. subst a. apply elem_of_union. left. by apply elem_of_list_to_set.
  - cbn [ph_queues executed set_queue]. pose proof (concat_insert_perm (ph_queues p) t _ q Hq) as HP.
    apply (Permutation_app_inv_l q). transitivity ((concat (<[t := q]> (ph_queues p)) ++ txn :: q) ++ executed p); [solve_Permutation|]. rewrite HP. solve_Permutation.
Qed.

Lemma visit_spec p t : ph_ok p → (t < N_THREADS)%nat → ∃ p', visit p t = Ok p' ∧ visited t p p'.
Proof.
  intros Hok Ht. unfold visit. destruct (lookup_lt_is_Some_2 (ph_queues p) t) as [q Hq]; [by rewrite (ok_queues _ Hok)|].
  destruct (lookup_lt_is_Some_2 (batch_size p) t) as [b Hb]; [by rewrite (ok_batch _ Hok)|]. destruct (lookup_lt_is_Some_2 (quick_considered p) t) as [x Hx]; [by rewrite (ok_quick _ Hok)|].
  rewrite (aget_some _ _ _ Hq). cbn [mbind outcome_bind]. rewrite (aget_some _ _ _ Hb). cbn [mbind outcome_bind].
  destruct q as [|txn q]; [by apply visited_done|]. destruct (bool_decide (BATCH_TGT / N_THREADS ≤ b)%nat); [by apply visited_done|].
  rewrite (aget_some _ _ _ Hx). cbn [mbind outcome_bind]. rewrite aset_lt by (by eapply lookup_lt_Some). cbn [mbind outcome_bind].
  set (p1 := set_quick (<[t := S x]> (quick_considered p)) p).
  assert (ph_ok p1) as Hok1 by (destruct Hok; constructor; try done; cbn [p1 set_quick quick_considered]; by rewrite length_insert).
  destruct (bool_decide (2 * BATCH_TGT / N_THREADS ≤ S x)%nat) eqn:Hlim.
  { apply visited_done; try done. intros u Hu. cbn [p1 set_quick quick_considered]. by rewrite list_lookup_insert_ne. }
  apply bool_decide_eq_false in Hlim. apply Nat.nle_gt in Hlim. assert (ph_queues p1 !! t = Some (txn :: q)) as Hq1 by done.
  destruct (ok_rotate t p1 q txn Hok1 Hq1) as [Hokr HPr]. assert (t < length (ph_queues p1))%nat as Hlt by (by eapply lookup_lt_Some).
  destruct (match txn with k :: _ => bool_decide (slot_of k ∈ ph_bits p1) | [] => false end).
  { rewrite aset_lt by done. cbn [mbind outcome_bind]. eexists. split; [reflexivity|]. eapply visited_turn; try done. by rewrite HPr. }
  destruct (bool_decide (0 < conflicts (ph_locks p1) txn)%nat) eqn:Hc.
  { rewrite aset_lt by done. cbn [mbind outcome_bind]. eapply finish_turn; try done. by rewrite HPr. }
  apply bool_decide_eq_false in Hc. rewrite aset_lt by done. cbn [mbind outcome_bind].
  destruct (run_front_spec t p1 q txn) as (p2 & -> & Hok2 & HP2 & He & Hd & Hq2); [done|done|done|lia|]. cbn [mbind outcome_bind].
  eapply finish_turn; try done. rewrite He. by apply prefix_app_r.
Qed.

(** ** Rounds *)

(** After [r] rounds every thread is done or has been looked at [r] times. *)
Definition in_round (r : nat) (p : phase) (t : nat) : Prop :=
  ph_done p !! t = Some true ∨ ∃ x, quick_considered p !! t = Some x ∧ (r ≤ x < 2 * BATCH_TGT / N_THREADS)%nat.

(** What rounds keep. *)
Record advanced (p p' : phase) : Prop := {
  a_ok : ph_ok p';
  a_perm : concat (ph_queues p') ++ executed p' ≡ₚ concat (ph_queues p) ++ executed p;
  a_exec : executed p `prefix_of` executed p';
}.

Lemma advanced_trans p1 p2 p3 : advanced p1 p2 → advanced p2 p3 → advanced p1 p3.
Proof. intros [] []. constructor; [done|by etrans|by etrans]. Qed.

Lemma round_spec r p : ph_ok p → (∀ t, (t < N_THREADS)%nat → in_round r p t) →
  ∃ p', ofold visit (seq 0 N_THREADS) p = Ok p' ∧ advanced p p' ∧ ∀ t, (t < N_THREADS)%nat → in_round (S r) p' t.
Proof.
  intros Hok Hin.
  destruct (ofold_total (λ pre p', advanced p p' ∧ ∀ t, (t < N_THREADS)%nat → in_round (if decide (t < length pre)%nat then S r else r) p' t) visit (seq 0 N_THREADS) p)
    as (p' & H & HA & HR).
  - split; [by constructor|]. intros t Ht. rewrite decide_False by (cbn; lia). by apply Hin.
  - intros pre t post p1 Hseq [HA HR]. destruct (seq_cut _ _ _ _ _ Hseq) as (_ & Ht & Hlt). rewrite Nat.add_0_l in Ht. rewrite <-Ht in *.
    destruct (visit_spec p1 t (a_ok _ _ HA) Hlt) as (p2 & H2 & HV). exists p2. split; [done|]. split.
    + eapply advanced_trans; [exact HA|]. destruct HV. by constructor.
    + rewrite length_app, <-Ht. cbn [length]. intros u Hu. destruct (decide (u = t)) as [->|Hne].
      * rewrite decide_True by lia. destruct (v_turn _ _ _ HV) as [Hd|(x & Hx & Hx' & Hlt')]; [by left|].
        specialize (HR t Hlt). rewrite decide_False in HR by lia. destruct HR as [Hd|(y & Hy & Hr)]; [left; by apply (v_done _ _ _ HV)|].
        right. exists (S x). simplify_eq. split; [done|]. lia.
      * specialize (HR u Hu). assert ((if decide (u < t + 1)%nat then S r else r) = (if decide (u < t)%nat then S r else r)) as ->.
        { destruct (decide (u < t)%nat); [by rewrite decide_True by lia|by rewrite decide_False by lia]. }
        destruct HR as [Hd|(y & Hy & Hr)]; [left; by apply (v_done _ _ _ HV)|]. right. exists y. by rewrite (v_quick _ _ _ HV).
  - exists p'. split_and!; [done|done|]. intros t Ht. specialize (HR t Ht). by rewrite length_seq, decide_True in HR by done.
Qed.

Lemma run_phase_spec fuel r p : ph_ok p → (∀ t, (t < N_THREADS)%nat → in_round r p t) → (2 * BATCH_TGT / N_THREADS ≤ r + fuel)%nat →
  ∃ p', run_phase fuel p = Ok p' ∧ advanced p p'.
Proof.
  revert r p. induction fuel as [|fuel IH]; intros r p Hok Hin Hf; cbn [run_phase].
  - rewrite bool_decide_eq_false_2; [exists p; split; [done|by constructor]|]. rewrite (ok_ct _ Hok). rewrite trues_all, (ok_done _ Hok); [lia|].
    intros t Ht. destruct (Hin t) as [Hd|(x & _ & Hx)]; [by rewrite <-(ok_done _ Hok)|done|lia].
  - destruct (bool_decide (done_ct p < N_THREADS)%nat); [|exists p; split; [done|by constructor]].
    destruct (round_spec r p Hok Hin) as (p1 & -> & HA & HR). cbn [mbind outcome_bind].
    destruct (IH (S r) p1) as (p2 & H2 & HA2); [apply HA|done|lia|]. exists p2. split; [done|]. by eapply advanced_trans.
Qed.

(** ** Progress *)

Lemma visit_fresh p t txn q : ph_ok p → (t < N_THREADS)%nat → ph_queues p !! t = Some (txn :: q) → ph_locks p = ∅ → ph_bits p = ∅ →
  quick_considered p !! t = Some 0%nat → batch_size p !! t = Some 0%nat → ∃ p', visit p t = Ok p' ∧ executed p' = executed p ++ [txn].
Proof.
  intros Hok Ht Hq Hl Hbits Hx Hb. unfold visit. rewrite (aget_some _ _ _ Hq). cbn [mbind outcome_bind]. rewrite (aget_some _ _ _ Hb). cbn [mbind outcome_bind].
  rewrite bool_decide_eq_false_2 by (vm_compute; lia). rewrite (aget_some _ _ _ Hx). cbn [mbind outcome_bind]. rewrite aset_lt by (by eapply lookup_lt_Some). cbn [mbind outcome_bind].
  rewrite bool_decide_eq_false_2 by (vm_compute; lia). set (p1 := set_quick (<[t := 1%nat]> (quick_considered p)) p).
  assert (ph_ok p1) as Hok1 by (destruct Hok; constructor; try done; cbn [p1 set_quick quick_considered]; by rewrite length_insert).
  assert (match txn with k :: _ => bool_decide (slot_of k ∈ ph_bits p1) | [] => false end = false) as ->.
  { destruct txn; [done|]. apply bool_decide_eq_false. cbn [p1 set_quick ph_bits]. rewrite Hbits. apply not_elem_of_empty. }
  assert (conflicts (ph_locks p1) txn = 0%nat) as Hc by (apply conflicts_zero; intros k _; cbn [p1 set_quick ph_locks]; rewrite Hl; apply not_elem_of_empty).
  rewrite bool_decide_eq_false_2 by lia. rewrite aset_lt by (by eapply lookup_lt_Some). cbn [mbind outcome_bind].
  destruct (run_front_spec t p1 q txn) as (p2 & -> & Hok2 & _ & He & _); [done..|]. cbn [mbind outcome_bind].
  destruct (lookup_lt_is_Some_2 (considered p2) t) as [c Hcc]; [by rewrite (ok_considered _ Hok2)|]. rewrite (aget_some _ _ _ Hcc). cbn [mbind outcome_bind].
  rewrite aset_lt by (by eapply lookup_lt_Some). cbn [mbind outcome_bind]. set (p3 := set_considered _ p2).
  assert (ph_ok p3) as Hok3 by (destruct Hok2; constructor; try done; cbn [p3 set_considered considered]; by rewrite length_insert).
  destruct (bool_decide _); [|by exists p3]. destruct (set_done_spec t p3 Hok3 Ht) as (l & n & -> & _). by eexists.
Qed.

Lemma first_round qs p' : length qs = N_THREADS → ofold visit (seq 0 N_THREADS) (phase_make qs) = Ok p' → concat qs ≠ [] → executed p' ≠ [].
Proof.
  intros Hlen H Hne.
  assert (ph_ok (phase_make qs)) as Hok0 by (constructor; try done; [by apply SSorted_nil|by intros ?? ?%not_elem_of_nil]).
  pose proof (ofold_inv (λ pre p, ph_ok p ∧ (executed p = [] → ph_locks p = ∅ ∧ ph_bits p = ∅ ∧ ph_queues p = qs
    ∧ quick_considered p = replicate N_THREADS 0%nat ∧ batch_size p = replicate N_THREADS 0%nat ∧ ∀ t, (t < length pre)%nat → qs !! t = Some [])) visit
    (seq 0 N_THREADS) (phase_make qs) p') as HI.
  destruct HI as [_ HI]; [|  |done|].
  - split; [done|]. intros _. split_and!; try done. intros t Ht. cbn in Ht. lia.
  - intros pre t post p1 p2 Hseq [Hok1 HI] H2. destruct (seq_cut _ _ _ _ _ Hseq) as (_ & Ht & Hlt). rewrite Nat.add_0_l in Ht. rewrite <-Ht in *.
    destruct (visit_spec p1 t Hok1 Hlt) as (p2' & H2' & HV). rewrite H2 in H2'. injection H2' as <-. split; [apply HV|]. intros He.
    assert (executed p1 = []) as He1 by (pose proof (v_exec _ _ _ HV) as Hp; rewrite He in Hp; by apply prefix_nil_inv in Hp).
    destruct (HI He1) as (Hl & Hb & Hq & Hx & Hbs & Hpre). destruct (lookup_lt_is_Some_2 qs t) as [q Hqt]; [lia|]. destruct q as [|txn q].
    + unfold visit in H2. rewrite Hq, (aget_some _ _ _ Hqt) in H2. cbn [mbind outcome_bind] in H2. rewrite Hbs in H2.
      rewrite (aget_some (replicate N_THREADS 0%nat) t 0%nat) in H2 by (by apply lookup_replicate_2). cbn [mbind outcome_bind] in H2.
      destruct (set_done_spec t p1 Hok1 Hlt) as (l & n & E & _). rewrite E in H2. injection H2 as <-. split_and!; try done. rewrite length_app, <-Ht. cbn [length].
      intros u Hu. destruct (decide (u = t)) as [->|]; [done|]. apply Hpre. lia.
    + exfalso. destruct (visit_fresh p1 t txn q) as (p3 & E & Hex); try done; [by rewrite Hq|rewrite Hx; by apply lookup_replicate_2|rewrite Hbs; by apply lookup_replicate_2|].
      rewrite H2 in E. injection E as ->. rewrite He, He1 in Hex. done.
  - intros He. destruct (HI He) as (_ & _ & _ & _ & _ & Hall). rewrite length_seq in Hall. apply Hne. apply concat_nil_Forall, Forall_lookup. intros t q Hq.
    pose proof (lookup_lt_Some _ _ _ Hq) as Hlt. rewrite Hall in Hq by lia. by simplify_eq.
Qed.

Lemma run_phases_spec fuel total n qs : length qs = N_THREADS → (total + length (concat qs) = n)%nat → (n ≤ total + fuel)%nat →
  ∃ phs, run_phases fuel total n qs = Ok phs ∧ concat phs ≡ₚ concat qs ∧ Forall (λ b, b ≠ [] ∧ StronglySorted no_common b) phs.
Proof.
  revert total qs. induction fuel as [|fuel IH]; intros total qs Hlen Hn Hf; cbn [run_phases].
  - rewrite bool_decide_eq_false_2 by lia. exists []. split_and!; [done| |done]. destruct (concat qs); [done|cbn in Hn; lia].
  - destruct (bool_decide (total < n)%nat) eqn:Hb.
    2:{ apply bool_decide_eq_false in Hb. exists []. split_and!; [done| |done]. destruct (concat qs); [done|cbn in Hn; lia]. }
    apply bool_decide_eq_true in Hb. assert (concat qs ≠ []) as Hne by (intros E; rewrite E in Hn; cbn in Hn; lia).
    assert (ph_ok (phase_make qs)) as Hok0 by (constructor; try done; [by apply SSorted_nil|by intros ?? ?%not_elem_of_nil]).
    assert (∀ t, (t < N_THREADS)%nat → in_round 0 (phase_make qs) t) as Hin0.
    { intros t Ht. right. exists 0%nat. split; [by apply lookup_replicate_2|]. vm_compute. lia. }
    assert (∃ p, run_phase (S (2 * BATCH_TGT / N_THREADS)) (phase_make qs) = Ok p ∧ advanced (phase_make qs) p ∧ executed p ≠ []) as (p & -> & HA & He).
    { cbn [run_phase]. rewrite bool_decide_eq_true_2 by (vm_compute; lia). destruct (round_spec 0 _ Hok0 Hin0) as (p1 & H1 & HA1 & HR1). rewrite H1. cbn [mbind outcome_bind].
      destruct (run_phase_spec (2 * BATCH_TGT / N_THREADS) 1 p1) as (p2 & H2 & HA2); [apply HA1|done|lia|]. exists p2. split_and!; [done|by eapply advanced_trans|].
      pose proof (first_round qs p1 Hlen H1 Hne) as Hne1. destruct (a_exec _ _ HA2) as [k Hk]. rewrite Hk. by destruct (executed p1). }
    cbn [mbind outcome_bind]. pose proof (a_perm _ _ HA) as HP. cbn [phase_make ph_queues executed] in HP. rewrite app_nil_r in HP.
    pose proof (Permutation_length HP) as Hl. rewrite length_app in Hl. assert (length (executed p) ≠ 0%nat) as Hpos by (by destruct (executed p)).
    destruct (IH (total + length (executed p))%nat (ph_queues p)) as (phs & -> & HPs & Hphs); [apply (ok_queues _ (a_ok _ _ HA))|lia|lia|].
    cbn [mbind outcome_bind]. eexists. split; [reflexivity|]. split.
    + cbn [concat]. rewrite HPs, <-HP. solve_Permutation.
    + constructor; [|done]. split; [done|]. apply (ok_sorted _ (a_ok _ _ HA)).
Qed.

(** ** The program *)

(** C30: the batching program of my_batching.cpp terminates without failing an
    assertion, whatever heap it uses: every transaction is executed in exactly
    one mini-batch (its keys in the order of their frequency), no mini-batch is
    empty, and the transactions of a mini-batch have no key in common. *)
Theorem my_batching_executes `{HeapOk : MaxHeapOk} txns :
  ∃ phs cold, my_batching_main txns = Ok phs ∧ Forall2 (≡ₚ) cold txns.*2 ∧ concat phs ≡ₚ cold
    ∧ Forall (λ b, b ≠ [] ∧ StronglySorted no_common b) phs.
Proof.
  unfold my_batching_main. destruct (prepare_cold_spec txns) as (txns' & -> & HF). cbn [mbind outcome_bind].
  destruct (order_all_spec txns') as (qs & -> & Hlen & HP). cbn [mbind outcome_bind].
  assert (length (concat qs) = length txns) as Hl. { rewrite HP, length_fmap. symmetry. by eapply Forall2_length. }
  destruct (run_phases_spec (length txns) 0 (length txns) qs) as (phs & -> & HPs & Hphs); [done|lia|lia|].
  exists phs, txns'.*2. split_and!; [done| |by rewrite HPs|done]. clear -HF. induction HF as [|a b l l' [_ Hab] _ IH]; [constructor|]. by constructor.
Qed.

(** A heap: the first of the largest items. *)
#[global] Instance list_heap : MaxHeap := fix top size l :=
  match l with
  | [] => None
  | k :: l' =>
      match top size l' with
      | None => Some (k, [])
      | Some (k', l'') => if bool_decide (size k < size k')%nat then Some (k', k :: l'') else Some (k, l')
      end
  end.

#[global] Instance list_heap_ok : MaxHeapOk.
Proof.
  split; [done|]. intros size l Hne. induction l as [|k l IH]; [done|]. unfold pq_top in *. cbn [list_heap].
  destruct l as [|k2 l]; [exists k, []; split_and!; [done..|]; by intros k' ->%list_elem_of_singleton|]. destruct IH as (k' & l'' & -> & HP & Hmax); [done|].
  case_bool_decide as Hlt.
  - exists k', (k :: l''). split_and!; [done|rewrite HP; constructor|]. intros x [->|Hx]%elem_of_cons; [lia|by apply Hmax].
  - exists k, (k2 :: l). split_and!; [done|done|]. intros x [->|Hx]%elem_of_cons; [done|]. specialize (Hmax x Hx). lia.
Qed.

Definition bucket_demo : list pair_t := [([], [3; 5]); ([], [5]); ([9], [5; 4]); ([], [])].

Lemma my_batching_executes_witness :
  my_batching_main bucket_demo = Ok [[[]; [5; 4]]; [[5]]; [[5; 3]]]
  ∧ ∃ phs, my_batching_main bucket_demo = Ok phs ∧ Forall (λ b, b ≠ [] ∧ StronglySorted no_common b) phs.
Proof.
  split; [vm_compute; reflexivity|].
  destruct (my_batching_executes bucket_demo) as (phs & cold & H & _ & _ & Hphs). exists phs. split; [exact H|exact Hphs].
Defined.
