(* ===== verification/Spaced.v ===== *)
(** * Batching by spaced buckets

    [mine/fast_layout/lookahead_batching.cpp]: as my_batching.cpp, with one
    queue instead of one per thread.  A round over the buckets passes over a
    bucket whose key is the second key of a transaction that the round has
    taken; the queue is then executed in batches of [SPACED_TGT] attempts. *)
From stdpp Require Import base tactics list numbers gmap sorting.
From Stdlib Require Import ZArith Lia.
From S2P Require Import Prelude SimLayout Batching Buckets.

#[local] Open Scope Z_scope.

Definition SPACED_TGT : nat := 1000.

(** The transactions without cold keys go to [bucket_output] at once; the
    others to the queue of their first key. *)
Definition spread_one (st : list txn_t * gmap Z (list pair_t)) (pr : pair_t) : list txn_t * gmap Z (list pair_t) :=
  match pr.2 with
  | [] => (st.1 ++ [pr.2], st.2)
  | k :: _ => (st.1, <[k := bucket st.2 k ++ [pr]]> st.2)
  end.
Definition spread_all (txns : list pair_t) : list txn_t * gmap Z (list pair_t) := foldl spread_one ([], ∅) txns.

Section spaced.
Context `{MaxHeap}.

(** The loop [while (pq.size() > 0 && added < BATCH_TGT)]. *)
Fixpoint take_spaced (fuel added : nat) (bs : gmap Z (list pair_t)) (pq : list Z) (out : list txn_t) (add_back : list Z) (no_consider : gset Z)
  : gmap Z (list pair_t) * list Z * list txn_t * list Z :=
  match fuel with
  | O => (bs, pq, out, add_back)
  | S fuel' =>
      if bool_decide (added < SPACED_TGT)%nat then
        match pq_top (λ k, length (bucket bs k)) pq with
        | None => (bs, pq, out, add_back)
        | Some (k, pq') =>
            match bucket bs k with
            | [] => take_spaced fuel' added bs pq' out add_back no_consider
            | pr :: q =>
                if bool_decide (k ∈ no_consider) then take_spaced fuel' added bs pq' out (add_back ++ [k]) no_consider
                else take_spaced fuel' (S added) (<[k := q]> bs) pq' (out ++ [pr.2]) (add_back ++ [k])
                       (match pr.2 !! 1%nat with Some k2 => {[k2]} ∪ no_consider | None => no_consider end)
            end
        end
      else (bs, pq, out, add_back)
  end.

(** The loop [while (bucket_output.size() < txns.size())]. *)
Fixpoint spaced_order (fuel n : nat) (bs : gmap Z (list pair_t)) (pq add_back : list Z) (out : list txn_t) : outcome (list txn_t) :=
  if bool_decide (length out < n)%nat then
    match fuel with
    | O => Fail Spins
    | S fuel' =>
        let pq1 := rev add_back ++ pq in
        let '(bs', pq', out', add_back') := take_spaced (length pq1) 0 bs pq1 out [] ∅ in
        spaced_order fuel' n bs' pq' add_back' out'
    end
  else Ok out.
End spaced.

(** The loop [while (bucket_output.size() > 0 && considered < BATCH_TGT)]: the
    rest of the queue and the batch. *)
Fixpoint run_queue (fuel : nat) (locks : gset Z) (q : list txn_t) (batch : list txn_t) : list txn_t * list txn_t :=
  match fuel, q with
  | S fuel', txn :: q' =>
      if bool_decide (0 < conflicts locks txn)%nat then run_queue fuel' locks (q' ++ [txn]) batch
      else run_queue fuel' (list_to_set txn ∪ locks) q' (batch ++ [txn])
  | _, _ => (q, batch)
  end.

(** The loop [while (bucket_output.size() > 0)]. *)
Fixpoint run_batches (fuel : nat) (q : list txn_t) : outcome (list (list txn_t)) :=
  match q with
  | [] => Ok []
  | _ :: _ =>
      match fuel with
      | O => Fail Spins
      | S fuel' =>
          let '(q', batch) := run_queue SPACED_TGT ∅ q [] in
          rest ← run_batches fuel' q';
          Ok (batch :: rest)
      end
  end.

(** The program of lookahead_batching.cpp: the batches it executes. *)
Definition lookahead_batching_main `{MaxHeap} (txns : list pair_t) : outcome (list (list txn_t)) :=
  txns' ← prepare txns;
  let '(out, bs) := spread_all txns' in
  q ← spaced_order (S (length txns + size bs)) (length txns) bs (map_to_list bs).*1 [] out;
  run_batches (length q) q.

(** ** The order *)

Lemma contents_all bs : contents bs (map_to_list bs).*1 = concat ((λ kv, kv.2.*2) <$> map_to_list bs).
Proof.
  unfold contents. f_equal. rewrite <-list_fmap_compose. apply list_fmap_ext. intros i [k q] Hk. cbn. unfold bucket.
  by rewrite (proj1 (elem_of_map_to_list bs k q)) by (by eapply list_elem_of_lookup_2).
Qed.

Lemma contents_insert_all bs k q : contents (<[k := q]> bs) (map_to_list (<[k := q]> bs)).*1 ++ (bucket bs k).*2 ≡ₚ q.*2 ++ contents bs (map_to_list bs).*1.
Proof.
  rewrite !contents_all. rewrite <-insert_delete_eq, map_to_list_insert by apply lookup_delete_eq. cbn. unfold bucket.
  destruct (bs !! k) as [q0|] eqn:E.
  - rewrite <-(insert_id bs k q0 E) at 2. rewrite <-insert_delete_eq, (map_to_list_insert _ k q0) by apply lookup_delete_eq. cbn. solve_Permutation.
  - rewrite delete_id by done. cbn. by rewrite app_nil_r.
Qed.

Lemma spread_all_spec txns : (spread_all txns).1 ++ contents (spread_all txns).2 (map_to_list (spread_all txns).2).*1 ≡ₚ txns.*2.
Proof.
  unfold spread_all. apply (foldl_inv (λ pre st, st.1 ++ contents st.2 (map_to_list st.2).*1 ≡ₚ pre.*2)); [done|].
  intros pre pr post [out bs] _ IH. rewrite fmap_app. cbn [fst snd fmap list_fmap] in *. unfold spread_one. cbn [fst snd].
  destruct (pr.2) as [|k ops] eqn:E; cbn [fst snd].
  - rewrite <-IH. solve_Permutation.
  - rewrite <-IH. apply (Permutation_app_inv_l (bucket bs k).*2). pose proof (contents_insert_all bs k (bucket bs k ++ [pr])) as HP. rewrite fmap_app in HP. cbn in HP. rewrite E in HP.
    transitivity (out ++ (contents (<[k := bucket bs k ++ [pr]]> bs) (map_to_list (<[k := bucket bs k ++ [pr]]> bs)).*1 ++ (bucket bs k).*2)); [solve_Permutation|].
    rewrite HP. solve_Permutation.
Qed.

Section order.
Context `{HeapOk : MaxHeapOk}.

Lemma take_spaced_spec fuel added bs pq out ab nc : NoDup (pq ++ ab) →
  let '(bs', pq', out', ab') := take_spaced fuel added bs pq out ab nc in
  moved bs (pq ++ ab) out bs' (pq' ++ ab') out'
  ∧ (fuel ≠ 0%nat → pq ≠ [] → (added < SPACED_TGT)%nat → nc = ∅ → (weight bs' (pq' ++ ab') < weight bs (pq ++ ab))%nat).
Proof.
  revert added bs pq out ab nc. induction fuel as [|fuel IH]; intros added bs pq out ab nc Hnd; cbn [take_spaced]; [split; [by apply moved_refl|done]|].
  destruct (bool_decide (added < SPACED_TGT)%nat) eqn:Hadd; [|apply bool_decide_eq_false in Hadd; split; [by apply moved_refl|done]].
  destruct pq as [|k0 pq0]; [rewrite pq_top_nil; split; [by apply moved_refl|done]|]. set (pq := k0 :: pq0) in *.
  destruct (pq_top_some (λ k, length (bucket bs k)) pq) as (k & pq' & -> & HP & _); [done|].
  assert (pq ++ ab ≡ₚ k :: pq' ++ ab) as HPa by (by rewrite HP). assert (pq' ++ ab ++ [k] ≡ₚ pq ++ ab) as HPb by (rewrite HPa; solve_Permutation).
  destruct (bucket bs k) as [|pr q] eqn:Hk; [|destruct (bool_decide (k ∈ nc)) eqn:Hnc].
  - destruct (moved_drop bs k (pq ++ ab) (pq' ++ ab) out Hnd HPa Hk) as [HM HW]. specialize (IH added bs pq' out ab nc).
    destruct (take_spaced fuel added bs pq' out ab nc) as [[[bs2 pq2] out2] ab2]. destruct IH as [HM2 _]; [by apply HM|].
    split; [by eapply moved_trans|]. intros _ _ _ _. destruct HM2 as (_ & _ & _ & _ & HW2). lia.
  - pose proof (moved_refl bs (pq ++ ab) (pq' ++ ab ++ [k]) out Hnd HPb) as HM. specialize (IH added bs pq' out (ab ++ [k]) nc).
    destruct (take_spaced fuel added bs pq' out (ab ++ [k]) nc) as [[[bs2 pq2] out2] ab2]. destruct IH as [HM2 _]; [by rewrite HPb|].
    split; [by eapply moved_trans|]. intros _ _ _ ->. apply bool_decide_eq_true in Hnc. set_solver.
  - assert (k ∈ pq ++ ab) as Hin by (rewrite HPa; by left). destruct (moved_out bs k (pq ++ ab) out pr q Hnd Hin Hk) as [HM HW].
    pose proof (moved_refl (<[k := q]> bs) (pq ++ ab) (pq' ++ ab ++ [k]) (out ++ [pr.2]) Hnd HPb) as HM1.
    set (nc' := match pr.2 !! 1%nat with Some k2 => {[k2]} ∪ nc | None => nc end). specialize (IH (S added) (<[k := q]> bs) pq' (out ++ [pr.2]) (ab ++ [k]) nc').
    destruct (take_spaced fuel (S added) (<[k := q]> bs) pq' (out ++ [pr.2]) (ab ++ [k]) nc') as [[[bs2 pq2] out2] ab2].
    destruct IH as [HM2 _]; [by rewrite HPb|].
    split; [eapply moved_trans; [exact HM|]; by eapply moved_trans|]. intros _ _ _ _. destruct HM1 as (_ & _ & _ & _ & HW1). destruct HM2 as (_ & _ & _ & _ & HW2). lia.
Qed.

Lemma spaced_order_spec fuel n bs pq ab out : NoDup (pq ++ ab) → (length out + length (contents bs (pq ++ ab)) = n)%nat → (weight bs (pq ++ ab) ≤ fuel)%nat →
  ∃ q, spaced_order fuel n bs pq ab out = Ok q ∧ q ≡ₚ out ++ contents bs (pq ++ ab).
Proof.
  revert bs pq ab out. induction fuel as [|fuel IH]; intros bs pq ab out Hnd Hn Hw; cbn [spaced_order].
  all: destruct (bool_decide (length out < n)%nat) eqn:Hb; [apply bool_decide_eq_true in Hb|apply bool_decide_eq_false in Hb; exists out; split; [done|];
    destruct (contents bs (pq ++ ab)); [by rewrite app_nil_r|cbn in Hn; lia]].
  { unfold weight in Hw. lia. }
  assert (rev ab ++ pq ≡ₚ pq ++ ab) as HP by (rewrite <-(Permutation_rev ab); solve_Permutation).
  pose proof (take_spaced_spec (length (rev ab ++ pq)) 0 bs (rev ab ++ pq) out [] ∅) as HT. rewrite app_nil_r in HT.
  destruct (take_spaced (length (rev ab ++ pq)) 0 bs (rev ab ++ pq) out [] ∅) as [[[bs1 pq1] out1] ab1]. destruct HT as [(H1 & H2 & H3 & H4 & _) HW]; [by rewrite HP|].
  assert (rev ab ++ pq ≠ []) as Hne. { intros E. rewrite E in HP. apply Permutation_nil in HP. rewrite HP in Hn. cbn in Hn. lia. }
  assert (length (rev ab ++ pq) ≠ 0%nat) as Hne' by (by destruct (rev ab ++ pq)).
  specialize (HW Hne' Hne ltac:(unfold SPACED_TGT; lia) eq_refl). rewrite HP in H3. unfold weight in HW at 2. rewrite HP in HW. fold (weight bs (pq ++ ab)) in HW.
  destruct (IH bs1 pq1 ab1 out1) as (q & -> & HPq); [done| |lia|].
  - apply Permutation_length in H3. rewrite !length_app in H3. lia.
  - exists q. split; [done|]. by rewrite HPq, H3.
Qed.
End order.

(** ** The batches *)

Lemma run_queue_spec fuel locks q batch :
  StronglySorted no_common batch → (∀ c k, c ∈ batch → k ∈ c → k ∈ locks) →
  StronglySorted no_common (run_queue fuel locks q batch).2 ∧ q ++ batch ≡ₚ (run_queue fuel locks q batch).1 ++ (run_queue fuel locks q batch).2
  ∧ batch `prefix_of` (run_queue fuel locks q batch).2.
Proof.
  revert locks q batch. induction fuel as [|fuel IH]; intros locks q batch Hs Hl; cbn [run_queue]; [done|]. destruct q as [|txn q]; [done|].
  destruct (bool_decide (0 < conflicts locks txn)%nat) eqn:Hc.
  - destruct (IH locks (q ++ [txn]) batch Hs Hl) as (A & B & C). split_and!; [done| |done]. rewrite <-B. solve_Permutation.
  - apply bool_decide_eq_false in Hc. assert (conflicts locks txn = 0%nat) as Hc' by lia. rewrite conflicts_zero in Hc'.
    destruct (IH (list_to_set txn ∪ locks) q (batch ++ [txn])) as (A & B & C).
    + apply StronglySorted_app_2; [|done|repeat constructor]. intros a b Ha Hb%list_elem_of_singleton k Hk Hkc. subst b. by apply (Hc' k Hkc), (Hl a).
    + intros a k [Ha|Ha%list_elem_of_singleton]%elem_of_app Hk; [apply elem_of_union; right; by eapply Hl|]. subst a. apply elem_of_union. left. by apply elem_of_list_to_set.
    + split_and!; [done|rewrite <-B; solve_Permutation|]. etrans; [|exact C]. by apply prefix_app_r.
Qed.

Lemma run_batches_spec fuel q : (length q ≤ fuel)%nat →
  ∃ bs, run_batches fuel q = Ok bs ∧ concat bs ≡ₚ q ∧ Forall (λ b, b ≠ [] ∧ StronglySorted no_common b) bs.
Proof.
  revert q. induction fuel as [|fuel IH]; intros [|txn q] Hf; try (by exists []); cbn in Hf; [lia|]. cbn [run_batches].
  destruct (run_queue_spec SPACED_TGT ∅ (txn :: q) []) as (A & B & _); [by apply SSorted_nil|by intros ?? ?%not_elem_of_nil|].
  assert ((run_queue SPACED_TGT ∅ (txn :: q) []).2 ≠ []) as Hne.
  { assert (SPACED_TGT ≠ 0%nat) as Htgt by done. destruct SPACED_TGT as [|n]; [done|]. cbn [run_queue app]. rewrite bool_decide_eq_false_2.
    - destruct (run_queue_spec n (list_to_set txn ∪ ∅) q [txn]) as (_ & _ & [k ->]); [repeat constructor| |done].
      intros c k Hc%list_elem_of_singleton Hk. subst c. apply elem_of_union. left. by apply elem_of_list_to_set.
    - assert (conflicts ∅ txn = 0%nat) as -> by (apply conflicts_zero; intros k _; apply not_elem_of_empty). lia. }
  destruct (run_queue SPACED_TGT ∅ (txn :: q) []) as [q' batch]. cbn [fst snd] in *. rewrite app_nil_r in B.
  destruct (IH q') as (bs & -> & HP & Hbs). { apply Permutation_length in B. rewrite length_app in B. cbn in B. assert (length batch ≠ 0%nat) by (by destruct batch). lia. }
  cbn [mbind outcome_bind]. eexists. split; [reflexivity|]. split; [|by constructor]. cbn [concat]. rewrite HP, B. solve_Permutation.
Qed.

(** The batching program of lookahead_batching.cpp terminates without failing
    an assertion, whatever heap it uses, although a round may pass over buckets:
    every transaction is executed in exactly one batch (its keys in the order of
    their frequency), no batch is empty, and the transactions of a batch have no
    key in common. *)
Theorem lookahead_batching_executes `{HeapOk : MaxHeapOk} txns :
  ∃ bs cold, lookahead_batching_main txns = Ok bs ∧ Forall2 (≡ₚ) cold txns.*2 ∧ concat bs ≡ₚ cold
    ∧ Forall (λ b, b ≠ [] ∧ StronglySorted no_common b) bs.
Proof.
  unfold lookahead_batching_main. destruct (prepare_cold_spec txns) as (txns' & -> & HF). cbn [mbind outcome_bind].
  pose proof (spread_all_spec txns') as HS. destruct (spread_all txns') as [out bm]. cbn [fst snd] in HS.
  assert (length txns = length txns') as Hl by (by eapply Forall2_length).
  pose proof (Permutation_length HS) as Hlen. rewrite length_app, length_fmap in Hlen.
  destruct (spaced_order_spec (S (length txns + size bm)) (length txns) bm (map_to_list bm).*1 [] out) as (q & -> & HPq).
  - rewrite app_nil_r. apply NoDup_fst_map_to_list.
  - rewrite app_nil_r. unfold pair_t, txn_t in *. lia.
  - rewrite app_nil_r. unfold weight. rewrite length_fmap, length_map_to_list. unfold pair_t, txn_t in *. lia.
  - rewrite app_nil_r, HS in HPq. cbn [mbind outcome_bind]. destruct (run_batches_spec (length q) q) as (bs & -> & HPb & Hbs); [done|].
    exists bs, txns'.*2. split_and!; [done| |by rewrite HPb|done]. clear -HF. induction HF as [|a b l l' [_ Hab] _ IH]; [constructor|]. by constructor.
Qed.

Lemma lookahead_batching_executes_witness :
  ∃ bs, lookahead_batching_main bucket_demo = Ok bs ∧ Forall (λ b, b ≠ [] ∧ StronglySorted no_common b) bs.
Proof.
  destruct (lookahead_batching_executes bucket_demo) as (bs & cold & H & _ & _ & Hbs). exists bs. split; [exact H|exact Hbs].
Defined.
