(* ===== verification/OldOrder.v ===== *)
(** * Ordering transactions by buckets, the first version

    [main] of [mine/fast_layout/lookahead_batching_old.cpp]: like the programs
    of [Buckets] it puts the transactions into a queue per most frequent cold key and
    takes one from each of the fullest queues, at most 400 a round; the batches
    it made of the result with [gen_batch] ([Batching]) are commented out. *)
From stdpp Require Import base tactics list numbers gmap sorting.
From Stdlib Require Import ZArith Lia.
From S2P Require Import Prelude SimLayout Batching Buckets.

#[local] Open Scope Z_scope.

(** [buckets]: a queue of transactions per key. *)
Definition old_push (bs : gmap Z (list pair_t)) (pr : pair_t) : gmap Z (list pair_t) :=
  <[bucket_key pr := bucket bs (bucket_key pr) ++ [pr]]> bs.
Definition old_fill (txns : list pair_t) : gmap Z (list pair_t) := foldl old_push ∅ txns.

(** The bound of [added]. *)
Definition ROUND : nat := 400.

Section rounds.
Context `{MaxHeap}.

(** [while (pq.size() > 0 && added < 400)]; every iteration takes a key off the heap. *)
Fixpoint old_take (fuel added : nat) (bs : gmap Z (list pair_t)) (pq : list Z) (out : list pair_t) (add_back : list Z)
  : gmap Z (list pair_t) * list Z * list pair_t * list Z * nat :=
  match fuel with
  | O => (bs, pq, out, add_back, added)
  | S fuel' =>
      if bool_decide (added < ROUND)%nat then
        match pq_top (λ k, length (bucket bs k)) pq with
        | None => (bs, pq, out, add_back, added)
        | Some (k, pq') =>
            match bucket bs k with
            | [] => old_take fuel' added bs pq' out add_back
            | pr :: q => old_take fuel' (S added) (<[k := q]> bs) pq' (out ++ [pr]) (add_back ++ [k])
            end
        end
      else (bs, pq, out, add_back, added)
  end.

(** [while (bucket_output.size() < txns.size())]: the output, and the numbers
    printed. *)
Fixpoint old_rounds (fuel n : nat) (bs : gmap Z (list pair_t)) (pq add_back : list Z) (out : list pair_t) (printed : list nat)
  : outcome (list pair_t * list nat) :=
  if bool_decide (length out < n)%nat then
    match fuel with
    | O => Fail Spins
    | S fuel' =>
        let '(bs', pq', out', add_back', added) := old_take (length (pq ++ add_back)) 0 bs (pq ++ add_back) out [] in
        old_rounds fuel' n bs' pq' add_back' out' (printed ++ [added])
    end
  else Ok (out, printed).

Definition lookahead_batching_old_main (txns : list pair_t) : outcome (list pair_t * list nat) :=
  txns' ← prepare txns;
  let bs := old_fill txns' in
  old_rounds (length txns) (length txns) bs (map_to_list bs).*1 [] [] [].
End rounds.

(** ** The order of each bucket is kept *)

Definition of_key (k : Z) (l : list pair_t) : list pair_t := filter (λ pr : pair_t, bucket_key pr = k) l.

Lemma of_key_app k l1 l2 : of_key k (l1 ++ l2) = of_key k l1 ++ of_key k l2.
Proof. apply filter_app. Qed.

Lemma of_key_one k pr : of_key k [pr] = if decide (bucket_key pr = k) then [pr] else [].
Proof. unfold of_key. by rewrite filter_cons, filter_nil. Qed.

Lemma of_key_all l1 : ∀ l2, (∀ k, of_key k l1 = of_key k l2) → l1 ≡ₚ l2.
Proof.
  induction l1 as [|x l1 IH]; intros l2 H.
  - destruct l2 as [|y l2]; [done|]. specialize (H (bucket_key y)). unfold of_key in H. by rewrite filter_cons_True in H by done.
  - pose proof (H (bucket_key x)) as Hx. unfold of_key in Hx at 1. rewrite filter_cons_True in Hx by done.
    assert (x ∈ l2) as Hin. { assert (x ∈ of_key (bucket_key x) l2) as Hin by (rewrite <-Hx; by left). by apply list_elem_of_filter in Hin as [_ ?]. }
    assert (∃ a b, l2 = a ++ x :: b ∧ of_key (bucket_key x) a = []) as (a & b & -> & Ha).
    { clear -Hx. induction l2 as [|y l2 IH]; [done|]. unfold of_key in Hx. rewrite filter_cons in Hx. case_decide as Hy.
      - injection Hx as <- _. by exists [], l2.
      - destruct (IH Hx) as (a & b & -> & Ha). exists (y :: a), b. split; [done|]. unfold of_key. by rewrite filter_cons_False. }
    rewrite <-Permutation_middle. constructor. apply IH. intros k. specialize (H k). rewrite of_key_app in *.
    unfold of_key in H at 1 3. rewrite !filter_cons in H. case_decide as Hk; [|exact H]. subst k. rewrite Ha in *. by injection H.
Qed.

Section old_order.
Context `{HeapOk : MaxHeapOk}.
Context (txns : list pair_t).

(** What the loops keep. *)
Record ordered (bs : gmap Z (list pair_t)) (keys : list Z) (out : list pair_t) : Prop := {
  or_nodup : NoDup keys;
  or_split : ∀ k, of_key k out ++ bucket bs k = of_key k txns;
  or_keys : ∀ k, bucket bs k ≠ [] → k ∈ keys;
}.

Lemma ordered_key bs keys out k pr q : ordered bs keys out → bucket bs k = pr :: q → bucket_key pr = k.
Proof.
  intros [_ Hs _] Hk. specialize (Hs k). rewrite Hk in Hs. assert (pr ∈ of_key k txns) as Hin by (rewrite <-Hs; apply elem_of_app; right; by left).
  by apply list_elem_of_filter in Hin as [? _].
Qed.

Lemma ordered_out bs keys out k pr q : ordered bs keys out → bucket bs k = pr :: q → ordered (<[k := q]> bs) keys (out ++ [pr]).
Proof.
  intros Ho Hk. pose proof (ordered_key _ _ _ _ _ _ Ho Hk) as Hkey. destruct Ho as [Hnd Hs Hin]. split; [done| |].
  - intros k'. rewrite of_key_app, of_key_one, bucket_insert, Hkey. destruct (decide (k = k')) as [<-|]; [|by rewrite app_nil_r].
    rewrite <-app_assoc. cbn [app]. by rewrite <-Hk.
  - intros k'. rewrite bucket_insert. destruct (decide (k = k')) as [<-|]; intros Hne; apply Hin; [by rewrite Hk|done].
Qed.

Lemma ordered_perm bs keys keys' out : keys ≡ₚ keys' → ordered bs keys out → ordered bs keys' out.
Proof. intros HP [Hnd Hs Hin]. split; [by rewrite <-HP|done|]. intros k Hk. rewrite <-HP. by apply Hin. Qed.

Lemma ordered_drop bs k keys out : bucket bs k = [] → ordered bs (k :: keys) out → ordered bs keys out.
Proof.
  intros Hk [Hnd Hs Hin]. apply NoDup_cons in Hnd as [_ Hnd]. split; [done|done|]. intros k' Hk'. destruct (proj1 (elem_of_cons _ _ _) (Hin k' Hk')) as [->|]; [by rewrite Hk in Hk'|done].
Qed.

Lemma old_take_spec fuel added bs pq out ab : (length pq ≤ fuel)%nat → (added ≤ ROUND)%nat → ordered bs (pq ++ ab) out →
  let '(bs', pq', out', ab', added') := old_take fuel added bs pq out ab in
  ordered bs' (pq' ++ ab') out' ∧ (added ≤ added' ≤ ROUND)%nat ∧ (length out' + added = length out + added')%nat
  ∧ ((added < ROUND)%nat → (∃ k, k ∈ pq ∧ bucket bs k ≠ []) → (added < added')%nat).
Proof.
  revert added bs pq out ab. induction fuel as [|fuel IH]; intros added bs pq out ab Hf Hadd Ho; cbn [old_take].
  { split_and!; try done. intros _ (k & Hk & _). destruct pq; [by apply not_elem_of_nil in Hk|cbn in Hf; lia]. }
  case_bool_decide as Hlt; [|split_and!; try done; lia].
  destruct (decide (pq = [])) as [->|Hne]; [rewrite pq_top_nil; split_and!; try done; intros _ (k & Hk & _); by apply not_elem_of_nil in Hk|].
  destruct (pq_top_some (λ k, length (bucket bs k)) pq Hne) as (k & pq' & -> & HP & Hmax).
  assert (length pq' ≤ fuel)%nat as Hf' by (rewrite HP in Hf; cbn in Hf; lia).
  assert (ordered bs (k :: pq' ++ ab) out) as Ho' by (eapply ordered_perm; [|exact Ho]; by rewrite HP).
  destruct (bucket bs k) as [|pr q] eqn:Hk.
  - specialize (IH added bs pq' out ab Hf' Hadd (ordered_drop _ _ _ _ Hk Ho')). destruct (old_take _ _ _ _ _ _) as [[[[bs1 pq1] out1] ab1] added1].
    destruct IH as (H1 & H2 & H3 & _). split_and!; try done; try lia. intros _ (k' & Hin & Hne'). exfalso. apply Hne'. specialize (Hmax k' Hin). cbn beta in Hmax. rewrite ?Hk in Hmax. cbn in Hmax.
    apply nil_length_inv. lia.
  - specialize (IH (S added) (<[k := q]> bs) pq' (out ++ [pr]) (ab ++ [k]) Hf' Hlt). destruct (old_take _ _ _ _ _ _) as [[[[bs1 pq1] out1] ab1] added1].
    destruct IH as (H1 & H2 & H3 & _).
    { eapply ordered_perm; [|by eapply ordered_out]. rewrite app_assoc. apply Permutation_cons_append. }
    rewrite length_app in H3. cbn in H3. split_and!; try done; lia.
Qed.

(** Output and buckets together are the transactions. *)
Definition left (bs : gmap Z (list pair_t)) (keys : list Z) : list pair_t := concat (bucket bs <$> keys).

Lemma of_key_left bs keys out k : ordered bs keys out → of_key k (left bs keys) = bucket bs k.
Proof.
  intros Ho. pose proof Ho as [Hnd Hs Hin].
  assert (∀ j, of_key k (bucket bs j) = if decide (j = k) then bucket bs j else []) as Hone.
  { intros j. specialize (Hs j). assert (Forall (λ pr : pair_t, bucket_key pr = j) (bucket bs j)) as Hall.
    { apply Forall_forall. intros pr Hpr. assert (pr ∈ of_key j txns) as H' by (rewrite <-Hs; apply elem_of_app; by right). by apply list_elem_of_filter in H' as [? _]. }
    unfold of_key. clear -Hall. induction Hall as [|pr l Hpr Hall IH]; [by case_decide|]. rewrite filter_cons, IH, Hpr. by destruct (decide (j = k)). }
  assert (∀ ks, NoDup ks → of_key k (left bs ks) = if decide (k ∈ ks) then bucket bs k else []) as Hrun.
  { induction ks as [|j ks IH]; intros Hks; [done|]. apply NoDup_cons in Hks as [Hj Hks]. unfold left. cbn [fmap list_fmap concat]. fold (left bs ks).
    rewrite of_key_app, Hone, (IH Hks). destruct (decide (j = k)) as [->|Hne].
    - rewrite (decide_False (P := k ∈ ks)), decide_True, app_nil_r by (done || by left). done.
    - cbn [app]. destruct (decide (k ∈ ks)) as [Hk|Hk]; [by rewrite decide_True by (by right)|]. rewrite decide_False; [done|]. rewrite elem_of_cons. naive_solver. }
  rewrite (Hrun keys Hnd). case_decide as Hk; [done|]. destruct (bucket bs k) eqn:E; [done|]. exfalso. apply Hk, Hin. by rewrite E.
Qed.

Lemma ordered_all bs keys out : ordered bs keys out → out ++ left bs keys ≡ₚ txns.
Proof. intros Ho. apply of_key_all. intros k. rewrite of_key_app, (of_key_left _ _ _ _ Ho). by apply Ho. Qed.

Lemma old_rounds_spec n fuel bs pq ab out printed : n = length txns → (n ≤ length out + fuel)%nat → ordered bs (pq ++ ab) out →
  Forall (λ a, 1 ≤ a ≤ ROUND)%nat printed → sum_list printed = length out →
  ∃ out' printed', old_rounds fuel n bs pq ab out printed = Ok (out', printed') ∧ (∀ k, of_key k out' = of_key k txns)
    ∧ Forall (λ a, 1 ≤ a ≤ ROUND)%nat printed' ∧ sum_list printed' = length txns.
Proof.
  intros Hn. revert bs pq ab out printed. induction fuel as [|fuel IH]; intros bs pq ab out printed Hf Ho Hp Hsum; cbn [old_rounds];
    pose proof (Permutation_length (ordered_all _ _ _ Ho)) as Hlen; rewrite length_app in Hlen.
  all: assert ((n ≤ length out)%nat → ∀ k, of_key k out = of_key k txns) as Hend.
  all: try by (intros Hge k; assert (left bs (pq ++ ab) = []) as Hl by (apply nil_length_inv; lia);
    rewrite <-(or_split _ _ _ Ho k), <-(of_key_left _ _ _ k Ho), Hl, app_nil_r).
  - rewrite bool_decide_eq_false_2 by lia. exists out, printed. split_and!; try done; [apply Hend; lia|lia].
  - case_bool_decide as Hlt; [|exists out, printed; split_and!; try done; [apply Hend; lia|lia]].
    pose proof (old_take_spec (length (pq ++ ab)) 0 bs (pq ++ ab) out []) as Ht. rewrite app_nil_r in Ht. specialize (Ht (Nat.le_refl _) ltac:(unfold ROUND; lia) Ho).
    destruct (old_take _ _ _ _ _ _) as [[[[bs1 pq1] out1] ab1] added1]. destruct Ht as (H1 & H2 & H3 & H4).
    assert (0 < added1)%nat as Hpos.
    { apply H4; [unfold ROUND; lia|]. destruct (left bs (pq ++ ab)) as [|x l] eqn:El; [cbn in Hlen; lia|].
      assert (x ∈ left bs (pq ++ ab)) as Hx by (rewrite El; by left). unfold left in Hx. apply list_elem_of_In, in_concat in Hx as (b & Hb & Hxb).
      apply list_elem_of_In, list_elem_of_fmap in Hb as (k & -> & Hk). exists k. split; [done|]. intros E. by rewrite E in Hxb. }
    apply IH; [lia|done|apply Forall_app_2; [done|]; apply Forall_singleton; lia|]. rewrite sum_list_with_app, Hsum. cbn. unfold id. lia.
Qed.
End old_order.

Lemma old_fill_bucket txns k : bucket (old_fill txns) k = of_key k txns.
Proof.
  unfold old_fill. induction txns as [|pr txns IH] using rev_ind; [done|]. rewrite foldl_app, of_key_app, of_key_one. cbn [foldl]. unfold old_push at 1.
  rewrite bucket_insert. destruct (decide (bucket_key pr = k)) as [<-|]; rewrite IH; [done|by rewrite app_nil_r].
Qed.

(** The program returns: its output has all transactions, those of one bucket
    in the order of the workload, and it takes between 1 and 400 of them in every
    round. *)
Theorem lookahead_batching_old_orders `{MaxHeapOk} txns :
  ∃ txns' out printed, prepare txns = Ok txns' ∧ lookahead_batching_old_main txns = Ok (out, printed)
    ∧ out ≡ₚ txns' ∧ (∀ k, of_key k out = of_key k txns')
    ∧ Forall (λ a, 1 ≤ a ≤ ROUND)%nat printed ∧ sum_list printed = length txns.
Proof.
  destruct (prepare_cold_spec txns) as (txns' & Hp & Hall). exists txns'. pose proof (Forall2_length _ _ _ Hall) as Hlen.
  destruct (old_rounds_spec txns' (length txns) (length txns) (old_fill txns') (map_to_list (old_fill txns')).*1 [] [] []) as (out & printed & Hr & Hk & Ha & Hs); try done.
  - rewrite app_nil_r. split.
    + apply NoDup_fst_map_to_list.
    + intros k. apply old_fill_bucket.
    + intros k Hk. unfold bucket in Hk. destruct (old_fill txns' !! k) as [l|] eqn:E; [|done]. apply list_elem_of_fmap. exists (k, l). split; [done|]. by apply elem_of_map_to_list.
  - exists out, printed. unfold lookahead_batching_old_main. rewrite Hp. cbn [mbind outcome_bind]. split_and!; try done; [by apply of_key_all|by rewrite Hs].
Qed.
