(* ===== verification/IntLog.v ===== *)
(** * Integer logarithms and sizes as text

    [src/src/utils/util.hpp] and [util.cpp]: [logFloor], the integer logarithm
    that looks up a guess from the position of the highest bit and corrects it
    with one comparison, its naive counterpart, the decimal special case, and the
    formatting of fractions and file sizes built on it.  A [Uint] of [w] bits is
    an integer below [2^w]. *)
From stdpp Require Import base tactics list numbers strings pretty.
From Stdlib Require Import ZArith Lia.
From S2P Require Import Prelude.

#[local] Open Scope Z_scope.

(** ** The code *)

(** [__builtin_clzll] on a number that is not zero. *)
Definition clzll (x : Z) : Z := 63 - Z.log2 x.

Definition log2floor (x : Z) : Z := if x =? 0 then 0 else 63 - clzll x.

(** [while (val /= base) ++result;]; [base] is an [unsigned], to which a wider
    template argument is narrowed. *)
Fixpoint naive_loop (fuel : nat) (val base result : Z) : outcome Z :=
  match fuel with
  | O => Fail Spins
  | S fuel' => val' ← udiv val base; if val' =? 0 then Ok result else naive_loop fuel' val' base (result + 1)
  end.
Definition logFloor_naive (val base : Z) : outcome Z := naive_loop 64 val (u32 base) 0.

(** [makeGuessTable<Uint, BASE>]: the logarithms of the powers of two. *)
Definition makeGuessTable (w : nat) (base : Z) : outcome (list Z) :=
  ofold (λ result i, e ← logFloor_naive (wrap (Z.of_nat w) (Z.shiftl 1 (Z.of_nat i))) base; Ok (result ++ [e])) (seq 0 w) [].

Definition maxExp (w : nat) (base : Z) : outcome Z := logFloor_naive (2 ^ Z.of_nat w - 1) base.

(** [makePowerTable<Uint, BASE>]: the powers, in 64 bits. *)
Fixpoint power_loop (n : nat) (x base : Z) : list Z :=
  match n with O => [] | S n' => x :: power_loop n' (u64 (x * base)) base end.
Definition makePowerTable (w : nat) (base : Z) : outcome (list Z) :=
  m ← maxExp w base; Ok (power_loop (Z.to_nat m + 2) 1 base).

Definition isPow2or0 (val : Z) : bool := Z.land val (u64 (val - 1)) =? 0.

(** [logFloor<BASE>(val)] on a [Uint] of [w] bits. *)
Definition logFloor (w : nat) (base val : Z) : outcome Z :=
  if isPow2or0 base then udiv (log2floor val) (log2floor base)
  else
    guesses ← makeGuessTable w base;
    powers ← makePowerTable w base;
    guess ← zget guesses (log2floor val);
    back ← zget guesses (Z.of_nat w - 1);
    if bool_decide (w < 64)%nat || (back + 2 <? Z.of_nat (length powers)) then
      p ← zget powers (guess + 1); Ok (guess + if p <=? val then 1 else 0)
    else
      p ← zget powers guess; Ok (guess + if p <=? val / base then 1 else 0).

(** [log10floor], with its tables. *)
Definition guesses10 : list Z :=
  [0; 0; 0; 0; 1; 1; 1; 2; 2; 2; 3; 3; 3; 3; 4; 4; 4; 5; 5; 5; 6; 6; 6; 6; 7; 7; 7; 8; 8; 8; 9; 9].
Definition powers10 : list Z := [1; 10; 100; 1000; 10000; 100000; 1000000; 10000000; 100000000; 1000000000; 10000000000].
Definition log10floor (x : Z) : outcome Z :=
  guess ← zget guesses10 (log2floor x);
  p ← zget powers10 (guess + 1);
  Ok (guess + if p <=? x then 1 else 0).

(** [stringifyFraction]; [den] and [tmp] are 32-bit. *)
Definition to_string (n : Z) : string := pretty (Z.to_N n).
Definition digit_char (d : Z) : Ascii.ascii := Ascii.ascii_of_N (Z.to_N (48 + d)).

Fixpoint fraction_digits (precision : nat) (tmp den : Z) : list Z :=
  match precision with
  | O => []
  | S p => let tmp' := u32 (tmp * 10) in tmp' / den :: fraction_digits p (tmp' mod den) den
  end.
Definition string_of_digits (ds : list Z) : string := foldr (λ d s, String (digit_char d) s) EmptyString ds.

Definition stringifyFraction (num den : Z) (precision : nat) : string :=
  if den =? 0 then "inf"
  else
    let tmp := u32 (num mod den) in
    if (tmp =? 0) || bool_decide (precision = 0%nat) then to_string (num / den)
    else to_string (num / den) +:+ "." +:+ string_of_digits (fraction_digits precision tmp den).

(** [stringifyFileSize<BASE>], for [BASE] 1000 or 1024. *)
Definition FILE_SIZE_UNITS : list (string * string * string) :=
  [("B", "", "b"); ("K", "B", "k"); ("M", "B", "m"); ("G", "B", "g"); ("T", "B", "t"); ("P", "B", "p"); ("E", "B", "e"); ("Z", "B", "z")]%string.

Definition stringifyFileSize (base size : Z) (precision : nat) : outcome string :=
  powers ← makePowerTable 64 base;
  unit ← logFloor 64 base size;
  p ← zget powers unit;
  '(first, second, lower) ← zget FILE_SIZE_UNITS unit;
  let result := stringifyFraction size (u32 p) precision +:+ " " +:+ (if base =? 1000 then lower else first) in
  if unit =? 0 then Ok result else Ok (result +:+ (if base =? 1024 then "i" else "") +:+ second).

Example file_size_kib : stringifyFileSize 1024 1536 1 = Ok "1.5 KiB"%string.
Proof. vm_compute. reflexivity. Qed.
Example file_size_mb : stringifyFileSize 1000 2500000 2 = Ok "2.50 mB"%string.
Proof. vm_compute. reflexivity. Qed.
Example file_size_gib : stringifyFileSize 1024 1610612736 1 = Ok "1.1 GiB"%string.
Proof. vm_compute. reflexivity. Qed.
Example file_size_tib : stringifyFileSize 1024 (2 ^ 40) 1 = Ok "inf TiB"%string.
Proof. vm_compute. reflexivity. Qed.

(** ** The reference *)

(** [e] is the logarithm of [v] to base [b], rounded down. *)
Definition is_log (b v e : Z) : Prop := 0 ≤ e ∧ b ^ e ≤ v < b ^ (e + 1).

Lemma is_log_unique b v e e' : 1 < b → is_log b v e → is_log b v e' → e = e'.
Proof.
  intros Hb (H0 & H1 & H2) (H0' & H1' & H2').
  assert (∀ x y, 0 ≤ x → 0 ≤ y → b ^ x ≤ v → v < b ^ (y + 1) → x ≤ y) as Hle.
  { intros x y Hx Hy A B. assert (b ^ x < b ^ (y + 1)) as C by lia. apply Z.pow_lt_mono_r_iff in C; lia. }
  apply Z.le_antisymm; apply Hle; done.
Qed.

Lemma is_log_mono b v v' e e' : 1 < b → v ≤ v' → is_log b v e → is_log b v' e' → e ≤ e'.
Proof.
  intros Hb Hv (H0 & H1 & H2) (H0' & H1' & H2'). assert (b ^ e < b ^ (e' + 1)) as C by lia. apply Z.pow_lt_mono_r_iff in C; lia.
Qed.

Lemma log2floor_spec v : 0 < v → log2floor v = Z.log2 v.
Proof. intros Hv. unfold log2floor, clzll. destruct (Z.eqb_spec v 0); lia. Qed.

Lemma naive_loop_spec fuel b v r : 1 < b → 0 < v < 2 ^ Z.of_nat fuel → ∃ e, naive_loop fuel v b r = Ok (r + e) ∧ is_log b v e.
Proof.
  intros Hb. revert v r. induction fuel as [|fuel IH]; intros v r Hv; [cbn in Hv; lia|]. cbn [naive_loop].
  rewrite udiv_nz by lia. cbn [mbind outcome_bind]. pose proof (Z.div_mod v b ltac:(lia)) as Hdm. pose proof (Z.mod_pos_bound v b ltac:(lia)) as Hm.
  destruct (Z.eqb_spec (v / b) 0) as [E|E].
  - exists 0. split; [f_equal; lia|]. unfold is_log. rewrite Z.add_0_l, Z.pow_0_r, Z.pow_1_r. rewrite E in Hdm. lia.
  - assert (0 ≤ v / b) by (apply Z.div_pos; lia). destruct (IH (v / b) (r + 1)) as (e & -> & He0 & He1 & He2).
    { split; [lia|]. apply Z.div_lt_upper_bound; [lia|]. rewrite Nat2Z.inj_succ, Z.pow_succ_r in Hv by lia. nia. }
    exists (e + 1). split; [f_equal; lia|]. unfold is_log. rewrite (Z.pow_add_r b (e + 1) 1), Z.pow_1_r by lia. split; [lia|].
    rewrite Z.pow_add_r, Z.pow_1_r in * by lia. nia.
Qed.

Lemma logFloor_naive_spec b v : 1 < b < 2 ^ 32 → 0 < v < 2 ^ 64 → ∃ e, logFloor_naive v b = Ok e ∧ is_log b v e.
Proof. intros Hb Hv. unfold logFloor_naive. replace (u32 b) with b by (symmetry; apply wrap_small; lia). destruct (naive_loop_spec 64 b v 0) as (e & H & He); [lia|done|]. by exists e. Qed.

(** ** The tables *)

Lemma guesses_spec w b : 1 < b < 2 ^ 32 → (w ≤ 64)%nat →
  ∃ gs, makeGuessTable w b = Ok gs ∧ length gs = w ∧ ∀ i e, gs !! i = Some e → is_log b (2 ^ Z.of_nat i) e.
Proof.
  intros Hb Hw. unfold makeGuessTable.
  destruct (ofold_total (λ pre gs, length gs = length pre ∧ ∀ i e, gs !! i = Some e → is_log b (2 ^ Z.of_nat i) e)
    (λ result i, e ← logFloor_naive (wrap (Z.of_nat w) (Z.shiftl 1 (Z.of_nat i))) b; Ok (result ++ [e])) (seq 0 w) []) as (gs & H & Hl & Hgs).
  - done.
  - intros pre i post gs Hseq [Hl Hgs]. destruct (seq_cut _ _ _ _ _ Hseq) as (_ & Hi & Hlt). rewrite Nat.add_0_l in Hi. rewrite <-Hi in *.
    rewrite Z.shiftl_1_l. assert (2 ^ Z.of_nat i < 2 ^ Z.of_nat w) as Hpw by (apply Z.pow_lt_mono_r; lia). assert (0 < 2 ^ Z.of_nat i) as Hp0 by (apply Z.pow_pos_nonneg; lia).
    rewrite wrap_small by lia. assert (2 ^ Z.of_nat w ≤ 2 ^ 64) by (apply Z.pow_le_mono_r; lia).
    destruct (logFloor_naive_spec b (2 ^ Z.of_nat i) Hb) as (e & -> & He); [lia|]. cbn [mbind outcome_bind]. eexists. split; [reflexivity|].
    split; [rewrite !length_app; cbn; lia|]. intros j e' Hj. apply lookup_app_Some in Hj as [Hj|[Hge Hj]]; [by apply Hgs|].
    apply list_lookup_singleton_Some in Hj as [Hz ->]. by replace j with i by lia.
  - exists gs. split_and!; [done| |done]. by rewrite Hl, length_seq.
Qed.

Lemma power_loop_spec n b k x : 0 ≤ k → x = wrap 64 (b ^ k) → ∀ i, (i < n)%nat → power_loop n x b !! i = Some (wrap 64 (b ^ (k + Z.of_nat i))).
Proof.
  revert k x. induction n as [|n IH]; intros k x Hk Hx i Hi; [lia|]. destruct i as [|i]; cbn [power_loop lookup list_lookup].
  - by rewrite Hx, Z.add_0_r.
  - rewrite (IH (k + 1)); [do 3 f_equal; lia|lia| |lia]. rewrite Hx. unfold u64, wrap. rewrite Z.pow_add_r, Z.pow_1_r by lia. by rewrite Z.mul_mod_idemp_l by lia.
Qed.

Lemma power_loop_length n x b : length (power_loop n x b) = n.
Proof. revert x. induction n as [|n IH]; intros x; cbn; [done|]. by rewrite IH. Qed.

Lemma powers_spec w b : 1 < b < 2 ^ 32 → (0 < w ≤ 64)%nat → ∃ m, makePowerTable w b = Ok (power_loop (Z.to_nat m + 2) 1 b) ∧ is_log b (2 ^ Z.of_nat w - 1) m
  ∧ length (power_loop (Z.to_nat m + 2) 1 b) = (Z.to_nat m + 2)%nat
  ∧ ∀ i, 0 ≤ i ≤ m + 1 → b ^ i < 2 ^ 64 → zget (power_loop (Z.to_nat m + 2) 1 b) i = Ok (b ^ i).
Proof.
  intros Hb Hw. unfold makePowerTable, maxExp. assert (2 ^ 1 ≤ 2 ^ Z.of_nat w) by (apply Z.pow_le_mono_r; lia). assert (2 ^ Z.of_nat w ≤ 2 ^ 64) by (apply Z.pow_le_mono_r; lia).
  destruct (logFloor_naive_spec b (2 ^ Z.of_nat w - 1) Hb) as (m & -> & Hm); [lia|]. cbn [mbind outcome_bind]. exists m. split; [done|]. split; [done|].
  split; [apply power_loop_length|]. intros i Hi Hlt. pose proof (proj1 Hm). unfold zget. rewrite decide_True by (rewrite power_loop_length; lia).
  apply aget_some. rewrite (power_loop_spec _ b 0); [|lia|by rewrite Z.pow_0_r|lia]. rewrite Z.add_0_l, Z2Nat.id by lia. rewrite wrap_small; [done|].
  split; [|done]. apply Z.pow_nonneg. lia.
Qed.

(** A guess from the highest bit is right or one too small. *)
Lemma guess_correct b v g : 1 < b → 0 < v → is_log b (2 ^ Z.log2 v) g → is_log b v (g + if b ^ (g + 1) <=? v then 1 else 0).
Proof.
  intros Hb Hv (H0 & H1 & H2). pose proof (Z.log2_spec v Hv) as [Hl1 Hl2]. pose proof (Z.log2_nonneg v). rewrite Z.pow_succ_r in Hl2 by lia.
  unfold is_log. destruct (Z.leb_spec (b ^ (g + 1)) v).
  - rewrite (Z.pow_add_r b (g + 1) 1), Z.pow_1_r by lia. split; [lia|]. split; [done|]. nia.
  - rewrite Z.add_0_r. lia.
Qed.

Lemma pow2_base b : 1 < b < 2 ^ 64 → isPow2or0 b = true → b = 2 ^ Z.log2 b.
Proof.
  intros Hb H. unfold isPow2or0 in H. apply Z.eqb_eq in H. assert (u64 (b - 1) = b - 1) as E by (apply wrap_small; lia). rewrite E in H. pose proof (Z.log2_spec b ltac:(lia)) as [Hl1 Hl2].
  destruct (decide (b = 2 ^ Z.log2 b)) as [|Hne]; [done|]. exfalso.
  assert (Z.log2 (b - 1) = Z.log2 b) as Hlog by (apply Z.log2_unique; [apply Z.log2_nonneg|lia]).
  assert (Z.testbit (Z.land b (b - 1)) (Z.log2 b) = true) as Ht.
  { rewrite Z.land_spec, Z.bit_log2 by lia. rewrite <-Hlog. by rewrite Z.bit_log2 by lia. }
  by rewrite H, Z.testbit_0_l in Ht.
Qed.

Lemma pow2_log m v : 0 < m → 0 < v → is_log (2 ^ m) v (Z.log2 v / m).
Proof.
  intros Hm Hv. pose proof (Z.log2_spec v Hv) as [Hl1 Hl2]. pose proof (Z.log2_nonneg v) as Hn. pose proof (Z.div_mod (Z.log2 v) m ltac:(lia)). pose proof (Z.mod_pos_bound (Z.log2 v) m Hm).
  assert (0 ≤ Z.log2 v / m) by (apply Z.div_pos; lia). unfold is_log. rewrite <-!Z.pow_mul_r by lia. split; [done|].
  split; [etrans; [|exact Hl1]; apply Z.pow_le_mono_r; lia|]. eapply Z.lt_le_trans; [exact Hl2|]. apply Z.pow_le_mono_r; lia.
Qed.

Lemma logFloor_spec w b v : (0 < w ≤ 32)%nat ∨ w = 64%nat → 1 < b < 2 ^ 32 → 0 < v < 2 ^ Z.of_nat w → ∃ e, logFloor w b v = Ok e ∧ is_log b v e.
Proof.
  intros Hw Hb Hv. assert (0 < w ≤ 64)%nat as Hw64 by lia. unfold logFloor. rewrite log2floor_spec by lia. destruct (isPow2or0 b) eqn:Hp2.
  { pose proof (pow2_base b ltac:(lia) Hp2) as Eb. assert (0 < Z.log2 b) as Hm by (apply Z.log2_pos; lia). rewrite log2floor_spec, udiv_nz by lia.
    eexists. split; [reflexivity|]. rewrite Eb at 1. by apply pow2_log; lia. }
  destruct (guesses_spec w b) as (gs & -> & Hgl & Hgs); [lia..|]. cbn [mbind outcome_bind]. destruct (powers_spec w b) as (m & -> & Hm & Hpl & Hps); [lia..|]. cbn [mbind outcome_bind].
  set (powers := power_loop (Z.to_nat m + 2) 1 b) in *. pose proof (Z.log2_nonneg v) as Hn. pose proof (Z.log2_lt_pow2 v (Z.of_nat w) ltac:(lia)) as [Hlog _]. specialize (Hlog ltac:(lia)).
  destruct (lookup_lt_is_Some_2 gs (Z.to_nat (Z.log2 v))) as [g Hg]; [lia|]. destruct (lookup_lt_is_Some_2 gs (Z.to_nat (Z.of_nat w - 1))) as [back Hback]; [lia|].
  rewrite (zget_some _ _ _ Hn Hg). cbn [mbind outcome_bind]. rewrite (zget_some _ (Z.of_nat w - 1) back) by (done || lia). cbn [mbind outcome_bind].
  apply Hgs in Hg. rewrite Z2Nat.id in Hg by lia. apply Hgs in Hback. rewrite Z2Nat.id in Hback by lia. pose proof (guess_correct b v g ltac:(lia) ltac:(lia) Hg) as Hcorrect.
  pose proof (Z.log2_spec v ltac:(lia)) as [Hl1 Hl2]. assert (2 ^ Z.log2 v ≤ 2 ^ (Z.of_nat w - 1)) as Hle by (apply Z.pow_le_mono_r; lia).
  assert (2 ^ (Z.of_nat w - 1) ≤ 2 ^ Z.of_nat w - 1) as Hle2.
  { replace (Z.of_nat w) with (Z.succ (Z.of_nat w - 1)) at 2 by lia. rewrite Z.pow_succ_r by lia. pose proof (Z.pow_pos_nonneg 2 (Z.of_nat w - 1)). lia. }
  pose proof (is_log_mono b _ _ _ _ ltac:(lia) Hle Hg Hback) as Hgb. pose proof (is_log_mono b _ _ _ _ ltac:(lia) Hle2 Hback Hm) as Hbm.
  destruct Hg as (Hg0 & Hg1 & Hg2). assert (b ^ (g + 1) = b * b ^ g) as Hsucc by (rewrite Z.add_1_r, Z.pow_succ_r; lia). pose proof (proj1 (proj2 Hm)) as Hm1.
  destruct (bool_decide (w < 64)%nat || (back + 2 <? Z.of_nat (length powers))) eqn:Hbr.
  - assert (b ^ (g + 1) < 2 ^ 64) as Hfit.
    { apply orb_true_iff in Hbr as [Hw32|Hroom].
      - apply bool_decide_eq_true in Hw32. assert (2 ^ Z.of_nat w ≤ 2 ^ 32) by (apply Z.pow_le_mono_r; lia).
        destruct (decide (g = 0)) as [->|Hgne]; [rewrite Z.add_0_l, Z.pow_1_r; lia|]. assert (b ≤ b ^ g) by (rewrite <-(Z.pow_1_r b) at 1; apply Z.pow_le_mono_r; lia). nia.
      - apply Z.ltb_lt in Hroom. rewrite Hpl in Hroom. pose proof (proj1 Hm). assert (b ^ (g + 1) ≤ b ^ m) by (apply Z.pow_le_mono_r; lia). assert (2 ^ Z.of_nat w ≤ 2 ^ 64) by (apply Z.pow_le_mono_r; lia). lia. }
    rewrite (Hps (g + 1)) by lia. cbn [mbind outcome_bind]. by eexists.
  - assert (2 ^ Z.of_nat w ≤ 2 ^ 64) by (apply Z.pow_le_mono_r; lia). rewrite (Hps g) by lia. cbn [mbind outcome_bind]. eexists. split; [reflexivity|].
    assert ((b ^ g <=? v / b) = (b ^ (g + 1) <=? v)) as ->; [|done]. rewrite Hsucc. apply Bool.eq_iff_eq_true. rewrite !Z.leb_le. split; intros Hd.
    + pose proof (Z.mul_div_le v b ltac:(lia)). nia.
    + apply Z.div_le_lower_bound; lia.
Qed.

Lemma tables10 : makeGuessTable 32 10 = Ok guesses10 ∧ makePowerTable 32 10 = Ok powers10.
Proof. split; vm_compute; reflexivity. Qed.

Lemma log10floor_spec x : log10floor x = logFloor 32 10 x.
Proof.
  unfold logFloor. change (isPow2or0 10) with false. destruct tables10 as [-> ->]. cbn [mbind outcome_bind]. unfold log10floor.
  destruct (zget guesses10 (log2floor x)) as [g|f]; [|done]. cbn [mbind outcome_bind]. done.
Qed.

(** C35: the table-driven logarithm agrees with the naive loop: on unsigned types
    of up to 32 bits and of 64 bits, for every base of 32 bits, [logFloor] returns the
    logarithm of every value rounded down, the same as dividing until nothing is
    left.  Neither the table of powers, whose last entry may have wrapped around,
    nor its bounds are a problem.  [log10floor] is the instance for base ten. *)
Theorem logFloor_correct w b v : (0 < w ≤ 32)%nat ∨ w = 64%nat → 1 < b < 2 ^ 32 → 0 < v < 2 ^ Z.of_nat w →
  ∃ e, logFloor w b v = Ok e ∧ logFloor_naive v b = Ok e ∧ 0 ≤ e ∧ b ^ e ≤ v < b ^ (e + 1)
    ∧ (w = 32%nat → b = 10 → log10floor v = Ok e).
Proof.
  intros Hw Hb Hv. destruct (logFloor_spec w b v Hw Hb Hv) as (e & H & He). assert (2 ^ Z.of_nat w ≤ 2 ^ 64) by (apply Z.pow_le_mono_r; lia).
  destruct (logFloor_naive_spec b v) as (e' & H' & He'); [lia..|]. pose proof (is_log_unique b v e e' ltac:(lia) He He') as <-.
  exists e. split; [done|]. split; [done|]. destruct He as (He0 & He1 & He2). split_and!; try done. intros -> ->. by rewrite log10floor_spec.
Qed.

Lemma logFloor_correct_witness :
  logFloor 64 10 (2 ^ 64 - 1) = Ok 19 ∧ ∃ e, logFloor 64 10 (2 ^ 64 - 1) = Ok e ∧ 10 ^ e ≤ 2 ^ 64 - 1 < 10 ^ (e + 1).
Proof.
  split; [vm_compute; reflexivity|]. destruct (logFloor_correct 64 10 (2 ^ 64 - 1)) as (e & H & _ & _ & He & _); [right; reflexivity|lia|cbn; lia|].
  exists e. split; [exact H|exact He].
Defined.

(** ** Fractions and sizes *)

(** The number the decimals [ds] denote, without the point. *)
Definition decimals (ds : list Z) : Z := foldl (λ v d, v * 10 + d) 0 ds.

Lemma decimals_from ds v : foldl (λ v d, v * 10 + d) v ds = v * 10 ^ Z.of_nat (length ds) + decimals ds.
Proof.
  unfold decimals. revert v. induction ds as [|d ds IH]; intros v; cbn [foldl length]; [rewrite Z.pow_0_r; lia|].
  rewrite (IH (v * 10 + d)), (IH (0 * 10 + d)), Nat2Z.inj_succ, Z.pow_succ_r by lia. lia.
Qed.

(** Long division: the digits are decimal, and denote the fraction rounded down. *)
Lemma fraction_digits_spec p t den : 0 < den → den * 10 ≤ 2 ^ 32 → 0 ≤ t < den →
  length (fraction_digits p t den) = p ∧ Forall (λ d, 0 ≤ d ≤ 9) (fraction_digits p t den)
  ∧ decimals (fraction_digits p t den) = t * 10 ^ Z.of_nat p / den.
Proof.
  intros Hd Hfit. revert t. induction p as [|p IH]; intros t Ht; cbn [fraction_digits length].
  { split_and!; [done|constructor|]. rewrite Z.pow_0_r, Z.mul_1_r, Z.div_small by lia. done. }
  assert (u32 (t * 10) = t * 10) as -> by (apply wrap_small; lia).
  pose proof (Z.div_mod (t * 10) den ltac:(lia)) as Hdm. pose proof (Z.mod_pos_bound (t * 10) den Hd) as Hm.
  destruct (IH _ Hm) as (Hl & Hds & Hv). split; [by rewrite Hl|]. split.
  - constructor; [|done]. split; [apply Z.div_pos; lia|]. assert (t * 10 / den < 10); [apply Z.div_lt_upper_bound; lia|lia].
  - unfold decimals. cbn [foldl]. rewrite decimals_from, Hv, Hl, Nat2Z.inj_succ, Z.pow_succ_r by lia.
    rewrite Z.add_0_l, Z.add_comm. symmetry. rewrite <-Z.div_add by lia. f_equal. nia.
Qed.

Lemma stringifyFraction_inf num p : stringifyFraction num 0 p = "inf"%string.
Proof. done. Qed.

Lemma stringifyFraction_spec num den p : 0 < den → den * 10 ≤ 2 ^ 32 → ∃ ds,
  stringifyFraction num den p =
    (if (num mod den =? 0) || bool_decide (p = 0%nat) then to_string (num / den)
     else to_string (num / den) +:+ "." +:+ string_of_digits ds)
  ∧ length ds = p ∧ Forall (λ d, 0 ≤ d ≤ 9) ds ∧ decimals ds = num mod den * 10 ^ Z.of_nat p / den.
Proof.
  intros Hd Hfit. exists (fraction_digits p (num mod den) den). pose proof (Z.mod_pos_bound num den Hd) as Hm.
  split; [|by apply fraction_digits_spec]. unfold stringifyFraction. destruct (Z.eqb_spec den 0); [lia|].
  by assert (u32 (num mod den) = num mod den) as -> by (apply wrap_small; lia).
Qed.

Definition binary_powers : list Z := [1; 2 ^ 10; 2 ^ 20; 2 ^ 30; 2 ^ 40; 2 ^ 50; 2 ^ 60; 0].
Lemma binary_table : makePowerTable 64 1024 = Ok binary_powers.
Proof. vm_compute. reflexivity. Qed.

Lemma binary_unit size u : 0 ≤ u → 1024 ^ u ≤ size < 1024 ^ (u + 1) → size < 2 ^ 64 → logFloor 64 1024 size = Ok u.
Proof.
  intros Hu Hs Hlt. destruct (logFloor_spec 64 1024 size) as (e & -> & He); [by right|lia| |].
  - split; [|done]. pose proof (Z.pow_pos_nonneg 1024 u). lia.
  - f_equal. by apply (is_log_unique 1024 size); [lia|done|].
Qed.

Lemma append_assoc (a b c : string) : (a +:+ b) +:+ c = a +:+ (b +:+ c).
Proof. induction a as [|x a IH]; [done|]. change (String x ((a +:+ b) +:+ c) = String x (a +:+ (b +:+ c))). by rewrite IH. Qed.

(** The name of a binary unit. *)
Definition binary_name (u : nat) : string := nth u ["B"; "KiB"; "MiB"; "GiB"; "TiB"; "PiB"; "EiB"]%string "".

Lemma binary_lookups (u : nat) : (u ≤ 6)%nat → zget binary_powers (Z.of_nat u) = Ok (1024 ^ Z.of_nat u)
  ∧ ∃ first second lower, zget FILE_SIZE_UNITS (Z.of_nat u) = Ok (first, second, lower)
    ∧ (if Z.of_nat u =? 0 then first else first +:+ "i" +:+ second) = binary_name u.
Proof. intros Hu. do 7 (destruct u as [|u]; [split; [done|]; do 3 eexists; split; reflexivity|]). lia. Qed.

Lemma file_size_text size (u : nat) p : (u ≤ 6)%nat → 1024 ^ Z.of_nat u ≤ size < 1024 ^ (Z.of_nat u + 1) → size < 2 ^ 64 →
  stringifyFileSize 1024 size p = Ok (stringifyFraction size (u32 (1024 ^ Z.of_nat u)) p +:+ " " +:+ binary_name u).
Proof.
  intros Hu Hs Hlt. unfold stringifyFileSize. rewrite binary_table. cbn [mbind outcome_bind]. rewrite (binary_unit size (Z.of_nat u)) by (done || lia).
  destruct (binary_lookups u Hu) as (Hp & first & second & lower & Hn & <-). cbn [mbind outcome_bind]. rewrite Hp. cbn [mbind outcome_bind]. rewrite Hn. cbn [mbind outcome_bind].
  change (1024 =? 1000) with false. change (1024 =? 1024) with true. cbv iota. destruct (Z.of_nat u =? 0); by rewrite ?append_assoc.
Qed.

(** C36: the text of a size in binary units.  Below one GiB it is the size in the
    largest unit that fits, rounded down to the asked decimals: the digits are
    decimal and denote the fraction.  From one TiB on the divisor, narrowed to an
    [unsigned], is zero, and the text is [inf] followed by the unit. *)
Theorem file_size_range size (u : nat) p : (u ≤ 6)%nat → 1024 ^ Z.of_nat u ≤ size < 1024 ^ (Z.of_nat u + 1) → size < 2 ^ 64 →
  ((u ≤ 2)%nat → ∃ ds,
     stringifyFileSize 1024 size p =
       Ok ((if (size mod 1024 ^ Z.of_nat u =? 0) || bool_decide (p = 0%nat) then to_string (size / 1024 ^ Z.of_nat u)
            else to_string (size / 1024 ^ Z.of_nat u) +:+ "." +:+ string_of_digits ds) +:+ " " +:+ binary_name u)
     ∧ length ds = p ∧ Forall (λ d, 0 ≤ d ≤ 9) ds
     ∧ decimals ds = size mod 1024 ^ Z.of_nat u * 10 ^ Z.of_nat p / 1024 ^ Z.of_nat u)
  ∧ ((4 ≤ u)%nat → stringifyFileSize 1024 size p = Ok ("inf " +:+ binary_name u)).
Proof.
  intros Hu Hs Hlt. rewrite (file_size_text size u p Hu Hs Hlt). split; intros Hu2.
  - assert (u32 (1024 ^ Z.of_nat u) = 1024 ^ Z.of_nat u ∧ 0 < 1024 ^ Z.of_nat u ∧ 1024 ^ Z.of_nat u * 10 ≤ 2 ^ 32) as (-> & H0 & H1).
    { do 3 (destruct u as [|u]; [done|]). lia. }
    destruct (stringifyFraction_spec size _ p H0 H1) as (ds & -> & Hds). by exists ds.
  - do 7 (destruct u as [|u]; [try lia; done|]). lia.
Qed.

Lemma file_size_range_witness : stringifyFileSize 1024 (2 ^ 41) 1 = Ok "inf TiB"%string
  ∧ ∃ ds, stringifyFileSize 1024 1536 1 = Ok ("1" +:+ "." +:+ string_of_digits ds +:+ " KiB")%string ∧ decimals ds = 5.
Proof.
  split.
  - apply (file_size_range (2 ^ 41) 4 1); lia.
  - destruct (proj1 (file_size_range 1536 1 1 ltac:(lia) ltac:(lia) ltac:(lia)) ltac:(lia)) as (ds & H & _ & _ & Hv).
    exists ds. split; [|exact Hv]. rewrite H. reflexivity.
Defined.
