(* ===== verification/Transport.v ===== *)
(** * Messages over TCP

    [src/src/comm/tcp.cpp], [tcp.hpp] and [buffer.hpp]: how the nodes connect,
    and how messages of [MSG_SIZE] bytes are written to and cut out of the byte
    stream of a connection.  The operating system is an interface: [Stream] is
    its [recv], [StreamOk] what POSIX says of it.  A byte is an integer. *)
From stdpp Require Import base tactics list numbers functions strings.
From Stdlib Require Import ZArith Lia.
From S2P Require Import Prelude Types Msg.

#[local] Open Scope Z_scope.

(** ** The operating system *)

(** What [recv(sock, p, cap, 0)] does: returns a number of bytes and stores
    them, returns -1, or does not return. *)
Inductive recv_result (S : Type) :=
| Got (chunk : list Z) (s : S)
| Minus1 (s : S)
| Waits.
Arguments Got {S} _ _.
Arguments Minus1 {S} _.
Arguments Waits {S}.

Class Stream (S : Type) := recv : S → nat → recv_result S.

(** The documented behaviour: the bytes arrive in order, at most [cap] of them
    at a time; no bytes mean that the peer has closed the connection and nothing
    is left; a failed call consumes nothing, and only finitely many fail; a call
    waits only while the connection is open and empty. *)
Class StreamOk (S : Type) `{Stream S} := {
  pending : S → list Z;
  failures : S → nat;
  closed : S → bool;
  recv_got s cap chunk s' : recv s cap = Got chunk s' → (0 < cap)%nat →
    pending s = chunk ++ pending s' ∧ (length chunk ≤ cap)%nat ∧ (failures s' ≤ failures s)%nat ∧ closed s' = closed s
    ∧ (chunk = [] → pending s = [] ∧ closed s = true);
  recv_failed s cap s' : recv s cap = Minus1 s' → (0 < cap)%nat →
    pending s' = pending s ∧ (failures s' < failures s)%nat ∧ closed s' = closed s;
  recv_waits s cap : recv s cap = Waits → (0 < cap)%nat → pending s = [] ∧ closed s = false }.

(** ** The code *)

Definition BUF_SIZE : Z := 1500.
Definition N_RECV_BUFFERS : nat := 10.
Definition MAX_NODES : Z := 10.
Definition MSG_BYTES : nat := Z.to_nat MSG_SIZE.

(** [PacketBuffer]; [alloc] leaves both fields as the allocator left them. *)
Record PacketBuffer := MkPkt { buffer : list Z; pkt_len : Z }.

Definition pkt_resize (len : Z) (p : PacketBuffer) : outcome PacketBuffer :=
  if BUF_SIZE <? len then Fail (Thrown PacketBufferTooSmall) else Ok (MkPkt (buffer p) len).

(** [TCPCommunicator] with the statistics of the file. *)
Record TCPCommunicator := MkTcp {
  recv_buffers : list PacketBuffer;
  node_sockfds : list Z;
  tcp_node_id : node_t;
  calls_recv : Z;
  len_recv : Z;
  len_dist : list Z }.

Definition realloc_bufs (fresh : list PacketBuffer) (c : TCPCommunicator) : TCPCommunicator :=
  MkTcp fresh (node_sockfds c) (tcp_node_id c) (calls_recv c) (len_recv c) (len_dist c).
Definition set_sockfds (fds : list Z) (c : TCPCommunicator) : TCPCommunicator :=
  MkTcp (recv_buffers c) fds (tcp_node_id c) (calls_recv c) (len_recv c) (len_dist c).
Definition count_recv (n_filled len : Z) (c : TCPCommunicator) : TCPCommunicator :=
  MkTcp (recv_buffers c) (node_sockfds c) (tcp_node_id c)
        (u64 (calls_recv c + n_filled)) (u64 (len_recv c + len)) (len_dist c ++ [len]).

(** [send]: what is written to which socket.  [written] is what [::send] returns. *)
Definition send (written : Z → list Z → Z) (c : TCPCommunicator) (target : node_t) (pkt : PacketBuffer) : outcome (Z * list Z) :=
  _ ← assert ((node_u32 target <? Z.of_nat (length (node_sockfds c))) && negb (node_u32 target =? node_u32 (tcp_node_id c)));
  fd ← zget (node_sockfds c) (node_u32 target);
  let bytes := take MSG_BYTES (buffer pkt) in
  _ ← assert (written fd bytes =? MSG_SIZE);
  Ok (fd, bytes).

Section Receive.
Context {S : Type} `{Stream S}.

(** The loop of [receive]: [buf] is the filled part of the local array. *)
Fixpoint recv_loop (fuel : nat) (s : S) (buf : list Z) : outcome (list Z * S) :=
  match fuel with
  | O => Fail Spins
  | Datatypes.S fuel' =>
      match recv s (N_RECV_BUFFERS * MSG_BYTES - length buf) with
      | Waits => Fail Spins
      | Minus1 s' => recv_loop fuel' s' buf
      | Got chunk s' =>
          let buf' := buf ++ chunk in
          if bool_decide (length buf' mod MSG_BYTES = 0)%nat then Ok (buf', s') else recv_loop fuel' s' buf'
      end
  end.

(** One [memcpy] into a receive buffer. *)
Definition fill_packet (bufs : list PacketBuffer) (buf : list Z) (pkts : list PacketBuffer) (i : nat) : outcome (list PacketBuffer) :=
  pb ← aget bufs i;
  Ok (pkts ++ [MkPkt (take MSG_BYTES (drop (MSG_BYTES * i) buf) ++ drop MSG_BYTES (buffer pb)) 0]).

Definition receive (fuel : nat) (fresh : list PacketBuffer) (c : TCPCommunicator) (net : Z → S)
    : outcome (list PacketBuffer * TCPCommunicator * (Z → S)) :=
  _ ← assert (bool_decide (length (node_sockfds c) = 2)%nat);
  sock ← zget (node_sockfds c) (if node_u32 (tcp_node_id c) =? 0 then 1 else 0);
  '(buf, s') ← recv_loop fuel (net sock) [];
  let n_filled := (length buf / MSG_BYTES)%nat in
  pkts ← ofold (fill_packet (recv_buffers c) buf) (seq 0 n_filled) [];
  Ok (pkts, count_recv (Z.of_nat n_filled) (Z.of_nat (length buf)) (realloc_bufs fresh c), <[sock := s']> net).

(** [rounds] turns of the thread of [set_handler]; [fresh i] is what the [i]-th
    [realloc_bufs] allocates. *)
Fixpoint serve {H} (handle : H → PacketBuffer → outcome H) (fuel rounds : nat) (fresh : nat → list PacketBuffer)
    (c : TCPCommunicator) (net : Z → S) (h : H) : outcome (H * TCPCommunicator * (Z → S)) :=
  match rounds with
  | O => Ok (h, c, net)
  | Datatypes.S r =>
      '(pkts, c', net') ← receive fuel (fresh O) c net;
      h' ← ofold handle pkts h;
      serve handle fuel r (λ i, fresh (Datatypes.S i)) c' net' h'
  end.
End Receive.

(** ** The constructor *)

(** What [connect] returns: 0, -1 with [ECONNREFUSED], or another error. *)
Inductive attempt := Connected | Refused | OtherError.

(** [for (j = 0; j<num_nodes; ++j)] over the servers, up to the one with the
    address. *)
Fixpoint find_server (todo : nat) (servers : list string) (ip : string) (j : nat) : outcome nat :=
  match todo with
  | O => Ok j
  | S todo' => s ← aget servers j; if decide (ip = s) then Ok j else find_server todo' servers ip (S j)
  end.

Section Connect.
Variable num_nodes me : nat.
Variable servers : list string.
(** The result of the [accept] of the [n]-th turn, with the peer's address. *)
Variable accept : nat → Z * string.
(** The socket of the [n]-th turn, and what its [connect]s return. *)
Variable socket : nat → Z.
Variable connect : nat → list attempt.

Definition accept_one (fds : list Z) (n : nat) : outcome (list Z) :=
  let '(client_sock, ip) := accept n in
  _ ← assert (0 <=? client_sock);
  j ← find_server num_nodes servers ip 0;
  fds' ← (if decide (j < num_nodes)%nat then aset fds j client_sock else Ok fds);
  _ ← assert (bool_decide (me < j)%nat && bool_decide (j < num_nodes)%nat);
  Ok fds'.

Fixpoint connect_loop (tries : list attempt) : outcome unit :=
  match tries with
  | [] => Fail Spins
  | Connected :: _ => Ok tt
  | Refused :: tries' => connect_loop tries'
  | OtherError :: _ => Fail AssertFailed
  end.

Definition connect_one (fds : list Z) (n : nat) : outcome (list Z) :=
  _ ← assert (0 <=? socket n);
  _ ← connect_loop (connect n);
  aset fds n (socket n).

Definition TCPCommunicator_make (fresh : list PacketBuffer) : outcome TCPCommunicator :=
  let c := realloc_bufs fresh (MkTcp [] (replicate num_nodes 0) (node_of (Z.of_nat me)) 0 0 []) in
  _ ← assert (Z.of_nat num_nodes <=? MAX_NODES);
  fds ← ofold accept_one (seq (1 + me) (num_nodes - (1 + me))) (node_sockfds c);
  fds ← ofold connect_one (seq 0 me) fds;
  Ok (set_sockfds fds c).
End Connect.

(** ** Equal pieces of a byte string *)

Section Pieces.
Variable m : nat.

Lemma concat_cut (msgs : list (list Z)) k a b : Forall (λ x, length x = m) msgs → (k ≤ length msgs)%nat →
  concat msgs = a ++ b → length a = (m * k)%nat → a = concat (take k msgs) ∧ b = concat (drop k msgs).
Proof.
  intros Hm Hk Hab Ha. rewrite <-(take_drop k msgs), concat_app in Hab at 1. apply app_inj_1 in Hab as [-> ->]; [done|].
  rewrite Ha, (concat_uniform m) by (by apply Forall_take). rewrite length_take, Nat.min_l by done. done.
Qed.

Lemma concat_piece (msgs : list (list Z)) i x : Forall (λ y, length y = m) msgs → msgs !! i = Some x →
  take m (drop (m * i) (concat msgs)) = x.
Proof.
  intros Hm. revert i. induction Hm as [|y msgs Hy _ IH]; intros i Hi; [done|]. destruct i as [|i]; cbn [concat lookup list_lookup] in *.
  - simplify_eq. rewrite Nat.mul_0_r, drop_0. by rewrite take_app_length.
  - rewrite drop_app_ge by lia. rewrite Hy. replace (m * S i - m)%nat with (m * i)%nat by lia. by apply IH.
Qed.
End Pieces.

(** ** Receiving *)

(** The message a packet holds. *)
Definition payload (p : PacketBuffer) : list Z := take MSG_BYTES (buffer p).

Lemma fill_packets (bufs : list PacketBuffer) (msgs : list (list Z)) :
  Forall (λ x, length x = MSG_BYTES) msgs → (length msgs ≤ length bufs)%nat →
  ∃ pkts, ofold (fill_packet bufs (concat msgs)) (seq 0 (length msgs)) [] = Ok pkts
    ∧ payload <$> pkts = msgs ∧ Forall (λ p, pkt_len p = 0) pkts.
Proof.
  intros Hm Hl. destruct (ofold_total (λ pre pkts, payload <$> pkts = take (length pre) msgs ∧ Forall (λ p, pkt_len p = 0) pkts)
    (fill_packet bufs (concat msgs)) (seq 0 (length msgs)) []) as (pkts & H & Hp & Hz).
  - done.
  - intros pre i post pkts Hseq [Hp Hz]. destruct (seq_cut _ _ _ _ _ Hseq) as (_ & Hi & Hlt). rewrite Nat.add_0_l in Hi. rewrite <-Hi in *.
    destruct (lookup_lt_is_Some_2 bufs i) as [pb Hpb]; [lia|]. destruct (lookup_lt_is_Some_2 msgs i) as [x Hx]; [lia|].
    unfold fill_packet. rewrite (aget_some _ _ _ Hpb). cbn [mbind outcome_bind]. rewrite (concat_piece MSG_BYTES msgs i x Hm Hx).
    eexists. split; [reflexivity|]. rewrite fmap_app, length_app, Hp. cbn [fmap list_fmap length]. rewrite Nat.add_1_r, <-Hi, (take_S_r _ _ _ Hx).
    split; [|by apply Forall_app; split; [|repeat constructor]]. unfold payload. cbn [buffer].
    rewrite Forall_lookup in Hm. by rewrite take_app_length' by (by rewrite (Hm i x Hx)).
  - exists pkts. split_and!; try done. by rewrite Hp, length_seq, firstn_all.
Qed.

Section Framing.
Context {S : Type} `{StreamOk S}.


Lemma recv_loop_spec fuel s buf :
  ((length buf + length (pending s)) mod MSG_BYTES = 0)%nat → (length buf < N_RECV_BUFFERS * MSG_BYTES)%nat → pending s ≠ [] →
  (length (pending s) + failures s < fuel)%nat →
  ∃ chunk s', recv_loop fuel s buf = Ok (buf ++ chunk, s') ∧ pending s = chunk ++ pending s' ∧ chunk ≠ []
    ∧ (length (buf ++ chunk) mod MSG_BYTES = 0)%nat ∧ (length (buf ++ chunk) ≤ N_RECV_BUFFERS * MSG_BYTES)%nat ∧ (failures s' ≤ failures s)%nat.
Proof.
  revert s buf. induction fuel as [|fuel IH]; intros s buf Hmod Hcap Hne Hfuel; [lia|]. cbn [recv_loop].
  assert (0 < N_RECV_BUFFERS * MSG_BYTES - length buf)%nat as Hpos by lia.
  destruct (recv s _) as [chunk s'|s'|] eqn:Hr.
  - destruct (recv_got _ _ _ _ Hr Hpos) as (Hp & Hlen & Hf & _ & Hnil). assert (chunk ≠ []) as Hcne by (intros E; by destruct (Hnil E)).
    assert (length chunk ≠ 0)%nat as Hcl by (by destruct chunk). rewrite Hp, length_app in Hmod, Hfuel.
    assert (length (buf ++ chunk) ≤ N_RECV_BUFFERS * MSG_BYTES)%nat as Hcap' by (rewrite length_app; lia).
    case_bool_decide as Hdone; [by exists chunk, s'|].
    destruct (IH s' (buf ++ chunk)) as (rest & s'' & -> & Hp' & Hr' & Hm' & Hc' & Hf').
    + rewrite length_app. by replace (length buf + length chunk + length (pending s'))%nat with (length buf + (length chunk + length (pending s')))%nat by lia.
    + destruct (decide (length (buf ++ chunk) = N_RECV_BUFFERS * MSG_BYTES)%nat) as [E|]; [|lia]. by rewrite E in Hdone.
    + intros E. apply Hdone. rewrite E in Hmod. cbn [length] in Hmod. rewrite length_app. by rewrite Nat.add_0_r in Hmod.
    + lia.
    + exists (chunk ++ rest), s''. rewrite !app_assoc. split_and!; try done; [by rewrite Hp, Hp', app_assoc|by destruct chunk|lia].
  - destruct (recv_failed _ _ _ Hr Hpos) as (Hp & Hf & _). rewrite <-Hp in *. destruct (IH s' buf) as (chunk & s'' & Hl & Hc & Hrest); [done..|lia|].
    exists chunk, s''. destruct Hrest as (?&?&?&?). split_and!; try done. lia.
  - by destruct (recv_waits _ _ Hr Hpos).
Qed.

(** What the receiving side needs: two nodes, and a buffer for every message of a
    call. *)
Definition ready (c : TCPCommunicator) (sock : Z) : Prop :=
  length (recv_buffers c) = N_RECV_BUFFERS ∧ length (node_sockfds c) = 2%nat
  ∧ zget (node_sockfds c) (if node_u32 (tcp_node_id c) =? 0 then 1 else 0) = Ok sock.

Lemma receive_spec fuel fresh c (net : Z → S) sock msgs :
  ready c sock → length fresh = N_RECV_BUFFERS → msgs ≠ [] → Forall (λ x, length x = MSG_BYTES) msgs → pending (net sock) = concat msgs →
  (length (concat msgs) + failures (net sock) < fuel)%nat →
  ∃ k pkts c' s', receive fuel fresh c net = Ok (pkts, c', <[sock := s']> net) ∧ (0 < k ≤ length msgs)%nat ∧ (k ≤ N_RECV_BUFFERS)%nat
    ∧ payload <$> pkts = take k msgs ∧ Forall (λ p, pkt_len p = 0) pkts ∧ ready c' sock
    ∧ pending s' = concat (drop k msgs) ∧ (failures s' ≤ failures (net sock))%nat.
Proof.
  intros (Hb & Hfd & Hsock) Hfresh Hne Hm Hp Hfuel. unfold receive. rewrite bool_decide_true by done. cbn [assert mbind outcome_bind]. rewrite Hsock. cbn [mbind outcome_bind].
  pose proof (concat_uniform _ _ Hm) as Hlen. assert (0 < MSG_BYTES)%nat as Hpos by (vm_compute; lia).
  destruct (recv_loop_spec fuel (net sock) []) as (chunk & s' & -> & Hp' & Hcne & Hmod & Hcap & Hf).
  { rewrite Nat.add_0_l, Hp, Hlen, Nat.mul_comm. apply Nat.Div0.mod_mul. }
  { vm_compute; lia. }
  { rewrite Hp. intros E. rewrite E in Hlen. cbn in Hlen. destruct msgs; [done|cbn in Hlen; lia]. }
  { by rewrite Hp. }
  cbn [app mbind outcome_bind] in *. rewrite Hp in Hp'. pose proof (Nat.div_exact (length chunk) MSG_BYTES ltac:(lia)) as [_ Hk]. specialize (Hk Hmod).
  set (k := (length chunk / MSG_BYTES)%nat) in *. assert (length chunk ≠ 0)%nat by (by destruct chunk).
  assert (k ≤ length msgs)%nat as Hkm.
  { apply (f_equal length) in Hp'. rewrite Hlen, length_app in Hp'. nia. }
  destruct (concat_cut _ msgs k chunk (pending s') Hm Hkm Hp' Hk) as [Hchunk Hrest].
  destruct (fill_packets (recv_buffers c) (take k msgs)) as (pkts & Hfill & Hpay & Hz).
  { by apply Forall_take. }
  { rewrite length_take, Hb. nia. }
  rewrite length_take, Nat.min_l in Hfill by done. rewrite Hchunk, Hfill. cbn [mbind outcome_bind].
  exists k, pkts. do 2 eexists. split; [reflexivity|]. split_and!; try done; [nia|nia].
Qed.

Lemma serve_spec {A} (handle : A → PacketBuffer → outcome A) fuel sock n : ∀ msgs fresh c (net : Z → S) h,
  (length msgs ≤ n)%nat → (∀ r, length (fresh r) = N_RECV_BUFFERS) → ready c sock → Forall (λ x, length x = MSG_BYTES) msgs →
  pending (net sock) = concat msgs → (length (concat msgs) + failures (net sock) < fuel)%nat →
  ∃ rounds got c' net', (rounds ≤ length msgs)%nat
    ∧ serve handle fuel rounds fresh c net h = (h' ← ofold handle got h; Ok (h', c', net'))
    ∧ payload <$> got = msgs ∧ Forall (λ p, pkt_len p = 0) got ∧ pending (net' sock) = [] ∧ ready c' sock.
Proof.
  induction n as [|n IH]; intros msgs fresh c net h Hn Hfresh Hready Hm Hp Hfuel;
    (destruct (decide (msgs = [])) as [->|Hne]; [by exists 0%nat, [], c, net|]); [destruct msgs; [done|cbn in Hn; lia]|].
  destruct (receive_spec fuel (fresh O) c net sock msgs) as (k & pkts & c1 & s1 & Hr & Hk & _ & Hpay & Hz & Hr1 & Hp1 & Hf1); [done..|].
  assert (∀ h1, ∃ rounds got c' net', (rounds ≤ length (drop k msgs))%nat
    ∧ serve handle fuel rounds (λ i, fresh (Datatypes.S i)) c1 (<[sock := s1]> net) h1 = (h' ← ofold handle got h1; Ok (h', c', net'))
    ∧ payload <$> got = drop k msgs ∧ Forall (λ p, pkt_len p = 0) got ∧ pending (net' sock) = [] ∧ ready c' sock) as Hrest.
  { intros h1. apply IH; rewrite ?fn_lookup_insert, ?length_drop; try done; [lia|by apply Forall_drop|].
    rewrite <-(take_drop k msgs), concat_app, length_app in Hfuel. lia. }
  destruct (Hrest (match ofold handle pkts h with Ok h1 => h1 | Fail _ => h end)) as (rounds & got & c' & net' & Hle & Hs & Hpay' & Hz' & Hp' & Hr').
  exists (Datatypes.S rounds), (pkts ++ got), c', net'. rewrite length_drop in Hle.
  split_and!; try done; [lia| |by rewrite fmap_app, Hpay, Hpay', take_drop|by apply Forall_app].
  cbn [serve]. rewrite Hr. cbn [mbind outcome_bind]. rewrite ofold_app. by destruct (ofold handle pkts h).
Qed.

Lemma recv_loop_closed fuel s buf : closed s = true → (0 < length buf + length (pending s) < MSG_BYTES)%nat → recv_loop fuel s buf = Fail Spins.
Proof.
  revert s buf. induction fuel as [|fuel IH]; intros s buf Hc Hlen; [done|]. cbn [recv_loop].
  assert (0 < N_RECV_BUFFERS * MSG_BYTES - length buf)%nat as Hpos by (unfold N_RECV_BUFFERS; lia).
  destruct (recv s _) as [chunk s'|s'|] eqn:Hr.
  - destruct (recv_got _ _ _ _ Hr Hpos) as (Hp & _ & _ & Hc' & Hnil). rewrite Hp, length_app in Hlen.
    assert (length (buf ++ chunk) ≠ 0)%nat.
    { rewrite length_app. destruct chunk as [|z chunk]; [|cbn; lia]. destruct (Hnil eq_refl) as [Hp0 _]. rewrite Hp0 in Hp. symmetry in Hp.
      cbn [app] in Hp. rewrite Hp in Hlen. cbn in Hlen |- *. lia. }
    rewrite bool_decide_false by (rewrite Nat.mod_small; [done|rewrite length_app; lia]). apply IH; [congruence|rewrite length_app; lia].
  - destruct (recv_failed _ _ _ Hr Hpos) as (Hp & _ & Hc'). apply IH; [congruence|by rewrite Hp].
  - done.
Qed.
End Framing.

(** Several sends to one target: the bytes written. *)
Definition send_all (written : Z → list Z → Z) (c : TCPCommunicator) (target : node_t) (pkts : list PacketBuffer) : outcome (list Z) :=
  ofold (λ wire p, '(_, bytes) ← send written c target p; Ok (wire ++ bytes)) pkts [].

Lemma send_all_bytes written c target pkts wire : send_all written c target pkts = Ok wire → wire = concat (payload <$> pkts).
Proof.
  intros Hs. refine (ofold_inv (λ pre wire, wire = concat (payload <$> pre)) _ pkts [] wire _ _ Hs); [done|].
  intros pre p post w1 w2 _ -> Hf. minv. destruct r as [fd bytes]. unfold send in E. minv. rewrite fmap_app, concat_app. cbn. by rewrite app_nil_r.
Qed.

(** C28: messages arrive whole, once and in order.  Whatever one node sends to the
    other through [send], and however the operating system cuts the bytes of the
    connection into pieces and interrupts the calls, the receiving thread hands
    the handler packets that hold exactly those messages, in the order in which
    they were sent, after at most as many rounds as there are messages, and leaves
    nothing unread. *)
Theorem tcp_delivers {S} `{StreamOk S} {A} (handle : A → PacketBuffer → outcome A) written from target pkts wire
    fuel fresh c (net : Z → S) sock h :
  send_all written from target pkts = Ok wire → Forall (λ p, length (buffer p) = Z.to_nat BUF_SIZE) pkts →
  ready c sock → (∀ r, length (fresh r) = N_RECV_BUFFERS) → pending (net sock) = wire → (length wire + failures (net sock) < fuel)%nat →
  ∃ rounds got c' net', (rounds ≤ length pkts)%nat
    ∧ serve handle fuel rounds fresh c net h = (h' ← ofold handle got h; Ok (h', c', net'))
    ∧ payload <$> got = payload <$> pkts ∧ Forall (λ p, pkt_len p = 0) got ∧ pending (net' sock) = [].
Proof.
  intros Hs Hb Hr Hfresh Hp Hfuel. apply send_all_bytes in Hs as ->.
  destruct (serve_spec handle fuel sock (length pkts) (payload <$> pkts) fresh c net h) as (rounds & got & c' & net' & Hle & Hsv & Hpay & Hz & Hp' & _); try done.
  - by rewrite length_fmap.
  - apply Forall_fmap. eapply Forall_impl; [exact Hb|]. intros p Hl. cbn. unfold payload. rewrite length_take, Hl. done.
  - rewrite length_fmap in Hle. by exists rounds, got, c', net'.
Qed.

(** A peer that goes away within a message stops the receiving thread for
    good: [recv] returns 0 from then on, the number of bytes stays no multiple of
    the message size, and the loop of [receive] never ends. *)
Theorem closed_mid_message_spins {S} `{StreamOk S} fuel fresh c (net : Z → S) sock :
  ready c sock → closed (net sock) = true → (0 < length (pending (net sock)) < MSG_BYTES)%nat →
  receive fuel fresh c net = Fail Spins.
Proof.
  intros (_ & Hfd & Hsock) Hc Hlen. unfold receive. rewrite bool_decide_true by done. cbn [assert mbind outcome_bind]. rewrite Hsock. cbn [mbind outcome_bind].
  by rewrite recv_loop_closed.
Qed.

(** ** Connecting *)

Lemma find_server_spec (servers : list string) j ip todo k : servers !! j = Some ip → (∀ i, (k ≤ i < j)%nat → servers !! i ≠ Some ip) →
  (k ≤ j < k + todo)%nat → find_server todo servers ip k = Ok j.
Proof.
  intros Hj Hbefore. revert k Hbefore. induction todo as [|todo IH]; intros k Hbefore Hk; [lia|]. cbn [find_server].
  destruct (decide (k = j)) as [->|Hne].
  - rewrite (aget_some _ _ _ Hj). cbn [mbind outcome_bind]. by rewrite decide_True.
  - destruct (lookup_lt_is_Some_2 servers k) as [x Hx]; [apply lookup_lt_Some in Hj; lia|]. rewrite (aget_some _ _ _ Hx). cbn [mbind outcome_bind].
    rewrite decide_False; [apply IH; [intros i Hi; apply Hbefore; lia|lia]|]. intros ->. by apply (Hbefore k); [lia|].
Qed.

Section Topology.
Variable num_nodes me : nat.
Variable servers : list string.
Variable accept : nat → Z * string.
Variable socket : nat → Z.
Variable connect : nat → list attempt.
(** The peers in the order in which their connections are accepted, and the
    socket of each. *)
Variable order : nat → nat.
Variable sock_of : nat → Z.
Hypothesis Hme : (me < num_nodes ≤ 10)%nat.
Hypothesis Hservers : (num_nodes ≤ length servers)%nat.
Hypothesis Hdistinct : NoDup servers.
Hypothesis Hsock : ∀ j, 0 ≤ sock_of j.
Hypothesis Horder : order <$> seq (1 + me) (num_nodes - (1 + me)) ≡ₚ seq (1 + me) (num_nodes - (1 + me)).
Hypothesis Haccept : ∀ n, accept n = (sock_of (order n), servers !!! order n).
Hypothesis Hsocket : ∀ n, (n < me)%nat → socket n = sock_of n ∧ ∃ r rest, connect n = replicate r Refused ++ Connected :: rest.

Lemma accept_one_spec fds n : (1 + me ≤ n < num_nodes)%nat → length fds = num_nodes →
  (me < order n < num_nodes)%nat ∧ accept_one num_nodes me servers accept fds n = Ok (<[order n := sock_of (order n)]> fds).
Proof.
  intros Hn Hfds. assert (order n ∈ seq (1 + me) (num_nodes - (1 + me))) as Hin.
  { rewrite <-Horder. apply list_elem_of_fmap. exists n. split; [done|]. apply elem_of_seq. lia. }
  apply elem_of_seq in Hin. split; [lia|]. unfold accept_one. rewrite Haccept. rewrite (proj2 (Z.leb_le _ _) (Hsock _)). cbn [assert mbind outcome_bind].
  destruct (lookup_lt_is_Some_2 servers (order n)) as [ip Hip]; [lia|]. rewrite (list_lookup_total_correct _ _ _ Hip).
  rewrite (find_server_spec servers (order n)); [|done| |lia].
  - cbn [mbind outcome_bind]. rewrite decide_True by lia. rewrite aset_lt by lia. cbn [mbind outcome_bind]. by rewrite !bool_decide_true by lia.
  - intros i Hi E. pose proof (NoDup_lookup _ _ _ _ Hdistinct E Hip). lia.
Qed.

Lemma connect_loop_spec r rest : connect_loop (replicate r Refused ++ Connected :: rest) = Ok tt.
Proof. induction r as [|r IH]; [done|exact IH]. Qed.

Lemma make_spec fresh : ∃ c, TCPCommunicator_make num_nodes me servers accept socket connect fresh = Ok c
  ∧ length (node_sockfds c) = num_nodes ∧ recv_buffers c = fresh ∧ tcp_node_id c = node_of (Z.of_nat me)
  ∧ ∀ j, (j < num_nodes)%nat → j ≠ me → node_sockfds c !! j = Some (sock_of j).
Proof.
  unfold TCPCommunicator_make. rewrite (proj2 (Z.leb_le _ _)) by (unfold MAX_NODES; lia). cbn [assert mbind outcome_bind].
  destruct (ofold_total (λ pre fds, length fds = num_nodes ∧ ∀ j, j ∈ order <$> pre → fds !! j = Some (sock_of j))
    (accept_one num_nodes me servers accept) (seq (1 + me) (num_nodes - (1 + me))) (replicate num_nodes 0)) as (fds1 & H1 & Hl1 & Hf1).
  { split; [apply length_replicate|]. intros j Hj. by apply elem_of_nil in Hj. }
  { intros pre n post fds Hseq [Hl Hf]. destruct (seq_cut _ _ _ _ _ Hseq) as (_ & Hn & Hlt). destruct (accept_one_spec fds n) as [Hr ->]; [lia|done|].
    eexists. split; [done|]. split; [by rewrite length_insert|]. intros j. rewrite fmap_app. intros [Hj|Hj%list_elem_of_singleton]%elem_of_app.
    - destruct (decide (j = order n)) as [->|]; [apply list_lookup_insert_eq; lia|]. rewrite list_lookup_insert_ne by done. by apply Hf.
    - subst. apply list_lookup_insert_eq. lia. }
  cbn [realloc_bufs node_sockfds]. rewrite H1. cbn [mbind outcome_bind].
  destruct (ofold_total (λ pre fds, length fds = num_nodes ∧ (∀ j, (me < j < num_nodes)%nat → fds !! j = Some (sock_of j)) ∧ ∀ j, (j < length pre)%nat → fds !! j = Some (sock_of j))
    (connect_one socket connect) (seq 0 me) fds1) as (fds2 & H2 & Hl2 & Hf2 & Hg2).
  { split; [done|]. split; [|cbn; lia]. intros j Hj. apply Hf1. rewrite Horder. apply elem_of_seq. lia. }
  { intros pre n post fds Hseq (Hl & Hf & Hg). destruct (seq_cut _ _ _ _ _ Hseq) as (_ & Hn & Hlt). destruct (Hsocket n) as [Hs (r & rest & Hc)]; [lia|].
    unfold connect_one. rewrite Hs, (proj2 (Z.leb_le _ _) (Hsock _)), Hc, connect_loop_spec. cbn [assert mbind outcome_bind]. rewrite aset_lt by lia.
    eexists. split; [done|]. rewrite length_insert, length_app. split; [done|]. cbn [length].
    split; intros j Hj; (destruct (decide (j = n)) as [->|]; [apply list_lookup_insert_eq; lia|rewrite list_lookup_insert_ne by done]); [apply Hf; lia|apply Hg; lia]. }
  rewrite H2. cbn [mbind outcome_bind]. eexists. split; [done|]. cbn [set_sockfds node_sockfds recv_buffers tcp_node_id]. split_and!; try done.
  intros j Hj Hne. rewrite length_seq in Hg2. destruct (decide (j < me)%nat); [by apply Hg2|]. apply Hf2. lia.
Qed.
End Topology.

(** The nodes connect to each other.  When the servers have distinct
    addresses and every node above this one connects, in any order, the
    constructor succeeds whatever number of times its own connections are refused
    at first, and the socket of every other node is stored under its number.  But
    with other than two nodes the first [receive] fails its assertion. *)
Theorem tcp_connects {S} `{Stream S} num_nodes me servers accept socket connect order sock_of fresh :
  (me < num_nodes ≤ 10)%nat → (num_nodes ≤ length servers)%nat → NoDup servers → (∀ j, 0 ≤ sock_of j) →
  order <$> seq (1 + me) (num_nodes - (1 + me)) ≡ₚ seq (1 + me) (num_nodes - (1 + me)) →
  (∀ n, accept n = (sock_of (order n), servers !!! order n)) →
  (∀ n, (n < me)%nat → socket n = sock_of n ∧ ∃ r rest, connect n = replicate r Refused ++ Connected :: rest) →
  ∃ c, TCPCommunicator_make num_nodes me servers accept socket connect fresh = Ok c
    ∧ (∀ j, (j < num_nodes)%nat → j ≠ me → node_sockfds c !! j = Some (sock_of j))
    ∧ (num_nodes ≠ 2%nat → ∀ fuel fresh' (net : Z → S), receive fuel fresh' c net = Fail AssertFailed).
Proof.
  intros. edestruct make_spec as (c & Hmk & Hl & _ & _ & Hfd); [eassumption..|]. exists c. split; [done|]. split; [done|].
  intros Hnot2 fuel fresh' net. unfold receive. by rewrite bool_decide_false by (by rewrite Hl).
Qed.

(** ** A scripted connection *)

(** The pieces in which the bytes arrive, [None] for a failed call. *)
Record script := MkScript { pieces : list (option (Z * list Z)); hung_up : bool }.
Definition script_bytes (l : list (option (Z * list Z))) : list Z := l ≫= λ o, match o with Some (z, t) => z :: t | None => [] end.
Definition push_piece (bytes : list Z) (l : list (option (Z * list Z))) : list (option (Z * list Z)) :=
  match bytes with [] => l | z :: t => Some (z, t) :: l end.

#[global] Instance script_stream : Stream script := λ s cap,
  match pieces s with
  | [] => if hung_up s then Got [] s else Waits
  | None :: l => Minus1 (MkScript l (hung_up s))
  | Some (z, t) :: l => Got (take cap (z :: t)) (MkScript (push_piece (drop cap (z :: t)) l) (hung_up s))
  end.

Lemma push_piece_bytes bytes l : script_bytes (push_piece bytes l) = bytes ++ script_bytes l.
Proof. by destruct bytes. Qed.

#[global] Program Instance script_ok : StreamOk script := {
  pending s := script_bytes (pieces s);
  failures s := length (filter (λ o, o = None) (pieces s));
  closed := hung_up }.
Next Obligation.
  intros [[|[[z t]|] l] hup] cap chunk s'; unfold recv, script_stream; cbn [pieces hung_up]; intros Hr Hcap.
  - destruct hup; simplify_eq. cbn. split_and!; done || lia.
  - simplify_eq. cbn [pieces hung_up]. rewrite push_piece_bytes, app_assoc, take_drop. split_and!; try done.
    + rewrite length_take. lia.
    + rewrite filter_cons_False by done. unfold push_piece. destruct (drop cap (z :: t)); [done|by rewrite filter_cons_False].
    + by destruct cap; [lia|].
  - done.
Qed.
Next Obligation.
  intros [[|[[z t]|] l] hup] cap s'; unfold recv, script_stream; cbn [pieces hung_up]; intros Hr Hcap; [by destruct hup|done|].
  simplify_eq. cbn [pieces hung_up]. rewrite filter_cons_True by done. split_and!; done || (cbn; lia).
Qed.
Next Obligation. intros [[|[[z t]|] l] hup] cap; unfold recv, script_stream; cbn [pieces hung_up]; intros Hr Hcap; by destruct hup. Qed.

(** Two nodes, and two messages that arrive in three pieces with a failed call
    in between. *)
Definition a_packet (z : Z) : PacketBuffer := MkPkt (replicate (Z.to_nat BUF_SIZE) z) 7.
Definition spare : nat → list PacketBuffer := λ _, replicate N_RECV_BUFFERS (a_packet 99).
Definition node0 : TCPCommunicator := MkTcp (spare 0) [0; 5] (node_of 0) 0 0 [].
Definition node1 : TCPCommunicator := MkTcp (spare 0) [6; 0] (node_of 1) 0 0 [].
Definition arrivals : script :=
  MkScript [Some (1, replicate 49 1); None; Some (1, replicate 21 1 ++ replicate 30 2); Some (2, replicate 41 2)] false.

Lemma tcp_delivers_witness : ∃ rounds got c' net', (rounds ≤ 2)%nat
  ∧ serve (λ seen p, Ok (seen ++ [payload p])) 200 rounds spare node0 (λ _, arrivals) [] = (h' ← ofold (λ seen p, Ok (seen ++ [payload p])) got []; Ok (h', c', net'))
  ∧ payload <$> got = [replicate MSG_BYTES 1; replicate MSG_BYTES 2].
Proof.
  destruct (tcp_delivers (λ seen p, Ok (seen ++ [payload p])) (λ _ _, MSG_SIZE) node1 (node_of 0) [a_packet 1; a_packet 2]
    (replicate MSG_BYTES 1 ++ replicate MSG_BYTES 2) 200 spare node0 (λ _, arrivals) 5 []) as (rounds & got & c' & net' & Hle & Hs & Hp & _).
  - vm_compute. reflexivity.
  - repeat constructor.
  - split; [|split]; vm_compute; reflexivity.
  - reflexivity.
  - vm_compute. reflexivity.
  - vm_compute. lia.
  - exists rounds, got, c', net'. split; [exact Hle|]. split; [exact Hs|]. rewrite Hp. vm_compute. reflexivity.
Defined.

Lemma closed_mid_message_spins_witness : receive 1000 (spare 0) node0 (λ _, MkScript [Some (1, replicate 49 1)] true) = Fail Spins.
Proof.
  apply (closed_mid_message_spins 1000 (spare 0) node0 (λ _, MkScript [Some (1, replicate 49 1)] true) 5).
  - split; [|split]; vm_compute; reflexivity.
  - reflexivity.
  - vm_compute. lia.
Defined.

Example one_round_suffices : (λ r, match r with Ok (h, c, _) => Some (h, calls_recv c, len_recv c) | Fail _ => None end)
    (serve (λ seen p, Ok (seen ++ [payload p])) 200 1 spare node0 (λ _, arrivals) [])
  = Some ([replicate MSG_BYTES 1; replicate MSG_BYTES 2], 2, 144).
Proof. vm_compute. reflexivity. Qed.

Lemma tcp_connects_witness : ∃ c, TCPCommunicator_make 3 1 ["10.0.0.1"; "10.0.0.2"; "10.0.0.3"]%string (λ n, (Z.of_nat 2 + 4, "10.0.0.3"%string))
    (λ n, Z.of_nat n + 4) (λ _, [Refused; Refused; Connected]) (spare 0) = Ok c
  ∧ node_sockfds c !! 0%nat = Some 4 ∧ node_sockfds c !! 2%nat = Some 6
  ∧ receive 10 (spare 0) c (λ _, arrivals) = Fail AssertFailed.
Proof.
  destruct (tcp_connects (S:=script) 3 1 ["10.0.0.1"; "10.0.0.2"; "10.0.0.3"]%string (λ n, (Z.of_nat 2 + 4, "10.0.0.3"%string))
    (λ n, Z.of_nat n + 4) (λ _, [Refused; Refused; Connected]) (λ _, 2%nat) (λ j, Z.of_nat j + 4) (spare 0)) as (c & Hc & Hfd & Hr).
  - lia.
  - cbn. lia.
  - apply (bool_decide_unpack _). vm_compute. exact I.
  - intros j. lia.
  - reflexivity.
  - intros n. reflexivity.
  - intros n Hn. split; [reflexivity|]. exists 2%nat, []. reflexivity.
  - exists c. split; [exact Hc|]. split; [apply (Hfd 0%nat); lia|]. split; [apply (Hfd 2%nat); lia|]. apply Hr. lia.
Defined.
