(* ===== verification/Udp.v ===== *)
(** * Messages over UDP

    [comm/udp.cpp] and [udp.hpp]: the communicator that [comm.hpp] can select
    instead of TCP.  A packet is one datagram; the receiving thread polls the
    socket without waiting.  The socket calls are arguments. *)
From stdpp Require Import base tactics list numbers strings.
From Stdlib Require Import ZArith Lia.
From S2P Require Import Prelude Types Msg Transport.

#[local] Open Scope Z_scope.

(** A server of the configuration and the address made from it: [inet_pton] and
    [htons] are injective on the addresses and ports used. *)
Record UDPCommunicator := MkUdp { udp_addresses : list (string * Z); udp_node : Z; udp_recv_buffer : option PacketBuffer }.

(** A function of the communicator returns or ends the program. *)
Inductive udp_result (A : Type) := Returns (a : A) | Exits.
Arguments Returns {A} _.
Arguments Exits {A}.

(** The constructor, with [setup]: [sock] and [bound] are what [socket] and [bind]
    return. *)
Definition udp_make (node_id : nat) (servers : list (string * Z)) (sock bound : Z) : outcome (udp_result UDPCommunicator) :=
  match servers !! node_id with
  | None => Fail (Thrown OutOfRangeError)
  | Some _ =>
      if sock <? 0 then Ok Exits
      else if bound <? 0 then Ok Exits
      else Ok (Returns (MkUdp servers (Z.of_nat node_id) None))
  end.

(** [send]: the address and the bytes of the datagram. *)
Definition udp_send (sendto : string * Z → list Z → Z) (c : UDPCommunicator) (target : node_t) (pkt : PacketBuffer)
  : outcome (udp_result ((string * Z) * list Z)) :=
  if Z.of_nat (length (udp_addresses c)) <=? node_u32 target then Fail (Thrown RuntimeError)
  else
    a ← zget (udp_addresses c) (node_u32 target);
    let bytes := take (Z.to_nat (pkt_len pkt)) (buffer pkt) in
    if sendto a bytes =? pkt_len pkt then Ok (Returns (a, bytes)) else Ok Exits.

(** What [recv] with [MSG_DONTWAIT] returns: the bytes of a datagram, cut to the
    buffer, or -1 with [errno]. *)
Inductive dgram := Data (bytes : list Z) | Failed (errno : Z).

(** [receive], with the buffer [malloc] returns; [nullptr] is [None]. *)
Definition udp_receive (fresh : PacketBuffer) (d : dgram) (c : UDPCommunicator) : option PacketBuffer * UDPCommunicator :=
  let b := default fresh (udp_recv_buffer c) in
  let c1 := MkUdp (udp_addresses c) (udp_node c) (Some b) in
  match d with
  | Failed _ => (None, c1)
  | Data bytes =>
      let got := take (Z.to_nat BUF_SIZE) bytes in
      if bool_decide (length got = 0%nat) then (None, c1)
      else (Some (MkPkt (got ++ drop (length got) (buffer b)) (Z.of_nat (length got))), MkUdp (udp_addresses c) (udp_node c) None)
  end.

(** The thread of [set_handler], one turn per [recv]. *)
Fixpoint udp_serve {H} (handle : H → PacketBuffer → outcome H) (fresh : nat → PacketBuffer) (ds : list dgram) (c : UDPCommunicator) (h : H)
  : outcome (H * UDPCommunicator) :=
  match ds with
  | [] => Ok (h, c)
  | d :: ds' =>
      let '(pkt, c') := udp_receive (fresh O) d c in
      h' ← match pkt with None => Ok h | Some p => handle h p end;
      udp_serve handle (λ i, fresh (S i)) ds' c' h'
  end.

(** ** Packets arrive as they were sent *)

(** A packet as [alloc] and [ctor] leave it: a full buffer and the size of the
    message. *)
Definition good_pkt (p : PacketBuffer) : Prop := length (buffer p) = Z.to_nat BUF_SIZE ∧ 0 < pkt_len p ≤ BUF_SIZE.
Definition contents (p : PacketBuffer) : list Z := take (Z.to_nat (pkt_len p)) (buffer p).

(** The datagrams among the results of [recv]. *)
Definition datagrams (ds : list dgram) : list (list Z) := omap (λ d, match d with Data b => Some b | Failed _ => None end) ds.

Lemma contents_length p : good_pkt p → length (contents p) = Z.to_nat (pkt_len p).
Proof. intros [Hl Hp]. unfold contents. rewrite length_take, Hl. lia. Qed.

(** The datagrams of packets reach the handler as packets with the same
    contents, in order, whatever failed calls are between them; a packet to a
    node that does not exist is refused. *)
Theorem udp_delivers sendto c target pkts (ds : list dgram) fresh :
  Forall good_pkt pkts → 0 ≤ node_u32 target → (∀ a b, sendto a b = Z.of_nat (length b)) →
  datagrams ds = contents <$> pkts →
  Forall (λ p, udp_send sendto c target p = match udp_addresses c !! Z.to_nat (node_u32 target) with
                                            | Some a => Ok (Returns (a, contents p))
                                            | None => Fail (Thrown RuntimeError)
                                            end) pkts
  ∧ ∀ h, ∃ h' c', udp_serve (λ h p, Ok (h ++ [contents p])) fresh ds c h = Ok (h', c') ∧ h' = h ++ (contents <$> pkts).
Proof.
  intros Hpkts Ht Hsend Hds. split.
  - eapply Forall_impl; [exact Hpkts|]. intros p Hp. pose proof (contents_length p Hp) as Hlen. destruct Hp as [Hb Hl].
    unfold udp_send. destruct (udp_addresses c !! _) as [a|] eqn:E.
    + pose proof (lookup_lt_Some _ _ _ E). rewrite (proj2 (Z.leb_gt _ _)) by lia. rewrite (zget_some _ _ _ Ht E). cbn [mbind outcome_bind].
      fold (contents p). rewrite Hsend, Hlen, (proj2 (Z.eqb_eq _ _)) by lia. done.
    + apply lookup_ge_None_1 in E. by rewrite (proj2 (Z.leb_le _ _)) by lia.
  - revert pkts Hpkts Hds c fresh. induction ds as [|d ds IH]; intros pkts Hpkts Hds c fresh h.
    { cbn in Hds. symmetry in Hds. apply fmap_nil_inv in Hds as ->. exists h, c. by rewrite app_nil_r. }
    cbn [udp_serve]. destruct d as [bytes|e]; cbn [udp_receive].
    + cbn in Hds. destruct pkts as [|p pkts]; [done|]. injection Hds as -> Hds. apply Forall_cons in Hpkts as [Hp Hpkts].
      pose proof (contents_length p Hp) as Hlen. destruct Hp as [Hb Hl]. rewrite (take_ge (contents p)) by (unfold BUF_SIZE in *; lia).
      rewrite bool_decide_eq_false_2 by lia. cbn [mbind outcome_bind]. destruct (IH pkts Hpkts Hds (MkUdp (udp_addresses c) (udp_node c) None) (λ i, fresh (S i)) (h ++ [contents p])) as (h' & c' & H & ->).
      exists ((h ++ [contents p]) ++ (contents <$> pkts)), c'. split; [|by rewrite <-app_assoc]. rewrite <-H. f_equal. f_equal. f_equal. unfold contents at 1. cbn [pkt_len buffer].
      rewrite Nat2Z.id. by rewrite take_app_length.
    + cbn in Hds. cbn [mbind outcome_bind]. by apply IH.
Qed.
