(* ===== verification/HexDump.v ===== *)
(** * Dumps of buffers

    [utils/hex_dump.cpp], with which [PacketBuffer::dump] prints the bytes of a
    message.  Text is a list of character codes.  A dump determines the bytes: a
    small automaton reads them back.  The printable characters next to them are
    only defined for bytes below 128. *)
From stdpp Require Import base tactics list numbers.
From Stdlib Require Import ZArith Lia.
From S2P Require Import Prelude.

#[local] Open Scope Z_scope.

(** [std::isprint] on a [char]: the value of a byte from 128 on is negative,
    and the function is not defined on it. *)
Definition isprint (c : Z) : outcome bool :=
  if c <? 128 then Ok ((32 <=? c) && (c <=? 126)) else Fail OutOfBounds.

(** The bytes [buffer[a], ..., buffer[a + n - 1]]. *)
Definition read_range (buffer : list Z) (a n : nat) : outcome (list Z) :=
  if decide (a + n ≤ length buffer)%nat then Ok (take n (drop a buffer)) else Fail OutOfBounds.

Definition put_char (os : list Z) (c : Z) : outcome (list Z) :=
  p ← isprint c; Ok (os ++ [if (p : bool) then c else 46]).

Definition render_printable_chars (os : list Z) (chars : list Z) : outcome (list Z) := ofold put_char chars (os ++ [32; 124; 32]).

(** [os << std::setw(2) << unsigned(b)] with [std::hex] and fill ['0']. *)
Definition hex_digit (d : Z) : Z := if d <? 10 then 48 + d else 87 + d.
Definition hex2 (b : Z) : list Z := [hex_digit (b / 16); hex_digit (b mod 16)].

Section dump.
Context (buffer : list Z) (showPrintableChars : bool).

(** The end of a line of eight bytes. *)
Definition end_line (os : list Z) (i : nat) : outcome (list Z) :=
  if bool_decide (i ≠ 0%nat) && showPrintableChars then chars ← read_range buffer (i - 8) 8; render_printable_chars os chars else Ok os.

Definition new_line (st : list Z * bool) (i : nat) : outcome (list Z * bool) :=
  if bool_decide (i `mod` 8 = 0)%nat then os1 ← end_line st.1 i; Ok (os1 ++ [10], false) else Ok st.

(** One turn of the loop: the text so far and [printBlank]. *)
Definition dump_byte (st : list Z * bool) (i : nat) : outcome (list Z * bool) :=
  '(os, printBlank) ← new_line st i;
  let os := if (printBlank : bool) then os ++ [32] else os in
  b ← aget buffer i;
  Ok (os ++ hex2 b, true).

Definition hex_dump : outcome (list Z) :=
  let n := length buffer in
  '(os, _) ← ofold dump_byte (seq 0 n) ([], false);
  os1 ←
    (if bool_decide (n `mod` 8 ≠ 0)%nat && showPrintableChars then
       chars ← read_range buffer (n - n `mod` 8) (n `mod` 8);
       render_printable_chars (os ++ concat (replicate (8 - n `mod` 8) [32; 32; 32])) chars
     else if bool_decide (0 < n)%nat && showPrintableChars then chars ← read_range buffer (n - 8) 8; render_printable_chars os chars
     else Ok os);
  Ok (os1 ++ [10]).
End dump.

(** ** Reading a dump *)

(** At the start of a line or after a blank; within a byte; after a byte; in the
    printable characters. *)
Inductive dump_state := Fresh | Half (d : Z) | Done | Aside.

Definition hex_val (c : Z) : option Z :=
  if (48 <=? c) && (c <=? 57) then Some (c - 48) else if (97 <=? c) && (c <=? 102) then Some (c - 87) else None.

Definition feed (st : dump_state * list Z) (c : Z) : dump_state * list Z :=
  if c =? 10 then (Fresh, st.2) else
  match st.1 with
  | Fresh => match hex_val c with Some d => (Half d, st.2) | None => (Aside, st.2) end
  | Half d => match hex_val c with Some e => (Done, st.2 ++ [16 * d + e]) | None => (Aside, st.2) end
  | Done => if c =? 32 then (Fresh, st.2) else (Aside, st.2)
  | Aside => st
  end.

Definition undump (text : list Z) : list Z := (foldl feed (Fresh, []) text).2.

(** ** The round trip *)

Definition is_byte (b : Z) : Prop := 0 ≤ b < 256.
Definition shown (show : bool) (b : Z) : Prop := show = true → b < 128.

Lemma hex_digit_val d : 0 ≤ d < 16 → hex_val (hex_digit d) = Some d ∧ hex_digit d ≠ 10.
Proof.
  intros Hd. unfold hex_digit, hex_val. destruct (Z.ltb_spec d 10).
  - rewrite !(proj2 (Z.leb_le _ _)) by lia. cbn. split; [f_equal; lia|lia].
  - rewrite (proj2 (Z.leb_gt (87 + d) 57)), !(proj2 (Z.leb_le _ _)) by lia. cbn. split; [f_equal; lia|lia].
Qed.

(** Two digits give a byte. *)
Lemma feed_hex2 b acc : is_byte b → foldl feed (Fresh, acc) (hex2 b) = (Done, acc ++ [b]).
Proof.
  intros Hb. unfold is_byte in Hb. assert (0 ≤ b / 16 < 16) as H1 by (split; [apply Z.div_pos; lia|apply Z.div_lt_upper_bound; lia]).
  pose proof (Z.mod_pos_bound b 16 ltac:(lia)) as H2. destruct (hex_digit_val _ H1) as [V1 N1]. destruct (hex_digit_val _ H2) as [V2 N2].
  unfold hex2. cbn [foldl]. unfold feed at 2. rewrite (proj2 (Z.eqb_neq _ _) N1). cbn [fst snd]. rewrite V1. unfold feed.
  rewrite (proj2 (Z.eqb_neq _ _) N2). cbn [fst snd]. rewrite V2. do 3 f_equal. pose proof (Z.div_mod b 16). lia.
Qed.

(** What is rendered does not disturb the reader, and only needs small bytes. *)
Lemma aside_stays acc l : Forall (λ c, c ≠ 10) l → foldl feed (Aside, acc) l = (Aside, acc).
Proof. induction 1 as [|c l Hc Hl IH]; cbn [foldl]; [done|]. unfold feed at 2. by rewrite (proj2 (Z.eqb_neq _ _) Hc). Qed.

Lemma put_chars l os : Forall (λ c, c < 128) l → ∃ r, ofold put_char l os = Ok (os ++ r) ∧ Forall (λ c, c ≠ 10) r.
Proof.
  intros H. revert os. induction H as [|c l Hc Hl IH]; intros os; cbn [ofold]; [exists []; by rewrite app_nil_r|].
  assert (∃ c', put_char os c = Ok (os ++ [c']) ∧ c' ≠ 10) as (c' & -> & Hc').
  { unfold put_char, isprint. rewrite (proj2 (Z.ltb_lt _ _) Hc). eexists. split; [done|]. destruct (Z.leb_spec 32 c), (Z.leb_spec c 126); cbn; lia. }
  cbn [mbind outcome_bind]. destruct (IH (os ++ [c'])) as (r & -> & Hr). exists (c' :: r). rewrite <-app_assoc. split; [done|].
  by constructor.
Qed.

Lemma put_chars_small l os os' : ofold put_char l os = Ok os' → Forall (λ c, c < 128) l.
Proof.
  revert os. induction l as [|c l IH]; intros os H; [constructor|]. cbn [ofold] in H. apply bind_ok in H as (os1 & Hp & H).
  unfold put_char, isprint in Hp. destruct (Z.ltb_spec c 128); [|done]. constructor; [done|by eapply IH].
Qed.

(** The line of a dump is closed: printable characters, if any. *)
Lemma render_done s os chars acc : s = Done ∨ s = Aside → foldl feed (Fresh, []) os = (s, acc) → Forall (λ c, c < 128) chars →
  ∃ os', render_printable_chars os chars = Ok os' ∧ foldl feed (Fresh, []) os' = (Aside, acc).
Proof.
  intros Hs Hos Hc. unfold render_printable_chars. destruct (put_chars chars (os ++ [32; 124; 32]) Hc) as (r & -> & Hr).
  eexists. split; [done|]. rewrite !foldl_app, Hos. cbn [foldl].
  replace (feed (feed (feed (s, acc) 32) 124) 32) with (Aside, acc) by (by destruct Hs as [-> | ->]). by apply aside_stays.
Qed.

Lemma range_ok buffer a n : (a + n ≤ length buffer)%nat → read_range buffer a n = Ok (take n (drop a buffer)).
Proof. intros H. unfold read_range. by rewrite decide_True. Qed.

Lemma range_forall (P : Z → Prop) buffer a n : Forall P buffer → Forall P (take n (drop a buffer)).
Proof. intros H. by apply Forall_take, Forall_drop. Qed.

Lemma small_shown show buffer : show = true → Forall (shown show) buffer → Forall (λ c, c < 128) buffer.
Proof. intros Hs. apply Forall_impl. intros c Hc. by apply Hc. Qed.

(** The loop: after [k] bytes the text reads as these. *)
Definition dumped (buffer : list Z) (k : nat) (st : list Z * bool) : Prop :=
  foldl feed (Fresh, []) st.1 = (if decide (k = 0%nat) then Fresh else Done, take k buffer) ∧ st.2 = bool_decide (k ≠ 0%nat).

Lemma newline_reads os st acc : foldl feed (Fresh, []) os = (st, acc) → foldl feed (Fresh, []) (os ++ [10]) = (Fresh, acc).
Proof. intros H. by rewrite foldl_app, H. Qed.

Lemma dump_byte_reads buffer show k st : Forall is_byte buffer → Forall (shown show) buffer → (k < length buffer)%nat → dumped buffer k st →
  ∃ st', dump_byte buffer show st k = Ok st' ∧ dumped buffer (S k) st'.
Proof.
  intros Hby Hsh Hk [Hf Hb]. destruct st as [os blank]. cbn [fst snd] in *. destruct (lookup_lt_is_Some_2 buffer k Hk) as [b Hlk].
  assert (is_byte b) as Hbb by (rewrite Forall_lookup in Hby; by eapply Hby).
  cut (∃ os1, new_line buffer show (os, blank) k = Ok os1
       ∧ foldl feed (Fresh, []) (if os1.2 : bool then os1.1 ++ [32] else os1.1) = (Fresh, take k buffer)).
  { intros ([os1 blank1] & E1 & R1). cbn [fst snd] in R1. unfold dump_byte. cbn [fst snd]. rewrite E1. cbn [mbind outcome_bind]. rewrite (aget_some _ _ _ Hlk). cbn [mbind outcome_bind].
    eexists. split; [done|]. split; [|done]. cbn [fst]. rewrite foldl_app, R1, feed_hex2 by done. by rewrite (take_S_r _ _ b). }
  unfold new_line. cbn [fst]. destruct (decide (k `mod` 8 = 0)%nat) as [E8|E8]; [rewrite (bool_decide_eq_true_2 _ E8)|rewrite (bool_decide_eq_false_2 _ E8)].
  - clear Hb. assert (∃ os1 s, end_line buffer show os k = Ok os1 ∧ foldl feed (Fresh, []) os1 = (s, take k buffer)) as (os1 & s & -> & R1).
    { unfold end_line. case_bool_decide as E0; cbn [andb]; [|eauto]. destruct show eqn:Hs; [|eauto]. rewrite decide_False in Hf by done.
      assert (8 ≤ k)%nat as Hk8 by (pose proof (Nat.div_mod_eq k 8) as Hdm; rewrite E8 in Hdm; lia). rewrite range_ok by lia. cbn [mbind outcome_bind].
      destruct (render_done Done os (take 8 (drop (k - 8) buffer)) _ (or_introl eq_refl) Hf) as (os1 & E1 & R1); [by apply range_forall, (small_shown true)|]. eauto. }
    eexists. split; [done|]. cbn [fst snd]. by eapply newline_reads.
  - eexists. split; [done|]. cbn [fst snd]. assert (k ≠ 0%nat) as Hk0 by (intros ->; done). rewrite decide_False in Hf by done.
    rewrite Hb, bool_decide_eq_true_2 by done. by rewrite foldl_app, Hf.
Qed.

Lemma dump_loop_reads buffer show k : Forall is_byte buffer → Forall (shown show) buffer → (k ≤ length buffer)%nat →
  ∃ st, ofold (dump_byte buffer show) (seq 0 k) ([], false) = Ok st ∧ dumped buffer k st.
Proof.
  intros Hby Hsh. induction k as [|k IH]; intros Hk; [by eexists|]. destruct IH as (st & E & Hd); [lia|].
  rewrite seq_S, ofold_app, E. cbn [mbind outcome_bind ofold Nat.add]. destruct (dump_byte_reads buffer show k st Hby Hsh Hk Hd) as (st' & -> & Hd').
  by exists st'.
Qed.

Lemma pad_aside os acc m : (0 < m)%nat → foldl feed (Fresh, []) os = (Done, acc) → foldl feed (Fresh, []) (os ++ concat (replicate m [32; 32; 32])) = (Aside, acc).
Proof.
  intros Hm Hos. rewrite foldl_app, Hos. destruct m as [|m]; [lia|]. cbn [replicate concat app foldl].
  change (feed (feed (feed (Done, acc) 32) 32) 32) with (Aside, acc). apply aside_stays, Forall_concat, Forall_replicate. by repeat constructor.
Qed.

(** The bytes of a dump can be read back. *)
Lemma hex_dump_reads buffer show : Forall is_byte buffer → Forall (shown show) buffer →
  ∃ text, hex_dump buffer show = Ok text ∧ undump text = buffer.
Proof.
  intros Hby Hsh. destruct (dump_loop_reads buffer show (length buffer) Hby Hsh) as ([os blank] & E & Hf & _); [lia|].
  unfold hex_dump. rewrite E. cbn [mbind outcome_bind fst] in *. rewrite take_ge in Hf by lia. set (n := length buffer) in *.
  cut (∀ x, (∃ os1 s, x = Ok os1 ∧ foldl feed (Fresh, []) os1 = (s, buffer)) → ∃ text, (os1 ← x; Ok (os1 ++ [10])) = Ok text ∧ undump text = buffer).
  { intros H. apply H. pose proof (Nat.div_mod_eq n 8). pose proof (Nat.mod_upper_bound n 8 ltac:(lia)).
    destruct show; rewrite ?andb_false_r; [|eauto]. rewrite !andb_true_r. case_bool_decide as E8.
    - rewrite range_ok by lia. cbn [mbind outcome_bind]. rewrite decide_False in Hf by (intros ->; done).
      destruct (render_done Aside (os ++ concat (replicate (8 - n `mod` 8) [32; 32; 32])) (take (n `mod` 8) (drop (n - n `mod` 8) buffer)) buffer) as (os1 & -> & R1);
        [by right|by apply pad_aside; [lia|]|by apply range_forall, (small_shown true)|]. eauto.
    - case_bool_decide as E0; [|eauto]. assert (8 ≤ n)%nat by lia. rewrite range_ok by (fold n; lia). cbn [mbind outcome_bind].
      rewrite decide_False in Hf by lia. destruct (render_done Done os (take 8 (drop (n - 8) buffer)) _ (or_introl eq_refl) Hf) as (os1 & -> & R1); [by apply range_forall, (small_shown true)|]. eauto. }
  intros x (os1 & s & -> & R1). eexists. split; [done|]. unfold undump. by rewrite (newline_reads _ _ _ R1).
Qed.

(** ** What the printable characters need *)

(** A byte that has been printed next to its line is below 128. *)
Lemma dump_byte_small buffer st k st' : dump_byte buffer true st k = Ok st' → (k < length buffer)%nat →
  Forall (λ c, c < 128) (take (8 * ((k - 1) / 8)) buffer) → Forall (λ c, c < 128) (take (8 * (k / 8)) buffer).
Proof.
  intros H Hk Hf. unfold dump_byte, new_line in H. pose proof (Nat.div_mod_eq k 8) as Hdm. pose proof (Nat.mod_upper_bound k 8 ltac:(lia)).
  destruct (decide (k `mod` 8 = 0)%nat) as [E8|E8]; [rewrite (bool_decide_eq_true_2 _ E8) in H|].
  - destruct (decide (k = 0%nat)) as [->|E0]; [constructor|]. unfold end_line in H. rewrite bool_decide_eq_true_2 in H by done. cbn [andb] in H.
    minv. unfold read_range in *. rewrite decide_True in * by lia. minv. unfold render_printable_chars in *.
    match goal with Hr : ofold put_char _ _ = Ok _ |- _ => apply put_chars_small in Hr as Hnew end.
    replace ((k - 1) / 8)%nat with (k / 8 - 1)%nat in Hf by (apply (Nat.div_unique _ _ _ 7); lia).
    replace (8 * (k / 8))%nat with ((k - 8) + 8)%nat by lia. rewrite <-take_take_drop. apply Forall_app. split; [|done].
    by replace (k - 8)%nat with (8 * (k / 8 - 1))%nat by lia.
  - replace (k / 8)%nat with ((k - 1) / 8)%nat; [done|]. symmetry. apply (Nat.div_unique _ _ _ (k `mod` 8 - 1)); lia.
Qed.

Lemma dump_loop_small buffer k st : (k ≤ length buffer)%nat → ofold (dump_byte buffer true) (seq 0 k) ([], false) = Ok st →
  Forall (λ c, c < 128) (take (8 * ((k - 1) / 8)) buffer).
Proof.
  revert st. induction k as [|k IH]; intros st Hk H; [constructor|]. rewrite seq_S, ofold_app in H. apply bind_ok in H as (st1 & H1 & H2).
  cbn [ofold Nat.add] in H2. apply bind_ok in H2 as (st2 & H2 & _). replace (S k - 1)%nat with k by lia.
  eapply dump_byte_small; [exact H2|lia|]. eapply IH; [lia|exact H1].
Qed.

Lemma hex_dump_small buffer text : hex_dump buffer true = Ok text → Forall (λ c, c < 128) buffer.
Proof.
  intros H. unfold hex_dump in H. set (n := length buffer) in *. apply bind_ok in H as ([os blank] & Hl & H).
  pose proof (dump_loop_small buffer n _ ltac:(lia) Hl) as Hold. clear Hl. apply bind_ok in H as (os1 & H & _). rewrite !andb_true_r in H.
  pose proof (Nat.div_mod_eq n 8) as Hdm. pose proof (Nat.mod_upper_bound n 8 ltac:(lia)).
  destruct (decide (n = 0%nat)) as [E0|E0]; [by apply nil_length_inv in E0 as ->|].
  assert (∃ a m, (a + m = n)%nat ∧ Forall (λ c, c < 128) (take a buffer) ∧ ∃ o o', ofold put_char (take m (drop a buffer)) o = Ok o') as (a & m & Ham & Ha & o & o' & Hp).
  { case_bool_decide as E8.
    - exists (n - n `mod` 8)%nat, (n `mod` 8)%nat. rewrite range_ok in H by (fold n; lia). split; [lia|]. split; [|by do 2 eexists].
      replace ((n - 1) / 8)%nat with (n / 8)%nat in Hold by (apply (Nat.div_unique _ _ _ (n `mod` 8 - 1)); lia). by replace (n - n `mod` 8)%nat with (8 * (n / 8))%nat by lia.
    - rewrite bool_decide_eq_true_2 in H by lia. exists (n - 8)%nat, 8%nat. rewrite range_ok in H by (fold n; lia). split; [lia|]. split; [|by do 2 eexists].
      replace ((n - 1) / 8)%nat with (n / 8 - 1)%nat in Hold by (apply (Nat.div_unique _ _ _ 7); lia). by replace (n - 8)%nat with (8 * (n / 8 - 1))%nat by lia. }
  apply put_chars_small in Hp. rewrite <-(take_drop a buffer). apply Forall_app. split; [done|]. rewrite <-(take_ge (drop a buffer) m); [done|]. rewrite length_drop. fold n. lia.
Qed.

(** [hex_dump] of any buffer without the printable characters, and of a buffer of
    bytes below 128 with them, prints a text from which the buffer can be read
    back.  With the printable characters, as [PacketBuffer::dump] calls it, it is
    defined for no other buffer. *)
Theorem hex_dump_roundtrip buffer : Forall is_byte buffer →
  (∃ text, hex_dump buffer false = Ok text ∧ undump text = buffer)
  ∧ (Forall (λ c, c < 128) buffer → ∃ text, hex_dump buffer true = Ok text ∧ undump text = buffer)
  ∧ (¬ Forall (λ c, c < 128) buffer → ∀ text, hex_dump buffer true ≠ Ok text).
Proof.
  intros Hby. split_and!.
  - apply hex_dump_reads; [done|]. apply Forall_forall. intros c _. done.
  - intros Hs. apply hex_dump_reads; [done|]. eapply Forall_impl; [|exact Hs]. by intros c Hc _.
  - intros Hs text H. by eapply Hs, hex_dump_small.
Qed.

Example hex_dump_hello : hex_dump [104; 105; 33; 0; 1; 2; 3; 4; 90] true =
  Ok ([10; 54; 56; 32; 54; 57; 32; 50; 49; 32; 48; 48; 32; 48; 49; 32; 48; 50; 32; 48; 51; 32; 48; 52; 32; 124; 32; 104; 105; 33; 46; 46; 46; 46; 46]
      ++ [10; 53; 97] ++ replicate 21 32 ++ [32; 124; 32; 90; 10]).
Proof. reflexivity. Qed.
