(* ===== verification/SwitchEmu.v ===== *)
(** * The stand-in for the switch

    [switch_src/switch_emu.cpp]: a program that sends every packet back to where it
    came from, for runs without a switch.  What [recvfrom] and [sendto] return is an
    argument. *)
From stdpp Require Import base tactics list numbers.
From Stdlib Require Import ZArith Lia.
From S2P Require Import Prelude.

#[local] Open Scope Z_scope.

Definition EMU_BUF_SIZE : nat := 1500.

(** [n_received] and [prev_msg_size]. *)
Record emu := MkEmu { n_received : Z; prev_msg_size : Z }.
Definition emu_start : emu := MkEmu 0 (-1).

(** A call of [recvfrom]: its sender and the datagram, or an error; [sendto]
    afterwards. *)
Record emu_input (A : Type) := MkEmuIn { from : A; dgram_of : option (list Z); emu_sent : Z }.
Arguments MkEmuIn {A}. Arguments from {A}. Arguments dgram_of {A}. Arguments emu_sent {A}.

Section emu.
Context {A : Type}.

(** One turn: [recvfrom] cuts a datagram off at the size of the buffer. *)
Definition emu_turn (st : emu * list (A * list Z)) (io : emu_input A) : outcome (emu * list (A * list Z)) :=
  let buf := take EMU_BUF_SIZE (default [] (dgram_of io)) in
  let nr := match dgram_of io with Some _ => Z.of_nat (length buf) | None => -1 end in
  let n := u64 (n_received st.1 + 1) in
  assert ((0 <? nr) && ((prev_msg_size st.1 =? -1) || (nr =? prev_msg_size st.1)));;
  assert (0 <? emu_sent io);;
  Ok (MkEmu n nr, st.2 ++ [(from io, buf)]).

Definition switch_emu (ios : list (emu_input A)) : outcome (emu * list (A * list Z)) := ofold emu_turn ios (emu_start, []).

(** Datagrams of one size [k] that fits the buffer, all sent back. *)
Definition uniform (k : nat) (io : emu_input A) : Prop := (∃ d, dgram_of io = Some d ∧ length d = k) ∧ 0 < emu_sent io.

Definition echo_of (io : emu_input A) : A * list Z := (from io, default [] (dgram_of io)).

Lemma emu_echoes k ios n prev out : (0 < k ≤ EMU_BUF_SIZE)%nat → Forall (uniform k) ios → prev = -1 ∨ prev = Z.of_nat k → 0 ≤ n → n + Z.of_nat (length ios) < 2 ^ 64 →
  ofold emu_turn ios (MkEmu n prev, out)
  = Ok (MkEmu (n + Z.of_nat (length ios)) (match ios with [] => prev | _ => Z.of_nat k end), out ++ (echo_of <$> ios)).
Proof.
  intros Hk Hall. revert n prev out. induction Hall as [|io ios [(d & Hd & Hlen) Hs] Hall IH]; intros n prev out Hp H0 Hn; cbn [ofold].
  - cbn. by rewrite app_nil_r, Z.add_0_r.
  - assert (emu_turn (MkEmu n prev, out) io = Ok (MkEmu (n + 1) (Z.of_nat k), out ++ [echo_of io])) as ->.
    { unfold emu_turn, echo_of. cbn [fst snd n_received prev_msg_size]. rewrite Hd. cbn [from_option].  change (id d) with d. rewrite take_ge by (by rewrite Hlen; apply Hk). rewrite Hlen.
      rewrite (proj2 (Z.ltb_lt 0 (Z.of_nat k))) by lia. assert ((prev =? -1) || (Z.of_nat k =? prev) = true) as ->.
      { destruct Hp as [-> | ->]; [done|]. rewrite Z.eqb_refl. apply orb_true_r. }
      cbn [andb assert mbind outcome_bind]. rewrite (proj2 (Z.ltb_lt 0 (emu_sent io))) by done. cbn [assert mbind outcome_bind]. rewrite wrap_small by (cbn [length] in Hn; lia). done. }
    cbn [mbind outcome_bind]. rewrite IH by (try (by right); cbn [length] in Hn; lia). cbn [length fmap list_fmap]. rewrite <-app_assoc. do 3 f_equal; [lia|by destruct ios].
Qed.

(** As long as all packets have the same size, each is sent back to its sender
    unchanged, in order, and all are counted; the first packet of another size (or
    an empty one, or an error of [recvfrom]) ends the program. *)
Theorem switch_emu_echoes k ios : (0 < k ≤ EMU_BUF_SIZE)%nat → Forall (uniform k) ios → Z.of_nat (length ios) < 2 ^ 64 →
  (∃ st, switch_emu ios = Ok (st, echo_of <$> ios) ∧ n_received st = Z.of_nat (length ios))
  ∧ ∀ io, ios ≠ [] → (∀ d, dgram_of io = Some d → length d ≠ k ∧ (length d ≤ EMU_BUF_SIZE)%nat) → switch_emu (ios ++ [io]) = Fail AssertFailed.
Proof.
  intros Hk Hall Hlen. pose proof (emu_echoes k ios 0 (-1) [] Hk Hall (or_introl eq_refl) ltac:(lia) Hlen) as E. split; [by eexists|].
  intros io Hne Hd. unfold switch_emu. rewrite ofold_app. unfold emu_start. rewrite E. cbn [mbind outcome_bind ofold].
  cut (emu_turn (MkEmu (0 + Z.of_nat (length ios)) (match ios with [] => -1 | _ => Z.of_nat k end), [] ++ (echo_of <$> ios)) io = Fail AssertFailed); [by intros ->|].
  unfold emu_turn. cbn [fst snd n_received prev_msg_size]. destruct ios as [|io0 ios]; [done|]. rewrite (proj2 (Z.eqb_neq (Z.of_nat k) (-1))) by lia. cbn [orb].
  destruct (dgram_of io) as [d|]; [|done]. cbn [from_option]. change (id d) with d. destruct (Hd d eq_refl) as [Hne' Hle]. rewrite take_ge by done.
  rewrite (proj2 (Z.eqb_neq (Z.of_nat (length d)) _)) by lia. by rewrite andb_false_r.
Qed.
End emu.
