(* ===== verification/SpinLock.v ===== *)
(** * The spin lock

    [src/src/utils/spinlock.hpp]: [lock], [try_lock] and [unlock] by any number
    of threads, one atomic access of [lock_] per step.  The memory pools and
    the UDP transport take this lock around their critical sections. *)
From stdpp Require Import base tactics list numbers relations.
From Stdlib Require Import ZArith Lia.
From S2P Require Import Prelude.

(** ** The code *)

(** Where a thread is: outside, before the [exchange] of [lock], in its waiting
    loop, before the [load] or the [exchange] of [try_lock], or inside. *)
Inductive spin_pc := Outside | Exchanging | Waiting | TryLoading | TryExchanging | Holding.
#[global] Instance spin_pc_eq_dec : EqDecision spin_pc.
Proof. solve_decision. Defined.

(** What the next access of a thread at [pc] does, given the value of [lock_]:
    the thread's next place and the new value. *)
Definition lock_step (held : bool) (pc : spin_pc) : option (spin_pc * bool) :=
  match pc with
  | Exchanging => Some (if held then Waiting else Holding, true)
  | Waiting => Some (if held then Waiting else Exchanging, held)
  | _ => None
  end.

(** [try_lock]; [Outside] after it is the result [false]. *)
Definition try_step (held : bool) (pc : spin_pc) : option (spin_pc * bool) :=
  match pc with
  | TryLoading => Some (if held then Outside else TryExchanging, held)
  | TryExchanging => Some (if held then Outside else Holding, true)
  | _ => None
  end.

Definition unlock_step (held : bool) (pc : spin_pc) : option (spin_pc * bool) :=
  match pc with Holding => Some (Outside, false) | _ => None end.

(** The lock and the threads that use it. *)
Record spin_state := MkSpin { lock_ : bool; threads : list spin_pc }.

(** A thread calls [lock] or [try_lock], or makes its next access; a holder
    unlocks when it likes. *)
Inductive spin_step (s : spin_state) : spin_state → Prop :=
| spin_call t pc : threads s !! t = Some Outside → pc = Exchanging ∨ pc = TryLoading →
    spin_step s (MkSpin (lock_ s) (<[t := pc]> (threads s)))
| spin_access t pc pc' held' : threads s !! t = Some pc →
    lock_step (lock_ s) pc = Some (pc', held') ∨ try_step (lock_ s) pc = Some (pc', held') ∨ unlock_step (lock_ s) pc = Some (pc', held') →
    spin_step s (MkSpin held' (<[t := pc']> (threads s))).

Definition spin_start (n : nat) : spin_state := MkSpin false (replicate n Outside).

(** ** The invariant *)

(** The lock is taken exactly while one thread holds it, and never by two. *)
Definition spin_inv (s : spin_state) : Prop :=
  (lock_ s = true ↔ ∃ t, threads s !! t = Some Holding) ∧ ∀ t u, threads s !! t = Some Holding → threads s !! u = Some Holding → t = u.

Lemma spin_start_inv n : spin_inv (spin_start n).
Proof.
  assert (∀ t, replicate n Outside !! t ≠ Some Holding) as Hnone by (intros t [H _]%lookup_replicate; done).
  split; cbn; [split; [done|intros [t Ht]; by destruct (Hnone t)]|]. intros t u Ht. by destruct (Hnone t).
Qed.

(** A thread that is not inside moves to another place outside. *)
Lemma spin_inv_outside s t pc pc' : spin_inv s → threads s !! t = Some pc → pc ≠ Holding → pc' ≠ Holding →
  spin_inv (MkSpin (lock_ s) (<[t := pc']> (threads s))).
Proof.
  intros [Hl Hu] Ht Hpc Hpc'. assert (∀ u, <[t := pc']> (threads s) !! u = Some Holding ↔ threads s !! u = Some Holding) as Hsame.
  { intros u. destruct (decide (u = t)) as [->|Hne]; [|by rewrite list_lookup_insert_ne]. rewrite list_lookup_insert_eq by (by eapply lookup_lt_Some). rewrite Ht. naive_solver. }
  split; cbn [lock_ threads].
  - rewrite Hl. split; intros [u Hu']; exists u; by apply Hsame.
  - intros u v Hu1%Hsame Hv%Hsame. by apply Hu.
Qed.

Lemma spin_step_inv s s' : spin_inv s → spin_step s s' → spin_inv s'.
Proof.
  intros Hi Hs. destruct Hs as [t pc Ht Hpc|t pc pc' held' Ht Hacc]; [by apply (spin_inv_outside s t Outside pc Hi Ht); destruct Hpc as [->| ->]|].
  pose proof Hi as [Hl Hu]. apply lookup_lt_Some in Ht as Hlt.
  assert (pc ≠ Holding → pc' ≠ Holding → held' = lock_ s → spin_inv (MkSpin held' (<[t := pc']> (threads s)))) as Hout
    by (intros Hp Hp' ->; by eapply spin_inv_outside).
  assert (lock_ s = false → spin_inv (MkSpin true (<[t := Holding]> (threads s)))) as Hin.
  { intros Hfree. assert (∀ u, threads s !! u ≠ Some Holding) as Hnone by (intros u Hu'; assert (lock_ s = true) by (apply Hl; by exists u); congruence).
    split; cbn [lock_ threads].
    - split; [|done]. intros _. exists t. by apply list_lookup_insert_eq.
    - intros u v Hu1 Hv. apply list_lookup_insert_Some in Hu1 as [(-> & _)|[_ H]]; [|by destruct (Hnone u)].
      apply list_lookup_insert_Some in Hv as [(-> & _)|[_ H]]; [done|by destruct (Hnone v)]. }
  destruct pc, (lock_ s) eqn:Eheld; cbn in Hacc; destruct Hacc as [H|[H|H]]; simplify_eq;
    try (by apply Hout); try (by apply Hin).
  - (* unlock *) split; cbn [lock_ threads].
    + split; [done|]. intros [u Hu']. apply list_lookup_insert_Some in Hu' as [(-> & ? & _)|[Hne H]]; [done|]. by destruct Hne; apply Hu.
    + intros u v Hu1 Hv. apply list_lookup_insert_Some in Hu1 as [(_ & ? & _)|[Hne H]]; [done|]. by destruct Hne; apply Hu.
  - assert (false = true) by (apply Hl; by exists t). done.
Qed.

(** ** Progress *)

(** Every thread inside a call can make its next access. *)
Lemma spin_can_step s t pc : threads s !! t = Some pc → pc ≠ Outside → ∃ pc' held', spin_step s (MkSpin held' (<[t := pc']> (threads s))).
Proof.
  intros Ht Hpc. destruct pc; try done; do 2 eexists; eapply spin_access; try exact Ht; cbn;
    [left; reflexivity|left; reflexivity|right; left; reflexivity|right; left; reflexivity|right; right; reflexivity].
Qed.

(** A thread that finds the lock free and is not disturbed gets it. *)
Lemma spin_gets_lock s t pc : lock_ s = false → threads s !! t = Some pc → pc ∉ [Outside; Holding] →
  rtc spin_step s (MkSpin true (<[t := Holding]> (threads s))).
Proof.
  intros Hf Ht Hpc. apply lookup_lt_Some in Ht as Hlt.
  assert (∀ l, l !! t = Some Exchanging ∨ l !! t = Some TryExchanging → spin_step (MkSpin false l) (MkSpin true (<[t := Holding]> l))) as Hlast.
  { intros l [Hl|Hl]; eapply spin_access; try exact Hl; cbn; auto. }
  assert (∀ pc', pc' = Exchanging ∨ pc' = TryExchanging → spin_step (MkSpin false (threads s)) (MkSpin false (<[t := pc']> (threads s))) →
    rtc spin_step s (MkSpin true (<[t := Holding]> (threads s)))) as Htwo.
  { intros pc' Hpc' Hst. destruct s as [h l]; cbn [lock_ threads] in *; subst h. eapply rtc_l; [exact Hst|].
    rewrite <-(list_insert_insert_eq l t Holding pc'). apply rtc_once, Hlast. rewrite list_lookup_insert_eq by done. naive_solver. }
  destruct s as [h l]; cbn [lock_ threads] in *; subst h. destruct pc; try (by destruct Hpc; set_solver).
  - apply rtc_once, Hlast. by left.
  - apply (Htwo Exchanging); [by left|]. eapply (spin_access (MkSpin false l)); [exact Ht|]. cbn. by left.
  - apply (Htwo TryExchanging); [by right|]. eapply (spin_access (MkSpin false l)); [exact Ht|]. cbn. right. by left.
  - apply rtc_once, Hlast. by right.
Qed.

(** The spin lock is a lock.  Whatever [n] threads do with it through [lock],
    [try_lock] and [unlock], in any interleaving of their atomic accesses, no two
    are ever inside; the flag is set exactly while somebody is; no thread inside a
    call is ever stuck; and when nobody holds the lock, any thread on its way in
    gets it with its next accesses. *)
Theorem spin_lock_excludes n s : rtc spin_step (spin_start n) s →
  (∀ t u, threads s !! t = Some Holding → threads s !! u = Some Holding → t = u)
  ∧ (lock_ s = true ↔ ∃ t, threads s !! t = Some Holding)
  ∧ (∀ t pc, threads s !! t = Some pc → pc ≠ Outside → ∃ pc' held', spin_step s (MkSpin held' (<[t := pc']> (threads s))))
  ∧ ((∀ u, threads s !! u ≠ Some Holding) → ∀ t pc, threads s !! t = Some pc → pc ∉ [Outside; Holding] →
       rtc spin_step s (MkSpin true (<[t := Holding]> (threads s)))).
Proof.
  intros Hr. assert (spin_inv s) as [Hl Hu] by (revert Hr; apply (rtc_ind_r (λ s, spin_inv s)); eauto using spin_start_inv, spin_step_inv).
  split_and!; [done|done|by eauto using spin_can_step|]. intros Hnone t pc Ht Hpc. eapply spin_gets_lock; [|done..].
  apply not_true_is_false. intros [u Hu']%Hl. by destruct (Hnone u).
Qed.

(** Two threads call [lock]; the first gets it and the second waits. *)
Lemma spin_lock_excludes_witness : rtc spin_step (spin_start 2) (MkSpin true [Holding; Waiting])
  ∧ ∀ t u, [Holding; Waiting] !! t = Some Holding → [Holding; Waiting] !! u = Some Holding → t = u.
Proof.
  assert (rtc spin_step (spin_start 2) (MkSpin true [Holding; Waiting])) as Hr.
  { eapply rtc_l; [exact (spin_call (spin_start 2) 0 Exchanging eq_refl (or_introl eq_refl))|].
    eapply rtc_l; [exact (spin_call (MkSpin false [Exchanging; Outside]) 1 Exchanging eq_refl (or_introl eq_refl))|].
    eapply rtc_l; [exact (spin_access (MkSpin false [Exchanging; Exchanging]) 0 Exchanging Holding true eq_refl (or_introl eq_refl))|].
    eapply rtc_l; [exact (spin_access (MkSpin true [Holding; Exchanging]) 1 Exchanging Waiting true eq_refl (or_introl eq_refl))|].
    apply rtc_refl. }
  split; [exact Hr|]. exact (proj1 (spin_lock_excludes 2 (MkSpin true [Holding; Waiting]) Hr)).
Defined.
