(* ===== verification/Timestamps.v ===== *)
(** * Timestamps

    [src/src/utils/ts_factory.hpp] and [ts_factory.cpp]: the three factories.
    [UniqueClockTimestampFactory], the one in use, puts the number of the node and
    of the worker below the nanoseconds since it was made. *)
From stdpp Require Import base tactics list numbers.
From Stdlib Require Import ZArith Lia.
From S2P Require Import Prelude.

#[local] Open Scope Z_scope.

(** [mask = (node_id << 8) | tid], on 32 bits. *)
Definition stamp_mask (node tid : Z) : Z := Z.lor (u32 (Z.shiftl node 8)) tid.

(** [get()] when the clock shows [ns] nanoseconds since the start. *)
Definition unique_get (mask ns : Z) : Z := Z.lor (u64 (Z.shiftl ns 16)) mask.

(** [ClockTimestampFactory::get()]. *)
Definition clock_get (ns : Z) : Z := u64 ns.

(** [AtomicTimestampFactory::get()] on the counter. *)
Definition atomic_get (cntr : Z) : Z * Z := (cntr, u64 (cntr + 1)).

Lemma stamp_mask_spec node tid : 0 ≤ node < 2 ^ 8 → 0 ≤ tid < 2 ^ 8 → stamp_mask node tid = tid + node * 2 ^ 8 ∧ 0 ≤ stamp_mask node tid < 2 ^ 16.
Proof.
  intros Hn Ht. unfold stamp_mask. assert (u32 (Z.shiftl node 8) = Z.shiftl node 8) as -> by (apply wrap_small; rewrite Z.shiftl_mul_pow2 by lia; lia).
  rewrite Z.lor_comm, lor_shiftl_add by lia. lia.
Qed.

Lemma unique_get_spec mask ns : 0 ≤ mask < 2 ^ 16 → unique_get mask ns = mask + wrap 48 ns * 2 ^ 16.
Proof.
  intros Hm. unfold unique_get. assert (u64 (Z.shiftl ns 16) = Z.shiftl (wrap 48 ns) 16) as ->.
  { unfold wrap. rewrite !Z.shiftl_mul_pow2 by lia. change (2 ^ 64) with (2 ^ 48 * 2 ^ 16). by rewrite Z.mul_mod_distr_r by lia. }
  rewrite Z.lor_comm, lor_shiftl_add by lia. lia.
Qed.

(** Timestamps are unique and grow.  Two workers of the cluster never get the
    same timestamp, whatever their clocks show; and the timestamps of one worker
    follow its clock strictly, for the 2^48 nanoseconds (about 3.26 days) after
    which the clock's bits wrap around and old timestamps come back. *)
Theorem timestamps_unique node tid node' tid' ns ns' :
  0 ≤ node < 2 ^ 8 → 0 ≤ tid < 2 ^ 8 → 0 ≤ node' < 2 ^ 8 → 0 ≤ tid' < 2 ^ 8 → 0 ≤ ns →
  ((node, tid) ≠ (node', tid') → unique_get (stamp_mask node tid) ns ≠ unique_get (stamp_mask node' tid') ns')
  ∧ (ns < ns' < 2 ^ 48 → unique_get (stamp_mask node tid) ns < unique_get (stamp_mask node tid) ns')
  ∧ unique_get (stamp_mask node tid) (ns + 2 ^ 48) = unique_get (stamp_mask node tid) ns.
Proof.
  intros Hn Ht Hn' Ht' Hns. destruct (stamp_mask_spec node tid Hn Ht) as [Hm Hb]. destruct (stamp_mask_spec node' tid' Hn' Ht') as [Hm' Hb'].
  rewrite !unique_get_spec by done. split_and!.
  - intros Hne Heq. apply Hne. assert (stamp_mask node tid = stamp_mask node' tid') as Hmm by lia. rewrite Hm, Hm' in Hmm. f_equal; lia.
  - intros Hlt. rewrite !wrap_small by lia. lia.
  - do 2 f_equal. pose proof (wrap_add_mul 48 ns 1 ltac:(lia)) as H. by rewrite Z.mul_1_l in H.
Qed.

Lemma timestamps_unique_witness : unique_get (stamp_mask 1 3) 1000 ≠ unique_get (stamp_mask 0 3) 1000
  ∧ unique_get (stamp_mask 1 3) 1000 < unique_get (stamp_mask 1 3) 1001.
Proof. destruct (timestamps_unique 1 3 0 3 1000 1001) as (_ & H2 & _); [lia..|]. split; [apply (timestamps_unique 1 3 0 3 1000 1000); [lia..|done]|apply H2; lia]. Defined.
