(* ===== verification/Loader.v ===== *)
(** * Loading the trace and handing it to the workers

    [src/src/main/loader.cpp]: the transactions of the trace file and the
    frequencies of the distribution file; [src/src/main/main.cpp]: how the
    transactions are dealt to the worker threads.  Files are lists of characters;
    the streams keep the two bits the code looks at. *)
From stdpp Require Import base tactics list numbers strings.
From Stdlib Require Import ZArith Lia Ascii.
From S2P Require Import Prelude Types Layout Table IntLog.

#[local] Open Scope Z_scope.

(** ** The standard library: lines and numbers *)

Record istream := MkIn { in_rest : list ascii; eofbit : bool; failbit : bool }.
Definition open_file (text : list ascii) : istream := MkIn text false false.

Fixpoint split_at (delim : ascii) (l : list ascii) : option (list ascii * list ascii) :=
  match l with
  | [] => None
  | a :: l' => if decide (a = delim) then Some ([], l') else '(x, y) ← split_at delim l'; Some (a :: x, y)
  end.

(** [std::getline(in, buf, delim)]: a stream that is not good leaves the string
    as it is. *)
Definition getline (delim : ascii) (s : istream) (buf : list ascii) : istream * list ascii :=
  if eofbit s || failbit s then (MkIn (in_rest s) (eofbit s) true, buf)
  else match split_at delim (in_rest s) with
       | Some (x, y) => (MkIn y false false, x)
       | None => (MkIn [] true (bool_decide (in_rest s = [])), in_rest s)
       end.

Definition char_code (a : ascii) : Z := Z.of_N (N_of_ascii a).
Definition is_space (a : ascii) : bool := (char_code a =? 32) || ((9 <=? char_code a) && (char_code a <=? 13)).
Definition is_digit (a : ascii) : bool := (48 <=? char_code a) && (char_code a <=? 57).

Fixpoint skip_spaces (l : list ascii) : list ascii :=
  match l with a :: l' => if is_space a then skip_spaces l' else l | [] => [] end.
Fixpoint take_digits (l : list ascii) : list Z :=
  match l with a :: l' => if is_digit a then char_code a - 48 :: take_digits l' else [] | [] => [] end.

Definition newline : ascii := "010".
Definition comma : ascii := ",".
Definition colon : ascii := ":".

(** [std::stoull]: [std::invalid_argument], a [std::logic_error], without a digit. *)
Definition stoull (l : list ascii) : outcome Z :=
  let l1 := skip_spaces l in
  let '(neg, l2) := match l1 with
                    | a :: r => if decide (a = "-"%char) then (true, r) else if decide (a = "+"%char) then (false, r) else (false, l1)
                    | [] => (false, l1)
                    end in
  let ds := take_digits l2 in
  if bool_decide (ds = []) then Fail (Thrown LogicError)
  else if 2 ^ 64 <=? decimals ds then Fail (Thrown OutOfRangeError)
  else Ok (if neg : bool then u64 (- decimals ds) else decimals ds).

(** ** [load_txns] *)

Section Loading.
(** What [rand()] returns the [k]-th time, and the option [write_prob].  The
    location of a new operation is not initialised. *)
Variable rnd : nat → Z.
Variable write_prob : Z.
Variable junk : LocationInfo.

(** The loop over the fields of a line. *)
Fixpoint read_ops (n : nat) (ss : istream) (access : list ascii) (k : nat) : outcome (list OP * nat) :=
  match n with
  | O => Ok ([], k)
  | S n' =>
      let '(ss', access') := getline comma ss access in
      id ← stoull access';
      let mode := if rnd k mod 100 <? write_prob then WRITE else READ in
      let op := MkOP id junk mode (u32 (rnd (S k) mod 100000)) in
      '(ops, k') ← read_ops n' ss' access' (S (S k));
      Ok (op :: ops, k')
  end.

(** The loop over the lines of the trace. *)
Fixpoint read_trace (fuel : nat) (fin : istream) (buf : list ascii) (loader_id : Z) (k : nat) (txns : list Txn)
    : outcome (list Txn * Z * nat) :=
  match fuel with
  | O => Fail Spins
  | S fuel' =>
      let '(fin', buf') := getline newline fin buf in
      if eofbit fin' then Ok (txns, loader_id, k)
      else
        _ ← assert (negb (failbit fin'));
        '(ops, k') ← read_ops N_OPS (open_file buf') [] k;
        read_trace fuel' fin' buf' (u64 (loader_id + 1)) k' (txns ++ [Txn_init ops loader_id])
  end.

(** [buf.substr(0, spl)] and [buf.substr(spl+1)], also when there is no colon. *)
Definition split_colon (buf : list ascii) : list ascii * list ascii :=
  match split_at colon buf with Some p => p | None => (buf, buf) end.

Fixpoint read_dist (fuel : nat) (fdist : istream) (buf : list ascii) (id_freq : list (Z * Z)) : outcome (list (Z * Z)) :=
  match fuel with
  | O => Fail Spins
  | S fuel' =>
      let '(fdist', buf') := getline newline fdist buf in
      if eofbit fdist' then Ok id_freq
      else
        let '(key_text, freq_text) := split_colon buf' in
        key ← stoull key_text;
        freq ← stoull freq_text;
        read_dist fuel' fdist' buf' (id_freq ++ [(key, freq)])
  end.

Definition load_txns (bm : build) (trace dist : list ascii) : outcome (list Txn * DeclusteredLayout) :=
  '(txns, _, _) ← read_trace (S (length trace)) (open_file trace) [] 0 0 [];
  id_freq ← read_dist (S (length dist)) (open_file dist) [] [];
  layout ← DeclusteredLayout_make bm id_freq;
  Ok (txns, layout).
End Loading.

(** ** Numerals *)

(** The text of a numeral, and the numerals a [uint64_t] can hold. *)
Definition numeral_text (ds : list Z) : list ascii := digit_char <$> ds.
Definition numeral (ds : list Z) : Prop := ds ≠ [] ∧ Forall (λ d, 0 ≤ d ≤ 9) ds ∧ decimals ds < 2 ^ 64.

Lemma digit_char_code d : 0 ≤ d ≤ 9 → char_code (digit_char d) = 48 + d.
Proof. intros Hd. unfold char_code, digit_char. rewrite N_ascii_embedding by lia. lia. Qed.

Lemma digit_char_is d : 0 ≤ d ≤ 9 → is_digit (digit_char d) = true ∧ is_space (digit_char d) = false.
Proof. intros Hd. unfold is_digit, is_space. rewrite digit_char_code by done. split; [apply andb_true_iff; rewrite !Z.leb_le; lia|]. apply orb_false_iff. rewrite andb_false_iff, Z.eqb_neq, !Z.leb_gt. lia. Qed.

Lemma digit_char_ne d a : 0 ≤ d ≤ 9 → is_digit a = false → digit_char d ≠ a.
Proof. intros Hd Ha E. destruct (digit_char_is d Hd) as [H _]. rewrite E in H. congruence. Qed.

Lemma numeral_text_free ds a : Forall (λ d, 0 ≤ d ≤ 9) ds → is_digit a = false → a ∉ numeral_text ds.
Proof.
  intros Hds Ha [d [-> Hd]]%list_elem_of_fmap. rewrite Forall_forall in Hds. by apply (digit_char_ne d (digit_char d)); [apply Hds| |].
Qed.

Lemma take_digits_text ds : Forall (λ d, 0 ≤ d ≤ 9) ds → take_digits (numeral_text ds) = ds.
Proof.
  induction 1 as [|d ds Hd _ IH]; [done|]. cbn [numeral_text fmap list_fmap take_digits]. fold (numeral_text ds).
  rewrite (proj1 (digit_char_is d Hd)), digit_char_code, IH by done. f_equal. lia.
Qed.

Lemma stoull_numeral ds : numeral ds → stoull (numeral_text ds) = Ok (decimals ds).
Proof.
  intros (Hne & Hds & Hlt). unfold stoull. destruct ds as [|d ds]; [done|]. pose proof (Forall_inv Hds) as Hd.
  assert (skip_spaces (numeral_text (d :: ds)) = numeral_text (d :: ds)) as ->.
  { cbn [numeral_text fmap list_fmap skip_spaces]. by rewrite (proj2 (digit_char_is d Hd)). }
  cbn [numeral_text fmap list_fmap]. rewrite !decide_False by (by apply digit_char_ne). change (digit_char d :: (digit_char <$> ds)) with (numeral_text (d :: ds)).
  rewrite take_digits_text by done. rewrite bool_decide_false by done. by rewrite (proj2 (Z.leb_gt _ _) Hlt).
Qed.

(** ** Lines *)

Lemma split_at_found a x y : a ∉ x → split_at a (x ++ a :: y) = Some (x, y).
Proof.
  induction x as [|b x IH]; intros Hx; cbn [split_at app]; [by rewrite decide_True|]. apply not_elem_of_cons in Hx as [Hb Hx].
  rewrite decide_False by done. by rewrite IH.
Qed.

Lemma split_at_none a x : a ∉ x → split_at a x = None.
Proof. induction x as [|b x IH]; intros Hx; [done|]. apply not_elem_of_cons in Hx as [Hb Hx]. cbn [split_at]. rewrite decide_False by done. by rewrite IH. Qed.

Lemma getline_found a x y buf : a ∉ x → getline a (open_file (x ++ a :: y)) buf = (open_file y, x).
Proof. intros Hx. unfold getline. cbn [open_file eofbit failbit in_rest orb]. by rewrite split_at_found. Qed.

Lemma getline_last a x buf : a ∉ x → getline a (open_file x) buf = (MkIn [] true (bool_decide (x = [])), x).
Proof. intros Hx. unfold getline. cbn [open_file eofbit failbit in_rest orb]. by rewrite split_at_none. Qed.

(** A line of fields separated by commas. *)
Fixpoint line_text (fields : list (list Z)) : list ascii :=
  match fields with
  | [] => []
  | [ds] => numeral_text ds
  | ds :: fields' => numeral_text ds ++ comma :: line_text fields'
  end.

(** The keys of a transaction whose line has the numbers [ids]: cut or filled up
    with the last one to [n]. *)
Definition fill_ids (n : nat) (ids : list Z) : list Z := take n ids ++ replicate (n - length ids) (List.last ids 0).

Lemma fill_ids_cons n id ids : ids ≠ [] → fill_ids (S n) (id :: ids) = id :: fill_ids n ids.
Proof. intros Hne. unfold fill_ids. cbn [take length app Nat.sub]. by destruct ids. Qed.

Section Parsing.
Context (rnd : nat → Z) (write_prob : Z) (junk : LocationInfo).

(** An operation of the trace: a lock mode the executor knows and a small value. *)
Definition loaded_op (op : OP) : Prop := (op_mode op = READ ∨ op_mode op = WRITE) ∧ 0 ≤ op_value op < 100000.

Lemma new_op_loaded id k : loaded_op (MkOP id junk (if rnd k mod 100 <? write_prob then WRITE else READ) (u32 (rnd (S k) mod 100000))).
Proof.
  split; cbn [op_mode op_value]; [destruct (_ <? _); auto|]. pose proof (Z.mod_pos_bound (rnd (S k)) 100000). rewrite wrap_small; lia.
Qed.

(** After the end of the line the last field is used again. *)
Lemma read_ops_stuck n ss access id k : eofbit ss = true → stoull access = Ok id →
  ∃ ops, read_ops rnd write_prob junk n ss access k = Ok (ops, (k + 2 * n)%nat) ∧ op_id <$> ops = replicate n id ∧ Forall loaded_op ops.
Proof.
  intros He Hid. revert ss k He. induction n as [|n IH]; intros ss k He; cbn [read_ops]; [exists []; by rewrite Nat.add_0_r|].
  unfold getline. rewrite He. cbn [orb]. rewrite Hid. cbn [mbind outcome_bind].
  destruct (IH (MkIn (in_rest ss) true true) (S (S k)) eq_refl) as (ops & -> & Hids & Hops). cbn [mbind outcome_bind]. eexists. split; [do 2 f_equal; lia|].
  split; [cbn; by rewrite Hids|]. constructor; [apply new_op_loaded|done].
Qed.

Lemma read_ops_spec n : ∀ fields access k, fields ≠ [] → Forall numeral fields →
  ∃ ops, read_ops rnd write_prob junk n (open_file (line_text fields)) access k = Ok (ops, (k + 2 * n)%nat)
    ∧ op_id <$> ops = fill_ids n (decimals <$> fields) ∧ Forall loaded_op ops.
Proof.
  induction n as [|n IH]; intros fields access k Hne Hnum; cbn [read_ops]; [exists []; by rewrite Nat.add_0_r|].
  destruct fields as [|ds [|ds' fields]]; [done| |].
  - apply Forall_inv in Hnum. cbn [line_text]. rewrite getline_last by (apply numeral_text_free; [apply Hnum|done]).
    rewrite stoull_numeral by done. cbn [mbind outcome_bind].
    destruct (read_ops_stuck n (MkIn [] true (bool_decide (numeral_text ds = []))) (numeral_text ds) (decimals ds) (S (S k)) eq_refl) as (ops & -> & Hids & Hops); [by apply stoull_numeral|].
    cbn [mbind outcome_bind]. eexists. split; [do 2 f_equal; lia|]. split; [|constructor; [apply new_op_loaded|done]].
    cbn [fmap list_fmap op_id]. fold (fmap (M:=list) op_id ops). rewrite Hids. unfold fill_ids. cbn [take length app Nat.sub List.last]. by rewrite take_nil, Nat.sub_0_r.
  - apply Forall_cons in Hnum as [Hds Hnum]. change (line_text (ds :: ds' :: fields)) with (numeral_text ds ++ comma :: line_text (ds' :: fields)).
    rewrite getline_found by (apply numeral_text_free; [apply Hds|done]). rewrite stoull_numeral by done. cbn [mbind outcome_bind].
    destruct (IH (ds' :: fields) (numeral_text ds) (S (S k))) as (ops & -> & Hids & Hops); [done..|]. cbn [mbind outcome_bind]. eexists. split; [do 2 f_equal; lia|].
    split; [|constructor; [apply new_op_loaded|done]]. rewrite fmap_cons, fmap_cons, fill_ids_cons by done. by rewrite Hids.
Qed.

(** ** Files *)

Lemma line_text_free fields a : Forall numeral fields → is_digit a = false → a ≠ comma → a ∉ line_text fields.
Proof.
  intros Hnum Ha Hc. induction Hnum as [|ds fields Hds Hf IH]; [apply not_elem_of_nil|]. pose proof (numeral_text_free ds a (proj1 (proj2 Hds)) Ha) as Hn.
  destruct fields as [|ds' fields]; [exact Hn|]. change (line_text (ds :: ds' :: fields)) with (numeral_text ds ++ comma :: line_text (ds' :: fields)).
  rewrite elem_of_app, elem_of_cons. intros [?|[?|?]]; done.
Qed.

Definition trace_text (lines : list (list (list Z))) : list ascii := concat ((λ fields, line_text fields ++ [newline]) <$> lines).

Lemma read_trace_spec lines tail : newline ∉ tail → Forall (λ fields, fields ≠ [] ∧ Forall numeral fields) lines →
  ∀ fuel buf lid k txns, (length lines < fuel)%nat → 0 ≤ lid → lid + Z.of_nat (length lines) < 2 ^ 64 →
  ∃ new, read_trace rnd write_prob junk fuel (open_file (trace_text lines ++ tail)) buf lid k txns
      = Ok (txns ++ new, lid + Z.of_nat (length lines), (k + 2 * N_OPS * length lines)%nat)
    ∧ Forall2 (λ fields t, op_id <$> cold_ops t = fill_ids N_OPS (decimals <$> fields) ∧ Forall loaded_op (cold_ops t)) lines new
    ∧ ∀ i t, new !! i = Some t → t = Txn_init (cold_ops t) (lid + Z.of_nat i).
Proof.
  intros Htail. induction 1 as [|fields lines [Hne Hnum] _ IH]; intros fuel buf lid k txns Hfuel Hlid Hmax; (destruct fuel as [|fuel]; [cbn in Hfuel; lia|]); cbn [read_trace].
  - cbn [trace_text fmap list_fmap concat app]. rewrite getline_last by done. cbn [eofbit]. exists []. rewrite app_nil_r, Nat.mul_0_r, Nat.add_0_r, Z.add_0_r.
    split_and!; [done|constructor|done].
  - unfold trace_text. cbn [fmap list_fmap concat]. fold (trace_text lines). rewrite <-!app_assoc. cbn [app].
    rewrite getline_found by (by apply line_text_free). cbn [open_file eofbit failbit negb assert mbind outcome_bind].
    destruct (read_ops_spec N_OPS fields [] k Hne Hnum) as (ops & -> & Hids & Hops). cbn [mbind outcome_bind]. cbn [length] in Hfuel, Hmax |- *.
    assert (u64 (lid + 1) = lid + 1) as -> by (apply wrap_small; lia). fold (open_file (trace_text lines ++ tail)).
    destruct (IH fuel (line_text fields) (lid + 1) (k + 2 * N_OPS)%nat (txns ++ [Txn_init ops lid])) as (new & -> & Hnew & Hids'); [lia..|].
    exists (Txn_init ops lid :: new). rewrite <-app_assoc. split_and!; [f_equal; f_equal; [f_equal|]; lia|by constructor|].
    intros [|i] t Hi; [injection Hi as <-; cbn; f_equal; lia|]. rewrite (Hids' i t Hi). cbn [cold_ops Txn_init]. f_equal. lia.
Qed.

Definition dist_text (lines : list (list Z * list Z)) : list ascii :=
  concat ((λ p, numeral_text p.1 ++ colon :: numeral_text p.2 ++ [newline]) <$> lines).

Lemma read_dist_spec lines tail : newline ∉ tail → Forall (λ p, numeral p.1 ∧ numeral p.2) lines →
  ∀ fuel buf acc, (length lines < fuel)%nat →
  read_dist fuel (open_file (dist_text lines ++ tail)) buf acc = Ok (acc ++ ((λ p, (decimals p.1, decimals p.2)) <$> lines)).
Proof.
  intros Htail. induction 1 as [|[a b] lines [Ha Hb] _ IH]; intros fuel buf acc Hfuel; (destruct fuel as [|fuel]; [cbn in Hfuel; lia|]); cbn [read_dist].
  - cbn [dist_text fmap list_fmap concat app]. rewrite getline_last by done. cbn [eofbit]. by rewrite app_nil_r.
  - cbn [fst snd] in Ha, Hb. unfold dist_text. cbn [fmap list_fmap concat fst snd]. fold (dist_text lines).
    replace ((numeral_text a ++ colon :: numeral_text b ++ [newline]) ++ dist_text lines) with ((numeral_text a ++ colon :: numeral_text b) ++ newline :: dist_text lines)
      by (by rewrite <-!app_assoc; cbn; rewrite <-app_assoc).
    rewrite <-app_assoc. cbn [app]. rewrite getline_found.
    2: { rewrite elem_of_app, elem_of_cons. intros [H|[H|H]]; [|done|]; revert H; apply numeral_text_free; (apply Ha || apply Hb || done). }
    cbn [open_file eofbit]. unfold split_colon. rewrite split_at_found by (apply numeral_text_free; [apply Ha|done]).
    rewrite !stoull_numeral by done. cbn [mbind outcome_bind]. fold (open_file (dist_text lines ++ tail)). cbn [length] in Hfuel. rewrite IH by lia. by rewrite <-app_assoc.
Qed.
End Parsing.

(** C31: the trace is loaded, when the distribution file has more than
    [N_ACCEL_KEYS] lines.  Every line of comma-separated numbers becomes one
    transaction, in the order of the file and numbered from 0: its keys are the
    first [N_OPS] numbers (the others of a longer line are dropped), and a shorter line is filled up by repeating its last
    number.  Modes are reads or writes and values below 100000, whatever the
    random numbers.  The keys and frequencies of the distribution file are read
    the same way and laid out.  In both files a last line without a newline is
    ignored. *)
Theorem load_reads_trace rnd write_prob junk bm trace dist rest rest' :
  newline ∉ rest → newline ∉ rest' →
  Forall (λ fields, fields ≠ [] ∧ Forall numeral fields) trace → Forall (λ p, numeral p.1 ∧ numeral p.2) dist →
  Z.of_nat (length trace) < 2 ^ 64 → (Z.to_nat (N_ACCEL_KEYS bm) < length dist)%nat →
  ∃ txns, load_txns rnd write_prob junk bm (trace_text trace ++ rest) (dist_text dist ++ rest')
      = Ok (txns, layout_of ((λ p, (decimals p.1, decimals p.2)) <$> dist))
    ∧ Forall2 (λ fields t, op_id <$> cold_ops t = fill_ids N_OPS (decimals <$> fields) ∧ Forall loaded_op (cold_ops t)) trace txns
    ∧ ∀ i t, txns !! i = Some t → t = Txn_init (cold_ops t) (Z.of_nat i).
Proof.
  intros Hr Hr' Ht Hd Hlen Hkeys. unfold load_txns.
  assert (∀ (A : Type) (f : A → list ascii) l (r : list ascii), (∀ x, f x ≠ []) → (length l ≤ length (concat (f <$> l) ++ r))%nat) as Hfuel.
  { intros A f l r Hf. induction l as [|x l IH]; cbn [fmap list_fmap concat length]; [lia|]. fold (f <$> l). specialize (Hf x).
    rewrite <-app_assoc, length_app. destruct (f x); [done|]. cbn [length]. lia. }
  destruct (read_trace_spec rnd write_prob junk trace rest Hr Ht (S (length (trace_text trace ++ rest))) [] 0 0 []) as (txns & -> & Htx & Hid); [|lia..|].
  { apply Nat.lt_succ_r, Hfuel. intros x E. by apply app_nil in E as []. }
  cbn [mbind outcome_bind app]. rewrite (read_dist_spec dist rest' Hr' Hd).
  2: { apply Nat.lt_succ_r, Hfuel. intros x E. by apply app_nil in E as []. }
  cbn [mbind outcome_bind app]. unfold DeclusteredLayout_make.
  set (ids := (λ p, (decimals p.1, decimals p.2)) <$> dist).
  destruct (lookup_lt_is_Some_2 (std_sort id_freq_less ids) (Z.to_nat (N_ACCEL_KEYS bm))) as [pr Hpr].
  { rewrite (Permutation_length (std_sort_perm _ _)). unfold ids. by rewrite length_fmap. }
  rewrite (aget_some _ _ _ Hpr). cbn [mbind outcome_bind]. exists txns. split_and!; [done|done|]. intros i t Hi. by rewrite (Hid i t Hi).
Qed.

(** ** Dealing the transactions: the code *)

(** How many of a transaction's keys live elsewhere. *)
Definition count_remote (part : PartitionInfo) (txn : Txn) : outcome Z :=
  ofold (λ n j, op ← aget (cold_ops txn) j; loc ← location part (op_id op); Ok (n + if is_local loc then 0 else 1)) (seq 0 N_OPS) 0.

(** One turn of the loop over the trace: to the worker with the fewest remote
    accesses. *)
Definition deal_txn (part : PartitionInfo) (trace : list Txn) (st : list (list Txn) * list Z) (i : nat) : outcome (list (list Txn) * list Z) :=
  let '(per_core, n_remote) := st in
  txn ← aget trace i;
  n_rem ← count_remote part txn;
  let arg_min := argmin n_remote in
  r ← aget n_remote arg_min;
  n_remote' ← aset n_remote arg_min (u64 (r + n_rem));
  core ← aget per_core arg_min;
  per_core' ← aset per_core arg_min (core ++ [txn]);
  Ok (per_core', n_remote').

(** [while (core.size() > quota)] move the last transaction to [redist]. *)
Fixpoint unload (fuel quota : nat) (core redist : list Txn) : list Txn * list Txn :=
  match fuel with
  | O => (core, redist)
  | S fuel' =>
      match last core with
      | Some x => if decide (quota < length core)%nat then unload fuel' quota (take (length core - 1) core) (redist ++ [x]) else (core, redist)
      | None => (core, redist)
      end
  end.

(** [while (redist.size() > 0 && core.size() < quota)] move it back. *)
Fixpoint refill_core (fuel quota : nat) (core redist : list Txn) : list Txn * list Txn :=
  match fuel with
  | O => (core, redist)
  | S fuel' =>
      match last redist with
      | Some x => if decide (length core < quota)%nat then refill_core fuel' quota (core ++ [x]) (take (length redist - 1) redist) else (core, redist)
      | None => (core, redist)
      end
  end.

Definition redistribute (quota : nat) (st : list (list Txn) * list Txn) (i : nat) : outcome (list (list Txn) * list Txn) :=
  let '(per_core, redist) := st in
  core ← aget per_core i;
  let '(core1, redist1) := unload (length core) quota core redist in
  let '(core2, redist2) := refill_core (length redist1) quota core1 redist1 in
  per_core' ← aset per_core i core2;
  Ok (per_core', redist2).

(** The transactions of each worker, as [main] computes them. *)
Definition deal_all (part : PartitionInfo) (num_workers num_txns : nat) (trace : list Txn) : outcome (list (list Txn)) :=
  '(per_core, _) ← ofold (deal_txn part trace) (seq 0 num_txns) (replicate num_workers [], replicate num_workers 0);
  '(per_core, _) ← ofold (redistribute (num_txns / num_workers)) (seq 0 num_workers ++ seq 0 num_workers) (per_core, []);
  Ok per_core.

(** ** Dealing the transactions: the proofs *)

Lemma count_remote_spec part txn : partition_size part ≠ 0 → length (cold_ops txn) = N_OPS →
  ∃ n, count_remote part txn = Ok n ∧ 0 ≤ n ≤ Z.of_nat N_OPS.
Proof.
  intros Hp Hl. unfold count_remote.
  destruct (ofold_total (λ pre n, 0 ≤ n ≤ Z.of_nat (length pre)) (λ n j, op ← aget (cold_ops txn) j; loc ← location part (op_id op); Ok (n + if is_local loc then 0 else 1))
    (seq 0 N_OPS) 0) as (n & -> & Hn).
  - cbn. lia.
  - intros pre j post n Hseq Hn. destruct (seq_cut _ _ _ _ _ Hseq) as (_ & Hj & Hlt). destruct (lookup_lt_is_Some_2 (cold_ops txn) j) as [op Hop]; [lia|].
    rewrite (aget_some _ _ _ Hop). cbn [mbind outcome_bind]. unfold location. rewrite udiv_nz by done. cbn [mbind outcome_bind]. eexists. split; [done|].
    rewrite length_app. cbn [length is_local]. case_match; lia.
  - exists n. by rewrite length_seq in Hn.
Qed.

(** After [k] transactions: they are all with some worker, and the remote
    accesses of two workers differ by at most one transaction's. *)
Definition dealt (W : nat) (txns : list Txn) (st : list (list Txn) * list Z) : Prop :=
  length st.1 = W ∧ length st.2 = W ∧ concat st.1 ≡ₚ txns ∧ spread st.2 (Z.of_nat N_OPS)
  ∧ Forall (λ r, 0 ≤ r ≤ Z.of_nat N_OPS * Z.of_nat (length txns)) st.2.

Lemma deal_txn_spec part trace W k st txn : (0 < W)%nat → partition_size part ≠ 0 → trace !! k = Some txn → length (cold_ops txn) = N_OPS →
  Z.of_nat N_OPS * (Z.of_nat k + 1) < 2 ^ 64 → dealt W (take k trace) st → ∃ st', deal_txn part trace st k = Ok st' ∧ dealt W (take (S k) trace) st'.
Proof.
  intros HW Hp Hk Hl Hmax (H1 & H2 & Hperm & Hspread & Hb). destruct st as [per_core n_remote]; cbn [fst snd] in *. unfold deal_txn.
  rewrite (aget_some _ _ _ Hk). cbn [mbind outcome_bind]. destruct (count_remote_spec part txn Hp Hl) as (n & -> & Hn). cbn [mbind outcome_bind].
  assert (n_remote ≠ []) as Hne by (intros ->; cbn in H2; lia). pose proof (argmin_lt _ Hne) as Hlt. set (m := argmin n_remote) in *.
  destruct (lookup_lt_is_Some_2 n_remote m Hlt) as [r Hr]. destruct (lookup_lt_is_Some_2 per_core m) as [core Hcore]; [lia|].
  pose proof (lookup_lt_Some _ _ _ Hk) as Hkl. rewrite length_take, Nat.min_l in Hb by lia. pose proof (proj1 (Forall_lookup _ _) Hb m r Hr) as Hrb. cbn beta in Hrb.
  rewrite (aget_some _ _ _ Hr), (aget_some _ _ _ Hcore). cbn [mbind outcome_bind]. rewrite !aset_lt by lia. cbn [mbind outcome_bind]. eexists. split; [done|].
  assert (u64 (r + n) = r + n) as -> by (apply wrap_small; lia). unfold dealt. cbn [fst snd]. rewrite !length_insert, length_take, Nat.min_l by lia. split_and!; try done.
  - rewrite (take_S_r _ _ _ Hk), <-Hperm. apply (Permutation_app_inv_r core). rewrite concat_insert_perm by done. solve_Permutation.
  - rewrite <-(list_lookup_total_correct _ _ _ Hr). by apply spread_argmin.
  - apply Forall_insert; [|lia]. eapply Forall_impl; [exact Hb|]. cbn. lia.
Qed.

Lemma unload_spec fuel quota core redist : (length core ≤ fuel)%nat →
  let '(core', redist') := unload fuel quota core redist in
  core' ++ redist' ≡ₚ core ++ redist ∧ length core' = Nat.min quota (length core).
Proof.
  revert core redist. induction fuel as [|fuel IH]; intros core redist Hf; cbn [unload].
  - destruct core; [|cbn in Hf; lia]. split; [done|cbn; lia].
  - destruct (last core) as [x|] eqn:Hl; [|apply last_None in Hl as ->; split; [done|cbn; lia]]. apply take_pop in Hl as Hc.
    assert (0 < length core)%nat by (rewrite Hc, length_app; cbn; lia). case_decide as Hq; [|split; [done|lia]].
    specialize (IH (take (length core - 1) core) (redist ++ [x])). rewrite length_take in IH. specialize (IH ltac:(lia)).
    destruct (unload fuel quota _ _) as [core' redist']. destruct IH as [IH1 IH2]. split; [|lia]. rewrite IH1.
    transitivity ((take (length core - 1) core ++ [x]) ++ redist); [solve_Permutation|by rewrite <-Hc].
Qed.

Lemma refill_core_spec fuel quota core redist : (length redist ≤ fuel)%nat →
  let '(core', redist') := refill_core fuel quota core redist in
  core' ++ redist' ≡ₚ core ++ redist ∧ (redist' = [] ∨ (quota ≤ length core')%nat)
  ∧ (length core ≤ length core' ≤ Nat.max quota (length core))%nat ∧ (redist = [] → redist' = []).
Proof.
  revert core redist. induction fuel as [|fuel IH]; intros core redist Hf; cbn [refill_core].
  - destruct redist; [|cbn in Hf; lia]. split_and!; auto; lia.
  - destruct (last redist) as [x|] eqn:Hl; [|apply last_None in Hl as ->; split_and!; auto; lia]. apply take_pop in Hl as Hc.
    assert (0 < length redist)%nat by (rewrite Hc, length_app; cbn; lia). case_decide as Hq; [|split_and!; auto; lia].
    specialize (IH (core ++ [x]) (take (length redist - 1) redist)). rewrite length_take, length_app in IH. specialize (IH ltac:(lia)).
    destruct (refill_core fuel quota _ _) as [core' redist']. destruct IH as (IH1 & IH2 & IH3 & IH4). cbn [length] in IH3. split_and!; [|done|lia..|].
    + rewrite IH1. transitivity (core ++ (take (length redist - 1) redist ++ [x])); [solve_Permutation|by rewrite <-Hc].
    + intros ->. cbn in *. lia.
Qed.

Lemma redistribute_spec quota per_core redist i core : per_core !! i = Some core → ∃ core' redist',
  redistribute quota (per_core, redist) i = Ok (<[i := core']> per_core, redist')
  ∧ concat (<[i := core']> per_core) ++ redist' ≡ₚ concat per_core ++ redist
  ∧ (length core' ≤ quota)%nat ∧ (redist' = [] ∨ length core' = quota)
  ∧ ((length core ≤ quota)%nat → redist = [] → redist' = []).
Proof.
  intros Hi. unfold redistribute. rewrite (aget_some _ _ _ Hi). cbn [mbind outcome_bind].
  pose proof (unload_spec (length core) quota core redist ltac:(lia)) as Hu. destruct (unload (length core) quota core redist) as [core1 redist1]. destruct Hu as [Hp1 Hl1].
  pose proof (refill_core_spec (length redist1) quota core1 redist1 ltac:(lia)) as Hr. destruct (refill_core (length redist1) quota core1 redist1) as [core2 redist2].
  destruct Hr as (Hp2 & Hdone & Hl2 & Hempty). rewrite aset_lt by (by eapply lookup_lt_Some). cbn [mbind outcome_bind]. exists core2, redist2. split; [done|]. split_and!.
  - apply (Permutation_app_inv_r core). transitivity ((core2 ++ concat per_core) ++ redist2); [rewrite <-(concat_insert_perm _ _ _ core2 Hi); solve_Permutation|].
    transitivity (concat per_core ++ (core2 ++ redist2)); [solve_Permutation|]. rewrite Hp2, Hp1. solve_Permutation.
  - lia.
  - destruct Hdone as [->|]; [by left|right; lia].
  - intros Hle ->. apply Hempty. assert (length (core1 ++ redist1) = length (core ++ [])) as Hlen by (by rewrite Hp1).
    rewrite !length_app in Hlen. cbn [length] in Hlen. destruct redist1; [done|cbn in Hlen; lia].
Qed.

(** Lists no longer than [quota], of [quota] elements on average, all have
    [quota]. *)
Lemma all_full {A} (quota : nat) (l : list (list A)) : Forall (λ c, (length c ≤ quota)%nat) l → (quota * length l ≤ length (concat l))%nat →
  Forall (λ c, length c = quota) l.
Proof.
  intros Hle. assert (∀ l : list (list A), Forall (λ c, (length c ≤ quota)%nat) l → (length (concat l) ≤ quota * length l)%nat) as Hup.
  { induction 1 as [|c l' Hc _ IH]; cbn; [lia|]. rewrite length_app. lia. }
  induction Hle as [|c l Hc Hl IH]; cbn [length concat]; [constructor|]. rewrite length_app. intros Hsum. pose proof (Hup l Hl).
  constructor; [lia|]. apply IH. lia.
Qed.

Lemma first_pass quota per_core : ∃ per_core' redist', ofold (redistribute quota) (seq 0 (length per_core)) (per_core, []) = Ok (per_core', redist')
  ∧ length per_core' = length per_core ∧ concat per_core' ++ redist' ≡ₚ concat per_core ∧ Forall (λ c, (length c ≤ quota)%nat) per_core'.
Proof.
  destruct (ofold_total (λ pre st, length st.1 = length per_core ∧ concat st.1 ++ st.2 ≡ₚ concat per_core
    ∧ ∀ j c, (j < length pre)%nat → st.1 !! j = Some c → (length c ≤ quota)%nat) (redistribute quota) (seq 0 (length per_core)) (per_core, [])) as ([pc rd] & H & Hl & Hp & Hq).
  - cbn. split_and!; [done|by rewrite app_nil_r|lia].
  - intros pre i post [pc rd] Hseq (Hl & Hp & Hq). cbn [fst snd] in *. destruct (seq_cut _ _ _ _ _ Hseq) as (_ & Hi & Hlt).
    destruct (lookup_lt_is_Some_2 pc i) as [core Hc]; [lia|]. destruct (redistribute_spec quota pc rd i core Hc) as (core' & rd' & Heq & Hp' & Hq' & _).
    eexists. split; [exact Heq|]. cbn [fst snd]. rewrite length_insert, length_app. split_and!; [done|by rewrite Hp'|]. cbn [length].
    intros j c Hj Hjc. destruct (decide (j = i)) as [->|Hne]; [rewrite list_lookup_insert_eq in Hjc by (by eapply lookup_lt_Some); congruence|].
    rewrite list_lookup_insert_ne in Hjc by done. apply (Hq j); [lia|done].
  - exists pc, rd. split; [done|]. cbn [fst snd] in *. split_and!; [done|done|]. apply Forall_lookup. intros j c Hc. apply (Hq j); [|done].
    rewrite length_seq. apply lookup_lt_Some in Hc. lia.
Qed.

Lemma second_pass quota per_core redist : Forall (λ c, (length c ≤ quota)%nat) per_core →
  ∃ per_core' redist', ofold (redistribute quota) (seq 0 (length per_core)) (per_core, redist) = Ok (per_core', redist')
  ∧ length per_core' = length per_core ∧ concat per_core' ++ redist' ≡ₚ concat per_core ++ redist ∧ Forall (λ c, (length c ≤ quota)%nat) per_core'
  ∧ (redist' = [] ∨ Forall (λ c, length c = quota) per_core').
Proof.
  intros Hall. destruct (ofold_total (λ pre st, length st.1 = length per_core ∧ concat st.1 ++ st.2 ≡ₚ concat per_core ++ redist
    ∧ Forall (λ c, (length c ≤ quota)%nat) st.1 ∧ (st.2 = [] ∨ ∀ j c, (j < length pre)%nat → st.1 !! j = Some c → length c = quota))
    (redistribute quota) (seq 0 (length per_core)) (per_core, redist)) as ([pc rd] & H & Hl & Hp & Hq & Hd).
  - cbn. split_and!; [done|done|done|right; lia].
  - intros pre i post [pc rd] Hseq (Hl & Hp & Hq & Hd). cbn [fst snd] in *. destruct (seq_cut _ _ _ _ _ Hseq) as (_ & Hi & Hlt).
    destruct (lookup_lt_is_Some_2 pc i) as [core Hc]; [lia|]. destruct (redistribute_spec quota pc rd i core Hc) as (core' & rd' & Heq & Hp' & Hq' & Hfull & Hempty).
    pose proof (proj1 (Forall_lookup _ _) Hq i core Hc) as Hcore. cbn beta in Hcore.
    eexists. split; [exact Heq|]. cbn [fst snd]. rewrite length_insert, length_app. split_and!; [done|by rewrite Hp'|by apply Forall_insert|].
    destruct Hd as [->|Hd]; [left; by apply Hempty|]. destruct Hfull as [->|Hfull]; [by left|]. right. cbn [length].
    intros j c Hj Hjc. destruct (decide (j = i)) as [->|Hne]; [rewrite list_lookup_insert_eq in Hjc by (by eapply lookup_lt_Some); congruence|].
    rewrite list_lookup_insert_ne in Hjc by done. apply (Hd j); [lia|done].
  - exists pc, rd. split; [done|]. cbn [fst snd] in *. split_and!; try done. destruct Hd as [->|Hd]; [by left|]. right. apply Forall_lookup. intros j c Hc. apply (Hd j); [|done].
    rewrite length_seq. apply lookup_lt_Some in Hc. lia.
Qed.

(** Every worker gets the same number of transactions.  [main] deals the first
    [num_txns] transactions of the trace, each to the worker with the fewest remote
    accesses so far, so that these counts never differ by more than one
    transaction's; then it moves transactions until every worker has exactly
    [num_txns / num_workers].  None is dealt twice, and the only ones lost are the
    remainder of that division. *)
Theorem workers_share_trace part W n trace : (0 < W)%nat → partition_size part ≠ 0 → (n ≤ length trace)%nat →
  Forall (λ t, length (cold_ops t) = N_OPS) trace → Z.of_nat N_OPS * Z.of_nat n < 2 ^ 64 →
  (∃ per_core n_remote, ofold (deal_txn part trace) (seq 0 n) (replicate W [], replicate W 0) = Ok (per_core, n_remote) ∧ spread n_remote (Z.of_nat N_OPS))
  ∧ ∃ per_core dropped, deal_all part W n trace = Ok per_core ∧ length per_core = W ∧ Forall (λ c, length c = n / W)%nat per_core
      ∧ concat per_core ++ dropped ≡ₚ take n trace ∧ length dropped = (n mod W)%nat.
Proof.
  intros HW Hp Hn Hops Hmax. unfold deal_all.
  destruct (ofold_total (λ pre st, dealt W (take (length pre) trace) st) (deal_txn part trace) (seq 0 n) (replicate W [], replicate W 0)) as ([pc0 rem] & -> & Hd).
  { split_and!; cbn [fst snd take]; rewrite ?length_replicate; try done; [|apply spread_replicate; lia|apply Forall_replicate; cbn; lia].
    clear. induction W as [|W IH]; [done|exact IH]. }
  { intros pre i post st Hseq Hd. destruct (seq_cut _ _ _ _ _ Hseq) as (_ & Hi & Hlt). destruct (lookup_lt_is_Some_2 trace i) as [txn Htxn]; [lia|].
    rewrite length_app. cbn [length]. rewrite Nat.add_1_r. rewrite Nat.add_0_l in Hi. rewrite <-Hi in *. apply (deal_txn_spec part trace W i st txn); try done; [|unfold N_OPS in *; lia].
    exact (proj1 (Forall_lookup _ _) Hops i txn Htxn). }
  rewrite length_seq in Hd. destruct Hd as (H1 & H2 & Hperm & Hspread & _). cbn [fst snd] in *. split; [by do 2 eexists|]. cbn [mbind outcome_bind]. rewrite ofold_app, <-H1.
  destruct (first_pass (n / length pc0) pc0) as (pc1 & rd1 & -> & Hl1 & Hp1 & Hq1). cbn [mbind outcome_bind].
  destruct (second_pass (n / length pc0) pc1 rd1 Hq1) as (pc2 & rd2 & Heq & Hl2 & Hp2 & Hq2 & Hfull). rewrite Hl1 in Heq. rewrite Heq. cbn [mbind outcome_bind].
  assert (length (concat pc2 ++ rd2) = n) as Hlen by (rewrite Hp2, Hp1, Hperm, length_take; lia). rewrite length_app in Hlen.
  assert (Forall (λ c, length c = n / length pc0)%nat pc2) as Hall.
  { destruct Hfull as [->|Hfull]; [|done]. apply all_full; [done|]. rewrite Hl2, Hl1, Nat.mul_comm. cbn [length] in Hlen. pose proof (Nat.Div0.mul_div_le n (length pc0)). lia. }
  exists pc2, rd2. rewrite Hl2, Hl1. split_and!; try done; [by rewrite Hp2, Hp1, Hperm|].
  rewrite (concat_uniform _ _ Hall), Hl2, Hl1 in Hlen. pose proof (Nat.div_mod_eq n (length pc0)). lia.
Qed.

(** ** Witnesses *)

(** Two lines, the second of two numbers, and an unfinished third. *)
Definition two_lines : list (list (list Z)) := [[[1]; [2]; [3]; [4]; [5]; [6]; [7]; [8]]; [[4; 2]; [7]]].
Definition some_freqs : list (list Z * list Z) := (λ i, ([i / 10; i mod 10], [9])) <$> (Z.of_nat <$> seq 0 80).

Lemma two_lines_ok : Forall (λ fields, fields ≠ [] ∧ Forall numeral fields) two_lines ∧ Forall (λ p, numeral p.1 ∧ numeral p.2) some_freqs.
Proof.
  split; apply Forall_forall; intros x Hx; repeat (apply elem_of_cons in Hx as [->|Hx]; [cbn; split; repeat (constructor || done || lia)|]); by apply elem_of_nil in Hx.
Qed.

Definition no_rand : nat → Z := λ k, Z.of_nat k.
Definition tiny_build : build := Build false true true 1 1.

Lemma load_reads_trace_witness : ∃ txns, load_txns no_rand 50 (MkLoc true (MkNode 0)) tiny_build (trace_text two_lines ++ [comma]) (dist_text some_freqs ++ [])
    = Ok (txns, layout_of ((λ p, (decimals p.1, decimals p.2)) <$> some_freqs))
  ∧ (λ t, op_id <$> cold_ops t) <$> txns = [[1; 2; 3; 4; 5; 6; 7; 8]; [42; 7; 7; 7; 7; 7; 7; 7]].
Proof.
  destruct (load_reads_trace no_rand 50 (MkLoc true (MkNode 0)) tiny_build two_lines some_freqs [comma] []) as (txns & H & Htx & _).
  - by intros [?|?%elem_of_nil]%elem_of_cons.
  - apply not_elem_of_nil.
  - apply two_lines_ok.
  - apply two_lines_ok.
  - cbn. lia.
  - vm_compute. lia.
  - exists txns. split; [exact H|]. unfold two_lines in Htx. inversion Htx as [|? t1 ? l1 [H1 _] Hl1]; subst. inversion Hl1 as [|? t2 ? l2 [H2 _] Hl2]; subst. inversion Hl2; subst.
    cbn [fmap list_fmap]. rewrite H1, H2. reflexivity.
Defined.

(** Seven transactions, of 0, 1 or 2 remote keys, for three workers. *)
Definition remote_txn (n : nat) : Txn := Txn_init ((λ j, MkOP (if decide (j < n)%nat then 9 else 1) (MkLoc true (MkNode 0)) READ 0) <$> seq 0 N_OPS) 0.
Definition seven : list Txn := remote_txn <$> [0; 1; 2; 0; 1; 2; 0]%nat.
Definition two_parts : PartitionInfo := MkPart 10 5 0 (MkNode 0) (MkNode 2).

Lemma workers_share_trace_witness : ∃ per_core dropped, deal_all two_parts 3 7 seven = Ok per_core ∧ length <$> per_core = [2; 2; 2]%nat
  ∧ concat per_core ++ dropped ≡ₚ seven ∧ length dropped = 1%nat.
Proof.
  destruct (proj2 (workers_share_trace two_parts 3 7 seven ltac:(lia) ltac:(done) ltac:(cbn; lia) ltac:(repeat constructor) ltac:(by vm_compute)))
    as (per_core & dropped & H & Hl & Hq & Hp & Hd).
  exists per_core, dropped. split; [exact H|]. split; [|split; [exact Hp|exact Hd]]. vm_compute in H. injection H as <-. reflexivity.
Defined.
