(* ===== verification/TxnLoop.v ===== *)
(** * The whole loop of a worker

    [txn_executor] of [src/src/ee/executor.cpp] on a node with one worker, which
    is then also the leader: batch after batch, the transactions, the hot period
    that sends the packets of the committed ones, the new switch block, and the
    deferred transactions.  The theorem connects the executor, the packet queue
    and the hot period: what commits is what is sent. *)
From stdpp Require Import base tactics list numbers gmap relations strings sorting.
From Stdlib Require Import ZArith Lia.
From S2P Require Import Prelude Types Layout Msg Row Table Mempool SendQ SwitchPkt MsgHandler HotCold Sched Undolog Executor RowAccess Serial SerialSteps Serializability ExecLoops HotPeriod ControlPlane.

#[local] Arguments N_OPS : simpl never.
#[local] Open Scope Z_scope.

(** ** The code *)

Section loop.
Context (bm : build) (ext : externals).
(** What the hot period starts its packets from, and the configuration. *)
Context (held : Z → pass1_pkt) (junk : list OP) (lid tenant num_nodes : Z).

(** The section of thread 0: [run_hot_period], the next block with the answer
    [resp] of the scheduler, and [done_sending]. *)
Definition leader_section (batch_num : Z) (resp : alloc_resp_t) (w : world) (x : TxnExecutor) (p : period) : outcome (world * period) :=
  '(n, t) ← kvs_of w x;
  p1 ← run_hot_period bm (ext_macs ext) t held junk lid (mini_batch_num x) (n_send_q n) p;
  L ← update_alloc tenant num_nodes (u32 (1 + batch_num)) resp (p_layout p1);
  Ok (<[x_node x := set_send_q (done_sending (n_send_q n)) n]> w, MkPeriod (p_events p1) (past_mb_num p1) (p_pool p1) L).

(** [single_db_section], which the batch barrier runs for every worker. *)
Definition single_db_section (fuel k : nat) (L : DeclusteredLayout) (txns : list Txn) (w : world) (x : TxnExecutor)
    : outcome (list Txn * world * TxnExecutor) :=
  '(txns', w', x') ← run_leftover_txns bm ext fuel L k txns w x;
  n ← aget w' (x_node x');
  assert (send_q_tail (n_send_q n) =? 0);;
  Ok (txns', w', x').

(** The state of the loop. *)
Record loop_state := MkLoop { l_sched : scheduler_t; l_txns : list Txn; l_world : world; l_exec : TxnExecutor; l_period : period }.

(** One turn: batch [i / batch_tgt]; [resp] is the scheduler's answer for it,
    [fuel] bounds the retries of deferred transactions. *)
Definition batch_turn (part : PartitionInfo) (n_threads : Z) (fuel k : nat) (resp : nat → alloc_resp_t) (st : loop_state) (batch_num : nat) : outcome loop_state :=
  batch_tgt ← udiv BATCH_SIZE_TGT n_threads;
  '(sc, txns, L, w, x) ← run_batch bm ext (p_layout (l_period st)) part n_threads (l_sched st) (l_txns st) (batch_num * Z.to_nat batch_tgt)%nat (l_world st) (l_exec st);
  let p := MkPeriod (p_events (l_period st)) (past_mb_num (l_period st)) (p_pool (l_period st)) L in
  '(w1, p1) ← leader_section (Z.of_nat batch_num) (resp batch_num) w x p;
  '(txns1, w2, x2) ← single_db_section fuel k (p_layout p1) txns w1 x;
  Ok (MkLoop sc txns1 w2 x2 p1).

Definition txn_executor (part : PartitionInfo) (n_threads : Z) (fuel k : nat) (resp : nat → alloc_resp_t) (txns : list Txn) (sc : scheduler_t)
    (w : world) (x : TxnExecutor) (p : period) : outcome loop_state :=
  batch_tgt ← udiv BATCH_SIZE_TGT n_threads;
  let txns' := trim_txns (Z.to_nat batch_tgt) txns in
  ofold (batch_turn part n_threads fuel k resp) (seq 0 (length txns' / Z.to_nat batch_tgt)) (MkLoop sc txns' w (set_mb 1 x) p).
End loop.

(** ** The packet queues

    Only a commit touches the packet queue of a node. *)

Definition queues (w : world) : list hot_send_q := n_send_q <$> w.

Lemma queues_insert (w : world) i n n' : w !! i = Some n → queues (<[i := n']> w) = <[i := n_send_q n']> (queues w).
Proof. intros _. unfold queues. by rewrite list_fmap_insert. Qed.

Lemma queues_keep (w : world) i n n' : w !! i = Some n → n_send_q n' = n_send_q n → queues (<[i := n']> w) = queues w.
Proof. intros Hn Hq. rewrite (queues_insert _ _ n) by done. rewrite Hq. apply list_insert_id. unfold queues. by rewrite list_lookup_fmap, Hn. Qed.

Section queues.
Context (bm : build) (ext : externals).

Lemma handle_queue n m n' eff : handle bm n m = Ok (n', eff) → n_send_q n' = n_send_q n.
Proof.
  unfold handle, handle_get_req, handle_get_res, handle_put_req, handle_put_res. intros H.
  destruct m as [| |t]; [by minv..|]. destruct (mt_type t); minv; repeat case_match; minv; done.
Qed.

Lemma deliver_queues fuel w msgs done w' done' : deliver bm fuel w msgs done = Ok (w', done') → queues w' = queues w.
Proof.
  revert w msgs done. induction fuel as [|fuel IH]; intros w msgs done H; cbn [deliver] in H; (destruct msgs as [|[dst m] msgs]; [by minv|]); minv.
  destruct r0 as [n' eff]. apply handle_queue in E0. apply IH in H as ->. by eapply queues_keep.
Qed.

Lemma put_kvs_queues w x n t t' : kvs_of w x = Ok (n, t) → queues (put_kvs w x n t') = queues w.
Proof. unfold kvs_of, put_kvs. intros H. minv. by eapply queues_keep. Qed.

Lemma fut_result_world w x f res w' x' : fut_result w x f = Ok (res, w', x') → w' = w.
Proof. unfold fut_result. intros H. minv. destruct (future_get r) as [[[p|] f']|]; by minv. Qed.

Lemma acquire_queues mode w x op id res w' x' : acquire bm ext mode w x op id = Ok (res, w', x') → queues w' = queues w.
Proof.
  unfold acquire, acquire_local, acquire_remote. intros H. destruct (is_local (loc_info op)); minv.
  - destruct r0 as [n t]. minv. destruct r0 as [[e t'] fut]. destruct (error e); minv; [by eapply put_kvs_queues|].
    apply fut_result_world in H as ->. by eapply put_kvs_queues.
  - destruct r as [n t]. minv. destruct (set_new_id n _) as [req n1] eqn:Eid. minv. destruct r0 as [w1 dn]. apply fut_result_world in H as ->.
    apply deliver_queues in E1 as ->. unfold kvs_of in E. minv. eapply queues_keep; [done|]. unfold add_future in E0. minv.
    unfold set_new_id in Eid. injection Eid as _ <-. done.
Qed.

Lemma apply_queues stamp w x op f res w' x' : apply_op stamp w x op f = Ok (res, w', x') → queues w' = queues w.
Proof.
  unfold apply_op. intros H. minv. destruct (future_get r) as [[[p|] f']|]; minv; [|done].
  destruct (op_mode op); minv; try done. destruct r0 as [w1 x1]. minv. unfold write_through in E0. destruct p; minv; [|by destruct (fut_pkt f'); minv].
  destruct r0 as [n t]. minv. by eapply put_kvs_queues.
Qed.

Lemma clear_queues w x a out w' x' : clear_action w x a = Ok (out, w', x') → queues w' = queues w.
Proof.
  destruct a as [m k f|m f tgt]; cbn [clear_action]; unfold clear_local, clear_remote; intros H; minv.
  - destruct r as [w1 x1]. minv. case_bool_decide; minv. destruct r as [n t]. minv. destruct r as [e t']. destruct (error e); minv. by eapply put_kvs_queues.
  - destruct (future_get r) as [[[p|] f']|]; minv; [|done]. destruct (fut_pkt f'); [|done].
    destruct (4 <? _); minv. case_bool_decide; minv. by eapply queues_keep.
Qed.

Lemma clear_actions_queues w x acts out w' x' : clear_actions w x acts = Ok (out, w', x') → queues w' = queues w.
Proof.
  revert w x out. induction acts as [|a acts IH]; intros w x out H; cbn [clear_actions] in H; minv; [done|].
  destruct r as [[o1 w1] x1]. minv. destruct r as [[o2 w2] x2]. minv. apply IH in E0 as ->. by eapply clear_queues.
Qed.

Lemma lock_loop_queues short w x ops id futs res w' x' : lock_loop bm ext short w x ops id futs = Ok (res, w', x') → queues w' = queues w.
Proof.
  revert w x futs. induction ops as [|op ops IH]; intros w x futs H; cbn [lock_loop] in H; [by minv|].
  destruct (op_mode op); minv; [done|..]; destruct r as [[[f|] w1] x1]; minv; apply acquire_queues in E; try (by rewrite <-E);
    rewrite <-E; by eapply IH.
Qed.

Lemma apply_loop_queues stamp w x ops futs reads res w' x' : apply_loop stamp w x ops futs reads = Ok (res, w', x') → queues w' = queues w.
Proof.
  revert w x futs reads. induction ops as [|op ops IH]; intros w x futs reads H; cbn [apply_loop] in H; [by minv|].
  destruct (op_mode op); [by minv|..]; (destruct futs as [|f futs]; [done|]); minv; destruct r as [[[v|] w1] x1]; minv; apply apply_queues in E;
    rewrite <-E; first [done|by eapply IH].
Qed.

Lemma end_txn_queues rc w x rc' w' x' : end_txn bm rc w x = Ok (rc', w', x') → queues w' = queues w.
Proof.
  unfold end_txn, log_clear, settle. intros H. minv. destruct r as [w1 x1]. minv. destruct r0 as [[out w2] x2]. minv. destruct r0 as [w3 dn]. minv.
  apply deliver_queues in E2 as ->. by eapply clear_actions_queues.
Qed.

(** A commit reserves the next entry of its node's queue; a rollback leaves the
    queues alone. *)
Lemma my_execute_queues w x arg ref res arg' w' x' : my_execute bm ext w x arg ref = Ok (res, arg', w', x') →
  match r_rc res with
  | ROLLBACK => queues w' = queues w
  | COMMIT => ∃ q buf q', queues w !! x_node x = Some q ∧ alloc_slot q (mini_batch_num x) ref = Ok (buf, q') ∧ queues w' = <[x_node x := q']> (queues w)
  end.
Proof.
  unfold my_execute. intros H. minv. destruct r0 as [[locked w1] x1]. pose proof (lock_loop_frame _ _ _ _ _ _ _ _ _ _ _ E0) as F0. apply lock_loop_queues in E0. clear E r.
  destruct locked as [futs|]; minv.
  - destruct r as [[[ok reads] w2] x2]. pose proof (apply_loop_frame _ _ _ _ _ _ _ _ _ E) as F1. apply apply_loop_queues in E. destruct ok; cbn [negb] in H; minv.
    + destruct r0 as [buf q']. minv. destruct r0 as [[rc w3] x3]. pose proof (end_txn_frame _ _ _ _ _ _ _ E3) as [-> _]. apply end_txn_queues in E3. minv. cbn [r_rc].
      pose proof (framed_trans _ _ _ F0 F1) as F. pose proof (frame_node _ _ F) as Hnode. pose proof (f_equal mini_batch_num F) as Hmb. cbn in Hmb.
      rewrite Hnode in *. rewrite Hmb in *. exists (n_send_q r), buf, q'. rewrite E3, (queues_insert _ _ r) by done. cbn [n_send_q set_send_q]. rewrite E, E0. split_and!; try done.
      rewrite <-E0, <-E. unfold queues. by rewrite list_lookup_fmap, E1.
    + destruct r as [[rc w3] x3]. pose proof (end_txn_frame _ _ _ _ _ _ _ E1) as [-> _]. apply end_txn_queues in E1. minv. cbn [r_rc]. congruence.
  - destruct r as [[rc w3] x3]. pose proof (end_txn_frame _ _ _ _ _ _ _ E) as [-> _]. apply end_txn_queues in E. minv. cbn [r_rc]. congruence.
Qed.
End queues.

Lemma alloc_slot_ok q l mb r buf q' : send_q_ok q l → alloc_slot q mb r = Ok (buf, q') → send_q_ok q' (l ++ [(mb, r)]).
Proof.
  intros Hok Ha. destruct (alloc_slot_spec q l mb r Hok) as [Hroom Hfull]. destruct (decide (Z.of_nat (length l) + 1 < send_q_capacity q)) as [Hlt|Hge].
  - destruct (Hroom Hlt) as (q1 & Hq1 & Hok1 & _). rewrite Ha in Hq1. by injection Hq1 as _ <-.
  - destruct (decide (Z.of_nat (length l) + 1 = send_q_capacity q)) as [Heq|Hne]; [by rewrite (Hfull Heq) in Ha|].
    destruct (sq_room _ _ Hok) as [Hc| ->]; [lia|]. exfalso. pose proof (sq_cap _ _ Hok). cbn [length] in *. assert (send_q_capacity q = 0) as H0 by lia.
    unfold alloc_slot, LockedStackPool_allocate in Ha. rewrite (sq_pool _ _ Hok), H0 in Ha. cbn in Ha. done.
Qed.

(** Node [i]'s queue holds [l]. *)
Definition queued (w : world) (i : nat) (l : list (Z * txn_ref)) : Prop := ∃ q, queues w !! i = Some q ∧ send_q_ok q l.

(** ** From one queue of transactions to the next

    The accounting of ExecLoops, and beside it: the committed transactions are
    appended to the packet queue in the order in which they committed, with
    mini-batch numbers that never fall. *)
Record ran (q q' : list nat) (w : world) (x : TxnExecutor) (w' : world) (x' : TxnExecutor) (done : list nat) : Prop := {
  ran_acc : accounted q q' x x' done;
  ran_node : x_node x' = x_node x;
  ran_tid : x_tid x' = x_tid x;
  ran_mb : mini_batch_num x ≤ mini_batch_num x';
  ran_queue : ∀ l, queued w (x_node x) l → ∃ ms, length ms = length done
    ∧ Forall (λ m, mini_batch_num x ≤ m ≤ mini_batch_num x') ms ∧ StronglySorted Z.le ms
    ∧ queued w' (x_node x) (l ++ zip ms ((λ e, (x_tid x, e)) <$> done)) }.

Lemma ran_refl q w x : ran q q w x w x [].
Proof. split; try done; [apply accounted_refl|]. intros l Hl. exists []. cbn. rewrite app_nil_r. split_and!; try done; constructor. Qed.

Lemma sorted_app (l1 l2 : list Z) b : StronglySorted Z.le l1 → StronglySorted Z.le l2 → Forall (λ m, m ≤ b) l1 → Forall (λ m, b ≤ m) l2 → StronglySorted Z.le (l1 ++ l2).
Proof.
  intros H1 H2 Hl Hr. induction H1 as [|m l1 Hs IH Hf]; [done|]. apply Forall_cons in Hl as [Hm Hl]. cbn. constructor; [by apply IH|].
  apply Forall_app. split; [done|]. eapply Forall_impl; [exact Hr|]. cbn. lia.
Qed.

Lemma ran_trans q1 q2 q3 w1 x1 w2 x2 w3 x3 d1 d2 : ran q1 q2 w1 x1 w2 x2 d1 → ran q2 q3 w2 x2 w3 x3 d2 → ran q1 q3 w1 x1 w3 x3 (d1 ++ d2).
Proof.
  intros [A1 N1 T1 M1 Q1] [A2 N2 T2 M2 Q2]. split; [by eapply accounted_trans|congruence|congruence|lia|].
  intros l Hl. destruct (Q1 l Hl) as (ms1 & L1 & B1 & S1 & H1). rewrite <-N1 in H1. destruct (Q2 _ H1) as (ms2 & L2 & B2 & S2 & H2). exists (ms1 ++ ms2). split_and!.
  - rewrite !length_app. lia.
  - apply Forall_app. split; (eapply Forall_impl; [first [exact B1|exact B2]|]); cbn; lia.
  - apply (sorted_app _ _ (mini_batch_num x2)); try done; (eapply Forall_impl; [first [exact B1|exact B2]|]); cbn; lia.
  - rewrite N1, T1, <-app_assoc in H2. rewrite fmap_app, zip_with_app by (by rewrite length_fmap). done.
Qed.

Lemma ran_app q q' r w x w' x' d : ran q q' w x w' x' d → ran (q ++ r) (q' ++ r) w x w' x' d.
Proof. intros [A N T M Q]. split; try done. by apply accounted_app. Qed.

Lemma ran_perm q q' p p' w x w' x' d : q ≡ₚ p → q' ≡ₚ p' → ran q q' w x w' x' d → ran p p' w x w' x' d.
Proof. intros H1 H2 [A N T M Q]. split; try done. by eapply accounted_perm. Qed.

(** The next mini-batch. *)
Lemma ran_set_mb q q' w x w' x' d mb : mini_batch_num x' ≤ mb → ran q q' w x w' x' d → ran q q' w x w' (set_mb mb x') d.
Proof.
  intros Hmb [A N T M Q]. split; try done; [by destruct A|cbn; lia|]. intros l Hl. destruct (Q l Hl) as (ms & L & B & S & H). exists ms. split_and!; try done.
  eapply Forall_impl; [exact B|]. cbn. lia.
Qed.

Section runs.
Context (bm : build) (ext : externals).

(** A run that commits nothing. *)
Lemma ran_none q q' w x w' x' : accounted q q' x x' [] → x_node x' = x_node x → x_tid x' = x_tid x → mini_batch_num x' = mini_batch_num x →
  queues w' = queues w → ran q q' w x w' x' [].
Proof. intros A N T M Hq. split; try done; [lia|]. intros l Hl. exists []. cbn. rewrite app_nil_r. unfold queued. rewrite Hq. split_and!; try done; constructor. Qed.

Lemma run_txn_ran L nid ea e q0 txns w x q' txns' w' x' : run_txn bm ext L nid ea (e :: q0) txns w x = Ok (q', txns', w', x') →
  ran (e :: q0) q' w x w' x' (committed [(e, run_rc bm ext nid e (txns, w, x))]) ∧ mini_batch_num x' = mini_batch_num x.
Proof.
  intros H. pose proof (run_txn_accounts bm ext L nid ea e q0 txns w x q' txns' w' x' H) as [Hacc _]. unfold run_txn in H. unfold run_rc in Hacc |- *.
  apply bind_ok in H as (txn0 & Etxn & H). rewrite Etxn in Hacc |- *. minv.
  destruct (do_accel _) eqn:Eacc; [apply bind_ok in H as ([[[res txn1] w1] x1] & Emy & H); rewrite Emy in Hacc |- *|]; minv.
  - pose proof (my_execute_queues _ _ _ _ _ _ _ _ _ _ Emy) as Hq. apply my_execute_frame in Emy as (Hf & -> & Hfill).
    pose proof (f_equal x_node Hf) as N. pose proof (f_equal x_tid Hf) as T. pose proof (f_equal mini_batch_num Hf) as M. cbn in N, T, M.
    destruct (r_rc res); minv; unfold committed in Hacc |- *; cbn [omap list_omap fst snd] in Hacc |- *.
    + rewrite bool_decide_true in Hacc |- * by done. destruct (r_fill res) as [buf|]; minv. split; [|exact M].
      split; [exact Hacc|done|done|cbn; lia|]. intros l [q1 [Hq1 Hok]]. destruct Hq as (q2 & buf' & q2' & Hq2 & Hal & Hqs). rewrite Hq1 in Hq2. injection Hq2 as <-.
      exists [mini_batch_num x]. cbn [length zip zip_with fmap list_fmap]. split_and!; [done|constructor; [cbn; lia|constructor]|repeat constructor|].
      exists q2'. rewrite Hqs. split; [apply list_lookup_insert_eq; by eapply lookup_lt_Some|by eapply alloc_slot_ok].
    + rewrite bool_decide_false in Hacc |- * by done. destruct (ea && _) eqn:Eq; minv; [|destruct r2 as [cold cold_p]; minv];
        (split; [|exact M]); apply ran_none; [exact Hacc|exact N|exact T|exact M|done|exact Hacc|exact N|exact T|exact M|done].
  - split; [|done]. by apply ran_none.
Qed.

(** One call in front of a run of calls. *)
Lemma ran_cons L nid ea e q0 txns w x q1 txns1 w1 x1 tr c q2 w2 x2 :
  run_txn bm ext L nid ea (e :: q0) txns w x = Ok (q1, txns1, w1, x1) → txn_runs bm ext L nid tr (txns1, w1, x1) c →
  ran q1 q2 w1 x1 w2 x2 (committed tr) →
  ∃ tr', txn_runs bm ext L nid tr' (txns, w, x) c ∧ ran (e :: q0) q2 w x w2 x2 (committed tr').
Proof.
  intros Hr Ht Ha. exists ((e, run_rc bm ext nid e (txns, w, x)) :: tr). split; [by eapply tr_run|].
  apply run_txn_ran in Hr as [H1 _]. rewrite (committed_app [_] tr : committed (_ :: tr) = _). by eapply ran_trans.
Qed.

Lemma ran_nil L nid c q w x : ∃ tr, txn_runs bm ext L nid tr c c ∧ ran q q w x w x (committed tr).
Proof. exists []. split; [constructor|apply ran_refl]. Qed.

Lemma mini_batch_ran fuel L nid q txns w x q' txns' w' x' : mini_batch bm ext fuel L nid q txns w x = Ok (q', txns', w', x') →
  (∃ tr, txn_runs bm ext L nid tr (txns, w, x) (txns', w', x') ∧ ran q q' w x w' x' (committed tr)) ∧ mini_batch_num x' = mini_batch_num x.
Proof.
  revert q txns w x. induction fuel as [|fuel IH]; intros q txns w x H; cbn [mini_batch] in H; [minv; eauto using ran_nil|].
  destruct q as [|e q0]; [minv; eauto using ran_nil|]. minv. destruct r as [[[q1 txns1] w1] x1].
  apply IH in H as ((tr & Ht & R2) & M2). split; [by eapply ran_cons|]. apply run_txn_ran in E as [_ M1]. congruence.
Qed.

Lemma drain_ran fuel L nid q txns w x txns' w' x' : drain bm ext fuel L nid q txns w x = Ok (txns', w', x') →
  (∃ tr, txn_runs bm ext L nid tr (txns, w, x) (txns', w', x') ∧ ran q [] w x w' x' (committed tr)) ∧ mini_batch_num x' = mini_batch_num x.
Proof.
  revert q txns w x. induction fuel as [|fuel IH]; intros q txns w x H; cbn [drain] in H; (destruct q as [|e q0]; [minv; eauto using ran_nil|]); [done|]. minv.
  destruct r as [[[q1 txns1] w1] x1]. apply IH in H as ((tr & Ht & R2) & M2). split; [by eapply ran_cons|]. apply run_txn_ran in E as [_ M1]. congruence.
Qed.

Lemma drain_all_ran L nid qs txns w x txns' w' x' : drain_all bm ext L nid qs txns w x = Ok (txns', w', x') →
  (∃ tr, txn_runs bm ext L nid tr (txns, w, x) (txns', w', x') ∧ ran (concat qs) [] w x w' x' (committed tr)) ∧ mini_batch_num x' = mini_batch_num x.
Proof.
  revert txns w x. induction qs as [|q qs IH]; intros txns w x H; cbn [drain_all] in H; [minv; eauto using ran_nil|].
  minv. destruct r as [[txns1 w1] x1]. apply drain_ran in E as ((t1 & H1 & R1) & M1). apply IH in H as ((t2 & H2 & R2) & M2). split; [|congruence].
  exists (t1 ++ t2). split; [by eapply txn_runs_app|]. rewrite committed_app. eapply ran_trans; [|exact R2]. exact (ran_app _ _ (concat qs) _ _ _ _ _ R1).
Qed.

Lemma mini_batches_ran rounds tgt L sc txns w x sc' txns' w' x' : 0 ≤ mini_batch_num x → mini_batch_num x + Z.of_nat rounds < 2 ^ 32 →
  mini_batches bm ext rounds tgt L sc txns w x = Ok (sc', txns', w', x') →
  (∃ tr, txn_runs bm ext L (sc_node_id sc) tr (txns, w, x) (txns', w', x')
     ∧ ran (concat (mb_queues sc)) (concat (mb_queues sc')) w x w' x' (committed tr)) ∧ mini_batch_num x' = mini_batch_num x + Z.of_nat rounds.
Proof.
  revert sc txns w x. induction rounds as [|rounds IH]; intros sc txns w x H0 Hmax H; cbn [mini_batches] in H; [minv; split; [eauto using ran_nil|lia]|].
  minv. destruct r1 as [[[q1 txns1] w1] x1]. minv. apply mini_batch_ran in E1 as ((t1 & Htr1 & R1) & M1).
  assert (u32 (mini_batch_num x1 + 1) = mini_batch_num x + 1) as Hw by (rewrite M1; apply wrap_small; lia). rewrite Hw in H.
  apply IH in H as ((t2 & Htr2 & R2) & M2); [|cbn; lia..]. cbn [set_queues mb_queues set_mb mini_batch_num sc_node_id] in *. split; [|lia].
  destruct (concat_insert (mb_queues sc) _ _ q1 E0) as (rest & P1 & P2). exists (t1 ++ t2).
  split; [eapply txn_runs_app; [exact Htr1|]; by eapply tr_next|]. rewrite committed_app.
  eapply ran_trans; [|exact R2]. apply ran_set_mb; [lia|]. eapply ran_perm; [symmetry; exact P1|symmetry; exact P2|]. by apply ran_app.
Qed.

Lemma run_batch_ran L p n_threads sc txns i w x sc' txns' L' w' x' :
  run_batch bm ext L p n_threads sc txns i w x = Ok (sc', txns', L', w', x') →
  0 < n_threads → Z.to_nat (n_queues sc) = length (mb_queues sc) → Z.of_nat i + BATCH_SIZE_TGT < 2 ^ 32 →
  0 ≤ mini_batch_num x → mini_batch_num x + BATCH_SIZE_TGT / MINI_BATCH_SIZE_TGT + 1 < 2 ^ 32 →
  (∃ st tr x1, sched_batch bm p sc txns L i (i + Z.to_nat (BATCH_SIZE_TGT / n_threads)) = Ok st
     ∧ txn_runs bm ext (b_layout st) (sc_node_id sc) tr (b_txns st, w, x) (txns', w', x1) ∧ x' = set_mb (mini_batch_num x') x1
     ∧ ran (batch_entries n_threads i) [] w x w' x' (committed tr))
  ∧ mini_batch_num x' = mini_batch_num x + BATCH_SIZE_TGT / MINI_BATCH_SIZE_TGT + 1.
Proof.
  intros H Hn Hq Hb H0 Hmax. unfold run_batch in H.
  apply bind_ok in H as (bt & [Hnt ->]%udiv_ok & H). apply bind_ok in H as (mt & _ & H). apply bind_ok in H as (st & Hsb & H).
  apply bind_ok in H as ([[[sc1 txns1] w1] x1] & Hmb & H). apply bind_ok in H as ([[txns2 w2] x2] & Hd & H). minv. pose proof Hsb as Hsb0.
  apply sched_batch_queues in Hsb as (P & Hl & Hnq & Hid & Hempty). pose proof (mini_batches_accounts _ _ _ _ _ _ _ _ _ _ _ _ _ Hmb) as (_ & Hl1 & Hn1 & Hid1 & _).
  assert (0 ≤ BATCH_SIZE_TGT / MINI_BATCH_SIZE_TGT) as Hr by (vm_compute; done).
  apply mini_batches_ran in Hmb as ((t1 & H1 & R1) & M1); [|done|rewrite Z2Nat.id; lia]. rewrite Z2Nat.id in M1 by done. rewrite Hid1, Hid in *.
  apply drain_all_ran in Hd as ((t2 & H2 & R2) & M2). rewrite take_ge in R2 by lia. rewrite take_ge in Hempty by lia. rewrite M2, M1.
  assert (u32 (mini_batch_num x + BATCH_SIZE_TGT / MINI_BATCH_SIZE_TGT + 1) = mini_batch_num x + BATCH_SIZE_TGT / MINI_BATCH_SIZE_TGT + 1) as -> by (apply wrap_small; lia).
  split; [|done]. exists st, (t1 ++ t2), x2. split_and!; [done|by eapply txn_runs_app|done|]. rewrite committed_app.
  apply ran_set_mb; [lia|]. eapply ran_trans; [|exact R2]. eapply ran_perm; [|reflexivity|exact R1].
  rewrite P, (concat_empty _ Hempty), app_nil_l. by rewrite batch_entries_u32.
Qed.
End runs.

(** C9: what commits is what is sent.  A worker's batch is a sequence of calls of
    [run_txn], one transaction at a time.  If the worker started it with an empty
    packet queue, the queue holds at its end exactly the transactions whose
    [my_execute] returned [COMMIT], in the order of these calls; every other
    transaction of the batch is deferred.  The hot period that follows sends each
    of them to the switch once, in that order, passing the barriers of the
    mini-batches it covers, and after [done_sending] the queue is ready for the
    next batch. *)
Theorem committed_are_sent bm ext L p n_threads sc txns i w x sc' txns' L' w' x' past :
  run_batch bm ext L p n_threads sc txns i w x = Ok (sc', txns', L', w', x') →
  0 < n_threads → Z.to_nat (n_queues sc) = length (mb_queues sc) → Z.of_nat i + BATCH_SIZE_TGT < 2 ^ 32 →
  0 ≤ past ≤ mini_batch_num x → mini_batch_num x + BATCH_SIZE_TGT / MINI_BATCH_SIZE_TGT + 1 < 2 ^ 32 → queued w (x_node x) [] →
  ∃ st tr x1 n', sched_batch bm p sc txns L i (i + Z.to_nat (BATCH_SIZE_TGT / n_threads)) = Ok st
    ∧ txn_runs bm ext (b_layout st) (sc_node_id sc) tr (b_txns st, w, x) (txns', w', x1) ∧ x' = set_mb (mini_batch_num x') x1
    ∧ w' !! x_node x' = Some n'
    ∧ batch_entries n_threads i ++ leftover_txns x ≡ₚ committed tr ++ leftover_txns x'
    ∧ send_q_tail (n_send_q n') = Z.of_nat (length (committed tr)) ∧ send_q_ok (done_sending (n_send_q n')) []
    ∧ (committed tr ≠ [] → ∃ evs, send_queue past (mini_batch_num x') (n_send_q n') = Ok evs
         ∧ e_txn <$> concat (sent_entries <$> evs) = (λ e, (x_tid x, e)) <$> committed tr
         ∧ n_waits evs = 1 + (mini_batch_num x' - past)).
Proof.
  intros Hrun Hn Hq Hb Hpast Hmax Hempty. destruct (run_batch_ran _ _ _ _ _ _ _ _ _ _ _ _ _ _ _ Hrun Hn Hq Hb) as ((st & tr & x1 & Hsb & Htr & Hx1 & R) & M); [lia|exact Hmax|].
  destruct R as [[P B C] N T _ Q]. destruct (Q [] Hempty) as (ms & Hl & Hms & Hs & q & Hq' & Hok). rewrite <-N in Hq'. unfold queues in Hq'.
  rewrite list_lookup_fmap in Hq'. destruct (w' !! x_node x') as [n'|] eqn:Hn'; [|done]. injection Hq' as <-. cbn [app] in Hok.
  exists st, tr, x1, n'. set (dn := committed tr) in *.
  assert (length ms = length ((λ e, (x_tid x, e)) <$> dn)) as Hlen by (by rewrite length_fmap).
  assert (length (zip ms ((λ e, (x_tid x, e)) <$> dn)) = length dn) as Hzip by (rewrite length_zip_with, length_fmap; lia).
  split_and!; [done|done|done|done|exact P| |by eapply done_sending_ok|].
  - rewrite (sq_tail _ _ Hok). f_equal. exact Hzip.
  - intros Hne. destruct (send_queue_in_step (n_send_q n') _ past (mini_batch_num x') Hok) as (evs & Hevs & Hsent & Hw & _).
    + rewrite fst_zip; [done|]. apply Nat.eq_le_incl. exact Hlen.
    + intros E. apply (f_equal length) in E. assert (length dn = 0%nat) by (rewrite <-Hzip; exact E). by destruct dn.
    + apply Forall_lookup. intros j [m r] Hj. apply lookup_zip_with_Some in Hj as (m0 & r0 & [= -> ->] & Hm & _).
      pose proof (proj1 (Forall_lookup _ _) Hms j m0 Hm) as Hb'. cbn in Hb' |- *. lia.
    + exists evs. split; [done|]. rewrite Hsent. split; [|done]. apply snd_zip. apply Nat.eq_le_incl. symmetry. exact Hlen.
Qed.

(** ** A turn of the loop *)

(** The layout of [BatchDemo] with its reverse direction. *)
Definition turn_layout : DeclusteredLayout :=
  MkLayout 0 (virt_map small_layout) (((λ k, {[0 := k]}) <$> seqZ 0 8) ++ replicate (N_REGS - 8) ∅) [].
Definition turn_start : loop_state :=
  MkLoop (scheduler_make 2 0) sample_txns BatchDemo.nodes (Demo.exec 0) (MkPeriod [] 1 0 turn_layout).
Definition turn_end : outcome loop_state :=
  batch_turn one_slot BatchDemo.ext (λ _, sample_old_pkt) (replicate N_OPS inhabitant) 0 0 2 (part_of 0) 33333 10 0
             (λ n, MkResp (Z.of_nat n + 2) 5) turn_start 0.

(** Three transactions of mini-batch 21 commit and are sent in the order 1, 0, 2
    after 21 barriers; then block 5 is the node's, and the queue is empty. *)
Example one_turn : (λ st, (mini_batch_num (l_exec st), leftover_txns (l_exec st), send_q_tail <$> queues (l_world st), block_num (p_layout (l_period st)),
    e_txn <$> concat (sent_entries <$> p_events (l_period st)), n_waits (p_events (l_period st)))) <$> turn_end
  = Ok (22, [], [0; 0], 5, [(0, 1%nat); (0, 0%nat); (0, 2%nat)], 23).
Proof. vm_compute. reflexivity. Qed.

Lemma demo_queue_empty : queued BatchDemo.nodes (x_node (Demo.exec 0)) [].
Proof. exists (hot_send_q_make 4). split; [reflexivity|]. by apply hot_send_q_make_ok. Qed.

Lemma committed_are_sent_witness : ∃ sc' txns' L' w' x' tr n', BatchDemo.batch = Ok (sc', txns', L', w', x') ∧ w' !! x_node x' = Some n'
  ∧ send_q_tail (n_send_q n') = Z.of_nat (length (committed tr)) ∧ seq 0 3 ++ [] ≡ₚ committed tr ++ leftover_txns x'.
Proof.
  destruct BatchDemo.batch as [[[[[sc' txns'] L'] w'] x']|] eqn:E; [|by vm_compute in E].
  pose proof (committed_are_sent one_slot BatchDemo.ext small_layout (part_of 0) 33333 (scheduler_make 2 0) sample_txns 0 BatchDemo.nodes (Demo.exec 0)
    sc' txns' L' w' x' 1) as H. fold BatchDemo.batch in H.
  specialize (H E). specialize (H ltac:(lia)). specialize (H eq_refl). specialize (H ltac:(by vm_compute)). specialize (H ltac:(cbn; lia)). specialize (H ltac:(by vm_compute)). specialize (H demo_queue_empty).
  destruct H as (st & tr & x1 & n' & _ & _ & _ & Hn & Hp & Ht & _).
  exists sc', txns', L', w', x', tr, n'. split; [exact eq_refl|]. split; [exact Hn|]. split; [exact Ht|exact Hp].
Defined.
