(* ===== verification/Startup.v ===== *)
(** * The start of a node

    [Config::parse_cli] ([main/config.cpp]) and the part of [main] ([main/main.cpp])
    that makes and fills the table.  The option parser is a library: how often an
    option is given and the values it parses are arguments. *)
From stdpp Require Import base tactics list numbers gmap strings.
From Stdlib Require Import ZArith Lia.
From S2P Require Import Prelude Types Msg Row Table.

#[local] Open Scope Z_scope.

(** ** The configuration *)

Record Server := MkServer { ip : string; port : Z; mac : list Z }.

Record Config := MkConfig {
  cf_servers : list Server;
  sched_server : Server;
  cf_node_id : node_t;
  cf_tenant_id : Z;
  cf_num_nodes : Z;
  num_txn_workers : Z;
  cf_switch_id : node_t;
  use_switch : bool;
  verify : bool;
  trace_fname : string;
  dist_fname : string;
  num_txns : Z;
  table_size : Z;
  write_prob : Z;
}.

(** The addresses of the build that does not ask a coordinator for them
    ([DYNAMIC_IPS] is false). *)
Definition eth_any : list Z := [255; 255; 255; 255; 255; 255].
Definition sched_addr : Server := MkServer "128.83.144.8" 4001 eth_any.
Definition static_servers : list Server :=
  [MkServer "192.168.0.8" 4002 [232; 235; 211; 247; 108; 38]; MkServer "192.168.0.10" 4003 [232; 235; 211; 247; 121; 94]].

(** The parsed command line. *)
Record cli := MkCli { opt_count : string → nat; opt_num : string → Z; opt_str : string → string; opt_bool : string → bool }.

Section parse.
Context (c : cli).

(** [BetterParseResult::as]. *)
Definition required {A} (value : string → A) (option : string) : outcome A :=
  if bool_decide (opt_count c option = 0%nat) then Fail (Exited 1) else Ok (value option).

(** [parse_cli]; [resize] shortens the list of servers. *)
Definition parse_cli : outcome Config :=
  if bool_decide (opt_count c "help" ≠ 0%nat) then Fail (Exited 0)
  else
    node_id ← required (opt_num c) "node_id";
    tenant_id ← required (opt_num c) "tenant_id";
    num_nodes ← required (opt_num c) "num_nodes";
    workers ← required (opt_num c) "num_txn_workers";
    if bool_decide (Z.of_nat (length static_servers) < num_nodes) then Fail (Thrown RuntimeError)
    else
      let servers := take (Z.to_nat num_nodes) static_servers in
      trace ← required (opt_str c) "trace_fname";
      dist ← required (opt_str c) "dist_fname";
      usesw ← required (opt_bool c) "use_switch";
      let ver := if bool_decide (opt_count c "verify" ≠ 0%nat) then opt_bool c "verify" else false in
      me ← aget servers (Z.to_nat (node_u32 (node_of node_id)));
      txns ← required (opt_num c) "num_txns";
      tsize ← required (opt_num c) "table_size";
      wprob ← required (opt_num c) "write_prob";
      Ok (MkConfig (servers ++ [me]) sched_addr (node_of node_id) tenant_id num_nodes workers (node_of (Z.of_nat (length servers)))
                   usesw ver trace dist txns tsize wprob).
End parse.

(** ** The table *)

(** [auto& tuple = table->insert(index); tuple.id = i]. *)
Definition fill_row (t : StructTable) (i : nat) : outcome StructTable :=
  '(index, t1) ← table_insert t;
  row ← aget (data t1) (Z.to_nat index);
  d ← aset (data t1) (Z.to_nat index) (set_tuple (MkKV (Z.of_nat i) (kv_value (tuple row))) row);
  Ok (set_data d t1).

(** [make_table] and the loop of [main]. *)
Definition load_table (cfg : Config) : outcome (Registry * StructTable) :=
  '(id, r) ← make_table Registry_init "kvs" (table_size cfg) (cf_num_nodes cfg) (node_u32 (cf_node_id cfg)) (node_u32 (cf_switch_id cfg));
  t ← aget (table_ids r) id;
  t' ← ofold fill_row (seq 0 (Z.to_nat (table_size cfg))) t;
  Ok (MkRegistry (<[id := t']> (table_ids r)) (table_names r), t').

(** ** What they do *)

Definition needed : list string :=
  ["node_id"; "tenant_id"; "num_nodes"; "num_txn_workers"; "trace_fname"; "dist_fname"; "use_switch"; "num_txns"; "table_size"; "write_prob"]%string.

Lemma required_some c {A} (value : string → A) option : opt_count c option ≠ 0%nat → required c value option = Ok (value option).
Proof. intros H. unfold required. by rewrite bool_decide_eq_false_2. Qed.

Lemma node_u32_small z : 0 ≤ z < 256 → node_u32 (node_of z) = z.
Proof. intros H. rewrite node_u32_of. by apply wrap_small. Qed.

(** The rows of a node that has started. *)
Definition fresh_row (i : nat) : Row := set_tuple (MkKV (Z.of_nat i) 0) Row_init.

Lemma fill_rows t k : tb_size t = 0 → max_size t < 2 ^ 64 → data t = replicate (Z.to_nat (max_size t)) Row_init → (k ≤ Z.to_nat (max_size t))%nat →
  ofold fill_row (seq 0 k) t
  = Ok (MkTable (tb_id t) (tb_name t) (Z.of_nat k) (max_size t) (part_info t) ((fresh_row <$> seq 0 k) ++ replicate (Z.to_nat (max_size t) - k) Row_init)).
Proof.
  intros H0 Hm Hd. induction k as [|k IH]; intros Hk; [destruct t; cbn in *; subst; by rewrite Nat.sub_0_r|].
  rewrite seq_S, ofold_app, IH by lia. cbn [mbind outcome_bind ofold Nat.add]. set (n := Z.to_nat (max_size t)) in *.
  assert (((fresh_row <$> seq 0 k) ++ replicate (n - k) Row_init) !! k = Some Row_init) as Hrow.
  { rewrite lookup_app_r by (rewrite length_fmap, length_seq; lia). rewrite length_fmap, length_seq. apply lookup_replicate_2. lia. }
  unfold fill_row, table_insert. cbn [max_size tb_size data tb_id tb_name part_info]. rewrite (proj2 (Z.leb_gt _ _)) by lia. rewrite Nat2Z.id, (aget_some _ _ _ Hrow). cbn [mbind outcome_bind data].
  rewrite Nat2Z.id, (aget_some _ _ _ Hrow). cbn [mbind outcome_bind]. rewrite aset_lt by (by eapply lookup_lt_Some). cbn [mbind outcome_bind].
  unfold set_data. cbn [tb_id tb_name tb_size max_size part_info]. do 2 f_equal; [rewrite wrap_small; lia|].
  rewrite insert_app_r_alt by (rewrite length_fmap, length_seq; lia). rewrite length_fmap, length_seq, Nat.sub_diag.
  replace (n - k)%nat with (S (n - S k)) by lia. cbn [replicate]. rewrite fmap_app, <-app_assoc. done.
Qed.

Lemma load_ok cfg : 0 < cf_num_nodes cfg ≤ 2 ^ 8 → 0 ≤ node_u32 (cf_node_id cfg) < cf_num_nodes cfg → 0 < table_size cfg < 2 ^ 64 → table_size cfg mod cf_num_nodes cfg = 0 →
  ∃ r t, load_table cfg = Ok (r, t) ∧ by_id r (tb_id t) = Ok t ∧ by_name r "kvs" = Ok (Z.to_nat (tb_id t))
    ∧ tb_size t = table_size cfg ∧ max_size t = table_size cfg ∧ data t = fresh_row <$> seq 0 (Z.to_nat (table_size cfg)).
Proof.
  intros Hn Hme Hs Hd. set (size := table_size cfg) in *.
  destruct (PartitionInfo_make_ok size (cf_num_nodes cfg) (node_u32 (cf_switch_id cfg)) Hn Hs Hd (node_u32 (cf_node_id cfg)) Hme) as (p & Hp & _).
  unfold load_table, make_table, StructTable_make. fold size. rewrite Hp. cbn [mbind outcome_bind].
  change (has_table Registry_init "kvs") with false. cbn [table_ids Registry_init app length aget lookup list_lookup mbind outcome_bind tb_size max_size part_info data].
  rewrite (fill_rows _ (Z.to_nat size)) by (cbn; (done || lia)). cbn [mbind outcome_bind max_size tb_id tb_name part_info]. rewrite Nat.sub_diag, app_nil_r, Z2Nat.id by lia.
  eexists _, _. split; [done|]. split_and!; try done.
Qed.

Lemma parse_ok c : opt_count c "help" = 0%nat → Forall (λ o, opt_count c o ≠ 0%nat) needed →
  0 ≤ opt_num c "node_id" < opt_num c "num_nodes" → opt_num c "num_nodes" ≤ 2 →
  ∃ cfg, parse_cli c = Ok cfg ∧ cf_num_nodes cfg = opt_num c "num_nodes" ∧ node_u32 (cf_node_id cfg) = opt_num c "node_id" ∧ node_u32 (cf_switch_id cfg) = opt_num c "num_nodes"
    ∧ Z.of_nat (length (cf_servers cfg)) = opt_num c "num_nodes" + 1 ∧ cf_servers cfg !! Z.to_nat (opt_num c "num_nodes") = static_servers !! Z.to_nat (opt_num c "node_id")
    ∧ table_size cfg = opt_num c "table_size".
Proof.
  intros Hh Hall Hme Hn. assert (∀ o, o ∈ needed → opt_count c o ≠ 0%nat) as H by (by apply Forall_forall). unfold needed in H. unfold parse_cli.
  rewrite bool_decide_eq_false_2 by (rewrite Hh; auto). rewrite !(required_some c (opt_num c)), !(required_some c (opt_str c)), !(required_some c (opt_bool c)) by (apply H; set_solver).
  cbn [mbind outcome_bind]. set (n := opt_num c "num_nodes") in *. set (me := opt_num c "node_id") in *.
  rewrite bool_decide_eq_false_2 by (cbn; lia). rewrite (node_u32_small me) by lia.
  assert (length (take (Z.to_nat n) static_servers) = Z.to_nat n) as Hlen by (rewrite length_take; cbn; lia).
  assert (∃ srv, static_servers !! Z.to_nat me = Some srv) as [srv Hsrv] by (apply lookup_lt_is_Some_2; cbn; lia).
  rewrite (aget_some _ _ srv) by (by rewrite lookup_take_lt by lia). cbn [mbind outcome_bind]. eexists. split; [done|]. cbn [cf_num_nodes cf_node_id cf_switch_id cf_servers table_size].
  rewrite Hlen, Z2Nat.id by lia. split_and!; try done; try (apply node_u32_small; lia); [rewrite length_app, Hlen; cbn; lia|].
  rewrite Hsrv. rewrite <-Hlen at 1. by apply list_lookup_middle.
Qed.

(** A node that is started with all its options, as one of at most two servers, has
    the servers and itself once more in the place of the switch; its table holds
    all keys, each at its own place and unlocked, and is full. *)
Theorem node_starts c :
  opt_count c "help" = 0%nat → Forall (λ o, opt_count c o ≠ 0%nat) needed →
  let n := opt_num c "num_nodes" in let me := opt_num c "node_id" in let size := opt_num c "table_size" in
  0 ≤ me < n → n ≤ 2 → 0 < size < 2 ^ 64 → size mod n = 0 →
  ∃ cfg r t, parse_cli c = Ok cfg ∧ cf_num_nodes cfg = n ∧ node_u32 (cf_node_id cfg) = me ∧ node_u32 (cf_switch_id cfg) = n
    ∧ Z.of_nat (length (cf_servers cfg)) = n + 1 ∧ cf_servers cfg !! Z.to_nat n = static_servers !! Z.to_nat me
    ∧ load_table cfg = Ok (r, t) ∧ by_id r (tb_id t) = Ok t ∧ by_name r "kvs" = Ok (Z.to_nat (tb_id t))
    ∧ (∀ k, 0 ≤ k < size → lockless_access t k = Ok (MkKV k 0) ∧ ∃ row, data t !! Z.to_nat k = Some row ∧ row_check row = true)
    ∧ table_insert t = Fail (Thrown TableFull).
Proof.
  intros Hh Hall n me size Hme Hn Hs Hd. destruct (parse_ok c Hh Hall Hme Hn) as (cfg & E & C1 & C2 & C3 & C4 & C5 & C6).
  destruct (load_ok cfg) as (r & t & L1 & L2 & L3 & L4 & L5 & L6); [rewrite C1; subst n me; lia|rewrite C1, C2; done|by rewrite C6|by rewrite C6, C1|].
  exists cfg, r, t. rewrite C6 in L4, L5, L6. fold size in L4, L5, L6. split_and!; try done.
  - intros k Hk. assert (data t !! Z.to_nat k = Some (fresh_row (Z.to_nat k))) as Hrow by (rewrite L6, list_lookup_fmap, lookup_seq_lt by lia; done).
    unfold lockless_access, translate. rewrite L4, (proj2 (Z.leb_gt _ _)), (aget_some _ _ _ Hrow) by lia. cbn [mbind outcome_bind]. split; [|by eexists].
    unfold fresh_row, set_tuple. cbn [tuple]. by rewrite Z2Nat.id by lia.
  - unfold table_insert. by rewrite L4, L5, Z.leb_refl.
Qed.

(** Other command lines do not start a node: one that asks for help, one without a
    needed option, one for more servers than there are; and a node number that is
    none of the servers reads outside the list of servers. *)
Theorem bad_options_stop c :
  (opt_count c "help" ≠ 0%nat → parse_cli c = Fail (Exited 0))
  ∧ (opt_count c "help" = 0%nat →
      (opt_count c "node_id" = 0%nat → parse_cli c = Fail (Exited 1))
      ∧ (Forall (λ o, opt_count c o ≠ 0%nat) needed →
           (2 < opt_num c "num_nodes" → parse_cli c = Fail (Thrown RuntimeError))
           ∧ (0 ≤ opt_num c "num_nodes" ≤ 2 → opt_num c "num_nodes" ≤ opt_num c "node_id" < 256 → parse_cli c = Fail OutOfBounds))).
Proof.
  split; [intros H; unfold parse_cli; by rewrite bool_decide_eq_true_2|]. intros Hh. unfold parse_cli. rewrite bool_decide_eq_false_2 by (rewrite Hh; auto). split.
  - intros H. assert (required c (opt_num c) "node_id" = Fail (Exited 1)) as -> by (unfold required; by rewrite bool_decide_eq_true_2). done.
  - intros Hall. assert (∀ o, o ∈ needed → opt_count c o ≠ 0%nat) as H by (by apply Forall_forall). unfold needed in H.
    rewrite !(required_some c (opt_num c)), !(required_some c (opt_str c)), !(required_some c (opt_bool c)) by (apply H; set_solver). cbn [mbind outcome_bind]. split.
    + intros Hn. by rewrite bool_decide_eq_true_2 by (cbn; lia).
    + intros Hn Hme. rewrite bool_decide_eq_false_2 by (cbn; lia). rewrite (node_u32_small (opt_num c "node_id")) by lia.
      unfold aget. rewrite lookup_take_ge by lia. done.
Qed.

(** The second of two nodes. *)
Definition demo_cli : cli :=
  MkCli (λ o, if decide (o ∈ needed) then 1%nat else 0%nat)
        (λ o, if decide (o = "node_id") then 1 else if decide (o = "num_nodes") then 2 else 100) (λ _, "f"%string) (λ _, true).
Lemma node_starts_witness : ∃ cfg r t, parse_cli demo_cli = Ok cfg ∧ load_table cfg = Ok (r, t) ∧ table_insert t = Fail (Thrown TableFull).
Proof.
  destruct (node_starts demo_cli) as (cfg & r & t & H1 & _ & _ & _ & _ & _ & H2 & _ & _ & _ & H3); [reflexivity|by apply (bool_decide_unpack _); vm_compute|done..|].
  exists cfg, r, t. split; [exact H1|]. split; [exact H2|exact H3].
Defined.
