(* ===== verification/Workloads.v ===== *)
(** * The workloads of the simulator

    [mine/fast_layout/src/batch.cpp]: the readers of the trace files
    ([get_instacart_txns], [get_ycsb_txns]), the synthetic workloads and
    [get_batch_iter], which hands one of them to the batch iterator.  Files and
    streams are those of Loader; [rand()] is a sequence of numbers, of which the
    generators use one after the other. *)
From stdpp Require Import base tactics list numbers gmap strings pretty.
From Stdlib Require Import ZArith Lia Ascii.
From S2P Require Import Prelude IntLog Loader SimLayout SimLocks Batching.

#[local] Open Scope Z_scope.

(** ** The standard library *)

(** [std::ifstream(name)]: a file that cannot be opened leaves the stream failed,
    without [eofbit]. *)
Definition ifstream (file : option (list ascii)) : istream :=
  match file with Some text => open_file text | None => MkIn [] false true end.

(** [std::stoll]. *)
Definition stoll (l : list ascii) : outcome Z :=
  let l1 := skip_spaces l in
  let '(neg, l2) := match l1 with
                    | a :: r => if decide (a = "-"%char) then (true, r) else if decide (a = "+"%char) then (false, r) else (false, l1)
                    | [] => (false, l1)
                    end in
  let ds := take_digits l2 in
  let v := if neg : bool then - decimals ds else decimals ds in
  if bool_decide (ds = []) then Fail (Thrown LogicError)
  else if bool_decide (- 2 ^ 63 ≤ v < 2 ^ 63) then Ok v
  else Fail (Thrown OutOfRangeError).

(** [raw_txns.back()], undefined on an empty vector, and
    [raw_txns.back().ops.push_back(k)]. *)
Definition back (raw_txns : list txn_t) : outcome txn_t :=
  match last raw_txns with Some ops => Ok ops | None => Fail OutOfBounds end.
Definition back_push (raw_txns : list txn_t) (k : Z) : outcome (list txn_t) :=
  ops ← back raw_txns; Ok (take (length raw_txns - 1) raw_txns ++ [ops ++ [k]]).

(** ** [get_instacart_txns] *)

(** The loop [while (!fin.eof())]. *)
Fixpoint instacart_lines (fuel : nat) (fin : istream) (buf : list ascii) (line : Z) (last_order_id : Z) (raw_txns : list txn_t)
    : outcome (list txn_t) :=
  match fuel with
  | O => Fail Spins
  | S fuel' =>
      if eofbit fin then Ok raw_txns
      else
        let '(fin', buf') := getline newline fin buf in
        let line' := u64 (line + 1) in
        if (line =? 0) || bool_decide (buf' = []) then instacart_lines fuel' fin' buf' line' last_order_id raw_txns
        else match split_at comma buf' with
             | None => Fail AssertFailed
             | Some (order_text, key_text) =>
                 order_id ← stoll order_text;
                 let raw1 := if order_id =? last_order_id then raw_txns else raw_txns ++ [[]] in
                 k ← stoull key_text;
                 raw2 ← back_push raw1 k;
                 instacart_lines fuel' fin' buf' line' order_id raw2
             end
  end.

Definition get_instacart_txns (fuel : nat) (file : option (list ascii)) : outcome (list txn_t) :=
  instacart_lines fuel (ifstream file) [] 0 (-1) [].

(** ** [get_ycsb_txns] *)

(** The loop [while (std::getline(ss, access, ','))]. *)
Fixpoint ycsb_fields (fuel : nat) (ss : istream) (access : list ascii) (raw_txns : list txn_t) : outcome (list txn_t) :=
  match fuel with
  | O => Fail Spins
  | S fuel' =>
      let '(ss', access') := getline comma ss access in
      if failbit ss' then Ok raw_txns
      else
        k ← stoull access';
        ops ← back raw_txns;
        let dupl := bool_decide (k ∈ ops) in
        raw' ← (if dupl then Ok raw_txns else back_push raw_txns k);
        ycsb_fields fuel' ss' access' raw'
  end.

Fixpoint ycsb_lines (fuel : nat) (fin : istream) (buf : list ascii) (raw_txns : list txn_t) : outcome (list txn_t) :=
  match fuel with
  | O => Fail Spins
  | S fuel' =>
      if eofbit fin then Ok raw_txns
      else
        let '(fin', buf') := getline newline fin buf in
        if bool_decide (buf' = []) then ycsb_lines fuel' fin' buf' raw_txns
        else
          raw' ← ycsb_fields (S (S (length buf'))) (open_file buf') [] (raw_txns ++ [[]]);
          ycsb_lines fuel' fin' buf' raw'
  end.

(** The name that [sprintf] writes. *)
Definition ycsb_file (key_ct zipf_const txn_size : N) : string :=
  ("../../ycsb/zipfian_k" +:+ pretty key_ct +:+ "B_z" +:+ pretty zipf_const +:+ "_n" +:+ pretty txn_size +:+ ".csv")%string.

Example ycsb_file_name : ycsb_file 1 99 16 = "../../ycsb/zipfian_k1B_z99_n16.csv"%string.
Proof. reflexivity. Qed.

Definition get_ycsb_txns (fuel : nat) (files : string → option (list ascii)) (key_ct zipf_const txn_size : N) : outcome (list txn_t) :=
  ycsb_lines fuel (ifstream (files (ycsb_file key_ct zipf_const txn_size))) [] [].

(** ** The synthetic workloads *)

Section Synthetic.
(** What [rand()] returns the [n]-th time. *)
Variable rnd : nat → Z.

(** The functions [key_gen]: the key for position [j], and how many random
    numbers have been used. *)
Definition unif_key (j n : nat) : Z * nat :=
  if rnd n mod 2 =? 0 then (rnd (S n) mod 800, S (S n)) else (rnd (S n) mod 1000000, S (S n)).
Definition hot_8_key (j n : nat) : Z * nat :=
  if bool_decide (j < 6)%nat then (rnd n mod 1000, S n) else (rnd n mod 1000000000, S n).

Section gen.
Variable key_gen : nat → nat → Z * nat.

(** The loop [while (1)]: keys are drawn until one is not in [touched]. *)
Fixpoint draw_new (fuel : nat) (i : nat) (touched : list Z) (n : nat) : outcome (Z * nat) :=
  match fuel with
  | O => Fail Spins
  | S fuel' => let '(k, n') := key_gen i n in if bool_decide (k ∈ touched) then draw_new fuel' i touched n' else Ok (k, n')
  end.

(** [gen_unique_keys<RandF, N>]: [touched] and [txn.ops] are the same keys. *)
Definition gen_key (fuel : nat) (st : txn_t * nat) (i : nat) : outcome (txn_t * nat) :=
  '(k, n') ← draw_new fuel i st.1 st.2; Ok (st.1 ++ [k], n').
Definition gen_unique_keys (fuel N : nat) (n : nat) : outcome (txn_t * nat) := ofold (gen_key fuel) (seq 0 N) ([], n).

(** The loop over the transactions. *)
Definition syn_txn (fuel : nat) (st : list txn_t * nat) (i : nat) : outcome (list txn_t * nat) :=
  '(txn, n') ← gen_unique_keys fuel 12 st.2; Ok (st.1 ++ [txn], n').
Definition syn_txns (fuel count : nat) (n : nat) : outcome (list txn_t * nat) := ofold (syn_txn fuel) (seq 0 count) ([], n).
End gen.

Definition N_SYN : nat := Z.to_nat 100000.
Definition get_syn_unif_txns (fuel : nat) : outcome (list txn_t) := '(txns, _) ← syn_txns unif_key fuel N_SYN 0; Ok txns.
Definition get_syn_hot_8_txns (fuel : nat) : outcome (list txn_t) := '(txns, _) ← syn_txns hot_8_key fuel N_SYN 0; Ok txns.

(** Six random numbers per transaction. *)
Definition adversarial_txn (i : nat) : txn_t := [0; 0] ++ ((λ j, rnd (6 * i + j)%nat mod 1000000000) <$> seq 0 6).
Definition get_syn_adversarial_txns : list txn_t := adversarial_txn <$> seq 0 N_SYN.

(** ** [get_batch_iter] *)

Inductive workload_e := INSTACART | YCSB_80_8 | YCSB_99_8 | YCSB_99_16 | SYN_UNIF | SYN_HOT_8 | SYN_ADVERSARIAL.

Definition workload_txns (fuel : nat) (files : string → option (list ascii)) (wtype : workload_e) : outcome (list txn_t) :=
  match wtype with
  | INSTACART => get_instacart_txns fuel (files "../../instacart/orders.csv")
  | YCSB_80_8 => get_ycsb_txns fuel files 1 80 8
  | YCSB_99_8 => get_ycsb_txns fuel files 1 99 8
  | YCSB_99_16 => get_ycsb_txns fuel files 1 99 16
  | SYN_UNIF => get_syn_unif_txns fuel
  | SYN_HOT_8 => get_syn_hot_8_txns fuel
  | SYN_ADVERSARIAL => Ok get_syn_adversarial_txns
  end.

Definition get_batch_iter (fuel : nat) (files : string → option (list ascii)) (wtype : workload_e) : outcome (list (txn_t * txn_t)) :=
  txns ← workload_txns fuel files wtype; batch_iter_make txns.
End Synthetic.

(** ** Reading *)

Lemma back_push_snoc raw ops k : back_push (raw ++ [ops]) k = Ok (raw ++ [ops ++ [k]]).
Proof.
  unfold back_push, back. rewrite last_snoc. cbn [mbind outcome_bind]. do 2 f_equal. rewrite length_app. cbn [length].
  rewrite Nat.add_sub. by rewrite take_app_length.
Qed.

(** The keys of a line without those that were there before. *)
Definition add_new (ops : list Z) (k : Z) : list Z := if bool_decide (k ∈ ops) then ops else ops ++ [k].
Definition distinct (ks : list Z) : list Z := foldl add_new [] ks.

Lemma distinct_spec ks : NoDup (distinct ks) ∧ ∀ k, k ∈ distinct ks ↔ k ∈ ks.
Proof.
  apply (foldl_inv (λ pre ops, NoDup ops ∧ ∀ k, k ∈ ops ↔ k ∈ pre)); [split; [constructor|done]|].
  intros pre k post ops _ [Hnd Hin]. unfold add_new. case_bool_decide as Hk; (split; [|intros x; rewrite !elem_of_app, !list_elem_of_singleton]).
  - done.
  - rewrite Hin. split; [tauto|]. intros [?| ->]; [done|by apply Hin].
  - apply NoDup_app. split_and!; [done| |by apply NoDup_singleton]. intros x Hx ->%list_elem_of_singleton. done.
  - by rewrite Hin.
Qed.

Lemma numeral_text_length ds : length (numeral_text ds) = length ds.
Proof. unfold numeral_text. by rewrite length_fmap. Qed.

Lemma line_text_cons ds ds' fields : line_text (ds :: ds' :: fields) = numeral_text ds ++ comma :: line_text (ds' :: fields).
Proof. done. Qed.

Lemma line_text_length fields : Forall numeral fields → (length fields ≤ length (line_text fields))%nat.
Proof.
  induction 1 as [|ds fields (Hne & _) Hf IH]; [done|]. assert (1 ≤ length ds)%nat by (destruct ds; [done|cbn; lia]).
  destruct fields as [|ds' fields]; [cbn [line_text]; rewrite numeral_text_length; cbn; lia|].
  rewrite line_text_cons, length_app, numeral_text_length. cbn [length] in *. lia.
Qed.

Lemma line_text_nil fields : Forall numeral fields → line_text fields = [] ↔ fields = [].
Proof. intros Hf. split; [|by intros ->]. intros E. pose proof (line_text_length fields Hf) as H. rewrite E in H. by destruct fields; [|cbn in H; lia]. Qed.

Lemma ycsb_fields_end fuel ss access raw : eofbit ss = true → (0 < fuel)%nat → ycsb_fields fuel ss access raw = Ok raw.
Proof. intros He Hf. destruct fuel as [|fuel]; [lia|]. cbn [ycsb_fields]. unfold getline. by rewrite He. Qed.

(** The step of the loop on a field. *)
Lemma ycsb_push raw ops k : (if bool_decide (k ∈ ops) then Ok (raw ++ [ops]) else back_push (raw ++ [ops]) k) = Ok (raw ++ [add_new ops k]).
Proof. unfold add_new. destruct (bool_decide _); [done|]. apply back_push_snoc. Qed.

Lemma ycsb_fields_spec fields raw : fields ≠ [] → Forall numeral fields →
  ∀ fuel access ops, (length fields < fuel)%nat →
  ycsb_fields fuel (open_file (line_text fields)) access (raw ++ [ops]) = Ok (raw ++ [foldl add_new ops (decimals <$> fields)]).
Proof.
  intros Hne. induction 1 as [|ds fields Hds Hf IH]; [done|]. intros fuel access ops Hfuel. destruct fuel as [|fuel]; [lia|]. cbn [length] in Hfuel. cbn [ycsb_fields].
  assert (comma ∉ numeral_text ds) as Hc by (apply numeral_text_free; [apply Hds|done]).
  destruct fields as [|ds' fields].
  - cbn [line_text]. rewrite getline_last by done. cbn [failbit]. rewrite bool_decide_false.
    2:{ intros E. apply (f_equal length) in E. rewrite numeral_text_length in E. destruct Hds as (Hne' & _). by destruct ds. }
    rewrite stoull_numeral by done. cbn [mbind outcome_bind]. unfold back. rewrite last_snoc. cbn [mbind outcome_bind]. rewrite ycsb_push. cbn [mbind outcome_bind].
    rewrite ycsb_fields_end; [done|done|lia].
  - rewrite line_text_cons, getline_found by done. cbn [open_file failbit]. rewrite stoull_numeral by done. cbn [mbind outcome_bind].
    unfold back. rewrite last_snoc. cbn [mbind outcome_bind]. rewrite ycsb_push. cbn [mbind outcome_bind]. rewrite fmap_cons. cbn [foldl]. apply IH; [done|lia].
Qed.

(** The lines of a file: the last one need not end in a newline. *)
Definition lines_text (lines : list (list (list Z))) (final : list (list Z)) : list ascii := trace_text lines ++ line_text final.
Definition line_keys (fields : list (list Z)) : list txn_t := if decide (fields = []) then [] else [distinct (decimals <$> fields)].

Lemma trace_text_cons fields lines : trace_text (fields :: lines) = line_text fields ++ newline :: trace_text lines.
Proof. unfold trace_text. cbn [fmap list_fmap concat]. by rewrite <-app_assoc. Qed.

Lemma ycsb_line fields fin raw fuel (Hf : Forall numeral fields) :
  (if bool_decide (line_text fields = []) then ycsb_lines fuel fin (line_text fields) raw
   else raw' ← ycsb_fields (S (S (length (line_text fields)))) (open_file (line_text fields)) [] (raw ++ [[]]); ycsb_lines fuel fin (line_text fields) raw')
  = ycsb_lines fuel fin (line_text fields) (raw ++ line_keys fields).
Proof.
  unfold line_keys. case_bool_decide as E; rewrite line_text_nil in E by done.
  - rewrite decide_True by done. by rewrite app_nil_r.
  - rewrite decide_False by done. rewrite ycsb_fields_spec; [done|done|done|]. pose proof (line_text_length fields Hf). lia.
Qed.

Lemma ycsb_lines_spec lines final : Forall (Forall numeral) lines → Forall numeral final →
  ∀ fuel buf raw, (length lines + 1 < fuel)%nat →
  ycsb_lines fuel (open_file (lines_text lines final)) buf raw = Ok (raw ++ concat (line_keys <$> lines ++ [final])).
Proof.
  intros Hl Hfin. induction Hl as [|fields lines Hf _ IH]; intros fuel buf raw Hfuel; (destruct fuel as [|fuel]; [lia|]); cbn [ycsb_lines open_file eofbit].
  - assert (newline ∉ line_text final) as Hn by (by apply line_text_free). cbn [lines_text trace_text fmap list_fmap concat app].
    fold (open_file (line_text final)). rewrite getline_last by done. rewrite ycsb_line by done. cbn in Hfuel. destruct fuel as [|fuel]; [lia|]. cbn [ycsb_lines eofbit].
    by rewrite app_nil_r.
  - unfold lines_text. rewrite trace_text_cons, <-app_assoc. cbn [app]. fold (lines_text lines final). fold (open_file (line_text fields ++ newline :: lines_text lines final)).
    rewrite getline_found by (by apply line_text_free). rewrite ycsb_line by done. cbn [length] in Hfuel. rewrite IH by lia.
    cbn [app fmap list_fmap concat]. by rewrite <-app_assoc.
Qed.

(** *** Orders *)

Lemma stoll_numeral ds : numeral ds → decimals ds < 2 ^ 63 → stoll (numeral_text ds) = Ok (decimals ds).
Proof.
  intros (Hne & Hds & _) Hlt. unfold stoll. destruct ds as [|d ds]; [done|]. pose proof (Forall_inv Hds) as Hd.
  assert (0 ≤ decimals (d :: ds)) as H0.
  { unfold decimals. apply (foldl_inv (λ _ v, 0 ≤ v)); [done|]. intros pre x post v Hcut Hv. assert (x ∈ d :: ds) as Hx by (rewrite Hcut; set_solver).
    rewrite Forall_forall in Hds. specialize (Hds x Hx). lia. }
  assert (skip_spaces (numeral_text (d :: ds)) = numeral_text (d :: ds)) as ->.
  { cbn [numeral_text fmap list_fmap skip_spaces]. by rewrite (proj2 (digit_char_is d Hd)). }
  cbn [numeral_text fmap list_fmap]. rewrite !decide_False by (by apply digit_char_ne). change (digit_char d :: (digit_char <$> ds)) with (numeral_text (d :: ds)).
  rewrite take_digits_text by done. rewrite bool_decide_false by done. rewrite bool_decide_true by lia. done.
Qed.

(** Lines of an order and a key, and the orders that a list of transactions
    makes of them: adjacent ones differ and none is empty. *)
Definition order_line (l : list Z * list Z) : list (list Z) := [l.1; l.2].
Definition order_numbers (l : list Z * list Z) : Z * Z := (decimals l.1, decimals l.2).
Definition good_order (l : list Z * list Z) : Prop := numeral l.1 ∧ decimals l.1 < 2 ^ 63 ∧ numeral l.2.

Definition orders_of (groups : list (Z * list Z)) : list (Z * Z) := concat ((λ g : Z * list Z, (λ k, (g.1, k)) <$> g.2) <$> groups).
Record grouped (groups : list (Z * list Z)) : Prop := {
  gr_ne : Forall (λ g, g.2 ≠ []) groups;
  gr_adj : ∀ i g g', groups !! i = Some g → groups !! S i = Some g' → g.1 ≠ g'.1;
}.

Definition add_order (groups : list (Z * list Z)) (l : Z * Z) : list (Z * list Z) :=
  match last groups with
  | Some g => if l.1 =? g.1 then take (length groups - 1) groups ++ [(g.1, g.2 ++ [l.2])] else groups ++ [(l.1, [l.2])]
  | None => [(l.1, [l.2])]
  end.

Lemma orders_of_snoc groups o ks : orders_of (groups ++ [(o, ks)]) = orders_of groups ++ ((λ k, (o, k)) <$> ks).
Proof. unfold orders_of. rewrite fmap_app, concat_app. cbn. by rewrite app_nil_r. Qed.

Lemma grouped_snoc groups g : grouped groups → g.2 ≠ [] → (∀ g', last groups = Some g' → g'.1 ≠ g.1) → grouped (groups ++ [g]).
Proof.
  intros [Hne Hadj] Hg Hl. split; [by apply Forall_app; split; [|constructor]|].
  intros i a b Ha Hb. pose proof (lookup_lt_Some _ _ _ Hb) as Hlt. rewrite length_app in Hlt. cbn in Hlt.
  rewrite lookup_app_l in Ha by lia. destruct (decide (S i < length groups)%nat) as [?|?].
  - rewrite lookup_app_l in Hb by lia. by eapply Hadj.
  - assert (S i = length groups) as Hi by lia. rewrite Hi, list_lookup_middle in Hb by done. injection Hb as <-. apply Hl. rewrite last_lookup, <-Hi. done.
Qed.

Lemma grouped_prefix groups g : grouped (groups ++ [g]) → grouped groups ∧ ∀ g', last groups = Some g' → g'.1 ≠ g.1.
Proof.
  intros [Hne Hadj]. apply Forall_app in Hne as [Hne _]. split.
  - split; [done|]. intros i a b Ha Hb. apply (Hadj i); by apply lookup_app_l_Some.
  - intros g' Hl. rewrite last_lookup in Hl. apply (Hadj (pred (length groups))); [by apply lookup_app_l_Some|].
    pose proof (lookup_lt_Some _ _ _ Hl). replace (S (pred (length groups))) with (length groups) by lia. by apply list_lookup_middle.
Qed.

Lemma add_order_grouped groups l : grouped groups → grouped (add_order groups l) ∧ orders_of (add_order groups l) = orders_of groups ++ [l].
Proof.
  intros Hg. destruct l as [o k]. unfold add_order. destruct (last groups) as [[o' ks]|] eqn:El; cbn [fst snd].
  - destruct (Z.eqb_spec o o') as [->|Hne].
    + pose proof (take_pop groups _ El) as Hcut. set (g0 := take (length groups - 1) groups) in *. clearbody g0. subst groups.
      apply grouped_prefix in Hg as [Hg Hl]. split.
      * apply grouped_snoc; [done|by destruct ks|done].
      * by rewrite !orders_of_snoc, fmap_app, app_assoc.
    + split; [|by rewrite orders_of_snoc]. apply grouped_snoc; [done|done|]. rewrite El. intros g' [= <-]. cbn. done.
  - apply last_None in El as ->. split; [|done]. split; [by repeat constructor|]. intros [|i] a b; [done|]. cbn. done.
Qed.

Definition last_order (groups : list (Z * list Z)) : Z := default (-1) (fst <$> last groups).

Lemma instacart_push (groups : list (Z * list Z)) o k : 0 ≤ o →
  (let raw : list txn_t := groups.*2 in back_push (if o =? last_order groups then raw else raw ++ [[]]) k) = Ok (add_order groups (o, k)).*2
  ∧ last_order (add_order groups (o, k)) = o.
Proof.
  intros Ho. cbv zeta. destruct (last groups) as [[o' ks]|] eqn:El.
  - assert (last_order groups = o') as -> by (unfold last_order; by rewrite El).
    assert (add_order groups (o, k) = if o =? o' then take (length groups - 1) groups ++ [(o', ks ++ [k])] else groups ++ [(o, [k])]) as ->
      by (unfold add_order; by rewrite El).
    destruct (Z.eqb_spec o o') as [->|Hne].
    + pose proof (take_pop groups _ El) as Hcut. set (g0 := take (length groups - 1) groups) in *. clearbody g0. subst groups.
      rewrite !fmap_app. split; [exact (back_push_snoc _ _ _)|]. unfold last_order. by rewrite last_snoc.
    + rewrite fmap_app. split; [exact (back_push_snoc _ _ _)|]. unfold last_order. by rewrite last_snoc.
  - apply last_None in El as ->. cbn. destruct (Z.eqb_spec o (-1)) as [->|]; [lia|]. done.
Qed.

Lemma instacart_lines_end fuel fin buf line ord raw : eofbit fin = true → (0 < fuel)%nat → instacart_lines fuel fin buf line ord raw = Ok raw.
Proof. intros He Hf. destruct fuel; [lia|]. cbn [instacart_lines]. by rewrite He. Qed.

Lemma decimals_nonneg ds : Forall (λ d, 0 ≤ d ≤ 9) ds → 0 ≤ decimals ds.
Proof.
  intros Hds. unfold decimals. apply (foldl_inv (λ _ v, 0 ≤ v)); [done|]. intros pre x post v Hcut Hv. rewrite Hcut, Forall_app, Forall_cons in Hds.
  destruct Hds as (_ & ? & _). lia.
Qed.

Lemma instacart_lines_spec lines : Forall good_order lines →
  ∀ fuel buf line groups, (length lines + 1 < fuel)%nat → 1 ≤ line → line + Z.of_nat (length lines) < 2 ^ 64 →
  instacart_lines fuel (open_file (trace_text (order_line <$> lines))) buf line (last_order groups) groups.*2
  = Ok (foldl add_order groups (order_numbers <$> lines)).*2.
Proof.
  induction 1 as [|l lines (Ho & Hlt & Hk) _ IH]; intros fuel buf line groups Hfuel Hline Hmax; (destruct fuel as [|fuel]; [lia|]); cbn [instacart_lines open_file eofbit].
  - cbn [fmap list_fmap trace_text concat]. fold (open_file []). rewrite getline_last by apply not_elem_of_nil. rewrite bool_decide_true, orb_true_r by done.
    cbn in Hfuel. by rewrite instacart_lines_end by (done || lia).
  - rewrite !fmap_cons, trace_text_cons. fold (open_file (line_text (order_line l) ++ newline :: trace_text (order_line <$> lines))).
    assert (Forall numeral (order_line l)) as Hnum by (unfold order_line; rewrite !Forall_cons; by split_and!).
    rewrite getline_found by (by apply line_text_free). cbn [length] in Hfuel, Hmax.
    rewrite (proj2 (Z.eqb_neq line 0)) by lia. rewrite bool_decide_false by (by rewrite line_text_nil). cbn [orb].
    unfold order_line at 1. rewrite line_text_cons. cbn [line_text]. rewrite split_at_found by (apply numeral_text_free; [apply Ho|done]).
    rewrite stoll_numeral, stoull_numeral by done. cbn [mbind outcome_bind].
    destruct (instacart_push groups (decimals l.1) (decimals l.2)) as [Hpush Hlast]; [by apply decimals_nonneg, Ho|]. cbv zeta in Hpush. rewrite Hpush. cbn [mbind outcome_bind foldl].
    assert (u64 (line + 1) = line + 1) as -> by (apply wrap_small; lia). fold (order_numbers l) in Hlast |- *.
    set (groups' := add_order groups (order_numbers l)) in *. rewrite <-Hlast. apply IH; lia.
Qed.

(** The whole file: a header line and the orders. *)
Lemma instacart_reads header lines fuel : newline ∉ header → Forall good_order lines → Z.of_nat (length lines) < 2 ^ 64 - 1 → (length lines + 2 < fuel)%nat →
  ∃ groups, get_instacart_txns fuel (Some (header ++ newline :: trace_text (order_line <$> lines))) = Ok groups.*2
    ∧ grouped groups ∧ orders_of groups = order_numbers <$> lines.
Proof.
  intros Hh Hl Hmax Hfuel. exists (foldl add_order [] (order_numbers <$> lines)). split.
  - unfold get_instacart_txns. destruct fuel as [|fuel]; [lia|]. cbn [instacart_lines ifstream open_file eofbit].
    fold (open_file (header ++ newline :: trace_text (order_line <$> lines))). rewrite getline_found by done. cbn [Z.eqb orb].
    change (u64 (0 + 1)) with 1. apply (instacart_lines_spec lines Hl fuel header 1 []); lia.
  - apply (foldl_inv (λ pre groups, grouped groups ∧ orders_of groups = pre)); [split; [split|]; done|].
    intros pre x post groups _ [Hg <-]. by apply add_order_grouped.
Qed.

(** *** A missing file *)

Lemma missing_spins fuel buf : instacart_lines fuel (ifstream None) [] buf (-1) [] = Fail Spins ∧ ycsb_lines fuel (ifstream None) [] [] = Fail Spins.
Proof.
  revert buf. induction fuel as [|fuel IH]; intros buf; [done|]. cbn [instacart_lines ycsb_lines ifstream eofbit].
  unfold getline. cbn [eofbit failbit orb in_rest]. rewrite bool_decide_true, orb_true_r by done. split; [apply (IH (u64 (buf + 1)))|apply (IH 0)].
Qed.

(** ** The generators *)

Section unique.
Context (key_gen : nat → nat → Z * nat) (fuel : nat).

(** The random numbers used after [d] more calls, and: among any [fuel] calls
    one gives a key that is not among the [i] keys touched. *)
Definition after (i d n : nat) : nat := Nat.iter d (λ n, (key_gen i n).2) n.
Definition fair (N : nat) : Prop :=
  ∀ i n touched, (i < N)%nat → length touched = i → ∃ d, (d < fuel)%nat ∧ (key_gen i (after i d n)).1 ∉ touched.

Lemma draw_new_spec f i touched n d : (d < f)%nat → (key_gen i (after i d n)).1 ∉ touched →
  ∃ k n' m, draw_new key_gen f i touched n = Ok (k, n') ∧ k ∉ touched ∧ k = (key_gen i m).1.
Proof.
  revert n d. induction f as [|f IH]; intros n d Hd Hk; [lia|]. cbn [draw_new]. destruct (key_gen i n) as [k n'] eqn:E. case_bool_decide as Hin.
  - destruct d as [|d]; [unfold after in Hk; cbn in Hk; by rewrite E in Hk|]. apply (IH n' d); [lia|].
    unfold after in *. rewrite Nat.iter_succ_r, E in Hk. done.
  - exists k, n', n. by rewrite E.
Qed.

Lemma gen_unique_keys_spec N n : fair N →
  ∃ txn n', gen_unique_keys key_gen fuel N n = Ok (txn, n') ∧ NoDup txn ∧ length txn = N
    ∧ ∀ i k, txn !! i = Some k → ∃ m, k = (key_gen i m).1.
Proof.
  intros Hfair. unfold gen_unique_keys.
  destruct (ofold_total (λ pre (st : txn_t * nat), NoDup st.1 ∧ length st.1 = length pre ∧ ∀ i k, st.1 !! i = Some k → ∃ m, k = (key_gen i m).1)
    (gen_key key_gen fuel) (seq 0 N) ([], n)) as ([txn n'] & -> & Hnd & Hlen & Hk).
  - split_and!; [constructor|done|done].
  - intros pre i post [txn n0] Hcut (Hnd & Hlen & Hk). cbn [fst] in *. destruct (seq_cut 0 N pre i post Hcut) as (_ & Hi & Hpre).
    assert (length txn = i) as Hl by lia. unfold gen_key. cbn [fst snd].
    destruct (Hfair i n0 txn) as (d & Hd & Hnew); [lia|done|]. destruct (draw_new_spec fuel i txn n0 d Hd Hnew) as (k & n' & m & -> & Hin & Hm).
    cbn [mbind outcome_bind]. exists (txn ++ [k], n'). split; [done|]. cbn [fst]. split_and!.
    + apply NoDup_app. split_and!; [done| |apply NoDup_singleton]. by intros x Hx ->%list_elem_of_singleton.
    + rewrite !length_app. cbn. lia.
    + intros j x [Hj|[Hj Hx]]%lookup_app_Some; [by eapply Hk|]. apply list_lookup_singleton_Some in Hx as [Hx <-]. exists m. by replace j with i by lia.
  - rewrite length_seq in Hlen. by exists txn, n'.
Qed.

Lemma syn_txns_spec count n : fair 12 →
  ∃ txns n', syn_txns key_gen fuel count n = Ok (txns, n') ∧ length txns = count
    ∧ Forall (λ txn, NoDup txn ∧ length txn = 12%nat ∧ ∀ i k, txn !! i = Some k → ∃ m, k = (key_gen i m).1) txns.
Proof.
  intros Hfair. unfold syn_txns.
  destruct (ofold_total (λ (pre : list nat) (st : list txn_t * nat), length st.1 = length pre ∧
      Forall (λ txn, NoDup txn ∧ length txn = 12%nat ∧ ∀ i k, txn !! i = Some k → ∃ m, k = (key_gen i m).1) st.1)
    (syn_txn key_gen fuel) (seq 0 count) ([], n)) as ([txns n'] & -> & Hlen & Hall).
  - split; [done|constructor].
  - intros pre i post [txns n0] _ [Hlen Hall]. destruct (gen_unique_keys_spec 12 n0 Hfair) as (txn & n' & H & Htxn). unfold syn_txn. cbn [fst snd]. rewrite H. cbn [mbind outcome_bind].
    exists (txns ++ [txn], n'). split; [done|]. cbn [fst] in *. split; [rewrite !length_app; cbn; lia|]. apply Forall_app. split; [done|]. by constructor.
  - rewrite length_seq in Hlen. by exists txns, n'.
Qed.
End unique.

(** Whenever they return, the keys of a transaction are different. *)
Lemma draw_new_fresh key_gen fuel i touched : ∀ n k n', draw_new key_gen fuel i touched n = Ok (k, n') → k ∉ touched.
Proof.
  induction fuel as [|fuel IH]; intros n k n' H; cbn [draw_new] in H; [done|]. destruct (key_gen i n) as [k0 n0]. case_bool_decide; [by eapply IH|]. by injection H as <- <-.
Qed.

Lemma snoc_NoDup {A} (l : list A) x : NoDup l → x ∉ l → NoDup (l ++ [x]).
Proof. intros Hnd Hx. apply NoDup_app. split_and!; [done| |apply NoDup_singleton]. by intros y Hy ->%list_elem_of_singleton. Qed.

Lemma gen_unique_keys_NoDup key_gen fuel N n txn n' : gen_unique_keys key_gen fuel N n = Ok (txn, n') → NoDup txn.
Proof.
  intros H. change txn with ((txn, n').1). revert H. apply (ofold_inv (λ _ st, NoDup st.1)); [constructor|]. intros pre i post [t m] st2 _ Hnd H.
  unfold gen_key in H. minv. destruct r as [k m']. minv. apply snoc_NoDup; [done|]. by eapply draw_new_fresh.
Qed.

Lemma syn_txns_NoDup key_gen fuel count n txns n' : syn_txns key_gen fuel count n = Ok (txns, n') → Forall NoDup txns.
Proof.
  intros H. change txns with ((txns, n').1). revert H. apply (ofold_inv (λ _ st, Forall NoDup st.1)); [constructor|]. intros pre i post [t m] st2 _ Hnd H.
  unfold syn_txn in H. minv. destruct r as [txn m']. minv. apply Forall_app. split; [done|]. constructor; [|constructor]. by eapply gen_unique_keys_NoDup.
Qed.

(** The keys of the synthetic workloads. *)
Lemma unif_key_range rnd j n : 0 ≤ (unif_key rnd j n).1 < 1000000.
Proof. unfold unif_key. destruct (_ =? _); cbn [fst]; [pose proof (Z.mod_pos_bound (rnd (S n)) 800)|pose proof (Z.mod_pos_bound (rnd (S n)) 1000000)]; lia. Qed.
Lemma hot_8_key_range rnd j n : 0 ≤ (hot_8_key rnd j n).1 < (if bool_decide (j < 6)%nat then 1000 else 1000000000).
Proof. unfold hot_8_key. case_bool_decide; cbn [fst]; apply Z.mod_pos_bound; lia. Qed.

(** ** What the programs do with a workload *)

(** [while ((batch = iter.next_batch()).size() > 0)]: all batches, one after the
    other. *)
Fixpoint all_batches (fuel : nat) (comps : list (txn_t * txn_t)) (all_txns : list txn_t) : outcome (list txn_t) :=
  match fuel with
  | O => Fail Spins
  | S fuel' =>
      let '(batch, comps') := next_batch comps in
      if bool_decide (length batch = 0%nat) then Ok all_txns else all_batches fuel' comps' (all_txns ++ batch)
  end.

(** The first batch has everything; the second is empty. *)
Lemma all_batches_first comps : all_batches 2 comps [] = Ok (next_batch comps).1.
Proof.
  unfold next_batch. cbn [all_batches next_batch fst fmap list_fmap filter list_filter length].
  case_bool_decide as E; [|by rewrite bool_decide_true]. by rewrite (nil_length_inv _ E).
Qed.

(** A transaction the simulator sends to the switch: a few keys, none twice. *)
Definition small_txn (wl : list txn_t) (txn : txn_t) : Prop := txn_ok wl txn ∧ (0 < length txn < N_MAX_HOT_OPS)%nat.

Lemma next_batch_ok txns comps : Forall NoDup txns → batch_iter_make txns = Ok comps → Forall (small_txn (next_batch comps).1) (next_batch comps).1.
Proof.
  intros Hnd Hmk. apply Forall_forall. intros txn Htxn. pose proof Htxn as Hin. cbn [next_batch fst] in Htxn. apply list_elem_of_filter in Htxn as [Hlen Htxn].
  split; [|done]. split_and!.
  - unfold batch_iter_make in Hmk. destruct (last _) in Hmk; [|done]. injection Hmk as <-. rewrite <-list_fmap_compose in Htxn.
    apply list_elem_of_fmap in Htxn as (raw & -> & Hraw). rewrite Forall_forall in Hnd. unfold compose. rewrite split_txn_filter. cbn [fst]. by apply NoDup_filter, Hnd.
  - unfold N_MAX_HOT_OPS in *. lia.
  - intros k Hk. apply list_elem_of_In, in_concat. exists txn. by rewrite <-!list_elem_of_In.
Qed.

Lemma line_keys_NoDup lines : Forall NoDup (concat (line_keys <$> lines)).
Proof.
  apply Forall_concat, Forall_fmap, Forall_true. intros fields. unfold compose, line_keys. case_decide; constructor; [|constructor]. apply distinct_spec.
Qed.

(** The same for the readers of YCSB files, whatever the file is. *)
Lemma ycsb_fields_NoDup fuel : ∀ ss access raw raw', ycsb_fields fuel ss access raw = Ok raw' → Forall NoDup raw → Forall NoDup raw'.
Proof.
  induction fuel as [|fuel IH]; intros ss access raw raw' H Hraw; cbn [ycsb_fields] in H; [done|]. destruct (getline comma ss access) as [ss' access'].
  destruct (failbit ss'); [by injection H as <-|]. minv. eapply IH; [exact H|]. unfold back in E0. destruct (last raw) as [ops|] eqn:El; [|done]. injection E0 as <-.
  case_bool_decide as Hk; [by injection E1 as <-|]. pose proof (take_pop raw ops El) as Hcut. set (r0 := take (length raw - 1) raw) in *. clearbody r0. subst raw.
  rewrite back_push_snoc in E1. injection E1 as <-. apply Forall_app in Hraw as [H0 H1]. apply Forall_app. split; [done|]. constructor; [|constructor].
  apply Forall_inv in H1. by apply snoc_NoDup.
Qed.

Lemma ycsb_lines_NoDup fuel : ∀ fin buf raw raw', ycsb_lines fuel fin buf raw = Ok raw' → Forall NoDup raw → Forall NoDup raw'.
Proof.
  induction fuel as [|fuel IH]; intros fin buf raw raw' H Hraw; cbn [ycsb_lines] in H; [done|]. destruct (eofbit fin); [by injection H as <-|].
  destruct (getline newline fin buf) as [fin' buf']. case_bool_decide; [by eapply IH|]. minv. eapply IH; [exact H|]. eapply ycsb_fields_NoDup; [exact E|].
  apply Forall_app. split; [done|]. constructor; [constructor|done].
Qed.

Lemma workload_distinct rnd fuel files w txns : workload_txns rnd fuel files w = Ok txns → w ≠ INSTACART → w ≠ SYN_ADVERSARIAL → Forall NoDup txns.
Proof.
  intros H H1 H2. destruct w; try done; cbn [workload_txns] in H; try (eapply ycsb_lines_NoDup; [exact H|constructor]).
  - unfold get_syn_unif_txns in H. minv. destruct r. minv. by eapply syn_txns_NoDup.
  - unfold get_syn_hot_8_txns in H. minv. destruct r. minv. by eapply syn_txns_NoDup.
Qed.

(** C32: the readers of the simulator return, for a file of numbers separated by
    commas, what the file says.  Each line of a YCSB file that is not empty, the
    last one also without a newline, is a transaction of its different keys, in the
    order of their first occurrence; consecutive lines of an Instacart file
    with the same order number, and only those, are one transaction, of their
    products.  For a file that is missing both loop for ever. *)
Theorem trace_readers_correct :
  (∀ files kc z n lines final fuel,
     files (ycsb_file kc z n) = Some (lines_text lines final) → Forall (Forall numeral) lines → Forall numeral final → (length lines + 1 < fuel)%nat →
     get_ycsb_txns fuel files kc z n = Ok (concat (line_keys <$> lines ++ [final]))
     ∧ Forall NoDup (concat (line_keys <$> lines ++ [final])))
  ∧ (∀ header lines fuel,
     newline ∉ header → Forall good_order lines → Z.of_nat (length lines) < 2 ^ 64 - 1 → (length lines + 2 < fuel)%nat →
     ∃ groups, get_instacart_txns fuel (Some (header ++ newline :: trace_text (order_line <$> lines))) = Ok groups.*2
       ∧ grouped groups ∧ orders_of groups = order_numbers <$> lines)
  ∧ (∀ fuel, get_instacart_txns fuel None = Fail Spins
     ∧ ∀ files kc z n, files (ycsb_file kc z n) = None → get_ycsb_txns fuel files kc z n = Fail Spins).
Proof.
  split_and!.
  - intros files kc z n lines final fuel Hf Hl Hfin Hfuel. split; [|apply line_keys_NoDup]. unfold get_ycsb_txns. rewrite Hf. by apply ycsb_lines_spec.
  - intros header lines fuel Hh Hl Hmax Hfuel. by apply instacart_reads.
  - intros fuel. split; [apply missing_spins|]. intros files kc z n Hf. unfold get_ycsb_txns. rewrite Hf. apply (missing_spins fuel 0).
Qed.

(** Two lines [7,12,7] and [5], the second without a newline. *)
Lemma trace_readers_correct_witness :
  get_ycsb_txns 9 (λ _, Some (lines_text [[[7]; [1; 2]; [7]]] [[5]])) 1 99 8 = Ok [[7; 12]; [5]].
Proof.
  apply (proj1 trace_readers_correct (λ _, Some (lines_text [[[7]; [1; 2]; [7]]] [[5]])) 1%N 99%N 8%N [[[7]; [1; 2]; [7]]] [[5]] 9%nat).
  - reflexivity.
  - repeat constructor; vm_compute; congruence.
  - repeat constructor; vm_compute; congruence.
  - cbn. lia.
Defined.
