(* ===== verification/ProdTrace.v ===== *)
(** * The packet trace

    [mine/fast_layout/prod_trace.cpp]: the program that prepares a YCSB workload
    for the switch and writes one packet per transaction to a file.  Packets are
    structs in the memory of a little-endian host; the trace is their bytes. *)
From stdpp Require Import base tactics list numbers gmap strings.
From Stdlib Require Import ZArith Lia Ascii.
From S2P Require Import Prelude IntLog Loader SwitchPkt SimLayout SimLocks Batching Workloads.

#[local] Open Scope Z_scope.

(** ** The packet *)

Definition STOP : Z := 128.

(** [reg_instr_t] and [packet_t]; the fields with more than a byte are in network
    order. *)
Record reg_instr_t := MkRI { ri_type : Z; ri_op : Z; ri_idx : Z; ri_data : Z }.
Record packet_t := MkPkt {
  pk_locks_check : Z;
  pk_locks_acquire : Z;
  pk_locks_undo : Z;
  pk_second_pass : Z;
  pk_n_failed : Z;
  reg_instrs : list reg_instr_t;
}.

Definition zero_instr : reg_instr_t := MkRI 0 0 0 0.
Definition stop_instr : reg_instr_t := MkRI STOP 0 0 0.
Definition N_REG_INSTRS : nat := 1 + N_MAX_HOT_OPS.

(** The body of the innermost loop: cell [c] of the grid, [reg_instr_p] is the
    second component of the state. *)
Definition put_cell (txn_id : Z) (grid : list (option Z)) (st : list reg_instr_t * nat) (c : nat) : outcome (list reg_instr_t * nat) :=
  o ← aget grid c;
  match o with
  | None => Ok st
  | Some idx =>
      instr ← aget st.1 st.2;
      l ← aset st.1 st.2 (MkRI (u8 (Z.lor (Z.land (ri_type instr) STOP) (Z.of_nat c + 1))) 1 (htons (u16 idx)) (htonl (u32 txn_id)));
      Ok (l, S st.2)
  end.

(** One pass, and the mark after it. *)
Definition put_pass (txn_id : Z) (st : list reg_instr_t * nat) (grid : list (option Z)) : outcome (list reg_instr_t * nat) :=
  '(l, p) ← ofold (put_cell txn_id grid) (seq 0 N_CELLS) st;
  instr ← aget l p;
  l' ← aset l p (MkRI STOP (ri_op instr) (ri_idx instr) (ri_data instr));
  Ok (l', p).

Definition txn_to_sw_fmt (txn : sw_txn_t) (txn_id : Z) : outcome packet_t :=
  '(l, _) ← ofold (put_pass txn_id) (passes txn) (replicate N_REG_INSTRS zero_instr, 0%nat);
  Ok (MkPkt (htonl (u32 (locks_check txn))) (htonl (u32 (locks_wanted txn))) 0 0 0 l).

(** The memory of an unsigned integer of [n] bytes, and of a packet. *)
Definition memory (n : nat) (z : Z) : list Z := (λ i, z / 2 ^ (8 * Z.of_nat i) mod 2 ^ 8) <$> seq 0 n.
Definition instr_image (i : reg_instr_t) : list Z := memory 1 (ri_type i) ++ memory 1 (ri_op i) ++ memory 2 (ri_idx i) ++ memory 4 (ri_data i).
Definition packet_image (p : packet_t) : list Z :=
  memory 4 (pk_locks_check p) ++ memory 4 (pk_locks_acquire p) ++ memory 4 (pk_locks_undo p)
  ++ memory 1 (pk_second_pass p) ++ memory 1 (pk_n_failed p) ++ concat (instr_image <$> reg_instrs p).

(** ** [main] *)

(** The loop over the transactions, which appends to the file. *)
Definition write_txn (f : list Z) (x : nat * sw_txn_t) : outcome (list Z) :=
  pkt ← txn_to_sw_fmt x.2 (Z.of_nat x.1); Ok (f ++ packet_image pkt).
Definition write_trace (sw_txns : list sw_txn_t) : outcome (list Z) := ofold write_txn (zip (seq 0 (length sw_txns)) sw_txns) [].

Definition prod_trace_main (rnd : nat → Z) (fuel : nat) (files : string → option (list ascii)) : outcome (list Z) :=
  iter ← get_batch_iter rnd fuel files YCSB_99_16;
  all_txns ← all_batches 2 iter [];
  sw_txns ← prepare_txns_sw 0 all_txns (layout_make all_txns);
  write_trace sw_txns.

(** ** What the switch reads *)

Definition be_value (l : list Z) : Z := foldl (λ v b, v * 2 ^ 8 + b) 0 l.
Definition field (off n : nat) (bytes : list Z) : Z := be_value (take n (drop off bytes)).

Definition INSTR_BYTES : nat := 8.
Definition PACKET_BYTES : nat := 14 + INSTR_BYTES * N_REG_INSTRS.

(** The instructions of a packet up to the mark that stands alone; a mark on an
    instruction begins the next pass.  An access is a register array, an index and
    the value to write. *)
Fixpoint read_passes (n : nat) (bytes : list Z) (cur : list (nat * Z * Z)) : option (list (list (nat * Z * Z))) :=
  match n with
  | O => None
  | S n' =>
      let type := field 0 1 bytes in
      let reg := Z.land type 127 in
      let access := (Z.to_nat (reg - 1), field 2 2 bytes, field 4 4 bytes) in
      if reg =? 0 then if Z.testbit type 7 then Some [cur] else None
      else if Z.testbit type 7 then ps ← read_passes n' (drop INSTR_BYTES bytes) [access]; Some (cur :: ps)
      else read_passes n' (drop INSTR_BYTES bytes) (cur ++ [access])
  end.

Definition read_packet (bytes : list Z) : option (Z * Z * list (list (nat * Z * Z))) :=
  ps ← read_passes N_REG_INSTRS (drop 14 bytes) []; Some (field 0 4 bytes, field 4 4 bytes, ps).

Fixpoint read_trace_file (n : nat) (bytes : list Z) : option (list (Z * Z * list (list (nat * Z * Z)))) :=
  match n with
  | O => if bool_decide (bytes = []) then Some [] else None
  | S n' => p ← read_packet (take PACKET_BYTES bytes); ps ← read_trace_file n' (drop PACKET_BYTES bytes); Some (p :: ps)
  end.

(** ** Fields *)

Lemma memory_1 z : 0 ≤ z < 2 ^ 8 → memory 1 z = [z].
Proof. intros Hz. unfold memory. cbn [fmap list_fmap seq]. f_equal. change (8 * Z.of_nat 0) with 0. rewrite Z.pow_0_r, Z.div_1_r. by apply Z.mod_small. Qed.

Lemma memory_2 z : 0 ≤ z < 2 ^ 16 → memory 2 (htons z) = [z / 2 ^ 8; z mod 2 ^ 8].
Proof.
  intros Hz. unfold memory. cbn [fmap list_fmap seq]. change (8 * Z.of_nat 0) with 0. change (8 * Z.of_nat 1) with 8. rewrite Z.pow_0_r, Z.div_1_r. unfold htons.
  f_equal; [|f_equal]; Z.to_euclidean_division_equations; lia.
Qed.

Lemma memory_4 z : 0 ≤ z < 2 ^ 32 → be_value (memory 4 (htonl z)) = z.
Proof.
  intros Hz. set (lo := z mod 2 ^ 16). set (hi := z / 2 ^ 16).
  assert (0 ≤ lo < 2 ^ 16 ∧ 0 ≤ hi < 2 ^ 16 ∧ z = hi * 2 ^ 16 + lo) as (Hlo & Hhi & Ez) by (unfold lo, hi; Z.to_euclidean_division_equations; lia).
  assert (htonl z = htons lo * 2 ^ 16 + htons hi) as -> by (unfold htonl; fold lo hi; by rewrite (Z.mod_small hi)).
  assert (∀ a b, 0 ≤ b < 2 ^ 16 → memory 4 (a * 2 ^ 16 + b) = memory 2 b ++ memory 2 a) as Hsplit.
  { intros a b Hb. unfold memory. cbn [fmap list_fmap seq app].
    change (8 * Z.of_nat 0) with 0. change (8 * Z.of_nat 1) with 8. change (8 * Z.of_nat 2) with 16. change (8 * Z.of_nat 3) with 24.
    rewrite Z.pow_0_r, !Z.div_1_r. f_equal; [|f_equal; [|f_equal; [|f_equal]]]; Z.to_euclidean_division_equations; lia. }
  rewrite Hsplit by apply htons_range. rewrite !memory_2 by done. unfold be_value. cbn [app foldl].
  rewrite Ez. Z.to_euclidean_division_equations. lia.
Qed.

Lemma memory_length n z : length (memory n z) = n.
Proof. unfold memory. by rewrite length_fmap, length_seq. Qed.

Lemma field_at off n l1 l2 l3 : length l1 = off → length l2 = n → field off n (l1 ++ l2 ++ l3) = be_value l2.
Proof. intros <- <-. unfold field. rewrite drop_app_length, take_app_length. done. Qed.

Lemma instr_image_length i : length (instr_image i) = INSTR_BYTES.
Proof. unfold instr_image. by rewrite !length_app, !memory_length. Qed.

Definition header_image (p : packet_t) : list Z :=
  memory 4 (pk_locks_check p) ++ memory 4 (pk_locks_acquire p) ++ memory 4 (pk_locks_undo p) ++ memory 1 (pk_second_pass p) ++ memory 1 (pk_n_failed p).

Lemma packet_image_split p : packet_image p = header_image p ++ concat (instr_image <$> reg_instrs p) ∧ length (header_image p) = 14%nat.
Proof. unfold packet_image, header_image. rewrite <-!app_assoc. split; [done|]. by rewrite !length_app, !memory_length. Qed.

(** ** The instructions of a transaction *)

(** The accesses of a grid, in the order of the loops. *)
Definition pass_ops (grid : list (option Z)) : list (nat * Z) := omap (λ x, (λ i, (x.1, i)) <$> x.2) (zip (seq 0 (length grid)) grid).

Section txn.
Context (id : Z).

Definition op_instr (mark : bool) (x : nat * Z) : reg_instr_t :=
  MkRI (u8 (Z.lor (if mark then STOP else 0) (Z.of_nat x.1 + 1))) 1 (htons (u16 x.2)) (htonl (u32 id)).
Definition first_mark (mark : bool) (ops : list (nat * Z)) : list reg_instr_t :=
  match ops with [] => [] | x :: l => op_instr mark x :: (op_instr false <$> l) end.
Definition mark_instr (mark : bool) : reg_instr_t := if mark then stop_instr else zero_instr.

Definition put_op (st : list reg_instr_t * nat) (x : nat * Z) : outcome (list reg_instr_t * nat) :=
  instr ← aget st.1 st.2;
  l ← aset st.1 st.2 (MkRI (u8 (Z.lor (Z.land (ri_type instr) STOP) (Z.of_nat x.1 + 1))) 1 (htons (u16 x.2)) (htonl (u32 id)));
  Ok (l, S st.2).

Lemma put_cell_op grid st c o : grid !! c = Some o → put_cell id grid st c = match o with None => Ok st | Some x => put_op st (c, x) end.
Proof. intros Ho. unfold put_cell. by rewrite (aget_some _ _ _ Ho). Qed.

Lemma put_cells grid st : length grid = N_CELLS → ofold (put_cell id grid) (seq 0 N_CELLS) st = ofold put_op (pass_ops grid) st.
Proof.
  intros <-. unfold pass_ops. cut (∀ n g st, (∀ i, g !! i = grid !! (n + i)%nat) →
    ofold (put_cell id grid) (seq n (length g)) st = ofold put_op (omap (λ x : nat * option Z, (λ i, (x.1, i)) <$> x.2) (zip (seq n (length g)) g)) st).
  { intros H. apply H. done. }
  clear st. intros n g. revert n. induction g as [|o g IH]; intros n st Hg; [done|]. cbn [length seq zip zip_with ofold omap list_omap].
  pose proof (Hg 0%nat) as H0. rewrite Nat.add_0_r in H0. cbn in H0. rewrite (put_cell_op _ _ _ _ (eq_sym H0)). cbn [fst snd].
  assert (∀ i, g !! i = grid !! (S n + i)%nat) as Hg' by (intros i; rewrite Nat.add_succ_comm; apply (Hg (S i))).
  destruct o as [x|]; cbn [fmap option_fmap option_map mbind outcome_bind]; [|by apply IH]. cbn [ofold].
  destruct (put_op st (n, x)) as [st'|]; [|done]. cbn [mbind outcome_bind]. by apply IH.
Qed.

Lemma put_op_head mark done rest x : put_op (done ++ mark_instr mark :: rest, length done) x = Ok (done ++ op_instr mark x :: rest, S (length done)).
Proof.
  unfold put_op. cbn [fst snd]. rewrite (aget_some _ _ (mark_instr mark)) by (by apply list_lookup_middle). cbn [mbind outcome_bind].
  rewrite aset_lt by (rewrite length_app; cbn; lia). cbn [mbind outcome_bind]. rewrite insert_app_r_alt, Nat.sub_diag by lia. cbn [insert list_insert].
  by destruct mark.
Qed.

Lemma put_ops ops : ∀ mark done m, (length ops ≤ m)%nat →
  ofold put_op ops (done ++ mark_instr mark :: replicate m zero_instr, length done)
  = Ok (done ++ first_mark mark ops ++ mark_instr (mark && bool_decide (ops = [])) :: replicate (m - length ops) zero_instr, (length done + length ops)%nat).
Proof.
  induction ops as [|x ops IH]; intros mark done m Hm; cbn [ofold].
  - cbn [first_mark app length]. rewrite bool_decide_true, andb_true_r, Nat.sub_0_r, Nat.add_0_r by done. done.
  - rewrite put_op_head. cbn [mbind outcome_bind]. destruct m as [|m]; [cbn in Hm; lia|]. cbn [replicate length] in Hm |- *.
    specialize (IH false (done ++ [op_instr mark x]) m ltac:(lia)). rewrite length_app, <-app_assoc in IH. cbn [length app mark_instr] in IH.
    rewrite Nat.add_1_r in IH. rewrite IH. rewrite <-app_assoc. cbn [first_mark app andb]. rewrite bool_decide_false, andb_false_r by done.
    f_equal. f_equal; [|lia]. do 2 f_equal. by destruct ops.
Qed.

(** The instructions of all passes. *)
Fixpoint pass_instrs (mark : bool) (ps : list (list (option Z))) : list reg_instr_t :=
  match ps with [] => [] | g :: ps' => first_mark mark (pass_ops g) ++ pass_instrs true ps' end.
Definition n_ops (ps : list (list (option Z))) : nat := length (concat (pass_ops <$> ps)).

Lemma first_mark_length mark ops : length (first_mark mark ops) = length ops.
Proof. destruct ops; [done|]. cbn. by rewrite length_fmap. Qed.

Lemma put_pass_step mark done m g : length g = N_CELLS → (length (pass_ops g) ≤ m)%nat →
  put_pass id (done ++ mark_instr mark :: replicate m zero_instr, length done) g
  = Ok ((done ++ first_mark mark (pass_ops g)) ++ mark_instr true :: replicate (m - length (pass_ops g)) zero_instr,
        length (done ++ first_mark mark (pass_ops g))).
Proof.
  intros Hg Hm. unfold put_pass. rewrite put_cells, put_ops by done. cbn [mbind outcome_bind].
  set (done' := done ++ first_mark mark (pass_ops g)). set (b := mark && _).
  assert (length done' = length done + length (pass_ops g))%nat as Hd by (unfold done'; by rewrite length_app, first_mark_length).
  rewrite app_assoc. fold done'. rewrite <-Hd.
  rewrite (aget_some _ _ (mark_instr b)) by (by apply list_lookup_middle). cbn [mbind outcome_bind].
  rewrite aset_lt by (rewrite length_app; cbn; lia). cbn [mbind outcome_bind]. rewrite insert_app_r_alt, Nat.sub_diag by lia. cbn [insert list_insert].
  by destruct b.
Qed.

Lemma put_passes ps : Forall (λ g, length g = N_CELLS) ps → ∀ mark done m, (n_ops ps ≤ m)%nat →
  ofold (put_pass id) ps (done ++ mark_instr mark :: replicate m zero_instr, length done)
  = Ok (done ++ pass_instrs mark ps ++ mark_instr (mark || bool_decide (ps ≠ [])) :: replicate (m - n_ops ps) zero_instr, (length done + n_ops ps)%nat).
Proof.
  induction 1 as [|g ps Hg _ IH]; intros mark done m Hm; cbn [ofold].
  - cbn [pass_instrs app]. change (n_ops []) with 0%nat. rewrite Nat.sub_0_r, Nat.add_0_r, bool_decide_false, orb_false_r by (by intros []). done.
  - unfold n_ops in *. cbn [fmap list_fmap concat] in Hm |- *. rewrite length_app in Hm |- *. set (k := length (pass_ops g)) in *.
    rewrite put_pass_step by (done || (fold k; lia)). cbn [mbind outcome_bind]. fold k.
    rewrite IH by lia. rewrite (bool_decide_true (g :: ps ≠ [])), orb_true_r by done. cbn [orb pass_instrs].
    rewrite <-!app_assoc, length_app, first_mark_length. fold k. by rewrite Nat.sub_add_distr, Nat.add_assoc.
Qed.

Lemma txn_to_sw_fmt_spec txn : Forall (λ g, length g = N_CELLS) (passes txn) → passes txn ≠ [] → (n_ops (passes txn) ≤ N_MAX_HOT_OPS)%nat →
  txn_to_sw_fmt txn id = Ok (MkPkt (htonl (u32 (locks_check txn))) (htonl (u32 (locks_wanted txn))) 0 0 0
    (pass_instrs false (passes txn) ++ stop_instr :: replicate (N_MAX_HOT_OPS - n_ops (passes txn)) zero_instr)).
Proof.
  intros Hg Hne Hn. unfold txn_to_sw_fmt. change (replicate N_REG_INSTRS zero_instr, 0%nat) with ([] ++ mark_instr false :: replicate N_MAX_HOT_OPS zero_instr, length (@nil reg_instr_t)).
  rewrite put_passes by done. cbn [mbind outcome_bind]. by rewrite bool_decide_true by done.
Qed.

(** ** Reading them back *)

Hypothesis Hid : 0 ≤ id < 2 ^ 32.

Definition op_ok (x : nat * Z) : Prop := (x.1 < N_CELLS)%nat ∧ 0 ≤ x.2 < 2 ^ 16.
Definition accesses (ops : list (nat * Z)) : list (nat * Z * Z) := (λ x : nat * Z, (x.1, x.2, id)) <$> ops.
Definition image (l : list reg_instr_t) : list Z := concat (instr_image <$> l).

Lemma image_app l1 l2 : image (l1 ++ l2) = image l1 ++ image l2.
Proof. unfold image. by rewrite fmap_app, concat_app. Qed.
Lemma image_cons i l : image (i :: l) = instr_image i ++ image l.
Proof. done. Qed.

Lemma op_type (mark : bool) (c : nat) : (c < N_CELLS)%nat →
  let t := u8 (Z.lor (if mark then STOP else 0) (Z.of_nat c + 1)) in 0 ≤ t < 2 ^ 8 ∧ Z.land t 127 = Z.of_nat c + 1 ∧ Z.testbit t 7 = mark.
Proof.
  intros Hc t. split; [by apply wrap_range|].
  assert (forallb (λ c, let t := u8 (Z.lor (if mark then STOP else 0) (Z.of_nat c + 1)) in (Z.land t 127 =? Z.of_nat c + 1) && Bool.eqb (Z.testbit t 7) mark) (seq 0 N_CELLS) = true) as H
    by (destruct mark; vm_compute; reflexivity).
  rewrite forallb_forall in H. specialize (H c ltac:(apply in_seq; lia)). cbv zeta in H. fold t in H. apply andb_true_iff in H as [H1 H2].
  split; [by apply Z.eqb_eq|by apply eqb_prop].
Qed.

Lemma op_image mark x rest : op_ok x →
  let bytes := instr_image (op_instr mark x) ++ rest in
  Z.land (field 0 1 bytes) 127 = Z.of_nat x.1 + 1 ∧ Z.testbit (field 0 1 bytes) 7 = mark ∧ field 2 2 bytes = x.2 ∧ field 4 4 bytes = id
  ∧ drop INSTR_BYTES bytes = rest.
Proof.
  intros [Hc Hx]. cbv zeta. destruct (op_type mark x.1 Hc) as (Ht & Hl & Hb). unfold instr_image, op_instr. cbn [ri_type ri_op ri_idx ri_data].
  set (t := u8 _) in *. assert (u16 x.2 = x.2) as -> by (by apply wrap_small). assert (u32 id = id) as -> by (by apply wrap_small).
  set (m1 := memory 1 t). set (m2 := memory 1 1). set (m3 := memory 2 (htons x.2)). set (m4 := memory 4 (htonl id)).
  assert (length m1 = 1 ∧ length m2 = 1 ∧ length m3 = 2 ∧ length m4 = 4)%nat as (L1 & L2 & L3 & L4) by (unfold m1, m2, m3, m4; by rewrite !memory_length).
  rewrite <-!app_assoc. pose proof (field_at 0 1 [] m1 (m2 ++ m3 ++ m4 ++ rest) eq_refl L1) as F. cbn [app] in F. rewrite F. unfold m1 at 1 2. rewrite memory_1 by done.
  change (be_value [t]) with t. split_and!; try done.
  - rewrite app_assoc, field_at by (rewrite ?length_app; lia). unfold m3. rewrite memory_2 by done. unfold be_value. cbn [foldl]. Z.to_euclidean_division_equations. lia.
  - rewrite app_assoc, app_assoc, field_at by (rewrite ?length_app; lia). by apply memory_4.
Qed.

Lemma read_op n mark x rest cur : op_ok x →
  read_passes (S n) (instr_image (op_instr mark x) ++ rest) cur
  = if mark then ps ← read_passes n rest [(x.1, x.2, id)]; Some (cur :: ps) else read_passes n rest (cur ++ [(x.1, x.2, id)]).
Proof.
  intros Hx. cbn [read_passes]. destruct (op_image mark x rest Hx) as (-> & -> & -> & -> & ->). rewrite (proj2 (Z.eqb_neq _ 0)) by lia.
  replace (Z.to_nat (Z.of_nat x.1 + 1 - 1)) with x.1 by lia. by destruct mark.
Qed.

Lemma read_plain ops rest : Forall op_ok ops → ∀ n cur,
  read_passes (length ops + n) (image (op_instr false <$> ops) ++ rest) cur = read_passes n rest (cur ++ accesses ops).
Proof.
  induction 1 as [|x ops Hx _ IH]; intros n cur; [cbn; by rewrite app_nil_r|]. rewrite fmap_cons, image_cons, <-app_assoc. cbn [length Nat.add].
  rewrite read_op by done. rewrite IH. unfold accesses. rewrite fmap_cons, <-app_assoc. done.
Qed.

Lemma read_stop n rest cur : read_passes (S n) (instr_image stop_instr ++ rest) cur = Some [cur].
Proof. reflexivity. Qed.

Lemma read_marked n ps rest : Forall (λ g, pass_ops g ≠ [] ∧ Forall op_ok (pass_ops g)) ps → ∀ cur,
  read_passes (n_ops ps + S n) (image (pass_instrs true ps) ++ instr_image stop_instr ++ rest) cur = Some (cur :: (accesses ∘ pass_ops <$> ps)).
Proof.
  induction 1 as [|g ps [Hne Hg] _ IH]; intros cur; [apply read_stop|].
  unfold n_ops in *. cbn [pass_instrs fmap list_fmap concat]. rewrite image_app, <-app_assoc, length_app. unfold compose.
  destruct (pass_ops g) as [|x ops]; [done|]. apply Forall_cons in Hg as [Hx Hops]. cbn [first_mark length Nat.add]. rewrite image_cons, <-app_assoc, read_op by done.
  rewrite <-Nat.add_assoc, read_plain by done. by rewrite IH.
Qed.

Lemma read_instrs n ps rest : ps ≠ [] → Forall (λ g, pass_ops g ≠ [] ∧ Forall op_ok (pass_ops g)) ps →
  read_passes (n_ops ps + S n) (image (pass_instrs false ps) ++ instr_image stop_instr ++ rest) [] = Some (accesses ∘ pass_ops <$> ps).
Proof.
  intros Hne Hps. destruct Hps as [|g ps [Hg Hops] Hps]; [done|]. unfold n_ops in *. cbn [pass_instrs fmap list_fmap concat]. rewrite image_app, <-app_assoc, length_app.
  assert (first_mark false (pass_ops g) = op_instr false <$> pass_ops g) as -> by (by destruct (pass_ops g)).
  rewrite <-Nat.add_assoc, read_plain by done. apply read_marked; done.
Qed.

Lemma read_packet_spec txn pkt : Forall (λ g, length g = N_CELLS ∧ pass_ops g ≠ [] ∧ Forall op_ok (pass_ops g)) (passes txn) → passes txn ≠ [] →
  (n_ops (passes txn) ≤ N_MAX_HOT_OPS)%nat → 0 ≤ locks_check txn < 2 ^ 32 → 0 ≤ locks_wanted txn < 2 ^ 32 → txn_to_sw_fmt txn id = Ok pkt →
  length (packet_image pkt) = PACKET_BYTES ∧ read_packet (packet_image pkt) = Some (locks_check txn, locks_wanted txn, accesses ∘ pass_ops <$> passes txn).
Proof.
  intros Hps Hne Hn Hc Hw H. rewrite txn_to_sw_fmt_spec in H; [|by eapply Forall_impl; [exact Hps|intros ? [? _]]|done|done]. injection H as <-.
  match goal with |- context [packet_image ?p] => destruct (packet_image_split p) as [-> Hlen]; set (pkt := p) in * end.
  assert (length (reg_instrs pkt) = N_REG_INSTRS) as Hl.
  { unfold pkt. cbn [reg_instrs]. rewrite length_app. cbn [length]. rewrite length_replicate. assert (∀ b ps, length (pass_instrs b ps) = n_ops ps) as ->.
    { intros b ps. revert b. induction ps as [|g ps IH]; intros b; [done|]. unfold n_ops in *. cbn. by rewrite !length_app, first_mark_length, IH. }
    unfold N_REG_INSTRS. lia. }
  split.
  - rewrite length_app, Hlen. rewrite (concat_uniform INSTR_BYTES); [by rewrite length_fmap, Hl|]. apply Forall_fmap, Forall_true. intros i. apply instr_image_length.
  - unfold read_packet. rewrite drop_app_length' by done. change (concat (instr_image <$> reg_instrs pkt)) with (image (reg_instrs pkt)).
    assert (reg_instrs pkt = pass_instrs false (passes txn) ++ stop_instr :: replicate (N_MAX_HOT_OPS - n_ops (passes txn)) zero_instr) as -> by done.
    rewrite image_app, image_cons.
    replace N_REG_INSTRS with (n_ops (passes txn) + S (N_MAX_HOT_OPS - n_ops (passes txn)))%nat by (unfold N_REG_INSTRS; lia).
    rewrite read_instrs; [|done|by eapply Forall_impl; [exact Hps|intros ? (_ & ? & ?)]]. cbn [mbind option_bind]. do 2 f_equal.
    unfold header_image. cbn [pk_locks_check pk_locks_acquire pkt]. rewrite !wrap_small by done.
    rewrite <-!app_assoc. f_equal.
    + match goal with |- field 0 4 (?a ++ ?b) = _ => pose proof (field_at 0 4 [] a b eq_refl (memory_length _ _)) as F end. cbn [app] in F. rewrite F. by apply memory_4.
    + rewrite field_at by apply memory_length. by apply memory_4.
Qed.
End txn.

(** ** The accesses are those of the transaction *)

Lemma bind_ext_in {A B} (f g : A → list B) l : (∀ x, x ∈ l → f x = g x) → l ≫= f = l ≫= g.
Proof. induction l as [|x l IH]; intros H; [done|]. cbn [mbind list_bind]. rewrite H by (by left). f_equal. apply IH. intros y Hy. apply H. by right. Qed.

Lemma bind_concat {A B} (f : A → list B) l : l ≫= f = concat (f <$> l).
Proof. induction l as [|x l IH]; [done|]. cbn [mbind list_bind fmap list_fmap concat]. by f_equal. Qed.

(** Two nested loops can be exchanged. *)
Lemma bind_pair {A B} (f g : A → list B) l : l ≫= (λ x, f x ++ g x) ≡ₚ (l ≫= f) ++ (l ≫= g).
Proof. induction l as [|x l IH]; [done|]. cbn. rewrite IH. solve_Permutation. Qed.

Lemma bind_swap {A B C} (X : A → B → list C) l k : l ≫= (λ a, k ≫= X a) ≡ₚ k ≫= (λ b, l ≫= λ a, X a b).
Proof.
  induction l as [|a l IH]; cbn [mbind list_bind]; [by induction k|]. rewrite IH. symmetry.
  apply (bind_pair (X a) (λ b, l ≫= λ a, X a b) k).
Qed.

Lemma bind_lookup {A} (l : list A) n : seq 0 n ≫= (λ j, option_list (l !! j)) = take n l.
Proof.
  induction n as [|n IH]; [done|]. rewrite seq_S, bind_app, IH. cbn [mbind list_bind Nat.add]. rewrite app_nil_r. destruct (l !! n) as [x|] eqn:E; cbn [option_list].
  - by rewrite (take_S_r _ _ _ E).
  - rewrite app_nil_r. apply lookup_ge_None in E. by rewrite !take_ge by lia.
Qed.

(** A list, cut by a number that each element has. *)
Lemma bind_classes {A} (f : A → nat) l n : Forall (λ x, f x < n)%nat l → seq 0 n ≫= (λ c, filter (λ x, f x = c) l) ≡ₚ l.
Proof.
  induction 1 as [|x l Hx _ IH]; [by induction (seq 0 n)|].
  trans (seq 0 n ≫= (λ c, (if decide (f x = c) then [x] else []) ++ filter (λ x, f x = c) l)).
  { apply reflexive_eq, bind_ext_in. intros c _. rewrite filter_cons. by destruct (decide _). }
  rewrite bind_pair, IH. cut (seq 0 n ≫= (λ c, if decide (f x = c) then [x] else []) = [x]); [by intros ->|].
  clear -Hx. induction n as [|n IH]; [lia|]. rewrite seq_S, bind_app. cbn [mbind list_bind Nat.add]. rewrite app_nil_r.
  destruct (decide (f x = n)) as [E|E]; [|rewrite app_nil_r; apply IH; lia].
  cut (∀ k, (k ≤ f x)%nat → seq 0 k ≫= (λ c, if decide (f x = c) then [x] else []) = []); [intros ->; [done|lia]|].
  clear. induction k as [|k IH]; intros Hk; [done|]. rewrite seq_S, bind_app, IH by lia. cbn. rewrite decide_False by lia. done.
Qed.

Lemma pass_ops_bind grid : pass_ops grid = seq 0 (length grid) ≫= (λ c, match grid !! c with Some (Some i) => [(c, i)] | _ => [] end).
Proof.
  unfold pass_ops. cut (∀ n g, (∀ i, g !! i = grid !! (n + i)%nat) → omap (λ x : nat * option Z, (λ i, (x.1, i)) <$> x.2) (zip (seq n (length g)) g)
    = seq n (length g) ≫= (λ c, match grid !! c with Some (Some i) => [(c, i)] | _ => [] end)).
  { intros H. by apply H. }
  intros n g. revert n. induction g as [|o g IH]; intros n Hg; [done|]. cbn [length seq zip zip_with omap list_omap mbind list_bind].
  pose proof (Hg 0%nat) as H0. rewrite Nat.add_0_r in H0. cbn in H0. rewrite <-H0. cbn [fst snd].
  assert (∀ i, g !! i = grid !! (S n + i)%nat) as Hg' by (intros i; rewrite Nat.add_succ_comm; apply (Hg (S i))).
  destruct o as [x|]; cbn; [f_equal|]; by apply IH.
Qed.

Definition access_of (tl : tuple_loc_t) : nat * Z := (cell tl, idx tl).

Lemma passes_access n l ps : grids_ok n l ps → Forall in_range l → (∀ c, (cell_count c l ≤ n)%nat) → concat (pass_ops <$> ps) ≡ₚ access_of <$> l.
Proof.
  intros [Hn Hg] Hr Hcount.
  trans (seq 0 n ≫= (λ j, seq 0 N_CELLS ≫= (λ c, option_list ((λ tl, (c, idx tl)) <$> filter (λ tl, cell tl = c) l !! j)))).
  { rewrite <-Hn. clear Hcount. apply reflexive_eq. trans (concat ((λ j, seq 0 N_CELLS ≫= (λ c, option_list ((λ tl, (c, idx tl)) <$> filter (λ tl, cell tl = c) l !! j))) <$> seq 0 (length ps))).
    2:{ symmetry. apply bind_concat. }
    f_equal. apply list_eq. intros j. rewrite !list_lookup_fmap. destruct (ps !! j) as [g|] eqn:E.
    2:{ pose proof (lookup_ge_None_1 _ _ E). by rewrite lookup_seq_ge. }
    rewrite lookup_seq_lt by (by eapply lookup_lt_Some). cbn [fmap option_fmap option_map Nat.add]. f_equal. destruct (Hg j g E) as [Hl Hc]. rewrite pass_ops_bind, Hl.
    apply bind_ext_in. intros c Hin%elem_of_seq. rewrite (Hc c) by lia. by destruct (filter _ _ !! j). }
  rewrite bind_swap. trans (seq 0 N_CELLS ≫= (λ c, access_of <$> filter (λ tl, cell tl = c) l)).
  { apply reflexive_eq, bind_ext_in. intros c _. trans (seq 0 n ≫= (λ j, option_list ((access_of <$> filter (λ tl, cell tl = c) l) !! j))).
    - apply bind_ext_in. intros j _. rewrite list_lookup_fmap. destruct (filter _ _ !! j) as [tl|] eqn:E; [|done]. cbn.
      apply list_elem_of_lookup_2, list_elem_of_filter in E as [<- _]. done.
    - rewrite bind_lookup, take_ge; [done|]. rewrite length_fmap. apply Hcount. }
  trans (access_of <$> (seq 0 N_CELLS ≫= (λ c, filter (λ tl, cell tl = c) l))).
  { apply reflexive_eq. induction (seq 0 N_CELLS) as [|c s IH]; [done|]. cbn [mbind list_bind]. by rewrite fmap_app, IH. }
  rewrite bind_classes; [done|]. eapply Forall_impl; [exact Hr|]. apply cell_lt.
Qed.

(** ** The whole trace *)

(** A transaction that fits a packet, as the constructor makes it. *)
Record sendable (wl : list txn_t) (t : sw_txn_t) : Prop := {
  se_some : passes t ≠ [];
  se_pass : Forall (λ g, length g = N_CELLS ∧ pass_ops g ≠ []) (passes t);
  se_small : (n_ops (passes t) < N_MAX_HOT_OPS)%nat;
  se_keys : (λ x, rev_lookup (layout_make wl) x.1 x.2) <$> concat (pass_ops <$> passes t) ≡ₚ Ok <$> orig_txn t;
  se_range : Forall (λ x, (x.1 < N_CELLS)%nat ∧ 0 ≤ x.2 < Z.of_nat (length (get_key_cts wl))) (concat (pass_ops <$> passes t));
}.

Lemma make_sendable wl prt txn t : (∀ k, k ∈ txn → k ∈ concat wl) → (0 < length txn < N_MAX_HOT_OPS)%nat → sw_txn_make prt (layout_make wl) txn = Ok t → sendable wl t.
Proof.
  intros Hin Hsmall Hmk. assert (length txn ≤ 100)%nat as Hlen by (unfold N_MAX_HOT_OPS in Hsmall; lia). destruct (sw_txn_spec (get_key_cts wl).*1 (layout_make wl) prt txn (layout_make_ok wl)) as (t' & tls & Ht & Htls & Hp & _ & Hg & Hle & Hex); [|done|].
  { intros k Hk. by apply get_key_cts_keys, Hin. }
  rewrite Hmk in Ht. injection Ht as <-. assert (orig_txn t = txn) as Ho by (unfold sw_txn_make in Hmk; minv; done).
  destruct Hex as [c Hc]; [by intros ->; cbn in Hsmall; lia|].
  assert (Forall (λ tl, in_range tl ∧ 0 ≤ idx tl < Z.of_nat (length (get_key_cts wl))) (locs t)) as Hr.
  { rewrite Hp. apply Forall_lookup. intros i tl Hi. destruct (Forall2_lookup_r _ _ _ _ _ Htls Hi) as (k & _ & Hk).
    destruct (lo_back _ _ (layout_make_ok wl) k tl Hk) as (_ & ? & ? & ? & _). pose proof (layout_idx_lt wl k tl Hk). done. }
  assert (Forall in_range (locs t)) as Hr1 by (eapply Forall_impl; [exact Hr|by intros ? []]).
  pose proof (passes_access _ _ _ Hg Hr1 Hle) as Hacc.
  assert (length (locs t) = length txn) as Hll by (by rewrite (Permutation_length Hp), <-(Forall2_length _ _ _ Htls)).
  assert (0 < length (passes t))%nat as Hpos.
  { destruct (locs t) as [|tl l] eqn:El; [cbn in Hll; lia|]. pose proof (Hle (cell tl)) as H. unfold cell_count in H. rewrite filter_cons_True in H by done. cbn in H. lia. }
  split.
  - intros E. rewrite E in Hpos. cbn in Hpos. lia.
  - apply Forall_lookup. intros j g Hj. destruct (proj2 Hg j g Hj) as [Hgl Hgc]. split; [done|]. pose proof (lookup_lt_Some _ _ _ Hj) as Hlt.
    unfold cell_count in Hc. destruct (lookup_lt_is_Some_2 (filter (λ tl, cell tl = c) (locs t)) j) as [tl Htl]; [lia|].
    assert (cell tl = c ∧ in_range tl) as [Hcell Hin'].
    { apply list_elem_of_lookup_2, list_elem_of_filter in Htl as [? Htl]. rewrite Forall_forall in Hr1. split; [done|by apply Hr1]. }
    pose proof (Hgc c ltac:(rewrite <-Hcell; by apply cell_lt)) as Hgo. rewrite Htl in Hgo. rewrite pass_ops_bind. intros E.
    assert ((c, idx tl) ∈ seq 0 (length g) ≫= (λ c, match g !! c with Some (Some i) => [(c, i)] | _ => [] end)) as Hx.
    { apply list_elem_of_bind. exists c. rewrite Hgo. split; [by left|]. apply elem_of_seq. apply lookup_lt_Some in Hgo. lia. }
    rewrite E in Hx. by apply not_elem_of_nil in Hx.
  - unfold n_ops. rewrite Hacc, length_fmap. lia.
  - rewrite Hacc, Hp, Ho, <-list_fmap_compose. apply reflexive_eq. clear -Htls. induction Htls as [|k tl txn tls Hk _ IH]; [done|]. rewrite !fmap_cons. f_equal; [|done].
    by destruct (lo_back _ _ (layout_make_ok wl) k tl Hk) as (_ & _ & _ & _ & ?).
  - rewrite Hacc. apply Forall_fmap. eapply Forall_impl; [exact Hr|]. intros tl [Hin' ?]. split; [by apply cell_lt|done].
Qed.

(** The packet of the [i]-th transaction. *)
Definition packet_of (i : nat) (t : sw_txn_t) : Z * Z * list (list (nat * Z * Z)) :=
  (locks_check t, locks_wanted t, accesses (Z.of_nat i) ∘ pass_ops <$> passes t).

Definition trace_ok (wl : list txn_t) (t : sw_txn_t) : Prop :=
  sendable wl t ∧ 0 ≤ locks_check t < 2 ^ 32 ∧ 0 ≤ locks_wanted t < 2 ^ 32.

Lemma write_txn_spec wl f i t : trace_ok wl t → Z.of_nat i < 2 ^ 32 → Z.of_nat (length (get_key_cts wl)) ≤ 2 ^ 16 →
  ∃ pkt, write_txn f (i, t) = Ok (f ++ pkt) ∧ length pkt = PACKET_BYTES ∧ read_packet pkt = Some (packet_of i t).
Proof.
  intros ([Hne Hps Hn _ Hr] & Hc & Hw) Hi Hkeys. unfold write_txn. cbn [fst snd].
  assert (Forall (λ g, length g = N_CELLS) (passes t)) as Hg by (eapply Forall_impl; [exact Hps|by intros ? []]).
  pose proof (txn_to_sw_fmt_spec (Z.of_nat i) t Hg Hne ltac:(lia)) as E. rewrite E. cbn [mbind outcome_bind].
  eexists. split; [done|]. eapply read_packet_spec; [lia| |done|lia|done|done|exact E].
  apply Forall_forall. intros g Hin. rewrite Forall_forall in Hps. destruct (Hps g Hin) as [? ?]. split_and!; [done|done|].
  apply Forall_forall. intros x Hx. rewrite Forall_forall in Hr. destruct (Hr x) as [? ?]; [|split; [done|lia]].
  apply list_elem_of_In, in_concat. exists (pass_ops g). rewrite <-!list_elem_of_In. split; [by apply list_elem_of_fmap_2|done].
Qed.

Lemma write_trace_spec wl sw : Forall (trace_ok wl) sw → Z.of_nat (length sw) ≤ 2 ^ 32 → Z.of_nat (length (get_key_cts wl)) ≤ 2 ^ 16 →
  ∃ bytes, write_trace sw = Ok bytes ∧ read_trace_file (length sw) bytes = Some (imap packet_of sw).
Proof.
  intros Hsw Hlen Hkeys. unfold write_trace. cut (∀ n f, Z.of_nat n + Z.of_nat (length sw) ≤ 2 ^ 32 → ∃ bytes, ofold write_txn (zip (seq n (length sw)) sw) f = Ok (f ++ bytes)
    ∧ read_trace_file (length sw) bytes = Some (imap (λ i, packet_of (n + i)) sw)).
  { intros H. destruct (H 0%nat [] ltac:(lia)) as (bytes & ? & ?). by exists bytes. }
  clear Hlen. induction Hsw as [|t sw Ht _ IH]; intros n f Hn; [exists []; by rewrite app_nil_r|].
  cbn [length seq zip zip_with ofold] in *. destruct (write_txn_spec wl f n t Ht) as (pkt & Hw & Hl & Hr); [lia|done|].
  rewrite Hw. cbn [mbind outcome_bind]. destruct (IH (S n) (f ++ pkt)) as (bytes & Hb & Hrd); [lia|]. exists (pkt ++ bytes). rewrite app_assoc. split; [exact Hb|].
  cbn [read_trace_file]. rewrite take_app_length', drop_app_length' by done. rewrite Hr, Hrd. cbn [mbind option_bind imap]. rewrite Nat.add_0_r.
  do 2 f_equal. apply imap_ext. intros i x _. cbn. by rewrite Nat.add_succ_r.
Qed.

Lemma from_txn_ok wl prt t : small_txn wl (orig_txn t) → from_txn wl prt t → trace_ok wl t.
Proof.
  intros [(_ & _ & Hin) Hs] (t0 & Hmk & _ & _ & Hp & _ & Hc & Hw). split; [|done]. pose proof (make_sendable wl prt _ t0 Hin Hs Hmk) as [H1 H2 H3 H4 H5].
  assert (orig_txn t0 = orig_txn t) as Ho by (unfold sw_txn_make in Hmk; minv; done). rewrite Ho in H4. rewrite <-Hp in *. by split.
Qed.

(** What becomes of a workload without repeated keys. *)
Lemma prepare_workload txns comps : Forall NoDup txns → batch_iter_make txns = Ok comps →
  let wl := (next_batch comps).1 in
  ∃ sw, prepare_txns_sw 0 wl (layout_make wl) = Ok sw ∧ (length sw ≤ length wl)%nat ∧ Forall (trace_ok wl) sw ∧ Forall (from_txn wl 0) sw.
Proof.
  intros Hnd Hmk wl. pose proof (next_batch_ok txns comps Hnd Hmk) as Hok. fold wl in Hok.
  destruct (prepare_spec wl 0 wl) as (sw & Hsw & Ho & _ & _ & Hfrom); [eapply Forall_impl; [exact Hok|by intros ? []]|].
  exists sw. split; [done|]. split; [|split; [|done]].
  - rewrite <-(length_fmap orig_txn), Ho. apply length_filter.
  - apply Forall_forall. intros t Ht. apply (from_txn_ok wl 0); [|by apply (proj1 (Forall_forall _ _) Hfrom)].
    apply (proj1 (Forall_forall _ _) Hok).
    assert (orig_txn t ∈ orig_txn <$> sw) as Hin by (by apply list_elem_of_fmap_2). rewrite Ho in Hin. by apply list_elem_of_filter in Hin as [_ ?].
Qed.

Lemma batch_iter_ok txns : (0 < hot_keys (length (get_key_cts txns)))%nat → ∃ comps, batch_iter_make txns = Ok comps.
Proof.
  intros Hh. unfold batch_iter_make. destruct (last _) as [x|] eqn:E; [by eexists|]. exfalso. apply last_None in E. apply (f_equal length) in E.
  unfold vec_resize in E. rewrite length_app, length_take, length_replicate in E. cbn in E. lia.
Qed.

(** C33: for every YCSB file the program writes a trace of which each packet,
    read the way the switch reads it, is one of the prepared transactions,
    in order: its locks, and its passes as accesses (register array, index and
    the transaction's number as the value), the second pass beginning at
    the marked instruction; and the registers a transaction accesses are exactly
    those the layout gives to its keys, each once.  The hot keys have to be at
    most 65536, because the index field of an instruction has 16 bits. *)
Theorem prod_trace_roundtrip rnd fuel files lines final :
  files (ycsb_file 1 99 16) = Some (lines_text lines final) → Forall (Forall numeral) lines → Forall numeral final → (length lines + 1 < fuel)%nat →
  let txns := concat (line_keys <$> lines ++ [final]) in
  (0 < hot_keys (length (get_key_cts txns)))%nat →
  ∃ comps, batch_iter_make txns = Ok comps ∧
    let wl := (next_batch comps).1 in
    (Z.of_nat (length (get_key_cts wl)) ≤ 2 ^ 16 → Z.of_nat (length wl) ≤ 2 ^ 32 →
     ∃ sw bytes, prepare_txns_sw 0 wl (layout_make wl) = Ok sw ∧ prod_trace_main rnd fuel files = Ok bytes
       ∧ read_trace_file (length sw) bytes = Some (imap packet_of sw)
       ∧ Forall (λ t, (λ x, rev_lookup (layout_make wl) x.1 x.2) <$> concat (pass_ops <$> passes t) ≡ₚ Ok <$> orig_txn t) sw).
Proof.
  intros Hf Hl Hfin Hfuel txns Hhot. destruct (batch_iter_ok txns Hhot) as [comps Hmk]. exists comps. split; [done|]. intros wl Hkeys Hwl.
  destruct (prepare_workload txns comps (line_keys_NoDup _) Hmk) as (sw & Hsw & Hlen & Hok & _). fold wl in Hsw, Hlen, Hok.
  destruct (write_trace_spec wl sw Hok ltac:(lia) Hkeys) as (bytes & Hb & Hrd). exists sw, bytes. split; [done|]. split; [|split; [done|]].
  - unfold prod_trace_main, get_batch_iter, workload_txns, get_ycsb_txns. rewrite Hf. cbn [ifstream]. rewrite ycsb_lines_spec by done. cbn [mbind outcome_bind app].
    fold txns. rewrite Hmk. cbn [mbind outcome_bind]. rewrite all_batches_first. cbn [mbind outcome_bind]. fold wl. by rewrite Hsw.
  - eapply Forall_impl; [exact Hok|]. intros t [[] _]. done.
Qed.

(** A file of a thousand lines with one key each. *)
Definition demo_lines : list (list (list Z)) := (λ n, [(λ d, Z.of_nat n / 10 ^ d mod 10) <$> [3; 2; 1; 0]]) <$> seq 1000 1000.
Definition demo_files : string → option (list ascii) := λ _, Some (lines_text demo_lines []).

Definition demo_comps : outcome (list (txn_t * txn_t)) := batch_iter_make (concat (line_keys <$> demo_lines ++ [[]])).

Definition one_small (comps : list (txn_t * txn_t)) : bool :=
  let wl := (next_batch comps).1 in
  (Z.of_nat (length (get_key_cts wl)) <=? 2 ^ 16) && (Z.of_nat (length wl) <=? 2 ^ 32)
  && match prepare_txns_sw 0 wl (layout_make wl) with Ok sw => Nat.eqb (length sw) 1 | Fail _ => false end.

Lemma one_small_true comps : one_small comps = true →
  let wl := (next_batch comps).1 in
  Z.of_nat (length (get_key_cts wl)) ≤ 2 ^ 16 ∧ Z.of_nat (length wl) ≤ 2 ^ 32
  ∧ ∀ sw, prepare_txns_sw 0 wl (layout_make wl) = Ok sw → length sw = 1%nat.
Proof.
  unfold one_small. cbv zeta. set (wl := (next_batch comps).1). rewrite !andb_true_iff, !Z.leb_le. intros [[H1 H2] H3].
  split; [exact H1|split; [exact H2|]]. intros sw E. rewrite E in H3. by apply Nat.eqb_eq.
Qed.

Lemma demo_comps_small comps : demo_comps = Ok comps → one_small comps = true.
Proof.
  intros E. cut (match demo_comps with Ok comps => one_small comps | Fail _ => false end = true); [by rewrite E|]. clear E. vm_compute. reflexivity.
Qed.

Lemma demo_lines_ok : Forall (Forall numeral) demo_lines ∧ (length demo_lines + 1 < 1100)%nat
  ∧ (0 < hot_keys (length (get_key_cts (concat (line_keys <$> demo_lines ++ [[]])))))%nat.
Proof.
  split_and!.
  - assert (forallb (forallb (λ ds, bool_decide (numeral ds))) demo_lines = true) as H by (vm_compute; reflexivity).
    rewrite forallb_forall in H. apply Forall_forall. intros fields Hf%list_elem_of_In%H. rewrite forallb_forall in Hf.
    apply Forall_forall. intros ds Hds%list_elem_of_In%Hf. by apply bool_decide_eq_true in Hds.
  - unfold demo_lines. rewrite length_fmap, length_seq. apply Nat.ltb_lt. vm_compute. reflexivity.
  - apply Nat.ltb_lt. vm_compute. reflexivity.
Qed.

Lemma prod_trace_roundtrip_witness :
  ∃ bytes pkt, prod_trace_main (λ _, 0) 1100 demo_files = Ok bytes ∧ read_trace_file 1 bytes = Some [pkt].
Proof.
  destruct (prod_trace_roundtrip (λ _, 0) 1100 demo_files demo_lines []) as (comps & Hmk & H).
  - reflexivity.
  - exact (proj1 demo_lines_ok).
  - constructor.
  - exact (proj1 (proj2 demo_lines_ok)).
  - exact (proj2 (proj2 demo_lines_ok)).
  - destruct (one_small_true comps (demo_comps_small comps Hmk)) as (H1 & H2 & H3). destruct (H H1 H2) as (sw & bytes & Hsw & Hb & Hr & _).
    pose proof (H3 sw Hsw) as Hlen. rewrite Hlen in Hr. destruct sw as [|t [|]]; [discriminate| |discriminate].
    exists bytes. eexists. split; [exact Hb|exact Hr].
Defined.
