(* ===== verification/SimDrain.v ===== *)
(** * The simulated switch drains

    The test programs of the simulator send all their transactions through one
    port.  Seen from there the switch of SimSwitch is a lane: a queue of new
    packets, a queue of packets that come around, the pipeline, and the packets
    that are done.  [lane_cycle] is what [run_cycle] does to it.  Every
    packet gets through: a number that bounds the cycles still needed
    goes down with every turn. *)
From stdpp Require Import base tactics list numbers gmap.
From Stdlib Require Import ZArith Lia.
From S2P Require Import Prelude SimLayout SimSwitch SimSerial SimRun.

#[local] Open Scope Z_scope.

(** ** The lane *)

(** New packets ([l_p] is in the parser), packets that come around (the first is
    in the parser), the pipeline, the packets that are done, the holder. *)
Record lane := MkLane {
  l_q : list sw_txn_t;
  l_p : option sw_txn_t;
  l_r : list sw_txn_t;
  l_pipe : list (option sw_txn_t);
  l_out : list (bool * sw_txn_t);
  l_h : option Z;
}.

(** The packet at the end of the pipeline: it comes around or is done. *)
Definition leave_txn (t0 : sw_txn_t) : list sw_txn_t * list (bool * sw_txn_t) :=
  let t := if valid t0 then set_pass_ct (S (pass_ct t0)) t0 else t0 in
  if bool_decide (length (passes t) = pass_ct t) then ([], [(true, t)])
  else if bool_decide (pass_ct t = 0%nat) && (MAX_FAIL_CT <=? fail_ct t) && (locks_undo t =? 0) then ([], [(false, t)])
  else ([set_valid true t], []).

Definition lane_leave (a : lane) : list sw_txn_t * list (bool * sw_txn_t) :=
  match last (l_pipe a) with Some (Some t0) => leave_txn t0 | _ => ([], []) end.

(** The packet that enters, and the queues without it. *)
Definition lane_pick (a : lane) : option sw_txn_t * (list sw_txn_t * option sw_txn_t * list sw_txn_t) :=
  match l_r a, l_p a with
  | x :: r, Some y => (Some x, (l_q a, Some y, r))
  | x :: r, None => (Some x, (tail (l_q a), head (l_q a), r))
  | [], o => (o, (tail (l_q a), head (l_q a), []))
  end.

(** A packet is admitted when no other transaction holds the pipeline, and its
    transaction holds it from then on exactly when it has a further pass. *)
Definition lane_lock (t : sw_txn_t) (h : option Z) : bool * option Z :=
  if bool_decide (h = None ∨ h = Some (txn_id t)) then (true, if bool_decide (S (pass_ct t) < length (passes t))%nat then Some (txn_id t) else None)
  else (false, h).

Definition lane_enter (h : option Z) (x : option sw_txn_t) : option sw_txn_t * option Z :=
  match x with
  | Some t => let '(b, h') := lane_lock t h in (Some (set_valid b t), h')
  | None => (None, h)
  end.

Definition lane_cycle (a : lane) : lane :=
  let '(back, out) := lane_leave a in
  let '(x, (q, p, r)) := lane_pick a in
  let '(o, h) := lane_enter (l_h a) x in
  MkLane q p (r ++ back) (o :: take (N_STAGES - 1) (l_pipe a)) (l_out a ++ out) h.

Definition lane_send (t : sw_txn_t) (a : lane) : lane := MkLane (l_q a ++ [t]) (l_p a) (l_r a) (l_pipe a) (l_out a) (l_h a).
Definition lane_take (a : lane) : lane := MkLane (l_q a) (l_p a) (l_r a) (l_pipe a) (tail (l_out a)) (l_h a).

(** ** Its invariant *)

Definition waiting (a : lane) : list sw_txn_t := l_q a ++ option_list (l_p a) ++ l_r a.
Definition running (a : lane) : list sw_txn_t := omap id (l_pipe a).

(** A packet that is not done and is not given up. *)
Definition alive (t : sw_txn_t) : Prop := port t = 0 ∧ fail_ct t < MAX_FAIL_CT ∧ (pass_ct t < length (passes t))%nat.

(** Between two passes a packet holds the pipeline. *)
Definition held (h : option Z) (t : sw_txn_t) : Prop := pass_ct t = 0%nat ∨ h = Some (txn_id t).
Definition held_in (h : option Z) (t : sw_txn_t) : Prop :=
  if valid t then (pass_ct t + 1 < length (passes t))%nat → h = Some (txn_id t) else held h t.

(** Where the holder is. *)
Definition in_queue (i : Z) (n : nat) (a : lane) : Prop := ∃ t, l_r a !! n = Some t ∧ txn_id t = i.
Definition in_pipe (i : Z) (j : nat) (a : lane) : Prop :=
  ∃ t, l_pipe a !! j = Some (Some t) ∧ txn_id t = i ∧ valid t = true ∧ (pass_ct t + 1 < length (passes t))%nat.

Record lane_ok (a : lane) : Prop := {
  lk_len : length (l_pipe a) = N_STAGES;
  lk_room : (length (l_r a) + length (running a) ≤ S N_STAGES)%nat;
  lk_alive : Forall alive (waiting a ++ running a);
  lk_ids : NoDup (txn_id <$> waiting a ++ running a);
  lk_wait : Forall (held (l_h a)) (waiting a);
  lk_run : Forall (held_in (l_h a)) (running a);
  lk_holder : ∀ i, l_h a = Some i → (∃ n, in_queue i n a) ∨ (∃ j, in_pipe i j a);
  lk_out : Forall (λ x, x.1 = true) (l_out a);
}.

Lemma lane_pick_perm a x q p r : lane_pick a = (x, (q, p, r)) → waiting a ≡ₚ option_list x ++ q ++ option_list p ++ r.
Proof.
  unfold lane_pick, waiting. destruct (l_r a) as [|t r0], (l_p a) as [y|], (l_q a) as [|z q0]; intros [= <- <- <- <-]; cbn [option_list head tail app]; solve_Permutation.
Qed.

Lemma pipe_cut {A} (l : list (option A)) : length l = N_STAGES → ∃ o, last l = Some o ∧ l = take (N_STAGES - 1) l ++ [o].
Proof.
  intros Hl. destruct (last l) as [o|] eqn:E; [|by apply last_None in E as ->]. exists o. split; [done|]. rewrite (take_pop l o E) at 1. by rewrite Hl.
Qed.

(** What leaves is what was last in the pipeline. *)
Lemma leave_alive t0 : alive t0 → leave_txn t0 =
  let t := if valid t0 then set_pass_ct (S (pass_ct t0)) t0 else t0 in
  if bool_decide (valid t0 = true ∧ length (passes t0) = S (pass_ct t0)) then ([], [(true, t)]) else ([set_valid true t], []).
Proof.
  intros (_ & Hf & Hp). unfold leave_txn. cbv zeta. destruct (valid t0) eqn:Hv; cbn [set_pass_ct passes pass_ct fail_ct locks_undo].
  - case_bool_decide as E; [by rewrite bool_decide_true|]. rewrite (bool_decide_false (S _ = 0%nat)) by lia. cbn [andb]. rewrite bool_decide_false by tauto. done.
  - rewrite bool_decide_false by lia. rewrite (proj2 (Z.leb_gt _ _) Hf), andb_false_r. cbn [andb]. rewrite bool_decide_false by (intros [? _]; done). done.
Qed.

Lemma submseteq_NoDup {A} (l k : list A) : l ⊆+ k → NoDup k → NoDup l.
Proof. intros [k' ->]%submseteq_Permutation Hnd. by apply NoDup_app in Hnd as [? _]. Qed.

(** The switch's lock is the lane's. *)
Lemma lane_lock_eq t h : alive t → held h t → whole_pipe_lock t h = lane_lock t h.
Proof.
  intros (_ & _ & Hlt) Hh. unfold whole_pipe_lock, lane_lock, held in *. destruct h as [i|].
  - destruct (Z.eqb_spec i (txn_id t)) as [->|Hne]; [rewrite (bool_decide_true (_ ∨ _)) by (by right)|by rewrite (bool_decide_false (_ ∨ _)) by (intros [|]; congruence)].
    f_equal. do 2 case_bool_decide; lia || done.
  - destruct Hh as [Hp|]; [|done]. rewrite (bool_decide_true (_ ∨ _)) by (by left). by rewrite Hp.
Qed.

(** A packet enters the pipeline. *)
Lemma lock_step t h b h' : alive t → held h t → lane_lock t h = (b, h') →
  (∀ u, txn_id u ≠ txn_id t → (held h u → held h' u) ∧ (held_in h u → held_in h' u))
  ∧ held_in h' (set_valid b t)
  ∧ (b = false → h' = h ∧ ∃ i, h = Some i ∧ i ≠ txn_id t)
  ∧ (b = true → h' = None ∨ h' = Some (txn_id t) ∧ (pass_ct t + 1 < length (passes t))%nat).
Proof.
  intros Hal Hh. rewrite <-(lane_lock_eq t h Hal Hh). destruct Hal as (_ & _ & Hlt). unfold whole_pipe_lock, held_in, held in *. cbn [set_valid valid passes pass_ct txn_id]. destruct h as [i|].
  - destruct (Z.eqb_spec i (txn_id t)) as [->|Hne]; intros [= <- <-].
    + split; [|split; [|split; [done|]]].
      * intros u Hu. case_bool_decide; destruct (valid u); (split; [intros [?|[=]]; [by left|congruence]|]).
        -- intros H1 H2. specialize (H1 H2). congruence.
        -- intros [?|[=]]; [by left|congruence].
        -- done.
        -- done.
      * case_bool_decide; [lia|done].
      * intros _. case_bool_decide; [by left|right]. split; [done|lia].
    + split; [done|]. split; [done|]. split; [|done]. intros _. split; [done|]. by exists i.
  - destruct Hh as [Hp|]; [|done]. intros [= <- <-]. split; [|split; [|split; [done|]]].
    + intros u Hu. split; [intros [?|[=]]; by left|]. destruct (valid u); [intros H1 H2; specialize (H1 H2); congruence|intros [?|[=]]; by left].
    + rewrite Hp. case_bool_decide; [done|lia].
    + intros _. rewrite Hp. case_bool_decide; [right|by left]. split; [done|lia].
Qed.

Section cycle.
Context (a : lane) (Hok : lane_ok a) (x : option sw_txn_t) (q : list sw_txn_t) (p : option sw_txn_t) (r : list sw_txn_t).
Context (o : option sw_txn_t) (h' : option Z) (o0 : option sw_txn_t) (pl : list (option sw_txn_t)) (back : list sw_txn_t) (out : list (bool * sw_txn_t)).
Hypothesis Hpick : lane_pick a = (x, (q, p, r)).
Hypothesis Henter : lane_enter (l_h a) x = (o, h').
Hypothesis Hpl : l_pipe a = pl ++ [o0].
Hypothesis Hleave : match o0 with Some t0 => leave_txn t0 | None => ([], []) end = (back, out).

Definition cycled : lane := MkLane q p (r ++ back) (o :: pl) (l_out a ++ out) h'.
Definition rest : list sw_txn_t := q ++ option_list p ++ r.

Lemma pl_length : length pl = (N_STAGES - 1)%nat.
Proof. pose proof (lk_len a Hok) as H. rewrite Hpl, length_app in H. cbn in H. lia. Qed.

Lemma cycle_eq : lane_cycle a = cycled.
Proof.
  unfold lane_cycle, lane_leave. rewrite Hpl, last_snoc. replace (match o0 with Some t0 => leave_txn t0 | None => ([], []) end) with (back, out) by (by destruct o0).
  rewrite Hpick, Henter. rewrite take_app_length' by (by rewrite pl_length). done.
Qed.

Lemma waiting_before : waiting a ≡ₚ option_list x ++ rest.
Proof. unfold rest. by apply lane_pick_perm. Qed.
Lemma waiting_after : waiting cycled ≡ₚ back ++ rest.
Proof. unfold waiting, cycled, rest. cbn [l_q l_p l_r]. solve_Permutation. Qed.
Lemma running_before : running a ≡ₚ option_list o0 ++ omap id pl.
Proof. unfold running. rewrite Hpl, omap_app. cbn. destruct o0; cbn; solve_Permutation. Qed.
Lemma running_after : running cycled = option_list o ++ omap id pl.
Proof. unfold running, cycled. cbn. by destruct o. Qed.

(** The packets that stay where they are, and the two that move. *)
Lemma parts : Forall alive (rest ++ omap id pl) ∧ Forall (held (l_h a)) rest ∧ Forall (held_in (l_h a)) (omap id pl)
  ∧ (∀ t, x = Some t → alive t ∧ held (l_h a) t ∧ ∀ u, u ∈ rest ++ omap id pl ++ option_list o0 → txn_id u ≠ txn_id t)
  ∧ (∀ t, o0 = Some t → alive t ∧ held_in (l_h a) t).
Proof.
  destruct Hok as [_ _ Hal Hids Hw Hr _ _]. rewrite waiting_before, running_before in Hal, Hids. rewrite waiting_before in Hw. rewrite running_before in Hr.
  rewrite !Forall_app in Hal. rewrite Forall_app in Hw. rewrite Forall_app in Hr. destruct Hal as [[Hax Har] [Hao Hap]], Hw as [Hwx Hwr], Hr as [Hro Hrp]. split_and!; [by apply Forall_app|done|done| |].
  - intros t ->. cbn [option_list] in *. apply Forall_inv in Hax, Hwx. split_and!; [done|done|]. cbn [app fmap list_fmap] in Hids. apply NoDup_cons in Hids as [Hni _].
    intros u Hu E. apply Hni. rewrite <-E. apply list_elem_of_fmap_2. rewrite !elem_of_app in Hu |- *. tauto.
  - intros t ->. cbn [option_list] in *. apply Forall_inv in Hao, Hro. done.
Qed.

(** The packet that comes around keeps its number, and holds the pipeline when it
    is between two passes. *)
Lemma back_ok : (∀ t, o0 = Some t → txn_id <$> back ++ out.*2 = [txn_id t]) ∧ (o0 = None → back = [] ∧ out = [])
  ∧ Forall (λ y, y.1 = true) out ∧ Forall alive back ∧ Forall (held (l_h a)) back.
Proof.
  destruct parts as (_ & _ & _ & _ & Ho). destruct o0 as [t0|]; [|injection Hleave as <- <-; split_and!; done].
  destruct (Ho t0 eq_refl) as [Hal Hh]. pose proof Hleave as Hl. rewrite leave_alive in Hl by done. cbv zeta in Hl. destruct Hal as (Hport & Hf & Hlt). unfold held_in, held in Hh.
  case_bool_decide as E; injection Hl as <- <-; (split; [intros t [= <-]; by destruct (valid t0)|]); (split; [done|]).
  - split_and!; by repeat constructor.
  - split; [done|]. destruct (valid t0) eqn:Hv; cbn [set_valid set_pass_ct] in *.
    + assert (length (passes t0) ≠ S (pass_ct t0)) by tauto. split; (constructor; [|done]).
      * split_and!; cbn; [done|done|lia].
      * right. apply Hh. lia.
    + split; (constructor; [|done]); [done|]. exact Hh.
Qed.

Lemma cycled_sub : txn_id <$> waiting cycled ++ running cycled ⊆+ txn_id <$> waiting a ++ running a.
Proof.
  destruct back_ok as (Hb & Hn & _). rewrite waiting_after, running_after, waiting_before, running_before.
  assert (txn_id <$> option_list o = txn_id <$> option_list x) as Ho.
  { unfold lane_enter in Henter. destruct x as [t|]; [|by injection Henter as <- <-]. destruct (lane_lock t (l_h a)). by injection Henter as <- <-. }
  assert (txn_id <$> back ⊆+ txn_id <$> option_list o0) as Hback.
  { destruct o0 as [t0|]; [|by destruct (Hn eq_refl) as [-> _]]. cbn. rewrite <-(Hb t0 eq_refl), fmap_app. apply submseteq_inserts_r. done. }
  rewrite !fmap_app, Ho.
  trans (txn_id <$> option_list o0 ++ rest ++ option_list x ++ omap id pl); [rewrite !fmap_app, <-!app_assoc; by apply submseteq_app|].
  apply Permutation_submseteq. rewrite !fmap_app. solve_Permutation.
Qed.

Lemma cycled_ids : NoDup (txn_id <$> waiting cycled ++ running cycled).
Proof. exact (submseteq_NoDup _ _ cycled_sub (lk_ids a Hok)). Qed.

(** Where the holder goes. *)
Lemma holder_in_pipe i j : in_pipe i j a → if decide (j = N_STAGES - 1)%nat then in_queue i (length r) cycled else in_pipe i (S j) cycled.
Proof.
  intros (t & Hj & Hi & Hv & Hp). pose proof pl_length as Hlen. destruct parts as (_ & _ & _ & _ & Ho). case_decide as E.
  - rewrite Hpl, E, list_lookup_middle in Hj by done. injection Hj as Hj. rewrite Hj in Hleave, Ho. destruct (Ho t eq_refl) as [Hal _].
    rewrite leave_alive in Hleave by done. cbv zeta in Hleave. rewrite bool_decide_false, Hv in Hleave by (intros [_ ?]; lia). injection Hleave as Hb _.
    exists (set_valid true (set_pass_ct (S (pass_ct t)) t)). split; [|done]. unfold cycled. cbn [l_r]. rewrite <-Hb. by apply list_lookup_middle.
  - exists t. split; [|done]. unfold cycled. cbn [l_pipe lookup list_lookup]. pose proof (lookup_lt_Some _ _ _ Hj) as Hlt. rewrite Hpl, length_app in Hlt. cbn in Hlt.
    rewrite Hpl, lookup_app_l in Hj by lia. exact Hj.
Qed.

Lemma holder_in_queue i n : in_queue i n a → match n with O => ∃ t, x = Some t ∧ txn_id t = i | S n' => in_queue i n' cycled end.
Proof.
  intros (t & Hn & Hi). unfold lane_pick in Hpick. destruct (l_r a) as [|y r0] eqn:Er; [done|].
  assert (x = Some y ∧ r = r0) as [-> Hr] by (destruct (l_p a); split; congruence).
  destruct n as [|n]; cbn in Hn; [injection Hn as ->; by exists t|]. exists t. split; [|done]. unfold cycled. cbn [l_r]. apply lookup_app_l_Some. by rewrite Hr.
Qed.

Lemma omap_length_le {A} (l : list (option A)) : (length (omap id l) ≤ length l)%nat.
Proof. induction l as [|[y|] l IH]; cbn; lia. Qed.

Lemma cycled_room : (length (l_r cycled) + length (running cycled) ≤ S N_STAGES)%nat.
Proof.
  destruct back_ok as (Hb & Hn & _). pose proof (lk_room a Hok) as Hroom. rewrite running_before, length_app in Hroom. rewrite running_after, length_app. unfold cycled. cbn [l_r]. rewrite length_app.
  pose proof pl_length as Hlen. pose proof (omap_length_le pl) as Hle.
  assert (length back ≤ length (option_list o0))%nat as Hback.
  { destruct o0 as [t0|]; [|by destruct (Hn eq_refl) as [-> _]]. pose proof (f_equal length (Hb t0 eq_refl)) as E. rewrite length_fmap, length_app in E. cbn in E |- *. lia. }
  assert (length (option_list o) ≤ 1 ∧ length (option_list o0) ≤ 1)%nat as [] by (split; [destruct o|destruct o0]; cbn; lia).
  unfold lane_pick in Hpick. destruct (l_r a) as [|y r0].
  - assert (r = []) as -> by congruence. cbn. unfold N_STAGES in *. lia.
  - assert (r = r0) as -> by (destruct (l_p a); congruence). cbn in Hroom. lia.
Qed.

Lemma cycled_holder i : h' = Some i → (∃ n, in_queue i n cycled) ∨ (∃ j, in_pipe i j cycled).
Proof.
  intros Hh. destruct parts as (_ & _ & _ & Hx & _).
  assert (l_h a = Some i → (∀ t, x = Some t → txn_id t ≠ i) → (∃ n, in_queue i n cycled) ∨ (∃ j, in_pipe i j cycled)) as Hkeep.
  { intros Ha Hne. destruct (lk_holder a Hok i Ha) as [[n Hq]|[j Hp]].
    - apply holder_in_queue in Hq. destruct n as [|n]; [destruct Hq as (t & Ht & ?); by destruct (Hne t Ht)|left; by exists n].
    - apply holder_in_pipe in Hp. case_decide; [left|right]; by eexists. }
  unfold lane_enter in Henter. destruct x as [t|]; [|injection Henter as <- <-; by apply Hkeep].
  destruct (lane_lock t (l_h a)) as [b h1] eqn:El. injection Henter as Ho <-. destruct (Hx t eq_refl) as (Hat & Hht & _).
  destruct (lock_step t _ _ _ Hat Hht El) as (_ & _ & Hf & Ht). destruct b.
  - destruct (Ht eq_refl) as [->|[-> Hlt]]; [done|]. injection Hh as <-. right. exists 0%nat, (set_valid true t). unfold cycled. cbn [l_pipe lookup list_lookup]. by rewrite <-Ho.
  - destruct (Hf eq_refl) as [-> (i' & E & Hne)]. apply Hkeep; [done|]. intros t' [= <-]. congruence.
Qed.

Lemma cycled_ok : lane_ok cycled.
Proof.
  destruct parts as (Hal & Hw & Hr & Hx & Ho). destruct back_ok as (Hb & Hn & Hout & Hbal & Hbh). pose proof Hok as [_ Hroom _ _ _ _ Hhold Hout0].
  pose proof pl_length as Hlen. rewrite Forall_app in Hal. destruct Hal as [Hal1 Hal2].
  assert (Forall alive (option_list o) ∧ Forall (held_in h') (option_list o) ∧ (∀ u, u ∈ back ++ rest → held (l_h a) u → held h' u)
    ∧ (∀ u, u ∈ omap id pl → held_in (l_h a) u → held_in h' u)) as (Ha1 & Ha2 & Ha3 & Ha4).
  { unfold lane_enter in Henter. destruct x as [t|]; [|injection Henter as <- <-; by split_and!]. destruct (lane_lock t (l_h a)) as [b h1] eqn:El. injection Henter as <- <-.
    destruct (Hx t eq_refl) as (Hat & Hht & Hne). destruct (lock_step t _ _ _ Hat Hht El) as (Hst & Hin & _).
    split; [by constructor|]. split; [by constructor|]. split; intros u Hu; apply Hst.
    - apply elem_of_app in Hu as [Hu|Hu]; [|apply Hne; apply elem_of_app; by left].
      destruct o0 as [t0|]; [|destruct (Hn eq_refl) as [-> _]; by apply not_elem_of_nil in Hu].
      assert (txn_id u ∈ txn_id <$> back ++ out.*2) as Hid by (apply list_elem_of_fmap_2, elem_of_app; by left).
      rewrite (Hb t0 eq_refl), list_elem_of_singleton in Hid. rewrite Hid. apply Hne. rewrite !elem_of_app. right. right. by left.
    - apply Hne. rewrite !elem_of_app. right. by left. }
  constructor.
  - cbn. rewrite Hlen. done.
  - apply cycled_room.
  - rewrite waiting_after, running_after. rewrite !Forall_app. by split_and!.
  - apply cycled_ids.
  - rewrite waiting_after. apply Forall_forall. intros u Hu. apply Ha3; [done|]. apply elem_of_app in Hu as [Hu|Hu]; [by apply (proj1 (Forall_forall _ _) Hbh)|by apply (proj1 (Forall_forall _ _) Hw)].
  - rewrite running_after. apply Forall_app. split; [done|]. apply Forall_forall. intros u Hu. apply Ha4; [done|]. by apply (proj1 (Forall_forall _ _) Hr).
  - apply cycled_holder.
  - cbn. by apply Forall_app.
Qed.

(** ** The work that is left *)

Definition rem (t : sw_txn_t) : nat := length (passes t) - pass_ct t.
Definition wait_work (t : sw_txn_t) : nat := S (rem t).
Definition run_work (t : sw_txn_t) : nat := if valid t then rem t else S (rem t).
Definition work (b : lane) : nat := sum_list_with wait_work (waiting b) + sum_list_with run_work (running b) + length (l_out b).

(** A packet is let into the pipeline. *)
Definition admitted : nat := match x with Some t => if (lane_lock t (l_h a)).1 then 1 else 0 | None => 0 end.

Lemma cycled_work : (work cycled + admitted = work a)%nat.
Proof.
  unfold work. rewrite waiting_after, running_after, waiting_before, running_before, !sum_list_with_app. unfold cycled. cbn [l_out]. rewrite length_app.
  destruct parts as (_ & _ & _ & Hx & Ho).
  assert (sum_list_with wait_work back + length out = sum_list_with run_work (option_list o0))%nat as E1.
  { destruct o0 as [t0|]; [|by injection Hleave as <- <-]. destruct (Ho t0 eq_refl) as [Hal _]. pose proof Hleave as Hl. rewrite leave_alive in Hl by done. cbv zeta in Hl.
    destruct Hal as (_ & _ & Hlt). unfold run_work, wait_work, rem. case_bool_decide as E; injection Hl as <- <-; cbn.
    - destruct E as [-> ?]. lia.
    - destruct (valid t0); cbn; lia. }
  assert (sum_list_with run_work (option_list o) + admitted = sum_list_with wait_work (option_list x))%nat as E2.
  { unfold admitted. unfold lane_enter in Henter. destruct x as [t|]; [|by injection Henter as <- <-]. destruct (Hx t eq_refl) as ((_ & _ & Hlt) & _).
    destruct (lane_lock t (l_h a)) as [b h1]. injection Henter as <- <-. cbn. unfold run_work, wait_work, rem. destruct b; cbn; lia. }
  lia.
Qed.

(** No packet is lost. *)
Definition total (b : lane) : nat := length (waiting b) + length (running b) + length (l_out b).

Lemma cycled_total : total cycled = total a.
Proof.
  unfold total. rewrite waiting_after, running_after, waiting_before, running_before, !length_app. unfold cycled. cbn [l_out]. rewrite length_app.
  destruct back_ok as (Hb & Hn & _).
  assert (length back + length out = length (option_list o0))%nat as E1.
  { destruct o0 as [t0|]; [|by destruct (Hn eq_refl) as [-> ->]]. pose proof (f_equal length (Hb t0 eq_refl)) as E. rewrite length_fmap, length_app, length_fmap in E. cbn in E |- *. lia. }
  assert (length (option_list o) = length (option_list x)) as E2.
  { unfold lane_enter in Henter. destruct x as [t|]; [|by injection Henter as <- <-]. destruct (lane_lock t (l_h a)). by injection Henter as <- <-. }
  lia.
Qed.

(** How far the next admission, or the next packet that is done, is away. *)
Definition near (b : lane) (d : nat) : Prop :=
  match l_h b with
  | Some i => in_queue i d b ∨ (∃ j, in_pipe i j b ∧ d = (40 + (N_STAGES - j))%nat)
  | None => ((l_r b ≠ [] ∨ l_p b ≠ None) ∧ d = 0%nat) ∨ (∃ j t, l_pipe b !! j = Some (Some t) ∧ d = (1 + (N_STAGES - j))%nat) ∨ (running b = [] ∧ d = 20%nat)
  end.

(** A turn in which nothing is admitted and nothing is done brings both nearer. *)
Lemma cycled_nearer d : near a d → admitted = 0%nat → out = [] →
  (∃ d', near cycled d' ∧ (d' < d)%nat) ∨ (waiting cycled = [] ∧ running cycled = []).
Proof.
  intros Hnear Hadm Hout. pose proof pl_length as Hlen. destruct parts as (_ & _ & _ & Hx & Ho). unfold near in Hnear.
  pose proof Henter as He. pose proof Hpick as Hpk. pose proof Hleave as Hlv. destruct (l_h a) as [i|] eqn:Eh in Hnear.
  - left. assert (h' = Some i ∧ ∀ t, x = Some t → txn_id t ≠ i) as [Hh Hne].
    { unfold lane_enter in He. unfold admitted in Hadm. rewrite Eh in Hadm, He. destruct x as [t|]; [|by injection He as <- <-].
      destruct (Hx t eq_refl) as (Hat & Hht & _). rewrite Eh in Hht. destruct (lane_lock t (Some i)) as [b h1] eqn:El. destruct b; [done|]. injection He as _ <-.
      destruct (lock_step t _ _ _ Hat Hht El) as (_ & _ & Hf & _). destruct (Hf eq_refl) as [-> (i' & [= <-] & Hne)]. split; [done|]. by intros t' [= <-]. }
    assert (∀ d', in_queue i d' cycled ∨ (∃ j, in_pipe i j cycled ∧ d' = (40 + (N_STAGES - j))%nat) → near cycled d') as Hn by (intros d'; unfold near; cbn [cycled l_h]; by rewrite Hh).
    destruct Hnear as [Hq|(j & Hp & ->)].
    + apply holder_in_queue in Hq. destruct d as [|d]; [destruct Hq as (t & Ht & Hi); by destruct (Hne t Ht)|]. exists d. split; [|lia]. apply Hn. by left.
    + pose proof Hp as (t & Hj & _). apply lookup_lt_Some in Hj. rewrite (lk_len a Hok) in Hj. apply holder_in_pipe in Hp. case_decide as E.
      * exists (length r). split; [apply Hn; by left|]. pose proof cycled_room as Hroom. unfold cycled in Hroom. cbn [l_r] in Hroom. rewrite length_app in Hroom. unfold N_STAGES in *. lia.
      * eexists. split; [apply Hn; right; exists (S j); split; [done|reflexivity]|]. lia.
  - assert (x = None) as Ex by (unfold admitted in Hadm; rewrite Eh in Hadm; by destruct x).
    rewrite Ex in Hpk, He. rewrite Eh in He. cbn [lane_enter] in He. assert (o = None ∧ h' = None) as [Eo Hh] by (split; congruence).
    unfold lane_pick in Hpk. destruct (l_r a) as [|y r0] eqn:Er; [|by destruct (l_p a)]. 
    assert (l_p a = None ∧ q = tail (l_q a) ∧ p = head (l_q a) ∧ r = []) as (Ep & Eq & Ep' & Er') by (split_and!; congruence).
    assert (∀ d', ((r ++ back ≠ [] ∨ p ≠ None) ∧ d' = 0%nat) ∨ (∃ j t, pl !! j = Some (Some t) ∧ d' = (1 + (N_STAGES - S j))%nat) → near cycled d') as Hn.
    { intros d' H. unfold near, cycled. cbn [l_h l_r l_p l_pipe]. rewrite Hh. destruct H as [H|(j & t & Hj & ->)]; [by left|right; left; by exists (S j), t]. }
    destruct Hnear as [[[?|?] _]|[(j & t & Hj & ->)|[Hrun ->]]]; [done|done| |].
    + left. pose proof (lookup_lt_Some _ _ _ Hj) as Hlt. rewrite Hpl, length_app in Hlt. cbn in Hlt. destruct (decide (j = N_STAGES - 1)%nat) as [E|E].
      * rewrite Hpl, E, list_lookup_middle in Hj by done. injection Hj as Hj. exists 0%nat. split; [|lia]. apply Hn. left. split; [left|done].
        rewrite Hj in Hlv, Ho. destruct (Ho t eq_refl) as [Hal _]. rewrite leave_alive in Hlv by done. cbv zeta in Hlv. rewrite Hout in Hlv.
        case_bool_decide; [done|]. injection Hlv as <-. rewrite Er'. done.
      * rewrite Hpl, lookup_app_l in Hj by lia. eexists. split; [apply Hn; right; exists j, t; split; [done|reflexivity]|]. lia.
    + pose proof running_before as Hrb. rewrite Hrun in Hrb. destruct (decide (is_Some p)) as [Ep1|Ep1%eq_None_not_Some].
      { left. exists 0%nat. split; [|lia]. apply Hn. left. split; [right|done]. by intros ->; destruct Ep1. }
      right. assert (option_list o0 = [] ∧ omap id pl = []) as [E1 E2] by (apply app_eq_nil; symmetry; by apply Permutation_nil_l).
      assert (l_q a = []) as Eq0 by (rewrite Ep1 in Ep'; by destruct (l_q a)). assert (back = []) as Eb by (destruct o0; [done|congruence]).
      rewrite running_after, Eo, E2. split; [|done]. unfold waiting, cycled. cbn [l_q l_p l_r]. rewrite Eq, Eq0, Er', Eb, Ep1. done.
Qed.
End cycle.

(** ** Turns *)

Lemma near_some a : lane_ok a → ∃ d, near a d ∧ (d < 60)%nat.
Proof.
  intros [Hlen Hroom _ _ _ _ Hhold _]. unfold near. destruct (l_h a) as [i|].
  - destruct (Hhold i eq_refl) as [[n Hq]|[j Hp]].
    + exists n. split; [by left|]. destruct Hq as (t & Hn & _). apply lookup_lt_Some in Hn. unfold N_STAGES in *. lia.
    + exists (40 + (N_STAGES - j))%nat. split; [right; by exists j|]. unfold N_STAGES. lia.
  - destruct (running a) as [|t l] eqn:Er.
    + exists 20%nat. split; [right; by right|lia].
    + assert (t ∈ running a) as Ht by (rewrite Er; by left). unfold running in Ht. apply list_elem_of_omap in Ht as (o & Ho & Eo). unfold id in Eo. subst o. apply list_elem_of_lookup in Ho as [j Hj].
      exists (1 + (N_STAGES - j))%nat. split; [right; left; by exists j, t|]. unfold N_STAGES. lia.
Qed.

(** The parts of a cycle. *)
Lemma lane_cycle_parts a : lane_ok a → ∃ x q p r o h' o0 pl back out,
  lane_pick a = (x, (q, p, r)) ∧ lane_enter (l_h a) x = (o, h') ∧ l_pipe a = pl ++ [o0]
  ∧ match o0 with Some t0 => leave_txn t0 | None => ([], []) end = (back, out).
Proof.
  intros Hok. destruct (lane_pick a) as [x [[q p] r]] eqn:E1. destruct (lane_enter (l_h a) x) as [o h'] eqn:E2.
  destruct (pipe_cut (l_pipe a) (lk_len a Hok)) as (o0 & _ & E3). destruct (match o0 with Some t0 => leave_txn t0 | None => ([], []) end) as [back out] eqn:E4.
  exists x, q, p, r, o, h', o0, (take (N_STAGES - 1) (l_pipe a)), back, out. done.
Qed.

Lemma lane_cycle_spec a : lane_ok a → lane_ok (lane_cycle a) ∧ (work (lane_cycle a) ≤ work a)%nat ∧ (l_p (lane_cycle a) = None → l_q (lane_cycle a) = [])
  ∧ (length (l_out (lane_cycle a)) ≤ S (length (l_out a)))%nat ∧ (length (l_q (lane_cycle a)) ≤ length (l_q a))%nat
  ∧ txn_id <$> waiting (lane_cycle a) ++ running (lane_cycle a) ⊆+ txn_id <$> waiting a ++ running a
  ∧ total (lane_cycle a) = total a
  ∧ ∀ d, near a d → l_out a = [] →
      (work (lane_cycle a) < work a)%nat ∨ l_out (lane_cycle a) ≠ [] ∨ (∃ d', near (lane_cycle a) d' ∧ (d' < d)%nat)
      ∨ (waiting (lane_cycle a) = [] ∧ running (lane_cycle a) = []).
Proof.
  intros Hok. destruct (lane_cycle_parts a Hok) as (x & q & p & r & o & h' & o0 & pl & back & out & H1 & H2 & H3 & H4).
  pose proof (cycle_eq a Hok x q p r o h' o0 pl back out H1 H2 H3 H4) as E. pose proof (cycled_ok a Hok x q p r o h' o0 pl back out H1 H2 H3 H4) as Hok'.
  pose proof (cycled_work a Hok x q p r o h' o0 pl back out H1 H2 H3 H4) as Hw. rewrite <-E in Hok', Hw.
  split; [done|]. split; [lia|]. split_and!.
  - rewrite E. cbn. unfold lane_pick in H1. destruct (l_r a), (l_p a), (l_q a); cbn in H1; simplify_eq; done.
  - rewrite E. cbn. rewrite length_app. enough (length out ≤ 1)%nat by lia. destruct (back_ok a Hok x q p r o h' o0 pl back out H1 H2 H3 H4) as (Hb & Hn & _).
    destruct o0 as [t0|]; [|by destruct (Hn eq_refl) as [_ ->]; cbn; lia]. pose proof (f_equal length (Hb t0 eq_refl)) as El. rewrite length_fmap, length_app, length_fmap in El. cbn in El. lia.
  - rewrite E. cbn. unfold lane_pick in H1. destruct (l_r a), (l_p a), (l_q a); cbn in H1; simplify_eq; cbn; lia.
  - rewrite E. apply (cycled_sub a Hok x q p r o h' o0 pl back out H1 H2 H3 H4).
  - rewrite E. apply (cycled_total a Hok x q p r o h' o0 pl back out H1 H2 H3 H4).
  - intros d Hd Hout. destruct (decide (admitted a x = 0%nat)) as [Ha|Ha]; [|left; lia]. destruct (decide (out = [])) as [Ho|Ho].
    + right. right. rewrite E. by apply (cycled_nearer a Hok x q p r o h' o0 pl back out H1 H2 H3 H4 d).
    + right. left. rewrite E. cbn. rewrite Hout. done.
Qed.

Lemma lane_send_spec t a : lane_ok a → alive t → pass_ct t = 0%nat → txn_id t ∉ txn_id <$> waiting a ++ running a →
  lane_ok (lane_send t a) ∧ work (lane_send t a) = (work a + S (length (passes t)))%nat ∧ ∀ d, near a d → near (lane_send t a) d.
Proof.
  intros [] Ht Hp Hid. assert (waiting (lane_send t a) ≡ₚ t :: waiting a) as Hw by (unfold waiting, lane_send; cbn [l_q l_p l_r]; solve_Permutation).
  change (running (lane_send t a)) with (running a) in *. split_and!; [|..|done].
  - constructor; try done; change (running (lane_send t a)) with (running a).
    + rewrite Hw. by constructor.
    + rewrite Hw. cbn. by constructor.
    + rewrite Hw. constructor; [by left|done].
  - unfold work. rewrite Hw. cbn [sum_list_with]. change (running (lane_send t a)) with (running a). change (l_out (lane_send t a)) with (l_out a).
    unfold wait_work at 1, rem. rewrite Hp. lia.
Qed.

Lemma lane_take_spec x l a : lane_ok a → l_out a = x :: l →
  x.1 = true ∧ lane_ok (lane_take a) ∧ S (work (lane_take a)) = work a ∧ ∀ d, near a d → near (lane_take a) d.
Proof.
  intros [? ? ? ? ? ? ? Hout] E. rewrite E in Hout. apply Forall_cons in Hout as [Hx Hl]. split_and!; [done|..|done].
  - constructor; try done. unfold lane_take. cbn [l_out]. by rewrite E.
  - unfold work. change (waiting (lane_take a)) with (waiting a). change (running (lane_take a)) with (running a). unfold lane_take. cbn [l_out]. rewrite E. cbn. lia.
Qed.
