(* ===== verification/SimLane.v ===== *)
(** * The switch is a lane

    When every packet uses port 0, a cycle of the switch of SimSwitch does to its
    buffers, parsers, pipeline and egress queue what [lane_cycle] of SimDrain does
    to the lane.  The relation [shows] goes through the packet pool: a place of
    the lane holds the packet of the slot that is there. *)
From stdpp Require Import base tactics list numbers gmap.
From Stdlib Require Import ZArith Lia.
From S2P Require Import Prelude SimLayout SimSwitch SimSerial SimRun SimDrain.

#[local] Open Scope Z_scope.

(** ** What a cycle changes *)

(** The buffers of the port groups when only group 0 and the recirculation port
    are used, and the same for the parsers. *)
Definition ports {A} (d x y : A) : list A := [x; d; d; d; d; d; d; d; y].

(** The parser of a queue takes its first packet when it is free. *)
Definition fill_p {A} (p : option A) (q : list A) : option A := match p with Some _ => p | None => head q end.
Definition fill_q {A} (p : option A) (q : list A) : list A := match p with Some _ => q | None => tail q end.

Lemma run_reg_ops_inv i s s' : run_reg_ops i s = Ok s' → ∃ r d st, s' = with_regs r d st s.
Proof.
  assert (∃ r d st, s = with_regs r d st s) as Hrefl by (exists (regs_ s), (deps s), (stat s); by destruct s).
  unfold run_reg_ops. intros H. minv. destruct r as [slot|]; minv; [|done]. destruct (valid r); minv; [|done].
  revert H. apply (ofold_inv (λ _ b, ∃ r d st, b = with_regs r d st s)); [done|]. intros pre c post b1 b2 _ (rg1 & d1 & st1 & ->) H.
  unfold reg_op in H. minv. match type of H with match ?o with _ => _ end = _ => destruct o as [v|] end; [|injection H as <-; by exists rg1, d1, st1].
  case_bool_decide; [|done]. injection H as <-. eexists _, _, _. reflexivity.
Qed.

Lemma shift_inv n : ∀ s s', (n < length (ingr_pipe_ s))%nat → ofold shift_stage (rev (seq 1 n)) s = Ok s' →
  ∃ r d st, s' = with_regs r d st (upd_pipe (take 1 (ingr_pipe_ s) ++ take n (ingr_pipe_ s) ++ drop (S n) (ingr_pipe_ s)) s).
Proof.
  induction n as [|n IH]; intros s s' Hn H.
  - cbn in H. injection H as <-. exists (regs_ s), (deps s), (stat s). cbn [take app]. destruct s as [? ? ? pipe]. cbn. destruct pipe; done.
  - rewrite seq_S, rev_app_distr in H. change (rev [(1 + n)%nat]) with [S n] in H. cbn [app ofold] in H. minv. unfold shift_stage in E. cbn [Nat.sub] in E. rewrite Nat.sub_0_r in E. minv.
    apply run_reg_ops_inv in E0 as (rg1 & d1 & st1 & ->). change (ingr_pipe_ (with_regs rg1 d1 st1 s)) with (ingr_pipe_ s) in *.
    match type of H with ofold _ _ ?x = _ => destruct (IH x s') as (rg2 & d2 & st2 & ->); [cbn; rewrite length_insert; lia|exact H|] end.
    exists rg2, d2, st2. unfold with_regs, upd_stat, upd_regs, upd_pipe. cbn [ingr_pipe_ txn_pool_ ipb_ parser_ mock_egress_ regs_ incr_id holder deps stat]. f_equal.
    set (l := ingr_pipe_ s) in *. rewrite take_insert_ge, take_insert_ge by lia. f_equal.
    rewrite (take_S_r l n _ E1), <-app_assoc. f_equal. rewrite (drop_S _ r1 (S n)) by (by apply list_lookup_insert_eq). cbn [app]. f_equal. apply drop_insert_lt. lia.
Qed.

Lemma run_cycle_inv s s' : length (ingr_pipe_ s) = N_STAGES → run_cycle s = Ok s' →
  ∃ rg1 d1 st1 s2, leave_pipe (with_regs rg1 d1 st1 s) = Ok s2
    ∧ (ingr_pipe_ s2 = ingr_pipe_ s → ∃ x rg3 d3 st3 s4, enter_pipe (with_regs rg3 d3 st3 (upd_pipe (x :: take (N_STAGES - 1) (ingr_pipe_ s)) s2)) = Ok s4
        ∧ ofold fill_parser (seq 0 (S N_PORT_GROUPS)) s4 = Ok s').
Proof.
  intros Hlen H. unfold run_cycle in H. minv. apply run_reg_ops_inv in E as (rg1 & d1 & st1 & ->). eexists rg1, d1, st1, _. split; [exact E0|]. intros Hp.
  apply shift_inv in E1 as (rg3 & d3 & st3 & ->); [|rewrite Hp, Hlen; unfold N_STAGES; lia]. rewrite Hp in E2.
  destruct (ingr_pipe_ s) as [|x l] eqn:El; [done|]. rewrite drop_ge in E2 by (rewrite Hlen; unfold N_STAGES; lia). rewrite app_nil_r in E2.
  eexists x, rg3, d3, st3, _. split; [exact E2|done].
Qed.

(** *** The parsers *)

Lemma fill_all s q p r8 p8 : ipb_ s = ports [] q r8 → parser_ s = ports None p p8 →
  ofold fill_parser (seq 0 (S N_PORT_GROUPS)) s
  = Ok (upd_ipb (ports [] (fill_q p q) (fill_q p8 r8)) (upd_parser (ports None (fill_p p q) (fill_p p8 r8)) s)).
Proof. destruct s as [pl ipb ps pipe eg rg id h dp st]. cbn [ipb_ parser_]. intros -> ->. destruct p, q, p8, r8; reflexivity. Qed.

Lemma pick_one s q p r8 p8 : ipb_ s = ports [] q r8 → parser_ s = ports None p p8 →
  pick_parser s = match p8, p with Some _, _ => Some RECIRC_PORT | None, Some _ => Some 0%nat | None, None => None end.
Proof. unfold pick_parser. intros -> ->. destruct p8, p, q; reflexivity. Qed.

(** A packet enters from the recirculation port, or from port 0, or none does. *)
Definition entered (b : bool) (h' : option Z) (t : sw_txn_t) (slot : nat) (pl : list (option nat)) (s : switch_t) : switch_t :=
  upd_pipe (Some slot :: pl) (upd_pool (MkPool (<[slot := set_valid b t]> (pool_ (txn_pool_ s))) (free_list_ (txn_pool_ s))) (upd_holder h' s)).

Lemma enter_from s q p r8 p8 o pl slot t b h' : ipb_ s = ports [] q r8 → parser_ s = ports None p p8 → ingr_pipe_ s = o :: pl →
  pool_ (txn_pool_ s) !! slot = Some t → whole_pipe_lock t (holder s) = (b, h') →
  (p8 = Some slot → enter_pipe s = Ok (upd_ipb (ports [] q (tail r8)) (upd_parser (ports None p (head r8)) (entered b h' t slot pl s))))
  ∧ (p8 = None → p = Some slot → enter_pipe s = Ok (upd_ipb (ports [] (tail q) r8) (upd_parser (ports None (head q) p8) (entered b h' t slot pl s)))).
Proof.
  intros Hi Hp Hpl Ht Hl. pose proof (lookup_lt_Some _ _ _ Ht) as Hlt. unfold enter_pipe. rewrite (pick_one _ _ _ _ _ Hi Hp).
  destruct s as [[pool free] ipb ps pipe eg rg id h dp st]. cbn [ipb_ parser_ ingr_pipe_ txn_pool_ pool_ holder] in *. subst ipb ps pipe. split.
  - intros ->. cbn -[whole_pipe_lock aset pool_at pool_set]. unfold pool_at, pool_set. cbn [pool_]. rewrite (aget_some _ _ _ Ht). cbn [mbind outcome_bind].
    unfold manage_locks. cbn [holder]. rewrite Hl. cbn [upd_holder txn_pool_ pool_ ingr_pipe_ parser_]. rewrite (aset_lt pool) by done. cbn [mbind outcome_bind]. destruct r8; reflexivity.
  - intros -> ->. cbn -[whole_pipe_lock aset pool_at pool_set]. unfold pool_at, pool_set. cbn [pool_]. rewrite (aget_some _ _ _ Ht). cbn [mbind outcome_bind].
    unfold manage_locks. cbn [holder]. rewrite Hl. cbn [upd_holder txn_pool_ pool_ ingr_pipe_ parser_]. rewrite (aset_lt pool) by done. cbn [mbind outcome_bind]. destruct q; reflexivity.
Qed.

Lemma enter_none s q r8 o pl : ipb_ s = ports [] q r8 → parser_ s = ports None None None → ingr_pipe_ s = o :: pl → enter_pipe s = Ok (upd_pipe (None :: pl) s).
Proof. intros Hi Hp Hpl. unfold enter_pipe. rewrite (pick_one _ _ _ _ _ Hi Hp), Hpl. done. Qed.

(** *** The end of the pipeline *)

Lemma leave_at s slot t0 q r8 out eg : length (ingr_pipe_ s) = N_STAGES → last (ingr_pipe_ s) = Some (Some slot) → pool_ (txn_pool_ s) !! slot = Some t0 → port t0 = 0 →
  ipb_ s = ports [] q r8 → mock_egress_ s = out :: eg →
  match leave_txn t0 with
  | (t :: _, _) => ∃ st, leave_pipe s = Ok (upd_ipb (ports [] q (r8 ++ [slot])) (upd_stat st (upd_pool (MkPool (<[slot := t]> (pool_ (txn_pool_ s))) (free_list_ (txn_pool_ s))) s)))
  | ([], (b, t) :: _) => ∃ st, leave_pipe s = Ok (upd_egress ((out ++ [(b, slot)]) :: eg) (upd_stat st (upd_pool (MkPool (<[slot := t]> (pool_ (txn_pool_ s))) (free_list_ (txn_pool_ s))) s)))
  | _ => False
  end.
Proof.
  intros Hlen Hlast Ht Hport Hi He. pose proof (lookup_lt_Some _ _ _ Ht) as Hlt. unfold leave_pipe. rewrite last_lookup, Hlen in Hlast. change (pred N_STAGES) with (N_STAGES - 1)%nat in Hlast.
  rewrite (aget_some _ _ _ Hlast). cbn [mbind outcome_bind]. unfold pool_at. rewrite (aget_some _ _ _ Ht). cbn [mbind outcome_bind]. unfold pool_set. rewrite aset_lt by done. cbn [mbind outcome_bind].
  unfold leave_txn. set (t := if valid t0 then set_pass_ct (S (pass_ct t0)) t0 else t0). assert (port t = 0) as Hpt by (unfold t; by destruct (valid t0)).
  assert (∀ b st s1, mock_egress_ s1 = out :: eg → egress_push (port t) (b, slot) (upd_stat st s1) = Ok (upd_egress ((out ++ [(b, slot)]) :: eg) (upd_stat st s1))) as Hpush.
  { intros b st s1 He1. rewrite Hpt. destruct (egress_push_spec 0 (b, slot) out (upd_stat st s1)) as (s2 & HP & -> & _); [lia|cbn; by rewrite He1|]. rewrite HP. cbn. by rewrite He1. }
  cbv zeta. destruct (bool_decide (length (passes t) = pass_ct t)).
  { match goal with |- ∃ _, egress_push _ _ (upd_stat ?st (upd_stat _ ?s1)) = _ => exists st; exact (Hpush _ st s1 He) end. }
  destruct (bool_decide (pass_ct t = 0%nat) && (MAX_FAIL_CT <=? fail_ct t) && (locks_undo t =? 0)).
  { match goal with |- ∃ _, egress_push _ _ (upd_stat ?st ?s1) = _ => exists st; exact (Hpush _ st s1 He) end. }
  cbn [upd_stat upd_pool txn_pool_ pool_ free_list_]. rewrite aset_lt by (by rewrite length_insert). cbn [mbind outcome_bind]. rewrite list_insert_insert_eq.
  match goal with |- ∃ st, ipb_push _ _ ?x = _ => destruct (ipb_push_spec RECIRC_PORT slot r8 x) as (s2 & HP & -> & _); [cbn; by rewrite Hi|] end.
  exists (MkStats (num_cycles (stat s)) (num_txns (stat s)) (num_passes (stat s) + 1) (num_ops (stat s))). rewrite HP. cbn. by rewrite Hi.
Qed.

(** ** The slots and their packets *)

Definition sees (pool : list sw_txn_t) (slot : nat) (t : sw_txn_t) : Prop := pool !! slot = Some t.
Definition sees_out (pool : list sw_txn_t) (x : bool * nat) (y : bool * sw_txn_t) : Prop := x.1 = y.1 ∧ sees pool x.2 y.2.

(** The places of the lane, with the packets that have just come around apart. *)
Record places := MkPlaces { k_q : list nat; k_p : option nat; k_r : list nat; k_b : list nat; k_pipe : list (option nat); k_out : list (bool * nat) }.
Definition k_slots (k : places) : list nat := k_q k ++ option_list (k_p k) ++ k_r k ++ k_b k ++ omap id (k_pipe k) ++ (k_out k).*2.

Record holds (pool : list sw_txn_t) (k : places) (back : list sw_txn_t) (a : lane) : Prop := {
  ho_q : Forall2 (sees pool) (k_q k) (l_q a);
  ho_p : option_Forall2 (sees pool) (k_p k) (l_p a);
  ho_r : Forall2 (sees pool) (k_r k) (l_r a);
  ho_b : Forall2 (sees pool) (k_b k) back;
  ho_pipe : Forall2 (option_Forall2 (sees pool)) (k_pipe k) (l_pipe a);
  ho_out : Forall2 (sees_out pool) (k_out k) (l_out a);
}.

(** Every slot is at one place or free. *)
Definition account (k : places) (free : list nat) : Prop := NoDup (k_slots k ++ free) ∧ length (k_slots k ++ free) = POOL_SIZE.

Lemma account_perm k k' free free' : k_slots k ++ free ≡ₚ k_slots k' ++ free' → account k free → account k' free'.
Proof. unfold account. by intros ->. Qed.

Lemma sees_insert pool slot t x y : x ≠ slot → sees pool x y → sees (<[slot := t]> pool) x y.
Proof. intros Hne H. unfold sees. by rewrite list_lookup_insert_ne. Qed.

Lemma sees_list pool slot t l ts : slot ∉ l → Forall2 (sees pool) l ts → Forall2 (sees (<[slot := t]> pool)) l ts.
Proof. intros Hni H. induction H as [|x y l ts Hxy _ IH]; [done|]. apply not_elem_of_cons in Hni as [? ?]. constructor; [by apply sees_insert|by apply IH]. Qed.

Lemma sees_option pool slot t p u : slot ∉ option_list p → option_Forall2 (sees pool) p u → option_Forall2 (sees (<[slot := t]> pool)) p u.
Proof. intros Hni H. destruct H as [x y Hxy|]; constructor. apply sees_insert; [|done]. intros ->. apply Hni. by left. Qed.

Lemma sees_pipe pool slot t l ts : slot ∉ omap id l → Forall2 (option_Forall2 (sees pool)) l ts → Forall2 (option_Forall2 (sees (<[slot := t]> pool))) l ts.
Proof.
  intros Hni H. induction H as [|x y l ts Hxy _ IH]; [done|]. destruct x as [x|]; cbn in Hni; [apply not_elem_of_cons in Hni as [? Hni]|]; (constructor; [|by apply IH]).
  - inversion Hxy; subst. constructor. by apply sees_insert.
  - inversion Hxy; subst. constructor.
Qed.

Lemma sees_outs pool slot t l ts : slot ∉ l.*2 → Forall2 (sees_out pool) l ts → Forall2 (sees_out (<[slot := t]> pool)) l ts.
Proof.
  intros Hni H. induction H as [|x y l ts [Hb Hxy] _ IH]; [done|]. cbn in Hni. apply not_elem_of_cons in Hni as [? ?]. constructor; [|by apply IH]. split; [done|by apply sees_insert].
Qed.

(** A packet that is at none of the places changes. *)
Lemma holds_insert pool k back a slot t : slot ∉ k_slots k → holds pool k back a → holds (<[slot := t]> pool) k back a.
Proof.
  unfold k_slots. rewrite !not_elem_of_app. intros (H1 & H2 & H3 & H4 & H5 & H6) []. constructor; try done.
  - by apply sees_list. - by apply sees_option. - by apply sees_list. - by apply sees_list. - by apply sees_pipe. - by apply sees_outs.
Qed.

Lemma sees_new pool slot t : (slot < length pool)%nat → sees (<[slot := t]> pool) slot t.
Proof. intros H. by apply list_lookup_insert_eq. Qed.

(** ** The relation *)

Record shown (s : switch_t) (k : places) (h : option Z) : Prop := {
  sn_ipb : ipb_ s = ports [] (k_q k) (tail (k_r k) ++ k_b k);
  sn_parser : parser_ s = ports None (k_p k) (head (k_r k));
  sn_egress : mock_egress_ s = k_out k :: replicate (N_PORTS - 1) [];
  sn_holder : holder s = h;
  sn_account : account k (free_list_ (txn_pool_ s));
}.

Definition shows (s : switch_t) (a : lane) : Prop :=
  ∃ k, shown s k (l_h a) ∧ k_b k = [] ∧ ingr_pipe_ s = k_pipe k ∧ holds (pool_ (txn_pool_ s)) k [] a.

(** After the end of the pipeline: the stages without the last one, and what came
    around. *)
Definition leave_pl (pl : list (option sw_txn_t)) (out : list (bool * sw_txn_t)) (a : lane) : lane :=
  MkLane (l_q a) (l_p a) (l_r a) pl (l_out a ++ out) (l_h a).

Lemma leave_shows s a pl o0 back out : shows s a → lane_ok a → l_pipe a = pl ++ [o0] →
  match o0 with Some t0 => leave_txn t0 | None => ([], []) end = (back, out) →
  ∃ s2 k2, leave_pipe s = Ok s2 ∧ shown s2 k2 (l_h a) ∧ ingr_pipe_ s2 = ingr_pipe_ s ∧ k_pipe k2 = take (N_STAGES - 1) (ingr_pipe_ s)
    ∧ holds (pool_ (txn_pool_ s2)) k2 back (leave_pl pl out a).
Proof.
  intros (k & [Hi Hps He Hh Hacc] & Hb & Hpipe & [Hq Hp Hr _ Hpp Ho]) Hok Hpl Hl. pose proof (Forall2_length _ _ _ Hpp) as Hlen. rewrite (lk_len a Hok) in Hlen.
  rewrite Hpl in Hpp. apply Forall2_app_inv_r in Hpp as (kl & ks & Hkl & Hks & Ek). apply Forall2_cons_inv_r in Hks as (ko & ? & Hko & Hnil & ->). apply Forall2_nil_inv_r in Hnil as ->.
  assert (length kl = N_STAGES - 1)%nat as Hkl'. { rewrite Ek, length_app in Hlen. cbn in Hlen. lia. }
  assert (take (N_STAGES - 1) (ingr_pipe_ s) = kl) as Htake by (rewrite Hpipe, Ek; apply take_app_length'; lia). rewrite Hb, app_nil_r in Hi.
  destruct ko as [slot|]; inversion Hko as [? t0 Hsee|]; subst o0.
  2:{ injection Hl as <- <-. exists s, (MkPlaces (k_q k) (k_p k) (k_r k) [] kl (k_out k)). split.
      { unfold leave_pipe. rewrite (aget_some _ _ None); [done|]. rewrite Hpipe, Ek. apply list_lookup_middle. lia. }
      split; [|split; [done|split; [done|]]].
      - constructor; cbn; try done; [by rewrite app_nil_r|]. eapply account_perm; [|exact Hacc]. unfold k_slots. cbn. rewrite Hb, Ek, omap_app. cbn. by rewrite app_nil_r.
      - constructor; cbn; try done. by rewrite app_nil_r. }
  assert (alive t0) as Hal.
  { pose proof (lk_alive a Hok) as Hall. rewrite Forall_app in Hall. destruct Hall as [_ Hall]. unfold running in Hall. rewrite Hpl, omap_app in Hall. apply Forall_app in Hall as [_ Hall]. by apply Forall_inv in Hall. }
  pose proof (leave_at s slot t0 (k_q k) (tail (k_r k)) (k_out k) (replicate (N_PORTS - 1) [])) as Hat. rewrite Hl in Hat.
  rewrite leave_alive in Hl by done. cbv zeta in Hl. set (t := if valid t0 then set_pass_ct (S (pass_ct t0)) t0 else t0) in Hl.
  assert (slot ∉ k_q k ++ option_list (k_p k) ++ k_r k ++ omap id kl ++ (k_out k).*2) as Hni.
  { destruct Hacc as [Hnd _]. unfold k_slots in Hnd. rewrite Hb, Ek, omap_app in Hnd. cbn in Hnd.
    assert (NoDup (slot :: (k_q k ++ option_list (k_p k) ++ k_r k ++ omap id kl ++ (k_out k).*2) ++ free_list_ (txn_pool_ s))) as Hnd'.
    { refine (proj1 (NoDup_Permutation_proper _ _ _) Hnd). solve_Permutation. }
    apply NoDup_cons in Hnd' as [Hni _]. intros Hin. apply Hni, elem_of_app. by left. }
  pose proof (lookup_lt_Some _ _ _ Hsee) as Hslot. assert (last (ingr_pipe_ s) = Some (Some slot)) as Hlast by (by rewrite Hpipe, Ek, last_snoc).
  rewrite !not_elem_of_app in Hni. destruct Hni as (N1 & N2 & N3 & N4 & N5).
  case_bool_decide as Efin; injection Hl as <- <-; destruct Hat as (st & ->); try done; try apply Hal; try (by rewrite Hpipe, Hlen).
  - eexists _, (MkPlaces (k_q k) (k_p k) (k_r k) [] kl (k_out k ++ [(true, slot)])). split; [reflexivity|]. split; [|split; [done|split; [done|]]].
    + constructor; cbn; try done; [by rewrite app_nil_r|]. eapply account_perm; [|exact Hacc]. unfold k_slots. cbn. rewrite Hb, Ek, omap_app, fmap_app. cbn. solve_Permutation.
    + constructor; cbn; [by apply sees_list|by apply sees_option|by apply sees_list|done|by apply sees_pipe|].
      apply Forall2_app; [by apply sees_outs|]. constructor; [|done]. split; [done|]. by apply sees_new.
  - eexists _, (MkPlaces (k_q k) (k_p k) (k_r k) [slot] kl (k_out k)). split; [reflexivity|]. split; [|split; [done|split; [done|]]].
    + constructor; cbn; try done. eapply account_perm; [|exact Hacc]. unfold k_slots. cbn. rewrite Hb, Ek, omap_app. cbn. solve_Permutation.
    + constructor; cbn; [by apply sees_list|by apply sees_option|by apply sees_list|constructor; [by apply sees_new|done]|by apply sees_pipe|].
      rewrite app_nil_r. by apply sees_outs.
Qed.

Lemma fill_head {A} (l : list A) : fill_p (head l) (tail l) = head l ∧ fill_q (head l) (tail l) = tail l.
Proof. by destruct l. Qed.

Lemma sees_fill pool p q u l : option_Forall2 (sees pool) p u → Forall2 (sees pool) q l →
  option_Forall2 (sees pool) (fill_p p q) (fill_p u l) ∧ Forall2 (sees pool) (fill_q p q) (fill_q u l).
Proof. intros [x y H|] Hl; [by split; [constructor|]|]. destruct Hl; split; by try constructor. Qed.

(** The slots without those of the packets that wait in front of port 0. *)
Lemma fill_perm {A} (p : option A) q : fill_q p q ++ option_list (fill_p p q) ≡ₚ q ++ option_list p.
Proof. destruct p; [done|]. destruct q; [done|]. cbn. solve_Permutation. Qed.

(** A packet enters, and the parsers take the next ones. *)
Lemma enter_places s k back a x0 slot t b h' kr kq kp :
  shown s k (l_h a) → ingr_pipe_ s = x0 :: k_pipe k → pool_ (txn_pool_ s) !! slot = Some t → whole_pipe_lock t (l_h a) = (b, h') →
  holds (pool_ (txn_pool_ s)) (MkPlaces kq kp kr (k_b k) (k_pipe k) (k_out k)) back a →
  (k_r k = slot :: kr ∧ kq = k_q k ∧ kp = k_p k) ∨ (k_r k = [] ∧ kr = [] ∧ k_p k = Some slot ∧ kq = k_q k ∧ kp = None) →
  ∃ s4 s', enter_pipe s = Ok s4 ∧ ofold fill_parser (seq 0 (S N_PORT_GROUPS)) s4 = Ok s'
    ∧ shows s' (MkLane (fill_q (l_p a) (l_q a)) (fill_p (l_p a) (l_q a)) (l_r a ++ back) (Some (set_valid b t) :: l_pipe a) (l_out a) h').
Proof.
  intros [Hi Hps He Hh Hacc] Hpl Ht Hlock Hhold Hcase. rewrite <-Hh in Hlock. pose proof (lookup_lt_Some _ _ _ Ht) as Hslot.
  set (k' := MkPlaces (fill_q kp kq) (fill_p kp kq) (kr ++ k_b k) [] (Some slot :: k_pipe k) (k_out k)).
  assert (k_slots k' ≡ₚ k_slots k ∧ k_slots k ≡ₚ slot :: k_slots (MkPlaces kq kp kr (k_b k) (k_pipe k) (k_out k))) as [HP1 HP2].
  { assert (k_slots k ≡ₚ slot :: k_slots (MkPlaces kq kp kr (k_b k) (k_pipe k) (k_out k))) as HP.
    { unfold k_slots. cbn. destruct Hcase as [(-> & -> & ->)|(-> & -> & -> & -> & ->)]; cbn; solve_Permutation. }
    split; [|done]. rewrite HP. unfold k', k_slots. cbn. rewrite (app_assoc (fill_q kp kq)), (fill_perm kp kq). solve_Permutation. }
  assert (slot ∉ k_slots (MkPlaces kq kp kr (k_b k) (k_pipe k) (k_out k))) as Hni.
  { destruct Hacc as [Hnd _]. apply NoDup_app in Hnd as (Hnd & _). rewrite HP2 in Hnd. by apply NoDup_cons in Hnd as [? _]. }
  apply (holds_insert _ _ _ _ slot (set_valid b t) Hni) in Hhold as [Hq Hp Hr Hb Hpp Ho]. cbn [k_q k_p k_r k_b k_pipe k_out] in *.
  set (pool' := <[slot := set_valid b t]> (pool_ (txn_pool_ s))) in *.
  assert (holds pool' k' [] (MkLane (fill_q (l_p a) (l_q a)) (fill_p (l_p a) (l_q a)) (l_r a ++ back) (Some (set_valid b t) :: l_pipe a) (l_out a) h')) as Hholds.
  { destruct (sees_fill _ _ _ _ _ Hp Hq) as [Hp' Hq']. constructor; cbn; try done; [by apply Forall2_app|]. constructor; [constructor; by apply sees_new|done]. }
  assert (account k' (free_list_ (txn_pool_ s))) as Hacc' by (eapply account_perm; [|exact Hacc]; by rewrite HP1).
  destruct (enter_from s (k_q k) (k_p k) (tail (k_r k) ++ k_b k) (head (k_r k)) x0 (k_pipe k) slot t b h' Hi Hps Hpl Ht Hlock) as [H8 H0].
  destruct Hcase as [(Er & -> & ->)|(Er & -> & Ep & -> & ->)]; rewrite Er in H8, H0; cbn [head tail app] in H8, H0.
  - eexists _, _. split; [by apply H8|]. split; [apply fill_all; reflexivity|]. destruct (fill_head (kr ++ k_b k)) as [E1 E2].
    exists k'. split; [|split; [done|split; [done|exact Hholds]]]. constructor; cbn; try done; by rewrite ?E1, ?E2, ?app_nil_r.
  - eexists _, _. split; [by apply H0|]. split; [apply fill_all; reflexivity|]. destruct (fill_head (k_q k)) as [E1 E2].
    exists k'. split; [|split; [done|split; [done|exact Hholds]]]. constructor; cbn; try done; by rewrite ?E1, ?E2, ?app_nil_r.
Qed.

Lemma enter_shows s k back a x0 x q p r o h' : shown s k (l_h a) → ingr_pipe_ s = x0 :: k_pipe k → holds (pool_ (txn_pool_ s)) k back a →
  lane_pick a = (x, (q, p, r)) → lane_enter (l_h a) x = (o, h') → (∀ t, x = Some t → alive t ∧ held (l_h a) t) →
  ∃ s4 s', enter_pipe s = Ok s4 ∧ ofold fill_parser (seq 0 (S N_PORT_GROUPS)) s4 = Ok s'
    ∧ shows s' (MkLane q p (r ++ back) (o :: l_pipe a) (l_out a) h').
Proof.
  intros Hs Hpl [Hq Hp Hr Hb Hpp Ho] Hpick Hent Hlk. destruct a as [aq ap ar apl ao ah], k as [kq kp kr kb kpl ko]. unfold lane_pick in Hpick.
  cbn [l_q l_p l_r l_pipe l_out l_h k_q k_p k_r k_b k_pipe k_out] in *. destruct Hr as [|slot t kr ar Hst Hr].
  - destruct Hp as [slot t Hst|].
    + injection Hpick as <- <- <- <-. cbn [lane_enter] in Hent. destruct (Hlk t eq_refl) as [Hal Hhd].
      rewrite <-(lane_lock_eq t ah Hal Hhd) in Hent. destruct (whole_pipe_lock t ah) as [b h1] eqn:El. injection Hent as <- <-.
      apply (enter_places s (MkPlaces kq (Some slot) [] kb kpl ko) back (MkLane aq None [] apl ao ah) x0 slot t b h1 [] kq None); try done.
      * constructor; cbn; try done; constructor.
      * right. done.
    + injection Hpick as <- <- <- <-. injection Hent as <- <-. destruct Hs as [Hi Hps He Hh Hacc]. cbn [k_q k_p k_r k_b k_pipe k_out tail head app] in *.
      eexists _, _. split; [by apply (enter_none s kq kb x0 kpl)|]. split; [by apply fill_all|].
      exists (MkPlaces (tail kq) (head kq) kb [] (None :: kpl) ko). split; [|split; [done|split; [done|]]].
      * constructor; cbn; try done; [by rewrite app_nil_r|]. eapply account_perm; [|exact Hacc]. unfold k_slots. cbn. destruct kq; cbn; solve_Permutation.
      * destruct (sees_fill _ None kq None aq ltac:(constructor) Hq) as [H1 H2]. constructor; cbn; try done. constructor; [constructor|done].
  - assert (x = Some t ∧ q = fill_q ap aq ∧ p = fill_p ap aq ∧ r = ar) as (-> & -> & -> & ->) by (destruct ap; by injection Hpick as <- <- <- <-).
    cbn [lane_enter] in Hent. destruct (Hlk t eq_refl) as [Hal Hhd]. rewrite <-(lane_lock_eq t ah Hal Hhd) in Hent.
    destruct (whole_pipe_lock t ah) as [b h1] eqn:El. injection Hent as <- <-.
    apply (enter_places s (MkPlaces kq kp (slot :: kr) kb kpl ko) back (MkLane aq ap ar apl ao ah) x0 slot t b h1 kr kq kp); try done.
    left. done.
Qed.

Lemma shows_regs s a r d st : shows s a → shows (with_regs r d st s) a.
Proof. intros (k & [] & Hb & Hp & Hh). exists k. split; [by constructor|done]. Qed.

(** A cycle of the switch is a cycle of the lane. *)
Lemma cycle_shows s a s' : shows s a → lane_ok a → run_cycle s = Ok s' → shows s' (lane_cycle a).
Proof.
  intros Hs Hok H. destruct (lane_cycle_parts a Hok) as (x & q & p & r & o & h' & o0 & pl & back & out & H1 & H2 & H3 & H4).
  rewrite (cycle_eq a Hok x q p r o h' o0 pl back out H1 H2 H3 H4). pose proof Hs as (k & _ & _ & Hpipe & [_ _ _ _ Hpp _]).
  assert (length (ingr_pipe_ s) = N_STAGES) as Hlen by (rewrite Hpipe, (Forall2_length _ _ _ Hpp); apply Hok).
  destruct (run_cycle_inv s s' Hlen H) as (r1 & d1 & st1 & s2 & Hl & Hnext).
  destruct (leave_shows (with_regs r1 d1 st1 s) a pl o0 back out (shows_regs s a _ _ _ Hs) Hok H3 H4) as (s2' & k2 & Hl' & Hsh & Hp2 & Hk2 & Hh2). rewrite Hl in Hl'. injection Hl' as <-.
  destruct (Hnext Hp2) as (x0 & r3 & d3 & st3 & s4 & He & Hf).
  destruct (enter_shows (with_regs r3 d3 st3 (upd_pipe (x0 :: take (N_STAGES - 1) (ingr_pipe_ s)) s2)) k2 back (leave_pl pl out a) x0 x q p r o h') as (s4' & s5 & He' & Hf' & Hfin); try done.
  - destruct Hsh. by constructor.
  - cbn. by rewrite Hk2.
  - intros t ->. by destruct (parts a Hok (Some t) q p r o h' o0 pl back out H1 H2 H3 H4) as (_ & _ & _ & Hx & _); destruct (Hx t eq_refl) as (? & ? & _).
  - rewrite He in He'. injection He' as <-. rewrite Hf in Hf'. injection Hf' as <-. exact Hfin.
Qed.

(** ** Sending and receiving *)

Lemma shows_make : shows switch_make (MkLane [] None [] (replicate N_STAGES None) [] None) ∧ lane_ok (MkLane [] None [] (replicate N_STAGES None) [] None).
Proof.
  split.
  - exists (MkPlaces [] None [] [] (replicate N_STAGES None) []). split; [|split; [done|split; [done|]]].
    + constructor; try done. split; [|by rewrite length_app]. change (k_slots _) with (@nil nat). cbn [app free_list_ txn_pool_ switch_make mempool_make]. apply NoDup_seq.
    + constructor; cbn [k_q k_p k_r k_b k_pipe k_out l_q l_p l_r l_pipe l_out]; repeat constructor.
  - constructor; try done; cbn; try constructor; lia.
Qed.

(** The packets of the lane are few, so a slot is free. *)
Lemma shows_free s a : shows s a → lane_ok a → (length (l_q a) ≤ 400)%nat → (length (l_out a) ≤ 1)%nat → free_list_ (txn_pool_ s) ≠ [].
Proof.
  intros (k & [_ _ _ _ [_ Hroom]] & Hb & _ & [Hq Hp Hr _ Hpp Ho]) Hok Hlq Hlo E. rewrite E, app_nil_r in Hroom. unfold k_slots in Hroom.
  rewrite Hb, !length_app, length_fmap, (Forall2_length _ _ _ Hq), (Forall2_length _ _ _ Hr), (Forall2_length _ _ _ Ho) in Hroom. cbn [length] in Hroom.
  pose proof (omap_length_le (k_pipe k)) as H1. rewrite (Forall2_length _ _ _ Hpp), (lk_len a Hok) in H1. pose proof (lk_room a Hok) as H2.
  assert (length (option_list (k_p k)) ≤ 1)%nat by (destruct (k_p k); cbn; lia). assert (500 < POOL_SIZE)%nat as H3 by (apply Nat.ltb_lt; vm_compute; reflexivity).
  unfold N_STAGES in *. lia.
Qed.

Lemma send_shows adm s a t : Inv adm s → shows s a → port t = 0 → passes t ≠ [] → (length (l_q a) < IPB_SIZE)%nat → free_list_ (txn_pool_ s) ≠ [] →
  ∃ s', send t s = Ok (true, s') ∧ shows s' (lane_send (set_txn_id (incr_id s) t) a) ∧ incr_id s' = u64 (incr_id s + 1).
Proof.
  intros HI (k & [Hi Hps He Hh Hacc] & Hb & Hpipe & Hhold) Hport Hne Hlen Hfree. unfold send.
  rewrite bool_decide_true by (by destruct (passes t); [|cbn; lia]). cbn [assert mbind outcome_bind]. rewrite Hport. change (port_to_group 0) with 0.
  rewrite Hi, (zget_some _ 0 (k_q k)) by done. cbn [mbind outcome_bind]. rewrite (Forall2_length _ _ _ (ho_q _ _ _ _ Hhold)), bool_decide_true by done.
  unfold pool_alloc. destruct (free_list_ (txn_pool_ s)) as [|slot free] eqn:Ef; [done|]. cbn [mbind outcome_bind].
  assert (slot < length (pool_ (txn_pool_ s)))%nat as Hslot.
  { destruct HI as (_ & HS & _). apply (sl_out _ _ _ _ _ _ HS). unfold outs. rewrite Ef. apply elem_of_app. right. by left. }
  unfold pool_set. cbn [pool_ free_list_]. rewrite aset_lt by done. cbn [mbind outcome_bind].
  match goal with |- context [ipb_push ?g slot ?x] => destruct (ipb_push_spec g slot (k_q k) x) as (s' & HP & -> & _); [cbn; by rewrite Hi|]; rewrite HP end.
  cbn [mbind outcome_bind]. eexists. split; [reflexivity|]. split; [|done].
  exists (MkPlaces (k_q k ++ [slot]) (k_p k) (k_r k) [] (k_pipe k) (k_out k)).
  assert (slot ∉ k_slots k) as Hni.
  { destruct Hacc as [Hnd _]. apply NoDup_app in Hnd as (_ & Hd & _). intros Hin. apply (Hd slot Hin). by left. }
  split; [|split; [done|split; [done|]]].
  - constructor; cbn [upd_ipb upd_id upd_pool ipb_ parser_ mock_egress_ holder txn_pool_ free_list_ k_q k_p k_r k_b k_out]; try done.
    + rewrite Hi, Hb. done.
    + eapply account_perm; [|exact Hacc]. unfold k_slots. cbn. rewrite Hb. cbn. solve_Permutation.
  - apply (holds_insert _ _ _ _ slot (set_txn_id (incr_id s) t) Hni) in Hhold as [Hq Hp Hr _ Hpp Ho].
    constructor; cbn; try done. apply Forall2_app; [done|]. constructor; [by apply sees_new|done].
Qed.

Lemma recv_shows s a : shows s a →
  match l_out a with
  | [] => recv 0 s = Ok (None, s)
  | x :: _ => ∃ s', recv 0 s = Ok (Some (x.1, txn_id x.2), s') ∧ shows s' (lane_take a) ∧ incr_id s' = incr_id s
  end.
Proof.
  intros (k & [Hi Hps He Hh Hacc] & Hb & Hpipe & [Hq Hp Hr _ Hpp Ho]). unfold recv. rewrite He, (zget_some _ 0 (k_out k)) by done. cbn [mbind outcome_bind].
  destruct a as [aq ap ar apl ao ah], k as [kq kp kr kb kpl ko]. cbn [l_q l_p l_r l_pipe l_out l_h k_q k_p k_r k_b k_pipe k_out] in *.
  destruct Ho as [|[b slot] [b' t] ko ao [Hbb Hst] Ho]; [done|]. cbn in Hbb, Hst. subst b'. unfold pool_at. rewrite (aget_some _ _ _ Hst). cbn [mbind outcome_bind].
  eexists. split; [reflexivity|]. split; [|done].
  exists (MkPlaces kq kp kr [] kpl ko). split; [|split; [done|split; [done|by constructor]]]. constructor; cbn; try done; [by rewrite Hi, Hb|].
  eapply account_perm; [|exact Hacc]. unfold k_slots. cbn. rewrite Hb. solve_Permutation.
Qed.

(** A cycle gives no new numbers. *)
Lemma ipb_to_parser_id i s s' : ipb_to_parser i s = Ok s' → incr_id s' = incr_id s.
Proof. unfold ipb_to_parser. intros H. minv. destruct r; minv; done. Qed.

Lemma leave_pipe_id s s' : leave_pipe s = Ok s' → incr_id s' = incr_id s.
Proof.
  unfold leave_pipe. intros H. minv. destruct r as [slot|]; [|by simplify_eq]. minv.
  unfold egress_push, ipb_push in H. repeat case_match; minv; done.
Qed.

Lemma run_cycle_id s s' : run_cycle s = Ok s' → incr_id s' = incr_id s.
Proof.
  intros H. unfold run_cycle in H. minv. apply run_reg_ops_inv in E as (r1' & d1 & st1 & ->). apply leave_pipe_id in E0. 
  assert (∀ n s s', ofold shift_stage (rev (seq 1 n)) s = Ok s' → incr_id s' = incr_id s) as Hs.
  { intros n x y. apply (ofold_inv (λ _ b, incr_id b = incr_id x)); [done|]. intros pre i post b1 b2 _ Hb Hst. unfold shift_stage in Hst. minv.
    apply run_reg_ops_inv in E as (? & ? & ? & ->). done. }
  apply Hs in E1. assert (incr_id r2 = incr_id r1) as E3.
  { unfold enter_pipe in E2. destruct (pick_parser r1); minv; [|done]. match type of E2 with match ?o with _ => _ end = _ => destruct o end; [|done]. minv.
    destruct (manage_locks _ r1) as [b s1] eqn:El. minv. apply ipb_to_parser_id in E2. rewrite E2. cbn. unfold manage_locks in El. destruct (whole_pipe_lock _ _). by injection El as <- <-. }
  assert (incr_id s' = incr_id r2) as E4.
  { revert H. apply (ofold_inv (λ _ b, incr_id b = incr_id r2)); [done|]. intros pre i post b1 b2 _ Hb Hst. unfold fill_parser in Hst. minv.
    match type of Hst with match ?o with _ => _ end = _ => destruct o end; minv; [done|]. apply ipb_to_parser_id in Hst. by rewrite Hst. }
  rewrite E4, E3, E1, E0. done.
Qed.

(** ** The simulation *)

(** What may be sent through the port. *)
Definition for_port (t : sw_txn_t) : Prop := txn_wf t ∧ port t = 0 ∧ pass_ct t = 0%nat ∧ fail_ct t < MAX_FAIL_CT ∧ passes t ≠ [].

(** A switch that has been driven, and the lane it shows. *)
Record simulates (s : switch_t) (a : lane) : Prop := {
  si_reach : rtc sim_step switch_make s;
  si_shows : shows s a;
  si_ok : lane_ok a;
  si_fresh : ∀ i, i ∈ txn_id <$> waiting a ++ running a → i < incr_id s;
}.

(** The slots in use are those of the lane's packets. *)
Lemma shows_total s a : shows s a → (total a + length (free_list_ (txn_pool_ s)) = POOL_SIZE)%nat.
Proof.
  intros (k & [_ _ _ _ [_ Hlen]] & Hb & _ & [Hq Hp Hr _ Hpp Ho]). rewrite <-Hlen, length_app. f_equal. unfold total, waiting, running, k_slots. rewrite Hb.
  rewrite !length_app, length_fmap, (Forall2_length _ _ _ Hq), (Forall2_length _ _ _ Hr), (Forall2_length _ _ _ Ho).
  assert (length (option_list (k_p k)) = length (option_list (l_p a))) as -> by (by destruct Hp).
  assert (length (omap id (k_pipe k)) = length (omap id (l_pipe a))) as ->; [|cbn; lia].
  clear -Hpp. induction Hpp as [|x y l l' Hxy _ IH]; [done|]. destruct Hxy; cbn; by rewrite IH.
Qed.

Lemma cycle_simulates s a : simulates s a → ∃ s', run_cycle s = Ok s' ∧ simulates s' (lane_cycle a).
Proof.
  intros [Hre Hsh Hok Hfr]. destruct (reachable_Inv s Hre) as [adm HI]. destruct (run_cycle_spec adm s HI) as (s' & H & _). exists s'. split; [done|].
  destruct (lane_cycle_spec a Hok) as (Hok' & _ & _ & _ & _ & Hsub & _). constructor; [|by eapply cycle_shows|done|].
  - eapply rtc_r; [exact Hre|by apply sim_cycle].
  - intros i Hi. rewrite (run_cycle_id _ _ H). apply Hfr. by eapply elem_of_submseteq.
Qed.

Lemma send_simulates s a t : simulates s a → for_port t → incr_id s < 2 ^ 64 - 1 → (length (l_q a) < IPB_SIZE)%nat → (total a < POOL_SIZE)%nat →
  ∃ s', send t s = Ok (true, s') ∧ simulates s' (lane_send (set_txn_id (incr_id s) t) a).
Proof.
  intros [Hre Hsh Hok Hfr] (Hwf & Hport & Hpc & Hfail & Hne) Hid Hq Ht. destruct (reachable_Inv s Hre) as [adm HI]. pose proof (shows_total _ _ Hsh) as Htot.
  destruct (send_shows adm s a t HI Hsh Hport Hne Hq) as (s' & Hsend & Hsh' & Hid'); [destruct (free_list_ (txn_pool_ s)); [cbn in Htot; lia|done]|].
  exists s'. split; [done|]. set (t' := set_txn_id (incr_id s) t) in *. pose proof (sh_id _ (proj1 HI)) as Hpos.
  assert (u64 (incr_id s + 1) = incr_id s + 1) as Hu by (apply wrap_small; lia).
  destruct (lane_send_spec t' a Hok) as (Hok' & _); [|done|intros Hin; apply Hfr in Hin; unfold t' in Hin; cbn in Hin; lia|].
  { split_and!; [done..|]. unfold t'. cbn. rewrite Hpc. destruct (passes t); [done|cbn; lia]. }
  constructor; [|done|done|].
  - eapply rtc_r; [exact Hre|]. by apply (sim_send _ t true s').
  - assert (waiting (lane_send t' a) ≡ₚ t' :: waiting a) as Hw by (unfold waiting, lane_send; cbn [l_q l_p l_r]; solve_Permutation).
    intros i. rewrite Hid', Hu, Hw. cbn [app fmap list_fmap]. intros [->|Hin]%elem_of_cons; [unfold t'; cbn; lia|]. apply Hfr in Hin. lia.
Qed.

Lemma recv_simulates s a x l : simulates s a → l_out a = x :: l → ∃ s', recv 0 s = Ok (Some (x.1, txn_id x.2), s') ∧ simulates s' (lane_take a).
Proof.
  intros [Hre Hsh Hok Hfr] E. pose proof (recv_shows s a Hsh) as H. rewrite E in H. destruct H as (s' & H & Hsh' & Hid). exists s'. split; [done|].
  destruct (lane_take_spec x l a Hok E) as (_ & Hok' & _). constructor; [|done|done|by rewrite Hid].
  eapply rtc_r; [exact Hre|by eapply sim_recv].
Qed.

Notation empty_lane := (MkLane [] None [] (replicate N_STAGES None) [] None).

Lemma simulates_start : simulates switch_make empty_lane.
Proof. destruct shows_make as [Hs Hok]. constructor; [done|done|done|]. by intros i ?%not_elem_of_nil. Qed.

(** C21: seen through one port, the simulated switch refines the lane, whose lock
    admits a packet when no other transaction holds the pipeline and then holds
    it exactly while a pass is left.  The new switch simulates the empty lane, and
    every operation on a switch that simulates a lane leads to one that simulates
    the lane after the same operation: [run_cycle] always succeeds and is a cycle
    of the lane; [send] of a fresh transaction for the port adds it, with its
    number, to the lane's queue when the queue has fewer than [IPB_SIZE] packets
    and the lane fewer than [POOL_SIZE], is refused without a change when the
    queue is full, and is an assertion failure when only the pool is; [recv]
    gives the first result of the lane and removes it, or nothing. *)
Theorem switch_refines_lane :
  simulates switch_make empty_lane
  ∧ ∀ s a, simulates s a →
    (∃ s', run_cycle s = Ok s' ∧ simulates s' (lane_cycle a))
    ∧ (∀ t, for_port t → incr_id s < 2 ^ 64 - 1 →
         if decide (length (l_q a) < IPB_SIZE)%nat then
           if decide (total a < POOL_SIZE)%nat then ∃ s', send t s = Ok (true, s') ∧ simulates s' (lane_send (set_txn_id (incr_id s) t) a)
           else send t s = Fail AssertFailed
         else send t s = Ok (false, s))
    ∧ match l_out a with
      | [] => recv 0 s = Ok (None, s)
      | x :: _ => ∃ s', recv 0 s = Ok (Some (x.1, txn_id x.2), s') ∧ simulates s' (lane_take a)
      end.
Proof.
  split; [apply simulates_start|]. intros s a Hsim. split; [by apply cycle_simulates|]. split.
  - intros t Ht Hid. case_decide as Hq; [case_decide as Hp|]; [by apply send_simulates|..]; pose proof (si_shows _ _ Hsim) as Hsh;
      pose proof (shows_total _ _ Hsh) as Htot; destruct Hsh as (k & [Hi _ _ _ _] & _ & _ & Hhold); destruct Ht as (_ & Hport & _ & _ & Hne);
      unfold send; rewrite bool_decide_true by (by destruct (passes t); [|cbn; lia]); cbn [assert mbind outcome_bind];
      rewrite Hport; change (port_to_group 0) with 0; rewrite Hi, (zget_some _ 0 (k_q k)) by done; cbn [mbind outcome_bind];
      rewrite (Forall2_length _ _ _ (ho_q _ _ _ _ Hhold)).
    + rewrite bool_decide_true by done. unfold pool_alloc. by destruct (free_list_ (txn_pool_ s)) as [|? ?]; [|cbn in Htot; lia].
    + by rewrite bool_decide_false.
  - destruct (l_out a) as [|x l] eqn:E; [|by eapply recv_simulates].
    pose proof (recv_shows s a (si_shows _ _ Hsim)) as H. by rewrite E in H.
Qed.

(** A transaction of two passes is sent, goes through the pipeline twice and is
    received; in between the lane is held. *)
Fixpoint lane_cycles (n : nat) (a : lane) : lane := match n with O => a | S n => lane_cycles n (lane_cycle a) end.

Lemma switch_refines_lane_witness :
  ∃ s1 s2 s3, send demo_a switch_make = Ok (true, s1) ∧ ofold (λ s _, run_cycle s) (seq 0 40) s1 = Ok s2
    ∧ simulates s2 (lane_cycles 40 (lane_send (set_txn_id 1 demo_a) empty_lane))
    ∧ recv 0 s2 = Ok (Some (true, 1), s3)
    ∧ l_h (lane_cycles 10 (lane_send (set_txn_id 1 demo_a) empty_lane)) = Some 1.
Proof.
  destruct switch_refines_lane as [H0 H]. destruct (H _ _ H0) as (_ & Hsend & _).
  destruct (Hsend demo_a) as (s1 & Hs1 & Hsim1); [|reflexivity|].
  { split; [apply one_op_wf; repeat constructor; cbn; lia|]. repeat split; discriminate. }
  assert (∀ n k s a, simulates s a → ∃ s', ofold (λ s _, run_cycle s) (seq k n) s = Ok s' ∧ simulates s' (lane_cycles n a)) as Hn.
  { induction n as [|n IH]; intros k s a Hsim; [exists s; split; [reflexivity|exact Hsim]|]. destruct (H s a Hsim) as ((s' & Hc & Hsim') & _).
    destruct (IH (S k) s' _ Hsim') as (s'' & Hc' & Hsim''). exists s''. split; [cbn; rewrite Hc; exact Hc'|exact Hsim'']. }
  destruct (Hn 40%nat 0%nat s1 _ Hsim1) as (s2 & Hs2 & Hsim2). destruct (H _ _ Hsim2) as (_ & _ & Hrecv).
  change (incr_id switch_make) with 1 in *.
  assert (∃ t, l_out (lane_cycles 40 (lane_send (set_txn_id 1 demo_a) empty_lane)) = [(true, t)] ∧ txn_id t = 1) as (t & Ho & Ht)
    by (eexists; split; vm_compute; reflexivity).
  rewrite Ho in Hrecv. destruct Hrecv as (s3 & Hs3 & _). cbn [fst snd] in Hs3. rewrite Ht in Hs3.
  exists s1, s2, s3. split; [exact Hs1|]. split; [exact Hs2|]. split; [exact Hsim2|]. split; [exact Hs3|]. vm_compute. reflexivity.
Defined.
