(* ===== verification/SimTests.v ===== *)
(** * The test programs of the simulator

    [mine/fast_layout/system_test.cpp], [cc_system_test.cpp] and
    [nobatch_system_test.cpp] drive the simulated switch: they offer their
    transactions at port 0, at most one per cycle and only while the buffer is
    not almost full, run a cycle and take a result, until all transactions have
    come back.  All of them do, and the programs end. *)
From stdpp Require Import base tactics list numbers gmap strings relations.
From Stdlib Require Import ZArith Lia Ascii SpecFloat.
From S2P Require Import Prelude IntLog Loader SimLayout SimLocks SimSwitch SimSerial SimRun Batching Workloads ProdTrace SimDrain SimLane.

#[local] Open Scope Z_scope.

(** ** The programs *)

Definition PORT : Z := 0.
(** The double nearest to [0.8]. *)
Definition BACKOFF_THR : spec_float := SFdiv 53 1024 (dbl 8) (dbl 10).

(** [switch_t::ipb_almost_full]. *)
Definition ipb_almost_full (prt : Z) (thr : spec_float) (s : switch_t) : outcome bool :=
  q ← zget (ipb_ s) (port_to_group prt);
  Ok (match SFcompare (dbl (Z.of_nat (length q))) (dbl_mul (dbl (Z.of_nat IPB_SIZE)) thr) with Some Gt | Some Eq => true | _ => false end).

(** The variables of the loop. *)
Record drive := MkDrive { p4_switch : switch_t; received : nat; cycle : nat; p_batch : nat; rejected : nat }.
Definition drive_start : drive := MkDrive switch_make 0 0 0 0.

Section Drive.
(** How many transactions there are, and how the [i]-th is made. *)
Variable n_txns : nat.
Variable make : nat → outcome sw_txn_t.

Definition offer (d : drive) : outcome drive :=
  if bool_decide (p_batch d < n_txns)%nat then
    full ← ipb_almost_full PORT BACKOFF_THR (p4_switch d);
    if full : bool then Ok d
    else
      sw_txn ← make (p_batch d);
      '(sent, s) ← send sw_txn (p4_switch d);
      assert sent;;
      Ok (MkDrive s (received d) (cycle d) (S (p_batch d)) (rejected d))
  else Ok d.

Definition turn (d : drive) : outcome drive :=
  d1 ← offer d;
  s2 ← run_cycle (p4_switch d1);
  '(res, s3) ← recv 0 s2;
  match res with
  | None => Ok (MkDrive s3 (received d1) (cycle d1) (p_batch d1) (rejected d1))
  | Some (ok, _) => Ok (MkDrive s3 (S (received d1)) (cycle d1) (p_batch d1) (if ok : bool then rejected d1 else S (rejected d1)))
  end.

(** The loop [while (1)]; nobatch_system_test gives up after [limit] cycles. *)
Fixpoint drive_loop (limit : option nat) (fuel : nat) (d : drive) : outcome drive :=
  match fuel with
  | O => Fail Spins
  | S fuel' =>
      d' ← turn d;
      if bool_decide (received d' = n_txns) then Ok d'
      else
        let d2 := MkDrive (p4_switch d') (received d') (S (cycle d')) (p_batch d') (rejected d') in
        if match limit with Some l => bool_decide (l < cycle d2)%nat | None => false end then Ok d2 else drive_loop limit fuel' d2
  end.
End Drive.

(** [system_test]: the transactions are made one at a time. *)
Definition system_test (rnd : nat → Z) (fuel : nat) (files : string → option (list ascii)) (cycles : nat) : outcome drive :=
  iter ← get_batch_iter rnd fuel files INSTACART;
  let batch := (next_batch iter).1 in
  let layout := layout_make batch in
  drive_loop (length batch) (λ p, txn ← aget batch p; sw_txn_make PORT layout txn) None cycles drive_start.

(** The other two prepare all transactions first. *)
Definition prepared_txns (rnd : nat → Z) (fuel : nat) (files : string → option (list ascii)) (wtype : workload_e) : outcome (list sw_txn_t) :=
  iter ← get_batch_iter rnd fuel files wtype;
  all_txns ← all_batches 2 iter [];
  prepare_txns_sw 0 all_txns (layout_make all_txns).

Definition cc_system_test (rnd : nat → Z) (fuel : nat) (files : string → option (list ascii)) (cycles : nat) : outcome drive :=
  sw_txns ← prepared_txns rnd fuel files SYN_HOT_8;
  drive_loop (length sw_txns) (aget sw_txns) None cycles drive_start.

Definition nobatch_system_test (rnd : nat → Z) (fuel : nat) (files : string → option (list ascii)) (cycles : nat) : outcome drive :=
  sw_txns ← prepared_txns rnd fuel files YCSB_99_16;
  drive_loop (length sw_txns) (aget sw_txns) (Some (Z.to_nat 400000)) cycles drive_start.

(** ** A turn *)

Lemma almost_full_spec s q r8 : ipb_ s = ports [] q r8 → (length q ≤ 400)%nat → ipb_almost_full PORT BACKOFF_THR s = Ok (bool_decide (length q = 400%nat)).
Proof.
  intros Hi Hq. unfold ipb_almost_full. change (port_to_group PORT) with 0. rewrite Hi, (zget_some _ 0 q) by done. cbn [mbind outcome_bind]. f_equal.
  assert (forallb (λ n, Bool.eqb (match SFcompare (dbl (Z.of_nat n)) (dbl_mul (dbl (Z.of_nat IPB_SIZE)) BACKOFF_THR) with Some Gt | Some Eq => true | _ => false end) (Nat.eqb n 400)) (seq 0 401) = true) as H
    by (vm_compute; reflexivity).
  rewrite forallb_forall in H. specialize (H (length q) ltac:(apply in_seq; lia)). apply eqb_prop in H. rewrite H.
  destruct (Nat.eqb_spec (length q) 400); [by rewrite bool_decide_true|by rewrite bool_decide_false].
Qed.

(** A transaction as the programs send it. *)
Definition ready (t : sw_txn_t) : Prop := txn_wf t ∧ port t = 0 ∧ pass_ct t = 0%nat ∧ fail_ct t < MAX_FAIL_CT ∧ passes t ≠ [].

Section drain.
Context (sw : list sw_txn_t) (make : nat → outcome sw_txn_t).
Hypothesis Hsw : Forall ready sw.
Hypothesis Hmake : ∀ i t, sw !! i = Some t → make i = Ok t.
Hypothesis Hids : Z.of_nat (length sw) < 2 ^ 64 - 2.

(** The state between two turns. *)
Record driving (d : drive) (a : lane) : Prop := {
  dr_reach : rtc sim_step switch_make (p4_switch d);
  dr_shows : shows (p4_switch d) a;
  dr_ok : lane_ok a;
  dr_out : l_out a = [];
  dr_q : (length (l_q a) ≤ 400)%nat;
  dr_id : incr_id (p4_switch d) = 1 + Z.of_nat (p_batch d);
  dr_fresh : ∀ i, i ∈ txn_id <$> waiting a ++ running a → i < incr_id (p4_switch d);
  dr_batch : (p_batch d ≤ length sw)%nat;
  dr_count : (received d + total a + (length sw - p_batch d) = length sw)%nat;
  dr_rejected : rejected d = 0%nat;
}.

(** The work that is left: of the transactions not yet sent and of the others. *)
Definition work_of (t : sw_txn_t) : nat := S (length (passes t)).
Definition left_work (d : drive) (a : lane) : nat := sum_list_with work_of (drop (p_batch d) sw) + work a.

Lemma offer_spec d a : driving d a → (l_p a = None → l_q a = []) →
  ∃ d' a', offer (length sw) make d = Ok d' ∧ driving d' a' ∧ received d' = received d ∧ cycle d' = cycle d ∧ left_work d' a' = left_work d a
    ∧ (∀ j, near a j → near a' j) ∧ (l_p a' = None → (p_batch d' < length sw)%nat → l_q a' ≠ []).
Proof.
  intros [Hre Hsh Hok Hout Hq Hid Hfr Hb Hc Hr] Hfill. unfold offer. case_bool_decide as Hlt.
  2:{ exists d, a. split_and!; try done. }
  pose proof Hsh as (k & [Hi _ _ _ _] & _ & _ & Hhold). pose proof (Forall2_length _ _ _ (ho_q _ _ _ _ Hhold)) as Hkq.
  rewrite (almost_full_spec _ _ _ Hi) by lia. cbn [mbind outcome_bind]. rewrite Hkq. case_bool_decide as Hfull.
  { exists d, a. split_and!; try done. intros _ _ E. rewrite E in Hfull. done. }
  destruct (lookup_lt_is_Some_2 sw (p_batch d) Hlt) as [t Ht]. rewrite (Hmake _ _ Ht). cbn [mbind outcome_bind].
  destruct (proj1 (Forall_lookup _ _) Hsw _ _ Ht) as (Hwf & Hport & Hpc & Hfail & Hne). destruct (reachable_Inv _ Hre) as [adm HI].
  destruct (send_shows adm (p4_switch d) a t HI Hsh Hport Hne) as (s' & Hsend & Hsh' & Hid'); [unfold IPB_SIZE; lia|apply (shows_free _ a); try done; rewrite Hout; cbn; lia|].
  rewrite Hsend. cbn [mbind outcome_bind assert]. assert (u64 (incr_id (p4_switch d) + 1) = incr_id (p4_switch d) + 1) as Hu by (apply wrap_small; lia).
  set (t' := set_txn_id (incr_id (p4_switch d)) t) in *.
  destruct (lane_send_spec t' a Hok) as (Hok' & Hw & Hnear).
  { split; [done|]. split; [done|]. unfold t'. cbn. rewrite Hpc. destruct (passes t); [done|cbn; lia]. } { done. } { intros Hin. apply Hfr in Hin. unfold t' in Hin. cbn in Hin. lia. }
  assert (waiting (lane_send t' a) ≡ₚ t' :: waiting a) as Hwp by (unfold waiting, lane_send; cbn [l_q l_p l_r]; solve_Permutation).
  eexists _, (lane_send t' a). split; [reflexivity|]. split; [|split_and!; try done].
  - constructor; cbn [p4_switch received cycle p_batch rejected]; try done.
    + eapply rtc_r; [exact Hre|]. apply (sim_send _ t true s' Hwf Hpc); [lia|exact Hsend].
    + cbn. rewrite length_app. cbn. lia.
    + rewrite Hid', Hu. lia.
    + rewrite Hid', Hu. intros i. rewrite Hwp. cbn [app fmap list_fmap]. intros [->|Hin]%elem_of_cons; [unfold t'; cbn; lia|]. apply Hfr in Hin. lia.
    + unfold total in *. rewrite Hwp. cbn [length]. change (running (lane_send t' a)) with (running a). change (l_out (lane_send t' a)) with (l_out a). lia.
  - unfold left_work. cbn [p_batch]. rewrite Hw, (drop_S _ _ _ Ht). cbn [sum_list_with]. unfold work_of at 2. change (passes t') with (passes t). lia.
  - intros _ _. cbn. by destruct (l_q a).
Qed.

Lemma turn_spec d a j : driving d a → (l_p a = None → l_q a = []) → near a j → (j < 60)%nat →
  ∃ d' a', turn (length sw) make d = Ok d' ∧ driving d' a' ∧ (l_p a' = None → l_q a' = []) ∧ cycle d' = cycle d
    ∧ (received d' = length sw ∨ ∃ j', near a' j' ∧ (j' < 60)%nat ∧ ((left_work d' a' < left_work d a)%nat ∨ left_work d' a' = left_work d a ∧ (j' < j)%nat)).
Proof.
  intros Hd Hfill Hj Hj60. unfold turn. destruct (offer_spec d a Hd Hfill) as (d1 & a1 & -> & Hd1 & Hrc & Hcy & Hlw & Hn & Hq1). cbn [mbind outcome_bind]. apply Hn in Hj.
  destruct Hd1 as [Hre Hsh Hok Hout Hq Hid Hfr Hb Hc Hr]. destruct (reachable_Inv _ Hre) as [adm HI]. destruct (run_cycle_spec adm _ HI) as (s2 & Hcyc & _).
  rewrite Hcyc. cbn [mbind outcome_bind]. pose proof (cycle_shows _ _ _ Hsh Hok Hcyc) as Hsh2. pose proof (run_cycle_id _ _ Hcyc) as Hid2.
  destruct (lane_cycle_spec a1 Hok) as (Hok2 & Hw2 & Hf2 & Ho2 & Hl2 & Hs2 & Ht2 & Hprog). specialize (Hprog j Hj Hout). set (a2 := lane_cycle a1) in *. rewrite Hout in Ho2. cbn in Ho2.
  assert (rtc sim_step switch_make s2) as Hre2 by (eapply rtc_r; [exact Hre|by apply sim_cycle]).
  assert (∀ i, i ∈ txn_id <$> waiting a2 ++ running a2 → i < incr_id s2) as Hfr2.
  { intros i Hi. rewrite Hid2. apply Hfr. by eapply elem_of_submseteq. }
  pose proof (recv_shows _ _ Hsh2) as Hrecv. destruct (l_out a2) as [|x l] eqn:Eo.
  - rewrite Hrecv. cbn [mbind outcome_bind]. eexists _, a2. split; [reflexivity|]. split; [|split; [done|split; [done|]]].
    { constructor; cbn [p4_switch received cycle p_batch rejected]; try done; [lia|by rewrite Hid2|lia]. }
    cbn [received]. unfold left_work. cbn [p_batch]. fold (left_work d1 a2). destruct (near_some a2 Hok2) as (j0 & Hj0 & Hlt0).
    destruct Hprog as [H|[H|[(j' & Hj' & H)|[H1 H2]]]]; [right|done|right|left].
    + exists j0. split; [done|]. split; [done|]. left. unfold left_work in *. lia.
    + destruct (decide (work a2 = work a1)) as [Ew|Ew].
      * exists j'. split; [done|]. split; [lia|]. right. unfold left_work in *. lia.
      * exists j0. split; [done|]. split; [done|]. left. unfold left_work in *. lia.
    + assert (total a2 = 0%nat) as Ht by (unfold total; by rewrite H1, H2, Eo).
      assert (waiting a1 = []) as Hw1 by (apply nil_length_inv; unfold total in *; lia). unfold waiting in Hw1. apply app_eq_nil in Hw1 as [Eq Hw1]. apply app_eq_nil in Hw1 as [Ep _].
      assert (¬ (p_batch d1 < length sw)%nat) as Hnb by (intros Hlt; apply Hq1; [by destruct (l_p a1)|done|done]). lia.
  - destruct Hrecv as (s3 & Hrecv & Hsh3 & Hid3). rewrite Hrecv. cbn [mbind outcome_bind]. destruct (lane_take_spec x l a2 Hok2 Eo) as (Hx & Hok3 & Hw3 & _).
    rewrite Hx. cbn in Ho2. assert (l = []) as -> by (apply nil_length_inv; lia). eexists _, (lane_take a2). split; [reflexivity|].
    split; [|split; [done|split; [done|right]]].
    + constructor; cbn [p4_switch received cycle p_batch rejected]; try done.
      * eapply rtc_r; [exact Hre2|]. by eapply sim_recv.
      * cbn. by rewrite Eo.
      * cbn. lia.
      * rewrite Hid3, Hid2. done.
      * by rewrite Hid3.
      * unfold total in *. change (waiting (lane_take a2)) with (waiting a2). change (running (lane_take a2)) with (running a2). cbn. rewrite Eo in *. cbn in *. lia.
    + destruct (near_some _ Hok3) as (j0 & Hj0 & Hlt0). exists j0. split; [done|]. split; [done|]. left. unfold left_work in *. cbn [p_batch]. lia.
Qed.

Lemma drive_ends limit m : ∀ d a j, driving d a → (l_p a = None → l_q a = []) → near a j → (j < 60)%nat → (64 * left_work d a + j < m)%nat →
  match limit with Some l => (cycle d + m ≤ l)%nat | None => True end → ∀ fuel, (m ≤ fuel)%nat →
  ∃ d', drive_loop (length sw) make limit fuel d = Ok d' ∧ received d' = length sw ∧ rejected d' = 0%nat ∧ (cycle d' ≤ cycle d + m)%nat
    ∧ rtc sim_step switch_make (p4_switch d').
Proof.
  induction m as [|m IH]; intros d a j Hd Hfill Hj Hj60 Hm Hlim fuel Hfuel; [lia|]. destruct fuel as [|fuel]; [lia|]. cbn [drive_loop].
  destruct (turn_spec d a j Hd Hfill Hj Hj60) as (d' & a' & -> & Hd' & Hfill' & Hcy & Hprog). cbn [mbind outcome_bind]. case_bool_decide as Hrec.
  { exists d'. split; [done|]. split; [done|]. split; [apply Hd'|]. split; [lia|apply Hd']. }
  destruct Hprog as [?|(j' & Hj' & Hlt' & Hprog)]; [done|].
  set (d2 := MkDrive (p4_switch d') (received d') (S (cycle d')) (p_batch d') (rejected d')).
  assert (driving d2 a') as Hd2 by (by destruct Hd'; constructor). assert (left_work d2 a' = left_work d' a') as Hw by done.
  assert (match limit with Some l => bool_decide (l < cycle d2)%nat | None => false end = false) as ->.
  { destruct limit; [|done]. apply bool_decide_false. cbn. lia. }
  destruct (IH d2 a' j' Hd2 Hfill' Hj' Hlt') with (fuel := fuel) as (d3 & Hloop & H1 & H2 & H3 & H4); [lia| |lia|].
  { destruct limit; [|done]. cbn. lia. }
  exists d3. split; [done|]. split; [done|]. split; [done|]. split; [|done]. cbn in H3. lia.
Qed.

(** The number of turns that is enough. *)
Definition enough : nat := 64 * sum_list_with work_of sw + 61.

Lemma drive_start_ok limit fuel : (enough ≤ fuel)%nat → match limit with Some l => (enough ≤ l)%nat | None => True end →
  ∃ d, drive_loop (length sw) make limit fuel drive_start = Ok d ∧ received d = length sw ∧ rejected d = 0%nat ∧ (cycle d ≤ enough)%nat
    ∧ rtc sim_step switch_make (p4_switch d).
Proof.
  intros Hfuel Hlim. destruct shows_make as [Hsh Hok]. set (a := MkLane [] None [] (replicate N_STAGES None) [] None) in *.
  destruct (near_some a Hok) as (j & Hj & Hlt).
  destruct (drive_ends limit enough drive_start a j) with (fuel := fuel) as (d & H1 & H2 & H3 & H4 & H5); try done.
  - constructor; try done; cbn [p4_switch drive_start p_batch received rejected]; try lia; cbn; try lia. by intros i ?%not_elem_of_nil.
  - unfold left_work, enough. cbn [p_batch drive_start]. rewrite drop_0. change (work a) with 0%nat. lia.
  - by exists d.
Qed.
End drain.

(** ** The transactions of the programs *)

Lemma sendable_ready wl t : sendable wl t → port t = 0 → pass_ct t = 0%nat → fail_ct t = 0 → Z.of_nat (length (get_key_cts wl)) ≤ SLOTS_PER_REG → ready t.
Proof.
  intros [Hne Hps _ _ Hr] Hport Hpc Hf Hk. split; [split; [rewrite Hport; done|]|]; [|split_and!; try done; rewrite Hf; done].
  apply Forall_forall. intros g Hg. destruct (proj1 (Forall_forall _ _) Hps g Hg) as [Hl _]. split; [done|]. apply Forall_lookup. intros c o Ho i ->.
  destruct (proj1 (Forall_forall _ _) Hr (c, i)) as [_ Hi]; [|cbn in Hi; lia]. apply list_elem_of_In, in_concat. exists (pass_ops g). rewrite <-!list_elem_of_In.
  split; [by apply list_elem_of_fmap_2|]. rewrite pass_ops_bind. apply list_elem_of_bind. exists c. rewrite Ho. split; [by left|]. apply elem_of_seq. apply lookup_lt_Some in Ho. lia.
Qed.

Lemma sendable_passes wl t : sendable wl t → (length (passes t) < N_MAX_HOT_OPS)%nat.
Proof.
  intros [_ Hps Hn _ _]. eapply Nat.le_lt_trans; [|exact Hn]. clear Hn. unfold n_ops. induction Hps as [|g ps [_ Hg] _ IH]; [done|]. cbn [fmap list_fmap concat length]. rewrite length_app.
  destruct (pass_ops g); [done|]. cbn. lia.
Qed.

Lemma made_fields prt L txn t : sw_txn_make prt L txn = Ok t → port t = prt ∧ pass_ct t = 0%nat ∧ fail_ct t = 0.
Proof. unfold sw_txn_make. intros H. minv. done. Qed.

Lemma work_bound sw b : Forall (λ t, length (passes t) ≤ b)%nat sw → (sum_list_with work_of sw ≤ S b * length sw)%nat.
Proof. induction 1 as [|t sw Ht _ IH]; [cbn; lia|]. cbn [sum_list_with length]. unfold work_of at 1. lia. Qed.

(** The hot keys fit the switch, and there are not too many transactions to number. *)
Definition fits (wl : list txn_t) : Prop := Z.of_nat (length (get_key_cts wl)) ≤ SLOTS_PER_REG ∧ Z.of_nat (length wl) < 2 ^ 64 - 2.

Lemma batch_sizes comps txn : txn ∈ (next_batch comps).1 → (0 < length txn < N_MAX_HOT_OPS)%nat ∧ ∀ k, k ∈ txn → k ∈ concat (next_batch comps).1.
Proof.
  intros Hin. split; [cbn [next_batch fst] in Hin; by apply list_elem_of_filter in Hin as [? _]|]. intros k Hk. apply list_elem_of_In, in_concat. exists txn. by rewrite <-!list_elem_of_In.
Qed.

(** [system_test] makes its transactions when it sends them. *)
Lemma system_made comps : let batch := (next_batch comps).1 in fits batch →
  ∃ sw, length sw = length batch ∧ Forall ready sw ∧ Forall (λ t, length (passes t) ≤ 7)%nat sw
    ∧ ∀ i t, sw !! i = Some t → (txn ← aget batch i; sw_txn_make PORT (layout_make batch) txn) = Ok t.
Proof.
  intros batch [Hk _]. assert (∀ txn, txn ∈ batch → ∃ t, sw_txn_make PORT (layout_make batch) txn = Ok t ∧ ready t ∧ (length (passes t) ≤ 7)%nat) as Hmk.
  { intros txn Hin. destruct (batch_sizes comps txn Hin) as [Hlen Hkeys]. fold batch in Hkeys.
    destruct (sw_txn_spec (get_key_cts batch).*1 (layout_make batch) PORT txn (layout_make_ok batch)) as (t & _ & Ht & _); [by intros k Hkk; apply get_key_cts_keys, Hkeys|unfold N_MAX_HOT_OPS in *; lia|].
    pose proof (make_sendable batch PORT txn t Hkeys Hlen Ht) as Hs. destruct (made_fields _ _ _ _ Ht) as (Hport & Hpc & Hf). exists t. split; [done|]. split; [by apply (sendable_ready batch)|].
    pose proof (sendable_passes batch t Hs). unfold N_MAX_HOT_OPS in *. lia. }
  assert (∃ sw, Forall2 (λ txn t, sw_txn_make PORT (layout_make batch) txn = Ok t ∧ ready t ∧ (length (passes t) ≤ 7)%nat) batch sw) as [sw Hsw].
  { clearbody batch. clear Hk. assert (∀ l, (∀ txn, txn ∈ l → txn ∈ batch) → ∃ sw, Forall2 (λ txn t, sw_txn_make PORT (layout_make batch) txn = Ok t ∧ ready t ∧ (length (passes t) ≤ 7)%nat) l sw) as H.
    { induction l as [|txn l IH]; intros Hl; [by exists []|]. destruct (Hmk txn) as [t Ht]; [apply Hl; by left|]. destruct IH as [sw Hsw]; [intros x Hx; apply Hl; by right|]. exists (t :: sw). by constructor. }
    by apply H. }
  exists sw. split; [symmetry; by eapply Forall2_length|]. split_and!.
  - apply Forall_lookup. intros i t Hi. destruct (Forall2_lookup_r _ _ _ _ _ Hsw Hi) as (txn & _ & _ & ? & _). done.
  - apply Forall_lookup. intros i t Hi. destruct (Forall2_lookup_r _ _ _ _ _ Hsw Hi) as (txn & _ & _ & _ & ?). done.
  - intros i t Hi. destruct (Forall2_lookup_r _ _ _ _ _ Hsw Hi) as (txn & Htxn & Hmake & _). by rewrite (aget_some _ _ _ Htxn).
Qed.

(** The other programs prepare them first. *)
Lemma prepared_ready rnd fuel files w comps : get_batch_iter rnd fuel files w = Ok comps → w ≠ INSTACART → w ≠ SYN_ADVERSARIAL → fits (next_batch comps).1 →
  ∃ sw, prepared_txns rnd fuel files w = Ok sw ∧ (length sw ≤ length (next_batch comps).1)%nat ∧ Forall ready sw ∧ Forall (λ t, length (passes t) ≤ 2)%nat sw.
Proof.
  intros Hit H1 H2 [Hk _]. pose proof Hit as H. unfold get_batch_iter in H. minv. rename r into txns. destruct (prepare_workload txns comps (workload_distinct _ _ _ _ _ E H1 H2) H) as (sw & Hsw & Hlen & Hok & Hfrom).
  exists sw. split; [unfold prepared_txns; rewrite Hit; cbn [mbind outcome_bind]; rewrite all_batches_first; exact Hsw|]. split; [done|]. split; apply Forall_forall; intros t Ht.
  - destruct (proj1 (Forall_forall _ _) Hok t Ht) as [Hs _]. destruct (proj1 (Forall_forall _ _) Hfrom t Ht) as (t0 & Hmk & _ & _ & _ & Hf & _).
    destruct (made_fields _ _ _ _ Hmk) as (Hport & Hpc & Hfc). injection Hf as E1 E2 E3. apply (sendable_ready (next_batch comps).1); [done|congruence..|done].
  - destruct (proj1 (Forall_forall _ _) Hfrom t Ht) as (t0 & _ & Hacc & _ & Hp & _). rewrite Hp. unfold accelerated in Hacc. case_bool_decide; [done|lia].
Qed.

(** C22: the programs that drive the simulated switch end, with every transaction
    received and none rejected; the last of them only for small workloads.
    Whatever the workload, [system_test] needs at most 512 cycles per transaction
    and 61 more, [cc_system_test] 192 per prepared transaction and 61 more;
    [nobatch_system_test], which gives up after 400000 cycles and then may have
    received fewer, does receive all [n] prepared transactions when
    [192 * n + 61 <= 400000] (up to 2083 of them).  As [fits] says,
    the workload has at most as many hot keys as a register has slots and fewer
    than 2^64 - 2 transactions.  No assertion fails on the way (a
    transaction is offered only when the buffer takes it and a slot of the
    pool is free), and the switch only takes the steps of the simulator. *)
Theorem test_programs_end rnd fuel files comps :
  (get_batch_iter rnd fuel files INSTACART = Ok comps → fits (next_batch comps).1 → ∀ cycles, (512 * length (next_batch comps).1 + 61 ≤ cycles)%nat →
     ∃ d, system_test rnd fuel files cycles = Ok d ∧ received d = length (next_batch comps).1 ∧ rejected d = 0%nat ∧ rtc sim_step switch_make (p4_switch d))
  ∧ (get_batch_iter rnd fuel files SYN_HOT_8 = Ok comps → fits (next_batch comps).1 →
     ∃ sw, prepared_txns rnd fuel files SYN_HOT_8 = Ok sw ∧ ∀ cycles, (192 * length sw + 61 ≤ cycles)%nat →
       ∃ d, cc_system_test rnd fuel files cycles = Ok d ∧ received d = length sw ∧ rejected d = 0%nat ∧ rtc sim_step switch_make (p4_switch d))
  ∧ (get_batch_iter rnd fuel files YCSB_99_16 = Ok comps → fits (next_batch comps).1 →
     ∃ sw, prepared_txns rnd fuel files YCSB_99_16 = Ok sw ∧ ∀ cycles, (192 * length sw + 61 ≤ cycles)%nat → 192 * Z.of_nat (length sw) + 61 ≤ 400000 →
       ∃ d, nobatch_system_test rnd fuel files cycles = Ok d ∧ received d = length sw ∧ rejected d = 0%nat ∧ rtc sim_step switch_make (p4_switch d)).
Proof.
  split_and!.
  - intros Hit Hfits cycles Hc. destruct (system_made comps Hfits) as (sw & Hlen & Hr & Hp & Hmk). destruct Hfits as [_ Hn]. pose proof (work_bound sw 7 Hp) as Hw.
    destruct (drive_start_ok sw _ Hr Hmk ltac:(lia) None cycles) as (d & H1 & H2 & H3 & _ & H4); [unfold enough; lia|done|].
    exists d. unfold system_test. rewrite Hit. cbn [mbind outcome_bind]. rewrite <-Hlen. done.
  - intros Hit Hfits. destruct (prepared_ready _ _ _ _ _ Hit ltac:(done) ltac:(done) Hfits) as (sw & Hsw & Hlen & Hr & Hp). destruct Hfits as [_ Hn]. exists sw. split; [done|]. intros cycles Hc.
    pose proof (work_bound sw 2 Hp) as Hw. destruct (drive_start_ok sw (aget sw) Hr (aget_some sw) ltac:(lia) None cycles) as (d & H1 & H2 & H3 & _ & H4); [unfold enough; lia|done|].
    exists d. unfold cc_system_test. rewrite Hsw. done.
  - intros Hit Hfits. destruct (prepared_ready _ _ _ _ _ Hit ltac:(done) ltac:(done) Hfits) as (sw & Hsw & Hlen & Hr & Hp). destruct Hfits as [_ Hn]. exists sw. split; [done|]. intros cycles Hc Hlim.
    pose proof (work_bound sw 2 Hp) as Hw. destruct (drive_start_ok sw (aget sw) Hr (aget_some sw) ltac:(lia) (Some (Z.to_nat 400000)) cycles) as (d & H1 & H2 & H3 & _ & H4);
      [unfold enough; lia|unfold enough; lia|]. exists d. unfold nobatch_system_test. rewrite Hsw. done.
Qed.

Lemma prepared_of rnd fuel files w comps sw : get_batch_iter rnd fuel files w = Ok comps → prepared_txns rnd fuel files w = Ok sw →
  prepare_txns_sw 0 (next_batch comps).1 (layout_make (next_batch comps).1) = Ok sw.
Proof. intros Hit H. unfold prepared_txns in H. rewrite Hit in H. cbn [mbind outcome_bind] in H. by rewrite all_batches_first in H. Qed.

Lemma demo_iter : ∃ comps, get_batch_iter (λ _, 0) 1100 demo_files YCSB_99_16 = Ok comps ∧ demo_comps = Ok comps.
Proof.
  destruct demo_lines_ok as (H1 & H2 & H3). destruct (batch_iter_ok _ H3) as [comps Hmk]. exists comps. split; [|exact Hmk].
  unfold get_batch_iter, workload_txns, get_ycsb_txns. unfold demo_files at 1. cbn [ifstream]. rewrite ycsb_lines_spec by (done || constructor). exact Hmk.
Qed.

(** The file of a thousand keys, of which one is hot. *)
Lemma test_programs_end_witness : ∃ d, nobatch_system_test (λ _, 0) 1100 demo_files 1000 = Ok d ∧ received d = 1%nat ∧ rejected d = 0%nat.
Proof.
  destruct demo_iter as (comps & Hit & Hmk). destruct (one_small_true comps (demo_comps_small comps Hmk)) as (H1 & H2 & H3).
  destruct (test_programs_end (λ _, 0) 1100 demo_files comps) as (_ & _ & H). destruct (H Hit) as (sw & Hsw & Hend).
  - split; [|lia]. assert (2 ^ 16 ≤ SLOTS_PER_REG) by (vm_compute; discriminate). lia.
  - pose proof (H3 sw (prepared_of _ _ _ _ _ _ Hit Hsw)) as Hlen.
    destruct (Hend 1000%nat) as (d & Hd & Hr & Hj & _); [rewrite Hlen; lia|rewrite Hlen; lia|]. exists d. rewrite Hlen in Hr. exact (conj Hd (conj Hr Hj)).
Defined.
