(* ===== verification/Reports.v ===== *)
(** * Reports on workloads

    The programs of [mine/fast_layout] that print facts about a workload:
    [layout_test.cpp], [pass_ct_test.cpp] and [big_layout_test.cpp] count the passes
    of its transactions, [distr_layout_test.cpp] does when the keys are spread
    over several switches, [interval_analysis.cpp] prints when keys are in use,
    [batch_analysis.cpp] which transactions conflict with earlier ones, and
    [batching_strats.cpp] how large batches without conflicts could be.  A program
    is the function from the workload to the numbers it prints. *)
From stdpp Require Import base tactics list numbers gmap strings sorting.
From Stdlib Require Import ZArith Lia Ascii SpecFloat.
From S2P Require Import Prelude SimLayout SimLocks Batching Workloads ProdTrace.

#[local] Open Scope Z_scope.

(** [pass_cts[n] += 1], after inserting a zero. *)
Definition bump (m : gmap nat nat) (n : nat) : gmap nat nat := <[n := S (default 0%nat (m !! n))]> m.

(** ** layout_test.cpp *)

(** A cell of the second pass, and who comes before it: the two keys with their
    popularity. *)
Definition rival (L : layout_t) (pass0 pass1 : list (option Z)) (acc : list (Z * Z * (Z * Z))) (c : nat) : outcome (list (Z * Z * (Z * Z))) :=
  o1 ← aget pass1 c;
  match o1 with
  | None => Ok acc
  | Some i1 =>
      confl_key ← rev_lookup L c i1;
      o0 ← aget pass0 c;
      match o0 with
      | None => Fail AssertFailed
      | Some i0 =>
          b_key ← rev_lookup L c i0;
          f0 ← get_key_ct L b_key;
          f1 ← get_key_ct L confl_key;
          Ok (acc ++ [(b_key, f0, (confl_key, f1))])
      end
  end.

Definition rivals (L : layout_t) (t : sw_txn_t) : outcome (list (Z * Z * (Z * Z))) :=
  if bool_decide (length (passes t) = 2%nat) then
    pass0 ← aget (passes t) 0;
    pass1 ← aget (passes t) 1;
    ofold (rival L pass0 pass1) (seq 0 N_CELLS) []
  else Ok [].

Definition layout_test_txn (L : layout_t) (st : gmap nat nat * list (Z * Z * (Z * Z))) (txn : txn_t) : outcome (gmap nat nat * list (Z * Z * (Z * Z))) :=
  t ← sw_txn_make 0 L txn;
  _ ← ofold (λ acc k, f ← get_key_ct L k; Ok (acc ++ [f])) txn [];
  rs ← rivals L t;
  Ok (bump st.1 (length (passes t)), st.2 ++ rs).

Definition layout_test (rnd : nat → Z) (fuel : nat) (files : string → option (list ascii)) : outcome (gmap nat nat * list (Z * Z * (Z * Z))) :=
  iter ← get_batch_iter rnd fuel files YCSB_99_8;
  let batch := (next_batch iter).1 in
  ofold (layout_test_txn (layout_make batch)) batch (∅, []).

(** ** pass_ct_test.cpp *)

Definition PERCENT_TICKS : nat := 100.

Definition pass_ct_txn (L : layout_t) (m : gmap nat nat) (txn : txn_t) : outcome (gmap nat nat) :=
  t ← sw_txn_make 0 L txn;
  _ ← ofold (λ acc k, match lookup_key L k with
                      | Some tl => f ← get_key_ct L k; Ok (acc ++ [(tl, f)])
                      | None => Fail (Thrown BadOptionalAccess)
                      end) txn [];
  Ok (bump m (length (passes t))).

(** The loop over the batches: their sizes and the numbers of passes. *)
Fixpoint pass_ct_batches (fuel : nat) (comps : list (txn_t * txn_t)) (sizes : list nat) (m : gmap nat nat) : outcome (list nat * gmap nat nat) :=
  match fuel with
  | O => Fail Spins
  | S fuel' =>
      let '(batch, comps') := next_batch comps in
      if bool_decide (length batch = 0%nat) then Ok (sizes, m)
      else
        m' ← ofold (pass_ct_txn (layout_make batch)) batch m;
        pass_ct_batches fuel' comps' (sizes ++ [length batch]) m'
  end.

Definition percentile (sizes : list nat) (acc : list nat) (i : nat) : outcome (list nat) :=
  x ← aget sizes (length sizes * (10 * i) / PERCENT_TICKS)%nat; Ok (acc ++ [x]).

Definition pass_ct_test (rnd : nat → Z) (fuel : nat) (files : string → option (list ascii)) : outcome (list nat * gmap nat nat) :=
  iter ← get_batch_iter rnd fuel files YCSB_99_8;
  '(sizes, m) ← pass_ct_batches 2 iter [] ∅;
  ticks ← ofold (percentile (std_sort (λ a b, bool_decide (a < b)%nat) sizes)) (seq 0 10) [];
  Ok (ticks, m).

(** ** big_layout_test.cpp *)

Definition big_layout_test (rnd : nat → Z) (fuel : nat) (files : string → option (list ascii)) : outcome (gmap nat nat) :=
  iter ← get_batch_iter rnd fuel files YCSB_99_8;
  all_txns ← all_batches 2 iter [];
  sw_txns ← prepare_txns_sw 0 all_txns (layout_make all_txns);
  Ok (foldl (λ m t, bump m (length (passes t))) ∅ sw_txns).

(** ** distr_layout_test.cpp *)

Definition N_NODES : nat := 6.

(** The loop that gives every key to the node with the least traffic. *)
Definition give_key (st : list Z * gmap Z nat) (kc : Z * Z) : list Z * gmap Z nat :=
  let best_node := argmin st.1 in
  (<[best_node := st.1 !!! best_node + kc.2]> st.1, map_insert kc.1 best_node st.2).
Definition key_nodes (key_cts_v : list (Z * Z)) : list Z * gmap Z nat := foldl give_key (replicate N_NODES 0, ∅) key_cts_v.

(** The parts of a transaction, one per node; [key_to_node[k]] is 0 for a key
    without a node. *)
Definition node_of (key_to_node : gmap Z nat) (k : Z) : nat := default 0%nat (key_to_node !! k).
Definition add_op (key_to_node : gmap Z nat) (parts : list txn_t) (k : Z) : outcome (list txn_t) :=
  ops ← aget parts (node_of key_to_node k); aset parts (node_of key_to_node k) (ops ++ [k]).
Definition txn_parts (key_to_node : gmap Z nat) (txn : txn_t) : outcome (list txn_t) := ofold (add_op key_to_node) txn (replicate N_NODES []).

(** The transaction of number [j] joins the lists of the nodes where it has a part
    that is not empty. *)
Definition add_parts (key_to_node : gmap Z nat) (node_subtxns : list (list (nat * txn_t))) (x : nat * txn_t) : outcome (list (list (nat * txn_t))) :=
  parts ← txn_parts key_to_node x.2;
  Ok (zip_with (λ l part, if bool_decide (length part = 0%nat) then l else l ++ [(x.1, part)]) node_subtxns parts).

(** The passes of a node's parts. *)
Definition node_pass (L : layout_t) (st : list (list nat) * gmap nat nat) (x : nat * txn_t) : outcome (list (list nat) * gmap nat nat) :=
  t ← sw_txn_make 0 L x.2;
  l ← aget st.1 x.1;
  ids ← aset st.1 x.1 (l ++ [length (passes t)]);
  Ok (ids, bump st.2 (length (passes t))).

Definition node_stats (st : list (list nat) * list (gmap nat nat)) (subtxns : list (nat * txn_t)) : outcome (list (list nat) * list (gmap nat nat)) :=
  '(ids, m) ← ofold (node_pass (layout_make subtxns.*2)) subtxns (st.1, ∅);
  Ok (ids, st.2 ++ [m]).

Definition max_pass (pass_els : list nat) : nat := foldl Nat.max 0%nat pass_els.

Definition distr_layout (all_txns : list txn_t) : outcome (list (gmap nat nat) * gmap nat nat) :=
  let key_to_node := (key_nodes (get_key_cts all_txns)).2 in
  node_subtxns ← ofold (add_parts key_to_node) (zip (seq 0 (length all_txns)) all_txns) (replicate N_NODES []);
  '(pass_cts_ids, stats) ← ofold node_stats node_subtxns (replicate (length all_txns) [], []);
  Ok (stats, foldl (λ m els, bump m (max_pass els)) ∅ pass_cts_ids).

Definition distr_layout_test (rnd : nat → Z) (fuel : nat) (files : string → option (list ascii)) : outcome (list (gmap nat nat) * gmap nat nat) :=
  iter ← get_batch_iter rnd fuel files YCSB_99_16;
  all_txns ← all_batches 2 iter [];
  distr_layout all_txns.

(** ** interval_analysis.cpp *)

Definition interval_op (i : nat) (m : gmap Z (nat * nat)) (op : Z) : gmap Z (nat * nat) :=
  match m !! op with None => <[op := (i, i)]> m | Some (first, _) => <[op := (first, i)]> m end.
Definition intervals (all_txns : list txn_t) : gmap Z (nat * nat) :=
  foldl (λ m x, foldl (interval_op x.1) m x.2) ∅ (zip (seq 0 (length all_txns)) all_txns).

(** The density, a double. *)
Definition density (freq : Z) (iv : nat * nat) : spec_float := SFdiv 53 1024 (dbl freq) (dbl (u64 (Z.of_nat iv.2 - Z.of_nat iv.1))).

Definition interval_analysis (all_txns : list txn_t) : list (Z * Z * (nat * nat) * spec_float) :=
  let key_cts : gmap Z Z := list_to_map (get_key_cts all_txns) in
  (λ pr, (pr.1, default 0 (key_cts !! pr.1), pr.2, density (default 0 (key_cts !! pr.1)) pr.2)) <$> map_to_list (intervals all_txns).

(** ** batch_analysis.cpp *)

(** [freqs]. *)
Definition freq_op (m : gmap Z nat) (k : Z) : gmap Z nat := <[k := S (default 0%nat (m !! k))]> m.
Definition freqs_of (txns : list txn_t) : gmap Z nat := foldl (foldl freq_op) ∅ txns.

(** The state of the loop: [past_ref], [refd] and the conflicts printed, with the
    frequency of their keys. *)
Record analysis := MkAna { past_ref : gmap Z nat; refd : gset nat; printed : list (list (Z * nat)) }.

Definition ana_op (freqs : gmap Z nat) (st : gset nat * list (Z * nat)) (past : gmap Z nat) (k : Z) : gset nat * list (Z * nat) :=
  match past !! k with Some j => ({[j]} ∪ st.1, st.2 ++ [(k, default 0%nat (freqs !! k))]) | None => st end.
Definition ana_note (txn_id : nat) (past : gmap Z nat) (k : Z) : outcome (gmap Z nat) :=
  let past' := match past !! k with None => map_insert k txn_id past | Some _ => <[k := txn_id]> past end in
  assert (bool_decide (past' !! k = Some txn_id));; Ok past'.
Definition ana_txn (freqs : gmap Z nat) (a : analysis) (x : nat * txn_t) : outcome analysis :=
  let st := foldl (λ st k, ana_op freqs st (past_ref a) k) (refd a, []) x.2 in
  past ← ofold (ana_note x.1) x.2 (past_ref a);
  Ok (MkAna past st.1 (printed a ++ [st.2])).
Definition batch_analysis (cold : list txn_t) : outcome (nat * list (list (Z * nat))) :=
  a ← ofold (ana_txn (freqs_of cold)) (zip (seq 0 (length cold)) cold) (MkAna ∅ ∅ []);
  Ok (size (refd a), printed a).

(** ** batching_strats.cpp *)

Definition N_BUCKETS : nat := 40.

(** The most frequent first, equal ones by key. *)
Definition strat_less (p1 p2 : Z * nat) : bool := if bool_decide (p1.2 = p2.2) then p1.1 <? p2.1 else bool_decide (p2.2 < p1.2)%nat.
Definition bucket_hash (freqs : gmap Z nat) : gmap Z nat :=
  foldl (λ m x, map_insert x.2.1 (x.1 `mod` N_BUCKETS)%nat m) ∅
    (zip (seq 0 (size freqs)) (std_sort strat_less (map_to_list freqs))).

(** The position of the transaction's most frequent key. *)
Definition max_freq_idx (freqs : gmap Z nat) (ops : txn_t) : nat :=
  foldl (λ m i, if bool_decide (default 0%nat (freqs !! (ops !!! m)) < default 0%nat (freqs !! (ops !!! i)))%nat then i else m) 0%nat (seq 1 (length ops - 1)).

Definition into_bucket (freqs : gmap Z nat) (hash : gmap Z nat) (buckets : list (list txn_t)) (txn : txn_t) : outcome (list (list txn_t)) :=
  k ← aget txn (max_freq_idx freqs txn);
  let b := default 0%nat (hash !! k) in
  l ← aget buckets b;
  aset buckets b (l ++ [txn]).

(** The batch of a bucket: [ok &= seen.find(op) != seen.end()]. *)
Definition batch_step (st : gset Z * nat) (txn : txn_t) : gset Z * nat :=
  if forallb (λ op, bool_decide (op ∈ st.1)) txn then (list_to_set txn ∪ st.1, S st.2) else st.
Definition batch_size (txns : list txn_t) : nat := (foldl batch_step (∅, 0%nat) txns).2.

Definition hash_batching (txns : list txn_t) : outcome (list nat) :=
  let freqs := freqs_of txns in
  let hash := bucket_hash freqs in
  buckets ← ofold (into_bucket freqs hash) txns (replicate N_BUCKETS []);
  Ok (batch_size <$> (buckets : list (list txn_t))).

Definition batching_strats (rnd : nat → Z) (fuel : nat) (files : string → option (list ascii)) : outcome (list nat) :=
  iter ← get_batch_iter rnd fuel files YCSB_99_16;
  hash_batching iter.*2.

(** ** Histograms *)

(** How often each number occurs. *)
Definition counts (m : gmap nat nat) (ns : list nat) : Prop :=
  ∀ p, m !! p = (let c := length (filter (λ n, n = p) ns) in if bool_decide (c = 0%nat) then None else Some c).

Lemma counts_nil : counts ∅ [].
Proof. intros p. done. Qed.

Lemma counts_bump m ns n : counts m ns → counts (bump m n) (ns ++ [n]).
Proof.
  intros H p. unfold bump. cbv zeta. rewrite filter_app, length_app. destruct (decide (p = n)) as [->|Hne].
  - rewrite lookup_insert_eq, H. cbv zeta. rewrite filter_cons_True, filter_nil by done. cbn [length].
    rewrite (bool_decide_eq_false_2 (_ + 1 = 0)%nat) by lia. case_bool_decide as E; [rewrite E|]; f_equal; simpl; lia.
  - rewrite lookup_insert_ne, H by done. by rewrite filter_cons_False, filter_nil, Nat.add_0_r by done.
Qed.

Lemma counts_fold {A} (f : A → nat) l : counts (foldl (λ m x, bump m (f x)) ∅ l) (f <$> l).
Proof.
  apply (foldl_inv (λ pre m, counts m (f <$> pre))); [apply counts_nil|].
  intros pre x post m _ H. rewrite fmap_app. by apply counts_bump.
Qed.

(** The passes of a transaction, 0 for one that has no place on the switch. *)
Definition passes_of (L : layout_t) (txn : txn_t) : nat := match sw_txn_make 0 L txn with Ok t => length (passes t) | Fail _ => 0 end.

(** ** batching_strats.cpp never finds a batch *)

Lemma into_bucket_spec freqs hash buckets txn : length buckets = N_BUCKETS → (∀ k b, hash !! k = Some b → (b < N_BUCKETS)%nat) →
  (txn = [] → into_bucket freqs hash buckets txn = Fail OutOfBounds)
  ∧ (txn ≠ [] → ∃ b l, buckets !! b = Some l ∧ into_bucket freqs hash buckets txn = Ok (<[b := l ++ [txn]]> buckets)).
Proof.
  intros Hlen Hhash. split; [by intros ->|]. intros Hne. unfold into_bucket.
  assert (max_freq_idx freqs txn < length txn)%nat as Hm.
  { unfold max_freq_idx. apply (foldl_inv (λ _ m, (m < length txn)%nat)); [destruct txn; [done|simpl; lia]|].
    intros pre i post m Hcut Hlt. apply seq_cut in Hcut as [-> ?]. case_bool_decide; lia. }
  destruct (lookup_lt_is_Some_2 txn _ Hm) as [k Hk]. rewrite (aget_some _ _ _ Hk). cbn [mbind outcome_bind].
  set (b := default 0%nat (hash !! k)). assert (b < N_BUCKETS)%nat as Hb.
  { unfold b. destruct (hash !! k) eqn:E; simpl; [by eapply Hhash|]. unfold N_BUCKETS. lia. }
  destruct (lookup_lt_is_Some_2 buckets b) as [l Hl]; [lia|]. rewrite (aget_some _ _ _ Hl). cbn [mbind outcome_bind].
  exists b, l. split; [done|]. apply aset_lt. lia.
Qed.

Lemma bucket_hash_lt freqs k b : bucket_hash freqs !! k = Some b → (b < N_BUCKETS)%nat.
Proof.
  revert k b. unfold bucket_hash. apply (foldl_inv (λ _ m, ∀ k b, m !! k = Some b → (b < N_BUCKETS)%nat)); [done|].
  intros pre x post m _ IH k b. unfold map_insert. destruct (m !! x.2.1); [apply IH|]. intros [[_ <-]|[_ H]]%lookup_insert_Some; [|by eapply IH].
  by apply Nat.mod_upper_bound.
Qed.

Lemma batch_size_zero txns : Forall (λ txn : txn_t, txn ≠ []) txns → batch_size txns = 0%nat.
Proof.
  intros H. unfold batch_size. cut (foldl batch_step (∅, 0%nat) txns = (∅, 0%nat)); [by intros ->|].
  induction H as [|txn txns Hne H IH]; [done|]. destruct txn as [|op txn]; [done|]. cbn [foldl]. exact IH.
Qed.

(** [hash_batching] reports 40 batches of size 0 for every workload of
    transactions with at least one cold operation: [ok &= seen.find(op) != seen.end()]
    asks for keys that were seen, so that the first transaction of a bucket is
    never taken and [seen] stays empty, although any one transaction alone is
    a batch without conflicts; and if some transaction has no cold operation, the
    program indexes the empty [ops] instead. *)
Theorem hash_batching_reports_nothing txns :
  hash_batching txns = if bool_decide ([] ∈ txns) then Fail OutOfBounds else Ok (replicate N_BUCKETS 0%nat).
Proof.
  unfold hash_batching. set (freqs := freqs_of txns). clearbody freqs. set (hash := bucket_hash freqs).
  assert (∀ k b, hash !! k = Some b → (b < N_BUCKETS)%nat) as Hhash by apply bucket_hash_lt. clearbody hash.
  assert (∀ l : list txn_t, [] ∉ l → ∀ bs, length bs = N_BUCKETS → Forall (Forall (λ t : txn_t, t ≠ [])) bs →
    ∃ bs', ofold (into_bucket freqs hash) l bs = Ok bs' ∧ length bs' = N_BUCKETS ∧ Forall (Forall (λ t : txn_t, t ≠ [])) bs') as Hrun.
  { induction l as [|t l IH]; intros Hl bs Hlen Hbs; [by exists bs|]. apply not_elem_of_cons in Hl as [Ht Hl].
    destruct (proj2 (into_bucket_spec freqs hash bs t Hlen Hhash)) as (b & q & Hq & E); [by intros ->|]. cbn [ofold]. rewrite E. cbn [mbind outcome_bind].
    apply IH; [done|by rewrite length_insert|]. apply Forall_insert; [done|]. apply Forall_app_2; [by eapply Forall_lookup_1|]. by repeat constructor. }
  assert (Forall (Forall (λ t : txn_t, t ≠ [])) (replicate N_BUCKETS [])) as H0 by (apply Forall_replicate; constructor).
  case_bool_decide as Hin.
  - apply list_elem_of_split_l in Hin as (l1 & l2 & -> & Hl1). rewrite ofold_app.
    destruct (Hrun l1 Hl1 _ (length_replicate _ _) H0) as (bs & -> & Hlen & _). cbn [mbind outcome_bind ofold].
    by rewrite (proj1 (into_bucket_spec freqs hash bs [] Hlen Hhash)).
  - destruct (Hrun txns Hin _ (length_replicate _ _) H0) as (bs & -> & Hlen & Hbs). cbn [mbind outcome_bind]. f_equal.
    apply list_eq. intros i. rewrite list_lookup_fmap. destruct (bs !! i) as [q|] eqn:E; cbn [fmap option_fmap option_map].
    + rewrite lookup_replicate_2 by (rewrite <-Hlen; by eapply lookup_lt_Some). f_equal. apply batch_size_zero. by eapply Forall_lookup_1.
    + symmetry. apply lookup_ge_None_2. rewrite length_replicate, <-Hlen. by apply lookup_ge_None_1.
Qed.

(** ** The reports on passes *)

Lemma StronglySorted_filter {A} (R : relation A) (P : A → Prop) `{∀ x, Decision (P x)} l : StronglySorted R l → StronglySorted R (filter P l).
Proof.
  induction 1 as [|x l Hs IH Hx]; [constructor|]. rewrite filter_cons. case_decide; [|done]. constructor; [done|]. apply Forall_forall. rewrite Forall_forall in Hx. intros y [_ Hy]%list_elem_of_filter. by apply Hx.
Qed.

Section on_layout.
Context (wl : list txn_t).
Notation L := (layout_make wl).

Definition fits (txn : txn_t) : Prop := (length txn ≤ 100)%nat ∧ ∀ k, k ∈ txn → k ∈ concat wl.

(** What a transaction's switch transaction looks like: in each cell, the keys of its passes in order of
    popularity. *)
Lemma fits_made txn : fits txn → ∃ t, sw_txn_make 0 L txn = Ok t ∧ length (passes t) = passes_of L txn
  ∧ Forall (λ tl, ∃ k, k ∈ txn ∧ loc_of wl k tl) (locs t)
  ∧ StronglySorted (may_precede (loc_less L)) (locs t) ∧ grids_ok (length (passes t)) (locs t) (passes t).
Proof.
  intros [Hlen Hin]. destruct (sw_txn_spec (get_key_cts wl).*1 L 0 txn (layout_make_ok wl)) as (t & tls & Ht & Htls & Hp & Hs & Hg & _); [|done|].
  { intros k Hk. by apply get_key_cts_keys, Hin. }
  exists t. split_and!; try done; [unfold passes_of; by rewrite Ht|]. rewrite Hp.
  apply Forall_lookup. intros i tl Hi. destruct (Forall2_lookup_r _ _ _ _ _ Htls Hi) as (k & Hki & Hk). exists k. split; [by eapply list_elem_of_lookup_2|done].
Qed.

Lemma fits_count k : k ∈ concat wl → ∃ tl f, lookup_key L k = Some tl ∧ get_key_ct L k = Ok f ∧ f = Z.of_nat (occurrences k (concat wl)).
Proof.
  intros Hk. destruct (lo_dom _ _ (layout_make_ok wl) k) as [tl Htl]; [by apply get_key_cts_keys|]. exists tl.
  assert ((k, Z.of_nat (occurrences k (concat wl))) ∈ get_key_cts wl) as Hc by (by apply get_key_cts_spec).
  eexists. split_and!; [done| |done]. unfold get_key_ct. rewrite layout_cts. by rewrite (elem_of_list_to_map_1 _ _ _ (get_key_cts_NoDup wl) Hc).
Qed.

(** The key of the first pass is used at least as often as the one that has to wait. *)
Definition rival_ok (r : Z * Z * (Z * Z)) : Prop :=
  let '(k0, f0, (k1, f1)) := r in
  k0 ∈ concat wl ∧ k1 ∈ concat wl ∧ f0 = Z.of_nat (occurrences k0 (concat wl)) ∧ f1 = Z.of_nat (occurrences k1 (concat wl)) ∧ f1 ≤ f0.

Lemma loc_of_count k tl : loc_of wl k tl → k ∈ concat wl ∧ rev_lookup L (cell tl) (idx tl) = Ok k
  ∧ ∃ f, get_key_ct L k = Ok f ∧ loc_freq L tl = f ∧ f = Z.of_nat (occurrences k (concat wl)).
Proof.
  intros H. destruct (loc_of_facts wl k tl H) as (_ & _ & Hrev & f & Hf & Hlf & _).
  destruct (lo_back _ _ (layout_make_ok wl) k tl H) as (Hin%get_key_cts_keys & _). split_and!; try done. exists f. split_and!; try done.
  destruct (fits_count k Hin) as (_ & f' & _ & Hf' & ->). congruence.
Qed.

Lemma rival_spec l p0 p1 acc c : Forall (λ tl, ∃ k, loc_of wl k tl) l → StronglySorted (may_precede (loc_less L)) l → grids_ok 2 l [p0; p1] →
  (c < N_CELLS)%nat → Forall rival_ok acc → ∃ acc', rival L p0 p1 acc c = Ok acc' ∧ Forall rival_ok acc'.
Proof.
  intros Hl Hs [_ Hg] Hc Hacc. destruct (Hg 0%nat p0 eq_refl) as [_ G0]. destruct (Hg 1%nat p1 eq_refl) as [_ G1].
  specialize (G0 c Hc). specialize (G1 c Hc). unfold rival. rewrite (aget_some _ _ _ G1). cbn [mbind outcome_bind].
  set (at_c := filter (λ tl, cell tl = c) l) in *.
  assert (∀ i tl, at_c !! i = Some tl → cell tl = c ∧ ∃ k, loc_of wl k tl) as Hat.
  { intros i tl Htl%list_elem_of_lookup_2. apply list_elem_of_filter in Htl as [? Htl]. split; [done|]. rewrite Forall_forall in Hl. by apply Hl. }
  destruct (at_c !! 1%nat) as [tl1|] eqn:E1; cbn [fmap option_fmap option_map]; [|by exists acc].
  destruct (at_c !! 0%nat) as [tl0|] eqn:E0; [|apply lookup_ge_None_1 in E0; apply lookup_lt_Some in E1; lia].
  cbn [fmap option_fmap option_map] in G0. destruct (Hat _ _ E0) as [C0 [k0 K0]]. destruct (Hat _ _ E1) as [C1 [k1 K1]].
  destruct (loc_of_count k0 tl0 K0) as (I0 & R0 & f0 & F0 & FL0 & O0). destruct (loc_of_count k1 tl1 K1) as (I1 & R1 & f1 & F1 & FL1 & O1).
  rewrite C0 in R0. rewrite C1 in R1. rewrite R1. cbn [mbind outcome_bind]. rewrite (aget_some _ _ _ G0). cbn [mbind outcome_bind].
  rewrite R0. cbn [mbind outcome_bind]. rewrite F0, F1. cbn [mbind outcome_bind]. eexists. split; [done|].
  apply Forall_app_2; [done|]. apply Forall_singleton. unfold rival_ok. split; [done|]. split; [done|]. split; [done|]. split; [done|].
  assert (StronglySorted (may_precede (loc_less L)) at_c) as Hsc by (by apply StronglySorted_filter).
  pose proof (StronglySorted_lookup _ _ 0 1 _ _ Hsc E0 E1 ltac:(lia)) as Hle%loc_may_precede.
  destruct (loc_of_facts wl k0 tl0 K0) as (Ra & _). destruct (loc_of_facts wl k1 tl1 K1) as (Rb & _).
  unfold in_range, cell, REGS_PER_STAGE in *. lia.
Qed.

Lemma rivals_spec txn t : fits txn → sw_txn_make 0 L txn = Ok t → ∃ rs, rivals L t = Ok rs ∧ Forall rival_ok rs.
Proof.
  intros Hf Ht. destruct (fits_made txn Hf) as (t' & Ht' & _ & Hl & Hs & Hg). rewrite Ht in Ht'. injection Ht' as <-.
  unfold rivals. case_bool_decide as E; [|exists []; by split]. rewrite E in Hg.
  destruct (passes t) as [|p0 [|p1 [|]]] eqn:Ep; try done. unfold aget. cbn [lookup list_lookup mbind outcome_bind].
  apply (ofold_total (λ _ acc, Forall rival_ok acc)); [constructor|]. intros pre c post acc Hcut Hacc.
  apply seq_cut in Hcut as (_ & -> & Hc). apply (rival_spec (locs t)); try done.
  eapply Forall_impl; [exact Hl|]. intros tl (k & _ & Hk). by exists k.
Qed.

Lemma layout_test_txns txns : Forall fits txns → ∃ m rs, ofold (layout_test_txn L) txns (∅, []) = Ok (m, rs)
  ∧ counts m (passes_of L <$> txns) ∧ Forall rival_ok rs.
Proof.
  intros Hall. destruct (ofold_total (λ pre st, counts st.1 (passes_of L <$> pre) ∧ Forall rival_ok st.2) (layout_test_txn L) txns (∅, []))
    as ([m rs] & H & Hc & Hr); [by split; [apply counts_nil|]| |by exists m, rs].
  intros pre txn post [m rs] Hcut [Hc Hr]. cbn [fst snd] in *. rewrite Hcut in Hall. apply Forall_app in Hall as [_ [Hf _]%Forall_cons].
  destruct (fits_made txn Hf) as (t & Ht & Hn & _). destruct (rivals_spec txn t Hf Ht) as (rs' & Hrs & Hrs').
  unfold layout_test_txn. rewrite Ht. cbn [mbind outcome_bind].
  destruct (ofold_total (λ _ _, True) (λ acc k, f ← get_key_ct L k; Ok (acc ++ [f])) txn []) as (fs & -> & _); [done| |].
  { intros pre' k post' acc Hcut' _. destruct (fits_count k) as (_ & f & _ & -> & _); [apply Hf; rewrite Hcut'; apply elem_of_app; right; by left|].
    by eexists. }
  cbn [mbind outcome_bind]. rewrite Hrs. cbn [mbind outcome_bind fst snd]. eexists. split; [done|]. cbn [fst snd]. rewrite fmap_app, Hn.
  split; [by apply counts_bump|by apply Forall_app_2].
Qed.

Lemma pass_ct_txns txns ns m : Forall fits txns → counts m ns → ∃ m', ofold (pass_ct_txn L) txns m = Ok m' ∧ counts m' (ns ++ (passes_of L <$> txns)).
Proof.
  intros Hall Hm. apply (ofold_total (λ pre m, counts m (ns ++ (passes_of L <$> pre)))); [by rewrite app_nil_r|].
  intros pre txn post m1 Hcut Hc. rewrite Hcut in Hall. apply Forall_app in Hall as [_ [Hf _]%Forall_cons].
  destruct (fits_made txn Hf) as (t & Ht & Hn & _). unfold pass_ct_txn. rewrite Ht. cbn [mbind outcome_bind].
  match goal with |- context [ofold ?f txn []] => destruct (ofold_total (λ _ _, True) f txn []) as (fs & -> & _); [done| |] end.
  { intros pre' k post' acc Hcut' _. destruct (fits_count k) as (tl & f & -> & -> & _); [apply Hf; rewrite Hcut'; apply elem_of_app; right; by left|].
    by eexists. }
  cbn [mbind outcome_bind]. eexists. split; [done|]. rewrite fmap_app, app_assoc, Hn. by apply counts_bump.
Qed.
End on_layout.

Lemma small_fits wl txns : Forall (small_txn wl) txns → Forall (txn_ok wl) txns ∧ Forall (fits wl) txns.
Proof. intros H. split; (eapply Forall_impl; [exact H|]); intros txn [(? & ? & ?) _]; by repeat split. Qed.

Lemma batch_small rnd fuel files w iter : get_batch_iter rnd fuel files w = Ok iter → w ≠ INSTACART → w ≠ SYN_ADVERSARIAL →
  Forall (small_txn (next_batch iter).1) (next_batch iter).1.
Proof. unfold get_batch_iter. intros H Hi Ha. minv. eapply next_batch_ok; [by eapply workload_distinct|done]. Qed.

Lemma percentiles n : ofold (percentile (std_sort (λ a b, bool_decide (a < b)%nat) [n])) (seq 0 10) [] = Ok (replicate 10 n).
Proof.
  assert (std_sort (λ a b, bool_decide (a < b)%nat) [n] = [n]) as ->; [|reflexivity].
  apply Permutation_singleton_r. apply std_sort_perm.
Qed.

Lemma pass_ct_run iter : Forall (small_txn (next_batch iter).1) (next_batch iter).1 →
  ∃ sizes m, pass_ct_batches 2 iter [] ∅ = Ok (sizes, m) ∧ sizes = (if bool_decide ((next_batch iter).1 = []) then [] else [length (next_batch iter).1])
    ∧ counts m (passes_of (layout_make (next_batch iter).1) <$> (next_batch iter).1).
Proof.
  intros [_ Hfit]%small_fits. cbn [pass_ct_batches]. destruct (next_batch iter) as [batch rest] eqn:E.
  assert (rest = []) as -> by (unfold next_batch in E; congruence). cbn [fst] in *.
  destruct batch as [|txn batch]; [eexists [], ∅; split_and!; [done|done|apply counts_nil]|].
  rewrite bool_decide_eq_false_2 by done. destruct (pass_ct_txns (txn :: batch) (txn :: batch) [] ∅ Hfit counts_nil) as (m & -> & Hm).
  cbn [mbind outcome_bind next_batch fst fmap list_fmap filter list_filter]. rewrite bool_decide_eq_true_2 by done. by eexists _, m.
Qed.

Lemma big_layout_run wl txns : Forall (txn_ok wl) txns →
  ∃ out, prepare_txns_sw 0 txns (layout_make wl) = Ok out
    ∧ (λ t, length (passes t)) <$> out = passes_of (layout_make wl) <$> filter (λ txn, goes_to_switch wl 0 txn = true) txns.
Proof.
  intros Hok. destruct (prepare_spec wl 0 txns Hok) as (out & Hout & Horig & _ & _ & Hfrom). exists out. split; [done|].
  rewrite <-Horig, <-list_fmap_compose. clear -Hfrom. induction Hfrom as [|t' out (t & Ht & _ & _ & Hp & _) _ IH]; [done|].
  rewrite !fmap_cons. f_equal; [|done]. unfold passes_of, compose. by rewrite Ht, Hp.
Qed.

(** The programs that report on passes, on a workload that can be loaded,
    never fail an assertion and print the numbers they name.  [layout_test] and
    [pass_ct_test] count every transaction of the batch under its number of passes and
    [big_layout_test] those that go to the switch; whenever [layout_test] looks at a key of
    a second pass there is a key of the first pass in the same register array,
    and that key is at least as popular; and since there is one batch, every
    percentile of [pass_ct_test] is its size, while an empty batch makes it read
    [sizes[0]] of an empty vector. *)
Theorem pass_reports_correct rnd fuel files iter :
  get_batch_iter rnd fuel files YCSB_99_8 = Ok iter →
  let batch := (next_batch iter).1 in
  let L := layout_make batch in
  (∃ m rs, layout_test rnd fuel files = Ok (m, rs) ∧ counts m (passes_of L <$> batch) ∧ Forall (rival_ok batch) rs)
  ∧ (if bool_decide (batch = []) then pass_ct_test rnd fuel files = Fail OutOfBounds
     else ∃ m, pass_ct_test rnd fuel files = Ok (replicate 10 (length batch), m) ∧ counts m (passes_of L <$> batch))
  ∧ ∃ m, big_layout_test rnd fuel files = Ok m ∧ counts m (passes_of L <$> filter (λ txn, goes_to_switch batch 0 txn = true) batch).
Proof.
  intros Hiter batch L. pose proof (batch_small _ _ _ _ _ Hiter) as Hsmall. specialize (Hsmall ltac:(done) ltac:(done)). fold batch in Hsmall.
  destruct (small_fits _ _ Hsmall) as [Hok Hfit]. unfold layout_test, pass_ct_test, big_layout_test. rewrite Hiter. cbn [mbind outcome_bind]. split_and!.
  - by apply layout_test_txns.
  - destruct (pass_ct_run iter Hsmall) as (sizes & m & -> & -> & Hm). cbn [mbind outcome_bind]. fold batch in Hm |- *.
    case_bool_decide as E; [done|]. rewrite percentiles. cbn [mbind outcome_bind]. by exists m.
  - rewrite all_batches_first. cbn [mbind outcome_bind]. fold batch. destruct (big_layout_run batch batch Hok) as (out & Hout & Hpass).
    rewrite Hout. cbn [mbind outcome_bind]. eexists. split; [done|]. unfold L. rewrite <-Hpass. apply (counts_fold (λ t, length (passes t))).
Qed.

(** The thousand transactions of [demo_files] have one hot one among them. *)
Lemma demo_reports_iter : ∃ iter, get_batch_iter (λ _, 0) 1100 demo_files YCSB_99_8 = Ok iter ∧ (next_batch iter).1 ≠ [].
Proof.
  destruct demo_lines_ok as (H1 & H2 & H3). destruct (batch_iter_ok _ H3) as [comps Hmk]. exists comps. split.
  - unfold get_batch_iter, workload_txns, get_ycsb_txns, demo_files. cbn [ifstream]. rewrite ycsb_lines_spec; [|done|constructor|done].
    cbn [mbind outcome_bind app]. exact Hmk.
  - pose proof (demo_comps_small comps Hmk) as Hs. intros E. unfold one_small in Hs. rewrite E in Hs. vm_compute in Hs. discriminate Hs.
Qed.

Lemma pass_reports_correct_witness :
  ∃ iter m, get_batch_iter (λ _, 0) 1100 demo_files YCSB_99_8 = Ok iter
    ∧ pass_ct_test (λ _, 0) 1100 demo_files = Ok (replicate 10 (length (next_batch iter).1), m).
Proof.
  destruct demo_reports_iter as (iter & Hiter & Hne). destruct (pass_reports_correct (λ _, 0) 1100 demo_files iter Hiter) as (_ & H & _).
  rewrite (bool_decide_eq_false_2 _ Hne) in H. destruct H as (m & H & _). exists iter, m. split; [exact Hiter|exact H].
Defined.

(** ** Spreading the keys over nodes *)

(** The operations on the keys that a node has. *)
Definition load (m : gmap Z nat) (n : nat) (l : list (Z * Z)) : Z := foldr (λ kc s, (if bool_decide (m !! kc.1 = Some n) then kc.2 else 0) + s) 0 l.

Lemma load_fresh m k b n l : k ∉ l.*1 → load (<[k := b]> m) n l = load m n l.
Proof.
  induction l as [|[k' c] l IH]; intros Hk; [done|]. rewrite fmap_cons, not_elem_of_cons in Hk. destruct Hk as [Hne Hk]. cbn [load foldr fst snd].
  rewrite lookup_insert_ne by (cbn [fst] in Hne; congruence). f_equal. by apply IH.
Qed.

Lemma load_snoc m n l kc : load m n (l ++ [kc]) = load m n l + (if bool_decide (m !! kc.1 = Some n) then kc.2 else 0).
Proof. induction l as [|x l IH]; cbn [load foldr app]; [lia|]. change (load m n (l ++ [kc])) with (foldr (λ kc s, (if bool_decide (m !! kc.1 = Some n) then kc.2 else 0) + s) 0 (l ++ [kc])) in IH. rewrite IH. unfold load. lia. Qed.

Record nodes_ok (d : Z) (pre : list (Z * Z)) (st : list Z * gmap Z nat) : Prop := {
  no_len : length st.1 = N_NODES;
  no_spread : spread st.1 d;
  no_dom : ∀ k, is_Some (st.2 !! k) ↔ k ∈ pre.*1;
  no_lt : ∀ k n, st.2 !! k = Some n → (n < N_NODES)%nat;
  no_load : ∀ n, (n < N_NODES)%nat → st.1 !!! n = load st.2 n pre;
}.

Lemma give_key_ok d pre st kc : nodes_ok d pre st → kc.1 ∉ pre.*1 → 0 ≤ kc.2 ≤ d → nodes_ok d (pre ++ [kc]) (give_key st kc).
Proof.
  destruct st as [freqs m], kc as [k c]. intros [Hlen Hsp Hdom Hlt Hld] Hk Hc. cbn [fst snd] in *.
  assert (m !! k = None) as Hnone. { destruct (m !! k) eqn:E; [|done]. exfalso. apply Hk, Hdom. by eexists. }
  assert (argmin freqs < N_NODES)%nat as Hb by (rewrite <-Hlen; apply argmin_lt; by intros ->).
  unfold give_key, map_insert. cbn [fst snd]. rewrite Hnone. split; cbn [fst snd].
  - by rewrite length_insert.
  - apply spread_argmin; [by intros ->|done|done].
  - intros k'. rewrite fmap_app, elem_of_app, <-Hdom. cbn [fmap list_fmap fst]. rewrite list_elem_of_singleton. destruct (decide (k' = k)) as [->|].
    + rewrite lookup_insert_eq. split; [by right|by eexists].
    + rewrite lookup_insert_ne by done. naive_solver.
  - intros k' n [[_ <-]|[_ ?]]%lookup_insert_Some; [done|by eapply Hlt].
  - intros n Hn. rewrite load_snoc, load_fresh by done. cbn [fst snd]. rewrite lookup_insert_eq. destruct (decide (n = argmin freqs)) as [->|Hne].
    + rewrite list_lookup_total_insert_eq, bool_decide_eq_true_2 by (done || lia). by rewrite Hld.
    + rewrite list_lookup_total_insert_ne, bool_decide_eq_false_2 by (done || congruence). rewrite Hld by done. lia.
Qed.

Lemma key_nodes_ok d kcs : NoDup kcs.*1 → 0 ≤ d → Forall (λ kc, 0 ≤ kc.2 ≤ d) kcs → nodes_ok d kcs (key_nodes kcs).
Proof.
  intros Hnd Hd0 Hd. unfold key_nodes. apply (foldl_inv (nodes_ok d)).
  - split; cbn [fst snd]; [done|by apply spread_replicate|..].
    + intros k. rewrite lookup_empty. split; [by intros [? ?]|by intros ?%not_elem_of_nil].
    + done.
    + intros n Hn. by apply lookup_total_replicate_2.
  - intros pre kc post st Hcut Hst. rewrite Hcut in Hnd, Hd. rewrite fmap_app in Hnd. apply NoDup_app in Hnd as (_ & Hdis & _).
    apply Forall_app in Hd as [_ [Hkc _]%Forall_cons]. apply give_key_ok; [done| |done]. intros Hin. apply (Hdis _ Hin). by left.
Qed.

Section nodes.
Context (m : gmap Z nat).
Hypothesis Hm : ∀ k n, m !! k = Some n → (n < N_NODES)%nat.

(** The part of a transaction that a node executes. *)
Definition part (n : nat) (txn : list Z) : list Z := filter (λ k, node_of m k = n) txn.

Lemma node_of_lt k : (node_of m k < N_NODES)%nat.
Proof. unfold node_of. destruct (m !! k) eqn:E; cbn [default]; [by eapply Hm|]. unfold N_NODES. lia. Qed.

Lemma part_snoc n (txn : list Z) k : part n (txn ++ [k]) = part n txn ++ (if decide (node_of m k = n) then [k] else []).
Proof. unfold part. rewrite filter_app, filter_cons, filter_nil. done. Qed.

Lemma txn_parts_spec txn : txn_parts m txn = Ok ((λ n, part n txn) <$> seq 0 N_NODES).
Proof.
  unfold txn_parts. destruct (@ofold_total Z (list txn_t) (λ pre parts, parts = (λ n, part n pre) <$> seq 0 N_NODES)
    (add_op m) txn (replicate N_NODES [])) as (parts & -> & ->); [done| |done].
  intros pre k post parts _ ->. unfold add_op. pose proof (node_of_lt k) as Hk. set (b := node_of m k) in *.
  rewrite (aget_some _ b (part b pre)) by (rewrite list_lookup_fmap, lookup_seq_lt by done; done). cbn [mbind outcome_bind].
  rewrite aset_lt by (by rewrite length_fmap, length_seq). eexists. split; [done|]. apply list_eq. intros n. rewrite list_lookup_fmap.
  destruct (decide (n < N_NODES)%nat) as [Hn|Hn].
  2:{ rewrite !lookup_ge_None_2; [done|rewrite length_seq; lia|rewrite length_insert, length_fmap, length_seq; lia]. }
  rewrite (lookup_seq_lt _ _ _ Hn). cbn [fmap option_fmap option_map]. rewrite Nat.add_0_l, part_snoc. fold b.
  destruct (decide (n = b)) as [->|Hne].
  - rewrite list_lookup_insert_eq by (by rewrite length_fmap, length_seq). by rewrite decide_True.
  - rewrite list_lookup_insert_ne by done. rewrite list_lookup_fmap, lookup_seq_lt by done.
    by rewrite decide_False, app_nil_r.
Qed.

(** The list of a node: its parts of the transactions, with their numbers. *)
Definition subs (n : nat) (l : list (nat * list Z)) : list (nat * txn_t) :=
  filter (λ y : nat * list Z, y.2 ≠ []) ((λ x : nat * list Z, (x.1, part n x.2)) <$> l).

Lemma add_parts_spec (l : list (nat * txn_t)) : ofold (add_parts m) l (replicate N_NODES []) = Ok ((λ n, subs n l) <$> seq 0 N_NODES).
Proof.
  destruct (@ofold_total (nat * txn_t) (list (list (nat * txn_t))) (λ pre st, st = (λ n, subs n pre) <$> seq 0 N_NODES) (add_parts m) l (replicate N_NODES [])) as (st & -> & ->); [done| |done].
  intros pre [j txn] post st _ ->. unfold add_parts. cbn [fst snd]. rewrite txn_parts_spec. cbn [mbind outcome_bind]. eexists. split; [done|].
  generalize (seq 0 N_NODES). intros ns. induction ns as [|n ns IH]; [done|]. rewrite !fmap_cons. cbn [zip_with]. f_equal; [|exact IH].
  unfold subs at 3. rewrite fmap_app, filter_app. cbn [fmap list_fmap fst snd]. fold (subs n pre). rewrite filter_cons, filter_nil. cbn [snd].
  destruct (part n txn) as [|k p]; cbn [length].
  - rewrite bool_decide_eq_true_2 by done. rewrite decide_False by (intros H; by apply H). by rewrite app_nil_r.
  - by rewrite bool_decide_eq_false_2, decide_True by done.
Qed.
End nodes.

Lemma node_passes L (l : list (nat * txn_t)) ids : Forall (λ x : nat * txn_t, (∃ t, sw_txn_make 0 L x.2 = Ok t) ∧ (x.1 < length ids)%nat) l →
  ∃ ids' m, ofold (node_pass L) l (ids, ∅) = Ok (ids', m) ∧ counts m ((λ x, passes_of L x.2) <$> l)
    ∧ ∀ j, ids' !! j = (λ base, base ++ ((λ x, passes_of L x.2) <$> filter (λ x, x.1 = j) l)) <$> ids !! j.
Proof.
  intros Hall. destruct (ofold_total (λ pre st, counts st.2 ((λ x, passes_of L x.2) <$> pre)
    ∧ ∀ j, st.1 !! j = (λ base, base ++ ((λ x, passes_of L x.2) <$> filter (λ x, x.1 = j) pre)) <$> ids !! j) (node_pass L) l (ids, ∅))
    as ([ids' m] & H & Hc & Hi); [| |by exists ids', m].
  { split; [apply counts_nil|]. intros j. cbn [fst]. destruct (ids !! j); cbn; [by rewrite app_nil_r|done]. }
  intros pre [j txn] post [ids1 m1] Hcut [Hc Hi]. cbn [fst snd] in Hc, Hi. rewrite Hcut in Hall. apply Forall_app in Hall as [_ [[[t Ht] Hj] _]%Forall_cons].
  cbn [fst snd] in Ht, Hj. destruct (lookup_lt_is_Some_2 ids j Hj) as [base Hbase]. pose proof (Hi j) as Hij. rewrite Hbase in Hij. cbn in Hij.
  assert (length (passes t) = passes_of L txn) as Hn by (unfold passes_of; by rewrite Ht).
  unfold node_pass. cbn [fst snd]. rewrite Ht. cbn [mbind outcome_bind]. rewrite (aget_some _ _ _ Hij). cbn [mbind outcome_bind].
  rewrite aset_lt by (by eapply lookup_lt_Some). cbn [mbind outcome_bind]. eexists. split; [done|]. cbn [fst snd]. rewrite fmap_app, Hn. split; [by apply counts_bump|].
  intros j'. rewrite filter_app, fmap_app. destruct (decide (j' = j)) as [->|Hne].
  - rewrite list_lookup_insert_eq by (by eapply lookup_lt_Some). rewrite Hbase, filter_cons_True by done. cbn. by rewrite <-app_assoc.
  - rewrite list_lookup_insert_ne, Hi, filter_cons_False by done. by rewrite filter_nil, app_nil_r.
Qed.

Lemma max_pass_app l1 l2 : max_pass (l1 ++ l2) = Nat.max (max_pass l1) (max_pass l2).
Proof.
  unfold max_pass. rewrite foldl_app. generalize (foldl Nat.max 0%nat l1). intros a.
  assert (∀ l a, foldl Nat.max a l = Nat.max a (foldl Nat.max 0%nat l)) as H; [|apply H].
  clear. induction l as [|x l IH]; intros a; cbn [foldl]; [lia|]. rewrite (IH (Nat.max a x)), (IH (Nat.max 0 x)). lia.
Qed.

Lemma passes_of_nil L : passes_of L [] = 0%nat.
Proof. reflexivity. Qed.

Section distribution.
Context (txns : list txn_t).
Hypothesis Hlen : Forall (λ txn : txn_t, (length txn ≤ 100)%nat) txns.
Notation node := (key_nodes (get_key_cts txns)).2.
Notation all := (zip (seq 0 (length txns)) txns).

(** The parts a node has, its layout, and the passes of a transaction on it. *)
Definition node_parts (n : nat) : list txn_t := filter (λ p : list Z, p ≠ []) (part node n <$> txns).
Definition node_layout (n : nat) : layout_t := layout_make (node_parts n).
Definition node_passes_of (n : nat) (txn : txn_t) : nat := passes_of (node_layout n) (part node n txn).

Lemma filter_snd (n s : nat) (l : list (list Z)) : (subs node n (zip (seq s (length l)) l)).*2 = filter (λ p : list Z, p ≠ []) (part node n <$> l).
Proof.
  unfold subs. revert s. induction l as [|t l IH]; intros s; [done|]. cbn [length seq zip zip_with fmap list_fmap fst snd].
  rewrite !filter_cons. cbn [snd]. case_decide; rewrite ?fmap_cons; cbn [snd]; [f_equal|]; apply IH.
Qed.

Lemma subs_at (n j : nat) (txn : list Z) : txns !! j = Some txn →
  filter (λ x, x.1 = j) (subs node n all) = if decide (part node n txn ≠ []) then [(j, part node n txn)] else [].
Proof.
  intros Hj. unfold subs.
  assert (∀ (l : list (list Z)) s i, l !! i = Some txn → filter (λ x : nat * list Z, x.1 = (s + i)%nat)
    (filter (λ y : nat * list Z, y.2 ≠ []) ((λ x : nat * list Z, (x.1, part node n x.2)) <$> zip (seq s (length l)) l))
    = if decide (part node n txn ≠ []) then [((s + i)%nat, part node n txn)] else []) as H; [|by apply (H txns 0%nat j)].
  assert (∀ (l : list (list Z)) s i, (i < s)%nat → filter (λ x : nat * list Z, x.1 = i)
    (filter (λ y : nat * list Z, y.2 ≠ []) ((λ x : nat * list Z, (x.1, part node n x.2)) <$> zip (seq s (length l)) l)) = []) as Hlow.
  { induction l as [|t l IH]; intros s i Hi; [done|]. cbn [length seq zip zip_with fmap list_fmap fst snd]. rewrite filter_cons. cbn [snd].
    case_decide; [rewrite filter_cons_False by (cbn; lia)|]; apply IH; lia. }
  clear Hj. induction l as [|t l IH]; intros s [|i] Hi; try done; cbn [length seq zip zip_with fmap list_fmap fst snd]; rewrite filter_cons; cbn [snd].
  - injection Hi as ->. rewrite Nat.add_0_r. repeat case_decide; try done; [rewrite filter_cons_True by done; f_equal|]; apply Hlow; lia.
  - rewrite Nat.add_succ_r, <-Nat.add_succ_l. destruct (decide (part node n t ≠ [])); [rewrite filter_cons_False by (cbn; lia)|]; by apply IH.
Qed.

Lemma subs_fit n : Forall (λ x : nat * txn_t, (∃ t, sw_txn_make 0 (node_layout n) x.2 = Ok t) ∧ (x.1 < length txns)%nat) (subs node n all).
Proof.
  apply Forall_forall. intros [j p] Hin. cbn [fst snd]. pose proof Hin as Hp. unfold subs in Hin. apply list_elem_of_filter in Hin as [_ Hin].
  apply list_elem_of_fmap in Hin as ([j' txn] & [= -> ->] & Hin). apply list_elem_of_lookup in Hin as [i Hi]. apply lookup_zip_Some in Hi as [Hs Ht]. cbn [snd].
  apply lookup_seq in Hs as [-> Hs]. split; [|done]. destruct (fits_made (node_parts n) (part node n txn)) as (t & Ht' & _); [|by exists t]. split.
  - trans (length txn); [apply length_filter|]. by eapply (Forall_lookup_1 _ _ _ _ Hlen).
  - intros k Hk. apply list_elem_of_In, in_concat. exists (part node n txn). rewrite <-!list_elem_of_In. split; [|done].
    apply list_elem_of_fmap_2 with (f := snd) in Hp. rewrite filter_snd in Hp. exact Hp.
Qed.

Lemma ofold_fmap {A B C} (f : B → A → outcome B) (g : C → A) l b : ofold f (g <$> l) b = ofold (λ b x, f b (g x)) l b.
Proof. revert b. induction l as [|x l IH]; intros b; cbn [fmap list_fmap ofold]; [done|]. destruct (f b (g x)); cbn [mbind outcome_bind]; [apply IH|done]. Qed.

Record stats_ok (ns : list nat) (ids : list (list nat)) (stats : list (gmap nat nat)) : Prop := {
  so_len : length ids = length txns;
  so_stats : Forall2 (λ n m, counts m (passes_of (node_layout n) <$> node_parts n)) ns stats;
  so_max : ∀ j txn els, txns !! j = Some txn → ids !! j = Some els → max_pass els = max_pass ((λ n, node_passes_of n txn) <$> ns);
}.

Lemma node_stats_ok ns ids stats n : stats_ok ns ids stats →
  ∃ ids' stats', node_stats (ids, stats) (subs node n all) = Ok (ids', stats') ∧ stats_ok (ns ++ [n]) ids' stats'.
Proof.
  intros [Hl Hs Hm]. unfold node_stats. cbn [fst snd].
  assert ((subs node n all).*2 = node_parts n) as Hsnd by (exact (filter_snd n 0 txns)).
  rewrite Hsnd. fold (node_layout n).
  destruct (node_passes (node_layout n) (subs node n all) ids) as (ids' & m & -> & Hc & Hi); [rewrite Hl; apply subs_fit|].
  cbn [mbind outcome_bind]. eexists _, _. split; [done|]. split.
  - rewrite <-Hl. apply Nat.le_antisymm; apply Nat.le_ngt; intros Hlt; apply lookup_lt_is_Some_2 in Hlt as [x Hx].
    + pose proof (Hi (length ids)) as E. rewrite Hx, (lookup_ge_None_2 ids) in E by lia. done.
    + pose proof (Hi (length ids')) as E. rewrite (lookup_ge_None_2 ids'), Hx in E by lia. done.
  - apply Forall2_app; [done|]. constructor; [|constructor]. rewrite <-Hsnd, <-list_fmap_compose. exact Hc.
  - intros j txn els Hj He. rewrite Hi in He. destruct (ids !! j) as [base|] eqn:E; [|done]. cbn in He. injection He as <-.
    rewrite max_pass_app, fmap_app, max_pass_app, (Hm j txn base Hj E). f_equal. pose proof (subs_at n j txn Hj) as Hat.
    rewrite Hat. unfold node_passes_of. destruct (decide (part node n txn ≠ [])) as [|Hnil]; [done|].
    apply dec_stable in Hnil. cbn [fmap list_fmap]. rewrite Hnil. done.
Qed.

Lemma all_stats_ok : ∃ ids stats, ofold node_stats ((λ n, subs node n all) <$> seq 0 N_NODES) (replicate (length txns) [], []) = Ok (ids, stats)
  ∧ stats_ok (seq 0 N_NODES) ids stats.
Proof.
  rewrite ofold_fmap. destruct (ofold_total (λ ns st, stats_ok ns st.1 st.2) (λ st n, node_stats st (subs node n all)) (seq 0 N_NODES) (replicate (length txns) [], []))
    as ([ids stats] & H & Hok); [| |by exists ids, stats].
  - split; cbn [fst snd]; [by rewrite length_replicate|constructor|]. intros j txn els _ [-> _]%lookup_replicate. done.
  - intros pre n post [ids stats] _ Hok. destruct (node_stats_ok pre ids stats n Hok) as (ids' & stats' & H & Hok'). by exists (ids', stats').
Qed.
End distribution.

(** [distr_layout_test] spreads the keys of a workload over six switches
    and reports what that costs.  Every key has one node; the operations on the
    keys of two nodes differ by at most [d] when no key has more than [d]; each node
    lays out its own parts of the transactions; and the report counts, for each
    node, the passes of its parts that are not empty and, in total, every transaction once,
    under the largest number of passes one of its parts takes. *)
Theorem distr_layout_correct txns d :
  Forall (λ txn : txn_t, (length txn ≤ 100)%nat) txns → Forall (λ kc, kc.2 ≤ d) (get_key_cts txns) → 0 ≤ d →
  let '(freqs, node) := key_nodes (get_key_cts txns) in
  (∀ k, k ∈ concat txns → ∃ n, node !! k = Some n ∧ (n < N_NODES)%nat)
  ∧ length freqs = N_NODES ∧ spread freqs d
  ∧ (∀ n, (n < N_NODES)%nat → freqs !!! n = load node n (get_key_cts txns))
  ∧ ∃ stats total, distr_layout txns = Ok (stats, total)
    ∧ Forall2 (λ n m, counts m (passes_of (node_layout txns n) <$> node_parts txns n)) (seq 0 N_NODES) stats
    ∧ counts total ((λ txn, max_pass ((λ n, node_passes_of txns n txn) <$> seq 0 N_NODES)) <$> txns).
Proof.
  intros Hlen Hd Hd0. destruct (key_nodes (get_key_cts txns)) as [freqs node] eqn:E.
  destruct (key_nodes_ok d (get_key_cts txns)) as [Hn Hsp Hdom Hlt Hld]; [apply get_key_cts_NoDup|done| |].
  { apply Forall_forall. intros [k c] Hkc. rewrite Forall_forall in Hd. split; [|by apply Hd]. apply get_key_cts_spec in Hkc as [-> _]. cbn. lia. }
  rewrite E in Hn, Hsp, Hdom, Hlt, Hld. cbn [fst snd] in *. split; [|split; [done|split; [done|split; [done|]]]].
  { intros k Hk%get_key_cts_keys%Hdom. destruct Hk as [n Hk]. exists n. split; [done|by eapply Hlt]. }
  destruct (all_stats_ok txns Hlen) as (ids & stats & Hrun & [Hl Hs Hm]). unfold distr_layout.
  rewrite E in Hrun |- *. cbn [snd] in Hrun |- *. rewrite (add_parts_spec node Hlt). cbn [mbind outcome_bind].
  match goal with |- context [ofold node_stats ?l ?b] => change (ofold node_stats l b) with (ofold node_stats ((λ n, subs node n (zip (seq 0 (length txns)) txns)) <$> seq 0 N_NODES) (replicate (length txns) [], [])) end.
  rewrite Hrun. cbn [mbind outcome_bind]. eexists _, _. split; [done|]. split; [done|].
  replace ((λ txn, max_pass ((λ n, node_passes_of txns n txn) <$> seq 0 N_NODES)) <$> txns) with (max_pass <$> ids); [apply counts_fold|].
  apply list_eq. intros j. rewrite !list_lookup_fmap. destruct (ids !! j) as [els|] eqn:Ej, (txns !! j) as [txn|] eqn:Et; cbn [fmap option_fmap option_map].
  - f_equal. by eapply Hm.
  - apply lookup_lt_Some in Ej. apply lookup_ge_None_1 in Et. lia.
  - apply lookup_lt_Some in Et. apply lookup_ge_None_1 in Ej. lia.
  - done.
Qed.

Lemma distr_layout_correct_witness : ∃ stats total, distr_layout [[1; 2]; [2; 3]] = Ok (stats, total) ∧ length stats = 6%nat.
Proof.
  destruct (key_nodes (get_key_cts [[1; 2]; [2; 3]])) as [freqs node] eqn:E. pose proof (distr_layout_correct [[1; 2]; [2; 3]] 2) as H. rewrite E in H.
  destruct H as (_ & _ & _ & _ & stats & total & Hr & Hs & _).
  - repeat constructor.
  - vm_compute. repeat constructor; discriminate.
  - lia.
  - exists stats, total. split; [exact Hr|]. rewrite <-(Forall2_length _ _ _ Hs). reflexivity.
Defined.

(** ** When keys are in use *)

Lemma interval_ops i m ops k : foldl (interval_op i) m ops !! k = if decide (k ∈ ops) then Some (default i (fst <$> m !! k), i) else m !! k.
Proof.
  revert m. induction ops as [|op ops IH]; intros m; cbn [foldl]; [by rewrite decide_False by apply not_elem_of_nil|]. rewrite IH.
  assert (∀ k', interval_op i m op !! k' = if decide (k' = op) then Some (default i (fst <$> m !! k'), i) else m !! k') as Hop.
  { intros k'. unfold interval_op. destruct (m !! op) as [[f l]|] eqn:E; (destruct (decide (k' = op)) as [->|]; [rewrite lookup_insert_eq|by rewrite lookup_insert_ne]);
      by rewrite E. }
  rewrite Hop. destruct (decide (k = op)) as [->|Hne].
  - rewrite (decide_True (P := op ∈ op :: ops)) by (by left). by destruct (decide (op ∈ ops)).
  - destruct (decide (k ∈ ops)) as [Hin|Hin]; [by rewrite decide_True by (by right)|].
    by rewrite decide_False by (rewrite elem_of_cons; tauto).
Qed.

(** The interval of a key: from the first to the last transaction that uses it. *)
Lemma intervals_spec txns k :
  match intervals txns !! k with
  | None => k ∉ concat txns
  | Some (first, last) => (∃ t, txns !! first = Some t ∧ k ∈ t) ∧ (∃ t, txns !! last = Some t ∧ k ∈ t)
      ∧ ∀ i (t : txn_t), txns !! i = Some t → k ∈ t → (first ≤ i ≤ last)%nat
  end.
Proof.
  unfold intervals. induction txns as [|t txns IH] using rev_ind; [apply not_elem_of_nil|].
  rewrite length_app. cbn [length]. rewrite Nat.add_1_r, seq_S, zip_with_app, foldl_app by (by rewrite length_seq). cbn [foldl zip_with fst snd].
  rewrite Nat.add_0_l, interval_ops. set (m := foldl _ ∅ _) in *. clearbody m.
  assert (∀ i (t' : txn_t), (txns ++ [t]) !! i = Some t' → i = length txns ∧ t' = t ∨ txns !! i = Some t') as Hcase.
  { intros i t' [Ht|[Hi Ht]]%lookup_app_Some; [by right|]. left. apply list_lookup_singleton_Some in Ht as [? ->]. split; [lia|done]. }
  case_decide as Hin.
  - assert (∃ t', (txns ++ [t]) !! length txns = Some t' ∧ k ∈ t') as Hlast by (exists t; by rewrite list_lookup_middle).
    revert IH. destruct (m !! k) as [[f l]|]; cbn [fmap option_fmap option_map default fst id]; intros IH.
    + destruct IH as ((t1 & H1 & Hk1) & _ & Hall). split; [exists t1; by rewrite lookup_app_l by (by eapply lookup_lt_Some)|split; [done|]].
      intros i t' Hi Hk. pose proof (lookup_lt_Some _ _ _ Hi) as Hlt. rewrite length_app in Hlt. cbn in Hlt. pose proof (lookup_lt_Some _ _ _ H1).
      destruct (Hcase i t' Hi) as [[-> ->]|Hi']; [lia|]. destruct (Hall i t' Hi' Hk). lia.
    + split; [done|split; [done|]]. intros i t' Hi Hk. destruct (Hcase i t' Hi) as [[-> _]|Hi']; [lia|]. exfalso. apply IH.
      apply list_elem_of_In, in_concat. exists t'. rewrite <-!list_elem_of_In. split; [by eapply list_elem_of_lookup_2|done].
  - revert IH. destruct (m !! k) as [[f l]|]; intros IH.
    + destruct IH as ((t1 & H1 & Hk1) & (t2 & H2 & Hk2) & Hall). split_and!.
      * exists t1. by rewrite lookup_app_l by (by eapply lookup_lt_Some).
      * exists t2. by rewrite lookup_app_l by (by eapply lookup_lt_Some).
      * intros i t' Hi Hk. destruct (Hcase i t' Hi) as [[_ ->]|Hi']; [done|by eapply Hall].
    + rewrite concat_app. cbn [concat]. rewrite app_nil_r, elem_of_app. tauto.
Qed.

(** A key used by one transaction only has an interval of length zero, and the
    program prints an infinite density. *)
Example density_single : density 1 (5, 5)%nat = S754_infinity false.
Proof. reflexivity. Qed.

(** ** Which transactions conflict *)

Lemma freqs_of_count txns k : default 0%nat (freqs_of txns !! k) = occurrences k (concat txns).
Proof.
  unfold freqs_of. induction txns as [|t txns IH] using rev_ind; [done|]. rewrite foldl_app, concat_app. cbn [foldl concat]. rewrite app_nil_r.
  unfold occurrences in *. rewrite filter_app, length_app, <-IH. generalize (foldl (foldl freq_op) ∅ txns). intros m. clear IH.
  revert m. induction t as [|x t IH]; intros m; cbn [foldl]; [cbn; lia|]. rewrite IH, filter_cons. unfold freq_op. destruct (decide (x = k)) as [->|].
  - rewrite lookup_insert_eq. cbn. lia.
  - by rewrite lookup_insert_ne.
Qed.

Lemma ana_notes j t past : ∃ past', ofold (ana_note j) t past = Ok past' ∧ ∀ k, past' !! k = if decide (k ∈ t) then Some j else past !! k.
Proof.
  destruct (ofold_total (λ pre p, ∀ k, p !! k = if decide (k ∈ pre) then Some j else past !! k) (ana_note j) t past) as (p & H & Hp); [done| |by exists p].
  intros pre x post p _ Hp. unfold ana_note. set (p' := match p !! x with None => _ | Some _ => _ end).
  assert (p' = <[x := j]> p) as -> by (unfold p', map_insert; by destruct (p !! x)). rewrite lookup_insert_eq, bool_decide_eq_true_2 by done.
  cbn [assert mbind outcome_bind]. eexists. split; [done|]. intros k. destruct (decide (k = x)) as [->|Hne].
  - rewrite lookup_insert_eq, decide_True; [done|]. apply elem_of_app. right. by left.
  - rewrite lookup_insert_ne, Hp by done. destruct (decide (k ∈ pre)) as [Hin|Hin]; [by rewrite decide_True by (apply elem_of_app; by left)|].
    rewrite decide_False; [done|]. rewrite elem_of_app, list_elem_of_singleton. tauto.
Qed.

(** What the analysis has printed after the transactions [pre]. *)
Record analysed (freqs : gmap Z nat) (pre : list txn_t) (a : analysis) : Prop := {
  an_past : ∀ k, is_Some (past_ref a !! k) ↔ k ∈ concat pre;
  an_last : ∀ k j, past_ref a !! k = Some j → ∃ t, pre !! j = Some t ∧ k ∈ t ∧ k ∉ concat (drop (S j) pre);
  an_refd : ∀ j, j ∈ refd a → (j < length pre)%nat;
  an_printed : length (printed a) = length pre ∧ ∀ i (t : list Z) p, pre !! i = Some t → printed a !! i = Some p →
    p = (λ k, (k, default 0%nat (freqs !! k))) <$> filter (λ k, k ∈ concat (take i pre)) t;
}.

Lemma ana_ops (freqs past : gmap Z nat) (cs : gset nat) (t : list Z) :
  (foldl (λ st k, ana_op freqs st past k) (cs, []) t).2 = (λ k, (k, default 0%nat (freqs !! k))) <$> filter (λ k, is_Some (past !! k)) t
  ∧ ∀ j, j ∈ (foldl (λ st k, ana_op freqs st past k) (cs, []) t).1 → j ∈ cs ∨ ∃ k, k ∈ t ∧ past !! k = Some j.
Proof.
  apply (foldl_inv (λ pre st, st.2 = (λ k, (k, default 0%nat (freqs !! k))) <$> filter (λ k, is_Some (past !! k)) pre ∧
    ∀ j, j ∈ st.1 → j ∈ cs ∨ ∃ k, k ∈ t ∧ past !! k = Some j)); [split; [done|by left]|].
  intros pre k post [cs' l] Hcut [Hl Hj]. cbn [fst snd] in *. unfold ana_op. cbn [fst snd]. rewrite filter_app, filter_cons, filter_nil.
  destruct (past !! k) as [j0|] eqn:E; cbn [fst snd].
  - rewrite decide_True, fmap_app by (by eexists). split; [by rewrite Hl|]. intros j [->%elem_of_singleton|?]%elem_of_union; [|by apply Hj].
    right. exists k. split; [|done]. rewrite Hcut. apply elem_of_app. right. by left.
  - rewrite decide_False, app_nil_r by (by intros [? ?]). done.
Qed.

Lemma ana_txn_ok freqs (pre : list txn_t) a (t : list Z) : analysed freqs pre a → ∃ a', ana_txn freqs a (@pair nat txn_t (length pre) t) = Ok a' ∧ analysed freqs (pre ++ [t]) a'.
Proof.
  intros [Hp Hl Hr [Hn Hpr]]. unfold ana_txn. cbn [fst snd]. destruct (ana_notes (length pre) t (past_ref a)) as (past & -> & Hpast). cbn [mbind outcome_bind].
  destruct (ana_ops freqs (past_ref a) (refd a) t) as [H2 H1]. eexists. split; [done|]. split; cbn [past_ref refd printed].
  - intros k. rewrite Hpast, concat_app, elem_of_app. cbn [concat]. rewrite app_nil_r, <-Hp. destruct (decide (k ∈ t)); [|tauto].
    split; [by right|by eexists].
  - intros k j. rewrite Hpast. destruct (decide (k ∈ t)) as [Hin|Hout].
    + intros [= <-]. exists t. rewrite list_lookup_middle by done. split_and!; [done|done|]. rewrite drop_ge by (rewrite length_app; cbn; lia). apply not_elem_of_nil.
    + intros Hk. destruct (Hl k j Hk) as (t' & Ht' & Hk' & Hno). pose proof (lookup_lt_Some _ _ _ Ht'). exists t'. rewrite lookup_app_l by done. split_and!; [done|done|].
      rewrite drop_app_le by lia. rewrite concat_app, elem_of_app. cbn [concat]. rewrite app_nil_r. tauto.
  - intros j Hj. rewrite length_app. cbn [length]. destruct (H1 j Hj) as [Hj'|(k & _ & Hk)]; [specialize (Hr j Hj'); lia|].
    destruct (Hl k j Hk) as (t' & Ht' & _). apply lookup_lt_Some in Ht'. lia.
  - rewrite !length_app. cbn [length]. split; [lia|]. intros i u p Hi Hpi. destruct (decide (i < length pre)%nat) as [Hlt|Hge].
    + rewrite lookup_app_l in Hi by done. rewrite lookup_app_l in Hpi by lia. rewrite take_app_le by lia. by apply Hpr.
    + assert (i = length pre) as -> by (apply lookup_lt_Some in Hi; rewrite length_app in Hi; cbn in Hi; lia).
      rewrite list_lookup_middle in Hi by done. rewrite <-Hn, list_lookup_middle in Hpi by done. injection Hi as <-. injection Hpi as <-.
      rewrite take_app_length, H2. f_equal. apply list_filter_iff. intros k. apply Hp.
Qed.

(** [batch_analysis] returns, its assertion holds, and it prints for every
    transaction the keys that an earlier transaction has, with the number of operations on
    them. *)
Lemma batch_analysis_correct (cold : list txn_t) : ∃ n out, batch_analysis cold = Ok (n, out) ∧ (n ≤ length cold)%nat
  ∧ ∀ i (t : list Z), cold !! i = Some t →
      out !! i = Some ((λ k, (k, occurrences k (concat cold))) <$> filter (λ k, k ∈ concat (take i cold)) t).
Proof.
  unfold batch_analysis.
  assert (∀ post pre a, cold = pre ++ post → analysed (freqs_of cold) pre a →
    ∃ a', ofold (ana_txn (freqs_of cold)) (zip (seq (length pre) (length post)) post) a = Ok a' ∧ analysed (freqs_of cold) cold a') as Hrun.
  { induction post as [|t post IH]; intros pre a Hcut Ha; [rewrite app_nil_r in Hcut; subst pre; by exists a|].
    destruct (ana_txn_ok _ pre a t Ha) as (a1 & H1 & Ha1). cbn [length seq zip zip_with ofold]. rewrite H1. cbn [mbind outcome_bind].
    destruct (IH (pre ++ [t]) a1) as (a2 & H2 & Ha2); [by rewrite <-app_assoc|done|]. exists a2. split; [|done].
    rewrite length_app, Nat.add_1_r in H2. exact H2. }
  destruct (Hrun cold [] (MkAna ∅ ∅ [])) as (a & Ha & [_ _ Hr [Hn Hp]]); [done| |].
  { split; cbn [past_ref refd printed]; [|done|done|split; [done|by intros]]. intros k. rewrite lookup_empty. cbn [concat]. rewrite elem_of_nil. split; [by intros [? ?]|done]. }
  cbn [length] in Ha. rewrite Ha. cbn [mbind outcome_bind]. eexists _, _. split; [done|]. split.
  - rewrite <-(length_seq (length cold) 0), <-(size_list_to_set (C := gset nat) (seq 0 (length cold))) by apply NoDup_seq. apply subseteq_size. intros j Hj.
    apply elem_of_list_to_set, elem_of_seq. specialize (Hr j Hj). lia.
  - intros i t Hi. destruct (lookup_lt_is_Some_2 (printed a) i) as [p Hpi]; [rewrite Hn; by eapply lookup_lt_Some|]. rewrite Hpi. f_equal.
    rewrite (Hp i t p Hi Hpi). apply list_fmap_ext. intros _ k _. by rewrite freqs_of_count.
Qed.
